(* ===== verification/_CoqProject ===== *)
-Q . S2P
Prelude.v
GoText.v
Float64.v
Hashes.v
Aes.v
Json.v
Paths.v
ObjectMeta.v
BlobStore.v
RawStore.v
LocalStore.v
AuditLog.v
CasStore.v
CasDigest.v
CasTheorems.v
Repair.v
RepairProps.v
Versioning.v
VersionTheorems.v
VersionProps.v
Volume.v
VolumeTheorems.v
VolumeProps.v
Access.v
Crush.v
Ring.v
Wire.v
Lease.v
Chunked.v
Peers.v
Gossip.v
Query.v
Limits.v
Durability.v
Keys.v
Lifecycle.v
Rebalance.v
CasRuns.v
Protocol.v
Notify.v
Ingest.v
Client.v
EndToEnd.v
Crypto.v
Adaptive.v
Encrypted.v
Confidential.v
SigV4.v
S3List.v
S3Http.v
S3Gateway.v
S3Theorems.v
S3Wire.v
MomoFs.v
MetaRpc.v
Config.v
Modes.v
Fuse.v
Oprf.v
Threshold.v
S3Blob.v
Factory.v
