(* ===== verification/Prelude.v ===== *)
(** * Momo: a verification library

    Momo is a content-addressed object store with replication, versioning and a
    gossip cluster (src/src).  This library models the parts that carry its logic
    as executable Rocq definitions and proves what makes them correct.

    ** How the program is put together

    A [CASStore] (storage/storage.go) keeps names, digests, reference counts and
    tombstones in database buckets and the bytes in a [BlobStore]
    (storage/blobstore.go): a directory tree, append-only volumes, a raw device.
    Reads are verified against the digest; a scrub marks corrupt blobs and a
    rebuild fetches them from peers.  Versions, object locks, access control and
    an audit log live in further buckets of the same database.  Nodes find and
    watch each other by gossip (p2p/gossip.go) over a TCP transport, answer each
    other's queries, agree on leases by majority, and place objects with CRUSH
    and a metadata ring.  Clients reach a node through limits on failed logins and
    on connections, speak the native protocol over TCP or QUIC
    (transport/momo_tcp.go, momo_quic.go) or the S3 dialect
    (transport/s3_communicator.go), and upload into the handler of the daemon
    (server/server.go), which stores the object and forwards it to the replicas of
    its placement.  The client can encrypt what it sends, and a backend what it
    stores (crypto/).

    ** Files

    - [Prelude]: bytes, machine integers, results, readers, ordered buckets,
      stable sorting, tactics and the lemmas every file shares.
    - [GoText], [Float64], [Hashes], [Json]: what the code uses of Go's strings,
      strconv, path, float64, SHA-256, CRC-32C, HMAC and encoding/json.
    - [Paths]: common/string.go, common/parse.go.  [ObjectMeta]: the object record
      of storage/storage.go.
    - [BlobStore]: the backend interface as a class with its laws;
      [RawStore] (raw_blobstore.go), [LocalStore] (local_blobstore.go) and
      [Volume], [VolumeTheorems], [VolumeProps] (volume_needle.go,
      volume_blobstore.go) are backends.
    - [CasStore], [CasTheorems]: the store itself, garbage collection and
      tombstones (storage.go, gc.go).  [CasDigest]: its operations one digest at a
      time, with hypotheses about that digest only.  [Repair], [RepairProps]: scrub,
      quarantine, degraded reads and rebuild (integrity.go, rebuild.go,
      read_verifier.go).  [CasRuns]: runs of all of these, puts without content and
      dropped blobs included.
    - [Versioning], [VersionTheorems], [VersionProps]: versioning.go,
      objectlock.go.  [AuditLog], [Access]: the audit log, tenants and ACLs of
      storage.go.  [Durability]: durability.go.  [Lifecycle]: lifecycle.go and the
      S3 headers of storage.go and common/s3meta.go.
    - [Crush] (common/crush.go), [Ring] (p2p/metadata_ring.go), [Wire]
      (p2p/types.go), [Lease] (p2p/lease.go), [Peers] (types.go, peer_map.go,
      tcp_transport.go), [Gossip] (gossip.go), [Query] (scatter_gather.go,
      server/query_handler.go, server/p2p_adapters.go).
    - [Limits]: common/auth_limiter.go, server/concurrency.go.  [Chunked]:
      transport/aws_chunked.go.  [Keys]: common/keyregistry.go, rotation.go,
      secrets.go.  [Rebalance]: server/rebalance.go, rebuild_source.go,
      bandwidth.go, storage/rebalance_blobs.go.
    - [Protocol]: momo_tcp.go, momo_quic.go, common/auth.go.  [Notify]:
      storage/notification.go.  [Ingest]: the upload handler of server/server.go,
      file.go and replication.go.  [Client]: client/client.go and pheromone.go.
      [EndToEnd]: both ends of an upload composed.
    - [Aes]: AES-256-GCM and HKDF.  [Crypto]: crypto/crypto.go, streaming.go,
      envelope.go.  [Adaptive] (adaptive_blobstore.go) and [Encrypted]
      (encrypted_blobstore.go) are backends over other backends.  [Confidential]:
      the encrypting client.
    - [SigV4]: transport/sigv4.go.  [S3List]: the listings of s3_communicator.go.
      [S3Http]: what s3_communicator.go reads out of a request and writes into an
      answer.  [S3Gateway]: authentication, routing and the handlers of
      s3_communicator.go, s3_versioning.go, s3_objectlock.go, s3_lifecycle.go and
      s3_notification.go.  [S3Theorems]: their properties.  [S3Wire]: the methods
      the upload handler and a forwarding node use, common/checksum.go, and the
      handler of the daemon over an S3 connection.
    - [MomoFs]: momofs/momofs.go, a file system over the store.  [Fuse]:
      momofs/fuse.go, its mount, with open files as buffers.
    - [MetaRpc]: p2p/metadata_rpc.go and server/version_replication.go.  [Oprf]:
      p2p/oprf_rpc.go and server/oprf_service.go.
    - [S3Blob]: storage/s3_blobstore.go, a backend whose requests the verification
      of [SigV4] accepts.
    - [Factory]: storage/factory.go, the choice of backend and barrier.
    - [Threshold]: crypto/oprf.go and client/oprf.go.
    - [Config]: common/config.go.  [Modes]: metrics/metrics.go,
      metrics/replication.go and the mode-change port of server/replication.go.

    The store grows by records around it: [CASStore] is in [VStore] (versions and
    locks), [LStore] (lifecycle rules and S3 headers) and [NStore] (notification
    rules).  A connection is the bytes that arrive and the bytes sent so far;
    [M S A] is a computation over a connection and a state [S] that may fail.

    Definitions carry the names of the source.  State is passed explicitly; a
    fallible function returns [result]; a Go error is its errno, its text is not
    modelled.  Time, randomness, the network and the operating system's answers
    are arguments.  A function that blocks is split at its waits, and a step
    relation ([lease_step], [gossip_step], [net_step], [commit_step], [slot_step],
    [spared_run]) interleaves the parts.

    ** What is shown

    - Storage: for a digest that no step harms (no put without content while it is
      unknown, no drop of its blob), in any run a visible name has its record and its
      bytes and is read cleanly; a put is read back, a delete touches no other name
      whose digest is counted; a verified read that ends cleanly delivered the digest,
      except that a degraded read hands out what the backend returns after the repair.
      Examples show what the other steps do: a put without content and a dropped blob
      leave names without bytes, a scrub leaves names that are no longer counted and a
      mark that outlives a re-upload.  The directory of files refines a map from
      digests to bytes under every outcome of its system calls, also across crashes; a
      scrub finds exactly the corrupt blobs and, given one honest peer and a backend
      whose puts replace, a read or a rebuild restores them.
    - Versions and locks: exactly one latest version; the record of a version under
      COMPLIANCE retention cannot be deleted through the gateway before its time, its
      bytes can (by a batch delete); replicas converge, listings page without loss.
    - Accountability: authorisation is exactly the existence of a granting entry,
      deny entries have no force; any change of the audit log is detected or exhibits a digest collision.
    - Cluster: leases exclude each other in an odd cluster whose holders see all
      members, with releases that are not late; without each of these conditions two
      nodes hold one lease.  The failure detector is accurate and
      complete, connections are never stale, cluster lists are exact, placement is
      spread and moves minimally, every wire format round-trips and untrusted
      input is checked.
    - Limits: backoff cannot be bypassed, slots never exceed the capacity.
    - Housekeeping: a lifecycle pass removes exactly the expired objects,
      rebalancing drops a blob only after an owner acknowledged it or said it knows
      it, which can be the loss of the last copy, and migration drops none the node
      owns; a rotation activates its key, retires the others of
      the purpose and loses none.
    - Uploads: the chunk decoder accepts exactly the correctly signed streams; a
      handshake succeeds exactly on a fresh, correctly authenticated frame and
      changes nothing otherwise; the handler acknowledges only what is stored and
      forwarded; client and server composed store the file and acknowledge it; a
      download tries every replica before it fails, and its destination starts with
      the content of the one that served it.
    - Confidentiality: encrypted streams and envelopes round-trip, every accepted
      stream is one the encoder produced, truncation is detected; an encrypted
      upload is a plain upload of the ciphertext.
    - S3: a signature binds the request it was made for; paging through a listing
      yields every key and common prefix exactly once.
      A request without valid credentials gets an error and changes at most the role
      of its connection; no request is decided by the tenants' rules, since no tenant
      is ever set; a range is answered with
      exactly its bytes; a multipart upload stores its parts in the order of their
      numbers, however they arrive; the final acknowledgement of an upload, which
      forwarding nodes wait for, is sent only when it is stored and forwarded; a PUT with an unsigned payload is answered with 200,
      not stored, and removes what had its name; a forwarded request cannot be
      given extra header lines.
    - Files: a file that was written is read back, a listing is the manifest and the
      native objects below the directory, each name once.  An open file of the
      mount behaves as one file, whatever its buffer does underneath.
    - Configuration: what the loader accepts is within the bounds of [config_ok] and
      [sections_ok]; the [metrics] interval and the rotation interval are not checked.
      Started with it, the controller of replication modes
      stays in its order and above the durability floor; its announcements are
      refused by the port they are sent to, while a change made by the handshake
      reaches every daemon.  Every accepted configuration builds a store, and in the
      default mode what it acknowledges survives a power loss.
    - Version replication: delivered records converge, whatever their order, but
      the running node routes none of them, so every replication times out.
    - OPRF: a result is given out only with a threshold of distinct shares, and
      client, daemon and peers composed derive one key for a tag, whatever blind is
      drawn and whichever quorum answers.

    Where the code does not do what it means to, a theorem or an example states
    what it does instead.

    ** Bounds and fuel

    Integers keep their width ([int64], [uint32], ...) wherever the code can wrap.
    Loops over data are structural; those that are not take fuel computed from
    their input (the bytes left to read, the segments of a path, the nine turns of
    the fanout loop) and the theorems show that the fuel suffices, so that the
    result is always produced.  SHA-256 and CRC-32C are written out and evaluate;
    no property assumes that they are injective: where a collision matters it is the
    other branch of the conclusion, between strings that are named there, or the
    property asks that the store holds no other content under the digests at hand.

    ** Not modelled

    Process start-up, logging and metrics endpoints; TLS and QUIC sessions,
    listeners and deadlines (libraries around I/O); net/http, encoding/xml, the INI
    parser and the parsing of dates, whose results are arguments; the elliptic
    curve under the OPRF (an interface with its laws).  *)
From Stdlib Require Strings.Byte Strings.String.
From Stdlib Require Export ZArith Lia.
From stdpp Require Export sorting base tactics numbers list gmap.
Export Stdlib.Strings.String.StringSyntax.
Delimit Scope string_scope with string.


(** ** Bytes and Go strings

    A Go [string] and a Go [[]byte] are both sequences of 8-bit bytes: both are
    [bytes] here.  [bs] turns a literal into its byte sequence. *)
Notation byte := Byte.byte.
Notation bytes := (list Byte.byte).

#[export] Instance byte_eq_dec : EqDecision byte := Byte.byte_eq_dec.
#[export] Instance byte_inhabited : Inhabited byte := populate Byte.x00.

#[export] Instance byte_countable : Countable byte :=
  inj_countable Byte.to_N Byte.of_N Byte.of_to_N.

Definition bs (s : String.string) : bytes := String.list_byte_of_string s.
Arguments bs s%_string_scope.

Definition b2z (b : byte) : Z := Z.of_N (Byte.to_N b).

Definition z2b (z : Z) : byte :=
  match Byte.of_N (Z.to_N (z mod 256)) with
  | Some b => b
  | None => Byte.x00
  end.

(** ** Errors

    The errno values the modelled code wraps, and the sentinel errors that
    carry no errno.  Error texts are not modelled: two errors that differ only
    in their message are the same value. *)
Inductive errno :=
  | EPERM | ENOENT | EIO | EACCES | EEXIST | EINVAL | EFBIG | ENOSPC
  | ENAMETOOLONG | EBADMSG | EOVERFLOW | ENOTSUP | EHOSTUNREACH | ETIMEDOUT
  | ECANCELED | ENOTCONN | EPIPE | ECONNREFUSED | ENOSYS | EAGAIN | EPROTO
  | ENOTDIR | EISDIR | ENOTEMPTY | EROFS | ENOBUFS | E2BIG | EBUSY | EXDEV.

Inductive error :=
  | Errno (e : errno)          (* an error wrapping syscall.Errno e *)
  | ErrSyntax                  (* wraps EINVAL and strconv.ErrSyntax *)
  | ErrRange                   (* wraps EINVAL and strconv.ErrRange *)
  | ErrInvalidNeedleMagic
  | ErrCRC32Mismatch
  | ErrEOF                     (* io.EOF *)
  | ErrUnexpectedEOF           (* io.ErrUnexpectedEOF *)
  | ErrTampered                (* crypto.ErrTampered *)
  | ErrPlain.                  (* fmt.Errorf / errors.New with no errno *)

#[export] Instance errno_eq_dec : EqDecision errno.
Proof. solve_decision. Defined.
#[export] Instance error_eq_dec : EqDecision error.
Proof. solve_decision. Defined.

(** ** Results: the (value, error) return convention *)
Inductive result (A : Type) :=
  | Ok (a : A)
  | Err (e : error).
Arguments Ok {A} a.
Arguments Err {A} e.

Declare Scope momo_scope.
Delimit Scope momo_scope with momo.

Notation "'let!' x ':=' c 'in' k" :=
  (match c with Ok x => k | Err e__ => Err e__ end)
  (at level 200, x pattern, c at level 100, k at level 200) : momo_scope.
Open Scope momo_scope.

Definition is_ok {A} (r : result A) : bool :=
  match r with Ok _ => true | Err _ => false end.

(** ** Machine integers *)
Definition uint32 (z : Z) : Z := z mod 2 ^ 32.
Definition uint64 (z : Z) : Z := z mod 2 ^ 64.
Definition int64 (z : Z) : Z := (z + 2 ^ 63) mod 2 ^ 64 - 2 ^ 63.
Definition int32 (z : Z) : Z := (z + 2 ^ 31) mod 2 ^ 32 - 2 ^ 31.

Definition is_int64 (z : Z) : Prop := (- 2 ^ 63 <= z < 2 ^ 63)%Z.
Definition is_int32 (z : Z) : Prop := (- 2 ^ 31 <= z < 2 ^ 31)%Z.
Definition is_uint64 (z : Z) : Prop := (0 <= z < 2 ^ 64)%Z.
Definition is_uint32 (z : Z) : Prop := (0 <= z < 2 ^ 32)%Z.

Definition MaxInt64 : Z := 2 ^ 63 - 1.

(** ** Big-endian encoding (encoding/binary) *)
Fixpoint put_be (n : nat) (z : Z) : bytes :=
  match n with
  | O => []
  | S n' => z2b (z / 256 ^ Z.of_nat n') :: put_be n' z
  end.

Fixpoint get_be_acc (acc : Z) (b : bytes) : Z :=
  match b with
  | [] => acc
  | x :: b' => get_be_acc (acc * 256 + b2z x) b'
  end.
Definition get_be (b : bytes) : Z := get_be_acc 0 b.

(** ** Go slices: [s[lo:hi]] on a slice already known to be long enough *)
Definition slice (lo hi : nat) (b : bytes) : bytes := take (hi - lo) (drop lo b).

(** ** The stable sort of [sort.SliceStable] *)
Section StableSort.
Context {A : Type} (less : A → A → bool).

Fixpoint ins (x : A) (l : list A) : list A :=
  match l with
  | [] => [x]
  | y :: l' => if less y x then y :: ins x l' else x :: l
  end.

Definition stable_sort (l : list A) : list A := foldr ins [] l.
End StableSort.

(** What [sort.SliceStable] expects of its [less] argument. *)
Class StrictWeak {A : Type} (less : A → A → bool) : Prop := {
  sw_asym : ∀ x y, less x y = true → less y x = false;
  sw_ntrans : ∀ x y z, less x y = false → less y z = false → less x z = false
}.

(** ** Byte-lexicographic order: bbolt's key order and Go's string order *)
Fixpoint bytes_ltb (a b : bytes) : bool :=
  match a, b with
  | _, [] => false
  | [], _ :: _ => true
  | x :: a', y :: b' =>
      if (b2z x <? b2z y)%Z then true
      else if (b2z y <? b2z x)%Z then false
      else bytes_ltb a' b'
  end.

(** A bbolt bucket is a finite map from keys to values; a cursor walks it in
    ascending key order. *)
Notation bucket V := (gmap (list Byte.byte) V).

Definition cursor {V} (m : bucket V) : list (bytes * V) :=
  stable_sort (λ a b, bytes_ltb a.1 b.1) (map_to_list m).

(** ** io.Reader

    A reader delivers its content in chunks of the reader's choosing, then
    reports [io.EOF] ([rd_err = None]) or another error. *)
Record reader := Reader { rd_chunks : list bytes; rd_err : option error }.

Definition reader_of (b : bytes) : reader := Reader [b] None.

(** [io.ReadAll] *)
Definition read_all (r : reader) : result bytes :=
  match rd_err r with
  | None => Ok (concat (rd_chunks r))
  | Some e => Err e
  end.

(** ** Automation *)
Create HintDb momo.
Create HintDb momo_rw.

Ltac case_res :=
  repeat match goal with
  | H : context [match ?c with Ok _ => _ | Err _ => _ end] |- _ =>
      let E := fresh "E" in destruct c eqn:E; try discriminate
  | |- context [match ?c with Ok _ => _ | Err _ => _ end] =>
      let E := fresh "E" in destruct c eqn:E
  end.

(** Case analysis on the innermost [if] or [match] in the hypothesis or goal. *)
Ltac break_if :=
  match goal with
  | |- context [if ?c then _ else _] => let E := fresh "E" in destruct c eqn:E
  end.
Ltac break_if_in H :=
  match type of H with
  | context [if ?c then _ else _] => let E := fresh "E" in destruct c eqn:E
  end.

(** Turns the boolean integer tests of the source into propositions. *)
Ltac zbool :=
  repeat match goal with
  | H : (_ <? _)%Z = true |- _ => apply Z.ltb_lt in H
  | H : (_ <? _)%Z = false |- _ => apply Z.ltb_ge in H
  | H : (_ <=? _)%Z = true |- _ => apply Z.leb_le in H
  | H : (_ <=? _)%Z = false |- _ => apply Z.leb_gt in H
  | H : (_ =? _)%Z = true |- _ => apply Z.eqb_eq in H
  | H : (_ =? _)%Z = false |- _ => apply Z.eqb_neq in H
  | H : (_ >? _)%Z = true |- _ => rewrite Z.gtb_ltb in H
  | H : (_ >? _)%Z = false |- _ => rewrite Z.gtb_ltb in H
  | H : (_ >=? _)%Z = true |- _ => rewrite Z.geb_leb in H
  | H : (_ >=? _)%Z = false |- _ => rewrite Z.geb_leb in H
  | H : (_ <? _)%nat = true |- _ => apply Nat.ltb_lt in H
  | H : (_ <? _)%nat = false |- _ => apply Nat.ltb_ge in H
  | H : (_ <=? _)%nat = true |- _ => apply Nat.leb_le in H
  | H : (_ <=? _)%nat = false |- _ => apply Nat.leb_gt in H
  | H : (_ =? _)%nat = true |- _ => apply Nat.eqb_eq in H
  | H : (_ =? _)%nat = false |- _ => apply Nat.eqb_neq in H
  | H : _ && _ = true |- _ => apply andb_prop in H; destruct H
  | H : negb _ = true |- _ => apply negb_true_iff in H
  | H : negb _ = false |- _ => apply negb_false_iff in H
  end.

(** ** Bytes: lemmas *)
Lemma b2z_range b : (0 <= b2z b < 256)%Z.
Proof.
  unfold b2z. pose proof (Byte.to_N_bounded b). lia.
Qed.

Lemma b2z_z2b z : b2z (z2b z) = (z mod 256)%Z.
Proof.
  unfold b2z, z2b. pose proof (Z.mod_pos_bound z 256 ltac:(lia)).
  destruct (Byte.of_N _) as [b|] eqn:E.
  - apply Byte.to_of_N in E. rewrite E. lia.
  - apply Byte.of_N_None_iff in E. lia.
Qed.

Lemma b2z_inj a b : b2z a = b2z b → a = b.
Proof.
  unfold b2z. intros H%N2Z.inj.
  pose proof (Byte.of_to_N a) as Ha. pose proof (Byte.of_to_N b) as Hb.
  rewrite H in Ha. congruence.
Qed.

Lemma z2b_b2z b : z2b (b2z b) = b.
Proof.
  apply b2z_inj. rewrite b2z_z2b. apply Z.mod_small, b2z_range.
Qed.

Lemma length_put_be n z : length (put_be n z) = n.
Proof. induction n; simpl; congruence. Qed.
#[export] Hint Rewrite length_put_be : momo_rw.

Lemma get_be_acc_put_be n acc z :
  get_be_acc acc (put_be n z) = (acc * 256 ^ Z.of_nat n + z mod 256 ^ Z.of_nat n)%Z.
Proof.
  revert acc. induction n as [|n IH]; intros acc.
  - simpl put_be. simpl get_be_acc. rewrite Z.pow_0_r, Z.mod_1_r. lia.
  - cbn [put_be get_be_acc]. rewrite IH, b2z_z2b.
    rewrite Nat2Z.inj_succ, Z.pow_succ_r by lia.
    set (p := (256 ^ Z.of_nat n)%Z). assert (0 < p)%Z by (apply Z.pow_pos_nonneg; lia).
    rewrite (Z.mul_comm 256 p), (Z.rem_mul_r z p 256) by lia. ring.
Qed.

Lemma get_be_put_be n z : get_be (put_be n z) = (z mod 256 ^ Z.of_nat n)%Z.
Proof. unfold get_be. rewrite get_be_acc_put_be. lia. Qed.

Lemma get_be_put_be4 z : get_be (put_be 4 z) = uint32 z.
Proof. apply get_be_put_be. Qed.
Lemma get_be_put_be8 z : get_be (put_be 8 z) = uint64 z.
Proof. apply get_be_put_be. Qed.

Lemma get_be_acc_bound b acc :
  (0 <= acc)%Z →
  (acc * 256 ^ Z.of_nat (length b) <= get_be_acc acc b
     < (acc + 1) * 256 ^ Z.of_nat (length b))%Z.
Proof.
  revert acc. induction b as [|x b IH]; intros acc Hacc.
  - simpl get_be_acc. simpl length. rewrite Z.pow_0_r. lia.
  - cbn [get_be_acc length]. pose proof (b2z_range x).
    specialize (IH (acc * 256 + b2z x)%Z ltac:(lia)).
    rewrite Nat2Z.inj_succ, Z.pow_succ_r by lia. nia.
Qed.

Lemma get_be_bound b : (0 <= get_be b < 256 ^ Z.of_nat (length b))%Z.
Proof. pose proof (get_be_acc_bound b 0). unfold get_be. lia. Qed.

Lemma put_be_get_be_acc b acc :
  put_be (length b) (get_be_acc acc b) = b.
Proof.
  revert acc. induction b as [|x b IH]; intros acc; [done|].
  cbn [length put_be get_be_acc]. rewrite IH. f_equal.
  apply b2z_inj. rewrite b2z_z2b.
  assert (∀ b acc, get_be_acc acc b = acc * 256 ^ Z.of_nat (length b) + get_be b)%Z as Hacc.
  { clear. induction b as [|x b IH]; intros acc; cbn [get_be_acc length get_be].
    - unfold get_be. simpl get_be_acc. rewrite Z.pow_0_r. lia.
    - unfold get_be. cbn [get_be_acc]. rewrite IH, (IH (0 * 256 + b2z x)%Z).
      rewrite Nat2Z.inj_succ, Z.pow_succ_r by lia. ring. }
  rewrite Hacc. pose proof (get_be_bound b) as Hb.
  rewrite Z.div_add_l by lia.
  rewrite (Z.div_small (get_be b)) by lia.
  pose proof (b2z_range x).
  rewrite Z.add_0_r, Z.add_comm, Z.mod_add by lia. apply Z.mod_small. lia.
Qed.

Lemma put_be_get_be b n : length b = n → put_be n (get_be b) = b.
Proof. intros <-. apply put_be_get_be_acc. Qed.

(** ** Integers: lemmas *)
Lemma int64_uint64 z : int64 (uint64 z) = int64 z.
Proof. unfold int64, uint64. rewrite Zplus_mod_idemp_l. done. Qed.
Lemma int32_uint32 z : int32 (uint32 z) = int32 z.
Proof. unfold int32, uint32. rewrite Zplus_mod_idemp_l. done. Qed.
Lemma int64_id z : is_int64 z → int64 z = z.
Proof. unfold int64, is_int64. intros. rewrite Z.mod_small; lia. Qed.
Lemma int32_id z : is_int32 z → int32 z = z.
Proof. unfold int32, is_int32. intros. rewrite Z.mod_small; lia. Qed.
Lemma uint64_id z : is_uint64 z → uint64 z = z.
Proof. unfold uint64, is_uint64. intros. rewrite Z.mod_small; lia. Qed.
Lemma uint32_id z : is_uint32 z → uint32 z = z.
Proof. unfold uint32, is_uint32. intros. rewrite Z.mod_small; lia. Qed.
Lemma int64_range z : is_int64 (int64 z).
Proof. unfold int64, is_int64. pose proof (Z.mod_pos_bound (z + 2 ^ 63) (2 ^ 64)). lia. Qed.
#[export] Hint Resolve int64_range b2z_range : momo.
#[export] Hint Rewrite int64_uint64 int32_uint32 : momo_rw.

(** ** Slices: lemmas *)
Lemma take_app_eq {A} (n : nat) (a b : list A) : length a = n → take n (a ++ b) = a.
Proof. intros <-. apply take_app_length. Qed.
Lemma drop_app_eq {A} (n : nat) (a b : list A) : length a = n → drop n (a ++ b) = b.
Proof. intros <-. apply drop_app_length. Qed.

Lemma Forall_filter_weaken {A} (P Q : A → Prop) `{∀ x, Decision (P x)} (l : list A) :
  Forall Q l → Forall Q (filter P l).
Proof. rewrite !Forall_forall. intros H' x [_ Hx]%list_elem_of_filter. by apply H'. Qed.

Lemma length_slice lo hi b : (lo <= hi <= length b)%nat → length (slice lo hi b) = (hi - lo)%nat.
Proof. intros. unfold slice. rewrite length_take, length_drop. lia. Qed.

(** ** Stable sort: lemmas *)
Section StableSortLemmas.
Context {A : Type} (less : A → A → bool) `{!StrictWeak less}.
Implicit Types (l : list A) (x y : A).

(** [notafter x y]: [x] may stand before [y]. *)
Definition notafter (x y : A) : Prop := less y x = false.

Lemma ins_perm x l : ins less x l ≡ₚ x :: l.
Proof.
  clear StrictWeak0.
  induction l as [|y l IH]; simpl; [done|].
  destruct (less y x); [|done]. rewrite IH. apply Permutation_swap.
Qed.

Lemma stable_sort_perm l : stable_sort less l ≡ₚ l.
Proof.
  clear StrictWeak0.
  induction l as [|x l IH]; simpl; [done|]. by rewrite ins_perm, IH.
Qed.

Lemma ins_sorted x l :
  StronglySorted notafter l → StronglySorted notafter (ins less x l).
Proof.
  induction 1 as [|y l Hs IH Hy]; simpl; [repeat constructor|].
  destruct (less y x) eqn:E.
  - constructor; [done|]. rewrite Forall_forall in Hy |- *.
    intros z. rewrite ins_perm. intros [->|Hz]%elem_of_cons; [|by apply Hy].
    unfold notafter. by apply sw_asym.
  - constructor; [by constructor|]. constructor; [done|].
    rewrite Forall_forall in Hy |- *. intros z Hz. unfold notafter in *.
    eapply sw_ntrans; [by apply Hy|done].
Qed.

Lemma stable_sort_sorted l : StronglySorted notafter (stable_sort less l).
Proof. induction l; simpl; [constructor|by apply ins_sorted]. Qed.

Lemma ins_head x l : Forall (notafter x) l → ins less x l = x :: l.
Proof. clear StrictWeak0. destruct 1 as [|y l Hy]; simpl; [done|]. by rewrite Hy. Qed.

Lemma filter_ins (P : A → Prop) `{∀ x, Decision (P x)} x l :
  StronglySorted notafter l →
  filter P (ins less x l) = if decide (P x) then ins less x (filter P l) else filter P l.
Proof.
  induction 1 as [|y l Hs IH Hy]; simpl.
  - rewrite filter_cons, filter_nil. by case_decide.
  - destruct (less y x) eqn:E.
    + rewrite !filter_cons, IH. repeat case_decide; simpl; rewrite ?E; done.
    + rewrite filter_cons. case_decide; [|done].
      rewrite ins_head; [done|]. apply Forall_forall.
      intros z [_ [->|Hz]%elem_of_cons]%list_elem_of_filter; [done|].
      rewrite Forall_forall in Hy. unfold notafter in *.
      eapply sw_ntrans; [by apply Hy|done].
Qed.

(** Sorting a sublist selected by [P] is selecting from the sorted list: what
    makes rendezvous placement stable under node removal. *)
Lemma stable_sort_filter (P : A → Prop) `{∀ x, Decision (P x)} l :
  stable_sort less (filter P l) = filter P (stable_sort less l).
Proof.
  induction l as [|x l IH]; [done|]. cbn [stable_sort foldr].
  change (foldr (ins less) [] l) with (stable_sort less l).
  rewrite filter_ins by apply stable_sort_sorted.
  rewrite filter_cons. case_decide; [|done]. simpl. by rewrite <- IH.
Qed.
End StableSortLemmas.

(** ** Byte order: lemmas *)
Lemma bytes_ltb_irrefl a : bytes_ltb a a = false.
Proof. induction a as [|x a IH]; simpl; [done|]. by rewrite Z.ltb_irrefl. Qed.

#[export] Instance bytes_ltb_strict : StrictWeak bytes_ltb.
Proof.
  split.
  - induction x as [|a x IH]; destruct y as [|b y]; simpl; try done.
    repeat case_match; zbool; try done; try lia. apply IH.
  - induction x as [|a x IH]; destruct y as [|b y], z as [|c z]; simpl; try done.
    repeat case_match; zbool; try done; try lia. apply IH.
Qed.

Lemma bytes_ltb_total a b : bytes_ltb a b = false → bytes_ltb b a = false → a = b.
Proof.
  revert b. induction a as [|x a IH]; destruct b as [|y b]; simpl; try done.
  repeat case_match; zbool; try done; intros; f_equal; [apply b2z_inj; lia|by apply IH].
Qed.

#[export] Instance strict_weak_proj {A B} (f : B → A) (less : A → A → bool) :
  StrictWeak less → StrictWeak (λ x y, less (f x) (f y)).
Proof. intros [Ha Hn]. split; intros; [by apply Ha|by eapply Hn]. Qed.

(** ** Cursors: lemmas *)
Lemma cursor_perm {V} (m : bucket V) : cursor m ≡ₚ map_to_list m.
Proof. apply stable_sort_perm. Qed.

Lemma elem_of_cursor {V} (m : bucket V) k v : (k, v) ∈ cursor m ↔ m !! k = Some v.
Proof. by rewrite cursor_perm, elem_of_map_to_list. Qed.

Lemma cursor_sorted {V} (m : bucket V) :
  StronglySorted (λ a b : bytes * V, bytes_ltb b.1 a.1 = false) (cursor m).
Proof. apply (stable_sort_sorted (λ a b : bytes * V, bytes_ltb a.1 b.1)). Qed.

Lemma cursor_keys_nodup {V} (m : bucket V) : NoDup (cursor m).*1.
Proof. rewrite cursor_perm. apply NoDup_fst_map_to_list. Qed.

Lemma filter_none {A} (P : A → Prop) `{∀ x, Decision (P x)} (l : list A) :
  Forall (λ x, ¬ P x) l → filter P l = [].
Proof. induction 1 as [|x l Hx Hl IH]; [done|]. by rewrite filter_cons_False. Qed.

Lemma filter_all {A} (P : A → Prop) `{∀ x, Decision (P x)} (l : list A) :
  Forall P l → filter P l = l.
Proof. induction 1 as [|x l Hx Hl IH]; [done|]. rewrite filter_cons_True by done. by rewrite IH. Qed.

Lemma NoDup_map_filter {A B} (f : A → B) (P : A → Prop) `{∀ x, Decision (P x)} (l : list A) :
  NoDup (f <$> l) → NoDup (f <$> filter P l).
Proof.
  induction l as [|x l IH]; [done|]. intros [Hx Hl]%NoDup_cons. destruct (decide (P x)).
  - rewrite filter_cons_True by done. constructor; [|by apply IH].
    intros (y & Hxy & [_ Hy]%list_elem_of_filter)%list_elem_of_fmap.
    apply Hx. rewrite Hxy. by apply list_elem_of_fmap_2.
  - rewrite filter_cons_False by done. by apply IH.
Qed.

Lemma Forall_weaken_in {A} (P Q : A → Prop) (l : list A) :
  Forall P l → (∀ x, x ∈ l → P x → Q x) → Forall Q l.
Proof. rewrite !Forall_forall. auto. Qed.

(** A list sorted by key that holds the bucket's entries is its cursor walk. *)
Lemma cursor_unique {V} (m : bucket V) (l : list (bytes * V)) :
  StronglySorted (λ a b : bytes * V, bytes_ltb b.1 a.1 = false) l → l ≡ₚ map_to_list m → l = cursor m.
Proof.
  intros Hs Hp. assert (l ≡ₚ cursor m) as Hpc by (by rewrite cursor_perm).
  refine (StronglySorted_unique_strong _ _ _ _ Hs
            (cursor_sorted m) Hpc).
  intros [k v] [k' v'] Hin Hin' H1 H2. cbn in H1, H2.
  assert (k = k') as -> by (by apply bytes_ltb_total).
  rewrite Hp in Hin. apply elem_of_map_to_list in Hin.
  apply (elem_of_cursor m) in Hin'. congruence.
Qed.

(** Inserting above every key appends to the walk. *)
Lemma cursor_snoc {V} (m : bucket V) k v :
  (∀ k' v', m !! k' = Some v' → bytes_ltb k' k = true) →
  cursor (<[k := v]> m) = cursor m ++ [(k, v)].
Proof.
  intros Hm. symmetry. apply cursor_unique.
  - apply StronglySorted_app; split_and!.
    + intros [k1 v1] x2 Hin%elem_of_cursor ->%list_elem_of_singleton. cbn [fst].
      by eapply sw_asym, Hm.
    + apply cursor_sorted.
    + repeat constructor.
  - rewrite map_to_list_insert.
    + rewrite cursor_perm. by rewrite Permutation_app_comm.
    + destruct (m !! k) eqn:E; [|done]. apply Hm in E. by rewrite bytes_ltb_irrefl in E.
Qed.

(** Big-endian keys sort like the numbers they encode. *)
Lemma bytes_ltb_put_be n a b :
  (0 <= a < 256 ^ Z.of_nat n)%Z → (0 <= b < 256 ^ Z.of_nat n)%Z →
  bytes_ltb (put_be n a) (put_be n b) = (a <? b)%Z.
Proof.
  intros Ha Hb.
  assert (bytes_ltb (put_be n a) (put_be n b)
          = (a mod 256 ^ Z.of_nat n <? b mod 256 ^ Z.of_nat n)%Z) as ->.
  { clear Ha Hb. induction n as [|n IH]; [cbn; by rewrite !Z.mod_1_r|].
    cbn [put_be bytes_ltb]. rewrite !b2z_z2b, IH.
    assert (∀ z, z mod 256 ^ Z.of_nat (S n)
                 = 256 ^ Z.of_nat n * (z / 256 ^ Z.of_nat n mod 256) + z mod 256 ^ Z.of_nat n)%Z as Hz.
    { intros z. rewrite Nat2Z.inj_succ, Z.pow_succ_r, (Z.mul_comm 256), Z.rem_mul_r by lia. lia. }
    rewrite !Hz. pose proof (Z.mod_pos_bound a (256 ^ Z.of_nat n)).
    pose proof (Z.mod_pos_bound b (256 ^ Z.of_nat n)).
    repeat case_match; zbool; try done; symmetry; first [apply Z.ltb_lt|apply Z.ltb_ge|idtac]; try nia. }
  by rewrite !Z.mod_small.
Qed.

(** A separator that does not occur before it marks where to split. *)
Lemma sep_split {A} (c : A) (a a' r r' : list A) :
  c ∉ a → c ∉ a' → a ++ c :: r = a' ++ c :: r' → a = a' ∧ r = r'.
Proof.
  revert a'. induction a as [|x a IH]; intros [|y a'] Ha Ha'; cbn [app].
  - by intros [= ->].
  - intros [= <- _]. set_solver.
  - intros [= -> _]. set_solver.
  - intros [= -> E]. destruct (IH a') as [-> ->]; set_solver.
Qed.

Lemma StronglySorted_filter {A} (R : A → A → Prop) (P : A → Prop) `{∀ x, Decision (P x)} (l : list A) :
  StronglySorted R l → StronglySorted R (filter P l).
Proof.
  induction 1 as [|x l Hs IH Hx]; [constructor|]. destruct (decide (P x)).
  - rewrite filter_cons_True by done. constructor; [done|]. rewrite Forall_forall in Hx |- *.
    intros y [_ Hy]%list_elem_of_filter. auto.
  - by rewrite filter_cons_False.
Qed.

Lemma StronglySorted_of_fmap {A B} (R : B → B → Prop) (f : A → B) (l : list A) :
  StronglySorted R (f <$> l) ↔ StronglySorted (λ x y, R (f x) (f y)) l.
Proof.
  induction l as [|x l IH]; [by split; constructor|]. cbn. split; inversion_clear 1; constructor;
    try (by apply IH); by rewrite ?Forall_fmap in *.
Qed.

Lemma filter_fmap_in {A B} (f : A → B) (P : B → Prop) (Q : A → Prop) `{∀ x, Decision (P x), ∀ x, Decision (Q x)}
    (l : list A) :
  (∀ x, x ∈ l → P (f x) ↔ Q x) → filter P (f <$> l) = f <$> filter Q l.
Proof.
  induction l as [|x l IH]; intros Hpq; [done|]. cbn [fmap list_fmap].
  destruct (decide (Q x)) as [Hq|Hq].
  - rewrite !filter_cons_True by (done || by apply Hpq; [left|]). rewrite IH; [done|]. intros; apply Hpq; by right.
  - rewrite !filter_cons_False by (done || (intros Hp; apply Hq; apply Hpq; [by left|done])).
    apply IH. intros; apply Hpq; by right.
Qed.
