(* ===== verification/GoText.v ===== *)
(** * The text functions of Go's standard library used by momo

    [strings.IndexByte], [strings.HasPrefix], [strings.TrimSpace],
    [strings.Join], [path.Clean] and the decimal conversions of [strconv], on
    byte strings, with the lemmas the components share. *)
From S2P Require Import Prelude.
Open Scope Z_scope.

(** ** Characters *)
Definition ch_slash : byte := Byte.x2f.
Definition ch_backslash : byte := Byte.x5c.
Definition ch_dot : byte := Byte.x2e.
Definition ch_nul : byte := Byte.x00.
Definition ch_cr : byte := Byte.x0d.
Definition ch_lf : byte := Byte.x0a.
Definition ch_space : byte := Byte.x20.
Definition ch_minus : byte := Byte.x2d.
Definition ch_plus : byte := Byte.x2b.

(** ** Searching *)

(** [strings.IndexByte] / [bytes.IndexByte]; [None] stands for -1. *)
Fixpoint index_byte (c : byte) (s : bytes) : option nat :=
  match s with
  | [] => None
  | x :: s' => if decide (x = c) then Some O else S <$> index_byte c s'
  end.

(** [strings.ContainsRune] for an ASCII rune, and one-byte [strings.Contains]. *)
Definition contains_byte (c : byte) (s : bytes) : bool :=
  match index_byte c s with Some _ => true | None => false end.

(** [strings.HasPrefix] *)
Fixpoint has_prefix (s p : bytes) {struct p} : bool :=
  match p, s with
  | [], _ => true
  | _ :: _, [] => false
  | y :: p', x :: s' => if decide (x = y) then has_prefix s' p' else false
  end.

(** [strings.TrimPrefix] *)
Definition trim_prefix (s p : bytes) : bytes := if has_prefix s p then drop (length p) s else s.

(** ** Splitting at '/' and joining *)

(** The segments between slashes: what the [IndexByte] loops of
    [rejectPathHazards] and [meaningfulSegments] visit, in order. *)
Fixpoint split_slash (s : bytes) : list bytes :=
  match s with
  | [] => [[]]
  | x :: s' =>
      if decide (x = ch_slash) then [] :: split_slash s'
      else match split_slash s' with
           | [] => [[x]]
           | seg :: rest => (x :: seg) :: rest
           end
  end.

(** [strings.Join(segs, "/")] *)
Fixpoint join_slash (segs : list bytes) : bytes :=
  match segs with
  | [] => []
  | [s] => s
  | s :: rest => s ++ ch_slash :: join_slash rest
  end.

(** ** White space: [unicode.IsSpace] on UTF-8 *)
Definition ascii_space (b : byte) : bool :=
  bool_decide (b = Byte.x09 ∨ b = Byte.x0a ∨ b = Byte.x0b ∨ b = Byte.x0c
               ∨ b = Byte.x0d ∨ b = Byte.x20).

(** The UTF-8 encodings of the white-space runes above U+007F. *)
Definition wide_spaces : list bytes :=
  [ [Byte.xc2; Byte.x85]; [Byte.xc2; Byte.xa0];
    [Byte.xe1; Byte.x9a; Byte.x80];
    [Byte.xe2; Byte.x80; Byte.x80]; [Byte.xe2; Byte.x80; Byte.x81];
    [Byte.xe2; Byte.x80; Byte.x82]; [Byte.xe2; Byte.x80; Byte.x83];
    [Byte.xe2; Byte.x80; Byte.x84]; [Byte.xe2; Byte.x80; Byte.x85];
    [Byte.xe2; Byte.x80; Byte.x86]; [Byte.xe2; Byte.x80; Byte.x87];
    [Byte.xe2; Byte.x80; Byte.x88]; [Byte.xe2; Byte.x80; Byte.x89];
    [Byte.xe2; Byte.x80; Byte.x8a]; [Byte.xe2; Byte.x80; Byte.xa8];
    [Byte.xe2; Byte.x80; Byte.xa9]; [Byte.xe2; Byte.x80; Byte.xaf];
    [Byte.xe2; Byte.x81; Byte.x9f]; [Byte.xe3; Byte.x80; Byte.x80] ].

(** The length of the white-space rune [s] starts with, 0 for none; [rv] is
    applied to the encodings, so that a reversed string can be examined. *)
Definition space_prefix (rv : bytes → bytes) (s : bytes) : nat :=
  match s with
  | [] => 0
  | b :: _ =>
      if ascii_space b then 1
      else match List.find (λ w, has_prefix s (rv w)) wide_spaces with
           | Some w => length w
           | None => 0
           end
  end%nat.

Fixpoint trim_left (rv : bytes → bytes) (fuel : nat) (s : bytes) : bytes :=
  match fuel with
  | O => s
  | S fuel' =>
      match space_prefix rv s with
      | O => s
      | n => trim_left rv fuel' (drop n s)
      end
  end.

(** [strings.TrimSpace]: every step drops at least one byte, so the length is
    enough fuel on each side. *)
Definition trim_space (s : bytes) : bytes :=
  let l := trim_left (λ w, w) (length s) s in
  rev (trim_left (@rev byte) (length l) (rev l)).

(** ** [path.Clean] *)

(** One segment against the stack of kept segments (top first). *)
Definition clean_step (rooted : bool) (stack : list bytes) (seg : bytes) : list bytes :=
  if decide (seg = [] ∨ seg = [ch_dot]) then stack
  else if decide (seg = [ch_dot; ch_dot]) then
    match stack with
    | [] => if rooted then [] else [seg]
    | top :: rest => if decide (top = [ch_dot; ch_dot]) then seg :: stack else rest
    end
  else seg :: stack.

Definition path_clean (p : bytes) : bytes :=
  let rooted := match p with x :: _ => bool_decide (x = ch_slash) | [] => false end in
  let out := rev (foldl (clean_step rooted) [] (split_slash p)) in
  let body := join_slash out in
  if rooted then ch_slash :: body
  else match body with [] => [ch_dot] | _ => body end.

(** ** Decimal numbers *)
Definition is_digit (b : byte) : bool := (48 <=? b2z b) && (b2z b <=? 57).
Definition digit_val (b : byte) : Z := b2z b - 48.

Fixpoint dec_value (acc : Z) (s : bytes) : Z :=
  match s with
  | [] => acc
  | c :: s' => dec_value (acc * 10 + digit_val c) s'
  end.

Fixpoint dec_digits (fuel : nat) (n : Z) (acc : bytes) : bytes :=
  match fuel with
  | O => acc
  | S fuel' =>
      let acc' := z2b (48 + n mod 10) :: acc in
      if n <? 10 then acc' else dec_digits fuel' (n / 10) acc'
  end.

(** [strconv.AppendInt(nil, val, 10)] on an int64: 19 digits are enough. *)
Definition append_int (val : Z) : bytes :=
  if val <? 0 then ch_minus :: dec_digits 20 (- val) [] else dec_digits 20 val [].

(** The optional sign and the digits of [strconv.ParseInt(s, 10, 64)]. *)
Definition split_sign (s : bytes) : bool * bytes :=
  match s with
  | x :: s' => if decide (x = ch_minus) then (true, s')
               else if decide (x = ch_plus) then (false, s') else (false, s)
  | [] => (false, [])
  end.

Definition parse_int64 (s : bytes) : option Z :=
  let '(neg, ds) := split_sign s in
  match ds with
  | [] => None
  | _ =>
      if forallb is_digit ds then
        let v := dec_value 0 ds in
        let r := if neg : bool then - v else v in
        if (- 2 ^ 63 <=? r) && (r <? 2 ^ 63) then Some r else None
      else None
  end.

(** ** Lemmas: searching *)
Lemma index_byte_None c s : index_byte c s = None ↔ c ∉ s.
Proof.
  induction s as [|x s IH]; simpl; [set_solver|].
  case_decide; [subst; set_solver|].
  rewrite fmap_None, IH, not_elem_of_cons. naive_solver.
Qed.

Lemma index_byte_Some c s i :
  index_byte c s = Some i →
  s = take i s ++ c :: drop (S i) s ∧ c ∉ take i s ∧ (i < length s)%nat.
Proof.
  revert i. induction s as [|x s IH]; intros i; simpl; [done|].
  case_decide as Hd; subst; intros H.
  - simplify_eq. simpl. rewrite drop_0. split_and!; [done|set_solver|lia].
  - destruct (index_byte c s) as [j|]; simplify_eq/=.
    destruct (IH j eq_refl) as (E & Hn & Hl). split_and!; [by f_equal|set_solver|lia].
Qed.

Lemma contains_byte_spec c s : contains_byte c s = bool_decide (c ∈ s).
Proof.
  unfold contains_byte. destruct (index_byte c s) eqn:E.
  - apply index_byte_Some in E as (E & _ & _). symmetry. apply bool_decide_eq_true.
    rewrite E. set_solver.
  - apply index_byte_None in E. symmetry. by apply bool_decide_eq_false.
Qed.

Lemma has_prefix_spec s p : has_prefix s p = true ↔ ∃ t, s = p ++ t.
Proof.
  revert s. induction p as [|y p IH]; intros s; simpl.
  - split; intros _; [by exists s|reflexivity].
  - destruct s as [|x s]; [split; [discriminate|intros [t Ht]; discriminate Ht]|].
    case_decide; subst.
    + rewrite IH. split; intros [t Ht]; exists t; simpl in *; congruence.
    + split; [discriminate|]. intros [t Ht]. simpl in Ht. congruence.
Qed.

(** ** Lemmas: splitting and joining *)
Lemma split_slash_not_nil s : split_slash s ≠ [].
Proof. destruct s; simpl; [done|]. case_decide; [done|]. by destruct (split_slash s). Qed.

Lemma split_slash_no_slash s : Forall (λ seg, ch_slash ∉ seg) (split_slash s).
Proof.
  induction s as [|x s IH]; simpl; [repeat constructor; set_solver|].
  case_decide; [constructor; [set_solver|done]|].
  destruct (split_slash s) as [|seg rest]; [repeat constructor; set_solver|].
  inv IH. constructor; [set_solver|done].
Qed.

Lemma split_slash_elem s seg b : seg ∈ split_slash s → b ∈ seg → b ∈ s.
Proof.
  revert seg. induction s as [|x s IH]; simpl; intros seg.
  - intros ->%list_elem_of_singleton. by intros ?%not_elem_of_nil.
  - case_decide.
    + intros [->|H1]%elem_of_cons Hb; [by apply not_elem_of_nil in Hb|]. right. by eapply IH.
    + destruct (split_slash s) as [|seg0 rest] eqn:E.
      * by apply split_slash_not_nil in E.
      * intros [->|H1]%elem_of_cons Hb.
        -- apply elem_of_cons in Hb as [->|Hb]; [left|right].
           eapply IH; [left|done].
        -- right. eapply IH; [by right|done].
Qed.

Lemma split_slash_app seg s :
  ch_slash ∉ seg → split_slash (seg ++ ch_slash :: s) = seg :: split_slash s.
Proof.
  induction seg as [|x seg IH]; intros H; simpl.
  - done.
  - rewrite decide_False by set_solver. rewrite IH by set_solver. done.
Qed.

Lemma split_slash_single seg : ch_slash ∉ seg → split_slash seg = [seg].
Proof.
  induction seg as [|x seg IH]; intros H; simpl; [done|].
  rewrite decide_False by set_solver. by rewrite IH by set_solver.
Qed.

Lemma join_slash_cons s s' segs :
  join_slash (s :: s' :: segs) = s ++ ch_slash :: join_slash (s' :: segs).
Proof. done. Qed.

Lemma split_join segs :
  segs ≠ [] → Forall (λ seg, ch_slash ∉ seg) segs → split_slash (join_slash segs) = segs.
Proof.
  intros Hne. induction 1 as [|s segs Hs Hf IH]; [done|].
  destruct segs as [|s' segs]; [by apply split_slash_single|].
  rewrite join_slash_cons, split_slash_app by done. by rewrite IH.
Qed.

Lemma join_slash_elem segs b :
  b ∈ join_slash segs → b = ch_slash ∨ ∃ seg, seg ∈ segs ∧ b ∈ seg.
Proof.
  induction segs as [|s segs IH]; [set_solver|].
  destruct segs as [|s' segs].
  - intros H. right. exists s. simpl in H. set_solver.
  - rewrite join_slash_cons. intros [H|[->|H]%elem_of_cons]%elem_of_app.
    + right. exists s. set_solver.
    + by left.
    + destruct (IH H) as [?|(t & ? & ?)]; [by left|right; exists t; set_solver].
Qed.

Lemma join_slash_nil_inv segs :
  Forall (λ seg, seg ≠ []) segs → join_slash segs = [] → segs = [].
Proof.
  destruct 1 as [|s segs Hs Hf]; [done|].
  destruct segs; cbn [join_slash]; intros H; [done|]. by destruct s.
Qed.

(** ** Lemmas: [path.Clean] *)
Definition real_seg (seg : bytes) : Prop :=
  seg ≠ [] ∧ seg ≠ [ch_dot] ∧ seg ≠ [ch_dot; ch_dot].

#[export] Instance real_seg_dec seg : Decision (real_seg seg).
Proof. unfold real_seg. solve_decision. Defined.

Lemma clean_step_real rooted segs stack :
  Forall (λ seg, seg ≠ [ch_dot; ch_dot]) segs →
  foldl (clean_step rooted) stack segs = rev (filter real_seg segs) ++ stack.
Proof.
  intros H. revert stack. induction H as [|s segs Hs Hf IH]; intros stack; [done|].
  cbn [foldl]. rewrite IH, filter_cons. unfold clean_step at 1.
  rewrite (decide_False (P := s = [ch_dot; ch_dot])) by done.
  destruct (decide (real_seg s)) as [Hr|Hr].
  - rewrite decide_False by (unfold real_seg in Hr; tauto).
    cbn [rev]. by rewrite <- app_assoc.
  - rewrite decide_True; [done|]. unfold real_seg in Hr.
    destruct (decide (s = [])), (decide (s = [ch_dot])); tauto.
Qed.

(** On a path without a ".." segment, [path.Clean] keeps exactly the segments
    that are neither empty nor ".". *)
Lemma path_clean_no_dotdot p :
  Forall (λ seg, seg ≠ [ch_dot; ch_dot]) (split_slash p) →
  let body := join_slash (filter real_seg (split_slash p)) in
  path_clean p = match p with
                 | x :: _ => if decide (x = ch_slash) then ch_slash :: body
                             else match body with [] => [ch_dot] | _ => body end
                 | [] => [ch_dot]
                 end.
Proof.
  intros H. unfold path_clean. rewrite clean_step_real by done.
  rewrite app_nil_r, rev_involutive. destruct p as [|x p]; [done|].
  case_bool_decide; [by rewrite decide_True|by rewrite decide_False].
Qed.

(** ** Lemmas: decimal numbers *)
Lemma b2z_digit n : 0 <= n < 10 → b2z (z2b (48 + n)) = 48 + n.
Proof. intros. rewrite b2z_z2b, Z.mod_small; lia. Qed.

Lemma dec_value_app acc s t : dec_value acc (s ++ t) = dec_value (dec_value acc s) t.
Proof. revert acc. induction s; intros; simpl; auto. Qed.

Lemma dec_digits_spec fuel n acc :
  0 <= n < 10 ^ Z.of_nat fuel →
  ∃ ds, dec_digits fuel n acc = ds ++ acc ∧ ((0 < fuel)%nat → ds ≠ []) ∧
        Forall (λ c, is_digit c = true) ds ∧ dec_value 0 ds = n.
Proof.
  revert n acc. induction fuel as [|fuel IH]; intros n acc Hn.
  - exists []. simpl. split_and!; [done|lia|constructor|]. simpl in Hn. lia.
  - cbn [dec_digits]. pose proof (Z.mod_pos_bound n 10 ltac:(lia)) as Hm.
    assert (is_digit (z2b (48 + n mod 10)) = true) as Hd.
    { unfold is_digit. rewrite b2z_digit by lia. lia. }
    destruct (n <? 10) eqn:E; zbool.
    + exists [z2b (48 + n mod 10)]. split_and!; [done|done|by repeat constructor|].
      simpl. unfold digit_val. rewrite b2z_digit, Z.mod_small by lia. lia.
    + rewrite Nat2Z.inj_succ, Z.pow_succ_r in Hn by lia.
      pose proof (Z.div_mod n 10 ltac:(lia)).
      destruct (IH (n / 10) (z2b (48 + n mod 10) :: acc)) as (ds & E' & Hne & Hf & Hv); [nia|].
      exists (ds ++ [z2b (48 + n mod 10)]). rewrite E', <- app_assoc. split_and!.
      * done.
      * intros _. by destruct ds.
      * apply Forall_app; by repeat constructor.
      * rewrite dec_value_app, Hv. simpl. unfold digit_val. rewrite b2z_digit; lia.
Qed.

Lemma digit_not_sign c : is_digit c = true → c ≠ ch_minus ∧ c ≠ ch_plus ∧ c ≠ ch_nul.
Proof. intros H. split_and!; intros ->; discriminate H. Qed.

(** ** Lemmas: trimming *)
Lemma visible_not_space rv c s :
  32 < b2z c < 127 → (∀ w, w ∈ wide_spaces → ∃ x y, rv w = x :: y ∧ 128 <= b2z x) → space_prefix rv (c :: s) = 0%nat.
Proof.
  intros Hc Hw. unfold space_prefix. assert (ascii_space c = false) as ->.
  { apply bool_decide_eq_false. intros H. destruct H as [->|[->|[->|[->|[->| ->]]]]]; cbv in Hc; destruct Hc; discriminate. }
  destruct (List.find _ wide_spaces) as [w|] eqn:E; [|done]. apply List.find_some in E as [Hin Hp].
  apply list_elem_of_In, Hw in Hin as (x & y & Er & Hx). rewrite Er in Hp. cbn in Hp.
  case_decide as Ex; [|done]. subst x. lia.
Qed.

Lemma trim_space_visible s : Forall (λ c, 32 < b2z c < 127) s → trim_space s = s.
Proof.
  intros HF. unfold trim_space.
  assert (∀ w, w ∈ wide_spaces → ∃ x y, w = x :: y ∧ 128 <= b2z x) as W1.
  { intros w Hw. repeat (apply elem_of_cons in Hw as [->|Hw]; [do 2 eexists; split; [reflexivity|done]|]). by apply elem_of_nil in Hw. }
  assert (∀ w, w ∈ wide_spaces → ∃ x y, rev w = x :: y ∧ 128 <= b2z x) as W2.
  { intros w Hw. repeat (apply elem_of_cons in Hw as [->|Hw]; [do 2 eexists; split; [reflexivity|done]|]). by apply elem_of_nil in Hw. }
  assert (∀ rv l n, (∀ w, w ∈ wide_spaces → ∃ x y, rv w = x :: y ∧ 128 <= b2z x) →
    Forall (λ c, 32 < b2z c < 127) l → trim_left rv n l = l) as Ht.
  { intros rv l n Hrv HFl. destruct n; [done|]. cbn [trim_left]. destruct l as [|c l]; [done|].
    apply Forall_cons in HFl as [Hc _]. by rewrite (visible_not_space rv c l Hc Hrv). }
  rewrite (Ht _ s) by done. rewrite Ht; [apply rev_involutive|done|by apply Forall_rev].
Qed.
