(* ===== verification/Float64.v ===== *)
(** * Binary64 arithmetic

    Go's [float64]: IEEE 754 binary64 with rounding to nearest even, as Rocq's
    [SpecFloat] defines it, and the conversions the sources use. *)
From Stdlib Require SpecFloat.
From S2P Require Import Prelude.
Open Scope Z_scope.

Notation float64 := SpecFloat.spec_float.

Definition f64 (z : Z) : float64 := SpecFloat.binary_normalize 53 1024 z 0 false.
Definition fadd : float64 → float64 → float64 := SpecFloat.SFadd 53 1024.
Definition fsub : float64 → float64 → float64 := SpecFloat.SFsub 53 1024.
Definition fmul : float64 → float64 → float64 := SpecFloat.SFmul 53 1024.
Definition fdiv : float64 → float64 → float64 := SpecFloat.SFdiv 53 1024.

(** The conversion to an integer, which truncates; out of range it is the value
    amd64 produces. *)
Definition f64_trunc (x : float64) : Z :=
  match x with
  | SpecFloat.S754_zero _ => 0
  | SpecFloat.S754_finite s m e =>
      let v := if 0 <=? e then Z.pos m * 2 ^ e else Z.pos m / 2 ^ (- e) in
      let v := if s then - v else v in
      if (- 2 ^ 63 <=? v) && (v <? 2 ^ 63) then v else - 2 ^ 63
  | _ => - 2 ^ 63
  end.
