(* ===== verification/Hashes.v ===== *)
(** * Digests and checksums of Go's standard library

    SHA-256 ([crypto/sha256]), its hexadecimal text ([encoding/hex]) and CRC-32C
    ([hash/crc32] with the Castagnoli table), as executable functions, with
    momo's [HashBytes] (src/src/common/hash.go). *)
From S2P Require Import Prelude GoText.
Open Scope Z_scope.

(** ** SHA-256 (FIPS 180-4) *)
Definition w32 (z : Z) : Z := Z.land z 4294967295.
Definition rotr (n x : Z) : Z := Z.lor (Z.shiftr x n) (w32 (Z.shiftl x (32 - n))).

Definition sha_k : list Z :=
  [1116352408; 1899447441; 3049323471; 3921009573; 961987163; 1508970993; 2453635748; 2870763221;
   3624381080; 310598401; 607225278; 1426881987; 1925078388; 2162078206; 2614888103; 3248222580;
   3835390401; 4022224774; 264347078; 604807628; 770255983; 1249150122; 1555081692; 1996064986;
   2554220882; 2821834349; 2952996808; 3210313671; 3336571891; 3584528711; 113926993; 338241895;
   666307205; 773529912; 1294757372; 1396182291; 1695183700; 1986661051; 2177026350; 2456956037;
   2730485921; 2820302411; 3259730800; 3345764771; 3516065817; 3600352804; 4094571909; 275423344;
   430227734; 506948616; 659060556; 883997877; 958139571; 1322822218; 1537002063; 1747873779;
   1955562222; 2024104815; 2227730452; 2361852424; 2428436474; 2756734187; 3204031479; 3329325298].

Definition sha_h0 : list Z :=
  [1779033703; 3144134277; 1013904242; 2773480762; 1359893119; 2600822924; 528734635; 1541459225].

Definition nthz (n : nat) (l : list Z) : Z := nth n l 0.

(** The message schedule, most recent word first. *)
Fixpoint sha_sched (n : nat) (w : list Z) : list Z :=
  match n with
  | O => w
  | S n' =>
      let w2 := nthz 1 w in
      let w7 := nthz 6 w in
      let w15 := nthz 14 w in
      let w16 := nthz 15 w in
      let s0 := Z.lxor (Z.lxor (rotr 7 w15) (rotr 18 w15)) (Z.shiftr w15 3) in
      let s1 := Z.lxor (Z.lxor (rotr 17 w2) (rotr 19 w2)) (Z.shiftr w2 10) in
      sha_sched n' (w32 (w16 + s0 + w7 + s1) :: w)
  end.

Definition sha_round (st : list Z) (kw : Z * Z) : list Z :=
  match st with
  | [a; b; c; d; e; f; g; h] =>
      let s1 := Z.lxor (Z.lxor (rotr 6 e) (rotr 11 e)) (rotr 25 e) in
      let ch := Z.lxor (Z.land e f) (Z.land (4294967295 - e) g) in
      let t1 := h + s1 + ch + kw.1 + kw.2 in
      let s0 := Z.lxor (Z.lxor (rotr 2 a) (rotr 13 a)) (rotr 22 a) in
      let maj := Z.lxor (Z.lxor (Z.land a b) (Z.land a c)) (Z.land b c) in
      [w32 (t1 + s0 + maj); a; b; c; w32 (d + t1); e; f; g]
  | _ => st
  end.

Fixpoint words_of (n : nat) (b : bytes) : list Z :=
  match n with O => [] | S n' => get_be (take 4 b) :: words_of n' (drop 4 b) end.

Definition sha_block (st : list Z) (blk : bytes) : list Z :=
  let w := rev (sha_sched 48 (rev (words_of 16 blk))) in
  zip_with (λ a b, w32 (a + b)) st (foldl sha_round st (zip sha_k w)).

Fixpoint sha_blocks (fuel : nat) (st : list Z) (b : bytes) : list Z :=
  match fuel with
  | O => st
  | S fuel' => match b with [] => st | _ => sha_blocks fuel' (sha_block st (take 64 b)) (drop 64 b) end
  end.

Definition sha_pad (b : bytes) : bytes :=
  let l := length b in
  b ++ Byte.x80 :: replicate ((119 - l mod 64) mod 64)%nat Byte.x00 ++ put_be 8 (8 * Z.of_nat l).

Definition sha256 (b : bytes) : bytes :=
  let p := sha_pad b in concat (map (put_be 4) (sha_blocks (length p) sha_h0 p)).

(** ** Hexadecimal *)
Definition hex_digit (n : Z) : byte := if n <? 10 then z2b (48 + n) else z2b (87 + n).

Definition hex_encode (b : bytes) : bytes :=
  concat (map (λ x, [hex_digit (b2z x / 16); hex_digit (b2z x mod 16)]) b).

Definition hex_val (c : byte) : option Z :=
  let z := b2z c in
  if (48 <=? z) && (z <=? 57) then Some (z - 48)
  else if (97 <=? z) && (z <=? 102) then Some (z - 87)
  else if (65 <=? z) && (z <=? 70) then Some (z - 55)
  else None.

(** [hex.DecodeString] *)
Fixpoint hex_decode (s : bytes) : option bytes :=
  match s with
  | [] => Some []
  | [_] => None
  | a :: b :: s' =>
      match hex_val a, hex_val b, hex_decode s' with
      | Some x, Some y, Some r => Some (z2b (16 * x + y) :: r)
      | _, _, _ => None
      end
  end.

(** [HashBytes] *)
Definition HashBytes (data : bytes) : bytes := hex_encode (sha256 data).

(** ** CRC-32C, bit by bit on the reflected polynomial *)
Definition crc_step (c : Z) : Z :=
  if Z.odd c then Z.lxor (Z.shiftr c 1) 2197175160 else Z.shiftr c 1.

Definition crc_byte (c : Z) (b : byte) : Z := Nat.iter 8 crc_step (Z.lxor c (b2z b)).

Definition crc32c (b : bytes) : Z := Z.lxor (foldl crc_byte 4294967295 b) 4294967295.

(** ** Published test vectors *)
Example sha256_abc :
  HashBytes (bs "abc") = bs "ba7816bf8f01cfea414140de5dae2223b00361a396177a9cb410ff61f20015ad".
Proof. vm_compute. reflexivity. Qed.

Example sha256_empty :
  HashBytes [] = bs "e3b0c44298fc1c149afbf4c8996fb92427ae41e4649b934ca495991b7852b855".
Proof. vm_compute. reflexivity. Qed.

Example sha256_two_blocks :
  HashBytes (bs "abcdbcdecdefdefgefghfghighijhijkijkljklmklmnlmnomnopnopq")
  = bs "248d6a61d20638b8e5c026930c3e6039a33ce45964ff2167f6ecedd419db06c1".
Proof. vm_compute. reflexivity. Qed.

Example crc32c_check : crc32c (bs "123456789") = 3808858755.
Proof. vm_compute. reflexivity. Qed.

(** ** Lemmas *)
Lemma lxor_bound a b n : 0 <= n → 0 <= a < 2 ^ n → 0 <= b < 2 ^ n → 0 <= Z.lxor a b < 2 ^ n.
Proof.
  intros Hn Ha Hb. assert (0 <= Z.lxor a b) as H0 by (apply Z.lxor_nonneg; lia). split; [done|].
  destruct (decide (Z.lxor a b = 0)) as [->|Hne]; [lia|].
  apply Z.log2_lt_pow2; [lia|]. pose proof (Z.log2_lxor a b ltac:(lia) ltac:(lia)) as Hl.
  assert (0 < n) as Hn0.
  { destruct (decide (n = 0)) as [->|]; [|lia]. assert (a = 0) as -> by lia. assert (b = 0) as -> by lia. done. }
  assert (∀ x, 0 <= x < 2 ^ n → Z.log2 x < n) as Hx.
  { intros x Hx. destruct (decide (x = 0)) as [->|]; [done|]. apply Z.log2_lt_pow2; lia. }
  pose proof (Hx a Ha). pose proof (Hx b Hb). lia.
Qed.

Lemma hex_val_digit n : 0 <= n < 16 → hex_val (hex_digit n) = Some n.
Proof.
  intros H. unfold hex_digit, hex_val. destruct (n <? 10) eqn:E; zbool.
  - rewrite b2z_z2b, Z.mod_small by lia.
    rewrite (proj2 (Z.leb_le 48 _)), (proj2 (Z.leb_le _ 57)) by lia. simpl. f_equal. lia.
  - rewrite b2z_z2b, Z.mod_small by lia.
    rewrite (proj2 (Z.leb_gt _ 57)), andb_false_r by lia.
    rewrite (proj2 (Z.leb_le 97 _)), (proj2 (Z.leb_le _ 102)) by lia. simpl. f_equal. lia.
Qed.

Lemma hex_roundtrip b : hex_decode (hex_encode b) = Some b.
Proof.
  induction b as [|x b IH]; [done|]. unfold hex_encode in *. cbn [map concat app hex_decode].
  pose proof (b2z_range x). pose proof (Z.div_mod (b2z x) 16 ltac:(lia)).
  pose proof (Z.mod_pos_bound (b2z x) 16 ltac:(lia)).
  rewrite !hex_val_digit, IH by (split; [|lia]; lia || apply Z.div_pos; lia).
  rewrite <- H0. by rewrite z2b_b2z.
Qed.

Lemma hex_encode_inj a b : hex_encode a = hex_encode b → a = b.
Proof. intros H. apply (f_equal hex_decode) in H. rewrite !hex_roundtrip in H. congruence. Qed.

(** ** HMAC-SHA256 (crypto/hmac) *)
Definition xor_pad (c : Z) (key : bytes) : bytes :=
  map (λ b, z2b (Z.lxor (b2z b) c)) (key ++ replicate (64 - length key) Byte.x00).

Definition hmacSHA256 (key data : bytes) : bytes :=
  let key := if (64 <? length key)%nat then sha256 key else key in
  sha256 (xor_pad 92 key ++ sha256 (xor_pad 54 key ++ data)).

(** Test case 2 of RFC 4231. *)
Example hmac_jefe :
  hex_encode (hmacSHA256 (bs "Jefe") (bs "what do ya want for nothing?"))
  = bs "5bdcc146bf60754e6a042426089575c75a003f089d2739839dec58b964ec3843".
Proof. vm_compute. reflexivity. Qed.

(** ** The shape of a digest *)
Lemma length_sha_block st blk : length st = 8%nat → length (sha_block st blk) = 8%nat.
Proof.
  intros Hl. unfold sha_block. rewrite length_zip_with.
  enough (∀ l, length (foldl sha_round st l) = 8%nat) as H by (rewrite H; lia).
  intros l. revert st Hl. induction l as [|kw l IH]; intros st Hl; [done|]. cbn [foldl]. apply IH.
  do 9 (destruct st as [|? st]; try done).
Qed.

Lemma length_sha256 b : length (sha256 b) = 32%nat.
Proof.
  unfold sha256. assert (∀ n st p, length st = 8%nat → length (sha_blocks n st p) = 8%nat) as H.
  { induction n as [|n IH]; intros st p Hl; [done|]. cbn [sha_blocks].
    destruct p; [done|]. by apply IH, length_sha_block. }
  specialize (H (length (sha_pad b)) sha_h0 (sha_pad b) eq_refl).
  destruct (sha_blocks _ _ _) as [|? l]; [done|]. do 7 (destruct l as [|? l]; [done|]). by destruct l.
Qed.

Lemma HashBytes_inj a b : HashBytes a = HashBytes b → sha256 a = sha256 b.
Proof. apply hex_encode_inj. Qed.

Lemma hex_encode_ne b : b ≠ [] → hex_encode b ≠ [].
Proof. by destruct b. Qed.

Lemma HashBytes_ne b : HashBytes b ≠ [].
Proof. apply hex_encode_ne. intros E. pose proof (length_sha256 b) as H. by rewrite E in H. Qed.
