(* ===== verification/Aes.v ===== *)
(** * AES-256-GCM and HKDF-SHA256 of Go's standard library

    What src/src/crypto uses of [crypto/aes], [crypto/cipher] and
    [crypto/hkdf], as executable functions checked against the published test
    vectors: [Seal] and [Open] of the GCM mode with a 12-byte nonce and a
    16-byte tag, and [hkdf.Key] for a 32-byte key and no salt. *)
From S2P Require Import Prelude GoText Hashes.
Open Scope Z_scope.

(** ** The block cipher (FIPS 197) *)
Definition xtime (x : Z) : Z :=
  if x <? 128 then 2 * x else Z.lxor (2 * x) 283.

Fixpoint gf_mul (n : nat) (a b : Z) : Z :=
  match n with
  | O => 0
  | S n' => Z.lxor (if Z.odd b then a else 0) (gf_mul n' (xtime a) (Z.shiftr b 1))
  end.
Definition gmul : Z → Z → Z := gf_mul 8.

(** The multiplicative inverse is the power 254. *)
Definition gf_inv (x : Z) : Z := Nat.iter 253 (gmul x) x.

Definition rotl8 (n x : Z) : Z := Z.land (Z.lor (Z.shiftl x n) (Z.shiftr x (8 - n))) 255.

Definition sbox_entry (x : Z) : Z :=
  let i := gf_inv x in
  Z.lxor (Z.lxor (Z.lxor (Z.lxor (Z.lxor i (rotl8 1 i)) (rotl8 2 i)) (rotl8 3 i)) (rotl8 4 i)) 99.

Definition sbox_table : list (list Z) :=
  Eval vm_compute in
    map (λ hi, map (λ lo, sbox_entry (Z.of_nat (16 * hi + lo))) (seq 0 16)) (seq 0 16).

Definition sbox (x : Z) : Z :=
  nthz (Z.to_nat (Z.land x 15)) (nth (Z.to_nat (Z.shiftr x 4)) sbox_table []).

(** The key schedule, most recent word first; a word is four bytes. *)
Definition xor_word (a b : list Z) : list Z := zip_with Z.lxor a b.

Definition rot_word (w : list Z) : list Z := drop 1 w ++ take 1 w.

Fixpoint key_sched (n : nat) (i : nat) (rcon : Z) (w : list (list Z)) : list (list Z) :=
  match n with
  | O => w
  | S n' =>
      let prev := nth 0 w [] in
      let back := nth 7 w [] in
      if (i mod 8 =? 0)%nat
      then key_sched n' (S i) (xtime rcon)
             (xor_word back (xor_word (map sbox (rot_word prev)) [rcon; 0; 0; 0]) :: w)
      else if (i mod 8 =? 4)%nat
      then key_sched n' (S i) rcon (xor_word back (map sbox prev) :: w)
      else key_sched n' (S i) rcon (xor_word back prev :: w)
  end.

Fixpoint chunks_of {A} (k n : nat) (l : list A) : list (list A) :=
  match n with O => [] | S n' => take k l :: chunks_of k n' (drop k l) end.

(** The fifteen round keys of a 32-byte key. *)
Definition round_keys (key : bytes) : list (list Z) :=
  chunks_of 16 15 (concat (rev (key_sched 52 8 1 (rev (chunks_of 4 8 (map b2z key)))))).

Definition add_round_key (st k : list Z) : list Z :=
  map (λ i, Z.lxor (nthz i st) (nthz i k)) (seq 0 16).

(** [SubBytes] and [ShiftRows]; the state is stored by columns. *)
Definition sub_shift (st : list Z) : list Z :=
  map (λ i, sbox (nthz ((i + 4 * (i mod 4)) mod 16) st)) (seq 0 16).

Definition mix_columns (st : list Z) : list Z :=
  map (λ i, let c := (i - i mod 4)%nat in
            let at_ j := nthz (c + (i + j) mod 4) st in
            Z.lxor (Z.lxor (gmul (at_ 0%nat) 2) (gmul (at_ 1%nat) 3)) (Z.lxor (at_ 2%nat) (at_ 3%nat)))
      (seq 0 16).

Fixpoint aes_rounds (ks : list (list Z)) (st : list Z) : list Z :=
  match ks with
  | [] => st
  | [k] => add_round_key (sub_shift st) k
  | k :: ks' => aes_rounds ks' (add_round_key (mix_columns (sub_shift st)) k)
  end.

(** One block under the expanded key. *)
Definition aes_encrypt (ks : list (list Z)) (blk : bytes) : bytes :=
  let st := aes_rounds (drop 1 ks) (add_round_key (map b2z blk) (nth 0 ks [])) in
  map (λ i, z2b (nthz i st)) (seq 0 16).

(** ** Galois/Counter Mode (NIST SP 800-38D) *)
Definition xor_byte (a b : byte) : byte := z2b (Z.lxor (b2z a) (b2z b)).
Definition xor_bytes (a b : bytes) : bytes := zip_with xor_byte a b.

Fixpoint gf128_mul (n : nat) (x v z : Z) : Z :=
  match n with
  | O => z
  | S n' =>
      gf128_mul n' x (if Z.odd v then Z.lxor (Z.shiftr v 1) (Z.shiftl 225 120) else Z.shiftr v 1)
        (if Z.testbit x (Z.of_nat n') then Z.lxor z v else z)
  end.

Definition pad16 (b : bytes) : bytes := b ++ replicate ((16 - length b mod 16) mod 16)%nat Byte.x00.

Fixpoint ghash_blocks (n : nat) (h y : Z) (b : bytes) : Z :=
  match n with
  | O => y
  | S n' => ghash_blocks n' h (gf128_mul 128 (Z.lxor y (get_be (take 16 b))) h 0) (drop 16 b)
  end.

Definition ghash (h : Z) (aad ct : bytes) : Z :=
  let b := pad16 aad ++ pad16 ct ++ put_be 8 (8 * Z.of_nat (length aad)) ++ put_be 8 (8 * Z.of_nat (length ct)) in
  ghash_blocks (length b / 16) h 0 b.

Definition keystream (ks : list (list Z)) (nonce : bytes) (n : nat) : bytes :=
  concat (map (λ i, aes_encrypt ks (nonce ++ put_be 4 (Z.of_nat i + 2))) (seq 0 (n / 16 + 1))).

Definition ctr (ks : list (list Z)) (nonce data : bytes) : bytes :=
  xor_bytes data (keystream ks nonce (length data)).

Definition gcm_tag (ks : list (list Z)) (nonce aad ct : bytes) : bytes :=
  let h := get_be (aes_encrypt ks (replicate 16 Byte.x00)) in
  xor_bytes (aes_encrypt ks (nonce ++ put_be 4 1)) (put_be 16 (ghash h aad ct)).

(** [aead.Seal(nil, nonce, plaintext, aad)] *)
Definition Seal (key nonce plaintext aad : bytes) : bytes :=
  let ks := round_keys key in
  let ct := ctr ks nonce plaintext in
  ct ++ gcm_tag ks nonce aad ct.

(** [aead.Open(nil, nonce, sealed, aad)] *)
Definition Open (key nonce sealed aad : bytes) : option bytes :=
  if (length sealed <? 16)%nat then None
  else
    let ks := round_keys key in
    let ct := take (length sealed - 16) sealed in
    if decide (drop (length sealed - 16) sealed = gcm_tag ks nonce aad ct)
    then Some (ctr ks nonce ct) else None.

(** ** HKDF-SHA256 (RFC 5869), one output block, no salt *)
Definition hkdf_Key (secret info : bytes) : bytes :=
  hmacSHA256 (hmacSHA256 [] secret) (info ++ [Byte.x01]).

(** ** Published test vectors *)
Definition unhex (s : String.string) : bytes := default [] (hex_decode (bs s)).
Arguments unhex s%_string_scope.

(** FIPS 197, appendix C.3. *)
Example aes256_fips197 :
  aes_encrypt (round_keys (unhex "000102030405060708090a0b0c0d0e0f101112131415161718191a1b1c1d1e1f"))
    (unhex "00112233445566778899aabbccddeeff") = unhex "8ea2b7ca516745bfeafc49904b496089".
Proof. vm_compute. reflexivity. Qed.

(** GCM test cases 13, 14 and 16. *)
Example gcm_case_13 :
  Seal (replicate 32 Byte.x00) (replicate 12 Byte.x00) [] [] = unhex "530f8afbc74536b9a963b4f1c4cb738b".
Proof. vm_compute. reflexivity. Qed.

Example gcm_case_14 :
  Seal (replicate 32 Byte.x00) (replicate 12 Byte.x00) (replicate 16 Byte.x00) []
  = unhex "cea7403d4d606b6e074ec5d3baf39d18d0d1c8a799996bf0265b98b5d48ab919".
Proof. vm_compute. reflexivity. Qed.

Example gcm_case_16 :
  Seal (unhex "feffe9928665731c6d6a8f9467308308feffe9928665731c6d6a8f9467308308")
    (unhex "cafebabefacedbaddecaf888")
    (unhex "d9313225f88406e5a55909c5aff5269a86a7a9531534f7da2e4c303d8a318a721c3c0c95956809532fcf0e2449a6b525b16aedf5aa0de657ba637b39")
    (unhex "feedfacedeadbeeffeedfacedeadbeefabaddad2")
  = unhex "522dc1f099567d07f47f37a32a84427d643a8cdcbfe5c0c97598a2bd2555d1aa8cb08e48590dbb3da7b08b1056828838c5f61e6393ba7a0abcc9f66276fc6ece0f4e1768cddf8853bb2d551b".
Proof. vm_compute. reflexivity. Qed.

(** RFC 5869, test case 3 (its first 32 bytes). *)
Example hkdf_case_3 :
  hkdf_Key (replicate 22 Byte.x0b) [] = unhex "8da4e775a563c18f715f802a063c5a31b8a11f5c5ee1879ec3454e5f3c738d2d".
Proof. vm_compute. reflexivity. Qed.

(** ** Laws of the mode *)
Lemma b2z_xor_byte a b : b2z (xor_byte a b) = Z.lxor (b2z a) (b2z b).
Proof.
  unfold xor_byte. rewrite b2z_z2b. apply Z.mod_small, (lxor_bound _ _ 8); [lia|apply b2z_range..].
Qed.

Lemma xor_byte_invol a b : xor_byte (xor_byte a b) b = a.
Proof.
  apply b2z_inj. by rewrite !b2z_xor_byte, Z.lxor_assoc, Z.lxor_nilpotent, Z.lxor_0_r.
Qed.

Lemma length_xor_bytes a b : (length a <= length b)%nat → length (xor_bytes a b) = length a.
Proof. intros. unfold xor_bytes. rewrite length_zip_with. lia. Qed.

Lemma xor_bytes_invol a b : (length a <= length b)%nat → xor_bytes (xor_bytes a b) b = a.
Proof.
  revert b. induction a as [|x a IH]; intros [|y b] Hl; simpl in *; try done; [lia|].
  f_equal; [apply xor_byte_invol|apply IH; lia].
Qed.

Lemma length_aes_encrypt ks blk : length (aes_encrypt ks blk) = 16%nat.
Proof. unfold aes_encrypt. by rewrite length_map, length_seq. Qed.

Lemma length_keystream_eq ks nonce n : length (keystream ks nonce n) = (16 * (n / 16 + 1))%nat.
Proof.
  unfold keystream. assert (∀ l, length (concat (map (λ i, aes_encrypt ks (nonce ++ put_be 4 (Z.of_nat i + 2))) l)) = (16 * length l)%nat) as ->.
  { induction l as [|i l IH]; [done|]. cbn [map concat length]. rewrite length_app, length_aes_encrypt, IH. lia. }
  by rewrite length_seq.
Qed.

Lemma length_keystream ks nonce n : (n <= length (keystream ks nonce n))%nat.
Proof.
  rewrite length_keystream_eq. pose proof (Nat.div_mod_eq n 16). pose proof (Nat.mod_upper_bound n 16). lia.
Qed.

Lemma length_ctr ks nonce data : length (ctr ks nonce data) = length data.
Proof. apply length_xor_bytes, length_keystream. Qed.

Lemma ctr_invol ks nonce data : ctr ks nonce (ctr ks nonce data) = data.
Proof. unfold ctr at 1. rewrite length_ctr. apply xor_bytes_invol, length_keystream. Qed.

Lemma length_gcm_tag ks nonce aad ct : length (gcm_tag ks nonce aad ct) = 16%nat.
Proof. unfold gcm_tag. rewrite length_xor_bytes; rewrite length_aes_encrypt, ?length_put_be; lia. Qed.

Lemma length_Seal key nonce p aad : length (Seal key nonce p aad) = (length p + 16)%nat.
Proof. unfold Seal. by rewrite length_app, length_ctr, length_gcm_tag. Qed.
#[export] Hint Rewrite length_Seal : momo_rw.

(** What was sealed opens under the same key, nonce and associated data. *)
Lemma Open_Seal key nonce p aad : Open key nonce (Seal key nonce p aad) aad = Some p.
Proof.
  unfold Open. rewrite length_Seal, (proj2 (Nat.ltb_ge _ _)) by lia.
  replace (length p + 16 - 16)%nat with (length p) by lia. unfold Seal.
  rewrite take_app_eq, drop_app_eq by apply length_ctr.
  by rewrite decide_True, ctr_invol by done.
Qed.

(** An opened message is 16 bytes shorter than its sealed form, and sealing it
    again gives the same bytes: every accepted message is a sealed one. *)
Lemma Open_Some key nonce s aad p : Open key nonce s aad = Some p → s = Seal key nonce p aad.
Proof.
  unfold Open. destruct (length s <? 16)%nat eqn:El; zbool; [done|]. case_decide as Ht; [|done].
  intros [= <-]. unfold Seal. rewrite ctr_invol, <- Ht. by rewrite take_drop.
Qed.
