(* ===== verification/Json.v ===== *)
(** * JSON documents of the metadata buckets

    The buckets that hold JSON store values [encoding/json] wrote.  [stored]
    is such a value as the code sees it: a document that unmarshals, or bytes
    that do not.  The audit log also hashes the JSON text, so the string
    encoder of [encoding/json] is written out: [json_string] is what
    [json.Marshal] emits for a string (HTML escaping on, as by default), and
    [json_valid] the string that [json.Unmarshal] gives back, in which each
    byte of invalid UTF-8 has become U+FFFD. *)
From S2P Require Import Prelude GoText Hashes.

(** A JSON value: a document, or bytes that do not unmarshal. *)
Inductive stored (A : Type) := Doc (a : A) | Corrupt.
Arguments Doc {A} a.
Arguments Corrupt {A}.

(** ** UTF-8: [utf8.DecodeRuneInString] *)
Definition in_range (lo hi : Z) (b : byte) : bool := (lo <=? b2z b) && (b2z b <=? hi).
Definition cont_byte (b : byte) : bool := in_range 128 191 b.

(** The size of the first rune of a non-empty string, [None] for the
    (RuneError, 1) of an invalid encoding. *)
Definition rune_size (s : bytes) : option nat :=
  match s with
  | [] => None
  | b0 :: s1 =>
      if in_range 0 127 b0 then Some 1%nat
      else match s1 with
      | [] => None
      | b1 :: s2 =>
          if in_range 194 223 b0 then if cont_byte b1 then Some 2%nat else None
          else match s2 with
          | [] => None
          | b2 :: s3 =>
              if in_range 224 239 b0 then
                let lo := if b2z b0 =? 224 then 160 else 128 in
                let hi := if b2z b0 =? 237 then 159 else 191 in
                if in_range lo hi b1 && cont_byte b2 then Some 3%nat else None
              else match s3 with
              | [] => None
              | b3 :: _ =>
                  if in_range 240 244 b0 then
                    let lo := if b2z b0 =? 240 then 144 else 128 in
                    let hi := if b2z b0 =? 244 then 143 else 191 in
                    if in_range lo hi b1 && cont_byte b2 && cont_byte b3 then Some 4%nat else None
                  else None
              end
          end
      end
  end.

(** ** Strings *)
Definition dquote : byte := Byte.x22.
Definition replacement : bytes := [Byte.xef; Byte.xbf; Byte.xbd].
Definition line_sep : bytes := [Byte.xe2; Byte.x80; Byte.xa8].
Definition para_sep : bytes := [Byte.xe2; Byte.x80; Byte.xa9].

Definition html_byte (b : byte) : bool :=
  (b2z b =? 60) || (b2z b =? 62) || (b2z b =? 38).

Definition json_ascii (b : byte) : bytes :=
  let z := b2z b in
  if (z =? 34) || (z =? 92) then [ch_backslash; b]
  else if z =? 8 then bs "\b" else if z =? 12 then bs "\f" else if z =? 10 then bs "\n"
  else if z =? 13 then bs "\r" else if z =? 9 then bs "\t"
  else if (z <? 32) || html_byte b then bs "\u00" ++ hex_encode [b]
  else [b].

(** The text of the first rune and the bytes it consumes. *)
Definition json_unit (s : bytes) : bytes * nat :=
  match s with
  | [] => ([], 1%nat)
  | b :: _ =>
      if in_range 0 127 b then (json_ascii b, 1%nat)
      else match rune_size s with
           | None => (bs "\ufffd", 1%nat)
           | Some n =>
               if decide (take 3 s = line_sep) then (bs "\u2028", n)
               else if decide (take 3 s = para_sep) then (bs "\u2029", n)
               else (take n s, n)
           end
  end.

(** Every unit consumes at least a byte: the length of the string is enough
    fuel. *)
Fixpoint json_escape (fuel : nat) (s : bytes) : bytes :=
  match fuel, s with
  | S fuel, _ :: _ => let '(u, n) := json_unit s in u ++ json_escape fuel (drop n s)
  | _, _ => []
  end.

Definition json_string (s : bytes) : bytes := [dquote] ++ json_escape (length s) s ++ [dquote].

(** What unmarshalling a marshalled string returns. *)
Fixpoint json_valid_loop (fuel : nat) (s : bytes) : bytes :=
  match fuel, s with
  | S fuel, _ :: s' =>
      match rune_size s with
      | None => replacement ++ json_valid_loop fuel s'
      | Some n => take n s ++ json_valid_loop fuel (drop n s)
      end
  | _, _ => []
  end.
Definition json_valid (s : bytes) : bytes := json_valid_loop (length s) s.

(** A member of a JSON object: ["name":value]. *)
Definition json_key (name : bytes) : bytes := [dquote] ++ name ++ [dquote; Byte.x3a].
Definition ch_comma : byte := Byte.x2c.

(** * Lemmas *)

(** A string is valid UTF-8 when every rune decodes. *)
Fixpoint utf8_loop (fuel : nat) (s : bytes) : bool :=
  match fuel, s with
  | S fuel, _ :: _ =>
      match rune_size s with
      | None => false
      | Some n => utf8_loop fuel (drop n s)
      end
  | _, _ => true
  end.
Definition utf8 (s : bytes) : Prop := utf8_loop (length s) s = true.
#[export] Instance utf8_dec s : Decision (utf8 s).
Proof. unfold utf8. solve_decision. Defined.

Lemma rune_size_bounds s n : rune_size s = Some n → (1 <= n <= length s)%nat.
Proof.
  destruct s as [|b0 [|b1 [|b2 [|b3 s]]]]; cbn [rune_size length]; repeat case_match;
    intros; simplify_eq; lia.
Qed.

(** The bytes of a multi-byte rune are all above the ASCII range. *)
Lemma rune_size_high s n :
  rune_size s = Some n → match s with b :: _ => in_range 0 127 b = false | [] => True end →
  Forall (λ b, in_range 0 127 b = false) (take n s).
Proof.
  assert (∀ lo hi b, 128 <= lo → in_range lo hi b = true → in_range 0 127 b = false) as Hhi.
  { intros lo hi b Hlo. unfold in_range. rewrite andb_true_iff, andb_false_iff. lia. }
  assert (∀ b, cont_byte b = true → in_range 0 127 b = false) as Hc.
  { intros b. by apply Hhi. }
  destruct s as [|b0 [|b1 [|b2 [|b3 s]]]]; cbn [rune_size]; repeat case_match;
    intros E Hb0; simplify_eq; cbn [take firstn];
    repeat match goal with H : _ && _ = true |- _ => apply andb_true_iff in H as [? ?] end;
    repeat constructor; eauto 3; (eapply Hhi; [|eassumption]); repeat case_match; lia.
Qed.

Lemma utf8_step fuel s :
  utf8_loop (S fuel) s = true → s ≠ [] →
  ∃ n, rune_size s = Some n ∧ utf8_loop fuel (drop n s) = true.
Proof. destruct s; [done|]. cbn [utf8_loop]. intros H _. case_match; [eauto|done]. Qed.

Lemma json_valid_id s : utf8 s → json_valid s = s.
Proof.
  unfold utf8, json_valid. generalize (Nat.le_refl (length s)). generalize (length s) at 2 3 4 as fuel.
  intros fuel. revert s. induction fuel as [|fuel IH]; intros s Hl Hu.
  { by destruct s; cbn in Hl; [|lia]. }
  destruct s as [|b s]; [done|]. destruct (utf8_step _ _ Hu) as (n & Hn & Hr); [done|].
  cbn [json_valid_loop]. rewrite Hn, IH; [by rewrite take_drop| |done].
  rewrite length_drop. apply rune_size_bounds in Hn. lia.
Qed.

(** ** Reading an escaped string back *)
Definition hex_value (h : bytes) : option byte :=
  match hex_decode h with Some [b] => Some b | _ => None end.

Definition unescape_u (h : bytes) : option bytes :=
  if decide (h = bs "2028") then Some line_sep
  else if decide (h = bs "2029") then Some para_sep
  else match hex_decode h with Some [_; b] => Some [b] | _ => None end.

Definition unescape_c (c : byte) : byte :=
  let z := b2z c in
  if z =? 98 then Byte.x08 else if z =? 102 then Byte.x0c else if z =? 110 then Byte.x0a
  else if z =? 114 then Byte.x0d else if z =? 116 then Byte.x09 else c.

(** The string up to the closing quote, and what follows it. *)
Fixpoint unescape (s : bytes) : option (bytes * bytes) :=
  match s with
  | [] => None
  | c :: r =>
      if decide (c = dquote) then Some ([], r)
      else if decide (c = ch_backslash) then
        match r with
        | x :: r' =>
            if decide (x = Byte.x75) then
              match r' with
              | h1 :: h2 :: h3 :: h4 :: r'' =>
                  match unescape_u [h1; h2; h3; h4], unescape r'' with
                  | Some u, Some (t, rest) => Some (u ++ t, rest)
                  | _, _ => None
                  end
              | _ => None
              end
            else match unescape r' with
                 | Some (t, rest) => Some (unescape_c x :: t, rest)
                 | None => None
                 end
        | [] => None
        end
      else match unescape r with
           | Some (t, rest) => Some (c :: t, rest)
           | None => None
           end
  end.

(** How an ASCII byte is written: as itself, as a two-byte escape or as a
    [\u] escape. *)
Lemma json_ascii_shape b :
  in_range 0 127 b = true →
  (json_ascii b = [b] ∧ b ≠ dquote ∧ b ≠ ch_backslash)
  ∨ (∃ c, json_ascii b = [ch_backslash; c] ∧ c ≠ Byte.x75 ∧ unescape_c c = b)
  ∨ (∃ h1 h2 h3 h4, json_ascii b = [ch_backslash; Byte.x75; h1; h2; h3; h4]
       ∧ unescape_u [h1; h2; h3; h4] = Some [b]).
Proof.
  intros Hb. destruct b; try discriminate Hb;
    first [ left; split; [reflexivity|split; discriminate]
          | right; left; eexists; split; [reflexivity|split; [discriminate|reflexivity]]
          | right; right; do 4 eexists; split; [reflexivity|reflexivity] ].
Qed.

Lemma unescape_uesc h1 h2 h3 h4 u s t r :
  unescape_u [h1; h2; h3; h4] = Some u → unescape s = Some (t, r) →
  unescape ([ch_backslash; Byte.x75; h1; h2; h3; h4] ++ s) = Some (u ++ t, r).
Proof.
  intros Hu Hs. cbn [app unescape].
  by rewrite (decide_False (P := ch_backslash = dquote)), !decide_True, Hs, Hu by done.
Qed.

Lemma unescape_ascii b s t r :
  in_range 0 127 b = true → unescape s = Some (t, r) → unescape (json_ascii b ++ s) = Some (b :: t, r).
Proof.
  intros Hb Hs. destruct (json_ascii_shape b Hb) as [(-> & Hq & Hk)|[(c & -> & Hc & Hu)|(h1 & h2 & h3 & h4 & -> & Hu)]];
    [cbn [app unescape]..|].
  - by rewrite !decide_False, Hs by done.
  - by rewrite (decide_False (P := ch_backslash = dquote)), decide_True, decide_False, Hs, Hu by done.
  - by apply (unescape_uesc _ _ _ _ [b]).
Qed.

Lemma unescape_high u s t r :
  Forall (λ b, in_range 0 127 b = false) u → unescape s = Some (t, r) →
  unescape (u ++ s) = Some (u ++ t, r).
Proof.
  intros Hu Hs. induction Hu as [|b u Hb Hu IH]; [done|]. cbn [app unescape].
  rewrite decide_False by (by intros ->). rewrite decide_False by (by intros ->). by rewrite IH.
Qed.

Lemma unescape_sep u w s t r :
  (u, w) ∈ [(bs "\u2028", line_sep); (bs "\u2029", para_sep)] → unescape s = Some (t, r) →
  unescape (u ++ s) = Some (w ++ t, r).
Proof.
  intros Hin Hs. repeat (apply elem_of_cons in Hin as [[= -> ->]|Hin]); [..|by apply elem_of_nil in Hin].
  { refine (unescape_uesc Byte.x32 Byte.x30 Byte.x32 Byte.x38 line_sep s t r eq_refl Hs). }
  { refine (unescape_uesc Byte.x32 Byte.x30 Byte.x32 Byte.x39 para_sep s t r eq_refl Hs). }
Qed.

(** The escaped form of a valid string delimits it: the string and whatever
    follows its closing quote are determined by the text. *)
Lemma unescape_json s r : utf8 s → unescape (json_escape (length s) s ++ dquote :: r) = Some (s, r).
Proof.
  unfold utf8. generalize (Nat.le_refl (length s)). generalize (length s) at 2 3 4 as fuel.
  intros fuel. revert s. induction fuel as [|fuel IH]; intros s Hl Hu.
  { destruct s; cbn in Hl; [done|lia]. }
  destruct s as [|b s]; [done|]. destruct (utf8_step _ _ Hu) as (n & Hn & Hr); [done|].
  assert (length (drop n (b :: s)) <= fuel)%nat as Hl'.
  { rewrite length_drop. apply rune_size_bounds in Hn. lia. }
  specialize (IH _ Hl' Hr). cbn [json_escape]. unfold json_unit.
  destruct (in_range 0 127 b) eqn:Hb.
  - assert (n = 1)%nat as -> by (cbn [rune_size] in Hn; rewrite Hb in Hn; congruence).
    rewrite <- app_assoc. by apply unescape_ascii.
  - rewrite Hn. assert (Hsep : ∀ w, w = line_sep ∨ w = para_sep → take 3 (b :: s) = w → take n (b :: s) = w).
    { intros w Hw E. destruct s as [|b1 [|b2 s]]; [by destruct Hw; subst|by destruct Hw; subst|].
      cbn [take firstn] in E. rewrite <- E.
      assert (n = 3)%nat as -> by (destruct Hw as [-> | ->]; injection E as -> -> ->; cbv in Hn; congruence).
      done. }
    replace (Some (b :: s, r)) with (Some (take n (b :: s) ++ drop n (b :: s), r)) by (by rewrite take_drop).
    case_decide as E1; [|case_decide as E2]; rewrite <- app_assoc.
    + rewrite (Hsep line_sep) by auto.
      eapply unescape_sep; [|done]. set_solver.
    + rewrite (Hsep para_sep) by auto.
      eapply unescape_sep; [|done]. set_solver.
    + apply unescape_high; [|done].
      by eapply rune_size_high.
Qed.

Lemma json_string_inj s t x y :
  utf8 s → utf8 t → json_string s ++ x = json_string t ++ y → s = t ∧ x = y.
Proof.
  unfold json_string. intros Hs Ht E. rewrite <- !app_assoc in E. cbn [app] in E. injection E as E.
  apply (f_equal unescape) in E. rewrite !unescape_json in E by done. by simplify_eq.
Qed.

Lemma ascii_utf8 s : Forall (λ b, in_range 0 127 b = true) s → utf8 s.
Proof.
  unfold utf8. generalize (length s) as n. intros n Hs. revert n.
  induction Hs as [|b s Hb Hs IH]; intros [|n]; try done.
  cbn [utf8_loop rune_size]. rewrite Hb. apply IH.
Qed.

Lemma HashBytes_utf8 b : utf8 (HashBytes b).
Proof.
  apply ascii_utf8. unfold HashBytes, hex_encode. generalize (sha256 b) as l.
  induction l as [|x l IH]; [constructor|]. cbn [map concat app].
  assert (∀ n, 0 <= n < 16 → in_range 0 127 (hex_digit n) = true) as H.
  { intros n Hn. unfold hex_digit, in_range. case_match; zbool; rewrite b2z_z2b, Z.mod_small by lia;
      apply andb_true_iff; split; apply Z.leb_le; lia. }
  pose proof (b2z_range x). repeat constructor; [..|done]; apply H.
  - split; [apply Z.div_pos; lia|apply Z.div_lt_upper_bound; lia].
  - apply Z.mod_pos_bound. lia.
Qed.
