(* ===== verification/Paths.v ===== *)
(** * Wire text and virtual paths (src/src/common/string.go, parse.go)

    The validation every name, hash and remote path of momo goes through, and
    the null-padded decimal fields of the native protocol. *)
From S2P Require Import Prelude GoText.
Open Scope Z_scope.

(** ** Fixed-width wire fields *)

(** [WritePaddedInt]: writes into [dst], returning the new contents. *)
Definition WritePaddedInt (dst : bytes) (val : Z) (width : nat) : result bytes :=
  if (length dst <? width)%nat then Err (Errno EINVAL)
  else
    let b := append_int val in
    if (width <? length b)%nat then Err (Errno EINVAL)
    else Ok (b ++ replicate (width - length b) ch_nul ++ drop width dst).

(** The digit loop of [SafeParseInt]; [res] is a uint64. *)
Definition cutoff : Z := 2 ^ 63 - 1.
Definition maxVal : Z := cutoff / 10.

Fixpoint parse_loop (neg : bool) (res : Z) (b : bytes) : result Z :=
  match b with
  | [] => Ok res
  | c :: b' =>
      if (b2z c <? 48) || (57 <? b2z c) then Err ErrSyntax
      else
        let v := b2z c - 48 in
        if (maxVal <? res) || ((res =? maxVal) && (cutoff mod 10 <? v)) then
          if neg && (res =? maxVal) && (v =? cutoff mod 10 + 1)
          then parse_loop neg (2 ^ 63) b'
          else Err ErrRange
        else parse_loop neg (uint64 (res * 10 + v)) b'
  end.

Definition SafeParseInt (b : bytes) : result Z :=
  let idx := match index_byte ch_nul b with Some i => i | None => length b end in
  match take idx b with
  | [] => Err ErrSyntax
  | c :: rest =>
      let neg := bool_decide (c = ch_minus) in
      let body := if decide (c = ch_minus ∨ c = ch_plus) then rest else c :: rest in
      match body with
      | [] => Err ErrSyntax
      | _ =>
          let! res := parse_loop neg 0 body in
          if neg then Ok (int64 (uint64 (Z.lnot res + 1))) else Ok (int64 res)
      end
  end.

(** [PadString]; [None] is the panic. *)
Definition PadString (input : bytes) (len : Z) : option bytes :=
  if len <? 0 then None
  else if len <? Z.of_nat (length input) then None
  else Some (input ++ replicate (Z.to_nat len - length input) ch_nul).

(** [TrimNullBytesString] and [TrimNullBytesFromString] *)
Definition TrimNullBytesString (b : bytes) : bytes :=
  match index_byte ch_nul b with Some idx => take idx b | None => b end.

Definition TrimNullBytesFromString (s : bytes) : bytes :=
  match index_byte ch_nul s with Some idx => take idx s | None => s end.

Definition ReplaceCRLF (s : bytes) : bytes :=
  if contains_byte ch_cr s || contains_byte ch_lf s
  then map (λ c, if decide (c = ch_cr ∨ c = ch_lf) then ch_space else c) s
  else s.

(** ** Path validation *)
Definition dotdot : bytes := [ch_dot; ch_dot].

Definition HasPathTraversalChars (s : bytes) : bool :=
  existsb (λ c, bool_decide (c = ch_slash ∨ c = ch_backslash)) s
  || bool_decide (s = dotdot).

(** The [IndexByte] loop; each turn consumes at least one byte of [rem]. *)
Fixpoint hazard_loop (fuel : nat) (rem : bytes) : result unit :=
  match fuel with
  | O => Ok tt
  | S fuel' =>
      match index_byte ch_slash rem with
      | None => if decide (rem = dotdot) then Err (Errno EINVAL) else Ok tt
      | Some i =>
          if decide (take i rem = dotdot) then Err (Errno EINVAL)
          else hazard_loop fuel' (drop (S i) rem)
      end
  end.

Definition rejectPathHazards (p : bytes) : result unit :=
  if contains_byte ch_nul p then Err (Errno EINVAL)
  else if contains_byte ch_backslash p then Err (Errno EINVAL)
  else hazard_loop (S (length p)) p.

Definition keep_seg (seg : bytes) : bool :=
  bool_decide (seg ≠ []) && bool_decide (seg ≠ [ch_dot]) && bool_decide (seg ≠ dotdot)
  && bool_decide (trim_space seg ≠ []).

Fixpoint segments_loop (fuel : nat) (rem : bytes) : list bytes :=
  match fuel with
  | O => []
  | S fuel' =>
      let i := index_byte ch_slash rem in
      let seg := match i with None => rem | Some i => take i rem end in
      let rest := match i with None => [] | Some i => segments_loop fuel' (drop (S i) rem) end in
      if keep_seg seg then seg :: rest else rest
  end.

Definition meaningfulSegments (cleaned : bytes) : list bytes :=
  segments_loop (S (length cleaned)) cleaned.

Definition NormalizeVirtualPath (p : bytes) : result bytes :=
  let p := trim_space p in
  match p with
  | [] => Ok []
  | _ =>
      let! _ := rejectPathHazards p in
      match meaningfulSegments (path_clean p) with
      | [] => Err (Errno EINVAL)
      | segs => Ok (join_slash segs)
      end
  end.

Definition ValidatePath (name : bytes) : result unit :=
  let cleaned := path_clean name in
  if decide (cleaned = [ch_dot]) then Err (Errno EBADMSG)
  else if decide (cleaned = dotdot) then Err (Errno EBADMSG)
  else if has_prefix cleaned (dotdot ++ [ch_slash]) then Err (Errno EBADMSG)
  else if has_prefix cleaned [ch_slash] then Err (Errno EBADMSG)
  else if contains_byte ch_backslash cleaned then Err (Errno EBADMSG)
  else Ok tt.

(** ** Decimal fields: lemmas *)
Lemma parse_loop_value neg res ds :
  0 <= res → (if neg : bool then res <= 2 ^ 63 else res < 2 ^ 63) →
  match parse_loop neg res ds with
  | Ok v => forallb is_digit ds = true ∧ v = dec_value res ds
            ∧ 0 <= v ∧ (if neg : bool then v <= 2 ^ 63 else v < 2 ^ 63)
  | Err _ => forallb is_digit ds = false
             ∨ (if neg : bool then 2 ^ 63 < dec_value res ds else 2 ^ 63 <= dec_value res ds)
  end.
Proof.
  assert (∀ ds x y, forallb is_digit ds = true → 0 <= x → y <= x → y <= dec_value x ds) as Hmono.
  { clear. induction ds as [|c ds IH]; simpl; intros x y Hd Hx Hy; [done|].
    apply andb_prop in Hd as [Hc Hd]. unfold is_digit in Hc. zbool.
    apply IH; [done|..]; unfold digit_val; lia. }
  revert res. induction ds as [|c ds IH]; intros res H0 Hr; [by destruct neg|].
  cbn [parse_loop forallb dec_value].
  replace (is_digit c) with (negb ((b2z c <? 48) || (57 <? b2z c))) by (unfold is_digit; lia).
  destruct ((b2z c <? 48) || (57 <? b2z c)) eqn:E1; [by left|].
  apply orb_false_elim in E1 as [Ea Eb]. zbool.
  cbn [andb negb]. unfold digit_val.
  assert (maxVal = 922337203685477580) as Hmax by reflexivity.
  assert (cutoff mod 10 = 7) as Hcut by reflexivity.
  rewrite Hmax, Hcut.
  destruct ((922337203685477580 <? res) || ((res =? 922337203685477580) && (7 <? b2z c - 48))) eqn:E2.
  - destruct (neg && (res =? 922337203685477580) && (b2z c - 48 =? 7 + 1)) eqn:E3.
    + zbool. destruct neg; [|done]. specialize (IH (2 ^ 63)).
      replace (res * 10 + (b2z c - 48)) with (2 ^ 63) by lia. apply IH; lia.
    + destruct (forallb is_digit ds) eqn:Ed; [right|by left].
      assert (2 ^ 63 + (if neg : bool then 1 else 0) <= res * 10 + (b2z c - 48)) as Hb.
      { destruct neg; lia. }
      pose proof (Hmono ds (res * 10 + (b2z c - 48)) _ Ed ltac:(lia) Hb). destruct neg; lia.
  - assert (res * 10 + (b2z c - 48) < 2 ^ 63) by lia.
    rewrite uint64_id by (unfold is_uint64; lia). apply IH; [lia|destruct neg; lia].
Qed.

Lemma TrimNull_take b :
  take (match index_byte ch_nul b with Some i => i | None => length b end) b
  = TrimNullBytesString b.
Proof. unfold TrimNullBytesString. destruct (index_byte ch_nul b); [done|]. apply firstn_all. Qed.

(** [SafeParseInt] against the reference parser on the field up to the first
    null byte: same acceptance, same value. *)
Lemma SafeParseInt_spec b :
  match SafeParseInt b, parse_int64 (TrimNullBytesString b) with
  | Ok v, Some w => v = w
  | Err _, None => True
  | _, _ => False
  end.
Proof.
  unfold SafeParseInt, parse_int64. rewrite TrimNull_take.
  destruct (TrimNullBytesString b) as [|c rest]; [done|]. unfold split_sign.
  set (neg := bool_decide (c = ch_minus)).
  set (body := if decide (c = ch_minus ∨ c = ch_plus) then rest else c :: rest).
  replace (if decide (c = ch_minus) then _ else _) with (neg, body); last first.
  { unfold neg, body. repeat case_decide; case_bool_decide; naive_solver. }
  destruct body as [|d ds]; [done|].
  pose proof (parse_loop_value neg 0 (d :: ds) ltac:(lia) ltac:(destruct neg; lia)) as H.
  destruct (parse_loop neg 0 (d :: ds)) as [v|e].
  - destruct H as (-> & -> & H0 & Hr). destruct neg.
    + replace (- 2 ^ 63 <=? _) with true by lia. replace (_ <? 2 ^ 63) with true by lia.
      cbn [andb].
      rewrite int64_uint64. replace (Z.lnot _ + 1) with (- dec_value 0 (d :: ds)).
      * apply int64_id. unfold is_int64. lia.
      * unfold Z.lnot. lia.
    + replace (- 2 ^ 63 <=? _) with true by lia. replace (_ <? 2 ^ 63) with true by lia.
      cbn [andb]. apply int64_id. unfold is_int64. lia.
  - destruct H as [->|H]; [done|].
    destruct (forallb is_digit (d :: ds)); [|done].
    destruct neg.
    + by replace (- 2 ^ 63 <=? _) with false by lia.
    + replace (_ <? 2 ^ 63) with false by lia. by rewrite andb_false_r.
Qed.

Lemma append_int_spec v :
  is_int64 v →
  ch_nul ∉ append_int v ∧ append_int v ≠ [] ∧ parse_int64 (append_int v) = Some v.
Proof.
  intros Hv. unfold is_int64 in Hv. unfold append_int.
  assert (∀ ds, Forall (λ c, is_digit c = true) ds → ch_nul ∉ ds) as Hnul.
  { intros ds Hf Hin. rewrite Forall_forall in Hf. by apply Hf, digit_not_sign in Hin as (_ & _ & ?). }
  destruct (v <? 0) eqn:E; zbool.
  - destruct (dec_digits_spec 20 (- v) []) as (ds & -> & Hne & Hf & Hval); [lia|].
    rewrite app_nil_r. split_and!; [|done|].
    + intros [H|H]%elem_of_cons; [discriminate H|by eapply Hnul].
    + unfold parse_int64, split_sign. rewrite decide_True by done.
      destruct ds as [|d ds]; [by destruct Hne; [lia|]|].
      replace (forallb is_digit (d :: ds)) with true
        by (symmetry; apply forallb_forall; intros c Hc%list_elem_of_In; by rewrite Forall_forall in Hf; apply Hf).
      rewrite Hval. replace (- 2 ^ 63 <=? - - v) with true by lia.
      replace (- - v <? 2 ^ 63) with true by lia. simpl. f_equal. lia.
  - destruct (dec_digits_spec 20 v []) as (ds & -> & Hne & Hf & Hval); [lia|].
    rewrite app_nil_r. specialize (Hne ltac:(lia)). destruct ds as [|d ds]; [done|].
    split_and!; [by apply Hnul|done|].
    pose proof (Forall_inv Hf) as Hd%digit_not_sign. destruct Hd as (Hd1 & Hd2 & _).
    unfold parse_int64, split_sign. rewrite !decide_False by done.
    replace (forallb is_digit (d :: ds)) with true
      by (symmetry; apply forallb_forall; intros c Hc%list_elem_of_In; by rewrite Forall_forall in Hf; apply Hf).
    rewrite Hval. replace (- 2 ^ 63 <=? v) with true by lia.
    by replace (v <? 2 ^ 63) with true by lia.
Qed.

Lemma TrimNull_app b k t : ch_nul ∉ b → TrimNullBytesString (b ++ replicate (S k) ch_nul ++ t) = b.
Proof.
  intros Hb. unfold TrimNullBytesString.
  assert (index_byte ch_nul (b ++ replicate (S k) ch_nul ++ t) = Some (length b)) as ->.
  { induction b as [|x b IH]; [done|]. cbn [app index_byte]. rewrite decide_False by set_solver.
    rewrite IH by set_solver. done. }
  by apply take_app_eq.
Qed.

Lemma TrimNull_id b : ch_nul ∉ b → TrimNullBytesString b = b.
Proof. intros H. unfold TrimNullBytesString. by apply index_byte_None in H as ->. Qed.

(** ** Paths: lemmas *)
Lemma split_slash_index rem :
  split_slash rem = match index_byte ch_slash rem with
                    | None => [rem]
                    | Some i => take i rem :: split_slash (drop (S i) rem)
                    end.
Proof.
  destruct (index_byte ch_slash rem) as [i|] eqn:E.
  - destruct (index_byte_Some _ _ _ E) as (Eq & Hn & _). rewrite Eq at 1.
    by apply split_slash_app.
  - apply index_byte_None in E. by apply split_slash_single.
Qed.

Lemma hazard_loop_spec fuel rem :
  (length rem < fuel)%nat →
  hazard_loop fuel rem = if decide (dotdot ∈ split_slash rem) then Err (Errno EINVAL) else Ok tt.
Proof.
  revert rem. induction fuel as [|fuel IH]; intros rem Hl; [lia|].
  cbn [hazard_loop]. rewrite split_slash_index.
  destruct (index_byte ch_slash rem) as [i|] eqn:E.
  - destruct (index_byte_Some _ _ _ E) as (_ & _ & Hi).
    rewrite IH by (rewrite length_drop; lia).
    repeat case_decide; try done; set_solver.
  - repeat case_decide; try done; set_solver.
Qed.

Lemma segments_loop_spec fuel rem :
  (length rem < fuel)%nat →
  segments_loop fuel rem = filter (λ seg, keep_seg seg = true) (split_slash rem).
Proof.
  revert rem. induction fuel as [|fuel IH]; intros rem Hl; [lia|].
  cbn [segments_loop]. rewrite split_slash_index.
  destruct (index_byte ch_slash rem) as [i|] eqn:E.
  - destruct (index_byte_Some _ _ _ E) as (_ & _ & Hi).
    rewrite IH by (rewrite length_drop; lia). rewrite filter_cons.
    destruct (keep_seg _); [by rewrite decide_True|by rewrite decide_False].
  - rewrite filter_cons, filter_nil.
    destruct (keep_seg _); [by rewrite decide_True|by rewrite decide_False].
Qed.

Lemma rejectPathHazards_Ok p :
  rejectPathHazards p = Ok tt →
  ch_nul ∉ p ∧ ch_backslash ∉ p ∧ Forall (λ seg, seg ≠ dotdot) (split_slash p).
Proof.
  unfold rejectPathHazards. rewrite !contains_byte_spec.
  repeat case_bool_decide; try discriminate.
  rewrite hazard_loop_spec by lia. case_decide; [discriminate|]. intros _.
  split_and!; [done|done|]. apply Forall_forall. intros seg Hs ->. done.
Qed.

Lemma keep_seg_true seg :
  keep_seg seg = true ↔ real_seg seg ∧ trim_space seg ≠ [].
Proof. unfold keep_seg, real_seg, dotdot. rewrite !andb_true_iff, !bool_decide_eq_true. tauto. Qed.

(** What [NormalizeVirtualPath] promises its callers. *)
Record canonical_path (q : bytes) : Prop := {
  cp_segs : Forall real_seg (split_slash q);
  cp_nul : ch_nul ∉ q;
  cp_backslash : ch_backslash ∉ q
}.

Lemma split_clean_subset p seg :
  Forall (λ seg, seg ≠ dotdot) (split_slash p) →
  seg ∈ split_slash (path_clean p) → real_seg seg → seg ∈ split_slash p.
Proof.
  intros Hd. rewrite (path_clean_no_dotdot p Hd). cbv zeta.
  set (segs := filter real_seg (split_slash p)).
  assert (seg ∈ split_slash (join_slash segs) → real_seg seg → seg ∈ split_slash p) as Hj.
  { intros Hs Hr. destruct (decide (segs = [])) as [Hn|Hn].
    - rewrite Hn in Hs. apply list_elem_of_singleton in Hs as ->. by destruct Hr.
    - rewrite split_join in Hs; [|done|].
      + by apply list_elem_of_filter in Hs as [_ ?].
      + apply Forall_filter_weaken, split_slash_no_slash. }
  assert (seg ∈ split_slash [ch_dot] → real_seg seg → seg ∈ split_slash p) as Hdot.
  { intros ->%list_elem_of_singleton (_ & ? & _). done. }
  destruct p as [|x p]; [done|]. case_decide.
  - change (ch_slash :: join_slash segs) with ([] ++ ch_slash :: join_slash segs).
    rewrite split_slash_app by set_solver.
    intros [->|Hs]%elem_of_cons Hr; [by destruct Hr|by apply Hj].
  - destruct (join_slash segs) eqn:Ej; [done|]. by rewrite <- Ej in Hj |- *.
Qed.

Lemma NormalizeVirtualPath_canonical p q :
  NormalizeVirtualPath p = Ok q → q = [] ∨ canonical_path q.
Proof.
  unfold NormalizeVirtualPath. set (t := trim_space p). clearbody t. clear p.
  destruct t as [|x t]; [intros [= <-]; by left|].
  destruct (rejectPathHazards (x :: t)) as [[]|] eqn:E; [|discriminate].
  apply rejectPathHazards_Ok in E as (Hn & Hb & Hd).
  unfold meaningfulSegments. rewrite segments_loop_spec by lia.
  destruct (filter _ _) as [|s segs] eqn:Ef; [discriminate|]. intros Hq. right.
  replace q with (join_slash (s :: segs)) by congruence. clear Hq. rewrite <- Ef. set (l := filter _ _) in *.
  assert (l ≠ []) as Hl by (rewrite Ef; done).
  assert (∀ seg, seg ∈ l → real_seg seg ∧ seg ∈ split_slash (x :: t)) as Hin.
  { intros seg [Hk Hs]%list_elem_of_filter. apply keep_seg_true in Hk as [Hr _].
    split; [done|by apply split_clean_subset]. }
  assert (Forall (λ seg, ch_slash ∉ seg) l) as Hns.
  { apply Forall_filter_weaken, split_slash_no_slash. }
  split.
  - rewrite split_join by done. apply Forall_forall. intros seg Hs. by apply Hin.
  - intros [Hc|(seg & Hs & Hc)]%join_slash_elem; [discriminate Hc|].
    apply Hn. eapply split_slash_elem; [by apply Hin|done].
  - intros [Hc|(seg & Hs & Hc)]%join_slash_elem; [discriminate Hc|].
    apply Hb. eapply split_slash_elem; [by apply Hin|done].
Qed.

Lemma filter_real_id segs : Forall real_seg segs → filter real_seg segs = segs.
Proof.
  induction 1 as [|s segs Hs Hf IH]; [done|]. rewrite filter_cons, decide_True by done.
  by rewrite IH.
Qed.

Lemma join_split q : join_slash (split_slash q) = q.
Proof.
  induction q as [|x q IH]; [done|]. cbn [split_slash]. case_decide as E.
  - subst. destruct (split_slash q) as [|s segs] eqn:Es; [by apply split_slash_not_nil in Es|].
    rewrite join_slash_cons, IH. done.
  - destruct (split_slash q) as [|s segs] eqn:Es; [by apply split_slash_not_nil in Es|].
    destruct segs; cbn [join_slash] in *; [by rewrite IH|]. cbn [app]. by f_equal.
Qed.

(** A canonical path is a fixed point of [path.Clean]. *)
Lemma path_clean_canonical q : canonical_path q → path_clean q = q.
Proof.
  intros [Hs _ _]. rewrite path_clean_no_dotdot.
  - rewrite filter_real_id, join_split by done.
    destruct q as [|x q]; [by inversion Hs as [|? ? [? _] _]|]. case_decide as E; [|done]. subst.
    change (ch_slash :: q) with ([] ++ ch_slash :: q) in Hs.
    rewrite split_slash_app in Hs by set_solver. by inversion Hs as [|? ? [? _] _].
  - eapply Forall_impl; [exact Hs|]. by intros seg (_ & _ & ?).
Qed.

Lemma canonical_no_prefix q seg :
  canonical_path q → ¬ real_seg seg → ch_slash ∉ seg → has_prefix q (seg ++ [ch_slash]) = false.
Proof.
  intros [Hs _ _] Hr Hn. apply not_true_iff_false. intros [t ->]%has_prefix_spec.
  rewrite <- app_assoc in Hs. cbn [app] in Hs. rewrite split_slash_app in Hs by done.
  by inv Hs.
Qed.

Lemma canonical_ValidatePath q : canonical_path q → ValidatePath q = Ok tt.
Proof.
  intros Hc. unfold ValidatePath. rewrite path_clean_canonical by done.
  assert (∀ s, ch_slash ∉ s → ¬ real_seg s → q ≠ s) as Hne.
  { intros s Hs Hr ->. destruct Hc as [Hf _ _]. rewrite split_slash_single in Hf by done.
    by inv Hf. }
  assert (¬ real_seg [ch_dot] ∧ ¬ real_seg dotdot ∧ ¬ real_seg []) as (H1 & H2 & H3).
  { unfold real_seg, dotdot. naive_solver. }
  rewrite decide_False by (apply Hne; [apply (bool_decide_unpack _); done|done]).
  rewrite decide_False by (apply Hne; [apply (bool_decide_unpack _); done|done]).
  rewrite (canonical_no_prefix q dotdot); [|done|done|apply (bool_decide_unpack _); done].
  pose proof (canonical_no_prefix q [] Hc H3 ltac:(set_solver)) as Hp. cbn [app] in Hp.
  rewrite Hp.
  rewrite contains_byte_spec, bool_decide_eq_false_2; [done|]. apply Hc.
Qed.

(** The stack of [path.Clean]: real segments on top of a (possibly empty) run of
    ".." segments, and no ".." at all for a rooted path. *)
Definition clean_stack (rooted : bool) (st : list bytes) : Prop :=
  ∃ reals k, st = reals ++ replicate k dotdot
             ∧ Forall (λ seg, real_seg seg ∧ ch_slash ∉ seg) reals
             ∧ (rooted = true → k = O).

Lemma clean_step_stack rooted st seg :
  ch_slash ∉ seg → clean_stack rooted st → clean_stack rooted (clean_step rooted st seg).
Proof.
  intros Hns (reals & k & -> & Hf & Hk). unfold clean_step.
  case_decide as H1; [by exists reals, k|]. case_decide as H2.
  - destruct reals as [|r reals].
    + destruct k as [|k]; simpl.
      * destruct rooted; [by exists [], O|]. subst seg. by exists [], 1%nat.
      * subst seg. exists [], (S (S k)).
        split_and!; [done|done|]. intros ?%Hk. lia.
    + inversion Hf as [|? ? [(_ & _ & Hr) _] Hf']; subst. simpl.
      rewrite decide_False by done. by exists reals, k.
  - exists (seg :: reals), k. split_and!; [done| |done]. constructor; [|done].
    unfold real_seg. tauto.
Qed.

Lemma clean_foldl_stack rooted segs st :
  Forall (λ seg, ch_slash ∉ seg) segs → clean_stack rooted st →
  clean_stack rooted (foldl (clean_step rooted) st segs).
Proof.
  intros Hf. revert st. induction Hf; intros st H'; simpl; auto using clean_step_stack.
Qed.

Lemma rev_replicate_dd k (l : list bytes) :
  rev (l ++ replicate k dotdot) = replicate k dotdot ++ rev l.
Proof.
  rewrite rev_app_distr. f_equal. induction k as [|k IH]; [done|].
  cbn [replicate rev]. rewrite IH. clear IH. induction k as [|k IH]; [done|].
  cbn [replicate app]. by f_equal.
Qed.

(** An accepted name cleans to a path that never climbs above its root. *)
Lemma ValidatePath_segments name :
  ValidatePath name = Ok tt →
  Forall (λ seg, seg ≠ dotdot) (split_slash (path_clean name))
  ∧ has_prefix (path_clean name) [ch_slash] = false
  ∧ ch_backslash ∉ path_clean name.
Proof.
  unfold ValidatePath. repeat case_decide; try discriminate.
  destruct (has_prefix _ (_ ++ _)) eqn:E1; [discriminate|].
  destruct (has_prefix _ [ch_slash]) eqn:E2; [discriminate|].
  rewrite contains_byte_spec. case_bool_decide as Hb; [discriminate|]. intros _.
  split; [|done]. clear Hb. unfold path_clean in *.
  set (rooted := match name with [] => _ | _ => _ end) in *. clearbody rooted.
  destruct (clean_foldl_stack rooted (split_slash name) []) as (reals & k & Hst & Hf & Hk).
  { apply split_slash_no_slash. } { by exists [], O. }
  rewrite Hst, rev_replicate_dd in *. destruct rooted; [discriminate E2|].
  destruct k as [|k].
  - cbn [replicate app] in *. apply Forall_rev in Hf.
    destruct (join_slash (rev reals)) as [|c s] eqn:Ej; [by repeat constructor|].
    rewrite <- Ej, split_join; [|intros Hn; by rewrite Hn in Ej|].
    + eapply Forall_impl; [exact Hf|]. by intros seg [(_ & _ & ?) _].
    + eapply Forall_impl; [exact Hf|]. by intros seg [_ ?].
  - exfalso. cbn [replicate app] in *.
    destruct (replicate k dotdot ++ rev reals) as [|s segs'] eqn:Es; [done|].
    rewrite join_slash_cons in *. done.
Qed.

(** ** Properties *)

(** Every non-empty path [NormalizeVirtualPath] accepts is canonical: its
    segments are neither empty nor "." nor "..", it holds no NUL byte and no
    backslash, and [ValidatePath], the other path check, accepts it too. *)
Theorem NormalizeVirtualPath_safe p q :
  NormalizeVirtualPath p = Ok q → q ≠ [] →
  canonical_path q ∧ ValidatePath q = Ok tt.
Proof.
  intros H Hq. destruct (NormalizeVirtualPath_canonical p q H) as [?|Hc]; [done|].
  auto using canonical_ValidatePath.
Qed.

Lemma NormalizeVirtualPath_safe_witness :
  NormalizeVirtualPath (bs " a//b/./c ") = Ok (bs "a/b/c")
  ∧ canonical_path (bs "a/b/c") ∧ ValidatePath (bs "a/b/c") = Ok tt.
Proof.
  split; [vm_compute; reflexivity|].
  apply (NormalizeVirtualPath_safe (bs " a//b/./c ")); [vm_compute; reflexivity|discriminate].
Defined.

(** A name [ValidatePath] accepts cleans to a relative path without any ".."
    segment and without backslashes: it cannot leave the directory it is
    resolved in. *)
Theorem ValidatePath_confines name :
  ValidatePath name = Ok tt →
  Forall (λ seg, seg ≠ dotdot) (split_slash (path_clean name))
  ∧ has_prefix (path_clean name) [ch_slash] = false
  ∧ ch_backslash ∉ path_clean name.
Proof. apply ValidatePath_segments. Qed.

Lemma ValidatePath_confines_witness :
  ValidatePath (bs "a/../b/c") = Ok tt ∧ path_clean (bs "a/../b/c") = bs "b/c"
  ∧ Forall (λ seg, seg ≠ dotdot) (split_slash (path_clean (bs "a/../b/c"))).
Proof.
  split; [vm_compute; reflexivity|]. split; [vm_compute; reflexivity|].
  apply (ValidatePath_confines (bs "a/../b/c")). vm_compute. reflexivity.
Defined.

(** [SafeParseInt] accepts exactly the decimal int64 texts (optional sign,
    digits, value in the int64 range) that precede the first NUL byte, and
    returns their value: no overflow and no wrap-around on any input. *)
Theorem SafeParseInt_reference b :
  match SafeParseInt b with
  | Ok v => parse_int64 (TrimNullBytesString b) = Some v
  | Err _ => parse_int64 (TrimNullBytesString b) = None
  end.
Proof.
  pose proof (SafeParseInt_spec b) as H.
  destruct (SafeParseInt b), (parse_int64 _); try done. by subst.
Qed.

(** A number written into a null-padded wire field with [WritePaddedInt] is
    read back by [SafeParseInt], for every int64 including the minimum. *)
Theorem padded_int_roundtrip dst val width dst' :
  is_int64 val → WritePaddedInt dst val width = Ok dst' →
  SafeParseInt (take width dst') = Ok val.
Proof.
  intros Hv. unfold WritePaddedInt.
  destruct (length dst <? width)%nat eqn:E1; [discriminate|].
  destruct (width <? length (append_int val))%nat eqn:E2; [discriminate|].
  intros [= <-]. zbool. destruct (append_int_spec val Hv) as (Hn & _ & Hp).
  rewrite app_assoc, take_app_eq by (rewrite length_app, length_replicate; lia).
  pose proof (SafeParseInt_spec (append_int val ++ replicate (width - length (append_int val)) ch_nul)) as H.
  assert (TrimNullBytesString (append_int val ++ replicate (width - length (append_int val)) ch_nul)
          = append_int val) as Ht.
  { destruct (width - length (append_int val))%nat as [|k].
    - cbn [replicate]. rewrite app_nil_r. by apply TrimNull_id.
    - rewrite <- (app_nil_r (replicate (S k) ch_nul)). by apply TrimNull_app. }
  rewrite Ht, Hp in H. destruct (SafeParseInt _); [by subst|done].
Qed.

Lemma padded_int_roundtrip_witness :
  SafeParseInt (take 24 (append_int (- 2 ^ 63) ++ replicate 4 ch_nul)) = Ok (- 2 ^ 63).
Proof.
  apply (padded_int_roundtrip (replicate 24 ch_space) (- 2 ^ 63) 24).
  - unfold is_int64. lia.
  - vm_compute. reflexivity.
Defined.
