(* ===== verification/ObjectMeta.v ===== *)
(** * The binary object record (src/src/storage/storage.go, [ObjectMeta])

    The value stored for a content hash in the "objects" bucket: size,
    reference count, deletion time, and the distributed-metadata fields. *)
From S2P Require Import Prelude GoText.
Open Scope Z_scope.

Record ObjectMeta := mkObjectMeta {
  Size : Z;                       (* int64 *)
  RefCount : Z;                   (* int64 *)
  DeletedAt : Z;                  (* int64, unix nano; 0 = not deleted *)
  VectorClock : list Z;           (* []uint64 *)
  ShardKey : bytes;
  MetadataReplicas : list Z       (* []int32 *)
}.

#[export] Instance ObjectMeta_eq_dec : EqDecision ObjectMeta.
Proof. solve_decision. Defined.

(** [binary.BigEndian.PutUint64] of every word, in order. *)
Definition put_words (w : nat) (ws : list Z) : bytes := concat (map (put_be w) ws).

(** [ObjectMeta.encode].  The shard-key block [skBuf] is allocated with
    4+skLen bytes and only its first four are filled in; the key itself is
    appended after it. *)
Definition encode (m : ObjectMeta) : bytes :=
  let buf := put_be 8 (uint64 (Size m)) ++ put_be 8 (uint64 (RefCount m))
             ++ put_be 8 (uint64 (DeletedAt m)) in
  let vcBuf := put_be 4 (uint32 (Z.of_nat (length (VectorClock m))))
               ++ put_words 8 (VectorClock m) in
  let skBytes := ShardKey m in
  let skLen := length skBytes in
  let skBuf := put_be 4 (uint32 (Z.of_nat skLen)) ++ replicate skLen ch_nul in
  let mrBuf := put_be 4 (uint32 (Z.of_nat (length (MetadataReplicas m))))
               ++ put_words 4 (map uint32 (MetadataReplicas m)) in
  buf ++ vcBuf ++ skBuf ++ skBytes ++ mrBuf.

(** The first three words, as [decodeObjectMeta] reads them. *)
Definition word_at (off : nat) (val : bytes) : Z := int64 (get_be (slice off (off + 8) val)).

(** The word loops: [n] words of [w] bytes, then what follows them. *)
Fixpoint read_words (w n : nat) (b : bytes) : list Z * bytes :=
  match n with
  | O => ([], b)
  | S n' => let '(ws, rest) := read_words w n' (drop w b) in (get_be (take w b) :: ws, rest)
  end.

Definition decodeObjectMeta (val : bytes) : result ObjectMeta :=
  if decide (length val = 24%nat) then
    Ok (mkObjectMeta (word_at 0 val) (word_at 8 val) (word_at 16 val) [] [] [])
  else
  match parse_int64 val with
  | Some size => Ok (mkObjectMeta size 1 0 [] [] [])
  | None =>
      if (length val <? 24)%nat then Err (Errno EBADMSG) else
      let rest := drop 24 val in
      if (length rest <? 4)%nat then Err (Errno EBADMSG) else
      let vcLen := get_be (take 4 rest) in
      let rest := drop 4 rest in
      if Z.of_nat (length rest) <? 8 * vcLen then Err (Errno EBADMSG) else
      let '(vc, rest) := read_words 8 (Z.to_nat vcLen) rest in
      if (length rest <? 4)%nat then Err (Errno EBADMSG) else
      let skLen := get_be (take 4 rest) in
      let rest := drop 4 rest in
      if Z.of_nat (length rest) <? skLen then Err (Errno EBADMSG) else
      let sk := take (Z.to_nat skLen) rest in
      let rest := drop (Z.to_nat skLen) rest in
      if (length rest <? 4)%nat then Err (Errno EBADMSG) else
      let mrLen := get_be (take 4 rest) in
      let rest := drop 4 rest in
      if Z.of_nat (length rest) <? 4 * mrLen then Err (Errno EBADMSG) else
      let '(mr, _) := read_words 4 (Z.to_nat mrLen) rest in
      Ok (mkObjectMeta (word_at 0 val) (word_at 8 val) (word_at 16 val) vc sk (map int32 mr))
  end.

(** The field ranges Go's types guarantee, and lengths that fit in memory. *)
Record meta_ok (m : ObjectMeta) : Prop := {
  mo_size : is_int64 (Size m);
  mo_ref : is_int64 (RefCount m);
  mo_del : is_int64 (DeletedAt m);
  mo_vc : Forall is_uint64 (VectorClock m);
  mo_mr : Forall is_int32 (MetadataReplicas m);
  mo_vclen : (Z.of_nat (length (VectorClock m)) < 2 ^ 24);
  mo_sklen : (Z.of_nat (length (ShardKey m)) < 2 ^ 24);
  mo_mrlen : (Z.of_nat (length (MetadataReplicas m)) < 2 ^ 24)
}.

(** ** Lemmas *)
Lemma length_put_words w ws : length (put_words w ws) = (w * length ws)%nat.
Proof.
  induction ws as [|x ws IH]; [simpl; lia|]. unfold put_words in *. cbn [map concat].
  rewrite length_app, IH, length_put_be. simpl. lia.
Qed.
#[export] Hint Rewrite length_put_words : momo_rw.

Lemma read_put_words w ws r :
  read_words w (length ws) (put_words w ws ++ r)
  = (map (λ z, z mod 256 ^ Z.of_nat w) ws, r).
Proof.
  induction ws as [|x ws IH]; [done|]. unfold put_words in *.
  cbn [map concat length read_words]. rewrite <- app_assoc.
  rewrite drop_app_eq, take_app_eq by apply length_put_be. rewrite IH, get_be_put_be. done.
Qed.

Lemma map_mod_id p ws : Forall (λ z, 0 <= z < p) ws → map (λ z, z mod p) ws = ws.
Proof. induction 1; simpl; f_equal; [by apply Z.mod_small|done]. Qed.

Lemma int32_words mr : Forall is_int32 mr → map int32 (map uint32 mr) = mr.
Proof.
  induction 1; simpl; f_equal; [|done]. rewrite int32_uint32. by apply int32_id.
Qed.

Lemma uint32_words mr : map (λ z, z mod 256 ^ Z.of_nat 4) (map uint32 mr) = map uint32 mr.
Proof.
  apply map_mod_id, Forall_forall. intros x (y & -> & _)%list_elem_of_fmap.
  unfold uint32. apply (Z.mod_pos_bound y (2 ^ 32)). lia.
Qed.

Lemma word_at_put off pre z post :
  length pre = off → is_int64 z → word_at off (pre ++ put_be 8 (uint64 z) ++ post) = z.
Proof.
  intros Hl Hz. unfold word_at, slice. rewrite drop_app_eq by done.
  replace (off + 8 - off)%nat with 8%nat by lia.
  rewrite take_app_eq by apply length_put_be.
  rewrite get_be_put_be8, !int64_uint64. by apply int64_id.
Qed.

Lemma nondigit_parse_None s b i :
  s !! S i = Some b → is_digit b = false → parse_int64 s = None.
Proof.
  intros Hi Hb. destruct s as [|x s]; [done|]. cbn in Hi. unfold parse_int64, split_sign.
  assert (∀ t, t !! i = Some b ∨ t !! S i = Some b → forallb is_digit t = false) as Hf.
  { intros t Ht. apply not_true_iff_false. intros Ha. rewrite forallb_forall in Ha.
    rewrite Ha in Hb; [done|]. apply list_elem_of_In.
    destruct Ht as [Ht|Ht]; by eapply list_elem_of_lookup_2. }
  destruct (decide (x = ch_minus)); [|destruct (decide (x = ch_plus))].
  - destruct s; [done|]. by rewrite (Hf _ (or_introl Hi)).
  - destruct s; [done|]. by rewrite (Hf _ (or_introl Hi)).
  - by rewrite (Hf (x :: s) (or_intror Hi)).
Qed.

(** The header of an encoded record, and what follows it. *)
Lemma encode_split m :
  ∃ h t, encode m = h ++ put_be 4 (uint32 (Z.of_nat (length (VectorClock m)))) ++ t
         ∧ length h = 24%nat.
Proof.
  unfold encode. eexists (put_be 8 _ ++ put_be 8 _ ++ put_be 8 _), _.
  rewrite <- !app_assoc. split; [reflexivity|].
  by rewrite !length_app, !length_put_be.
Qed.

Lemma length_encode m :
  length (encode m) = (36 + 8 * length (VectorClock m) + 2 * length (ShardKey m)
                       + 4 * length (MetadataReplicas m))%nat.
Proof.
  unfold encode. cbv zeta.
  rewrite !length_app, !length_put_words, !length_put_be, !length_replicate, length_map. lia.
Qed.

Lemma encode_not_decimal m :
  Z.of_nat (length (VectorClock m)) < 2 ^ 24 → parse_int64 (encode m) = None.
Proof.
  intros Hl. destruct (encode_split m) as (h & t & -> & Hh).
  apply (nondigit_parse_None _ Byte.x00 23); [|done].
  rewrite lookup_app_r by lia. rewrite Hh. cbn [Nat.sub].
  cbn [put_be app lookup list_lookup]. f_equal. apply b2z_inj. rewrite b2z_z2b.
  rewrite uint32_id by (unfold is_uint32; lia).
  rewrite Z.div_small by (change (256 ^ Z.of_nat 3) with (2 ^ 24); lia). done.
Qed.

Lemma uint32_len n : Z.of_nat n < 2 ^ 24 → uint32 (uint32 (Z.of_nat n)) = Z.of_nat n.
Proof.
  intros. assert (is_uint32 (Z.of_nat n)) by (unfold is_uint32; lia).
  rewrite (uint32_id (Z.of_nat n)) by done. by apply uint32_id.
Qed.

(** Decoding an encoded record up to the shard-key block. *)
Lemma decode_encode_shard m :
  meta_ok m →
  decodeObjectMeta (encode m) =
    let k := length (ShardKey m) in
    let rest := ShardKey m ++ put_be 4 (uint32 (Z.of_nat (length (MetadataReplicas m))))
                ++ put_words 4 (map uint32 (MetadataReplicas m)) in
    let mrLen := get_be (take 4 rest) in
    let rest := drop 4 rest in
    if Z.of_nat (length rest) <? 4 * mrLen then Err (Errno EBADMSG) else
    let '(mr, _) := read_words 4 (Z.to_nat mrLen) rest in
    Ok (mkObjectMeta (Size m) (RefCount m) (DeletedAt m) (VectorClock m)
          (replicate k ch_nul) (map int32 mr)).
Proof.
  intros [Hs Hr Hd Hvc Hmr Lvc Lsk Lmr].
  unfold decodeObjectMeta. rewrite decide_False by (rewrite length_encode; lia).
  rewrite encode_not_decimal by done.
  rewrite (proj2 (Nat.ltb_ge (length (encode m)) 24)) by (rewrite length_encode; lia).
  replace (word_at 0 (encode m)) with (Size m); last first.
  { symmetry. unfold encode. rewrite <- !app_assoc. by apply (word_at_put 0 []). }
  replace (word_at 8 (encode m)) with (RefCount m); last first.
  { symmetry. unfold encode. rewrite <- !app_assoc.
    apply (word_at_put 8 (put_be 8 _)); [apply length_put_be|done]. }
  replace (word_at 16 (encode m)) with (DeletedAt m); last first.
  { symmetry. unfold encode. rewrite <- !app_assoc. rewrite (app_assoc (put_be 8 _)).
    apply (word_at_put 16 (put_be 8 _ ++ put_be 8 _)); [|done].
    by rewrite length_app, !length_put_be. }
  unfold encode. cbv zeta. rewrite (drop_app_eq 24); last first.
  { by rewrite !length_app, !length_put_be. }
  set (tailb := ShardKey m ++ _). rewrite <- !app_assoc.
  rewrite take_app_eq, drop_app_eq, get_be_put_be4, uint32_len, Nat2Z.id
    by (done || apply length_put_be).
  rewrite !length_app, !length_put_words, !length_put_be.
  rewrite (proj2 (Nat.ltb_ge _ _)) by lia. rewrite (proj2 (Z.ltb_ge _ _)) by lia.
  rewrite read_put_words, map_mod_id by (eapply Forall_impl; [exact Hvc|done]).
  rewrite take_app_eq, drop_app_eq, get_be_put_be4, uint32_len, Nat2Z.id
    by (done || apply length_put_be).
  rewrite !length_app, !length_put_be, length_replicate.
  rewrite (proj2 (Nat.ltb_ge _ _)) by lia. rewrite (proj2 (Z.ltb_ge _ _)) by lia.
  rewrite take_app_eq, drop_app_eq by apply length_replicate.
  unfold tailb. rewrite !length_app, !length_put_be.
  rewrite (proj2 (Nat.ltb_ge _ _)) by lia. done.
Qed.

Lemma decode_encode m : meta_ok m → ShardKey m = [] → decodeObjectMeta (encode m) = Ok m.
Proof.
  intros Hm Hk. rewrite decode_encode_shard by done. rewrite Hk.
  destruct Hm as [_ _ _ _ Hmr _ _ Lmr]. cbn [app length replicate]. cbv zeta.
  rewrite take_app_eq, drop_app_eq, get_be_put_be4, uint32_len, Nat2Z.id
    by (done || apply length_put_be).
  rewrite length_put_words, length_map, (proj2 (Z.ltb_ge _ _)) by lia.
  rewrite <- (app_nil_r (put_words 4 _)), <- (length_map uint32).
  rewrite read_put_words, uint32_words, int32_words by done.
  destruct m; simpl in *; by subst.
Qed.

Lemma read_words_bound w n b :
  (w * n <= length b)%nat →
  let '(ws, rest) := read_words w n b in
  length ws = n ∧ Forall (λ z, 0 <= z < 256 ^ Z.of_nat w) ws
  ∧ length rest = (length b - w * n)%nat.
Proof.
  revert b. induction n as [|n IH]; intros b Hl; cbn [read_words].
  - split_and!; [done|constructor|lia].
  - specialize (IH (drop w b)). rewrite length_drop in IH.
    destruct (read_words w n (drop w b)) as [ws rest].
    destruct IH as (Hn & Hf & Hr); [lia|]. split_and!; [simpl; lia| |lia].
    constructor; [|done]. pose proof (get_be_bound (take w b)) as Hb.
    rewrite length_take, Nat.min_l in Hb by lia. done.
Qed.

(** ** Properties *)

(** A record without a shard key survives the trip through the "objects"
    bucket: [decodeObjectMeta] returns exactly what [encode] was given, through
    all three format tests of the decoder. *)
Theorem ObjectMeta_roundtrip m :
  meta_ok m → ShardKey m = [] → decodeObjectMeta (encode m) = Ok m.
Proof. apply decode_encode. Qed.

Lemma ObjectMeta_roundtrip_witness :
  let m := mkObjectMeta 42 3 12345 [7; 2 ^ 64 - 1] [] [-5; 8] in
  decodeObjectMeta (encode m) = Ok m.
Proof.
  apply ObjectMeta_roundtrip; [|reflexivity].
  split; cbn; unfold is_int64; try lia; repeat constructor; unfold is_uint64, is_int32; lia.
Defined.

(** A record whose shard key starts with a non-NUL byte cannot be read back:
    [encode] writes the key after a block of NUL bytes of the same length, so the
    decoder takes the key's first bytes for the replica count and reports
    EBADMSG. *)
Theorem shard_key_undecodable m c sk :
  meta_ok m → ShardKey m = c :: sk → c ≠ ch_nul →
  Z.of_nat (length (ShardKey m)) + 4 * Z.of_nat (length (MetadataReplicas m)) < 2 ^ 26 →
  decodeObjectMeta (encode m) = Err (Errno EBADMSG).
Proof.
  intros Hm Hk Hc Hl. rewrite decode_encode_shard by done. cbv zeta.
  set (rest := ShardKey m ++ _).
  assert (length rest = (length (ShardKey m) + 4 + 4 * length (MetadataReplicas m))%nat) as Hlen.
  { unfold rest. rewrite !length_app, length_put_be, length_put_words, length_map. lia. }
  assert (2 ^ 24 <= get_be (take 4 rest)) as Hbig.
  { unfold rest. rewrite Hk. unfold rest in Hlen. rewrite Hk in Hlen.
    cbn [app take] in *. set (t := take 3 _).
    assert (length t = 3%nat) as Ht by (unfold t; rewrite length_take; cbn [length] in Hlen; lia).
    unfold get_be. cbn [get_be_acc].
    pose proof (get_be_acc_bound t (0 * 256 + b2z c)) as Hb. rewrite Ht in Hb.
    pose proof (b2z_range c). assert (b2z c ≠ 0).
    { intros E. apply Hc, b2z_inj. by rewrite E. }
    change (256 ^ Z.of_nat 3) with (2 ^ 24) in Hb. nia. }
  rewrite (proj2 (Z.ltb_lt _ _)); [done|]. rewrite length_drop, Hlen. lia.
Qed.

Lemma shard_key_undecodable_witness :
  decodeObjectMeta (encode (mkObjectMeta 5 1 0 [1] (bs "A") [1; 2; 3])) = Err (Errno EBADMSG).
Proof.
  apply (shard_key_undecodable _ Byte.x41 []); [|reflexivity|discriminate|cbn; lia].
  split; cbn; unfold is_int64; try lia; repeat constructor; unfold is_uint64, is_int32; lia.
Defined.

(** Whatever bytes the bucket holds, a successful decode stays in Go's types
    and inside the buffer: int64/uint64/int32 fields, and no more vector-clock,
    shard-key and replica bytes than the value has. *)
Theorem decodeObjectMeta_in_bounds val m :
  decodeObjectMeta val = Ok m →
  is_int64 (Size m) ∧ is_int64 (RefCount m) ∧ is_int64 (DeletedAt m)
  ∧ Forall is_uint64 (VectorClock m)
  ∧ (8 * length (VectorClock m) + length (ShardKey m)
     + 4 * length (MetadataReplicas m) <= length val)%nat.
Proof.
  unfold decodeObjectMeta. case_decide as H24.
  { intros [= <-]. cbn. split_and!; try apply int64_range; [constructor|lia]. }
  destruct (parse_int64 val) as [size|] eqn:Ep.
  { intros [= <-]. cbn. unfold parse_int64 in Ep. destruct (split_sign val) as [neg [|d ds]]; [done|].
    destruct (forallb _ _); [|done]. destruct (_ && _) eqn:Eb; [|done]. simplify_eq.
    unfold is_int64. zbool. split_and!; try lia; constructor. }
  destruct (length val <? 24)%nat eqn:E0; [discriminate|].
  destruct (length (drop 24 val) <? 4)%nat eqn:E1; [discriminate|].
  destruct (Z.of_nat _ <? 8 * _) eqn:E2; [discriminate|]. zbool.
  set (vcLen := get_be (take 4 (drop 24 val))) in *.
  pose proof (get_be_bound (take 4 (drop 24 val))) as [Hvc _].
  pose proof (read_words_bound 8 (Z.to_nat vcLen) (drop 4 (drop 24 val))) as H1.
  destruct (read_words 8 _ _) as [vc r1]. destruct H1 as (L1 & F1 & R1); [lia|].
  destruct (length r1 <? 4)%nat eqn:E3; [discriminate|].
  destruct (Z.of_nat _ <? get_be (take 4 r1)) eqn:E4; [discriminate|]. zbool.
  pose proof (get_be_bound (take 4 r1)) as [Hsk _].
  set (skLen := Z.to_nat (get_be (take 4 r1))) in *.
  destruct (length (drop skLen _) <? 4)%nat eqn:E5; [discriminate|].
  destruct (Z.of_nat _ <? 4 * _) eqn:E6; [discriminate|]. zbool.
  set (r2 := drop skLen (drop 4 r1)) in *.
  pose proof (get_be_bound (take 4 r2)) as [Hmr _].
  pose proof (read_words_bound 4 (Z.to_nat (get_be (take 4 r2))) (drop 4 r2)) as H2.
  destruct (read_words 4 _ _) as [mr r3]. destruct H2 as (L2 & F2 & R2); [lia|].
  intros [= <-]. cbn. rewrite length_map, length_take.
  unfold r2 in *. rewrite !length_drop in *.
  split_and!; try apply int64_range; [exact F1|lia].
Qed.

Lemma decodeObjectMeta_in_bounds_witness :
  decodeObjectMeta (bs "42") = Ok (mkObjectMeta 42 1 0 [] [] []) ∧ is_int64 42.
Proof.
  split; [vm_compute; reflexivity|].
  apply (decodeObjectMeta_in_bounds (bs "42") (mkObjectMeta 42 1 0 [] [] [])).
  vm_compute. reflexivity.
Defined.
