(* ===== verification/BlobStore.v ===== *)
(** * The blob backend interface (src/src/storage/blobstore.go)

    [BlobStore] is the Go interface, with the optional [blobPresence] seam as a
    field.  [BlobStoreSpec] is the contract a backend offers the CAS store: an
    invariant, the abstract map of stored blobs, and how each operation acts on
    it.  The CAS theorems are proved against the contract; the backends
    discharge it. *)
From S2P Require Import Prelude.

Class BlobStore (B : Type) := {
  PutBlob : B → bytes → reader → result unit * B;
  GetBlob : B → bytes → result bytes;
  DeleteBlob : B → bytes → result unit * B;
  (* the blobPresence type assertion: None when the backend lacks it *)
  BlobExists : option (B → bytes → result bool)
}.

Class BlobStoreSpec (B : Type) `{BlobStore B} := {
  blob_inv : B → Prop;
  blob_view : B → gmap bytes bytes;

  put_inv : ∀ b h r, blob_inv b → blob_inv (PutBlob b h r).2;
  (* an acknowledged put leaves the blob stored: its content, or, when the
     backend already held the hash, what was stored before *)
  put_ok : ∀ b h r b', blob_inv b → PutBlob b h r = (Ok tt, b') →
    (∃ c, read_all r = Ok c ∧ blob_view b' = <[h := c]> (blob_view b))
    ∨ (blob_view b' = blob_view b ∧ is_Some (blob_view b !! h));
  (* a failed put changes no stored blob *)
  put_err : ∀ b h r e b', blob_inv b → PutBlob b h r = (Err e, b') →
    blob_view b' = blob_view b;

  (* a stored non-empty blob reads back byte for byte *)
  get_ok : ∀ b h c, blob_inv b → blob_view b !! h = Some c → c ≠ [] →
    GetBlob b h = Ok c;
  (* an absent blob is never served *)
  get_none : ∀ b h, blob_inv b → blob_view b !! h = None →
    is_ok (GetBlob b h) = false;

  delete_inv : ∀ b h, blob_inv b → blob_inv (DeleteBlob b h).2;
  delete_ok : ∀ b h b', blob_inv b → DeleteBlob b h = (Ok tt, b') →
    blob_view b' = delete h (blob_view b);
  delete_err : ∀ b h e b', blob_inv b → DeleteBlob b h = (Err e, b') →
    blob_view b' = blob_view b;

  (* the presence test, where offered, tells the truth *)
  exists_ok : ∀ f b h r, BlobExists = Some f → blob_inv b → f b h = Ok r →
    r = bool_decide (is_Some (blob_view b !! h))
}.

(** ** The reference backend: blobs in a map *)
#[export] Instance mem_store : BlobStore (gmap bytes bytes) := {|
  PutBlob b h r := match read_all r with
                   | Ok c => (Ok tt, <[h := c]> b)
                   | Err e => (Err e, b)
                   end;
  GetBlob b h := match b !! h with Some c => Ok c | None => Err (Errno ENOENT) end;
  DeleteBlob b h := (Ok tt, delete h b);
  BlobExists := Some (λ b h, Ok (bool_decide (is_Some (b !! h))))
|}.

#[export] Program Instance mem_store_spec : BlobStoreSpec (gmap bytes bytes) := {|
  blob_inv _ := True;
  blob_view b := b
|}.
Next Obligation. done. Qed.
Next Obligation.
  intros b h r b' _. simpl. destruct (read_all r) as [c|e] eqn:E; intros [= <-].
  left. by exists c.
Qed.
Next Obligation. intros b h r e b' _. simpl. destruct (read_all r); by intros [= _ <-]. Qed.
Next Obligation. intros b h c _ Hc _. simpl. by rewrite Hc. Qed.
Next Obligation. intros b h _ Hc. simpl. by rewrite Hc. Qed.
Next Obligation. done. Qed.
Next Obligation. by intros b h b' _ [= <-]. Qed.
Next Obligation. by intros b h e b' _ [=]. Qed.
Next Obligation. by intros f b h r [= <-] _ [= <-]. Qed.
