(* ===== verification/RawStore.v ===== *)
(** * The raw block-device backend (src/src/storage/raw_blobstore.go)

    A bump allocator over one device.  The allocation table maps a hash to 16
    bytes, offset and length; [nextOffset] is the first free byte. *)
From S2P Require Import Prelude GoText Paths BlobStore.
Open Scope Z_scope.

Definition MaxFileSize : Z := 1024 * 1024 * 1024.

(** ** The device: its bytes and its capacity *)
Record device := Device { dev_data : bytes; dev_cap : Z }.

(** Overwrite [d] at [off] with [data], zero-filling a gap. *)
Definition patch (off : nat) (data d : bytes) : bytes :=
  take off (d ++ replicate (off - length d) ch_nul) ++ data ++ drop (off + length data) d.

(** [os.File.WriteAt]: past the capacity only the fitting prefix is written and
    an error is returned. *)
Definition WriteAt (d : device) (data : bytes) (off : Z) : result unit * device :=
  if off + Z.of_nat (length data) <=? dev_cap d
  then (Ok tt, Device (patch (Z.to_nat off) data (dev_data d)) (dev_cap d))
  else (Err (Errno ENOSPC),
        Device (patch (Z.to_nat off) (take (Z.to_nat (dev_cap d - off)) data) (dev_data d))
               (dev_cap d)).

(** ** The store *)
Record RawBlobStore := mkRaw {
  raw_device : device;
  allocDB : bucket bytes;
  nextOffset : Z
}.

(** An allocation record: offset, then length. *)
Definition alloc_rec (offset len : Z) : bytes := put_be 8 (uint64 offset) ++ put_be 8 (uint64 len).
Definition alloc_offset (v : bytes) : Z := int64 (get_be (slice 0 8 v)).
Definition alloc_length (v : bytes) : Z := int64 (get_be (slice 8 16 v)).

(** The scan of [NewRawBlobStore] that recomputes the bump pointer. *)
Definition scan_entry (next : Z) (kv : bytes * bytes) : Z :=
  let v := kv.2 in
  if decide (length v = 16%nat) then
    let offset := alloc_offset v in
    let len := alloc_length v in
    if (0 <? offset) && (0 <? len) && (offset <=? MaxInt64 - len) then
      let end_ := offset + len in
      if next <? end_ then end_ else next
    else next
  else next.

(** [NewRawBlobStore] on an opened device and allocation database. *)
Definition NewRawBlobStore (dev : device) (alloc : bucket bytes) : RawBlobStore :=
  mkRaw dev alloc (foldl scan_entry 0 (cursor alloc)).

(** The copy loop of [PutBlob] through [io.LimitReader]: [limit] bytes are left,
    [total] were written. *)
Fixpoint copy_loop (chunks : list bytes) (rerr : option error) (limit : Z)
    (d : device) (offset total : Z) : result Z * device :=
  if limit <=? 0 then (Ok total, d)
  else match chunks with
  | [] => match rerr with
          | None => (Ok total, d)
          | Some _ => (Err (Errno EIO), d)
          end
  | c :: cs =>
      let c := if Z.of_nat (length c) <=? limit then c else take (Z.to_nat limit) c in
      match c with
      | [] => copy_loop cs rerr limit d offset total
      | _ =>
          let '(r, d') := WriteAt d c (offset + total) in
          match r with
          | Err _ => (Err (Errno EIO), d')
          | Ok _ => let n := Z.of_nat (length c) in
                    copy_loop cs rerr (limit - n) d' offset (total + n)
          end
      end
  end.

Definition raw_put (s : RawBlobStore) (hash : bytes) (content : reader)
    : result unit * RawBlobStore :=
  if HasPathTraversalChars hash then (Err (Errno EINVAL), s)
  else match allocDB s !! hash with
  | Some _ => (Ok tt, s)
  | None =>
      let offset := nextOffset s in
      if MaxInt64 - MaxFileSize <? offset then (Err (Errno EIO), s)
      else
        let '(r, d) := copy_loop (rd_chunks content) (rd_err content) (MaxFileSize + 1)
                         (raw_device s) offset 0 in
        let s' := mkRaw d (allocDB s) (nextOffset s) in
        match r with
        | Err e => (Err e, s')
        | Ok totalWritten =>
            if MaxFileSize <? totalWritten then (Err (Errno EFBIG), s')
            else if MaxInt64 - totalWritten <? offset then (Err (Errno EIO), s')
            else (Ok tt, mkRaw d (<[hash := alloc_rec offset totalWritten]> (allocDB s))
                           (offset + totalWritten))
        end
  end.

(** The bytes an [io.SectionReader] over the device yields. *)
Definition section (d : device) (offset len : Z) : bytes :=
  take (Z.to_nat len) (drop (Z.to_nat offset) (dev_data d)).

Definition raw_get (s : RawBlobStore) (hash : bytes) : result bytes :=
  if HasPathTraversalChars hash then Err (Errno EINVAL)
  else match allocDB s !! hash with
  | Some v =>
      if decide (length v = 16%nat) then
        let offset := alloc_offset v in
        let len := alloc_length v in
        if (len <=? 0) || (MaxFileSize <? len) then Err (Errno EIO)
        else if offset <? 0 then Err (Errno EIO)
        else Ok (section (raw_device s) offset len)
      else Err (Errno ENOENT)
  | None => Err (Errno ENOENT)
  end.

Definition raw_delete (s : RawBlobStore) (hash : bytes) : result unit * RawBlobStore :=
  if HasPathTraversalChars hash then (Err (Errno EINVAL), s)
  else (Ok tt, mkRaw (raw_device s) (delete hash (allocDB s)) (nextOffset s)).

#[export] Instance raw_store : BlobStore RawBlobStore := {|
  PutBlob := raw_put;
  GetBlob := raw_get;
  DeleteBlob := raw_delete;
  BlobExists := None
|}.

(** ** Invariant and abstraction *)

(** The table only describes regions below [nextOffset] that are on the device,
    and no two live regions overlap. *)
Definition region_ok (s : RawBlobStore) (offset len : Z) : Prop :=
  0 <= offset ∧ 0 <= len <= MaxFileSize ∧ offset + len <= nextOffset s.

Record raw_inv (s : RawBlobStore) : Prop := {
  ri_next : 0 <= nextOffset s <= MaxInt64;
  ri_dev : nextOffset s <= Z.of_nat (length (dev_data (raw_device s)));
  ri_entry : ∀ h v, allocDB s !! h = Some v → HasPathTraversalChars h = false ∧
    ∃ off len, v = alloc_rec off len ∧ region_ok s off len;
  ri_disjoint : ∀ h1 h2 v1 v2, h1 ≠ h2 → allocDB s !! h1 = Some v1 → allocDB s !! h2 = Some v2 →
    alloc_offset v1 + alloc_length v1 <= alloc_offset v2
    ∨ alloc_offset v2 + alloc_length v2 <= alloc_offset v1
}.

Definition raw_view (s : RawBlobStore) : gmap bytes bytes :=
  (λ v, section (raw_device s) (alloc_offset v) (alloc_length v)) <$> allocDB s.

(** ** Lemmas *)
Lemma alloc_rec_fields off len :
  is_int64 off → is_int64 len →
  length (alloc_rec off len) = 16%nat ∧ alloc_offset (alloc_rec off len) = off
  ∧ alloc_length (alloc_rec off len) = len.
Proof.
  intros Ho Hl. unfold alloc_rec, alloc_offset, alloc_length, slice.
  split_and!.
  - by rewrite length_app, !length_put_be.
  - rewrite drop_0, take_app_eq by apply length_put_be.
    rewrite get_be_put_be8, !int64_uint64. by apply int64_id.
  - rewrite drop_app_eq by apply length_put_be.
    rewrite firstn_all2 by (rewrite length_put_be; lia).
    rewrite get_be_put_be8, !int64_uint64. by apply int64_id.
Qed.

Lemma length_patch off data d :
  length (patch off data d) = Nat.max (off + length data) (length d).
Proof.
  unfold patch. rewrite !length_app, length_take, length_app, length_replicate, length_drop. lia.
Qed.

(** A write leaves the bytes below it alone. *)
Lemma patch_below off data d n :
  (n <= off)%nat → (n <= length d)%nat → take n (patch off data d) = take n d.
Proof.
  intros H1 H2. unfold patch. rewrite take_app_le.
  - rewrite take_take, Nat.min_l by lia. by rewrite take_app_le by lia.
  - rewrite length_take, length_app, length_replicate. lia.
Qed.

Lemma patch_read off data d : take (length data) (drop off (patch off data d)) = data.
Proof.
  unfold patch. rewrite drop_app_eq.
  - by rewrite take_app_eq.
  - rewrite length_take, length_app, length_replicate. lia.
Qed.

Lemma take_drop_below {A} (l l' : list A) n off len :
  take n l = take n l' → (off + len <= n)%nat →
  take len (drop off l) = take len (drop off l').
Proof.
  intros He Hn. rewrite !take_drop_commute.
  f_equal.
  replace (take (off + len) l) with (take (off + len) (take n l)) by (rewrite take_take; f_equal; lia).
  replace (take (off + len) l') with (take (off + len) (take n l')) by (rewrite take_take; f_equal; lia).
  by rewrite He.
Qed.

Lemma WriteAt_spec d data off r d' :
  0 <= off <= Z.of_nat (length (dev_data d)) → WriteAt d data off = (r, d') →
  (length (dev_data d) <= length (dev_data d'))%nat
  ∧ take (Z.to_nat off) (dev_data d') = take (Z.to_nat off) (dev_data d)
  ∧ (r = Ok tt → off + Z.of_nat (length data) <= Z.of_nat (length (dev_data d'))
                 ∧ take (length data) (drop (Z.to_nat off) (dev_data d')) = data).
Proof.
  intros Ho. unfold WriteAt. destruct (_ <=? _); intros [= <- <-]; cbn [dev_data];
    (split; [rewrite length_patch; lia|]); (split; [apply patch_below; lia|]);
    intros Hr; [|discriminate Hr].
  split; [rewrite length_patch; lia|apply patch_read].
Qed.

(** What the copy loop writes: nothing below its start, and on success (short of
    the limit) exactly the reader's content. *)
Lemma copy_loop_spec chunks rerr limit d offset total r d' :
  0 <= offset → 0 <= total → offset + total <= Z.of_nat (length (dev_data d)) →
  copy_loop chunks rerr limit d offset total = (r, d') →
  (length (dev_data d) <= length (dev_data d'))%nat
  ∧ take (Z.to_nat (offset + total)) (dev_data d') = take (Z.to_nat (offset + total)) (dev_data d)
  ∧ match r with
    | Err _ => True
    | Ok t => total <= t ∧ offset + t <= Z.of_nat (length (dev_data d'))
        ∧ (t - total < limit →
           rerr = None ∧ t - total = Z.of_nat (length (concat chunks))
           ∧ section d' (offset + total) (t - total) = concat chunks)
    end.
Proof.
  intros Ho. revert limit d total.
  induction chunks as [|c cs IH]; intros limit d total Ht Hd; cbn [copy_loop].
  - destruct (limit <=? 0) eqn:El; zbool; [intros [= <- <-]; split_and!; done || lia|].
    destruct rerr; intros [= <- <-]; split_and!; try done; try lia.
    intros _. rewrite Z.sub_diag. done.
  - destruct (limit <=? 0) eqn:El; zbool; [intros [= <- <-]; split_and!; done || lia|].
    set (c' := if Z.of_nat (length c) <=? limit then c else take (Z.to_nat limit) c).
    assert (c' = c ∨ Z.of_nat (length c') = limit) as Hc'.
    { unfold c'. destruct (_ <=? limit) eqn:E; zbool; [by left|right].
      rewrite length_take. lia. }
    destruct c' as [|x xs] eqn:Ec.
    { intros H. destruct Hc' as [<-|Hl]; [|simpl in Hl; lia]. cbn [concat app]. by apply IH. }
    rewrite <- Ec in *. clear x xs Ec. clearbody c'.
    destruct (WriteAt d c' (offset + total)) as [w d1] eqn:Ew.
    apply WriteAt_spec in Ew as (Hl1 & Ht1 & Hw); [|lia].
    destruct w as [[]|e].
    + destruct (Hw eq_refl) as [Hlen Hread]. intros H. apply IH in H as (Hl2 & Ht2 & Hr); [|lia|lia].
      assert (take (Z.to_nat (offset + total)) (dev_data d') = take (Z.to_nat (offset + total)) (dev_data d)) as Hlow.
      { rewrite <- Ht1. apply (take_drop_below _ _ _ 0 _ Ht2). lia. }
      split; [lia|]. split; [done|]. destruct r as [t|]; [|done].
      destruct Hr as (Hr1 & Hr2 & Hr3). split; [lia|]. split; [done|]. intros Hlim.
      destruct Hr3 as (-> & Hn & Hsec); [lia|].
      destruct Hc' as [->|Hl]; [|lia]. split; [done|]. cbn [concat]. rewrite length_app.
      split; [lia|]. unfold section in *.
      replace (Z.to_nat (t - total)) with (length c + Z.to_nat (t - (total + Z.of_nat (length c))))%nat by lia.
      rewrite <- take_take_drop, drop_drop. f_equal.
      * rewrite <- Hread at 2. apply (take_drop_below _ _ _ _ _ Ht2). lia.
      * rewrite <- Hsec. do 2 f_equal. lia.
    + intros [= <- <-]. split_and!; [lia|done|done].
Qed.

(** The live regions lie below [nextOffset], so a device that agrees there
    serves the same blobs. *)
Lemma section_frame s d' off len :
  region_ok s off len → 0 <= nextOffset s →
  take (Z.to_nat (nextOffset s)) (dev_data d')
    = take (Z.to_nat (nextOffset s)) (dev_data (raw_device s)) →
  section d' off len = section (raw_device s) off len.
Proof.
  intros (H1 & H2 & H3) Hn He. unfold section. apply (take_drop_below _ _ _ _ _ He). lia.
Qed.

Lemma region_int64 s off len :
  raw_inv s → region_ok s off len → is_int64 off ∧ is_int64 len.
Proof.
  intros Hi (H1 & H2 & H3). pose proof (ri_next s Hi). unfold is_int64, MaxInt64 in *. lia.
Qed.

Lemma entry_fields s h v :
  raw_inv s → allocDB s !! h = Some v →
  length v = 16%nat ∧ region_ok s (alloc_offset v) (alloc_length v)
  ∧ HasPathTraversalChars h = false.
Proof.
  intros Hi Hv. destruct (ri_entry s Hi h v Hv) as (Hp & off & len & -> & Hr).
  destruct (region_int64 s off len Hi Hr) as [Ho Hl].
  destruct (alloc_rec_fields off len Ho Hl) as (-> & -> & ->). done.
Qed.

(** Replacing the device by one that agrees below [nextOffset]. *)
Lemma raw_frame s d' :
  raw_inv s →
  (length (dev_data (raw_device s)) <= length (dev_data d'))%nat →
  take (Z.to_nat (nextOffset s)) (dev_data d')
    = take (Z.to_nat (nextOffset s)) (dev_data (raw_device s)) →
  raw_inv (mkRaw d' (allocDB s) (nextOffset s))
  ∧ raw_view (mkRaw d' (allocDB s) (nextOffset s)) = raw_view s.
Proof.
  intros Hi Hl He. pose proof (ri_next s Hi) as Hn. split.
  - split; cbn; [done|pose proof (ri_dev s Hi); lia|apply Hi|apply Hi].
  - apply map_eq. intros h. unfold raw_view. cbn. rewrite !lookup_fmap.
    destruct (allocDB s !! h) as [v|] eqn:Ev; [|done]. cbn. f_equal.
    destruct (entry_fields s h v Hi Ev) as (_ & Hr & _). apply section_frame; [done|lia|done].
Qed.

(** Recording a freshly written region at the bump pointer. *)
Lemma raw_extend s d' h len c :
  raw_inv s → HasPathTraversalChars h = false → allocDB s !! h = None →
  0 <= len <= MaxFileSize → nextOffset s + len <= MaxInt64 →
  nextOffset s + len <= Z.of_nat (length (dev_data d')) →
  take (Z.to_nat (nextOffset s)) (dev_data d')
    = take (Z.to_nat (nextOffset s)) (dev_data (raw_device s)) →
  section d' (nextOffset s) len = c →
  let s' := mkRaw d' (<[h := alloc_rec (nextOffset s) len]> (allocDB s)) (nextOffset s + len) in
  raw_inv s' ∧ raw_view s' = <[h := c]> (raw_view s).
Proof.
  intros Hi Hp Hh Hlen Hmax Hdev He Hc s'. pose proof (ri_next s Hi) as Hn.
  assert (is_int64 (nextOffset s)) as Io by (unfold is_int64, MaxInt64 in *; lia).
  assert (is_int64 len) as Il by (unfold is_int64, MaxInt64 in *; lia).
  destruct (alloc_rec_fields _ _ Io Il) as (_ & Fo & Fl).
  assert (∀ k v, allocDB s !! k = Some v → alloc_offset v + alloc_length v <= nextOffset s) as Hbelow.
  { intros k v Hv. by destruct (entry_fields s k v Hi Hv) as (_ & (? & ? & ?) & _). }
  split.
  - split; cbn [allocDB nextOffset raw_device s'].
    + lia.
    + done.
    + intros k v. rewrite lookup_insert. case_decide; subst; intros Hv.
      * simplify_eq. split; [done|]. exists (nextOffset s), len. split; [done|].
        unfold region_ok. cbn. lia.
      * destruct (ri_entry s Hi k v Hv) as (? & off & l & ? & (? & ? & ?)).
        split; [done|]. exists off, l. split; [done|]. unfold region_ok. cbn. lia.
    + intros h1 h2 v1 v2 Hne. rewrite !lookup_insert.
      destruct (decide (h = h1)), (decide (h = h2)); subst; try done; intros H1 H2.
      * injection H1 as <-. rewrite Fo, Fl. right. by eapply Hbelow.
      * injection H2 as <-. rewrite Fo, Fl. left. by eapply Hbelow.
      * by eapply (ri_disjoint s Hi h1 h2).
  - apply map_eq. intros k. unfold raw_view. cbn [allocDB nextOffset raw_device s'].
    rewrite lookup_fmap, !lookup_insert.
    case_decide; subst.
    + cbn [fmap option_fmap option_map]. by rewrite Fo, Fl.
    + rewrite lookup_fmap. destruct (allocDB s !! k) as [v|] eqn:Ev; [|done]. cbn. f_equal.
      destruct (entry_fields s k v Hi Ev) as (_ & Hr & _). apply section_frame; [done|lia|done].
Qed.

Lemma raw_put_spec s h r res s' :
  raw_inv s → raw_put s h r = (res, s') →
  raw_inv s' ∧
  match res with
  | Ok _ => (∃ c, read_all r = Ok c ∧ raw_view s' = <[h := c]> (raw_view s)
                  ∧ Z.of_nat (length c) <= MaxFileSize)
            ∨ (s' = s ∧ is_Some (allocDB s !! h))
  | Err _ => raw_view s' = raw_view s
  end.
Proof.
  intros Hi. unfold raw_put. destruct (HasPathTraversalChars h) eqn:Ep; [by intros [= <- <-]|].
  destruct (allocDB s !! h) as [v|] eqn:Eh; [intros [= <- <-]; split; [done|right; eauto]|].
  pose proof (ri_next s Hi) as Hn. pose proof (ri_dev s Hi) as Hd.
  destruct (_ <? nextOffset s) eqn:Eo; [by intros [= <- <-]|]. zbool.
  destruct (copy_loop _ _ _ _ _ _) as [w d] eqn:Ec.
  apply copy_loop_spec in Ec as (Hl & Ht & Hw); [|lia|lia|lia].
  rewrite Z.add_0_r in Ht. destruct (raw_frame s d Hi Hl Ht) as [Hi' Hv'].
  destruct w as [t|e]; [|intros [= <- <-]; done].
  destruct (MaxFileSize <? t) eqn:Em; [intros [= <- <-]; done|]. zbool.
  destruct (MaxInt64 - t <? nextOffset s) eqn:Eb; [intros [= <- <-]; done|]. zbool.
  destruct Hw as (Ht0 & Htl & Hw).
  destruct Hw as (Herr & Hlen & Hsec); [lia|]. rewrite Z.add_0_r, Z.sub_0_r in *.
  intros [= <- <-].
  destruct (raw_extend s d h t (concat (rd_chunks r)) Hi Ep Eh) as [Hi2 Hv2]; try lia; try done.
  split; [done|]. left. exists (concat (rd_chunks r)). unfold read_all. rewrite Herr.
  split_and!; [done|done|lia].
Qed.

Lemma raw_put_inv s h r : raw_inv s → raw_inv (raw_put s h r).2.
Proof.
  intros Hi. destruct (raw_put s h r) as [res s'] eqn:E. by apply raw_put_spec in E as [? _].
Qed.

Lemma raw_get_spec s h :
  raw_inv s →
  raw_get s h = match raw_view s !! h with
                | Some [] => Err (Errno EIO)
                | Some c => Ok c
                | None => if HasPathTraversalChars h then Err (Errno EINVAL) else Err (Errno ENOENT)
                end.
Proof.
  intros Hi. unfold raw_get, raw_view. rewrite lookup_fmap.
  destruct (allocDB s !! h) as [v|] eqn:Ev; [|done]. cbn.
  destruct (entry_fields s h v Hi Ev) as (Hl & (H1 & H2 & H3) & ->).
  rewrite decide_True by done. set (off := alloc_offset v) in *. set (len := alloc_length v) in *.
  pose proof (ri_dev s Hi).
  assert (length (section (raw_device s) off len) = Z.to_nat len) as Hlen.
  { unfold section. rewrite length_take, length_drop. lia. }
  destruct (MaxFileSize <? len) eqn:E1; zbool; [lia|].
  destruct (len <=? 0) eqn:E2; zbool; cbn [orb].
  - destruct (section _ _ _); [done|]. simpl in Hlen. lia.
  - destruct (off <? 0) eqn:E3; zbool; [lia|].
    destruct (section _ _ _); [simpl in Hlen; lia|done].
Qed.

Lemma raw_delete_spec s h :
  raw_inv s →
  raw_inv (raw_delete s h).2 ∧
  raw_view (raw_delete s h).2 = if HasPathTraversalChars h then raw_view s else delete h (raw_view s).
Proof.
  intros Hi. unfold raw_delete. destruct (HasPathTraversalChars h); [done|]. cbn. split.
  - split; cbn; [apply Hi|apply Hi|..].
    + intros k v Hv. apply lookup_delete_Some in Hv as [_ Hv]. by apply (ri_entry s Hi).
    + intros h1 h2 v1 v2 Hne H1 H2. apply lookup_delete_Some in H1 as [_ H1], H2 as [_ H2].
      by apply (ri_disjoint s Hi h1 h2).
  - unfold raw_view. cbn. by rewrite fmap_delete.
Qed.

(** ** The backend honours the interface contract *)
#[export] Program Instance raw_store_spec : BlobStoreSpec RawBlobStore := {|
  blob_inv := raw_inv;
  blob_view := raw_view
|}.
Next Obligation.
  intros s h r. apply raw_put_inv.
Qed.
Next Obligation.
  intros s h r s' Hi E. apply raw_put_spec in E as [_ [(c & ? & ? & _)|[-> [v Hv]]]]; [left; eauto| |done].
  right. split; [done|]. unfold raw_view. rewrite lookup_fmap, Hv. eauto.
Qed.
Next Obligation. intros s h r e s' Hi E. by apply raw_put_spec in E as [_ ?]. Qed.
Next Obligation.
  intros s h c Hi Hv Hc. simpl. rewrite raw_get_spec, Hv by done. by destruct c.
Qed.
Next Obligation.
  intros s h Hi Hv. simpl. rewrite raw_get_spec, Hv by done. by destruct (HasPathTraversalChars h).
Qed.
Next Obligation. intros s h Hi. by apply raw_delete_spec. Qed.
Next Obligation.
  intros s h s' Hi E. pose proof (raw_delete_spec s h Hi) as [_ H]. simpl in E. rewrite E in H.
  unfold raw_delete in E. destruct (HasPathTraversalChars h); [discriminate E|done].
Qed.
Next Obligation.
  intros s h e s' Hi E. simpl in E. unfold raw_delete in E.
  destruct (HasPathTraversalChars h); [by injection E as _ <-|discriminate E].
Qed.
Next Obligation. done. Qed.

(** ** Reopening *)

(** The entries the recovery scan counts. *)
Definition counted (v : bytes) : Prop :=
  length v = 16%nat ∧ 0 < alloc_offset v ∧ 0 < alloc_length v
  ∧ alloc_offset v <= MaxInt64 - alloc_length v.

Lemma scan_entry_spec n kv :
  n <= scan_entry n kv
  ∧ (counted kv.2 → alloc_offset kv.2 + alloc_length kv.2 <= scan_entry n kv)
  ∧ (scan_entry n kv = n
     ∨ (counted kv.2 ∧ scan_entry n kv = alloc_offset kv.2 + alloc_length kv.2)).
Proof.
  unfold scan_entry, counted. case_decide as Hl.
  - destruct ((_ && _) && _) eqn:E; zbool.
    + destruct (n <? _) eqn:E'; zbool; split_and!; try lia.
    + split_and!; [lia| |by left]. intros (_ & ? & ? & ?). lia.
  - split_and!; [lia| |by left]. by intros (? & _).
Qed.

Lemma scan_spec l n :
  n <= foldl scan_entry n l
  ∧ (∀ kv, kv ∈ l → counted kv.2 → alloc_offset kv.2 + alloc_length kv.2 <= foldl scan_entry n l)
  ∧ (foldl scan_entry n l = n
     ∨ ∃ kv, kv ∈ l ∧ counted kv.2 ∧ foldl scan_entry n l = alloc_offset kv.2 + alloc_length kv.2).
Proof.
  revert n. induction l as [|kv l IH]; intros n; cbn [foldl].
  - split_and!; [lia|by intros kv ?%not_elem_of_nil|by left].
  - destruct (scan_entry_spec n kv) as (H1 & H2 & H3).
    destruct (IH (scan_entry n kv)) as (I1 & I2 & I3). split_and!; [lia|..].
    + intros kv' [->|Hin]%elem_of_cons Hc; [specialize (H2 Hc); lia|by apply I2].
    + destruct I3 as [I3|(kv' & ? & ? & ?)]; [|right; exists kv'; split_and!; [by right|done|done]].
      destruct H3 as [H3|[H3 H4]]; [left; lia|right; exists kv; split_and!; [by left|done|lia]].
Qed.

(** Every live non-empty blob is at a positive offset, or is covered by one that
    is. *)
Definition recoverable (s : RawBlobStore) : Prop :=
  ∀ h v, allocDB s !! h = Some v → alloc_offset v = 0 → 0 < alloc_length v →
  ∃ h' v', allocDB s !! h' = Some v' ∧ 0 < alloc_offset v' ∧ 0 < alloc_length v'.

(** Empty blobs aside, the recovered bump pointer bounds every live region. *)
Lemma reopen_bounds s h v :
  raw_inv s → recoverable s → allocDB s !! h = Some v → 0 < alloc_length v →
  alloc_offset v + alloc_length v <= foldl scan_entry 0 (cursor (allocDB s)).
Proof.
  intros Hi Hrec Hv Hpos. destruct (scan_spec (cursor (allocDB s)) 0) as (_ & Hs & _).
  assert (∀ k w, allocDB s !! k = Some w → 0 < alloc_offset w → 0 < alloc_length w →
          alloc_offset w + alloc_length w <= foldl scan_entry 0 (cursor (allocDB s))) as Hc.
  { intros k w Hw Ho Hl. apply (Hs (k, w)); [by apply elem_of_cursor|].
    destruct (entry_fields s k w Hi Hw) as (? & (? & ? & ?) & _).
    pose proof (ri_next s Hi). unfold counted. cbn [snd]. lia. }
  destruct (entry_fields s h v Hi Hv) as (_ & (H0 & _ & _) & _).
  destruct (decide (alloc_offset v = 0)) as [E|E]; [|apply (Hc h); [done|lia|done]].
  destruct (Hrec h v Hv E Hpos) as (h' & v' & Hv' & Ho' & Hl').
  specialize (Hc h' v' Hv' Ho' Hl').
  destruct (decide (h = h')) as [->|Hne]; [simplify_eq; lia|].
  destruct (ri_disjoint s Hi h h' v v' Hne Hv Hv'); lia.
Qed.

Lemma raw_reopen_view s :
  raw_view (NewRawBlobStore (raw_device s) (allocDB s)) = raw_view s.
Proof. done. Qed.

(** A put of one chunk, spelled out. *)
Lemma raw_put_one s h c s' :
  c ≠ [] → allocDB s !! h = None → raw_put s h (reader_of c) = (Ok tt, s') →
  HasPathTraversalChars h = false ∧ Z.of_nat (length c) <= MaxFileSize
  ∧ s' = mkRaw (Device (patch (Z.to_nat (nextOffset s)) c (dev_data (raw_device s)))
                       (dev_cap (raw_device s)))
               (<[h := alloc_rec (nextOffset s) (Z.of_nat (length c))]> (allocDB s))
               (nextOffset s + Z.of_nat (length c)).
Proof.
  intros Hc Hh. unfold raw_put. destruct (HasPathTraversalChars h); [discriminate|].
  rewrite Hh. destruct (_ <? nextOffset s); [discriminate|].
  cbn [reader_of rd_chunks rd_err copy_loop].
  rewrite (proj2 (Z.leb_gt (MaxFileSize + 1) 0)) by (unfold MaxFileSize; lia).
  destruct (Z.of_nat (length c) <=? MaxFileSize + 1) eqn:E1; zbool.
  - destruct c as [|x c]; [done|]. unfold WriteAt. rewrite Z.add_0_r.
    destruct (_ <=? dev_cap _); [|discriminate].
    destruct (_ <=? 0); (destruct (MaxFileSize <? _) eqn:E2; [discriminate|]);
      (destruct (MaxInt64 - _ <? _); [discriminate|]); intros [= <-]; zbool; split_and!; done || lia.
  - destruct (take (Z.to_nat (MaxFileSize + 1)) c) as [|x c'] eqn:Et.
    { apply (f_equal length) in Et. rewrite length_take in Et. cbn [length] in Et.
      assert (0 < MaxFileSize) by (unfold MaxFileSize; lia). lia. }
    destruct (WriteAt _ _ _) as [[[]|] d']; [|discriminate].
    assert (Z.of_nat (length (x :: c')) = MaxFileSize + 1) as ->.
    { rewrite <- Et, length_take. assert (0 < MaxFileSize) by (unfold MaxFileSize; lia). lia. }
    rewrite Z.sub_diag, Z.leb_refl.
    by rewrite (proj2 (Z.ltb_lt _ _)) by lia.
Qed.

(** ** Properties *)

(** An acknowledged [PutBlob] of a new, non-empty blob reads back byte for
    byte, whatever chunks the reader delivered it in, and every other blob on
    the device still reads as before; the allocation invariant is kept. *)
Theorem raw_put_get s h r c s' :
  raw_inv s → allocDB s !! h = None → read_all r = Ok c → c ≠ [] →
  raw_put s h r = (Ok tt, s') →
  raw_inv s' ∧ raw_get s' h = Ok c ∧ ∀ h', h' ≠ h → raw_get s' h' = raw_get s h'.
Proof.
  intros Hi Hh Hr Hc E. apply raw_put_spec in E as (Hi' & H'); [|done].
  destruct H' as [(c' & Hr' & Hv & _)|[_ [v Hv]]]; [|congruence].
  assert (c' = c) as -> by congruence. split; [done|]. split.
  - rewrite raw_get_spec, Hv, lookup_insert_eq by done. by destruct c.
  - intros h' Hne. rewrite (raw_get_spec s'), (raw_get_spec s), Hv by done.
    by rewrite lookup_insert_ne by congruence.
Qed.

Definition raw_empty : RawBlobStore := mkRaw (Device [] 4096) ∅ 0.

Lemma raw_empty_inv : raw_inv raw_empty.
Proof.
  split; cbn [raw_empty allocDB nextOffset raw_device dev_data]; unfold MaxInt64; simpl length; try lia.
  - intros h v Hv. by apply lookup_empty_Some in Hv.
  - intros h1 h2 v1 v2 _ Hv. by apply lookup_empty_Some in Hv.
Qed.

Definition raw_one : RawBlobStore := (raw_put raw_empty (bs "h1") (Reader [bs "ab"; bs "cd"] None)).2.

Lemma raw_put_get_witness :
  raw_get raw_one (bs "h1") = Ok (bs "abcd").
Proof.
  apply (raw_put_get raw_empty (bs "h1") (Reader [bs "ab"; bs "cd"] None) (bs "abcd") raw_one).
  - apply raw_empty_inv.
  - reflexivity.
  - reflexivity.
  - discriminate.
  - vm_compute. reflexivity.
Defined.

(** Reopening the device keeps the allocation invariant and every blob when
    no live region is empty and the blob at offset 0, if any, is not the only
    non-empty one: the recovered bump pointer is above every live region. *)
Theorem raw_reopen_safe s :
  raw_inv s → recoverable s →
  (∀ h v, allocDB s !! h = Some v → 0 < alloc_length v) →
  let s' := NewRawBlobStore (raw_device s) (allocDB s) in
  raw_inv s' ∧ ∀ h, raw_get s' h = raw_get s h.
Proof.
  intros Hi Hrec Hpos s'.
  assert (raw_inv s') as Hi'.
  { destruct (scan_spec (cursor (allocDB s)) 0) as (H0 & _ & H3).
    assert (foldl scan_entry 0 (cursor (allocDB s)) <= nextOffset s) as Hle.
    { destruct H3 as [->|([k v] & Hin%elem_of_cursor & _ & ->)].
      - pose proof (ri_next s Hi). lia.
      - by destruct (entry_fields s k v Hi Hin) as (_ & (_ & _ & ?) & _). }
    pose proof (ri_next s Hi). pose proof (ri_dev s Hi).
    split; cbn [allocDB nextOffset raw_device s' NewRawBlobStore]; [lia|lia| |apply Hi].
    intros h v Hv. destruct (ri_entry s Hi h v Hv) as (? & off & len & -> & Hr). split; [done|].
    exists off, len. split; [done|]. destruct (region_int64 s off len Hi Hr) as [Io Il].
    destruct (alloc_rec_fields off len Io Il) as (_ & Fo & Fl).
    pose proof (reopen_bounds s h _ Hi Hrec Hv (Hpos h _ Hv)) as Hb. rewrite Fo, Fl in Hb.
    destruct Hr as (? & ? & ?). unfold region_ok. cbn [nextOffset s' NewRawBlobStore]. lia. }
  split; [done|]. intros h. rewrite !raw_get_spec by done. done.
Qed.

Definition raw_two : RawBlobStore := (raw_put raw_one (bs "h2") (reader_of (bs "xyz"))).2.

Lemma raw_two_inv : raw_inv raw_two.
Proof. apply raw_put_inv, raw_put_inv, raw_empty_inv. Qed.

Lemma raw_reopen_safe_witness :
  raw_get (NewRawBlobStore (raw_device raw_two) (allocDB raw_two)) (bs "h1") = Ok (bs "abcd").
Proof.
  assert (∀ h v, allocDB raw_two !! h = Some v →
    (h, v) ∈ [(bs "h1", alloc_rec 0 4); (bs "h2", alloc_rec 4 3)]) as Hl.
  { intros h v Hv%elem_of_map_to_list. revert Hv.
    replace (map_to_list (allocDB raw_two))
      with [(bs "h2", alloc_rec 4 3); (bs "h1", alloc_rec 0 4)] by (vm_compute; reflexivity).
    set_solver. }
  destruct (raw_reopen_safe raw_two raw_two_inv) as [_ H].
  - intros h v _ _ _. exists (bs "h2"), (alloc_rec 4 3). vm_compute. done.
  - intros h v Hv%Hl. apply elem_of_cons in Hv as [[= _ ->]|Hv]; [vm_compute; done|].
    apply list_elem_of_singleton in Hv as [= _ ->]. vm_compute; done.
  - rewrite H. vm_compute. reflexivity.
Defined.

(** A store that holds a single blob, which is at offset 0, loses it to the
    first write after a restart: the recovery scan ignores offset 0, so the new
    blob is written over the old one, which then reads back altered. *)
Theorem raw_reopen_overwrites h1 h2 c1 c2 cap s1 s3 :
  h1 ≠ h2 → c1 ≠ [] → c2 ≠ [] →
  raw_put (mkRaw (Device [] cap) ∅ 0) h1 (reader_of c1) = (Ok tt, s1) →
  raw_put (NewRawBlobStore (raw_device s1) (allocDB s1)) h2 (reader_of c2) = (Ok tt, s3) →
  raw_get s1 h1 = Ok c1
  ∧ raw_get s3 h1 = Ok (take (length c1) (c2 ++ drop (length c2) c1)).
Proof.
  intros Hne H1 H2 P1 P2.
  apply raw_put_one in P1 as (T1 & L1 & ->); [|done|done]. cbn [nextOffset raw_device allocDB dev_data dev_cap] in *.
  change (Z.to_nat 0) with O in *.
  set (v1 := alloc_rec 0 (Z.of_nat (length c1))) in *.
  assert (is_int64 0 ∧ is_int64 (Z.of_nat (length c1))) as [I0 I1]
    by (unfold is_int64, MaxFileSize in *; lia).
  destruct (alloc_rec_fields _ _ I0 I1) as (F16 & Fo & Fl).
  assert (nextOffset (NewRawBlobStore (Device (patch 0 c1 []) cap) (<[h1 := v1]> ∅)) = 0) as Hn.
  { cbn [NewRawBlobStore nextOffset]. unfold cursor. rewrite insert_empty, map_to_list_singleton.
    cbn [stable_sort foldr ins foldl]. unfold scan_entry. cbn [snd]. unfold v1.
    by rewrite decide_True, Fo by done. }
  assert (allocDB (NewRawBlobStore (Device (patch 0 c1 []) cap) (<[h1 := v1]> ∅)) !! h2 = None) as Hl2.
  { cbn [NewRawBlobStore allocDB]. by rewrite lookup_insert_ne. }
  apply raw_put_one in P2 as (T2 & L2 & ->); [|done|done]. rewrite Hn.
  cbn [NewRawBlobStore nextOffset raw_device allocDB dev_data dev_cap].
  assert (0 < Z.of_nat (length c1)) by (destruct c1; [done|simpl; lia]).
  unfold raw_get. rewrite T1. cbn [allocDB raw_device].
  rewrite (lookup_insert_ne _ h2 h1), !lookup_insert_eq by done.
  rewrite !decide_True by done. unfold v1. rewrite Fo, Fl.
  rewrite (proj2 (Z.leb_gt _ _)), (proj2 (Z.ltb_ge _ _)) by lia. cbn [orb Z.ltb Z.compare].
  unfold section. cbn [dev_data]. unfold patch. rewrite Nat2Z.id. simpl.
  rewrite drop_nil, app_nil_r, firstn_all. done.
Qed.

Lemma raw_reopen_overwrites_witness :
  raw_get raw_one (bs "h1") = Ok (bs "abcd")
  ∧ raw_get (raw_put (NewRawBlobStore (raw_device raw_one) (allocDB raw_one)) (bs "h2")
               (reader_of (bs "xy"))).2 (bs "h1") = Ok (bs "xycd").
Proof.
  apply (raw_reopen_overwrites (bs "h1") (bs "h2") (bs "abcd") (bs "xy") 4096).
  - discriminate.
  - discriminate.
  - discriminate.
  - vm_compute. reflexivity.
  - vm_compute. reflexivity.
Defined.
