(* ===== verification/LocalStore.v ===== *)
(** * The local blob store (src/src/storage/local_blobstore.go)

    A blob is one file, [blobs/ab/cd/ef/<hash>] below the base directory,
    written to a temporary file that is then renamed into place.  A put is the
    list of file-system calls it makes, so that a crash can be put between any
    two of them: [exec] runs a call, [crash] forgets what was not synced.  Paths
    are relative to the base directory.  The operating system's answers ([os])
    are an argument of every operation: free space, the name [os.CreateTemp]
    picks, and which call fails with which kind of error, the clean-up's
    [os.Remove] included. *)
From S2P Require Import Prelude GoText Hashes Paths.
Open Scope Z_scope.

(** ** Files *)
Record file := mkF { fdata : bytes; fsynced : bool }.
Notation files := (gmap (list Byte.byte) file).

Inductive fs_op :=
  | CreateTemp (p : bytes)
  | Append (p data : bytes)
  | SyncFile (p : bytes)
  | Rename (p q : bytes)
  | Remove (p : bytes).

Definition exec (fs : files) (op : fs_op) : files :=
  match op with
  | CreateTemp p => <[p := mkF [] false]> fs
  | Append p data => match fs !! p with
                     | Some f => <[p := mkF (fdata f ++ data) false]> fs
                     | None => fs
                     end
  | SyncFile p => match fs !! p with
                  | Some f => <[p := mkF (fdata f) true]> fs
                  | None => fs
                  end
  | Rename p q => match fs !! p with
                  | Some f => <[q := f]> (delete p fs)
                  | None => fs
                  end
  | Remove p => delete p fs
  end.

(** What a power loss may leave of a file: a synced file whole, any prefix of
    another. *)
Definition survives (f : file) (c : bytes) : Prop :=
  if fsynced f then c = fdata f else c `prefix_of` fdata f.
Definition crash (fs : files) (after : gmap bytes bytes) : Prop :=
  ∀ p, match after !! p with
       | Some c => ∃ f, fs !! p = Some f ∧ survives f c
       | None => fs !! p = None
       end.

(** ** The operating system's answers *)
Inductive oserr := OsPermission | OsNoSpace | OsOther.

Record os := mkOS {
  statfs : result (Z * Z);        (* Bavail, Bsize *)
  tmp_name : bytes;               (* the name os.CreateTemp picks *)
  mkdir_err : option oserr;
  create_err : option oserr;
  write_err : option nat;         (* the write of a full buffer that fails *)
  flush_err : option oserr;
  sync_err : option oserr;
  close_err : bool;
  rename_err : option oserr;
  cleanup_err : bool;             (* os.Remove of the temporary file fails *)
  open_err : option error;        (* os.Open fails, but not because the file is missing *)
  fsync_err : option error;       (* the sync of SyncBlob *)
  unlink_err : bool;              (* os.Remove of a blob fails, but not because it is missing *)
  dirsync_err : option error;     (* the open or the sync of SyncDir *)
  stat_err : bool                 (* os.Stat fails, but not because the file is missing *)
}.

(** ** Paths *)
Definition blobPath (hash : bytes) : bytes :=
  if (length hash <? 6)%nat then path_clean (join_slash [bs "blobs"; hash])
  else path_clean (join_slash [bs "blobs"; slice 0 2 hash; slice 2 4 hash; slice 4 6 hash; hash]).

(** ** Operations *)
Definition checkDiskSpace (o : os) : result unit :=
  let! st := statfs o in
  let '(bavail, bsize) := st in
  if bavail =? 0 then Err (Errno ENOSPC)
  else if uint64 (bavail * bsize) <? Z.shiftl 1 20 then Err (Errno ENOSPC)
  else Ok tt.

Definition os_code (perm nospc : bool) (e : oserr) : error :=
  match e with
  | OsPermission => if perm then Errno EACCES else Errno EIO
  | OsNoSpace => if nospc then Errno ENOSPC else Errno EIO
  | OsOther => Errno EIO
  end.

(** The 64 KiB buffer: full buffers are written while copying, the rest by
    [Flush]. *)
Definition buffer_size : nat := 65536.
Fixpoint full_buffers (fuel : nat) (data : bytes) : list bytes :=
  match fuel with
  | O => []
  | S n => if (length data <? buffer_size)%nat then []
           else take buffer_size data :: full_buffers n (drop buffer_size data)
  end.

(** [io.Copy] into the buffered file: the appends made, and whether it failed. *)
Definition copy_ops (o : os) (tmp : bytes) (data : bytes) (rerr : option error)
    : list fs_op * bool :=
  let bufs := full_buffers (length data) data in
  match write_err o with
  | Some n => if (n <? length bufs)%nat then (Append tmp <$> take n bufs, false)
              else (Append tmp <$> bufs, bool_decide (rerr = None))
  | None => (Append tmp <$> bufs, bool_decide (rerr = None))
  end.

Definition rest_of (data : bytes) : bytes :=
  drop (length (concat (full_buffers (length data) data))) data.

(** The [os.Remove] of the failing branches, whose own error is ignored. *)
Definition cleanup (o : os) (tmp : bytes) : list fs_op := if cleanup_err o then [] else [Remove tmp].

(** The calls of [PutBlob] and its result. *)
Definition local_put (o : os) (syncEnabled : bool) (hash : bytes) (content : reader)
    : result unit * list fs_op :=
  match checkDiskSpace o with
  | Err e => (Err e, [])
  | Ok _ =>
  if HasPathTraversalChars hash then (Err (Errno EINVAL), [])
  else
  match mkdir_err o with
  | Some e => (Err (os_code true true e), [])
  | None =>
  match create_err o with
  | Some e => (Err (os_code true true e), [])
  | None =>
  let tmp := tmp_name o in
  let data := concat (rd_chunks content) in
  let '(copies, copied) := copy_ops o tmp data (rd_err content) in
  let ops := CreateTemp tmp :: copies in
  if negb copied then (Err (Errno EIO), ops ++ cleanup o tmp)
  else
  match flush_err o with
  | Some e => (Err (os_code false true e), ops ++ cleanup o tmp)
  | None =>
  let ops := ops ++ [Append tmp (rest_of data)] in
  match (if syncEnabled then sync_err o else None) with
  | Some e => (Err (os_code false true e), ops ++ cleanup o tmp)
  | None =>
  let ops := ops ++ (if syncEnabled then [SyncFile tmp] else []) in
  if close_err o then (Err (Errno EIO), ops ++ cleanup o tmp)
  else
  match rename_err o with
  | Some e => (Err (os_code true false e), ops ++ cleanup o tmp)
  | None => (Ok tt, ops ++ [Rename tmp (blobPath hash)])
  end end end end end end.

Definition run_ops (fs : files) (ops : list fs_op) : files := foldl exec fs ops.

Definition local_get (o : os) (fs : files) (hash : bytes) : result bytes :=
  if HasPathTraversalChars hash then Err (Errno EINVAL)
  else match open_err o with
       | Some _ => Err (Errno EIO)
       | None => match fs !! blobPath hash with
                 | None => Err (Errno ENOENT)
                 | Some f => Ok (fdata f)
                 end
       end.

(** A missing blob is silently ignored. *)
Definition local_delete (o : os) (fs : files) (hash : bytes) : result unit * files :=
  if HasPathTraversalChars hash then (Err (Errno EINVAL), fs)
  else if unlink_err o then (Err (Errno EIO), fs)
  else (Ok tt, delete (blobPath hash) fs).

Definition local_exists (o : os) (fs : files) (hash : bytes) : result bool :=
  if HasPathTraversalChars hash then Err (Errno EINVAL)
  else if stat_err o then Err (Errno EIO)
  else Ok (bool_decide (is_Some (fs !! blobPath hash))).

Definition local_size (o : os) (fs : files) (hash : bytes) : result Z :=
  if HasPathTraversalChars hash then Err (Errno EINVAL)
  else if stat_err o then Err (Errno EIO)
  else match fs !! blobPath hash with
       | None => Err (Errno ENOENT)
       | Some f => Ok (Z.of_nat (length (fdata f)))
       end.

(** [SyncBlob], which the durability barrier calls: the errors of the two calls are
    passed on. *)
Definition SyncBlob (o : os) (fs : files) (hash : bytes) : result unit * files :=
  if HasPathTraversalChars hash then (Err (Errno EINVAL), fs)
  else match open_err o with
       | Some e => (Err e, fs)
       | None => match fs !! blobPath hash with
                 | None => (Err (Errno ENOENT), fs)
                 | Some _ => match fsync_err o with
                             | Some e => (Err e, fs)
                             | None => (Ok tt, exec fs (SyncFile (blobPath hash)))
                             end
                 end
       end.

(** [SyncDir]: syncs the directory entry, no file's content. *)
Definition SyncDir (o : os) (fs : files) (hash : bytes) : result unit * files :=
  if HasPathTraversalChars hash then (Err (Errno EINVAL), fs)
  else match dirsync_err o with Some e => (Err e, fs) | None => (Ok tt, fs) end.

(** * Lemmas *)
Definition on_tmp (tmp : bytes) (op : fs_op) : Prop :=
  match op with
  | CreateTemp p | Append p _ | SyncFile p => p = tmp
  | Rename _ _ | Remove _ => False
  end.

Lemma exec_other tmp op fs p : on_tmp tmp op → p ≠ tmp → exec fs op !! p = fs !! p.
Proof.
  destruct op; cbn; try done; intros -> Hp; repeat case_match; try done; by rewrite lookup_insert_ne.
Qed.

Lemma run_other tmp ops fs p : Forall (on_tmp tmp) ops → p ≠ tmp → run_ops fs ops !! p = fs !! p.
Proof.
  intros Ho Hp. revert fs. induction Ho as [|op ops H1 Ho IH]; intros fs; [done|].
  cbn [run_ops foldl]. unfold run_ops in IH. rewrite IH. by eapply exec_other.
Qed.

Lemma run_app fs a b : run_ops fs (a ++ b) = run_ops (run_ops fs a) b.
Proof. apply foldl_app. Qed.

Lemma run_appends fs tmp d bufs :
  fs !! tmp = Some (mkF d false) →
  run_ops fs (Append tmp <$> bufs) = <[tmp := mkF (d ++ concat bufs) false]> fs.
Proof.
  revert fs d. induction bufs as [|b bufs IH]; intros fs d Hd; cbn.
  - rewrite app_nil_r. by rewrite insert_id.
  - rewrite Hd. cbn. unfold run_ops in IH. rewrite (IH _ (d ++ b)) by (by rewrite lookup_insert_eq).
    by rewrite insert_insert_eq, app_assoc.
Qed.

Lemma full_buffers_prefix fuel data : concat (full_buffers fuel data) `prefix_of` data.
Proof.
  revert data. induction fuel as [|n IH]; intros data; cbn [full_buffers]; [apply prefix_nil|].
  destruct (_ <? _)%nat; [apply prefix_nil|]. cbn [concat].
  destruct (IH (drop buffer_size data)) as [k Hk]. exists k. by rewrite <- app_assoc, <- Hk, take_drop.
Qed.

Lemma buffers_rest data : concat (full_buffers (length data) data) ++ rest_of data = data.
Proof.
  unfold rest_of. destruct (full_buffers_prefix (length data) data) as [k Hk].
  remember (concat (full_buffers (length data) data)) as pre. rewrite Hk. by rewrite drop_app_length.
Qed.

Lemma copy_ops_tmp o tmp data rerr : Forall (on_tmp tmp) (copy_ops o tmp data rerr).1.
Proof. unfold copy_ops. repeat case_match; apply Forall_fmap, Forall_true; done. Qed.

Lemma copy_ops_ok o tmp data rerr ops :
  copy_ops o tmp data rerr = (ops, true) →
  rerr = None ∧ ops = Append tmp <$> full_buffers (length data) data.
Proof.
  unfold copy_ops. repeat case_match; intros [= <- Hb]; by apply bool_decide_eq_true in Hb.
Qed.

(** A put works on the temporary file only, then removes it or renames it. *)
Lemma local_put_shape o sync h r res ops :
  local_put o sync h r = (res, ops) →
  (ops = [] ∧ res ≠ Ok tt)
  ∨ ∃ pre, Forall (on_tmp (tmp_name o)) pre
    ∧ ((∃ e, res = Err e ∧ ops = pre ++ cleanup o (tmp_name o))
       ∨ (res = Ok tt ∧ ops = pre ++ [Rename (tmp_name o) (blobPath h)] ∧ rd_err r = None
          ∧ ∀ fs, run_ops fs pre = <[tmp_name o := mkF (concat (rd_chunks r)) sync]> fs)).
Proof.
  unfold local_put. destruct (checkDiskSpace o); [|intros [= <- <-]; by left].
  destruct (HasPathTraversalChars h); [intros [= <- <-]; by left|].
  destruct (mkdir_err o); [intros [= <- <-]; by left|].
  destruct (create_err o); [intros [= <- <-]; by left|].
  pose proof (copy_ops_tmp o (tmp_name o) (concat (rd_chunks r)) (rd_err r)) as Ht.
  destruct (copy_ops o _ _ _) as [copies copied] eqn:Ec. cbn [fst] in Ht.
  assert (Forall (on_tmp (tmp_name o)) (CreateTemp (tmp_name o) :: copies)) as H1 by (by constructor).
  destruct copied; cbn [negb]; [|intros [= <- <-]; right; eauto 10].
  destruct (flush_err o); [intros [= <- <-]; right; eauto 10|].
  assert (Forall (on_tmp (tmp_name o)) ((CreateTemp (tmp_name o) :: copies)
            ++ [Append (tmp_name o) (rest_of (concat (rd_chunks r)))])) as H2
    by (apply Forall_app; split; [done|by repeat constructor]).
  destruct (if sync then sync_err o else None); [intros [= <- <-]; right; eauto 10|].
  assert (Forall (on_tmp (tmp_name o)) (((CreateTemp (tmp_name o) :: copies)
            ++ [Append (tmp_name o) (rest_of (concat (rd_chunks r)))])
            ++ (if sync then [SyncFile (tmp_name o)] else []))) as H3
    by (apply Forall_app; split; [done|destruct sync; by repeat constructor]).
  destruct (close_err o); [intros [= <- <-]; right; eauto 10|].
  destruct (rename_err o); [intros [= <- <-]; right; eauto 10|]. intros [= <- <-]. right.
  eexists. split; [exact H3|]. right. apply copy_ops_ok in Ec as [He ->]. split_and!; [done..|].
  intros fs. rewrite !run_app. cbn [run_ops foldl app].
  change (foldl exec ?a ?b) with (run_ops a b).
  assert (exec fs (CreateTemp (tmp_name o)) !! tmp_name o = Some (mkF [] false)) as Hn by apply lookup_insert_eq.
  rewrite (run_appends _ _ _ _ Hn). cbn [app exec]. rewrite lookup_insert_eq. cbn [fdata].
  rewrite !insert_insert_eq, buffers_rest. destruct sync; cbn [run_ops foldl exec]; [|done].
  rewrite lookup_insert_eq. by rewrite insert_insert_eq.
Qed.

(** ** Paths of digests *)
Definition hex_char (c : byte) : bool :=
  ((48 <=? b2z c) && (b2z c <=? 57)) || ((97 <=? b2z c) && (b2z c <=? 102)).
Definition is_digest (h : bytes) : Prop := length h = 64%nat ∧ Forall (λ c, hex_char c = true) h.

Lemma hex_seg s : Forall (λ c, hex_char c = true) s → s ≠ [] →
  real_seg s ∧ ch_slash ∉ s ∧ ch_nul ∉ s ∧ ch_backslash ∉ s ∧ HasPathTraversalChars s = false.
Proof.
  intros Hs Hne. assert (∀ c, c ∈ s → hex_char c = true) as Hin by (by apply Forall_forall).
  assert (ch_slash ∉ s ∧ ch_nul ∉ s ∧ ch_backslash ∉ s ∧ ch_dot ∉ s) as (H1 & H2 & H3 & H4).
  { split_and!; intros Hc; by apply Hin in Hc. }
  split_and!; [|done..|].
  - split_and!; [done|..]; intros ->; apply H4; by left.
  - unfold HasPathTraversalChars. apply orb_false_iff. split.
    + destruct (existsb _ s) eqn:E; [|done]. apply existsb_exists in E as (c & Hc & Hb).
      apply bool_decide_eq_true in Hb. apply list_elem_of_In in Hc. by destruct Hb as [-> | ->].
    + apply bool_decide_eq_false. intros ->. apply H4. by left.
Qed.

Lemma blobPath_digest h :
  is_digest h →
  blobPath h = join_slash [bs "blobs"; slice 0 2 h; slice 2 4 h; slice 4 6 h; h] ∧ HasPathTraversalChars h = false.
Proof.
  intros [Hl Hf].
  assert (∀ lo, (lo + 2 <= 64)%nat → Forall (λ c, hex_char c = true) (slice lo (lo + 2) h) ∧ slice lo (lo + 2) h ≠ [])
    as Hsl.
  { intros lo Hlo. split; [by apply Forall_take, Forall_drop|].
    intros E. apply (f_equal length) in E. rewrite length_slice in E; cbn in E; lia. }
  assert (h ≠ []) as Hne by (by intros ->).
  destruct (hex_seg h Hf Hne) as (R & S & N & K & T). split; [|done]. unfold blobPath.
  assert ((length h <? 6)%nat = false) as -> by (apply Nat.ltb_ge; lia).
  destruct (Hsl 0%nat) as [F0 N0]; [lia|]. destruct (Hsl 2%nat) as [F2 N2]; [lia|].
  destruct (Hsl 4%nat) as [F4 N4]; [lia|]. cbn [Nat.add] in *.
  destruct (hex_seg _ F0 N0) as (R0 & S0 & Z0 & K0 & _), (hex_seg _ F2 N2) as (R2 & S2 & Z2 & K2 & _),
    (hex_seg _ F4 N4) as (R4 & S4 & Z4 & K4 & _).
  assert (real_seg (bs "blobs") ∧ ch_slash ∉ bs "blobs" ∧ ch_nul ∉ bs "blobs" ∧ ch_backslash ∉ bs "blobs") as (RB & SB & ZB & KB).
  { apply (bool_decide_unpack _). vm_compute. done. }
  apply path_clean_canonical. split.
  - rewrite split_join; [|done|]; rewrite !Forall_cons; auto 10.
  - intros [?|(seg & Hin & Hc)]%join_slash_elem; [done|].
    do 5 (apply elem_of_cons in Hin as [->|Hin]; [contradiction|]). by apply elem_of_nil in Hin.
  - intros [?|(seg & Hin & Hc)]%join_slash_elem; [done|].
    do 5 (apply elem_of_cons in Hin as [->|Hin]; [contradiction|]). by apply elem_of_nil in Hin.
Qed.

Lemma blobPath_inj h h' : is_digest h → is_digest h' → blobPath h = blobPath h' → h = h'.
Proof.
  intros Hd Hd' E. destruct (blobPath_digest h Hd) as [E1 _], (blobPath_digest h' Hd') as [E2 _].
  rewrite E1, E2 in E. apply (f_equal (λ p, last (split_slash p))) in E.
  destruct Hd as [Hl Hf], Hd' as [Hl' Hf'].
  assert (∀ x, Forall (λ c, hex_char c = true) x → ch_slash ∉ x) as Hs.
  { intros x Hx Hin. rewrite Forall_forall in Hx. by apply Hx in Hin. }
  assert (∀ x, Forall (λ c, hex_char c = true) x →
    Forall (λ seg, ch_slash ∉ seg) [bs "blobs"; slice 0 2 x; slice 2 4 x; slice 4 6 x; x]) as Hall.
  { intros x Hx. rewrite !Forall_cons. split; [apply (bool_decide_unpack _); vm_compute; done|].
    split_and!; try (by apply Hs, Forall_take, Forall_drop); [by apply Hs|constructor]. }
  rewrite !split_join in E by (done || by apply Hall). by injection E.
Qed.

Lemma prefix_snoc_inv {A} (pre w : list A) x :
  pre `prefix_of` w ++ [x] → pre = w ++ [x] ∨ pre `prefix_of` w.
Proof.
  intros [k Hk]. destruct k as [|y k _] using rev_ind; [left; by rewrite app_nil_r in Hk|].
  rewrite app_assoc in Hk. apply app_inj_tail in Hk as [-> _]. right. by exists k.
Qed.

(** ** Guarantees *)

(** The directory as a map from digests to contents. *)
Definition local_view (fs : files) (h : bytes) : option bytes := fdata <$> fs !! blobPath h.

(** What is left after a put: the new file, or the old files and, when it could not be
    removed, the temporary file. *)
Lemma local_put_final o sync h r res ops fs :
  fs !! tmp_name o = None → tmp_name o ≠ blobPath h → local_put o sync h r = (res, ops) →
  match res with
  | Ok _ => run_ops fs ops = <[blobPath h := mkF (concat (rd_chunks r)) sync]> fs ∧ read_all r = Ok (concat (rd_chunks r))
  | Err _ => (∀ p, p ≠ tmp_name o → run_ops fs ops !! p = fs !! p) ∧ (cleanup_err o = false → run_ops fs ops = fs)
  end.
Proof.
  intros Hn Hne Hp. destruct (local_put_shape _ _ _ _ _ _ Hp)
    as [[-> Hr]|(pre & Ht & [(e & -> & ->)|(-> & -> & He & Hrun)])].
  - destruct res as [[]|]; [done|]. by split.
  - assert (∀ p, p ≠ tmp_name o → run_ops fs (pre ++ cleanup o (tmp_name o)) !! p = fs !! p) as Hoth.
    { intros p Hp'. rewrite run_app. unfold cleanup. destruct (cleanup_err o); cbn [run_ops foldl exec].
      - by eapply run_other.
      - rewrite lookup_delete_ne by done. by eapply run_other. }
    split; [done|]. intros Hc. apply map_eq. intros p. destruct (decide (p = tmp_name o)) as [->|Hp']; [|by apply Hoth].
    rewrite run_app, Hn. unfold cleanup. rewrite Hc. apply lookup_delete_eq.
  - split; [|unfold read_all; by rewrite He]. rewrite run_app, Hrun. cbn.
    rewrite lookup_insert_eq. f_equal. by rewrite delete_insert_id.
Qed.

(** C13: The directory of files implements the map from digests to contents, with every
    outcome of every system call: an acknowledged put updates exactly its key; a failed one
    changes no blob, and leaves the directory as it was unless removing the temporary file
    failed too; get, exists and size answer what the map says or EIO when their system call
    failed; delete removes exactly its key or, when the call failed, nothing and reports EIO.
    The name [os.CreateTemp] picked is one that did not exist. *)
Theorem local_refines_map o sync h r res ops fs h' :
  is_digest h → is_digest h' → fs !! tmp_name o = None → tmp_name o ≠ blobPath h → tmp_name o ≠ blobPath h' →
  local_put o sync h r = (res, ops) →
  (res = Ok tt → ∃ c, read_all r = Ok c
     ∧ local_view (run_ops fs ops) h' = if decide (h = h') then Some c else local_view fs h')
  ∧ (res ≠ Ok tt → local_view (run_ops fs ops) h' = local_view fs h' ∧ (cleanup_err o = false → run_ops fs ops = fs))
  ∧ local_get o fs h = (if open_err o then Err (Errno EIO)
                        else match local_view fs h with Some c => Ok c | None => Err (Errno ENOENT) end)
  ∧ local_exists o fs h = (if stat_err o then Err (Errno EIO) else Ok (bool_decide (is_Some (local_view fs h))))
  ∧ local_size o fs h = (if stat_err o then Err (Errno EIO)
                         else match local_view fs h with Some c => Ok (Z.of_nat (length c)) | None => Err (Errno ENOENT) end)
  ∧ (let '(r', fs') := local_delete o fs h in
     r' = (if unlink_err o then Err (Errno EIO) else Ok tt)
     ∧ local_view fs' h' = if negb (unlink_err o) && bool_decide (h = h') then None else local_view fs h').
Proof.
  intros Hd Hd' Hn Hne Hne' Hp. pose proof (local_put_final _ _ _ _ _ _ _ Hn Hne Hp) as Hf.
  destruct (blobPath_digest h Hd) as [_ Ht].
  unfold local_view, local_get, local_exists, local_size, local_delete. rewrite Ht. split_and!.
  - intros ->. destruct Hf as [Hf Hr]. eexists. split; [exact Hr|]. rewrite Hf. destruct (decide (h = h')) as [->|Hneq].
    + by rewrite lookup_insert_eq.
    + rewrite lookup_insert_ne; [done|]. intros E. by apply blobPath_inj in E.
  - intros Hres. destruct res as [[]|e]; [done|]. destruct Hf as [Hf Hc]. split; [|done]. by rewrite Hf.
  - destruct (open_err o); [done|]. by destruct (fs !! blobPath h).
  - destruct (stat_err o); [done|]. f_equal. apply bool_decide_ext. symmetry. apply fmap_is_Some.
  - destruct (stat_err o); [done|]. by destruct (fs !! blobPath h).
  - destruct (unlink_err o); [done|]. split; [done|]. cbn [negb andb]. case_bool_decide as E.
    + subst h'. by rewrite lookup_delete_eq.
    + rewrite lookup_delete_ne; [done|]. intros E'. by apply blobPath_inj in E'.
Qed.

(** A put with per-blob sync is atomic under power loss: wherever between two
    system calls the crash falls, the blob's file then holds what it could have
    held before the put, or the complete new content; no other blob is affected. *)
Theorem local_crash_atomic o h r res ops fs pre after p :
  fs !! tmp_name o = None → p ≠ tmp_name o → tmp_name o ≠ blobPath h →
  local_put o true h r = (res, ops) → pre `prefix_of` ops → crash (run_ops fs pre) after →
  (match after !! p with
   | Some c => ∃ f, fs !! p = Some f ∧ survives f c
   | None => fs !! p = None
   end)
  ∨ (p = blobPath h ∧ res = Ok tt ∧ pre = ops ∧ after !! p = Some (concat (rd_chunks r))).
Proof.
  intros Hn Hp Hne Hput Hpre Hcr. specialize (Hcr p).
  destruct (local_put_shape _ _ _ _ _ _ Hput) as [[-> Hr]|(w & Ht & Hops)].
  { apply prefix_nil_inv in Hpre as ->. by left. }
  assert (pre = ops ∨ pre `prefix_of` w) as [->|Hw].
  { destruct Hops as [(e & _ & ->)|(_ & -> & _)]; [|by apply prefix_snoc_inv].
    unfold cleanup in *. destruct (cleanup_err o); [|by apply prefix_snoc_inv]. right. by rewrite app_nil_r in Hpre. }
  - pose proof (local_put_final _ _ _ _ _ _ _ Hn Hne Hput) as Hf.
    destruct res as [[]|e]; [|left; destruct Hf as [Hf _]; by rewrite Hf in Hcr by done].
    destruct Hf as [Hf _]. rewrite Hf in Hcr. destruct (decide (p = blobPath h)) as [->|Hpb].
    + right. rewrite lookup_insert_eq in Hcr. destruct (after !! blobPath h) as [c|]; [|done].
      destruct Hcr as (f & [= <-] & Hs). cbn in Hs. by subst.
    + left. by rewrite lookup_insert_ne in Hcr by done.
  - left. assert (run_ops fs pre !! p = fs !! p) as E; [|by rewrite E in Hcr].
    apply (run_other (tmp_name o)); [|done]. destruct Hw as [k ->]. by apply Forall_app in Ht as [? _].
Qed.

(** The path test does not keep a key inside the base directory: this key has no
    separator and is not "..", yet its tier directories are, and its file lies
    two levels above the base directory. *)
Example blobPath_escapes :
  HasPathTraversalChars (bs "......key") = false ∧ blobPath (bs "......key") = bs "../../......key".
Proof. vm_compute. split; reflexivity. Qed.

(** ** Witnesses *)
Definition lo_os : os := mkOS (Ok (1000, 4096)) (bs "blob-17.tmp") None None None None None false None false None None false None false.
Definition lo_body : bytes := bs "hi".
Definition lo_key : bytes := Eval vm_compute in HashBytes lo_body.
Definition lo_put : result unit * list fs_op := local_put lo_os true lo_key (reader_of lo_body).

Lemma lo_digest : is_digest lo_key.
Proof. split; [reflexivity|]. apply (bool_decide_unpack _). vm_compute. exact I. Qed.

Lemma local_refines_map_witness : local_view (run_ops ∅ lo_put.2) lo_key = Some lo_body.
Proof.
  destruct (local_refines_map lo_os true lo_key (reader_of lo_body) lo_put.1 lo_put.2 ∅ lo_key) as (H & _);
    [exact lo_digest|exact lo_digest|reflexivity|vm_compute; discriminate|vm_compute; discriminate|reflexivity|].
  destruct H as (c & Hc & Hv); [vm_compute; reflexivity|].
  rewrite Hv, decide_True by reflexivity. injection Hc as <-. reflexivity.
Defined.

(** A crash after the data was written but before it was synced and renamed. *)
Lemma local_crash_atomic_witness :
  let pre := take 2 lo_put.2 in
  (∅ : files) !! blobPath lo_key = None
  ∨ (blobPath lo_key = blobPath lo_key ∧ lo_put.1 = Ok tt ∧ pre = lo_put.2
     ∧ ({[ tmp_name lo_os := lo_body ]} : gmap bytes bytes) !! blobPath lo_key = Some lo_body).
Proof.
  cbv zeta.
  pose proof (local_crash_atomic lo_os lo_key (reader_of lo_body) lo_put.1 lo_put.2 ∅ (take 2 lo_put.2)
                {[ tmp_name lo_os := lo_body ]} (blobPath lo_key)) as H.
  assert (({[ tmp_name lo_os := lo_body ]} : gmap bytes bytes) !! blobPath lo_key = None) as Hnone
    by (vm_compute; reflexivity).
  rewrite Hnone in H. rewrite Hnone. destruct H as [H|H]; [reflexivity|vm_compute; discriminate
    |vm_compute; discriminate|reflexivity|exists (drop 2 lo_put.2); symmetry; apply take_drop| |by left|].
  - assert (take 2 lo_put.2 = [CreateTemp (tmp_name lo_os); Append (tmp_name lo_os) lo_body]) as ->
      by (vm_compute; reflexivity).
    cbn [run_ops foldl exec]. rewrite lookup_insert_eq, insert_insert_eq, insert_empty. cbn [fdata app].
    intros p. destruct (decide (p = tmp_name lo_os)) as [->|Hp].
    + rewrite !lookup_singleton_eq. exists (mkF lo_body false). split; [reflexivity|]. by exists [].
    + by rewrite !lookup_singleton_ne by congruence.
  - destruct H as (_ & _ & _ & H). discriminate H.
Defined.

(** Without the per-blob sync a crash right after the rename may leave an empty
    blob under the digest: durability is then the barrier's business. *)
Example unsynced_put_truncates :
  let ops := (local_put lo_os false lo_key (reader_of lo_body)).2 in
  crash (run_ops ∅ ops) {[ blobPath lo_key := [] ]}.
Proof.
  cbv zeta. destruct (local_put lo_os false lo_key (reader_of lo_body)) as [res ops] eqn:E. cbn [snd].
  pose proof (local_put_final lo_os false lo_key (reader_of lo_body) res ops ∅ (lookup_empty _)) as Hf.
  assert (res = Ok tt) as -> by (apply (f_equal fst) in E; vm_compute in E; by rewrite E).
  destruct Hf as [-> _]; [vm_compute; discriminate|exact E|].
  rewrite insert_empty. change (concat (rd_chunks (reader_of lo_body))) with lo_body.
  intros p. destruct (decide (p = blobPath lo_key)) as [->|Hp].
  - rewrite !lookup_singleton_eq. exists (mkF lo_body false). split; [reflexivity|]. by exists lo_body.
  - by rewrite !lookup_singleton_ne by congruence.
Qed.
