(* ===== verification/AuditLog.v ===== *)
(** * The audit log (src/src/storage/storage.go, [WriteAuditLog] and after)

    Entries live in the [audit_log] bucket under their 8-byte big-endian
    timestamp and form a hash chain: each entry carries the hash of the one
    before it and the SHA-256 of its own JSON text.  [now] is the value of
    [time.Now().UnixNano()]. *)
From S2P Require Import Prelude GoText Hashes Json Paths.
Open Scope Z_scope.

Record AuditLogEntry := mkAudit {
  ATimestamp : Z;
  ATenantID : bytes;
  Identity : bytes;
  Operation : bytes;
  Resource : bytes;
  Outcome : bytes;
  RequestID : bytes;
  PrevHash : bytes;
  EntryHash : bytes
}.

#[export] Instance AuditLogEntry_eq_dec : EqDecision AuditLogEntry.
Proof. solve_decision. Defined.

Notation audit_log := (bucket (stored AuditLogEntry)).

(** The JSON text that is hashed: every field but [entry_hash], with [prev] as
    [prev_hash]. *)
Definition entryData (e : AuditLogEntry) (prev : bytes) : bytes :=
  [Byte.x7b] ++ json_key (bs "timestamp") ++ append_int (ATimestamp e)
  ++ [ch_comma] ++ json_key (bs "tenant_id") ++ json_string (ATenantID e)
  ++ [ch_comma] ++ json_key (bs "identity") ++ json_string (Identity e)
  ++ [ch_comma] ++ json_key (bs "operation") ++ json_string (Operation e)
  ++ [ch_comma] ++ json_key (bs "resource") ++ json_string (Resource e)
  ++ [ch_comma] ++ json_key (bs "outcome") ++ json_string (Outcome e)
  ++ [ch_comma] ++ json_key (bs "request_id") ++ json_string (RequestID e)
  ++ [ch_comma] ++ json_key (bs "prev_hash") ++ json_string prev
  ++ [Byte.x7d].

Definition entry_hash (e : AuditLogEntry) (prev : bytes) : bytes := HashBytes (entryData e prev).

(** The entry as it unmarshals after [json.Marshal]. *)
Definition audit_doc (e : AuditLogEntry) : stored AuditLogEntry :=
  Doc (mkAudit (ATimestamp e) (json_valid (ATenantID e)) (json_valid (Identity e))
         (json_valid (Operation e)) (json_valid (Resource e)) (json_valid (Outcome e))
         (json_valid (RequestID e)) (json_valid (PrevHash e)) (json_valid (EntryHash e))).

(** The hash [WriteAuditLog] chains to: that of the entry under the last key. *)
Definition last_hash (b : audit_log) : bytes :=
  match last (cursor b) with
  | Some (_, Doc e) => EntryHash e
  | _ => []
  end.

(** The entry [WriteAuditLog] stores. *)
Definition seal_entry (prev : bytes) (entry : AuditLogEntry) (now : Z) : AuditLogEntry :=
  let e := mkAudit now (ATenantID entry) (Identity entry) (Operation entry) (Resource entry)
             (Outcome entry) (RequestID entry) prev [] in
  mkAudit now (ATenantID entry) (Identity entry) (Operation entry) (Resource entry)
    (Outcome entry) (RequestID entry) prev (entry_hash e prev).

Definition WriteAuditLog (b : audit_log) (entry : AuditLogEntry) (now : Z) : audit_log :=
  <[put_be 8 (uint64 now) := audit_doc (seal_entry (last_hash b) entry now)]> b.

Fixpoint verify_loop (entries : list (bytes * stored AuditLogEntry)) (prevHash : bytes)
    : result unit :=
  match entries with
  | [] => Ok tt
  | (_, Corrupt) :: _ => Err ErrPlain
  | (_, Doc entry) :: rest =>
      if decide (PrevHash entry = prevHash) then
        if decide (EntryHash entry = entry_hash entry prevHash)
        then verify_loop rest (EntryHash entry)
        else Err ErrPlain
      else Err ErrPlain
  end.

Definition VerifyAuditLog (b : audit_log) : result unit := verify_loop (cursor b) [].

Definition auditTimeKey (t : Z) : option bytes :=
  if t <=? 0 then None else Some (put_be 8 (uint64 t)).

(** [collectAuditEntries]: [count] entries have been collected; [None] is the
    panic of [binary.BigEndian.Uint64] on a key of fewer than 8 bytes. *)
Fixpoint collect_loop (entries : list (bytes * stored AuditLogEntry)) (endKey : option bytes)
    (limit count : Z) : option (list AuditLogEntry) :=
  match entries with
  | [] => Some []
  | (k, v) :: rest =>
      if (0 <? limit) && (limit <=? count) then Some []
      else
        let past :=
          match endKey with
          | None => Some false
          | Some ek => if (length k <? 8)%nat then None else Some (get_be (take 8 ek) <? get_be (take 8 k))
          end in
        match past, v with
        | None, _ => None
        | Some true, _ => Some []
        | Some false, Corrupt => collect_loop rest endKey limit count
        | Some false, Doc e => cons e <$> collect_loop rest endKey limit (count + 1)
        end
  end.

Definition collectAuditEntries (b : audit_log) (startKey endKey : option bytes) (limit : Z)
    : option (list AuditLogEntry) :=
  let from := match startKey with
              | None => cursor b
              | Some sk => filter (λ kv, bytes_ltb kv.1 sk = false) (cursor b)
              end in
  collect_loop from endKey limit 0.

Definition GetAuditLogEntries (b : audit_log) (startTime endTime limit : Z)
    : option (list AuditLogEntry) :=
  collectAuditEntries b (auditTimeKey startTime) (auditTimeKey endTime) limit.

(** * Lemmas *)

(** What Go's types guarantee of an unmarshalled entry. *)
Record entry_ok (e : AuditLogEntry) : Prop := {
  eo_time : is_int64 (ATimestamp e);
  eo_text : Forall utf8 [ATenantID e; Identity e; Operation e; Resource e; Outcome e; RequestID e]
}.

Lemma append_int_comma v x w y :
  is_int64 v → is_int64 w → append_int v ++ ch_comma :: x = append_int w ++ ch_comma :: y →
  v = w ∧ x = y.
Proof.
  assert (∀ z, is_int64 z → ch_comma ∉ append_int z) as Hc.
  { intros z Hz Hin. destruct (append_int_spec z Hz) as (_ & _ & Hp).
    unfold parse_int64 in Hp. unfold append_int in Hin, Hp.
    assert (∀ ds, Forall (λ c, is_digit c = true) ds → ch_comma ∉ ds) as Hd.
    { intros ds Hf Hi. rewrite Forall_forall in Hf. by apply Hf in Hi. }
    unfold is_int64 in Hz. destruct (z <? 0) eqn:E; zbool.
    - destruct (dec_digits_spec 20 (- z) []) as (ds & Eq & _ & Hf & _); [lia|].
      rewrite Eq in Hin. rewrite app_nil_r in Hin. apply elem_of_cons in Hin as [?|Hin]; [done|].
      by apply (Hd ds).
    - destruct (dec_digits_spec 20 z []) as (ds & Eq & _ & Hf & _); [lia|].
      rewrite Eq, app_nil_r in Hin. by apply (Hd ds). }
  intros Hv Hw E. destruct (sep_split ch_comma (append_int v) (append_int w) x y) as [E1 ->];
    [exact (Hc v Hv)|exact (Hc w Hw)|exact E|]. split; [|reflexivity].
  apply (f_equal parse_int64) in E1.
  destruct (append_int_spec v Hv) as (_ & _ & Hp), (append_int_spec w Hw) as (_ & _ & Hq). congruence.
Qed.

(** The hashed text determines the entry: no two entries share it. *)
Lemma entryData_inj e e' p p' :
  entry_ok e → entry_ok e' → utf8 p → utf8 p' → entryData e p = entryData e' p' →
  p = p' ∧ seal_entry p e (ATimestamp e) = seal_entry p' e' (ATimestamp e').
Proof.
  intros [Ht Hs] [Ht' Hs'] Hp Hp' E. unfold entryData in E.
  repeat (apply Forall_cons in Hs as [? Hs]). repeat (apply Forall_cons in Hs' as [? Hs']).
  apply app_inv_head in E. apply app_inv_head in E.
  apply append_int_comma in E as [Et E]; [|assumption..].
  do 6 (apply app_inv_head in E; apply json_string_inj in E as [? E]; [|assumption..]; apply (app_inv_head [ch_comma]) in E).
  apply app_inv_head in E. apply json_string_inj in E as [-> _]; [|assumption..].
  split; [reflexivity|]. destruct e, e'.
  cbn [ATimestamp ATenantID Identity Operation Resource Outcome RequestID] in *. subst. reflexivity.
Qed.

(** ** The chain *)
#[local] Opaque HashBytes sha256 json_string.

Definition audit_key (t : Z) : bytes := put_be 8 (uint64 t).
Definition audit_cell (e : AuditLogEntry) : bytes * stored AuditLogEntry := (audit_key (ATimestamp e), Doc e).

(** The hash a walk ends with. *)
Definition tip (l : list (bytes * stored AuditLogEntry)) (p : bytes) : bytes :=
  match last l with
  | None => p
  | Some (_, Doc e) => EntryHash e
  | Some (_, Corrupt) => []
  end.

Lemma last_hash_tip b : last_hash b = tip (cursor b) [].
Proof. unfold last_hash, tip. by destruct (last _) as [[? []]|]. Qed.

Lemma tip_snoc l p x : tip (l ++ [x]) p = match x.2 with Doc e => EntryHash e | Corrupt => [] end.
Proof. unfold tip. rewrite last_snoc. by destruct x as [? []]. Qed.

Lemma tip_cons k e l p : tip ((k, Doc e) :: l) p = tip l (EntryHash e).
Proof. unfold tip. rewrite last_cons. by destruct (last l). Qed.

Lemma verify_snoc l p k e :
  verify_loop (l ++ [(k, Doc e)]) p = Ok tt
  ↔ verify_loop l p = Ok tt ∧ PrevHash e = tip l p ∧ EntryHash e = entry_hash e (PrevHash e).
Proof.
  revert p. induction l as [|[k' [e'|]] l IH]; intros p; cbn [app verify_loop].
  - change (tip [] p) with p. case_decide as E1; [rewrite E1; case_decide as E2|].
    + split; intros _; [split; [reflexivity|split; [reflexivity|exact E2]]|reflexivity].
    + split; [intros Hx; discriminate Hx|intros (_ & _ & Hx); contradiction].
    + split; [intros Hx; discriminate Hx|intros (_ & Hx & _); contradiction].
  - rewrite tip_cons. case_decide; [case_decide|]; [apply IH|..]; (split; [intros Hx; discriminate Hx|intros [Hx _]; discriminate Hx]).
  - split; [intros Hx; discriminate Hx|intros [Hx _]; discriminate Hx].
Qed.

Lemma verify_docs l p : verify_loop l p = Ok tt → ∃ es, l.*2 = Doc <$> es.
Proof.
  revert p. induction l as [|[k [e|]] l IH]; intros p; cbn [verify_loop]; [by exists []| |done].
  repeat case_decide; [|done..]. intros (es & E)%IH. exists (e :: es). cbn. by rewrite E.
Qed.

Lemma tip_utf8 l p : verify_loop l p = Ok tt → utf8 p → utf8 (tip l p).
Proof.
  revert p. induction l as [|[k [e|]] l IH]; intros p; cbn [verify_loop]; [done| |done].
  case_decide as Hd1; [case_decide as Hd2|]; [|done..]. intros Hv _. rewrite tip_cons.
  refine (IH _ Hv _). rewrite Hd2. apply HashBytes_utf8.
Qed.

Lemma seal_doc prev e t :
  entry_ok e → utf8 prev → audit_doc (seal_entry prev e t) = Doc (seal_entry prev e t).
Proof.
  intros [_ Hs] Hp. repeat (apply Forall_cons in Hs as [? Hs]). unfold audit_doc, seal_entry.
  cbn [ATimestamp ATenantID Identity Operation Resource Outcome RequestID PrevHash EntryHash].
  rewrite !json_valid_id; [done|try done..]. apply HashBytes_utf8.
Qed.

(** A write above every key extends a verified chain. *)
Lemma write_extends b e t :
  VerifyAuditLog b = Ok tt → entry_ok e → (∀ k v, b !! k = Some v → bytes_ltb k (audit_key t) = true) →
  cursor (WriteAuditLog b e t) = cursor b ++ [audit_cell (seal_entry (last_hash b) e t)]
  ∧ VerifyAuditLog (WriteAuditLog b e t) = Ok tt.
Proof.
  intros Hv He Hk. assert (utf8 (last_hash b)) as Hu by (rewrite last_hash_tip; by apply tip_utf8).
  assert (cursor (WriteAuditLog b e t) = cursor b ++ [audit_cell (seal_entry (last_hash b) e t)]) as Hc.
  { unfold WriteAuditLog. rewrite seal_doc by done. by apply cursor_snoc. }
  split; [done|]. unfold VerifyAuditLog. rewrite Hc. apply verify_snoc. split_and!; [done| |done].
  cbn [seal_entry PrevHash]. apply last_hash_tip.
Qed.

(** ** Logs written in clock order *)
Definition write_all (l : list (AuditLogEntry * Z)) : audit_log :=
  foldl (λ b et, WriteAuditLog b et.1 et.2) ∅ l.

(** The chain such a log should hold. *)
Fixpoint sealed_chain (prev : bytes) (l : list (AuditLogEntry * Z)) : list AuditLogEntry :=
  match l with
  | [] => []
  | (e, t) :: l' => let s := seal_entry prev e t in s :: sealed_chain (EntryHash s) l'
  end.

Record in_clock_order (l : list (AuditLogEntry * Z)) : Prop := {
  co_sorted : StronglySorted (λ x y : AuditLogEntry * Z, x.2 < y.2) l;
  co_range : Forall (λ x : AuditLogEntry * Z, 0 <= x.2 < 2 ^ 63) l;
  co_text : Forall (λ x : AuditLogEntry * Z, entry_ok x.1) l
}.

Lemma sealed_chain_snoc p l e t :
  sealed_chain p (l ++ [(e, t)])
  = sealed_chain p l ++ [seal_entry (tip (audit_cell <$> sealed_chain p l) p) e t].
Proof.
  revert p. induction l as [|[e' t'] l IH]; intros p; [done|].
  cbn [app sealed_chain fmap list_fmap]. rewrite IH. unfold audit_cell at 2. by rewrite tip_cons.
Qed.

Lemma sealed_chain_times p l : ATimestamp <$> sealed_chain p l = l.*2.
Proof.
  revert p. induction l as [|[e t] l IH]; intros p; [done|].
  cbn [sealed_chain fmap list_fmap ATimestamp seal_entry snd]. by rewrite IH.
Qed.

Lemma audit_key_lt a b :
  0 <= a < 2 ^ 63 → 0 <= b < 2 ^ 63 → bytes_ltb (audit_key a) (audit_key b) = (a <? b).
Proof.
  intros Ha Hb. unfold audit_key, uint64. rewrite !Z.mod_small by lia.
  apply bytes_ltb_put_be; lia.
Qed.

Lemma audit_key_past a b :
  0 <= a < 2 ^ 63 → 0 <= b < 2 ^ 63 →
  (get_be (take 8 (put_be 8 (uint64 a))) <? get_be (take 8 (audit_key b))) = (a <? b).
Proof.
  intros Ha Hb. unfold audit_key. rewrite !take_ge by (by rewrite length_put_be).
  rewrite !get_be_put_be8. unfold uint64. by rewrite !Z.mod_mod, !Z.mod_small by lia.
Qed.

Lemma write_all_cursor l :
  in_clock_order l →
  cursor (write_all l) = audit_cell <$> sealed_chain [] l ∧ VerifyAuditLog (write_all l) = Ok tt.
Proof.
  induction l as [|[e t] l IH] using rev_ind; intros [Hs Hr Ht]; [done|].
  apply StronglySorted_app in Hs as (Hlt & Hs & _).
  apply Forall_app in Hr as [Hr Hr1], Ht as [Ht Ht1]. rewrite Forall_singleton in Hr1, Ht1.
  destruct IH as [Hc Hv]; [done|].
  assert (write_all (l ++ [(e, t)]) = WriteAuditLog (write_all l) e t) as ->
    by (unfold write_all; by rewrite foldl_app).
  destruct (write_extends (write_all l) e t) as [Hc' Hv']; [done..| |].
  { intros k v Hk%elem_of_cursor. rewrite Hc in Hk.
    apply list_elem_of_fmap in Hk as (s & [= -> ->] & Hin).
    apply (list_elem_of_fmap_2 ATimestamp) in Hin. rewrite sealed_chain_times in Hin.
    apply list_elem_of_fmap in Hin as (x & -> & Hin). rewrite Forall_forall in Hr.
    rewrite audit_key_lt by auto. apply Z.ltb_lt, (Hlt x (e, t)); [done|by apply list_elem_of_singleton]. }
  split; [|assumption]. rewrite Hc', Hc, sealed_chain_snoc, fmap_app, last_hash_tip, Hc. reflexivity.
Qed.

(** ** Range queries *)
Definition limited (limit : Z) (es : list AuditLogEntry) : list AuditLogEntry :=
  if 0 <? limit then take (Z.to_nat limit) es else es.

Lemma collect_cells es endKey endT limit count :
  StronglySorted (λ x y, ATimestamp x < ATimestamp y) es →
  Forall (λ e, 0 <= ATimestamp e < 2 ^ 63) es → 0 <= count → (0 < limit → count <= limit) →
  endKey = auditTimeKey endT → endT < 2 ^ 63 →
  collect_loop (audit_cell <$> es) endKey limit count
  = Some (let r := filter (λ e, 0 < endT → ATimestamp e <= endT) es in
          if 0 <? limit then take (Z.to_nat (limit - count)) r else r).
Proof.
  intros Hs Hr Hc Hl -> He. revert count Hc Hl.
  induction Hs as [|e es Hs IH Hlt]; intros count Hc Hl.
  { cbn. by destruct (0 <? limit); rewrite ?take_nil. }
  apply Forall_cons in Hr as [Hr0 Hr]. specialize (IH Hr). cbn [fmap list_fmap collect_loop audit_cell].
  destruct ((0 <? limit) && (limit <=? count)) eqn:Elim.
  { apply andb_true_iff in Elim as [H1 H2]. rewrite H1. zbool. by replace (Z.to_nat _) with 0%nat by lia. }
  unfold auditTimeKey in *. destruct (endT <=? 0) eqn:Ee; zbool.
  - rewrite filter_cons_True by lia. rewrite IH by (destruct (0 <? limit) eqn:?; zbool; lia).
    cbn [fmap option_fmap option_map]. f_equal. destruct (0 <? limit) eqn:E0; [|done].
    zbool. by replace (Z.to_nat (limit - count)) with (S (Z.to_nat (limit - (count + 1)))) by lia.
  - rewrite (audit_key_past endT) by lia. unfold audit_key at 1. rewrite length_put_be.
    cbn [Nat.ltb Nat.leb]. destruct (endT <? ATimestamp e) eqn:El; zbool.
    + rewrite filter_none; [by destruct (0 <? limit); rewrite ?take_nil|].
      constructor; [lia|]. eapply Forall_impl; [exact Hlt|]. cbn. lia.
    + rewrite filter_cons_True by lia. rewrite IH by (destruct (0 <? limit) eqn:?; zbool; lia).
      cbn [fmap option_fmap option_map]. f_equal. destruct (0 <? limit) eqn:E0; [|done].
      zbool. by replace (Z.to_nat (limit - count)) with (S (Z.to_nat (limit - (count + 1)))) by lia.
Qed.

(** ** Tamper evidence *)

(** Two different texts with one digest, both hashed for entries of the walks. *)
Definition collision (l1 l2 : list (stored AuditLogEntry)) : Prop :=
  ∃ e1 e2, Doc e1 ∈ l1 ∧ Doc e2 ∈ l2
  ∧ entryData e1 (PrevHash e1) ≠ entryData e2 (PrevHash e2)
  ∧ sha256 (entryData e1 (PrevHash e1)) = sha256 (entryData e2 (PrevHash e2)).

Definition typed_walk (l : list (stored AuditLogEntry)) : Prop := ∀ e, Doc e ∈ l → entry_ok e.

Lemma seal_self e p :
  PrevHash e = p → EntryHash e = entry_hash e p → seal_entry p e (ATimestamp e) = e.
Proof. destruct e. cbn [PrevHash EntryHash ATimestamp]. intros -> ->. reflexivity. Qed.

Lemma verify_last l p :
  verify_loop l p = Ok tt →
  l = [] ∨ ∃ l' k e, l = l' ++ [(k, Doc e)] ∧ verify_loop l' p = Ok tt
                     ∧ PrevHash e = tip l' p ∧ EntryHash e = entry_hash e (PrevHash e).
Proof.
  destruct l as [|[k v] l _] using rev_ind; [by left|]. intros Hv. right.
  destruct (verify_docs _ _ Hv) as (es & E). destruct v as [e|].
  - exists l, k, e. by apply verify_snoc in Hv.
  - exfalso. assert (Corrupt ∈ (Doc <$> es : list (stored AuditLogEntry))) as Hin.
    { rewrite <- E, fmap_app. apply elem_of_app. right. by apply list_elem_of_singleton. }
    by apply list_elem_of_fmap in Hin as (? & ? & _).
Qed.

Lemma tip_nil_inv l : verify_loop l [] = Ok tt → tip l [] = [] → l = [].
Proof.
  intros Hv Ht. destruct (verify_last _ _ Hv) as [->|(l' & k & e & -> & _ & _ & He)]; [done|].
  rewrite tip_snoc in Ht. cbn [snd] in Ht. rewrite He in Ht. by apply HashBytes_ne in Ht.
Qed.

Lemma tamper_walks n l1 l2 :
  (length l1 <= n)%nat → typed_walk l1.*2 → typed_walk l2.*2 →
  verify_loop l1 [] = Ok tt → verify_loop l2 [] = Ok tt → tip l1 [] = tip l2 [] →
  l1.*2 = l2.*2 ∨ collision l1.*2 l2.*2.
Proof.
  revert l1 l2. induction n as [|n IH]; intros l1 l2 Hn T1 T2 V1 V2 Ht;
    (destruct (verify_last _ _ V1) as [->|(l1' & k1 & e1 & -> & V1' & P1 & H1)];
     [left; symmetry in Ht; by rewrite (tip_nil_inv _ V2 Ht)|]).
  { rewrite length_app in Hn. cbn in Hn. lia. }
  destruct (verify_last _ _ V2) as [->|(l2' & k2 & e2 & -> & V2' & P2 & H2)].
  { left. by rewrite (tip_nil_inv _ V1 Ht). }
  rewrite !tip_snoc in Ht. cbn [snd] in Ht.
  rewrite !fmap_app in *. cbn [fmap list_fmap snd] in *.
  assert (entry_ok e1) as O1 by (apply T1; set_solver). assert (entry_ok e2) as O2 by (apply T2; set_solver).
  destruct (decide (entryData e1 (PrevHash e1) = entryData e2 (PrevHash e2))) as [Ed|Ed].
  - apply entryData_inj in Ed as [Ep Es]; [|done|done|rewrite P1; by apply tip_utf8|rewrite P2; by apply tip_utf8].
    rewrite !seal_self in Es by done. subst e2.
    destruct (IH l1' l2') as [E|(x1 & x2 & X1 & X2 & X)]; [|by intros e ?; apply T1; set_solver
      |by intros e ?; apply T2; set_solver|done|done|congruence| |].
    + rewrite length_app in Hn. cbn in Hn. lia.
    + left. by rewrite E.
    + right. exists x1, x2. set_solver.
  - right. exists e1, e2. split_and!; [set_solver|set_solver|done|].
    apply HashBytes_inj. unfold entry_hash in *. congruence.
Qed.

(** * Guarantees *)

(** Entries written at strictly increasing times form a log that verifies,
    and a range query returns exactly the sealed entries of the range, oldest
    first, cut to the limit: nothing is lost, reordered or altered. *)
Theorem audit_write_read l startT endT limit :
  in_clock_order l → startT < 2 ^ 63 → endT < 2 ^ 63 →
  VerifyAuditLog (write_all l) = Ok tt
  ∧ GetAuditLogEntries (write_all l) startT endT limit
    = Some (limited limit
        (filter (λ e, 0 < endT → ATimestamp e <= endT)
           (filter (λ e, startT <= ATimestamp e) (sealed_chain [] l)))).
Proof.
  intros Ho Hst Het. destruct (write_all_cursor l Ho) as [Hc Hv]. split; [done|].
  destruct Ho as [Hs Hr _].
  assert (StronglySorted (λ x y, ATimestamp x < ATimestamp y) (sealed_chain [] l)) as Hs'.
  { apply (StronglySorted_of_fmap Z.lt). rewrite sealed_chain_times. by apply StronglySorted_of_fmap. }
  assert (Forall (λ e, 0 <= ATimestamp e < 2 ^ 63) (sealed_chain [] l)) as Hr'.
  { apply (Forall_fmap ATimestamp (λ t, 0 <= t < 2 ^ 63)). rewrite sealed_chain_times. by apply Forall_fmap. }
  unfold GetAuditLogEntries, collectAuditEntries. rewrite Hc.
  assert (match auditTimeKey startT with
          | None => audit_cell <$> sealed_chain [] l
          | Some sk => filter (λ kv, bytes_ltb kv.1 sk = false) (audit_cell <$> sealed_chain [] l)
          end = audit_cell <$> filter (λ e, startT <= ATimestamp e) (sealed_chain [] l)) as ->.
  { unfold auditTimeKey. destruct (startT <=? 0) eqn:E; zbool.
    - rewrite filter_all; [done|]. eapply Forall_impl; [exact Hr'|]. cbn. lia.
    - apply filter_fmap_in. intros e He. rewrite Forall_forall in Hr'. cbn [audit_cell fst].
      change (put_be 8 (uint64 startT)) with (audit_key startT).
      rewrite audit_key_lt by (try lia; by apply Hr'). rewrite Z.ltb_ge. done. }
  rewrite (collect_cells _ _ endT); [..|done|done]; [|by apply StronglySorted_filter|by apply Forall_filter_weaken|lia|lia].
  unfold limited. by rewrite Z.sub_0_r.
Qed.

(** C31: the log is tamper evident: a log that verifies and ends in the same hash
    as another verifying log holds exactly the same entries in the same order,
    unless two different entry texts with the same SHA-256 digest are at hand. *)
Theorem audit_tamper_evident b1 b2 :
  typed_walk (cursor b1).*2 → typed_walk (cursor b2).*2 →
  VerifyAuditLog b1 = Ok tt → VerifyAuditLog b2 = Ok tt → last_hash b1 = last_hash b2 →
  (cursor b1).*2 = (cursor b2).*2 ∨ collision (cursor b1).*2 (cursor b2).*2.
Proof. rewrite !last_hash_tip. intros ?????. by eapply tamper_walks. Qed.

(** The chain relies on the clock: when the second entry's time is not above
    the first one's (a coarse or stepped-back clock), the second entry replaces
    or precedes the first while carrying its hash, and the log no longer
    verifies. *)
Theorem audit_clock_breaks e1 e2 t1 t2 :
  entry_ok e1 → entry_ok e2 → 0 <= t2 <= t1 → t1 < 2 ^ 63 →
  VerifyAuditLog (WriteAuditLog ∅ e1 t1) = Ok tt
  ∧ VerifyAuditLog (WriteAuditLog (WriteAuditLog ∅ e1 t1) e2 t2) = Err ErrPlain.
Proof.
  intros H1 H2 Ht Hb. destruct (write_extends ∅ e1 t1) as [Hc Hv]; [done..|].
  split; [done|]. set (b := WriteAuditLog ∅ e1 t1) in *.
  set (s1 := seal_entry (last_hash ∅) e1 t1) in *. change (cursor ∅) with (@nil (bytes * stored AuditLogEntry)) in Hc.
  assert (last_hash b = EntryHash s1) as Hl by (unfold last_hash; by rewrite Hc).
  assert (∃ rest, cursor (WriteAuditLog b e2 t2) = (audit_key t2, Doc (seal_entry (EntryHash s1) e2 t2)) :: rest)
    as (rest & Hc2).
  { assert (audit_doc (seal_entry (last_hash b) e2 t2) = Doc (seal_entry (EntryHash s1) e2 t2)) as Hd.
    { rewrite Hl. apply seal_doc; [done|apply HashBytes_utf8]. }
    unfold WriteAuditLog at 1. fold (audit_key t2). rewrite Hd. destruct (decide (t2 = t1)) as [->|Hne].
    - exists []. unfold b, WriteAuditLog. fold (audit_key t1). rewrite insert_insert_eq. rewrite (cursor_snoc ∅); [reflexivity|]. intros k v Hk. rewrite lookup_empty in Hk. discriminate Hk.
    - exists [(audit_key t1, Doc s1)]. symmetry. apply cursor_unique.
      + repeat constructor. cbn [fst audit_cell]. rewrite audit_key_lt by lia. apply Z.ltb_ge. lia.
      + assert (audit_key t2 ≠ audit_key t1) as Hk.
        { intros E. assert (bytes_ltb (audit_key t2) (audit_key t1) = true) as Hlt
            by (rewrite audit_key_lt by lia; apply Z.ltb_lt; lia).
          by rewrite E, bytes_ltb_irrefl in Hlt. }
        unfold b, WriteAuditLog. fold (audit_key t1). rewrite seal_doc by done.
        rewrite map_to_list_insert, insert_empty, map_to_list_singleton; [done|].
        by rewrite lookup_insert_ne, lookup_empty by done. }
  unfold VerifyAuditLog. rewrite Hc2. cbn [verify_loop]. rewrite decide_False; [done|].
  cbn [PrevHash seal_entry]. apply HashBytes_ne.
Qed.

(** ** Witnesses *)
#[local] Transparent HashBytes sha256 json_string.

Definition aw (op : bytes) : AuditLogEntry := mkAudit 0 (bs "t1") (bs "cli") op (bs "b/k") (bs "success") [] [] [].
Definition aw_log : list (AuditLogEntry * Z) := [(aw (bs "PutObject"), 5); (aw (bs "GetObject"), 9)].

Lemma aw_ok op : utf8 op → entry_ok (aw op).
Proof. intros H. split; [done|]. repeat constructor; done. Qed.

Lemma aw_order : in_clock_order aw_log.
Proof. split; repeat constructor; try done; by apply aw_ok. Qed.

Lemma audit_write_read_witness :
  VerifyAuditLog (write_all aw_log) = Ok tt
  ∧ ∃ e, GetAuditLogEntries (write_all aw_log) 6 0 1 = Some [e] ∧ Operation e = bs "GetObject".
Proof.
  destruct (audit_write_read aw_log 6 0 1 aw_order) as [Hv Hg]; [done|done|]. split; [done|].
  eexists. split; [rewrite Hg; reflexivity|reflexivity].
Defined.

Lemma audit_clock_breaks_witness :
  VerifyAuditLog (WriteAuditLog (WriteAuditLog ∅ (aw (bs "a")) 7) (aw (bs "b")) 7) = Err ErrPlain.
Proof. apply (audit_clock_breaks (aw (bs "a")) (aw (bs "b")) 7 7); [by apply aw_ok..|lia|lia]. Defined.

(** One entry, and the same entry filed under another key. *)
Definition aw_one : audit_log := WriteAuditLog ∅ (aw (bs "a")) 5.
Definition aw_moved : audit_log := {[ audit_key 8 := Doc (seal_entry [] (aw (bs "a")) 5) ]}.

Lemma audit_tamper_evident_witness :
  (cursor aw_one).*2 = (cursor aw_moved).*2 ∨ collision (cursor aw_one).*2 (cursor aw_moved).*2.
Proof.
  assert (typed_walk [Doc (seal_entry [] (aw (bs "a")) 5)]) as Ht.
  { intros e [= ->]%list_elem_of_singleton. destruct (aw_ok (bs "a")) as [_ Hs]; [done|]. by split. }
  assert ((cursor aw_one).*2 = [Doc (seal_entry [] (aw (bs "a")) 5)]) as H1 by (vm_compute; reflexivity).
  assert ((cursor aw_moved).*2 = [Doc (seal_entry [] (aw (bs "a")) 5)]) as H2 by (vm_compute; reflexivity).
  apply audit_tamper_evident; [by rewrite H1|by rewrite H2|vm_compute; reflexivity..].
Defined.

(** An entry whose resource is not valid UTF-8 breaks the log for good: its hash
    is taken over the escape json.Marshal writes for the bad byte, while
    verification re-marshals the U+FFFD that was stored instead. *)
Example audit_invalid_utf8_breaks :
  VerifyAuditLog
    (WriteAuditLog ∅ (mkAudit 0 (bs "t1") [] (bs "GetObject") [Byte.xff] [] [] [] []) 5) = Err ErrPlain.
Proof. vm_compute. reflexivity. Qed.
