(* ===== verification/CasStore.v ===== *)
(** * The content-addressed store (src/src/storage/storage.go, gc.go)

    [CASStore] composes a blob backend with bbolt metadata: the namespace (name
    to hash), the object records (hash to reference count), remote paths,
    modification times and tombstones.  Every operation is a function of the
    store and of the clock reading it uses; a bbolt [Update] is a function that
    returns the new database or an error that leaves it unchanged. *)
From S2P Require Import Prelude GoText Hashes Paths ObjectMeta BlobStore.
Open Scope Z_scope.

(** ** bbolt *)

(** [Bucket.Put]: the key must be non-empty and at most MaxKeySize bytes. *)
Definition bput {V} (k : bytes) (v : V) (b : bucket V) : option (bucket V) :=
  if (Z.of_nat (length k) =? 0) || (32768 <? Z.of_nat (length k)) then None
  else Some (<[k := v]> b).

(** ** Data *)
Record FileMetadata := mkFile {
  Name : bytes;
  Hash : bytes;
  FSize : Z;
  RemotePath : bytes;
  ModTime : Z
}.

Record DB := mkDB {
  objects : bucket bytes;
  namespace : bucket bytes;
  paths : bucket bytes;
  modtimes : bucket bytes;
  tombstones : bucket bytes;
  quarantine : bucket bytes
}.

(** An entry of the metadata cache: the value and its expiry time. *)
Record cachedMeta := mkCached { cm_meta : FileMetadata; cm_expiry : Z }.

Record CASStore (B : Type) := mkCAS {
  db : DB;
  blobs : B;
  VerifyOnRead : bool;
  durability : option (bytes → result unit);   (* DurabilityBarrier.Commit *)
  gcRuns : Z;
  gcEvicted : Z;
  metaCache : gmap bytes cachedMeta
}.
Arguments mkCAS {B}.
Arguments db {B}.
Arguments blobs {B}.
Arguments VerifyOnRead {B}.
Arguments durability {B}.
Arguments gcRuns {B}.
Arguments gcEvicted {B}.
Arguments metaCache {B}.

Definition metaCacheTTL : Z := 60 * 1000000000.
Definition cacheMaxSize : nat := 10000.
Definition FileInfoLength : Z := 64.

Definition set_objects (o : bucket bytes) (d : DB) : DB :=
  mkDB o (namespace d) (paths d) (modtimes d) (tombstones d) (quarantine d).
Definition set_tombstones (t : bucket bytes) (d : DB) : DB :=
  mkDB (objects d) (namespace d) (paths d) (modtimes d) t (quarantine d).

Section Store.
Context {B : Type} `{BlobStore B}.
Implicit Types (s : CASStore B).

Definition with_db (d : DB) s : CASStore B :=
  mkCAS d (blobs s) (VerifyOnRead s) (durability s) (gcRuns s) (gcEvicted s) (metaCache s).
Definition with_blobs (b : B) s : CASStore B :=
  mkCAS (db s) b (VerifyOnRead s) (durability s) (gcRuns s) (gcEvicted s) (metaCache s).
Definition with_cache (c : gmap bytes cachedMeta) s : CASStore B :=
  mkCAS (db s) (blobs s) (VerifyOnRead s) (durability s) (gcRuns s) (gcEvicted s) c.
Definition add_gc (runs evicted : Z) s : CASStore B :=
  mkCAS (db s) (blobs s) (VerifyOnRead s) (durability s)
        (uint64 (gcRuns s + runs)) (uint64 (gcEvicted s + evicted)) (metaCache s).

(** [newCASStore] on a fresh database, with the default read policy. *)
Definition newCASStore (b : B) : CASStore B :=
  mkCAS (mkDB ∅ ∅ ∅ ∅ ∅ ∅) b true None 0 0 ∅.

(** ** The metadata cache *)
Definition invalidateCache s (name : bytes) : CASStore B :=
  with_cache (delete name (metaCache s)) s.

Definition getCachedMeta s (name : bytes) (now : Z) : option FileMetadata :=
  match metaCache s !! name with
  | None => None
  | Some e => if cm_expiry e <? now then None else Some (cm_meta e)
  end.

(** The eviction scan: [oldest == ""] marks that nothing was chosen yet. *)
Definition older (best : bytes * Z) (kv : bytes * cachedMeta) : bytes * Z :=
  if decide (best.1 = []) then (kv.1, cm_expiry kv.2)
  else if cm_expiry kv.2 <? best.2 then (kv.1, cm_expiry kv.2) else best.

Definition setCachedMeta s (name : bytes) (m : FileMetadata) (now : Z) : CASStore B :=
  let cache := metaCache s in
  let cache :=
    if (cacheMaxSize <=? size cache)%nat then
      let oldest := (foldl older ([], 0) (map_to_list cache)).1 in
      if decide (oldest = []) then cache else delete oldest cache
    else cache in
  with_cache (<[name := mkCached m (now + metaCacheTTL)]> cache) s.

(** ** Put *)

(** [hasInternal] *)
Definition hasInternal s (hash : bytes) : bool := bool_decide (is_Some (objects (db s) !! hash)).

Definition Has s (hash : bytes) : result bool :=
  if HasPathTraversalChars hash then Err (Errno EINVAL) else Ok (hasInternal s hash).

(** The vector-clock merge of [PutWithMetadata]. *)
Definition merge_clock (old vc : list Z) : list Z :=
  match vc with
  | [] => old
  | _ =>
      let base := if (length old <? length vc)%nat then replicate (length vc) 0 else old in
      zip_with Z.max (take (length vc) base) vc ++ drop (length vc) base
  end.

(** The metadata transaction of [PutWithMetadata]. *)
Definition put_tx (name hash : bytes) (size : Z) (remotePath : bytes)
    (vectorClock : list Z) (shardKey : bytes) (replicas : list Z) (now : Z) (d : DB)
    : result DB :=
  match bput name hash (namespace d) with
  | None => Err (Errno EIO)
  | Some ns =>
      let! meta :=
        match objects d !! hash with
        | Some existing =>
            let! m := decodeObjectMeta existing in
            Ok (mkObjectMeta (Size m) (int64 (RefCount m + 1)) (DeletedAt m)
                  (merge_clock (VectorClock m) vectorClock) (ShardKey m) (MetadataReplicas m))
        | None => Ok (mkObjectMeta size 1 0 vectorClock shardKey replicas)
        end in
      let meta := mkObjectMeta (Size meta) (RefCount meta) (DeletedAt meta) (VectorClock meta)
                    (match ShardKey meta with [] => shardKey | k => k end)
                    (match MetadataReplicas meta with [] => replicas | r => r end) in
      match bput hash (encode meta) (objects d) with
      | None => Err (Errno EIO)
      | Some obj =>
          let ts := delete name (tombstones d) in
          match bput name (put_be 8 (uint64 now)) (modtimes d) with
          | None => Err (Errno EIO)
          | Some mt =>
              if FileInfoLength <? Z.of_nat (length name) then Err (Errno ENAMETOOLONG)
              else
                match remotePath with
                | [] => Ok (mkDB obj ns (paths d) mt ts (quarantine d))
                | _ =>
                    let! normalized := NormalizeVirtualPath remotePath in
                    match bput name normalized (paths d) with
                    | None => Err (Errno EIO)
                    | Some p => Ok (mkDB obj ns p mt ts (quarantine d))
                    end
                end
          end
      end
  end.

(** The physical half of [PutWithMetadata]: presence check, blob write and
    durability barrier, or draining the reader. *)
Definition put_blob_phase s (hash : bytes) (content : option reader) : result unit * CASStore B :=
  let exists_meta := hasInternal s hash in
  let presence : result bool :=
    if exists_meta then
      match BlobExists with
      | Some f => f (blobs s) hash
      | None => Ok true
      end
    else Ok false in
  match presence with
  | Err e => (Err e, s)
  | Ok ex =>
      match content with
      | None => (Ok tt, s)
      | Some r =>
          if ex then
            match rd_err r with
            | Some e => (Err e, s)
            | None => (Ok tt, s)
            end
          else
            let '(res, b) := PutBlob (blobs s) hash r in
            let s := with_blobs b s in
            match res with
            | Err e => (Err e, s)
            | Ok _ =>
                match durability s with
                | None => (Ok tt, s)
                | Some commit => (commit hash, s)
                end
            end
      end
  end.

Definition PutWithMetadata s (name hash : bytes) (size : Z) (remotePath : bytes)
    (content : option reader) (vectorClock : list Z) (shardKey : bytes) (replicas : list Z)
    (now : Z) : result unit * CASStore B :=
  if HasPathTraversalChars hash then (Err (Errno EINVAL), s)
  else
    let '(r, s) := put_blob_phase s hash content in
    match r with
    | Err e => (Err e, s)
    | Ok _ =>
        match put_tx name hash size remotePath vectorClock shardKey replicas now (db s) with
        | Err e => (Err e, s)
        | Ok d => (Ok tt, invalidateCache (with_db d s) name)
        end
    end.

Definition Put s (name hash : bytes) (size : Z) (remotePath : bytes) (content : option reader)
    (now : Z) : result unit * CASStore B :=
  PutWithMetadata s name hash size remotePath content [] [] [] now.

(** ** Get *)
Definition quarantined s (hash : bytes) : bool := bool_decide (is_Some (quarantine (db s) !! hash)).

(** The stream of a [verifyingReader]: the content, then EOF or, when the digest
    is not the key, the integrity error. *)
Definition verifying_reader (c : bytes) (expected : bytes) : reader :=
  if decide (HashBytes c = expected) then Reader [c] None
  else Reader [c] (Some (Errno EBADMSG)).

(** The part of [openVerifiedBlob] that reads the local copy; a copy that is
    missing or marked is refused, as the code does when no rebuild source is
    armed.  The whole function, with the degraded read, is [openBlob] of
    Repair.v; [openBlob_local] there relates the two. *)
Definition openVerifiedBlob s (hash : bytes) : result reader :=
  let flagged := quarantined s hash in
  match GetBlob (blobs s) hash with
  | Ok c =>
      if flagged then Err (Errno ENOENT)
      else if VerifyOnRead s then Ok (verifying_reader c hash)
      else Ok (reader_of c)
  | Err e =>
      if decide (e = Errno ENOENT) then Err (Errno ENOENT) else Err e
  end.

(** Name resolution: tombstones first. *)
Definition GetHashForName s (name : bytes) : result bytes :=
  match tombstones (db s) !! name with
  | Some _ => Err (Errno ENOENT)
  | None => match namespace (db s) !! name with
            | None => Err (Errno ENOENT)
            | Some h => Ok h
            end
  end.

(** An 8-byte timestamp value; shorter values read as 0. *)
Definition time_value (v : option bytes) : Z :=
  match v with
  | Some b => if (8 <=? length b)%nat then int64 (get_be (take 8 b)) else 0
  | None => 0
  end.

(** The second transaction of [Get] and [GetMeta]. *)
Definition read_meta (d : DB) (name hash : bytes) : result FileMetadata :=
  match objects d !! hash with
  | None => Err (Errno ENOENT)
  | Some val =>
      let! m := decodeObjectMeta val in
      if Size m <? 0 then Err (Errno EBADMSG)
      else Ok (mkFile name hash (Size m)
                 (match paths d !! name with Some p => p | None => [] end)
                 (time_value (modtimes d !! name)))
  end.

(** [Get] of a store without an armed rebuild source; [rGet] of Repair.v is the
    whole function, and [rGet_local] there says when they agree. *)
Definition Get s (name : bytes) : result (reader * FileMetadata) :=
  let! hash := GetHashForName s name in
  let! f := openVerifiedBlob s hash in
  let! meta := read_meta (db s) name hash in
  Ok (f, meta).

Definition GetMeta s (name : bytes) : result FileMetadata :=
  let! hash := GetHashForName s name in
  read_meta (db s) name hash.

(** ** List and Stats *)
Fixpoint list_loop (d : DB) (entries : list (bytes * bytes)) : result (list FileMetadata) :=
  match entries with
  | [] => Ok []
  | (name, hash) :: rest =>
      match tombstones d !! name with
      | Some _ => list_loop d rest
      | None =>
          let! size :=
            match objects d !! hash with
            | Some (x :: val) => let! m := decodeObjectMeta (x :: val) in Ok (Size m)
            | _ => Ok 0
            end in
          let! tl := list_loop d rest in
          Ok (mkFile name hash size (match paths d !! name with Some p => p | None => [] end)
                (time_value (modtimes d !! name)) :: tl)
      end
  end.

Definition List s : result (list FileMetadata) := list_loop (db s) (cursor (namespace (db s))).

Fixpoint stats_loop (entries : list (bytes * bytes)) (count stored : Z) : result (Z * Z) :=
  match entries with
  | [] => Ok (count, stored)
  | (_, v) :: rest =>
      let! m := decodeObjectMeta v in
      if (DeletedAt m =? 0) && (0 <? RefCount m)
      then stats_loop rest (count + 1) (int64 (stored + Size m))
      else stats_loop rest count stored
  end.

Definition Stats s : result (Z * Z) := stats_loop (cursor (objects (db s))) 0 0.

(** ** Delete *)

(** The part of the delete transaction that drops the name's reference; the
    orphaned hash, if any, is returned. *)
Definition drop_ref (name : bytes) (at_ : Z) (d : DB) : result (bucket bytes * bytes) :=
  match namespace d !! name with
  | None => Ok (objects d, [])
  | Some hash =>
      match objects d !! hash with
      | None => Ok (objects d, [])
      | Some val =>
          let! m := decodeObjectMeta val in
          let rc := int64 (RefCount m - 1) in
          let orphan := rc <=? 0 in
          let m' := mkObjectMeta (Size m) (if orphan then 0 else rc)
                      (if orphan then at_ else DeletedAt m)
                      (VectorClock m) (ShardKey m) (MetadataReplicas m) in
          match bput hash (encode m') (objects d) with
          | None => Err (Errno EIO)
          | Some obj => Ok (obj, if orphan then hash else [])
          end
      end
  end.

(** [perr] is how the caller reports a failed tombstone write. *)
Definition delete_tx (perr : error) (name : bytes) (at_ : Z) (d : DB) : result (DB * bytes) :=
  match bput name (put_be 8 (uint64 at_)) (tombstones d) with
  | None => Err perr
  | Some ts =>
      let! p := drop_ref name at_ d in
      Ok (mkDB p.1 (delete name (namespace d)) (delete name (paths d))
            (delete name (modtimes d)) ts (quarantine d), p.2)
  end.

(** The metrics part of [Delete]: a removed blob's size is counted. *)
Definition count_evicted (orphan : bytes) s : CASStore B :=
  match objects (db s) !! orphan with
  | Some (x :: val) =>
      match decodeObjectMeta (x :: val) with
      | Ok m => if 0 <? Size m then add_gc 0 (Size m) s else s
      | Err _ => s
      end
  | _ => s
  end.

(** Removing an orphan's bytes, then its record; [evicted] tells whether the
    size is added to the eviction counter. *)
Definition reap_orphan (evicted : bool) (orphan : bytes) s : CASStore B :=
  match orphan with
  | [] => s
  | _ =>
      let '(r, b) := DeleteBlob (blobs s) orphan in
      let s := with_blobs b s in
      match r with
      | Err _ => s
      | Ok _ =>
          let s := if evicted then count_evicted orphan s else s in
          with_db (set_objects (delete orphan (objects (db s))) (db s)) s
      end
  end.

Definition Delete s (name : bytes) (now : Z) : result unit * CASStore B :=
  match delete_tx (Errno EIO) name now (db s) with
  | Err e => (Err e, s)
  | Ok (d, orphan) => (Ok tt, invalidateCache (reap_orphan true orphan (with_db d s)) name)
  end.

(** ** Tombstone exchange (gc.go) *)
Definition stamp (v : bytes) : option Z :=
  if (8 <=? length v)%nat then Some (int64 (get_be (take 8 v))) else None.

Definition GetTombstones s : gmap bytes Z := omap stamp (tombstones (db s)).

Definition tombstone_covers s (name : bytes) (deletedAt : Z) : bool :=
  match tombstones (db s) !! name with
  | Some ex => (8 <=? length ex)%nat && (deletedAt <=? int64 (get_be (take 8 ex)))
  | None => false
  end.

Definition ApplyTombstone s (name : bytes) (deletedAt : Z) : result unit * CASStore B :=
  if tombstone_covers s name deletedAt then (Ok tt, s)
  else match delete_tx ErrPlain name deletedAt (db s) with
  | Err e => (Err e, s)
  | Ok (d, orphan) => (Ok tt, reap_orphan false orphan (with_db d s))
  end.

(** ** Garbage collection (gc.go) *)

(** [sweepOrphanedBlobs]: the hashes to remove and their byte count. *)
Fixpoint orphan_scan (entries : list (bytes * bytes)) : result (list bytes * Z) :=
  match entries with
  | [] => Ok ([], 0)
  | (k, v) :: rest =>
      if decide (length v = 24%nat) then
        let! m := decodeObjectMeta v in
        let! tl := orphan_scan rest in
        if RefCount m <=? 0 then Ok (k :: tl.1, Z.max (Size m) 0 + tl.2) else Ok tl
      else orphan_scan rest
  end.

Definition delete_blobs (b : B) (hashes : list bytes) : B :=
  foldl (λ b h, (DeleteBlob b h).2) b hashes.

Definition sweepOrphanedBlobs s : result unit * CASStore B :=
  match orphan_scan (cursor (objects (db s))) with
  | Err e => (Err e, s)
  | Ok (orphans, evicted) =>
      let obj := foldl (λ o h, delete h o) (objects (db s)) orphans in
      let s := with_blobs (delete_blobs (blobs s) orphans) (with_db (set_objects obj (db s)) s) in
      (Ok tt, match orphans with [] => s | _ => add_gc 0 evicted s end)
  end.

Definition expired (cutoff : Z) (v : bytes) : bool :=
  if (length v <? 8)%nat then true else int64 (get_be (take 8 v)) <? cutoff.

Definition sweepExpiredTombstones s (retention now : Z) : CASStore B :=
  let names := (filter (λ kv, expired (now - retention) kv.2 = true)
                  (cursor (tombstones (db s)))).*1 in
  with_db (set_tombstones (foldl (λ t n, delete n t) (tombstones (db s)) names) (db s)) s.

Definition runGC s (retention now : Z) : result unit * CASStore B :=
  let '(r, s) := sweepOrphanedBlobs s in
  match r with
  | Err e => (Err e, s)
  | Ok _ => (Ok tt, add_gc 1 0 (sweepExpiredTombstones s retention now))
  end.
End Store.

(** ** Consistency

    [refcount] is what the object record says, [names_in] how many names point
    at the hash.  [cas_inv] says that the whole store is consistent: no record
    under-counts its names and every recorded object has its bytes.  Puts that
    bring content, deletes, tombstones and garbage collection keep it; a put
    without content, the scrubber and the dropping of a shed blob need not
    (CasRuns.v), so it is a hypothesis wherever it is used, not a fact about
    every store.  CasDigest.v has the same facts for a single digest. *)
Definition refcount (d : DB) (h : bytes) : Z :=
  match objects d !! h with
  | Some v => match decodeObjectMeta v with Ok m => RefCount m | Err _ => 0 end
  | None => 0
  end.

Definition names_in (ns : bucket bytes) (h : bytes) : nat :=
  size (filter (λ kv : bytes * bytes, kv.2 = h) ns).

Definition record_ok (v : bytes) : Prop :=
  ∃ m, decodeObjectMeta v = Ok m ∧ meta_ok m ∧ ShardKey m = [] ∧ 0 <= RefCount m ∧ 0 <= Size m.

Record db_inv (d : DB) : Prop := {
  di_obj : ∀ h v, objects d !! h = Some v → record_ok v;
  di_ref : ∀ h, Z.of_nat (names_in (namespace d) h) <= refcount d h;
  di_tomb : ∀ n, is_Some (tombstones d !! n) → namespace d !! n = None
}.

Record cas_inv {B} `{BlobStoreSpec B} (s : CASStore B) : Prop := {
  ci_blob : blob_inv (blobs s);
  ci_db : db_inv (db s);
  ci_bytes : ∀ h, is_Some (objects (db s) !! h) → is_Some (blob_view (blobs s) !! h)
}.

(** ** Lemmas: counting names *)
Lemma names_insert ns name hash h :
  (names_in (<[name := hash]> ns) h <= names_in ns h + (if decide (hash = h) then 1 else 0))%nat.
Proof.
  unfold names_in. case_decide as E.
  - rewrite map_filter_insert_True by done. rewrite map_size_insert. destruct (_ !! _); unfold id; lia.
  - rewrite map_filter_insert_False by done. rewrite map_filter_delete, map_size_delete.
    destruct (_ !! _); unfold id; lia.
Qed.

Lemma names_delete ns name h :
  names_in (delete name ns) h
  = (names_in ns h - (if decide (ns !! name = Some h) then 1 else 0))%nat.
Proof.
  unfold names_in. rewrite map_filter_delete, map_size_delete. case_decide as E.
  - rewrite (proj2 (map_lookup_filter_Some _ ns name h)) by done. lia.
  - destruct (filter _ ns !! name) as [h'|] eqn:E'; [|unfold id; lia].
    apply map_lookup_filter_Some in E' as [Hn Hh]. simpl in Hh. congruence.
Qed.

Lemma names_pos ns name h : ns !! name = Some h → (0 < names_in ns h)%nat.
Proof.
  intros Hn. unfold names_in. apply Nat.neq_0_lt_0. intros E%map_size_empty_inv.
  assert (filter (λ kv : bytes * bytes, kv.2 = h) ns !! name = Some h) as Hf
    by (by apply map_lookup_filter_Some).
  rewrite E in Hf. by apply lookup_empty_Some in Hf.
Qed.

(** ** Lemmas: timestamps *)
Lemma stamp_read z : is_int64 z → int64 (get_be (take 8 (put_be 8 (uint64 z)))) = z.
Proof.
  intros Hz. rewrite take_ge by (rewrite length_put_be; lia).
  rewrite get_be_put_be8, !int64_uint64. by apply int64_id.
Qed.

Lemma stamp_put z : is_int64 z → stamp (put_be 8 (uint64 z)) = Some z.
Proof. intros Hz. unfold stamp. rewrite length_put_be. simpl Nat.leb. f_equal. by apply stamp_read. Qed.

(** ** Lemmas: object records *)
Lemma record_ok_encode m :
  meta_ok m → ShardKey m = [] → 0 <= RefCount m → 0 <= Size m →
  decodeObjectMeta (encode m) = Ok m ∧ record_ok (encode m).
Proof. intros ????. pose proof (decode_encode m). split; [auto|]. exists m. auto. Qed.

Lemma refcount_insert d h k v :
  refcount (set_objects (<[h := v]> (objects d)) d) k
  = if decide (h = k) then match decodeObjectMeta v with Ok m => RefCount m | Err _ => 0 end
    else refcount d k.
Proof. unfold refcount. cbn [objects set_objects]. rewrite lookup_insert. by case_decide. Qed.

Lemma refcount_nonneg d h : db_inv d → 0 <= refcount d h.
Proof.
  intros Hi. unfold refcount. destruct (objects d !! h) as [v|] eqn:E; [|lia].
  destruct (di_obj d Hi h v E) as (m & -> & _ & _ & ? & _). done.
Qed.

Lemma bput_Some {V} k (v : V) b b' : bput k v b = Some b' → b' = <[k := v]> b ∧ k ≠ [].
Proof.
  unfold bput. destruct (_ || _) eqn:E; [discriminate|]. intros [= <-]. split; [done|].
  intros ->. discriminate E.
Qed.

(** The keys bbolt accepts; acceptance does not depend on the bucket. *)
Definition key_ok (k : bytes) : Prop :=
  (Z.of_nat (length k) =? 0) || (32768 <? Z.of_nat (length k)) = false.

Lemma bput_key {V} k (v : V) b b' : bput k v b = Some b' → key_ok k.
Proof. unfold bput, key_ok. by destruct (_ || _). Qed.

Lemma bput_ok {V} k (v : V) b : key_ok k → bput k v b = Some (<[k := v]> b).
Proof. unfold bput, key_ok. by intros ->. Qed.

(** ** Put: lemmas *)

(** The record a plain [Put] writes. *)
Definition put_record (d : DB) (hash : bytes) (size : Z) (m' : ObjectMeta) : Prop :=
  match objects d !! hash with
  | Some v => ∃ m, decodeObjectMeta v = Ok m ∧
      m' = mkObjectMeta (Size m) (int64 (RefCount m + 1)) (DeletedAt m)
             (VectorClock m) (ShardKey m) (MetadataReplicas m)
  | None => m' = mkObjectMeta size 1 0 [] [] []
  end.

Lemma put_tx_Ok name hash size rp now d d' :
  put_tx name hash size rp [] [] [] now d = Ok d' →
  ∃ m' p, put_record d hash size m'
    ∧ d' = mkDB (<[hash := encode m']> (objects d)) (<[name := hash]> (namespace d)) p
             (<[name := put_be 8 (uint64 now)]> (modtimes d)) (delete name (tombstones d))
             (quarantine d)
    ∧ (p = paths d ∧ rp = []
       ∨ ∃ q, NormalizeVirtualPath rp = Ok q ∧ p = <[name := q]> (paths d))
    ∧ hash ≠ [] ∧ name ≠ [] ∧ Z.of_nat (length name) <= FileInfoLength.
Proof.
  unfold put_tx. destruct (bput name hash _) as [ns|] eqn:E1; [|discriminate].
  apply bput_Some in E1 as [-> Hn].
  destruct (match objects d !! hash with Some _ => _ | None => _ end) as [m'|] eqn:Em; [|discriminate].
  destruct (bput hash _ _) as [obj|] eqn:E2; [|discriminate]. apply bput_Some in E2 as [-> Hh].
  destruct (bput name (put_be _ _) _) as [mt|] eqn:E3; [|discriminate]. apply bput_Some in E3 as [-> _].
  destruct (FileInfoLength <? _) eqn:E4; [discriminate|]. zbool. intros Hd.
  exists m'.
  assert (put_record d hash size m') as Hrec.
  { unfold put_record. destruct (objects d !! hash) as [v|].
    - destruct (decodeObjectMeta v) as [m|] eqn:Ed; [|discriminate]. exists m. split; [done|].
      by injection Em as <-.
    - by injection Em as <-. }
  replace (mkObjectMeta (Size m') (RefCount m') (DeletedAt m') (VectorClock m') _ _) with m' in Hd
    by (destruct m' as [? ? ? ? sk mr]; cbn; destruct sk, mr; done).
  destruct rp as [|x rp].
  - injection Hd as <-. exists (paths d). split_and!; try done. by left.
  - destruct (NormalizeVirtualPath (x :: rp)) as [q|]; [|discriminate].
    destruct (bput name q _) as [p|] eqn:E5; [|discriminate]. apply bput_Some in E5 as [-> _].
    injection Hd as <-. eexists. split_and!; try done. right. by exists q.
Qed.

Lemma put_tx_keys name hash size rp now d d' :
  put_tx name hash size rp [] [] [] now d = Ok d' → key_ok name ∧ key_ok hash.
Proof.
  unfold put_tx. destruct (bput name hash _) as [ns|] eqn:E1; [|discriminate].
  destruct (match objects d !! hash with Some _ => _ | None => _ end) as [m'|]; [|discriminate].
  destruct (bput hash _ _) as [obj|] eqn:E2; [|discriminate]. intros _.
  split; eauto using bput_key.
Qed.

Lemma put_record_ok d hash size m' :
  db_inv d → put_record d hash size m' → is_int64 size → 0 <= size →
  refcount d hash < MaxInt64 →
  decodeObjectMeta (encode m') = Ok m' ∧ record_ok (encode m') ∧ RefCount m' = refcount d hash + 1.
Proof.
  intros Hi Hr Hs H0 Hmax. unfold put_record, refcount in *.
  destruct (objects d !! hash) as [v|] eqn:Ev.
  - destruct Hr as (m & Hd & ->). destruct (di_obj d Hi hash v Ev) as (m0 & Hd0 & Hok & Hsk & Hrc & Hsz).
    assert (m0 = m) as -> by congruence. rewrite Hd in Hmax |- *.
    rewrite int64_id by (unfold is_int64, MaxInt64 in *; lia).
    destruct (record_ok_encode (mkObjectMeta (Size m) (RefCount m + 1) (DeletedAt m) (VectorClock m)
                                  (ShardKey m) (MetadataReplicas m))) as [? ?]; try done.
    + destruct Hok. split; cbn; try done. unfold is_int64, MaxInt64 in *. lia.
    + cbn. lia.
  - subst m'. destruct (record_ok_encode (mkObjectMeta size 1 0 [] [] [])) as [? ?]; done.
Qed.

Lemma put_db_inv name hash size rp now d d' :
  db_inv d → put_tx name hash size rp [] [] [] now d = Ok d' →
  is_int64 size → 0 <= size → refcount d hash < MaxInt64 → db_inv d'.
Proof.
  intros Hi Hp Hs H0 Hmax. apply put_tx_Ok in Hp as (m' & p & Hr & -> & _).
  destruct (put_record_ok d hash size m' Hi Hr Hs H0 Hmax) as (Hd & Hrec & Hcnt).
  split; cbn [objects namespace tombstones].
  - intros h v. rewrite lookup_insert. case_decide; [by intros [= <-]|]. by apply (di_obj d Hi).
  - intros h. pose proof (names_insert (namespace d) name hash h) as Hn.
    pose proof (di_ref d Hi h) as Hh. unfold refcount at 1. cbn [objects]. rewrite lookup_insert.
    destruct (decide (hash = h)) as [<-|Hne].
    + rewrite Hd, Hcnt. lia.
    + unfold refcount in Hh. lia.
  - intros n. rewrite lookup_delete, lookup_insert. case_decide; [by intros []|]. apply (di_tomb d Hi).
Qed.

Section StoreProofs.
Context {B : Type} `{Hspec : BlobStoreSpec B}.
Implicit Types (s : CASStore B).

Lemma put_blob_phase_spec s hash r res s' :
  cas_inv s → put_blob_phase s hash (Some r) = (res, s') →
  db s' = db s ∧ blob_inv (blobs s')
  ∧ (∀ k, k ≠ hash → blob_view (blobs s') !! k = blob_view (blobs s) !! k)
  ∧ (is_Some (blob_view (blobs s) !! hash) → is_Some (blob_view (blobs s') !! hash))
  ∧ (res = Ok tt → is_Some (blob_view (blobs s') !! hash))
  ∧ (res = Ok tt → objects (db s) !! hash = None →
     (∃ c, read_all r = Ok c ∧ blob_view (blobs s') !! hash = Some c)
     ∨ is_Some (blob_view (blobs s) !! hash))
  ∧ VerifyOnRead s' = VerifyOnRead s.
Proof.
  intros Hi. unfold put_blob_phase.
  destruct (match hasInternal s hash with true => _ | false => _ end) as [ex|e] eqn:Ep;
    [|intros [= <- <-]; split_and!; try done; apply Hi].
  assert (ex = true → is_Some (blob_view (blobs s) !! hash)
          ∧ is_Some (objects (db s) !! hash)) as Hex.
  { intros ->. unfold hasInternal in Ep. case_bool_decide as Ho; [|discriminate Ep].
    split; [|done]. by apply (ci_bytes s Hi). }
  destruct ex.
  { destruct (Hex eq_refl) as [Hv Hob].
    destruct (rd_err r); intros [= <- <-]; split_and!; try done; try apply Hi;
      intros _ Hn; rewrite Hn in Hob; by destruct Hob. }
  destruct (PutBlob (blobs s) hash r) as [pres b] eqn:Epb.
  pose proof (put_inv (blobs s) hash r (ci_blob s Hi)) as Hbi. rewrite Epb in Hbi. simpl in Hbi.
  destruct pres as [[]|e].
  - assert (∀ res, db (with_blobs b s) = db s ∧ blob_inv b
      ∧ (∀ k, k ≠ hash → blob_view b !! k = blob_view (blobs s) !! k)
      ∧ (is_Some (blob_view (blobs s) !! hash) → is_Some (blob_view b !! hash))
      ∧ (res = Ok tt → is_Some (blob_view b !! hash))
      ∧ (res = Ok tt → objects (db s) !! hash = None →
         (∃ c, read_all r = Ok c ∧ blob_view b !! hash = Some c)
         ∨ is_Some (blob_view (blobs s) !! hash))
      ∧ VerifyOnRead (with_blobs b s) = VerifyOnRead s) as Hgo.
    { intros res0. destruct (put_ok (blobs s) hash r b (ci_blob s Hi) Epb) as [(c & Hc & Hv)|[Hv Hold]];
        rewrite Hv; split_and!; try done.
      - intros k Hk. by rewrite lookup_insert_ne by congruence.
      - intros _. rewrite lookup_insert_eq. eauto.
      - intros _. rewrite lookup_insert_eq. eauto.
      - intros _ _. left. exists c. by rewrite lookup_insert_eq.
      - intros _ _. by right. }
    change (durability (with_blobs b s)) with (durability s).
    destruct (durability s) as [commit|]; intros [= <- <-]; apply Hgo.
  - intros [= <- <-]. pose proof (put_err (blobs s) hash r e b (ci_blob s Hi) Epb) as Hv.
    cbn [blobs with_blobs]. rewrite Hv. split_and!; done.
Qed.

(** Every outcome of a [Put] with content keeps the store consistent. *)
Lemma Put_inv s name hash size rp r now :
  cas_inv s → is_int64 size → 0 <= size → refcount (db s) hash < MaxInt64 →
  cas_inv (Put s name hash size rp (Some r) now).2.
Proof.
  intros Hi Hs Hz Hmax. unfold Put, PutWithMetadata.
  destruct (HasPathTraversalChars hash); [done|].
  destruct (put_blob_phase s hash (Some r)) as [res s1] eqn:Ep.
  apply put_blob_phase_spec in Ep as (Hdb & Hbi & Hoth & Hkeep & Hok & _ & _); [|done].
  assert (∀ h, is_Some (objects (db s) !! h) → is_Some (blob_view (blobs s1) !! h)) as Hbytes.
  { intros h Hh. destruct (decide (h = hash)) as [->|Hne].
    - apply Hkeep, (ci_bytes s Hi), Hh.
    - rewrite Hoth by done. apply (ci_bytes s Hi), Hh. }
  assert (cas_inv s1) as Hi1.
  { split; [done|rewrite Hdb; apply Hi|rewrite Hdb; apply Hbytes]. }
  destruct res as [[]|e]; [|done]. rewrite Hdb.
  destruct (put_tx _ _ _ _ _ _ _ _ _) as [d'|e] eqn:Et; [|done].
  split; cbn [blobs db invalidateCache with_cache with_db snd].
  - done.
  - eapply put_db_inv; [apply Hi|exact Et|done|done|done].
  - apply put_tx_Ok in Et as (m' & p & _ & -> & _). cbn [objects]. intros h.
    rewrite lookup_insert. case_decide; [subst h; intros _; by apply Hok|apply Hbytes].
Qed.

(** ** Delete: lemmas *)
Lemma drop_ref_spec name at_ d obj orphan :
  db_inv d → is_int64 at_ → drop_ref name at_ d = Ok (obj, orphan) →
  match namespace d !! name with
  | None => obj = objects d ∧ orphan = []
  | Some hash => ∃ v m m', objects d !! hash = Some v ∧ decodeObjectMeta v = Ok m
      ∧ obj = <[hash := encode m']> (objects d)
      ∧ decodeObjectMeta (encode m') = Ok m' ∧ record_ok (encode m')
      ∧ Size m' = Size m ∧ RefCount m' = RefCount m - 1 ∧ 1 <= RefCount m
      ∧ orphan = (if RefCount m - 1 <=? 0 then hash else [])
  end.
Proof.
  intros Hi Ha. unfold drop_ref. destruct (namespace d !! name) as [hash|] eqn:En; [|by intros [= <- <-]].
  pose proof (names_pos _ _ _ En) as Hpos. pose proof (di_ref d Hi hash) as Href.
  unfold refcount in Href. destruct (objects d !! hash) as [v|] eqn:Ev; [|lia].
  destruct (di_obj d Hi hash v Ev) as (m & Hm & Hok & Hsk & Hrc & Hsz). rewrite Hm in Href |- *.
  destruct Hok as [O1 O2 O3 O4 O5 O6 O7 O8].
  rewrite int64_id by (unfold is_int64 in *; lia).
  destruct (bput hash _ _) as [obj'|] eqn:Eb; [|discriminate]. apply bput_Some in Eb as [-> _].
  intros [= <- <-]. set (m' := mkObjectMeta _ _ _ _ _ _).
  assert (RefCount m' = RefCount m - 1) as Hrc'.
  { unfold m'. cbn [RefCount]. destruct (_ <=? 0) eqn:E; zbool; lia. }
  destruct (record_ok_encode m') as [Hdec Hrec]; [|done|lia|done|].
  - unfold m'. split; cbn; try done.
    + destruct (_ <=? 0); unfold is_int64 in *; lia.
    + destruct (_ <=? 0); done.
  - exists v, m, m'. split_and!; try done. lia.
Qed.

(** The delete transaction: the invariant, and which names an orphan has left. *)
Lemma delete_tx_spec perr name at_ d d' orphan :
  db_inv d → is_int64 at_ → delete_tx perr name at_ d = Ok (d', orphan) →
  db_inv d' ∧ namespace d' = delete name (namespace d)
  ∧ tombstones d' = <[name := put_be 8 (uint64 at_)]> (tombstones d)
  ∧ paths d' = delete name (paths d) ∧ modtimes d' = delete name (modtimes d)
  ∧ quarantine d' = quarantine d
  ∧ (orphan ≠ [] → names_in (namespace d') orphan = O)
  ∧ (∀ k, is_Some (objects d' !! k) ↔ is_Some (objects d !! k))
  ∧ (∀ k v, objects d !! k = Some v → ∃ v' m m', objects d' !! k = Some v'
       ∧ decodeObjectMeta v = Ok m ∧ decodeObjectMeta v' = Ok m' ∧ Size m' = Size m).
Proof.
  intros Hi Ha. unfold delete_tx. destruct (bput _ _ (tombstones d)) as [ts|] eqn:Eb; [|discriminate].
  apply bput_Some in Eb as [-> Hne].
  destruct (drop_ref name at_ d) as [[obj o]|] eqn:Ed; [|discriminate]. intros [= <- <-].
  apply drop_ref_spec in Ed; [|done|done].
  cbn [objects namespace tombstones paths modtimes quarantine fst snd].
  assert (∀ n, is_Some (<[name:=put_be 8 (uint64 at_)]> (tombstones d) !! n) →
            delete name (namespace d) !! n = None) as Ht.
  { intros n. rewrite lookup_insert, lookup_delete. case_decide; [done|]. apply (di_tomb d Hi). }
  destruct (namespace d !! name) as [hash|] eqn:En.
  - destruct Ed as (v & m & m' & Ev & Hm & -> & Hdec & Hrec & Hsz & Hrc & Hge & ->).
    assert (∀ h, names_in (delete name (namespace d)) h
                 = (names_in (namespace d) h - (if decide (hash = h) then 1 else 0))%nat) as Hcnt.
    { intros h. rewrite names_delete, En. repeat case_decide; congruence. }
    split_and!; try done.
    + split; cbn [objects namespace tombstones]; [| |done].
      * intros k w. rewrite lookup_insert. case_decide; [by intros [= <-]|]. by apply (di_obj d Hi).
      * intros k. rewrite Hcnt. pose proof (di_ref d Hi k) as Hk. unfold refcount in Hk |- *.
        cbn [objects]. rewrite lookup_insert. destruct (decide (hash = k)) as [<-|Hne'].
        -- rewrite Ev, Hm in Hk. rewrite Hdec, Hrc. lia.
        -- lia.
    + destruct (_ <=? 0) eqn:E; [|done]. intros _. zbool. rewrite Hcnt, decide_True by done.
      pose proof (di_ref d Hi hash) as Hk. unfold refcount in Hk. rewrite Ev, Hm in Hk. lia.
    + intros k. rewrite lookup_insert. case_decide; [subst; rewrite Ev; naive_solver|done].
    + intros k w Hw. rewrite lookup_insert. case_decide as E.
      * subst k. exists (encode m'), m, m'. simplify_eq. done.
      * destruct (di_obj d Hi k w Hw) as (m0 & Hm0 & _). exists w, m0, m0. done.
  - destruct Ed as [-> ->]. rewrite (delete_id _ _ En) in *. split_and!; try done.
    + split; cbn [objects namespace tombstones]; [apply Hi|apply Hi|done].
    + intros k w Hw. destruct (di_obj d Hi k w Hw) as (m0 & Hm0 & _). exists w, m0, m0. done.
Qed.

(** On a well-formed database the delete transaction of a stored name succeeds. *)
Lemma delete_tx_total perr name hash at_ d :
  db_inv d → namespace d !! name = Some hash → key_ok name → key_ok hash →
  ∃ x, delete_tx perr name at_ d = Ok x.
Proof.
  intros Hi En Kn Kh. unfold delete_tx. rewrite bput_ok by done. unfold drop_ref. rewrite En.
  destruct (objects d !! hash) as [v|] eqn:Ev; [|by eexists].
  destruct (di_obj d Hi hash v Ev) as (m & -> & _). rewrite bput_ok by done. by eexists.
Qed.

(** Reaping a hash no name points at. *)
Lemma reap_spec ev orphan s :
  cas_inv s → (orphan ≠ [] → names_in (namespace (db s)) orphan = O) →
  let s' := reap_orphan ev orphan s in
  cas_inv s' ∧ namespace (db s') = namespace (db s) ∧ tombstones (db s') = tombstones (db s)
  ∧ paths (db s') = paths (db s) ∧ modtimes (db s') = modtimes (db s)
  ∧ quarantine (db s') = quarantine (db s) ∧ VerifyOnRead s' = VerifyOnRead s
  ∧ (∀ k, k ≠ orphan → objects (db s') !! k = objects (db s) !! k
                       ∧ blob_view (blobs s') !! k = blob_view (blobs s) !! k).
Proof.
  intros Hi Hn. unfold reap_orphan. destruct orphan as [|x o] eqn:Eo; [done|].
  rewrite <- Eo in *. specialize (Hn ltac:(by rewrite Eo)). clear Eo x o.
  destruct (DeleteBlob (blobs s) orphan) as [r b] eqn:Eb.
  pose proof (delete_inv (blobs s) orphan (ci_blob s Hi)) as Hbi. rewrite Eb in Hbi. simpl in Hbi.
  destruct r as [[]|e].
  - pose proof (delete_ok (blobs s) orphan b (ci_blob s Hi) Eb) as Hv.
    set (s1 := if ev then _ else _).
    assert (db s1 = db s ∧ blobs s1 = b ∧ VerifyOnRead s1 = VerifyOnRead s) as (E1 & E2 & E3).
    { unfold s1, count_evicted. repeat case_match; done. }
    clearbody s1. cbn zeta. cbn [db with_db blobs set_objects namespace tombstones paths modtimes quarantine objects VerifyOnRead].
    rewrite E1, E2. split_and!; try done.
    + split; cbn [db with_db blobs]; rewrite ?E2; [done| |].
      * destruct (ci_db s Hi) as [Do Dr Dt]. split; cbn [objects namespace set_objects tombstones]; [| |done].
        -- intros h v [_ Hv']%lookup_delete_Some. by apply Do in Hv'.
        -- intros h. specialize (Dr h). unfold refcount in *. cbn [objects set_objects].
           rewrite lookup_delete. case_decide; [subst h; rewrite Hn; simpl; lia|done].
      * intros h. cbn [objects set_objects]. rewrite Hv, !lookup_delete.
        case_decide; [by intros []|]. apply (ci_bytes s Hi).
    + intros k Hk. rewrite Hv, !lookup_delete_ne by congruence. done.
  - pose proof (delete_err (blobs s) orphan e b (ci_blob s Hi) Eb) as Hv.
    cbn zeta. cbn [db with_blobs blobs VerifyOnRead]. rewrite Hv. split_and!; try done.
    split; cbn [db with_blobs blobs]; [done|apply Hi|rewrite Hv; apply Hi].
Qed.

Lemma Delete_inv s name now : cas_inv s → is_int64 now → cas_inv (Delete s name now).2.
Proof.
  intros Hi Hn. unfold Delete. destruct (delete_tx _ name now (db s)) as [[d o]|] eqn:E; [|done].
  apply delete_tx_spec in E as (Hd & _ & _ & _ & _ & _ & Ho & Hex & _); [|apply Hi|done].
  cbn [snd]. assert (cas_inv (with_db d s)) as Hi'.
  { split; [apply Hi|done|]. intros h Hh. apply (ci_bytes s Hi), Hex, Hh. }
  destruct (reap_spec true o (with_db d s) Hi' Ho) as [[] _]. by split.
Qed.

Lemma ApplyTombstone_inv s name at_ : cas_inv s → is_int64 at_ → cas_inv (ApplyTombstone s name at_).2.
Proof.
  intros Hi Hn. unfold ApplyTombstone. destruct (tombstone_covers _ _ _); [done|].
  destruct (delete_tx _ name at_ (db s)) as [[d o]|] eqn:E; [|done].
  apply delete_tx_spec in E as (Hd & _ & _ & _ & _ & _ & Ho & Hex & _); [|apply Hi|done].
  cbn [snd]. assert (cas_inv (with_db d s)) as Hi'.
  { split; [apply Hi|done|]. intros h Hh. apply (ci_bytes s Hi), Hex, Hh. }
  apply (reap_spec false o (with_db d s) Hi' Ho).
Qed.
End StoreProofs.

(** ** Garbage collection: lemmas *)
Lemma orphan_scan_spec l hs n :
  orphan_scan l = Ok (hs, n) →
  ∀ h, h ∈ hs → ∃ v m, (h, v) ∈ l ∧ length v = 24%nat ∧ decodeObjectMeta v = Ok m ∧ RefCount m <= 0.
Proof.
  revert hs n. induction l as [|[k v] l IH]; intros hs n; cbn [orphan_scan].
  - intros [= <- <-] h Hh. by apply not_elem_of_nil in Hh.
  - case_decide as E24.
    + destruct (decodeObjectMeta v) as [m|] eqn:Ed; [|discriminate].
      destruct (orphan_scan l) as [[hs' n']|] eqn:El; [|discriminate].
      destruct (RefCount m <=? 0) eqn:Er; intros [= <- <-] h Hh; zbool.
      * apply elem_of_cons in Hh as [->|Hh]; [exists v, m; split_and!; [left|..]; done|].
        destruct (IH _ _ eq_refl h Hh) as (v' & m' & ? & ?). exists v', m'. split; [by right|done].
      * destruct (IH _ _ eq_refl h Hh) as (v' & m' & ? & ?). exists v', m'. split; [by right|done].
    + intros El h Hh. destruct (IH _ _ El h Hh) as (v' & m' & ? & ?). exists v', m'. split; [by right|done].
Qed.

Lemma orphan_scan_none l :
  Forall (λ kv : bytes * bytes, length kv.2 ≠ 24%nat) l → orphan_scan l = Ok ([], 0).
Proof.
  induction 1 as [|[k v] l Hv Hf IH]; [done|]. cbn [orphan_scan]. by rewrite decide_False.
Qed.

Lemma foldl_delete_lookup {V} (hs : list bytes) (m : bucket V) k :
  foldl (λ o h, delete h o) m hs !! k = if decide (k ∈ hs) then None else m !! k.
Proof.
  revert m. induction hs as [|h hs IH]; intros m; cbn [foldl].
  - rewrite decide_False by set_solver. done.
  - rewrite IH. destruct (decide (k ∈ hs)).
    + by rewrite decide_True by set_solver.
    + rewrite lookup_delete. destruct (decide (h = k)) as [<-|].
      * by rewrite decide_True by set_solver.
      * by rewrite decide_False by set_solver.
Qed.

Section GcProofs.
Context {B : Type} `{Hspec : BlobStoreSpec B}.
Implicit Types (s : CASStore B).

Lemma delete_blobs_spec (b : B) hs :
  blob_inv b → blob_inv (delete_blobs b hs)
  ∧ ∀ k, k ∉ hs → blob_view (delete_blobs b hs) !! k = blob_view b !! k.
Proof.
  revert b. induction hs as [|h hs IH]; intros b Hb; [done|].
  unfold delete_blobs in *. cbn [foldl]. destruct (DeleteBlob b h) as [r b'] eqn:E.
  pose proof (delete_inv b h Hb) as Hb'. rewrite E in Hb'. simpl in *.
  destruct (IH b' Hb') as [? Hk]. split; [done|]. intros k Hn. rewrite Hk by set_solver.
  destruct r as [[]|e].
  - rewrite (delete_ok b h b' Hb E), lookup_delete_ne; [done|set_solver].
  - by rewrite (delete_err b h e b' Hb E).
Qed.

(** The sweep removes only hashes no name points at. *)
Lemma sweep_spec s res s' :
  cas_inv s → sweepOrphanedBlobs s = (res, s') →
  cas_inv s' ∧ namespace (db s') = namespace (db s) ∧ tombstones (db s') = tombstones (db s)
  ∧ paths (db s') = paths (db s) ∧ modtimes (db s') = modtimes (db s)
  ∧ quarantine (db s') = quarantine (db s) ∧ VerifyOnRead s' = VerifyOnRead s
  ∧ ∀ k, (0 < names_in (namespace (db s)) k)%nat →
      objects (db s') !! k = objects (db s) !! k
      ∧ blob_view (blobs s') !! k = blob_view (blobs s) !! k.
Proof.
  intros Hi. unfold sweepOrphanedBlobs.
  destruct (orphan_scan _) as [[hs n]|] eqn:Eo; [|by intros [= <- <-]].
  assert (∀ h, h ∈ hs → names_in (namespace (db s)) h = O) as Hz.
  { intros h Hh. destruct (orphan_scan_spec _ _ _ Eo h Hh) as (v & m & Hin%elem_of_cursor & _ & Hd & Hr).
    pose proof (di_ref _ (ci_db s Hi) h) as Hk. unfold refcount in Hk. rewrite Hin, Hd in Hk. lia. }
  destruct (delete_blobs_spec (blobs s) hs (ci_blob s Hi)) as [Hbi Hbv].
  set (obj := foldl _ _ hs). intros [= <- <-].
  set (s1 := with_blobs _ _).
  assert (cas_inv s1) as Hi1.
  { split; cbn [s1 db blobs with_blobs with_db]; [done| |].
    - destruct (ci_db s Hi) as [Do Dr Dt]. split; cbn [objects namespace tombstones set_objects]; [| |done].
      + intros h v. unfold obj. rewrite foldl_delete_lookup. case_decide; [done|]. apply Do.
      + intros h. specialize (Dr h). unfold refcount in *. cbn [objects set_objects]. unfold obj.
        rewrite foldl_delete_lookup. case_decide; [rewrite Hz by done; simpl; lia|done].
    - intros h. cbn [objects set_objects]. unfold obj. rewrite foldl_delete_lookup.
      case_decide; [by intros []|]. rewrite Hbv by done. apply (ci_bytes s Hi). }
  assert (∀ k, (0 < names_in (namespace (db s)) k)%nat →
     objects (db s1) !! k = objects (db s) !! k
     ∧ blob_view (blobs s1) !! k = blob_view (blobs s) !! k) as Hk.
  { intros k Hp. assert (k ∉ hs) as Hnk by (intros Hin; rewrite Hz in Hp by done; lia).
    cbn [s1 db blobs with_blobs with_db objects set_objects]. unfold obj.
    rewrite foldl_delete_lookup, decide_False by done. by rewrite Hbv by done. }
  destruct hs; [done|]. destruct Hi1. by split.
Qed.

Lemma runGC_inv s retention now : cas_inv s → cas_inv (runGC s retention now).2.
Proof.
  intros Hi. unfold runGC. destruct (sweepOrphanedBlobs s) as [r s1] eqn:E.
  apply sweep_spec in E as ([Hb Hd Hby] & _); [|done]. destruct r; [|done].
  cbn [snd]. split; cbn [add_gc blobs db sweepExpiredTombstones with_db]; [done| |done].
  destruct Hd as [Do Dr Dt]. split; cbn [objects namespace tombstones set_tombstones]; [done|done|].
  intros n. rewrite foldl_delete_lookup. case_decide; [by intros []|]. apply Dt.
Qed.
End GcProofs.

(** ** Consistent stores: the marks, the empty store, reading a visible name *)
Section Consistent.
Context {B : Type} `{Hspec : BlobStoreSpec B}.

Lemma put_quarantine (s : CASStore B) name hash size rp r now :
  quarantine (db (Put s name hash size rp (Some r) now).2) = quarantine (db s)
  ∧ VerifyOnRead (Put s name hash size rp (Some r) now).2 = VerifyOnRead s.
Proof.
  unfold Put, PutWithMetadata. destruct (HasPathTraversalChars hash); [done|].
  destruct (put_blob_phase s hash (Some r)) as [res s1] eqn:Ep.
  assert (db s1 = db s ∧ VerifyOnRead s1 = VerifyOnRead s) as [Hd Hv].
  { unfold put_blob_phase in Ep. repeat case_match; simplify_eq; done. }
  destruct res; [|cbn; by rewrite Hd].
  destruct (put_tx _ _ _ _ _ _ _ _ _) as [d|] eqn:Et; [|cbn; by rewrite Hd].
  apply put_tx_Ok in Et as (m & p & _ & -> & _). cbn. by rewrite <- Hd.
Qed.

Lemma new_inv (b : B) : blob_inv b → cas_inv (newCASStore b).
Proof.
  intros Hb. split; cbn [newCASStore blobs db objects]; [done| |].
  - split; cbn [objects namespace tombstones].
    + intros h v Hv. by apply lookup_empty_Some in Hv.
    + intros h. unfold names_in. rewrite map_filter_empty, map_size_empty.
      unfold refcount. cbn [objects]. rewrite lookup_empty. done.
    + intros n. rewrite lookup_empty. by intros [].
  - intros h. rewrite lookup_empty. by intros [].
Qed.

(** In a consistent store a visible name has its record and its bytes. *)
Lemma visible_readable s name h :
  cas_inv s → quarantined s h = false → GetHashForName s name = Ok h →
  ∃ c meta, blob_view (blobs s) !! h = Some c ∧ GetMeta s name = Ok meta ∧ Hash meta = h
  ∧ (c ≠ [] → VerifyOnRead s = true → Get s name = Ok (verifying_reader c h, meta)).
Proof.
  intros Hi Hq Hg. pose proof Hg as Hg'. unfold GetHashForName in Hg'.
  destruct (tombstones (db s) !! name); [discriminate|].
  destruct (namespace (db s) !! name) as [h'|] eqn:En; [|discriminate]. simplify_eq.
  pose proof (names_pos _ _ _ En) as Hp. pose proof (di_ref _ (ci_db s Hi) h) as Hr.
  unfold refcount in Hr. destruct (objects (db s) !! h) as [v|] eqn:Ev; [|lia].
  destruct (ci_bytes s Hi h) as [c Hc]; [eauto|].
  destruct (di_obj _ (ci_db s Hi) h v Ev) as (m & Hm & _ & _ & _ & Hsz).
  assert (∃ meta, read_meta (db s) name h = Ok meta ∧ Hash meta = h) as (meta & Hmeta & Hh).
  { unfold read_meta. rewrite Ev, Hm. rewrite (proj2 (Z.ltb_ge _ _)) by lia. by eexists. }
  exists c, meta. unfold GetMeta, Get. rewrite Hg, Hmeta. split_and!; try done.
  intros Hne Hver. unfold openVerifiedBlob.
  by rewrite (get_ok (blobs s) h c (ci_blob s Hi) Hc Hne), Hq, Hver.
Qed.
End Consistent.
