(* ===== verification/CasDigest.v ===== *)
(** * The content-addressed store, one digest at a time

    What the operations of CasStore.v do to the names, the record and the bytes of
    one digest, with hypotheses about that digest only.  [kept] is what the store
    maintains for a digest as long as nothing takes its bytes away behind the
    record; nothing is asked of the other digests, whose records may be damaged,
    over-counted or without bytes. *)
From S2P Require Import Prelude GoText Hashes Paths ObjectMeta BlobStore CasStore.
Open Scope Z_scope.

(** The record a put writes, given the arguments of [PutWithMetadata]. *)
Definition meta_args_ok (vc : list Z) (sk : bytes) (mr : list Z) : Prop :=
  Forall is_uint64 vc ∧ Z.of_nat (length vc) < 2 ^ 24 ∧ sk = [] ∧ Forall is_int32 mr ∧ Z.of_nat (length mr) < 2 ^ 24.

Lemma zip_max_uint64 l k : Forall is_uint64 l → Forall is_uint64 k → Forall is_uint64 (zip_with Z.max l k).
Proof.
  intros Hl. revert k. induction Hl as [|x l Hx Hl IH]; intros [|y k] Hk; cbn [zip_with]; try constructor;
    inversion_clear Hk; [unfold is_uint64 in *; lia|by apply IH].
Qed.

Lemma merge_clock_ok old vc :
  Forall is_uint64 old → Forall is_uint64 vc → Z.of_nat (length old) < 2 ^ 24 → Z.of_nat (length vc) < 2 ^ 24 →
  Forall is_uint64 (merge_clock old vc) ∧ Z.of_nat (length (merge_clock old vc)) < 2 ^ 24.
Proof.
  intros Ho Hv Lo Lv. unfold merge_clock. destruct vc as [|x vc]; [done|]. set (v := x :: vc) in *. clearbody v.
  set (base := if (length old <? length v)%nat then _ else old).
  assert (Forall is_uint64 base ∧ (length base = length v ∨ length v <= length old ∧ base = old)%nat) as [Hb Hl].
  { unfold base. destruct (Nat.ltb_spec (length old) (length v)); [|auto].
    split; [|left; apply length_replicate]. apply Forall_replicate. by unfold is_uint64. }
  split.
  - apply Forall_app. split; [|by apply Forall_drop]. by apply zip_max_uint64; [apply Forall_take|].
  - rewrite length_app, length_zip_with, length_take, length_drop. destruct Hl as [->|[? ->]]; lia.
Qed.

(** What the metadata transaction of a put leaves, whatever its arguments. *)
Lemma put_tx_shape name hash size rp vc sk mr now d d' :
  put_tx name hash size rp vc sk mr now d = Ok d' →
  ∃ v p, d' = mkDB (<[hash := v]> (objects d)) (<[name := hash]> (namespace d)) p
             (<[name := put_be 8 (uint64 now)]> (modtimes d)) (delete name (tombstones d)) (quarantine d)
  ∧ (∀ n, n ≠ name → p !! n = paths d !! n).
Proof.
  unfold put_tx. destruct (bput name hash _) as [ns|] eqn:E1; [|discriminate]. apply bput_Some in E1 as [-> Hn].
  destruct (match objects d !! hash with Some _ => _ | None => _ end) as [m'|]; [|discriminate].
  destruct (bput hash _ _) as [obj|] eqn:E2; [|discriminate]. apply bput_Some in E2 as [-> _].
  destruct (bput name (put_be _ _) _) as [mt|] eqn:E3; [|discriminate]. apply bput_Some in E3 as [-> _].
  destruct (FileInfoLength <? _); [discriminate|]. destruct rp as [|x rp].
  - intros [= <-]. eauto.
  - destruct (NormalizeVirtualPath (x :: rp)) as [q|]; [|discriminate].
    destruct (bput name q _) as [p|] eqn:E5; [|discriminate]. apply bput_Some in E5 as [-> _].
    intros [= <-]. eexists _, _. split; [done|]. intros n Hne. by rewrite lookup_insert_ne by done.
Qed.

(** The record of the digest itself, when the old one was readable. *)
Lemma put_tx_record name hash size rp vc sk mr now d d' :
  put_tx name hash size rp vc sk mr now d = Ok d' →
  (∀ v, objects d !! hash = Some v → record_ok v) →
  is_int64 size → 0 <= size → refcount d hash < MaxInt64 → meta_args_ok vc sk mr →
  ∃ v m, objects d' !! hash = Some v ∧ decodeObjectMeta v = Ok m ∧ record_ok v
  ∧ RefCount m = refcount d hash + 1
  ∧ (objects d !! hash = None → Size m = size)
  ∧ (∀ v0 m0, objects d !! hash = Some v0 → decodeObjectMeta v0 = Ok m0 → Size m = Size m0).
Proof.
  intros Hp Hold Hs H0 Hmax (A1 & A2 & -> & A3 & A4). unfold put_tx in Hp.
  destruct (bput name hash _) as [ns|]; [|discriminate].
  set (r0 := match objects d !! hash with Some _ => _ | None => _ end) in Hp.
  assert (∀ m, r0 = Ok m → meta_ok m ∧ ShardKey m = [] ∧ RefCount m = refcount d hash + 1 ∧ 0 <= RefCount m ∧ 0 <= Size m
    ∧ (objects d !! hash = None → Size m = size)
    ∧ (∀ v0 m0, objects d !! hash = Some v0 → decodeObjectMeta v0 = Ok m0 → Size m = Size m0)) as Hr0.
  { unfold r0, refcount in *. destruct (objects d !! hash) as [v|] eqn:Ev.
    - destruct (Hold v eq_refl) as (m0 & Hd & Hok & Hsk & Hrc & Hsz). rewrite Hd in Hmax |- *.
      destruct Hok as [O1 O2 O3 O4 O5 O6 O7 O8]. intros m [= <-]. cbn [Size RefCount DeletedAt VectorClock ShardKey MetadataReplicas].
      rewrite int64_id by (unfold is_int64, MaxInt64 in *; lia).
      destruct (merge_clock_ok (VectorClock m0) vc) as [M1 M2]; [done..|].
      split_and!; try done; try lia.
      + split; cbn; try done. unfold is_int64, MaxInt64 in *. lia.
      + intros v0 m1 [= <-] Hm1. congruence.
    - intros m [= <-]. cbn. split_and!; try done. }
  destruct r0 as [m|] eqn:E0; [|discriminate]. destruct (Hr0 m eq_refl) as (Hok & Hsk & Hrc & Hrc0 & Hsz0 & Hsz1 & Hsz2).
  rewrite Hsk in Hp. cbn [app] in Hp.
  set (m' := mkObjectMeta _ _ _ _ _ _) in Hp.
  destruct (record_ok_encode m') as [Hdec Hrec]; [|done..|].
  { unfold m'. destruct Hok. split; cbn; try done; by destruct (MetadataReplicas m). }
  exists (encode m'), m'.
  assert (objects d' !! hash = Some (encode m')) as Ho.
  { destruct (bput hash _ _) as [obj|] eqn:E2; [|discriminate]. apply bput_Some in E2 as [-> _].
    destruct (bput name (put_be _ _) _) as [mt|]; [|discriminate].
    destruct (FileInfoLength <? _); [discriminate|]. destruct rp as [|x rp].
    - injection Hp as <-. cbn [objects]. by rewrite lookup_insert_eq.
    - destruct (NormalizeVirtualPath (x :: rp)) as [q|]; [|discriminate].
      destruct (bput name q _) as [p|]; [|discriminate]. injection Hp as <-. cbn [objects]. by rewrite lookup_insert_eq. }
  split_and!; done.
Qed.

Section Digest.
Context {B : Type} `{Hspec : BlobStoreSpec B}.
Implicit Types (s : CASStore B) (h : bytes).

Notation view s := (blob_view (blobs s)).
Notation objs s := (objects (db s)).
Notation names s := (namespace (db s)).

(** The store keeps digest [h]: its record, if any, is readable, counts at least the
    names that point at [h] and has its bytes. *)
Record kept s h : Prop := {
  kp_blob : blob_inv (blobs s);
  kp_rec : ∀ v, objs s !! h = Some v → record_ok v;
  kp_ref : Z.of_nat (names_in (names s) h) <= refcount (db s) h;
  kp_stored : is_Some (objs s !! h) → is_Some (view s !! h)
}.

(** Digest [h] is intact: its record, if any, is readable, counts at least the names
    that point at [h] and has its bytes; stored bytes hash to [h]; no quarantine mark. *)
Record intact s h : Prop := {
  in_blob : blob_inv (blobs s);
  in_rec : ∀ v, objs s !! h = Some v → record_ok v;
  in_ref : Z.of_nat (names_in (names s) h) <= refcount (db s) h;
  in_stored : is_Some (objs s !! h) → is_Some (view s !! h);
  in_match : ∀ c, view s !! h = Some c → HashBytes c = h;
  in_mark : quarantine (db s) !! h = None
}.

Lemma cas_kept s h : cas_inv s → kept s h.
Proof.
  intros Hi. split; [apply Hi| |apply (di_ref _ (ci_db s Hi))|apply (ci_bytes s Hi)]. intros v. apply (di_obj _ (ci_db s Hi)).
Qed.

Lemma intact_kept s h : intact s h → kept s h.
Proof. by intros [I1 I2 I3 I4 I5 I6]. Qed.

Lemma kept_intact s h : kept s h → (∀ c, view s !! h = Some c → HashBytes c = h) → quarantine (db s) !! h = None → intact s h.
Proof. by intros [I1 I2 I3 I4] I5 I6. Qed.

(** What other digests' operations may do to [h]. *)
Lemma kept_frame s s' h :
  kept s h → blob_inv (blobs s') → objs s' !! h = objs s !! h → view s' !! h = view s !! h →
  (names_in (names s') h <= names_in (names s) h)%nat → kept s' h.
Proof.
  intros [I1 I2 I3 I4] Hb Ho Hv Hn. split; [done|..]; rewrite ?Ho, ?Hv; try done.
  unfold refcount in *. rewrite Ho. lia.
Qed.

Lemma intact_new (b : B) h :
  blob_inv b → (∀ c, blob_view b !! h = Some c → HashBytes c = h) → intact (newCASStore b) h.
Proof.
  intros Hb Hc. split; cbn [newCASStore blobs db objects namespace quarantine]; [done| | | |done|apply lookup_empty].
  - intros v Hv. by apply lookup_empty_Some in Hv.
  - unfold names_in. rewrite map_filter_empty, map_size_empty. unfold refcount. cbn [objects]. by rewrite lookup_empty.
  - rewrite lookup_empty. by intros [].
Qed.

Lemma intact_frame s s' h :
  intact s h → blob_inv (blobs s') → objs s' !! h = objs s !! h → view s' !! h = view s !! h →
  quarantine (db s') !! h = quarantine (db s) !! h →
  (names_in (names s') h <= names_in (names s) h)%nat → intact s' h.
Proof.
  intros Hi Hb Ho Hv Hq Hn. apply kept_intact; [|rewrite Hv; apply Hi|rewrite Hq; apply Hi].
  by apply (kept_frame s); [apply intact_kept|..].
Qed.

(** *** Put *)
Lemma phase_spec s hash content res s' :
  blob_inv (blobs s) → put_blob_phase s hash content = (res, s') →
  db s' = db s ∧ VerifyOnRead s' = VerifyOnRead s ∧ blob_inv (blobs s')
  ∧ (view s' = view s ∨ ∃ r c, content = Some r ∧ read_all r = Ok c ∧ view s' = <[hash := c]> (view s)
       ∧ ¬ (is_Some (objs s !! hash) ∧ is_Some (view s !! hash)))
  ∧ (res = Ok tt → is_Some content → (is_Some (objs s !! hash) → is_Some (view s !! hash)) → is_Some (view s' !! hash)).
Proof.
  intros Hi. unfold put_blob_phase.
  destruct (match hasInternal s hash with true => _ | false => _ end) as [ex|e] eqn:Ep;
    [|intros [= <- <-]; split_and!; auto; done].
  destruct content as [r|]; [|intros [= <- <-]; split_and!; auto; by intros _ []].
  assert (ex = true → is_Some (objs s !! hash)) as Hrec.
  { intros ->. unfold hasInternal in Ep. by case_bool_decide. }
  assert (ex = false → ¬ (is_Some (objs s !! hash) ∧ is_Some (view s !! hash))) as Hno.
  { intros -> [Ho Hv]. unfold hasInternal in Ep. rewrite bool_decide_eq_true_2 in Ep by done.
    destruct BlobExists as [f|] eqn:Ef; [|done].
    apply (exists_ok f) in Ep; [|done|done]. by rewrite bool_decide_eq_true_2 in Ep. }
  destruct ex.
  { destruct (rd_err r); intros [= <- <-]; split_and!; auto; done. }
  destruct (PutBlob (blobs s) hash r) as [pres b] eqn:Epb.
  pose proof (put_inv (blobs s) hash r Hi) as Hbi. rewrite Epb in Hbi. cbn [snd] in Hbi.
  destruct pres as [[]|e].
  - assert ((blob_view b = view s ∨ ∃ r0 c, Some r = Some r0 ∧ read_all r0 = Ok c ∧ blob_view b = <[hash := c]> (view s)
       ∧ ¬ (is_Some (objs s !! hash) ∧ is_Some (view s !! hash))) ∧ is_Some (blob_view b !! hash)) as [H1 H2].
    { destruct (put_ok (blobs s) hash r b Hi Epb) as [(c & Hc & Hv)|[Hv Hold]]; rewrite Hv.
      - rewrite lookup_insert_eq. split; [right; eauto 10|eauto].
      - auto. }
    change (durability (with_blobs b s)) with (durability s).
    destruct (durability s); intros [= <- <-]; split_and!; auto.
  - intros [= <- <-]. pose proof (put_err (blobs s) hash r e b Hi Epb) as Hv. split_and!; auto; done.
Qed.

(** A put under another digest. *)
Lemma put_other s name hash size rp content vc sk mr now h :
  blob_inv (blobs s) → hash ≠ h →
  let s' := (PutWithMetadata s name hash size rp content vc sk mr now).2 in
  blob_inv (blobs s') ∧ objs s' !! h = objs s !! h ∧ view s' !! h = view s !! h
  ∧ quarantine (db s') = quarantine (db s) ∧ (names_in (names s') h <= names_in (names s) h)%nat.
Proof.
  intros Hi Hne. cbv zeta. unfold PutWithMetadata. destruct (HasPathTraversalChars hash); [done|].
  destruct (put_blob_phase s hash content) as [res s1] eqn:Ep.
  apply phase_spec in Ep as (Hd & _ & Hb & Hv & _); [|done].
  assert (view s1 !! h = view s !! h) as Hv1.
  { destruct Hv as [->|(r & c & _ & _ & -> & _)]; [done|]. by rewrite lookup_insert_ne. }
  destruct res as [[]|]; [|cbn [snd]; by rewrite Hd]. destruct (put_tx _ _ _ _ _ _ _ _ _) as [d|] eqn:Et; [|cbn [snd]; by rewrite Hd].
  apply put_tx_shape in Et as (v & p & -> & _). rewrite Hd.
  cbn [snd db blobs invalidateCache with_cache with_db objects namespace quarantine]. split_and!; try done.
  - by rewrite lookup_insert_ne.
  - pose proof (names_insert (names s) name hash h) as Hn. rewrite decide_False in Hn by done. lia.
Qed.

(** A put under [h] that fits its record; while [h] is not recorded it brings content. *)
Definition put_fits s h (size : Z) (content : option reader) (vc : list Z) (sk : bytes) (mr : list Z) : Prop :=
  is_int64 size ∧ 0 <= size ∧ refcount (db s) h < MaxInt64 ∧ meta_args_ok vc sk mr
  ∧ (objs s !! h = None → is_Some content).

Lemma put_own s name h size rp content vc sk mr now :
  kept s h → put_fits s h size content vc sk mr →
  let s' := (PutWithMetadata s name h size rp content vc sk mr now).2 in
  kept s' h ∧ quarantine (db s') = quarantine (db s)
  ∧ (view s' !! h = view s !! h
     ∨ objs s !! h = None ∧ ∃ r c, content = Some r ∧ read_all r = Ok c ∧ view s' !! h = Some c).
Proof.
  intros Hi (S1 & S2 & S3 & S4 & S5). cbv zeta. unfold PutWithMetadata. destruct (HasPathTraversalChars h); [by split_and!; auto|].
  destruct (put_blob_phase s h content) as [res s1] eqn:Ep.
  apply phase_spec in Ep as (Hd & _ & Hb & Hv & Hst); [|apply Hi].
  assert (view s1 !! h = view s !! h
     ∨ objs s !! h = None ∧ ∃ r c, content = Some r ∧ read_all r = Ok c ∧ view s1 !! h = Some c) as Hv1.
  { destruct Hv as [->|(r & c & -> & Hr & -> & Hnot)]; [by left|right]. rewrite lookup_insert_eq. split; [|eauto].
    destruct (objs s !! h) eqn:Eo; [|done]. destruct Hnot. split; [eauto|]. apply Hi. eauto. }
  assert (kept s1 h) as H1.
  { destruct Hi as [I1 I2 I3 I4]. split; rewrite ?Hd; try done. intros Ho.
    destruct Hv1 as [->|(_ & r & c & _ & _ & ->)]; eauto. }
  destruct res as [[]|]; [|cbn [snd]; by rewrite Hd]. rewrite Hd.
  destruct (put_tx _ _ _ _ _ _ _ _ _) as [d|] eqn:Et; [|cbn [snd]; by rewrite Hd].
  destruct (put_tx_record _ _ _ _ _ _ _ _ _ _ Et (kp_rec s h Hi) S1 S2 S3 S4) as (v & m & Ho & Hm & Hrec & Hrc & _).
  apply put_tx_shape in Et as (v' & p & -> & _). cbn [objects] in Ho. rewrite lookup_insert_eq in Ho. injection Ho as ->.
  cbn [snd db blobs invalidateCache with_cache with_db objects namespace quarantine]. split_and!; [|done|done].
  split; cbn [snd db blobs invalidateCache with_cache with_db objects namespace quarantine].
  - apply H1.
  - rewrite lookup_insert_eq. by intros w [= <-].
  - unfold refcount at 1. cbn [objects]. rewrite lookup_insert_eq, Hm.
    pose proof (names_insert (names s) name h h) as Hn. rewrite decide_True in Hn by done.
    pose proof (kp_ref s h Hi). lia.
  - intros _. destruct content as [r|].
    + apply Hst; [done|eauto|apply Hi].
    + destruct (objs s !! h) eqn:Eo; [|by destruct (S5 eq_refl)].
      destruct Hv as [->|(r & c & ? & _)]; [|done]. apply Hi. eauto.
Qed.

(** The puts that keep digest [h] intact: any put under another digest; under [h] itself,
    one that fits the record and, when [h] is not recorded yet, brings content of that
    digest. *)
Definition put_spares s h (hash : bytes) (size : Z) (content : option reader) (vc : list Z) (sk : bytes) (mr : list Z) : Prop :=
  hash = h → is_int64 size ∧ 0 <= size ∧ refcount (db s) h < MaxInt64 ∧ meta_args_ok vc sk mr
    ∧ (objs s !! h = None → ∃ r, content = Some r ∧ ∀ c, read_all r = Ok c → HashBytes c = h).

Lemma put_intact s name hash size rp content vc sk mr now h :
  intact s h → put_spares s h hash size content vc sk mr →
  intact (PutWithMetadata s name hash size rp content vc sk mr now).2 h.
Proof.
  intros Hi Hsp. destruct (decide (hash = h)) as [->|Hne].
  - destruct (Hsp eq_refl) as (S1 & S2 & S3 & S4 & S5).
    destruct (put_own s name h size rp content vc sk mr now (intact_kept _ _ Hi)) as (K & Q & V).
    { split_and!; try done. intros Ho. destruct (S5 Ho) as (r & -> & _). eauto. }
    apply kept_intact; [done| |rewrite Q; apply Hi]. intros c Hc. destruct V as [V|(Ho & r & x & Er & Hx & V)].
    + rewrite V in Hc. by apply (in_match s h Hi).
    + destruct (S5 Ho) as (r' & Er' & Hr'). rewrite V in Hc. injection Hc as <-. apply Hr'. congruence.
  - destruct (put_other s name hash size rp content vc sk mr now h (in_blob s h Hi) Hne) as (O1 & O2 & O3 & O4 & O5).
    eapply (intact_frame s); [done|done|done|done|by rewrite O4|done].
Qed.

(** *** Delete *)

(** The two outcomes of dropping a name's reference. *)
Lemma drop_ref_shape name at_ d obj o :
  drop_ref name at_ d = Ok (obj, o) →
  (obj = objects d ∧ o = [] ∧ ∀ k, namespace d !! name = Some k → objects d !! k = None)
  ∨ ∃ k v m, namespace d !! name = Some k ∧ objects d !! k = Some v ∧ decodeObjectMeta v = Ok m
    ∧ let rc := int64 (RefCount m - 1) in
      obj = <[k := encode (mkObjectMeta (Size m) (if rc <=? 0 then 0 else rc) (if rc <=? 0 then at_ else DeletedAt m)
                             (VectorClock m) (ShardKey m) (MetadataReplicas m))]> (objects d)
      ∧ o = if rc <=? 0 then k else [].
Proof.
  unfold drop_ref. destruct (namespace d !! name) as [k|] eqn:En; [|intros [= <- <-]; left; by split_and!].
  destruct (objects d !! k) as [v|] eqn:Ev; [|intros [= <- <-]; left; split_and!; [done..|by intros k' [= <-]]].
  destruct (decodeObjectMeta v) as [m|] eqn:Em; [|discriminate].
  destruct (bput k _ _) as [ob|] eqn:Eb; [|discriminate]. apply bput_Some in Eb as [-> _].
  intros [= <- <-]. right. exists k, v, m. by split_and!.
Qed.

Lemma delete_tx_shape perr name at_ d d' o :
  delete_tx perr name at_ d = Ok (d', o) →
  drop_ref name at_ d = Ok (objects d', o) ∧ namespace d' = delete name (namespace d)
  ∧ tombstones d' = <[name := put_be 8 (uint64 at_)]> (tombstones d)
  ∧ paths d' = delete name (paths d) ∧ modtimes d' = delete name (modtimes d) ∧ quarantine d' = quarantine d.
Proof.
  unfold delete_tx. destruct (bput _ _ (tombstones d)) as [ts|] eqn:Eb; [|discriminate].
  apply bput_Some in Eb as [-> _]. destruct (drop_ref name at_ d) as [[obj o']|]; [|discriminate]. by intros [= <- <-].
Qed.

Lemma reap_shape ev o s :
  blob_inv (blobs s) →
  let s' := reap_orphan ev o s in
  blob_inv (blobs s') ∧ (∃ ob, db s' = set_objects ob (db s)) ∧ VerifyOnRead s' = VerifyOnRead s
  ∧ (∀ k, k ≠ o ∨ o = [] → objs s' !! k = objs s !! k ∧ view s' !! k = view s !! k)
  ∧ ((objs s' !! o = objs s !! o ∧ view s' !! o = view s !! o) ∨ (objs s' !! o = None ∧ view s' !! o = None)).
Proof.
  intros Hi. cbv zeta. unfold reap_orphan. destruct o as [|x o'] eqn:Eo.
  { split_and!; auto. by exists (objs s); destruct (db s). }
  rewrite <- Eo in *. assert (o ≠ []) as Hne by (by rewrite Eo). clear Eo x o'.
  destruct (DeleteBlob (blobs s) o) as [r b] eqn:Eb.
  pose proof (delete_inv (blobs s) o Hi) as Hbi. rewrite Eb in Hbi. cbn [snd] in Hbi. destruct r as [[]|e].
  - pose proof (delete_ok (blobs s) o b Hi Eb) as Hv. set (s1 := if ev then _ else _).
    assert (db s1 = db s ∧ blobs s1 = b ∧ VerifyOnRead s1 = VerifyOnRead s) as (E1 & E2 & E3).
    { unfold s1, count_evicted. repeat case_match; done. }
    clearbody s1. cbn [db with_db blobs set_objects objects VerifyOnRead]. rewrite E1, E2, Hv. split_and!; try done.
    + by eexists.
    + intros k [Hk|]; [|done]. by rewrite !lookup_delete_ne by done.
    + right. by rewrite !lookup_delete_eq.
  - pose proof (delete_err (blobs s) o e b Hi Eb) as Hv. cbn [db with_blobs blobs VerifyOnRead]. rewrite Hv. split_and!; auto.
    by exists (objs s); destruct (db s).
Qed.

Lemma record_ok_drop m at_ :
  meta_ok m → ShardKey m = [] → 1 <= RefCount m → 0 <= Size m → is_int64 at_ →
  let rc := int64 (RefCount m - 1) in
  let m' := mkObjectMeta (Size m) (if rc <=? 0 then 0 else rc) (if rc <=? 0 then at_ else DeletedAt m)
              (VectorClock m) (ShardKey m) (MetadataReplicas m) in
  rc = RefCount m - 1 ∧ RefCount m' = RefCount m - 1 ∧ decodeObjectMeta (encode m') = Ok m' ∧ record_ok (encode m').
Proof.
  intros [O1 O2 O3 O4 O5 O6 O7 O8] Hk H1 H0 Ha. cbv zeta.
  assert (int64 (RefCount m - 1) = RefCount m - 1) as E by (apply int64_id; unfold is_int64 in *; lia).
  rewrite E. set (m' := mkObjectMeta _ _ _ _ _ _).
  assert (RefCount m' = RefCount m - 1) as Hrc by (unfold m'; cbn [RefCount]; destruct (_ <=? 0) eqn:Ez; zbool; lia).
  split_and!; [done|done|..]; apply record_ok_encode; try done; try lia; unfold m'; split; cbn; try done;
    destruct (_ <=? 0); unfold is_int64 in *; try done; lia.
Qed.

(** Deleting a name, by either path, keeps a digest; its bytes go only with its last
    name. *)
Lemma delete_kept perr name at_ ev s d o h :
  kept s h → is_int64 at_ → delete_tx perr name at_ (db s) = Ok (d, o) →
  let s' := reap_orphan ev o (with_db d s) in
  kept s' h ∧ quarantine (db s') = quarantine (db s)
  ∧ (is_Some (objs s' !! h) → is_Some (objs s !! h) ∧ view s' !! h = view s !! h)
  ∧ (view s' !! h = view s !! h ∨ view s' !! h = None).
Proof.
  intros Hi Ha Hd. cbv zeta. apply delete_tx_shape in Hd as (Hdr & Hns & _ & _ & _ & Hq).
  destruct (reap_shape ev o (with_db d s) (kp_blob s h Hi)) as (Rb & (ob & Rd) & _ & Roth & Ro).
  cbn [db with_db blobs] in *.
  assert (∀ k, names_in (namespace d) k = (names_in (names s) k - (if decide (names s !! name = Some k) then 1 else 0))%nat) as Hcnt
    by (intros k; rewrite Hns; apply names_delete).
  assert (namespace (db (reap_orphan ev o (with_db d s))) = namespace d
    ∧ quarantine (db (reap_orphan ev o (with_db d s))) = quarantine (db s)) as [Rn Rq] by (rewrite Rd; cbn; done).
  apply drop_ref_shape in Hdr as [(Eo & -> & _)|(k & v & m & Hk & Hv & Hm & Eo & Eor)].
  { destruct (Roth h (or_intror eq_refl)) as [R1 R2]. rewrite R1, R2, Eo. split_and!; auto.
    eapply (kept_frame s); rewrite ?R1, ?R2, ?Rn, ?Eo; try done. rewrite Hcnt. lia. }
  destruct (decide (k = h)) as [->|Hne].
  2:{ assert (h ≠ o ∨ o = []) as Ho by (rewrite Eor; destruct (_ <=? 0); [left; congruence|by right]).
      destruct (Roth h Ho) as [R1 R2]. rewrite R1, R2, Eo, lookup_insert_ne by done. split_and!; auto.
      eapply (kept_frame s); rewrite ?R1, ?R2, ?Rn, ?Eo; try done.
      - by rewrite lookup_insert_ne.
      - rewrite Hcnt. lia. }
  destruct (kp_rec s h Hi v Hv) as (m0 & Hm0 & Hok & Hsk & Hrc & Hsz). assert (m0 = m) as -> by congruence.
  pose proof (kp_ref s h Hi) as Href. pose proof (names_pos _ _ _ Hk) as Hpos.
  unfold refcount in Href. rewrite Hv, Hm in Href.
  destruct (record_ok_drop m at_ Hok Hsk) as (Erc & Hrc' & Hdec & Hrec); [lia|done|done|].
  set (m' := mkObjectMeta _ _ _ _ _ _) in *. clearbody m'. specialize (Hcnt h). rewrite decide_True in Hcnt by done.
  assert (kept (with_db d s) h) as Hi1.
  { split; cbn [db with_db blobs]; rewrite ?Eo; try apply Hi.
    - rewrite lookup_insert_eq. by intros w [= <-].
    - unfold refcount. rewrite Eo, lookup_insert_eq, Hdec, Hcnt. lia.
    - intros _. apply Hi. eauto. }
  destruct (decide (o = [])) as [->|Hne]; [cbn [reap_orphan with_db db blobs]; rewrite Hv; split_and!; eauto|].
  assert (o = h ∧ names_in (namespace d) h = O) as [-> Hz].
  { rewrite Erc in Eor. destruct (Z.leb_spec (RefCount m - 1) 0); [|congruence]. split; [done|]. lia. }
  destruct Ro as [[R1 R2]|[R1 R2]].
  - rewrite R2, Hv. split_and!; eauto. eapply (kept_frame (with_db d s)); rewrite ?R1, ?R2, ?Rn; done.
  - rewrite R1, R2. split_and!; [|done|by intros []|by right]. split; rewrite ?R1, ?R2, ?Rn; try done.
    unfold refcount. by rewrite R1, Hz.
Qed.

Lemma delete_intact perr name at_ ev s d o h :
  intact s h → is_int64 at_ → delete_tx perr name at_ (db s) = Ok (d, o) → intact (reap_orphan ev o (with_db d s)) h.
Proof.
  intros Hi Ha Hd. destruct (delete_kept _ _ _ ev _ _ _ _ (intact_kept _ _ Hi) Ha Hd) as (K & Q & _ & V).
  apply kept_intact; [done| |rewrite Q; apply Hi]. intros c Hc. apply (in_match s h Hi). destruct V as [<-|V]; [done|]. by rewrite V in Hc.
Qed.

Lemma Delete_intact s name now h : intact s h → is_int64 now → intact (Delete s name now).2 h.
Proof.
  intros Hi Hn. unfold Delete. destruct (delete_tx _ name now (db s)) as [[d o]|] eqn:E; [|done].
  destruct (delete_intact _ _ _ true _ _ _ _ Hi Hn E). by split.
Qed.

Lemma ApplyTombstone_intact s name at_ h : intact s h → is_int64 at_ → intact (ApplyTombstone s name at_).2 h.
Proof.
  intros Hi Hn. unfold ApplyTombstone. destruct (tombstone_covers _ _ _); [done|].
  destruct (delete_tx _ name at_ (db s)) as [[d o]|] eqn:E; [|done]. exact (delete_intact _ _ _ false _ _ _ _ Hi Hn E).
Qed.

(** *** Garbage collection *)
Lemma delete_blobs_sub (b : B) hs k :
  blob_inv b → blob_view (delete_blobs b hs) !! k = blob_view b !! k ∨ blob_view (delete_blobs b hs) !! k = None.
Proof.
  revert b. induction hs as [|x hs IH]; intros b Hb; [by left|]. unfold delete_blobs in *. cbn [foldl].
  destruct (DeleteBlob b x) as [r b'] eqn:E. pose proof (delete_inv b x Hb) as Hb'. rewrite E in Hb'. cbn [snd] in *.
  destruct (IH b' Hb') as [->| ->]; [|by right]. destruct r as [[]|e].
  - rewrite (delete_ok b x b' Hb E), lookup_delete. case_decide; auto.
  - left. by rewrite (delete_err b x e b' Hb E).
Qed.

Lemma runGC_intact s retention now h : intact s h → intact (runGC s retention now).2 h.
Proof.
  intros Hi. unfold runGC, sweepOrphanedBlobs.
  destruct (orphan_scan _) as [[hs n]|] eqn:Eo; [|done].
  destruct (delete_blobs_spec (blobs s) hs (in_blob s h Hi)) as [Hbi Hbv].
  pose proof (delete_blobs_sub (blobs s) hs h (in_blob s h Hi)) as Hsub.
  set (obj := foldl _ _ hs). set (s1 := match hs with [] => _ | _ => _ end).
  assert (db s1 = set_objects obj (db s) ∧ blobs s1 = delete_blobs (blobs s) hs) as [E1 E2] by (unfold s1; by destruct hs).
  clearbody s1. assert (intact s1 h) as H1; [|by destruct H1; split].
  assert (objs s1 !! h = if decide (h ∈ hs) then None else objs s !! h) as Ho
    by (rewrite E1; cbn; unfold obj; apply foldl_delete_lookup).
  destruct (decide (h ∈ hs)) as [Hin|Hout].
  - destruct (orphan_scan_spec _ _ _ Eo h Hin) as (v & m & Hv%elem_of_cursor & _ & Hd & Hr).
    pose proof (in_ref s h Hi) as Hk. unfold refcount in Hk. rewrite Hv, Hd in Hk.
    split; rewrite ?E2, ?Ho; try done.
    + unfold refcount. rewrite Ho, E1. cbn. lia.
    + intros c Hc. apply (in_match s h Hi). destruct Hsub as [<-|Hn]; [done|]. by rewrite Hn in Hc.
    + rewrite E1. apply Hi.
  - eapply (intact_frame s); rewrite ?E2; [done|done|done|by apply Hbv|by rewrite E1|by rewrite E1].
Qed.

(** *** Names *)

(** An acknowledged put makes its name visible with its digest, stamped [now] and under
    the normalized path; no other name moves. *)
Lemma put_visible s name hash size rp content vc sk mr now s' :
  PutWithMetadata s name hash size rp content vc sk mr now = (Ok tt, s') → is_int64 now →
  GetHashForName s' name = Ok hash ∧ time_value (modtimes (db s') !! name) = now
  ∧ (rp ≠ [] → ∃ q, NormalizeVirtualPath rp = Ok q ∧ paths (db s') !! name = Some q).
Proof.
  intros Hp Hn. unfold PutWithMetadata in Hp. destruct (HasPathTraversalChars hash); [discriminate|].
  destruct (put_blob_phase s hash content) as [[[]|] s1]; [|discriminate].
  destruct (put_tx _ _ _ _ _ _ _ _ _) as [d|] eqn:Et; [|discriminate]. injection Hp as <-.
  assert (rp ≠ [] → ∃ q, NormalizeVirtualPath rp = Ok q ∧ paths d !! name = Some q) as Hpath.
  { intros Hrp. unfold put_tx in Et. destruct (bput name hash _); [|discriminate].
    destruct (match objects (db s1) !! hash with Some _ => _ | None => _ end); [|discriminate].
    destruct (bput hash _ _); [|discriminate]. destruct (bput name (put_be _ _) _); [|discriminate].
    destruct (FileInfoLength <? _); [discriminate|]. destruct rp as [|x rp]; [done|].
    destruct (NormalizeVirtualPath (x :: rp)) as [q|]; [|discriminate].
    destruct (bput name q _) as [p|] eqn:Eb; [|discriminate]. apply bput_Some in Eb as [-> _]. injection Et as <-.
    exists q. split; [done|]. apply lookup_insert_eq. }
  apply put_tx_shape in Et as (v & p & -> & _). unfold GetHashForName.
  cbn [db invalidateCache with_cache with_db tombstones namespace modtimes paths] in *.
  rewrite lookup_delete_eq, !lookup_insert_eq. split_and!; [done| |done].
  unfold time_value. rewrite length_put_be. cbn [Nat.leb]. by apply stamp_read.
Qed.

(** A visible name of an intact digest has its record and its bytes. *)
Lemma intact_mapped s h name :
  intact s h → GetHashForName s name = Ok h →
  ∃ c meta, view s !! h = Some c ∧ HashBytes c = h ∧ (c ≠ [] → GetBlob (blobs s) h = Ok c) ∧ quarantined s h = false
  ∧ read_meta (db s) name h = Ok meta ∧ Name meta = name ∧ Hash meta = h
  ∧ RemotePath meta = match paths (db s) !! name with Some p => p | None => [] end
  ∧ ModTime meta = time_value (modtimes (db s) !! name).
Proof.
  intros [I1 I2 I3 I4 I5 I6] Hg. unfold GetHashForName in Hg.
  destruct (tombstones (db s) !! name); [discriminate|].
  destruct (names s !! name) as [h'|] eqn:En; [|discriminate]. injection Hg as ->.
  pose proof (names_pos _ _ _ En) as Hp. unfold refcount in I3.
  destruct (objs s !! h) as [v|] eqn:Ev; [|lia]. destruct (I2 v eq_refl) as (m & Hm & _ & _ & _ & Hsz).
  destruct I4 as [c Hc]; [eauto|]. pose proof (I5 c Hc) as Hch.
  eexists c, _. split_and!; [done|done| | | |..].
  - by apply get_ok.
  - apply bool_decide_eq_false. rewrite I6. by intros [].
  - unfold read_meta. rewrite Ev, Hm, (proj2 (Z.ltb_ge _ _)) by lia. done.
  - done.
  - done.
  - done.
  - done.
Qed.

Lemma intact_visible s h name :
  intact s h → h ≠ HashBytes [] → GetHashForName s name = Ok h →
  ∃ c meta, view s !! h = Some c ∧ HashBytes c = h ∧ GetBlob (blobs s) h = Ok c ∧ quarantined s h = false
  ∧ read_meta (db s) name h = Ok meta ∧ Name meta = name ∧ Hash meta = h
  ∧ RemotePath meta = match paths (db s) !! name with Some p => p | None => [] end
  ∧ ModTime meta = time_value (modtimes (db s) !! name).
Proof.
  intros Hi Hh Hg. destruct (intact_mapped s h name Hi Hg) as (c & meta & V1 & V2 & V3 & V4). exists c, meta.
  split; [exact V1|]. split; [exact V2|]. split; [|exact V4]. apply V3. intros ->. exact (Hh (eq_sym V2)).
Qed.
End Digest.
