(* ===== verification/CasTheorems.v ===== *)
(** * What the content-addressed store guarantees

    The properties of CasStore.v, for every backend that honours the
    [BlobStoreSpec] contract, with the reference backend in the witnesses. *)
From S2P Require Import Prelude GoText Hashes Paths ObjectMeta BlobStore CasStore CasDigest.
Open Scope Z_scope.

Section Frame.
Context {B : Type} `{Hspec : BlobStoreSpec B}.
Implicit Types (s : CASStore B).

(** Two stores that agree on everything a name's read looks at. *)
Record same_read s s' (name h : bytes) : Prop := {
  sr_hash : GetHashForName s' name = GetHashForName s name;
  sr_meta : read_meta (db s') name h = read_meta (db s) name h;
  sr_quar : quarantined s' h = quarantined s h;
  sr_ver : VerifyOnRead s' = VerifyOnRead s;
  sr_view : blob_view (blobs s') !! h = blob_view (blobs s) !! h
}.

Lemma same_read_Get s s' name h c :
  blob_inv (blobs s) → blob_inv (blobs s') → same_read s s' name h →
  GetHashForName s name = Ok h → blob_view (blobs s) !! h = Some c → c ≠ [] →
  GetHashForName s' name = Ok h ∧ GetBlob (blobs s') h = GetBlob (blobs s) h ∧ Get s' name = Get s name.
Proof.
  intros Hi Hi' [S1 S2 S3 S4 S5] Hg Hc Hne. rewrite Hg in S1.
  assert (GetBlob (blobs s') h = GetBlob (blobs s) h) as Hb.
  { rewrite (get_ok (blobs s) h c Hi Hc Hne). rewrite <- S5 in Hc. by rewrite (get_ok (blobs s') h c Hi' Hc Hne). }
  split_and!; [done|done|]. unfold Get. rewrite S1, Hg. unfold openVerifiedBlob. by rewrite S2, S3, S4, Hb.
Qed.

(** The record of the name's digest, if there is one, is readable and counts at least
    the names that point at the digest. *)
Definition counted s (name : bytes) : Prop := ∀ k v,
  namespace (db s) !! name = Some k → objects (db s) !! k = Some v →
  record_ok v ∧ Z.of_nat (names_in (namespace (db s)) k) <= refcount (db s) k.

Lemma cas_counted s name : cas_inv s → counted s name.
Proof. intros Hi k v _ Hv. split; [by apply (di_obj _ (ci_db s Hi) k)|apply (di_ref _ (ci_db s Hi))]. Qed.

Lemma read_meta_size d d' n h v v' m m' :
  objects d !! h = Some v → objects d' !! h = Some v' → decodeObjectMeta v = Ok m → decodeObjectMeta v' = Ok m' →
  Size m' = Size m → paths d' !! n = paths d !! n → modtimes d' !! n = modtimes d !! n →
  read_meta d' n h = read_meta d n h.
Proof. intros Hv Hv' Hm Hm' Hs Hp Ht. unfold read_meta. by rewrite Hv, Hv', Hm, Hm', Hs, Hp, Ht. Qed.

(** The two delete paths, on the names they do not name: only the record of the deleted
    name's own digest has to be in order. *)
Lemma delete_tx_same_read perr s name at_ d o ev n h :
  blob_inv (blobs s) → counted s name → is_int64 at_ → delete_tx perr name at_ (db s) = Ok (d, o) → n ≠ name →
  GetHashForName s n = Ok h → same_read s (reap_orphan ev o (with_db d s)) n h.
Proof.
  intros Hi Hcnt Ha Hd Hn Hg. apply delete_tx_shape in Hd as (Hdr & Ens & Ets & Ep & Em & Eq).
  destruct (reap_shape ev o (with_db d s) Hi) as (_ & (ob & Rd) & Rv & Roth & _).
  cbn [db with_db blobs VerifyOnRead] in *. set (s' := reap_orphan ev o (with_db d s)) in *.
  assert (GetHashForName s' n = GetHashForName s n ∧ paths (db s') !! n = paths (db s) !! n
    ∧ modtimes (db s') !! n = modtimes (db s) !! n ∧ quarantined s' h = quarantined s h) as (G1 & G2 & G3 & G4).
  { unfold GetHashForName, quarantined. rewrite Rd. cbn [set_objects tombstones namespace paths modtimes quarantine].
    rewrite Ens, Ets, Ep, Em, Eq, !lookup_insert_ne, !lookup_delete_ne by congruence. done. }
  assert (names_in (namespace d) h ≠ O) as Hpos.
  { unfold GetHashForName in Hg. destruct (tombstones (db s) !! n); [discriminate|].
    destruct (namespace (db s) !! n) as [h'|] eqn:En; [|discriminate]. injection Hg as ->.
    apply Nat.neq_0_lt_0, (names_pos _ n). by rewrite Ens, lookup_delete_ne. }
  apply drop_ref_shape in Hdr as [(Eo & -> & _)|(k & v & m & Hk & Hv & Hm & Eo & Eor)].
  { destruct (Roth h (or_intror eq_refl)) as [R1 R2]. split; try done.
    unfold read_meta. by rewrite R1, Eo, G2, G3. }
  destruct (Hcnt k v Hk Hv) as [(m0 & Hm0 & Hok & Hsk & Hrc & Hsz) Href]. assert (m0 = m) as -> by congruence.
  unfold refcount in Href. rewrite Hv, Hm in Href. pose proof (names_pos _ _ _ Hk) as Hkp.
  destruct (record_ok_drop m at_ Hok Hsk) as (Erc & _ & Hdec & _); [lia|done|done|].
  pose proof (names_delete (namespace (db s)) name k) as Hnd. rewrite decide_True in Hnd by done.
  assert (h ≠ o ∨ o = []) as Ho.
  { rewrite Eor, Erc. destruct (Z.leb_spec (RefCount m - 1) 0); [left; intros ->|by right]. apply Hpos. rewrite Ens, Hnd. lia. }
  destruct (Roth h Ho) as [R1 R2]. split; try done. destruct (decide (k = h)) as [->|Hne].
  - eapply read_meta_size; [exact Hv|rewrite R1, Eo; apply lookup_insert_eq|exact Hm|exact Hdec|done|done|done].
  - unfold read_meta. by rewrite R1, Eo, lookup_insert_ne, G2, G3.
Qed.

(** What [List] reports for one namespace entry. *)
Definition list_entry (d : DB) (kv : bytes * bytes) : option FileMetadata :=
  match tombstones d !! kv.1 with
  | Some _ => None
  | None => match read_meta d kv.1 kv.2 with Ok f => Some f | Err _ => None end
  end.

Lemma list_loop_entries d l :
  Forall (λ kv : bytes * bytes, is_Some (list_entry d kv) ∨ is_Some (tombstones d !! kv.1)) l →
  list_loop d l = Ok (omap (list_entry d) l).
Proof.
  induction 1 as [|[n h] l Hn Hl IH]; [done|]. cbn [list_loop omap]. cbn [list_omap].
  unfold list_entry at 1. unfold list_entry in Hn. cbn [fst snd] in *.
  destruct (tombstones d !! n); [done|]. destruct Hn as [Hn|[? ?]]; [|done].
  unfold read_meta in *. destruct (objects d !! h) as [v|]; [|by destruct Hn].
  destruct (decodeObjectMeta v) as [m|] eqn:Em; [|by destruct Hn].
  destruct (Size m <? 0); [by destruct Hn|]. destruct v as [|x v]; [discriminate Em|].
  rewrite Em, IH. done.
Qed.

Lemma read_meta_name d n h f : read_meta d n h = Ok f → Name f = n ∧ Hash f = h.
Proof.
  unfold read_meta. destruct (objects d !! h); [|discriminate].
  destruct (decodeObjectMeta _); [|discriminate]. destruct (_ <? 0); [discriminate|].
  by intros [= <-].
Qed.

Lemma list_entry_name d kv f : list_entry d kv = Some f → Name f = kv.1.
Proof.
  unfold list_entry. destruct (tombstones d !! kv.1); [discriminate|].
  destruct (read_meta _ _ _) eqn:E; [|discriminate]. intros [= <-]. by apply read_meta_name in E as [].
Qed.

Lemma list_entry_names d l f : f ∈ omap (list_entry d) l → Name f ∈ l.*1.
Proof.
  rewrite list_elem_of_omap. intros ([n h] & Hin & Hf). rewrite (list_entry_name _ _ _ Hf).
  by apply list_elem_of_fmap_2.
Qed.

Lemma list_entry_nodup d l : NoDup l.*1 → NoDup (Name <$> omap (list_entry d) l).
Proof.
  induction l as [|[n h] l IH]; [constructor|]. intros [Hn Hl]%NoDup_cons. cbn [omap list_omap].
  destruct (list_entry d (n, h)) as [f|] eqn:Ef; [|by apply IH]. constructor; [|by apply IH].
  intros (g & Hg & Hin)%list_elem_of_fmap. apply list_entry_names in Hin.
  apply list_entry_name in Ef. cbn [fst] in Ef. apply Hn. cbn [fst]. by rewrite <- Ef, Hg.
Qed.
End Frame.

(** ** Properties *)
Section Guarantees.
Context {B : Type} `{Hspec : BlobStoreSpec B}.
Implicit Types (s : CASStore B).

(** A put of content the store does not hold stores what the reader delivered. *)
Lemma put_fresh s name h size rp r now s' :
  blob_inv (blobs s) → objects (db s) !! h = None → blob_view (blobs s) !! h = None →
  Put s name h size rp (Some r) now = (Ok tt, s') →
  ∃ c, read_all r = Ok c ∧ blob_view (blobs s') !! h = Some c
  ∧ objects (db s') !! h = Some (encode (mkObjectMeta size 1 0 [] [] [])).
Proof.
  intros Hi Ho Hb Hp. unfold Put, PutWithMetadata in Hp. destruct (HasPathTraversalChars h); [discriminate|].
  destruct (put_blob_phase s h (Some r)) as [res s1] eqn:Ep.
  apply phase_spec in Ep as (Hd & _ & _ & Hview & Hst); [|done].
  destruct res as [[]|]; [|discriminate].
  destruct (put_tx _ _ _ _ _ _ _ _ _) as [d|] eqn:Et; [|discriminate]. injection Hp as <-.
  apply put_tx_Ok in Et as (m & p & Hrec & -> & _). rewrite Hd in *.
  unfold put_record in Hrec. rewrite Ho in Hrec. subst m.
  cbn [db blobs invalidateCache with_cache with_db objects]. rewrite lookup_insert_eq.
  destruct Hview as [E|(r' & c' & [= <-] & Hr' & E & _)].
  - destruct (Hst eq_refl) as [x Hx]; [eauto|rewrite Ho; by intros []|]. congruence.
  - exists c'. by rewrite E, lookup_insert_eq.
Qed.

(** An acknowledged put, read back: what the name, the record and the bytes of the
    digest are afterwards. *)
Lemma put_read s name h size rp r now s' :
  intact s h → h ≠ HashBytes [] → is_int64 size → 0 <= size → refcount (db s) h < MaxInt64 → is_int64 now →
  (objects (db s) !! h = None → ∀ c, read_all r = Ok c → HashBytes c = h) →
  Put s name h size rp (Some r) now = (Ok tt, s') →
  ∃ c meta, GetHashForName s' name = Ok h ∧ GetBlob (blobs s') h = Ok c ∧ HashBytes c = h ∧ quarantined s' h = false
  ∧ read_meta (db s') name h = Ok meta ∧ Name meta = name ∧ Hash meta = h ∧ ModTime meta = now
  ∧ (rp ≠ [] → NormalizeVirtualPath rp = Ok (RemotePath meta))
  ∧ (objects (db s) !! h = None → blob_view (blobs s) !! h = None → read_all r = Ok c ∧ FSize meta = size).
Proof.
  intros Hi Hh Hs H0 Hm Hn Hr Hp.
  assert (intact s' h) as Hi'.
  { replace s' with (Put s name h size rp (Some r) now).2 by (by rewrite Hp). apply put_intact; [done|].
    intros _. split; [exact Hs|]. split; [exact H0|]. split; [exact Hm|]. split; [by split_and!; try constructor|]. intros Ho. exists r. eauto. }
  destruct (put_visible _ _ _ _ _ _ _ _ _ _ _ Hp Hn) as (Hv & Ht & Hrp).
  destruct (intact_visible s' h name Hi' Hh Hv) as (c & meta & C1 & C2 & C3 & C4 & C5 & C6 & C7 & C8 & C9).
  exists c, meta. split_and!; try done.
  - congruence.
  - intros Hne. destruct (Hrp Hne) as (q & Hq & Hq'). rewrite Hq' in C8. by rewrite C8.
  - intros Ho Hb. destruct (put_fresh s name h size rp r now s' (in_blob s h Hi) Ho Hb Hp) as (c' & Hc' & Hv' & Ho').
    assert (c' = c) as -> by congruence. split; [done|]. unfold read_meta in C5. rewrite Ho', decode_encode in C5 by done.
    cbn [Size] in C5. rewrite (proj2 (Z.ltb_ge _ _)) in C5 by lia. injection C5 as <-. done.
Qed.

(** The same through [Get] of a store without an armed rebuild source. *)
Lemma put_get s name h size rp r now s' :
  intact s h → h ≠ HashBytes [] → is_int64 size → 0 <= size → refcount (db s) h < MaxInt64 → is_int64 now →
  (objects (db s) !! h = None → ∀ c, read_all r = Ok c → HashBytes c = h) →
  Put s name h size rp (Some r) now = (Ok tt, s') →
  ∃ c meta, Get s' name = Ok (Reader [c] None, meta) ∧ HashBytes c = h ∧ Hash meta = h ∧ ModTime meta = now
  ∧ (objects (db s) !! h = None → blob_view (blobs s) !! h = None → read_all r = Ok c ∧ FSize meta = size).
Proof.
  intros Hi Hh Hs H0 Hm Hn Hr Hp.
  destruct (put_read s name h size rp r now s') as (c & meta & G1 & G2 & G3 & G4 & G5 & _ & G7 & G8 & _ & G10); [done..|].
  exists c, meta. split_and!; [|exact G3|exact G7|exact G8|exact G10].
  unfold Get, openVerifiedBlob. rewrite G1, G2, G4, G5. unfold verifying_reader.
  rewrite (decide_True _ _ G3). by destruct (VerifyOnRead s').
Qed.

(** Content that is already stored is never written again: a [Put] that finds
    the hash recorded leaves the backend untouched, only consumes the reader, and
    raises the reference count by one. *)
Theorem Put_dedup s name hash size rp r now s' :
  cas_inv s → is_Some (objects (db s) !! hash) →
  is_int64 size → 0 <= size → refcount (db s) hash < MaxInt64 →
  Put s name hash size rp (Some r) now = (Ok tt, s') →
  blobs s' = blobs s ∧ rd_err r = None
  ∧ refcount (db s') hash = refcount (db s) hash + 1
  ∧ GetHashForName s' name = Ok hash.
Proof.
  intros Hi Ho Hs H0 Hm. unfold Put, PutWithMetadata.
  destruct (HasPathTraversalChars hash); [discriminate|].
  destruct (put_blob_phase s hash (Some r)) as [res s1] eqn:Ep.
  assert (res = Ok tt → s1 = s ∧ rd_err r = None) as Hsame.
  { intros ->. unfold put_blob_phase, hasInternal in Ep. rewrite bool_decide_eq_true_2 in Ep by done.
    pose proof (ci_bytes s Hi hash Ho) as Hv.
    destruct BlobExists as [f|] eqn:Ef.
    - destruct (f (blobs s) hash) as [ex|] eqn:Ex; [|discriminate].
      apply (exists_ok f) in Ex; [|done|apply Hi]. rewrite bool_decide_eq_true_2 in Ex by done. subst ex.
      destruct (rd_err r); [discriminate|]. by injection Ep as <-.
    - destruct (rd_err r); [discriminate|]. by injection Ep as <-. }
  destruct res as [[]|]; [|discriminate]. destruct (Hsame eq_refl) as [-> Hrd].
  destruct (put_tx _ _ _ _ _ _ _ _ _) as [d|] eqn:Et; [|discriminate]. intros [= <-].
  apply put_tx_Ok in Et as (m & p & Hrec & -> & _).
  destruct (put_record_ok _ _ _ _ (ci_db s Hi) Hrec Hs H0 Hm) as (Hd & _ & Hcnt).
  split_and!; try done.
  - unfold refcount at 1. cbn [db invalidateCache with_cache with_db objects].
    rewrite lookup_insert_eq, Hd. done.
  - unfold GetHashForName. cbn [db invalidateCache with_cache with_db tombstones namespace].
    by rewrite lookup_delete_eq, lookup_insert_eq.
Qed.

(** [List] succeeds on every consistent store and reports each visible
    object exactly once, with exactly the metadata [GetMeta] returns for its name;
    names under a tombstone are never listed. *)
Theorem List_exact s :
  cas_inv s →
  ∃ l, List s = Ok l ∧ NoDup (Name <$> l) ∧ ∀ f, f ∈ l ↔ GetMeta s (Name f) = Ok f.
Proof.
  intros Hi. exists (omap (list_entry (db s)) (cursor (namespace (db s)))). split_and!.
  - apply list_loop_entries, Forall_forall. intros [n h] Hin%elem_of_cursor. cbn [fst].
    unfold list_entry. cbn [fst snd]. destruct (tombstones (db s) !! n); [right; by eexists|left].
    pose proof (names_pos _ _ _ Hin) as Hp. pose proof (di_ref _ (ci_db s Hi) h) as Hr.
    unfold refcount in Hr. destruct (objects (db s) !! h) as [v|] eqn:Ev; [|lia].
    destruct (di_obj _ (ci_db s Hi) h v Ev) as (m & Hm & _ & _ & _ & Hsz).
    unfold read_meta. rewrite Ev, Hm, (proj2 (Z.ltb_ge _ _)) by lia. by eexists.
  - apply list_entry_nodup, cursor_keys_nodup.
  - intros f. rewrite list_elem_of_omap. unfold GetMeta, GetHashForName. split.
    + intros ([n h] & Hin%elem_of_cursor & Hf). unfold list_entry in Hf. cbn [fst snd] in Hf.
      destruct (tombstones (db s) !! n) eqn:Et; [discriminate|].
      destruct (read_meta (db s) n h) as [g|] eqn:Er; [|discriminate]. injection Hf as <-.
      destruct (read_meta_name _ _ _ _ Er) as [-> _].
      by rewrite Et, Hin.
    + destruct (tombstones (db s) !! Name f) eqn:Et; [discriminate|].
      destruct (namespace (db s) !! Name f) as [h|] eqn:En; [|discriminate]. intros Hr.
      exists (Name f, h). split; [by apply elem_of_cursor|]. unfold list_entry. cbn [fst snd].
      by rewrite Et, Hr.
Qed.

(** Garbage collection never touches a visible object of a consistent store: it
    keeps the store consistent, and every visible non-empty object reads exactly
    as before. *)
Theorem runGC_keeps_visible s retention now :
  cas_inv s →
  let s' := (runGC s retention now).2 in
  cas_inv s' ∧ ∀ n h c, GetHashForName s n = Ok h → blob_view (blobs s) !! h = Some c → c ≠ [] →
    Get s' n = Get s n.
Proof.
  intros Hi s'. pose proof (runGC_inv s retention now Hi) as Hi'. split; [done|].
  intros n h c Hg Hc Hne. unfold s', runGC in *.
  destruct (sweepOrphanedBlobs s) as [r s1] eqn:E.
  apply sweep_spec in E as (Hi1 & S1 & S2 & S3 & S4 & S5 & S6 & S7); [|done].
  pose proof Hg as Hg2. unfold GetHashForName in Hg2.
  destruct (tombstones (db s) !! n) eqn:Et; [discriminate|].
  destruct (namespace (db s) !! n) as [h'|] eqn:En; [|discriminate]. simplify_eq.
  destruct (S7 h (names_pos _ _ _ En)) as [Hob Hbl].
  eapply (same_read_Get s); [apply Hi|apply Hi'| |done|done|done].
  destruct r as [u|e]; cbn [snd]; split; unfold GetHashForName, read_meta, quarantined;
    cbn [add_gc sweepExpiredTombstones with_db db set_tombstones tombstones namespace
         paths modtimes quarantine VerifyOnRead blobs objects];
    rewrite ?S1, ?S2, ?S3, ?S4, ?S5, ?S6, ?Hob; try done.
  rewrite foldl_delete_lookup, Et. by case_decide.
Qed.

(** The orphan sweep skips every record this version writes: it only looks at
    24-byte values, and [encode] never produces one, so a store all of whose
    records were written by [encode] is left unchanged, zero reference counts
    included. *)
Theorem sweep_skips_encoded s :
  (∀ h v, objects (db s) !! h = Some v → ∃ m, v = encode m) →
  sweepOrphanedBlobs s = (Ok tt, s).
Proof.
  intros He. unfold sweepOrphanedBlobs. rewrite orphan_scan_none.
  - destruct s as [[]]. done.
  - apply Forall_forall. intros [k v] Hin%elem_of_cursor. destruct (He k v Hin) as [m ->]. cbn [snd].
    rewrite length_encode. lia.
Qed.

(** A remote tombstone is applied without looking at the object's
    modification time: an object written at time [now] is deleted by a tombstone
    of any earlier deletion, because the write itself removed the local
    tombstone the staleness test relies on. *)
Theorem stale_tombstone_deletes s name hash size rp r now at_ s1 :
  cas_inv s → is_int64 size → 0 <= size → refcount (db s) hash < MaxInt64 →
  is_int64 at_ → at_ < now →
  Put s name hash size rp (Some r) now = (Ok tt, s1) →
  GetHashForName s1 name = Ok hash
  ∧ ∃ s2, ApplyTombstone s1 name at_ = (Ok tt, s2) ∧ GetHashForName s2 name = Err (Errno ENOENT).
Proof.
  intros Hi Hs H0 Hm Ha _ Hp.
  pose proof (Put_inv s name hash size rp r now Hi Hs H0 Hm) as Hi1. rewrite Hp in Hi1. cbn in Hi1.
  unfold Put, PutWithMetadata in Hp. destruct (HasPathTraversalChars hash); [discriminate|].
  destruct (put_blob_phase s hash (Some r)) as [res s0] eqn:Ep.
  destruct res; [|discriminate]. destruct (put_tx _ _ _ _ _ _ _ _ _) as [d|] eqn:Et; [|discriminate].
  injection Hp as <-. destruct (put_tx_keys _ _ _ _ _ _ _ Et) as [Kn Kh].
  apply put_tx_Ok in Et as (m & p & Hrec & Ed & _).
  set (s1 := invalidateCache (with_db d s0) name) in *.
  assert (tombstones (db s1) !! name = None ∧ namespace (db s1) !! name = Some hash) as [Hts Hns].
  { cbn [s1 db invalidateCache with_cache with_db]. rewrite Ed. cbn [tombstones namespace].
    by rewrite lookup_delete_eq, lookup_insert_eq. }
  split; [unfold GetHashForName; by rewrite Hts, Hns|].
  unfold ApplyTombstone, tombstone_covers. rewrite Hts.
  destruct (delete_tx ErrPlain name at_ (db s1)) as [[d2 o]|e] eqn:E2.
  - eexists. split; [done|].
    apply delete_tx_spec in E2 as (Hdi & _ & Ets & _ & _ & _ & Ho & Hex & _); [|apply Hi1|done].
    assert (cas_inv (with_db d2 s1)) as Hid.
    { split; [apply Hi1|done|]. intros k Hk. by apply (ci_bytes s1 Hi1), Hex. }
    destruct (reap_spec false o _ Hid Ho) as (_ & _ & R2 & _).
    unfold GetHashForName. rewrite R2. cbn [db with_db]. by rewrite Ets, lookup_insert_eq.
  - exfalso. destruct (delete_tx_total ErrPlain name hash at_ (db s1)) as [x Hx];
      [apply Hi1|done|done|done|]. congruence.
Qed.

(** Writing a name again over the same content adds a reference that no
    delete of the name will drop: the count grows while the number of names
    stays, so the blob outlives all its names. *)
Theorem overwrite_leaks_reference s name hash size rp r now s' :
  cas_inv s → is_int64 size → 0 <= size → refcount (db s) hash < MaxInt64 →
  namespace (db s) !! name = Some hash →
  Put s name hash size rp (Some r) now = (Ok tt, s') →
  namespace (db s') = namespace (db s) ∧ refcount (db s') hash = refcount (db s) hash + 1.
Proof.
  intros Hi Hs H0 Hm Hn. unfold Put, PutWithMetadata.
  destruct (HasPathTraversalChars hash); [discriminate|].
  destruct (put_blob_phase s hash (Some r)) as [res s0] eqn:Ep.
  apply put_blob_phase_spec in Ep as (Hd & _); [|done].
  destruct res; [|discriminate]. rewrite Hd.
  destruct (put_tx _ _ _ _ _ _ _ _ _) as [d|] eqn:Et; [|discriminate]. intros [= <-].
  apply put_tx_Ok in Et as (m & p & Hrec & -> & _).
  destruct (put_record_ok _ _ _ _ (ci_db s Hi) Hrec Hs H0 Hm) as (Hdec & _ & Hcnt).
  cbn [db invalidateCache with_cache with_db namespace]. split; [by apply insert_id|].
  unfold refcount at 1. cbn [objects]. by rewrite lookup_insert_eq, Hdec.
Qed.
End Guarantees.

(** ** Witnesses: a store over the reference backend *)
Definition ex_body : bytes := bs "hi".
Definition ex_hash : bytes := HashBytes ex_body.
Definition ex0 : CASStore (gmap bytes bytes) := newCASStore ∅.
Definition ex1 := (Put ex0 (bs "a") ex_hash 2 (bs "/d/a") (Some (reader_of ex_body)) 5).2.
Definition ex2 := (Put ex1 (bs "b") ex_hash 2 [] (Some (reader_of ex_body)) 6).2.

Lemma run_ok {A S} (x : A * S) a : x.1 = a → x = (a, x.2).
Proof. destruct x. cbn. by intros ->. Defined.

Lemma ex0_inv : cas_inv ex0.
Proof. by apply new_inv. Qed.

Lemma ex1_inv : cas_inv ex1.
Proof. apply Put_inv; [apply ex0_inv|done..]. Qed.

Lemma ex2_inv : cas_inv ex2.
Proof. apply Put_inv; [apply ex1_inv|done|done|]. vm_compute. done. Qed.

Lemma Put_dedup_witness :
  blobs ex2 = blobs ex1 ∧ rd_err (reader_of ex_body) = None
  ∧ refcount (db ex2) ex_hash = refcount (db ex1) ex_hash + 1
  ∧ GetHashForName ex2 (bs "b") = Ok ex_hash.
Proof.
  apply (Put_dedup ex1 (bs "b") ex_hash 2 [] (reader_of ex_body) 6 ex2); [apply ex1_inv| |done|done| |].
  - vm_compute. by eexists.
  - vm_compute. done.
  - apply run_ok. vm_compute. reflexivity.
Defined.

Lemma List_exact_witness :
  ∃ l, List ex2 = Ok l ∧ NoDup (Name <$> l) ∧ ∀ f, f ∈ l ↔ GetMeta ex2 (Name f) = Ok f.
Proof. apply (List_exact ex2), ex2_inv. Defined.

Lemma runGC_keeps_visible_witness :
  let s' := (runGC ex2 100 1000).2 in
  cas_inv s' ∧ ∀ n h c, GetHashForName ex2 n = Ok h → blob_view (blobs ex2) !! h = Some c → c ≠ [] →
    Get s' n = Get ex2 n.
Proof. apply (runGC_keeps_visible ex2 100 1000), ex2_inv. Defined.

Definition ex_zero : ObjectMeta := mkObjectMeta 2 0 9 [] [] [].
Definition ex_swept := with_db (set_objects {[ ex_hash := encode ex_zero ]} (db ex0)) ex0.

Lemma sweep_skips_encoded_witness : sweepOrphanedBlobs ex_swept = (Ok tt, ex_swept).
Proof.
  apply (sweep_skips_encoded ex_swept). intros h v Hv.
  change (objects (db ex_swept)) with ({[ ex_hash := encode ex_zero ]} : bucket bytes) in Hv.
  apply lookup_singleton_Some in Hv as [_ Hv]. exists ex_zero. symmetry. exact Hv.
Defined.

Lemma stale_tombstone_deletes_witness :
  GetHashForName ex1 (bs "a") = Ok ex_hash
  ∧ ∃ s2, ApplyTombstone ex1 (bs "a") 3 = (Ok tt, s2) ∧ GetHashForName s2 (bs "a") = Err (Errno ENOENT).
Proof.
  apply (stale_tombstone_deletes ex0 (bs "a") ex_hash 2 (bs "/d/a") (reader_of ex_body) 5 3 ex1);
    [apply ex0_inv|done..].
Defined.

Lemma overwrite_leaks_reference_witness :
  let s' := (Put ex1 (bs "a") ex_hash 2 [] (Some (reader_of ex_body)) 8).2 in
  namespace (db s') = namespace (db ex1) ∧ refcount (db s') ex_hash = refcount (db ex1) ex_hash + 1.
Proof.
  apply (overwrite_leaks_reference ex1 (bs "a") ex_hash 2 [] (reader_of ex_body) 8);
    [apply ex1_inv|done|done|vm_compute; done|vm_compute; reflexivity|].
  apply run_ok. vm_compute. reflexivity.
Defined.
