(* ===== verification/Repair.v ===== *)
(** * Scrubbing, quarantine and self-healing
    (src/src/storage/integrity.go, rebuild.go, read_verifier.go)

    The scrubber re-hashes every referenced blob and removes the ones that no
    longer match their key; the rebuild loop and the degraded read restore a
    blob from a surviving replica.  The replica set is the code's own
    [RebuildSource] interface, a record of its three calls; [pushed] records
    what was handed to [Restore]. *)
From S2P Require Import Prelude GoText Hashes Paths ObjectMeta BlobStore CasStore.
Open Scope Z_scope.

Record Peer := mkRPeer { PeerID : Z; PeerDomain : bytes }.

Record RebuildSource := mkSource {
  Survivors : bytes → result (list Peer);
  Fetch : bytes → Peer → result reader;
  Restore : bytes → bytes → result unit
}.

(** The part of [CASStore] the healing code adds: the armed source and policy,
    the trusted set of the verified-read cache, the repair counter. *)
Record RStore (B : Type) := mkRS {
  rcas : CASStore B;
  rebuildSource : option RebuildSource;
  degradedRead : bool;
  trusted : gset bytes;
  repairs : Z;
  pushed : list (bytes * bytes)
}.
Arguments mkRS {B}.
Arguments rcas {B}.
Arguments rebuildSource {B}.
Arguments degradedRead {B}.
Arguments trusted {B}.
Arguments repairs {B}.
Arguments pushed {B}.

Definition set_quarantine (q : bucket bytes) (d : DB) : DB :=
  mkDB (objects d) (namespace d) (paths d) (modtimes d) (tombstones d) q.

Section Heal.
Context {B : Type} `{BlobStore B}.
Implicit Types (s : RStore B).

Definition with_rcas (c : CASStore B) s : RStore B :=
  mkRS c (rebuildSource s) (degradedRead s) (trusted s) (repairs s) (pushed s).
Definition with_trusted (t : gset bytes) s : RStore B :=
  mkRS (rcas s) (rebuildSource s) (degradedRead s) t (repairs s) (pushed s).

(** [MarkTrusted] of the verified-read cache. *)
Definition MarkTrusted s (hash : bytes) : RStore B := with_trusted ({[ hash ]} ∪ trusted s) s.

(** ** Quarantine marks *)

(** A failed write of the mark is ignored by every caller. *)
Definition quarantineMark s (hash : bytes) : RStore B :=
  match bput hash [Byte.x01] (quarantine (db (rcas s))) with
  | None => s
  | Some q => with_rcas (with_db (set_quarantine q (db (rcas s))) (rcas s)) s
  end.

Definition quarantineClear s (hash : bytes) : RStore B :=
  with_rcas (with_db (set_quarantine (delete hash (quarantine (db (rcas s)))) (db (rcas s))) (rcas s)) s.

Definition quarantinedHashes s : list bytes := (cursor (quarantine (db (rcas s)))).*1.

(** ** The scrubber *)
Definition referenced (v : bytes) : bool :=
  if (length v <? 24)%nat then false
  else match decodeObjectMeta v with
       | Err _ => false
       | Ok m => 0 <? RefCount m
       end.

Definition referencedBlobs s : list bytes :=
  (filter (λ kv, referenced kv.2 = true) (cursor (objects (db (rcas s))))).*1.

(** [quarantine] of the scrubber: delete the bytes, then the record. *)
Definition scrub_quarantine s (hash : bytes) : result unit * RStore B :=
  let '(r, b) := DeleteBlob (blobs (rcas s)) hash in
  let s := with_rcas (with_blobs b (rcas s)) s in
  match r with
  | Err e => (Err e, s)
  | Ok _ =>
      let d := db (rcas s) in
      (Ok tt, with_rcas (with_db (set_objects (delete hash (objects d)) d) (rcas s)) s)
  end.

(** [scrubBlob] on an open store: whether the blob was quarantined. *)
Definition scrubBlob s (hash : bytes) : result bool * RStore B :=
  match GetBlob (blobs (rcas s)) hash with
  | Err e => if decide (e = Errno ENOENT) then (Ok false, s) else (Err e, s)
  | Ok c =>
      if decide (HashBytes c = hash) then (Ok false, MarkTrusted s hash)
      else let '(r, s) := scrub_quarantine s hash in
           match r with Err e => (Err e, s) | Ok _ => (Ok true, s) end
  end.

(** The loop of [runScrub]: a blob that cannot be checked is logged and skipped. *)
Definition scrub_step s (hash : bytes) : RStore B := (scrubBlob s hash).2.
Definition runScrub s : RStore B := foldl scrub_step s (referencedBlobs s).

(** ** Restoring a blob *)
Definition localCopyVerified s (hash : bytes) : bool :=
  match GetBlob (blobs (rcas s)) hash with
  | Err _ => false
  | Ok c => bool_decide (HashBytes c = hash)
  end.

(** [storeVerified]: spool, hash, and only then put. *)
Definition storeVerified s (hash : bytes) (src : reader) : bool * RStore B :=
  match read_all src with
  | Err _ => (false, s)
  | Ok c =>
      if decide (HashBytes c = hash) then
        let '(r, b) := PutBlob (blobs (rcas s)) hash (reader_of c) in
        (is_ok r, with_rcas (with_blobs b (rcas s)) s)
      else (false, s)
  end.

Fixpoint fetch_loop (src : RebuildSource) (hash : bytes) (peers : list Peer) s
    : result bytes * RStore B :=
  match peers with
  | [] => (Err (Errno ENOENT), s)
  | peer :: rest =>
      match Fetch src hash peer with
      | Err _ => fetch_loop src hash rest s
      | Ok rc =>
          let '(ok, s) := storeVerified s hash rc in
          if (ok : bool) then
            match GetBlob (blobs (rcas s)) hash with
            | Err e => (Err e, s)
            | Ok f => (Ok f, quarantineClear (MarkTrusted s hash) hash)
            end
          else fetch_loop src hash rest (quarantineMark s hash)
      end
  end.

Definition fetchVerifiedToLocal s (hash : bytes) : result bytes * RStore B :=
  match rebuildSource s with
  | None => (Err (Errno ENOENT), s)
  | Some src =>
      match Survivors src hash with
      | Err e => (Err e, s)
      | Ok peers => fetch_loop src hash peers s
      end
  end.

(** A stream [openVerifiedBlob] hands out; [st_hold] tells that a mismatch at
    EOF marks the blob. *)
Record stream := mkStream { st_reader : reader; st_hold : bool }.

(** [openVerifiedBlob] under the armed or unarmed policy. *)
Definition openBlob s (hash : bytes) : result stream * RStore B :=
  let flagged := quarantined (rcas s) hash in
  let armed := degradedRead s && bool_decide (is_Some (rebuildSource s)) in
  let degraded :=
    if armed then
      let '(r, s) := fetchVerifiedToLocal s hash in
      (match r with Ok c => Ok (mkStream (reader_of c) false) | Err e => Err e end, s)
    else (Err (Errno ENOENT), s) in
  match GetBlob (blobs (rcas s)) hash with
  | Ok c =>
      if flagged then degraded
      else if VerifyOnRead (rcas s) then (Ok (mkStream (verifying_reader c hash) armed), s)
      else (Ok (mkStream (reader_of c) false), s)
  | Err e => if decide (e = Errno ENOENT) then degraded else (Err e, s)
  end.

(** Reading a stream to its end. *)
Definition drain s (hash : bytes) (st : stream) : result bytes * RStore B :=
  match read_all (st_reader st) with
  | Ok c => (Ok c, s)
  | Err e => (Err e, if st_hold st then quarantineMark s hash else s)
  end.

Definition open_and_drain s (hash : bytes) : result bytes * RStore B :=
  let '(r, s) := openBlob s hash in
  match r with
  | Err e => (Err e, s)
  | Ok st => drain s hash st
  end.

(** [Get] over the whole read path: the name, the blob under the read policy, the
    record. *)
Definition rGet s (name : bytes) : result (stream * FileMetadata) * RStore B :=
  match GetHashForName (rcas s) name with
  | Err e => (Err e, s)
  | Ok hash =>
      let '(f, s) := openBlob s hash in
      match f with
      | Err e => (Err e, s)
      | Ok st => match read_meta (db (rcas s)) name hash with
                 | Err e => (Err e, s)
                 | Ok meta => (Ok (st, meta), s)
                 end
      end
  end.

(** Getting a name and reading its stream to the end. *)
Definition read_name s (name : bytes) : result (bytes * FileMetadata) * RStore B :=
  let '(r, s) := rGet s name in
  match r with
  | Err e => (Err e, s)
  | Ok (st, meta) => let '(x, s) := drain s (Hash meta) st in
                     (match x with Ok c => Ok (c, meta) | Err e => Err e end, s)
  end.

(** ** The rebuild pass *)
Fixpoint dedup (seen l : list bytes) : list bytes :=
  match l with
  | [] => []
  | h :: l' => if decide (h ∈ seen) then dedup seen l' else h :: dedup (h :: seen) l'
  end.
Definition rebuildSet s : list bytes := dedup [] (referencedBlobs s ++ quarantinedHashes s).

Definition push s (src : RebuildSource) (hash content : bytes) : result unit * RStore B :=
  (Restore src hash content,
   mkRS (rcas s) (rebuildSource s) (degradedRead s) (trusted s) (repairs s) (pushed s ++ [(hash, content)])).

Definition count_repair s : RStore B :=
  mkRS (rcas s) (rebuildSource s) (degradedRead s) (trusted s) (uint64 (repairs s + 1)) (pushed s).

Definition repairBlob s (hash : bytes) (cfgSource : option RebuildSource) (target : Z) : RStore B :=
  match cfgSource with
  | None => s
  | Some src =>
      if target <=? 0 then s
      else match Survivors src hash with
      | Err _ => s
      | Ok survivors =>
          let localOK := localCopyVerified s hash in
          let flagged := quarantined (rcas s) hash in
          let verified := Z.of_nat (length survivors) + (if localOK then 1 else 0) in
          if negb flagged && (target <=? verified) then s
          else
            let local := if localOK then GetBlob (blobs (rcas s)) hash else Err (Errno ENOENT) in
            let '(content, s) :=
              match local with
              | Ok f => (Ok f, s)
              | Err _ => fetchVerifiedToLocal s hash
              end in
            match content with
            | Err _ => s
            | Ok c =>
                let '(r, s) := push s src hash c in
                match r with
                | Err _ => s
                | Ok _ => count_repair (quarantineClear s hash)
                end
            end
      end
  end.

(** One pass; the workers repair different blobs, in the order [order] in which
    they take the locks. *)
Definition run_repairs s (order : list bytes) (cfgSource : option RebuildSource) (target : Z) : RStore B :=
  foldl (λ s h, repairBlob s h cfgSource target) s order.
Definition runRebuild s (cfgSource : option RebuildSource) (target : Z) : RStore B :=
  run_repairs s (rebuildSet s) cfgSource target.

(** ** The local part of the read path *)
Definition armed s : bool := degradedRead s && bool_decide (is_Some (rebuildSource s)).

(** A copy that is present and unmarked is read the same way armed or not; without an
    armed source every read is the one of CasStore.v. *)
Lemma openBlob_local s hash :
  armed s = false ∨ (is_ok (GetBlob (blobs (rcas s)) hash) = true ∧ quarantined (rcas s) hash = false) →
  openBlob s hash = (match openVerifiedBlob (rcas s) hash with
                     | Ok rd => Ok (mkStream rd (armed s && VerifyOnRead (rcas s)))
                     | Err e => Err e
                     end, s).
Proof.
  unfold armed, openBlob, openVerifiedBlob. set (a := degradedRead s && _).
  destruct (GetBlob (blobs (rcas s)) hash) as [c|e].
  - intros [Ha|[_ ->]]; [rewrite Ha|]; destruct (quarantined (rcas s) hash), (VerifyOnRead (rcas s)); by rewrite ?andb_true_r, ?andb_false_r.
  - intros [Ha|[[=] _]]. rewrite Ha. by destruct (decide _).
Qed.

Lemma rGet_local s name hash :
  GetHashForName (rcas s) name = Ok hash →
  armed s = false ∨ (is_ok (GetBlob (blobs (rcas s)) hash) = true ∧ quarantined (rcas s) hash = false) →
  rGet s name = (match Get (rcas s) name with
                 | Ok (rd, meta) => Ok (mkStream rd (armed s && VerifyOnRead (rcas s)), meta)
                 | Err e => Err e
                 end, s).
Proof.
  intros Hh Hl. unfold rGet, Get. rewrite Hh, (openBlob_local s hash Hl).
  destruct (openVerifiedBlob _ _); [|done]. by destruct (read_meta _ _ _).
Qed.
End Heal.
