(* ===== verification/RepairProps.v ===== *)
(** * What scrubbing and healing guarantee

    The scrubber removes exactly the corrupted blobs; a degraded read never
    hands out bytes that do not match the key and restores the local copy when
    one survivor can; a rebuild pass clears the whole working set.  The healing
    theorems need a backend whose put replaces an existing blob ([Replaces]);
    the local file store does that by its rename, the raw-device store does
    not, and [repair_keeps_corrupt] shows the consequence. *)
From S2P Require Import Prelude GoText Hashes Paths ObjectMeta BlobStore RawStore CasStore Repair.
Open Scope Z_scope.
#[local] Opaque HashBytes sha256.

(** A backend whose acknowledged put always stores the new content. *)
Class Replaces (B : Type) `{BlobStoreSpec B} : Prop :=
  put_replaces b h c b' : blob_inv b → PutBlob b h (reader_of c) = (Ok tt, b') →
    blob_view b' = <[h := c]> (blob_view b).

#[export] Instance mem_replaces : Replaces (gmap bytes bytes).
Proof. intros b h c b' _. cbn. rewrite app_nil_r. by intros [= <-]. Qed.

Lemma elem_of_dedup seen l x : x ∈ dedup seen l ↔ x ∈ l ∧ x ∉ seen.
Proof.
  revert seen. induction l as [|h l IH]; intros seen; cbn [dedup].
  - split; [by intros ?%elem_of_nil|by intros [?%elem_of_nil _]].
  - case_decide; rewrite ?elem_of_cons, IH, ?elem_of_cons; [set_solver|].
    destruct (decide (x = h)); set_solver.
Qed.

Lemma dedup_nodup seen l : NoDup (dedup seen l).
Proof.
  revert seen. induction l as [|h l IH]; intros seen; cbn [dedup]; [constructor|].
  case_decide; [apply IH|]. constructor; [|apply IH]. rewrite elem_of_dedup. set_solver.
Qed.

Section Scrub.
Context {B : Type} `{Hspec : BlobStoreSpec B}.
Implicit Types (s : RStore B).

Notation view s := (blob_view (blobs (rcas s))).
Notation objs s := (objects (db (rcas s))).

(** What one scrub step may change: only its own hash, and only by removal. *)
Record scrubbed (s s' : RStore B) (hs : list bytes) : Prop := {
  sc_inv : blob_inv (blobs (rcas s'));
  sc_meta : ∃ o, db (rcas s') = set_objects o (db (rcas s));
  sc_out : ∀ h, h ∉ hs → view s' !! h = view s !! h ∧ objs s' !! h = objs s !! h;
  sc_good : ∀ h c, view s !! h = Some c → c ≠ [] → HashBytes c = h →
    view s' !! h = view s !! h ∧ objs s' !! h = objs s !! h;
  sc_sub : ∀ h, view s' !! h = view s !! h ∨ view s' !! h = None;
  sc_cfg : rebuildSource s' = rebuildSource s ∧ degradedRead s' = degradedRead s
           ∧ VerifyOnRead (rcas s') = VerifyOnRead (rcas s) ∧ metaCache (rcas s') = metaCache (rcas s)
}.

Lemma scrubbed_refl s hs : blob_inv (blobs (rcas s)) → scrubbed s s hs.
Proof. intros Hi. split; auto. by exists (objs s); destruct (db (rcas s)). Qed.

Lemma scrubbed_trans s1 s2 s3 h hs :
  scrubbed s1 s2 [h] → scrubbed s2 s3 hs → scrubbed s1 s3 (h :: hs).
Proof.
  intros [I1 [o1 M1] O1 G1 S1 (C1 & C2 & C3 & C4)] [I2 [o2 M2] O2 G2 S2 (D1 & D2 & D3 & D4)]. split; [done|..].
  - exists o2. rewrite M2, M1. done.
  - intros x [Hx Hx']%not_elem_of_cons. destruct (O1 x), (O2 x); [set_solver..|]. split; congruence.
  - intros x c Hv Hn Hc. destruct (G1 x c Hv Hn Hc) as [E1 E2].
    destruct (G2 x c) as [E3 E4]; [congruence|done..|]. split; congruence.
  - intros x. destruct (S2 x) as [E|E]; [|by right]. rewrite E. apply S1.
  - split_and!; congruence.
Qed.

Lemma scrub_step_spec s h :
  blob_inv (blobs (rcas s)) →
  scrubbed s (scrub_step s h) [h]
  ∧ ((∀ b, (DeleteBlob b h).1 = Ok tt) →
     ∀ c, GetBlob (blobs (rcas s)) h = Ok c → HashBytes c ≠ h →
       view (scrub_step s h) !! h = None ∧ objs (scrub_step s h) !! h = None).
Proof.
  intros Hi. unfold scrub_step, scrubBlob.
  destruct (GetBlob (blobs (rcas s)) h) as [c|e] eqn:Eg.
  2:{ destruct (decide _); cbn [snd]; (split; [by apply scrubbed_refl|by intros _ c [=]]). }
  destruct (decide (HashBytes c = h)) as [Hc|Hc]; cbn [snd].
  { split; [|intros _ c' [= <-]; done]. destruct (scrubbed_refl s [h] Hi) as [? M O G S ?]. by split. }
  unfold scrub_quarantine. destruct (DeleteBlob (blobs (rcas s)) h) as [[[]|e] b] eqn:Ed; cbn [snd].
  - pose proof (delete_ok _ _ _ Hi Ed) as Hv. pose proof (delete_inv (blobs (rcas s)) h Hi) as Hi'.
    rewrite Ed in Hi'. split.
    + split; cbn [rcas with_rcas with_db with_blobs db blobs objects set_objects VerifyOnRead metaCache
                  rebuildSource degradedRead]; [done|by eexists|..|done].
      * intros x Hx. rewrite Hv. apply not_elem_of_cons in Hx as [Hx _]. by rewrite !lookup_delete_ne by done.
      * intros x c' Hx Hn Hc'. destruct (decide (x = h)) as [->|Hne].
        -- rewrite (get_ok _ _ _ Hi Hx Hn) in Eg. congruence.
        -- by rewrite Hv, !lookup_delete_ne by done.
      * intros x. rewrite Hv. destruct (decide (x = h)) as [->|Hne]; [right; by rewrite lookup_delete_eq|].
        left. by rewrite lookup_delete_ne by done.
    + intros _ c' _ _. cbn [rcas with_rcas with_db with_blobs db blobs objects set_objects].
      rewrite Hv. by rewrite !lookup_delete_eq.
  - pose proof (delete_err _ _ _ _ Hi Ed) as Hv. pose proof (delete_inv (blobs (rcas s)) h Hi) as Hi'.
    rewrite Ed in Hi'. split.
    + split; cbn [rcas with_rcas with_blobs db blobs VerifyOnRead metaCache rebuildSource degradedRead]; rewrite ?Hv;
        [done|by exists (objs s); destruct (db (rcas s))|auto..].
    + intros Hd c' _ _. specialize (Hd (blobs (rcas s))). by rewrite Ed in Hd.
Qed.

Lemma scrub_fold hs s :
  blob_inv (blobs (rcas s)) → NoDup hs →
  scrubbed s (foldl scrub_step s hs) hs
  ∧ ((∀ b h, h ∈ hs → (DeleteBlob b h).1 = Ok tt) →
     ∀ h c, h ∈ hs → view s !! h = Some c → c ≠ [] → HashBytes c ≠ h →
       view (foldl scrub_step s hs) !! h = None ∧ objs (foldl scrub_step s hs) !! h = None).
Proof.
  revert s. induction hs as [|x hs IH]; intros s Hi Hnd; cbn [foldl].
  { split; [by apply scrubbed_refl|by intros _ ? ? ?%elem_of_nil]. }
  apply NoDup_cons in Hnd as [Hx Hnd]. destruct (scrub_step_spec s x Hi) as [Hs1 Hd1].
  destruct (IH (scrub_step s x) (sc_inv _ _ _ Hs1) Hnd) as [Hs2 Hd2].
  split; [by eapply scrubbed_trans|]. intros Hdel h c Hin Hv Hn Hc.
  apply elem_of_cons in Hin as [->|Hin].
  - destruct (sc_out _ _ _ Hs2 x Hx) as [-> ->]. eapply Hd1; eauto; [|by eapply get_ok].
    intros b. apply Hdel. left.
  - apply (Hd2 (λ b h' H', Hdel b h' (list_elem_of_further _ _ _ H')) h c Hin); [|done..]. destruct (sc_out _ _ _ Hs1 h) as [-> _]; [|done]. set_solver.
Qed.

Lemma elem_of_referenced s h :
  h ∈ referencedBlobs s ↔ ∃ v, objs s !! h = Some v ∧ referenced v = true.
Proof.
  unfold referencedBlobs. rewrite list_elem_of_fmap. split.
  - intros ([k v] & -> & [Hr Hin%elem_of_cursor]%list_elem_of_filter). eauto.
  - intros (v & Hv & Hr). exists (h, v). split; [done|]. apply list_elem_of_filter. by rewrite elem_of_cursor.
Qed.

Lemma referenced_nodup s : NoDup (referencedBlobs s).
Proof. apply (NoDup_map_filter fst). apply cursor_keys_nodup. Qed.

(** A scrub pass removes exactly the corrupted blobs: every referenced blob
    that no longer hashes to its key loses its bytes and its record, a blob that
    does keeps both, names, tombstones and quarantine marks are untouched, and
    afterwards every referenced blob that is present verifies. *)
Theorem scrub_exact s :
  blob_inv (blobs (rcas s)) → (∀ b h, h ∈ referencedBlobs s → (DeleteBlob b h).1 = Ok tt) →
  let s' := runScrub s in
  blob_inv (blobs (rcas s'))
  ∧ (∀ h c, h ∈ referencedBlobs s → view s !! h = Some c → c ≠ [] →
       if decide (HashBytes c = h)
       then view s' !! h = Some c ∧ objs s' !! h = objs s !! h
       else view s' !! h = None ∧ objs s' !! h = None)
  ∧ (∃ o, db (rcas s') = set_objects o (db (rcas s)))
  ∧ (∀ h, h ∉ referencedBlobs s → view s' !! h = view s !! h ∧ objs s' !! h = objs s !! h)
  ∧ ∀ h c, h ∈ referencedBlobs s' → view s' !! h = Some c → c ≠ [] → HashBytes c = h.
Proof.
  intros Hi Hdel. cbv zeta. unfold runScrub.
  destruct (scrub_fold (referencedBlobs s) s Hi (referenced_nodup s)) as [Hs Hd].
  split_and!; [apply Hs| |apply Hs|apply Hs|].
  - intros h c Hin Hv Hn. destruct (decide (HashBytes c = h)) as [Hc|Hc]; [|by eapply Hd].
    destruct (sc_good _ _ _ Hs h c Hv Hn Hc) as [-> ->]. by rewrite Hv.
  - intros h c (v & Hv & Hr)%elem_of_referenced Hv' Hn.
    destruct (sc_sub _ _ _ Hs h) as [E|E]; [|congruence]. rewrite E in Hv'.
    destruct (decide (HashBytes c = h)) as [Hc|Hc]; [done|]. exfalso.
    destruct (decide (h ∈ referencedBlobs s)) as [Hin|Hout].
    + destruct (Hd Hdel h c Hin Hv' Hn Hc) as [_ E']. congruence.
    + apply Hout, elem_of_referenced. destruct (sc_out _ _ _ Hs h Hout) as [_ E']. rewrite E' in Hv. eauto.
Qed.
End Scrub.

Section Healing.
Context {B : Type} `{Hspec : BlobStoreSpec B} `{!Replaces B}.
Implicit Types (s : RStore B).

Notation view s := (blob_view (blobs (rcas s))).
Notation marks s := (quarantine (db (rcas s))).

(** Healing one blob touches its bytes and its mark, nothing else. *)
Record healed (s s' : RStore B) (h : bytes) : Prop := {
  he_inv : blob_inv (blobs (rcas s'));
  he_view : ∀ x, x ≠ h → view s' !! x = view s !! x;
  he_meta : ∃ q, db (rcas s') = set_quarantine q (db (rcas s)) ∧ ∀ x, x ≠ h → q !! x = marks s !! x;
  he_cfg : rebuildSource s' = rebuildSource s ∧ degradedRead s' = degradedRead s
           ∧ VerifyOnRead (rcas s') = VerifyOnRead (rcas s)
}.

Lemma healed_refl s h : blob_inv (blobs (rcas s)) → healed s s h.
Proof. intros Hi. split; auto. exists (marks s). by destruct (db (rcas s)). Qed.

Lemma healed_trans s1 s2 s3 h : healed s1 s2 h → healed s2 s3 h → healed s1 s3 h.
Proof.
  intros [I1 V1 (q1 & M1 & Q1) (C1 & C2 & C3)] [I2 V2 (q2 & M2 & Q2) (D1 & D2 & D3)]. split; [done|..].
  - intros x Hx. by rewrite V2, V1.
  - exists q2. split; [by rewrite M2, M1|]. intros x Hx. rewrite Q2, M1 by done. by apply Q1.
  - split_and!; congruence.
Qed.

Lemma mark_healed s h : blob_inv (blobs (rcas s)) → healed s (quarantineMark s h) h.
Proof.
  intros Hi. unfold quarantineMark. destruct (bput h _ _) as [q|] eqn:E; [|by apply healed_refl].
  apply bput_Some in E as [-> _]. split; auto. eexists. split; [done|]. intros x Hx. by rewrite lookup_insert_ne.
Qed.

Lemma clear_healed s h : blob_inv (blobs (rcas s)) → healed s (quarantineClear s h) h.
Proof.
  intros Hi. split; auto. eexists. split; [done|]. intros x Hx. by rewrite lookup_delete_ne.
Qed.

Lemma trust_healed s h x : blob_inv (blobs (rcas s)) → healed s (MarkTrusted s x) h.
Proof. intros Hi. destruct (healed_refl s h Hi). by split. Qed.

Lemma clear_mark s h : marks (quarantineClear s h) !! h = None.
Proof. apply lookup_delete_eq. Qed.

Lemma storeVerified_spec s h src ok s' :
  blob_inv (blobs (rcas s)) → storeVerified s h src = (ok, s') →
  healed s s' h ∧ marks s' = marks s
  ∧ (ok = true → ∃ c, HashBytes c = h ∧ view s' !! h = Some c)
  ∧ (∀ c, read_all src = Ok c → HashBytes c = h → (∀ b, (PutBlob b h (reader_of c)).1 = Ok tt) → ok = true).
Proof.
  intros Hi. unfold storeVerified. destruct (read_all src) as [c|e] eqn:Er.
  2:{ intros [= <- <-]. split; [by apply healed_refl|]. by split_and!. }
  destruct (decide (HashBytes c = h)) as [Hc|Hc].
  2:{ intros [= <- <-]. split; [by apply healed_refl|]. split_and!; [done..|]. by intros c' [= <-]. }
  destruct (PutBlob (blobs (rcas s)) h (reader_of c)) as [r b] eqn:Ep. intros [= <- <-].
  pose proof (put_inv (blobs (rcas s)) h (reader_of c) Hi) as Hi'. rewrite Ep in Hi'.
  split; [|split_and!; [done|..]].
  - split; cbn [rcas with_rcas with_blobs blobs db VerifyOnRead rebuildSource degradedRead]; [done| | |done].
    + intros x Hx. destruct r as [[]|e].
      * rewrite (put_replaces _ _ _ _ Hi Ep). by rewrite lookup_insert_ne.
      * by rewrite (put_err _ _ _ _ _ Hi Ep).
    + exists (marks s). by destruct (db (rcas s)).
  - intros Hok. exists c. split; [done|]. cbn [rcas with_rcas with_blobs blobs]. destruct r as [[]|]; [|done].
    rewrite (put_replaces _ _ _ _ Hi Ep). by rewrite lookup_insert_eq.
  - intros c' [= <-] _ Hacc. specialize (Hacc (blobs (rcas s))). rewrite Ep in Hacc. by destruct r.
Qed.

(** The store after a successful fetch of [h]. *)
Record restored (s' : RStore B) (h c : bytes) : Prop := {
  rs_hash : HashBytes c = h;
  rs_view : view s' !! h = Some c;
  rs_mark : marks s' !! h = None
}.

Lemma stored_get s h c :
  blob_inv (blobs (rcas s)) → h ≠ HashBytes [] → HashBytes c = h → view s !! h = Some c →
  GetBlob (blobs (rcas s)) h = Ok c.
Proof. intros Hi Hh Hc Hv. apply get_ok; [assumption..|]. intros ->. exact (Hh (eq_sym Hc)). Qed.

Lemma fetch_loop_spec src h peers s r s' :
  blob_inv (blobs (rcas s)) → h ≠ HashBytes [] → fetch_loop src h peers s = (r, s') →
  healed s s' h ∧ pushed s' = pushed s ∧ (∀ c, r = Ok c → restored s' h c).
Proof.
  intros Hi Hh. revert s Hi. induction peers as [|p peers IH]; intros s Hi; cbn [fetch_loop].
  { intros [= <- <-]. split_and!; [by apply healed_refl|done..]. }
  destruct (Fetch src h p) as [rc|e]; [|by apply IH].
  assert (∀ ok s1, storeVerified s h rc = (ok, s1) → pushed s1 = pushed s) as Hpush.
  { intros ok s1. unfold storeVerified. repeat case_match; by intros [= <- <-]. }
  destruct (storeVerified s h rc) as [ok s1] eqn:Es. specialize (Hpush _ _ eq_refl).
  destruct (storeVerified_spec _ _ _ _ _ Hi Es) as (H1 & _ & Hok & _). destruct ok.
  - destruct Hok as (c & Hc & Hv); [done|].
    rewrite (stored_get s1 h c (he_inv _ _ _ H1) Hh Hc Hv). intros [= <- <-]. split_and!; [|done|].
    + eapply healed_trans; [exact H1|]. eapply healed_trans; [by apply trust_healed, H1|].
      apply clear_healed. apply H1.
    + intros c' [= <-]. split; [done|done|apply clear_mark].
  - intros Hf. pose proof (mark_healed s1 h (he_inv _ _ _ H1)) as H2.
    destruct (IH _ (he_inv _ _ _ H2) Hf) as (H3 & Hp & Hr). split_and!; [|rewrite Hp|done].
    + by eapply healed_trans, healed_trans.
    + unfold quarantineMark. by case_match.
Qed.

(** One honest survivor and a backend that accepts the blob are enough. *)
Definition honest_peer (src : RebuildSource) (h : bytes) (peers : list Peer) : Prop :=
  ∃ p rc c, p ∈ peers ∧ Fetch src h p = Ok rc ∧ read_all rc = Ok c ∧ HashBytes c = h.
Definition accepts (h : bytes) : Prop := ∀ (b : B) c, HashBytes c = h → (PutBlob b h (reader_of c)).1 = Ok tt.

Lemma fetch_loop_live src h peers s :
  blob_inv (blobs (rcas s)) → h ≠ HashBytes [] → honest_peer src h peers → accepts h →
  ∃ c s', fetch_loop src h peers s = (Ok c, s').
Proof.
  intros Hi Hh (p & rc & c & Hin & Hf & Hr & Hc) Hacc. revert s Hi.
  induction peers as [|q peers IH]; [by apply elem_of_nil in Hin|]. intros s Hi; cbn [fetch_loop].
  apply elem_of_cons in Hin as [<-|Hin].
  - rewrite Hf. destruct (storeVerified s h rc) as [ok s1] eqn:Es.
    destruct (storeVerified_spec _ _ _ _ _ Hi Es) as (H1 & _ & Hok & Hlive).
    assert (ok = true) as -> by (by eapply Hlive; eauto). destruct Hok as (c' & Hc' & Hv); [done|].
    rewrite (stored_get s1 h c' (he_inv _ _ _ H1) Hh Hc' Hv). eauto.
  - specialize (IH Hin). destruct (Fetch src h q) as [rc'|e]; [|by apply IH].
    destruct (storeVerified s h rc') as [ok s1] eqn:Es.
    destruct (storeVerified_spec _ _ _ _ _ Hi Es) as (H1 & _ & Hok & _). destruct ok.
    + destruct Hok as (c' & Hc' & Hv); [done|].
      rewrite (stored_get s1 h c' (he_inv _ _ _ H1) Hh Hc' Hv). eauto.
    + apply IH. by apply mark_healed, H1.
Qed.

Lemma verified_drain s h c hold r s' :
  drain s h (mkStream (verifying_reader c h) hold) = (r, s') →
  (r = Ok c ∧ HashBytes c = h ∧ s' = s)
  ∨ (r = Err (Errno EBADMSG) ∧ HashBytes c ≠ h ∧ s' = if hold then quarantineMark s h else s).
Proof.
  unfold drain, verifying_reader. cbn [st_reader st_hold].
  destruct (decide (HashBytes c = h)); cbn [read_all rd_err rd_chunks concat]; rewrite ?app_nil_r;
    intros [= <- <-]; [left|right]; done.
Qed.

(** On a backend whose put replaces, a degraded read never hands out wrong bytes:
    whatever the local copy and the survivors hold, a read that ends cleanly delivered content whose digest
    is the key, and no other blob, name or mark was touched. *)
Theorem degraded_read_verified s h c s' :
  blob_inv (blobs (rcas s)) → h ≠ HashBytes [] → VerifyOnRead (rcas s) = true →
  open_and_drain s h = (Ok c, s') → HashBytes c = h ∧ healed s s' h.
Proof.
  intros Hi Hh Hv. unfold open_and_drain, openBlob.
  assert (∀ r s1 s2 res, fetchVerifiedToLocal s h = (r, s1) →
    match (match r with Ok c => Ok (mkStream (reader_of c) false) | Err e => Err e end) with
    | Ok st => drain s1 h st | Err e => (Err e, s1) end = (Ok res, s2) →
    HashBytes res = h ∧ healed s s2 h) as Hdeg.
  { intros r s1 s2 res Hf. unfold fetchVerifiedToLocal in Hf. destruct r as [c'|e]; [|done].
    cbn. rewrite app_nil_r. intros [= <- <-].
    destruct (rebuildSource s) as [src|]; [|done]. destruct (Survivors src h) as [peers|]; [|done].
    destruct (fetch_loop_spec _ _ _ _ _ _ Hi Hh Hf) as (H1 & _ & H2). by destruct (H2 c' eq_refl). }
  destruct (GetBlob (blobs (rcas s)) h) as [c0|e].
  - destruct (quarantined (rcas s) h).
    + destruct (degradedRead s && _); [|done]. destruct (fetchVerifiedToLocal s h) as [r s1] eqn:Ef.
      by eapply Hdeg.
    + rewrite Hv. intros [(E & Hc & ->)|(E & _)]%verified_drain; [|done].
      injection E as ->. split; [done|by apply healed_refl].
  - destruct (decide (e = Errno ENOENT)); [|done]. destruct (degradedRead s && _); [|done].
    destruct (fetchVerifiedToLocal s h) as [r s1] eqn:Ef. by eapply Hdeg.
Qed.

(** The conditions under which [h] can be healed from [src]. *)
Record healable (src : RebuildSource) (h : bytes) : Prop := {
  hb_key : key_ok h;
  hb_peers : ∃ peers, Survivors src h = Ok peers ∧ honest_peer src h peers;
  hb_accepts : accepts h;
  hb_nonempty : h ≠ HashBytes []
}.

Lemma fetch_live s src h :
  blob_inv (blobs (rcas s)) → rebuildSource s = Some src → healable src h →
  ∃ c s', fetchVerifiedToLocal s h = (Ok c, s') ∧ healed s s' h ∧ pushed s' = pushed s ∧ restored s' h c.
Proof.
  intros Hi Hs [_ (peers & Hp & Hh) Ha Hn]. unfold fetchVerifiedToLocal. rewrite Hs, Hp.
  destruct (fetch_loop_live src h peers s Hi Hn Hh Ha) as (c & s' & Hf). exists c, s'.
  destruct (fetch_loop_spec _ _ _ _ _ _ Hi Hn Hf) as (H1 & H2 & H3). auto.
Qed.

Lemma restored_local s h c :
  blob_inv (blobs (rcas s)) → h ≠ HashBytes [] → restored s h c →
  localCopyVerified s h = true ∧ quarantined (rcas s) h = false.
Proof.
  intros Hi Hn [Hc Hv Hm]. unfold localCopyVerified, quarantined.
  rewrite (stored_get s h c Hi Hn Hc Hv), Hm. split; [by apply bool_decide_eq_true|].
  apply bool_decide_eq_false. intros [? [=]].
Qed.

Lemma mark_set s h : key_ok h → quarantined (rcas (quarantineMark s h)) h = true.
Proof.
  intros Hk. unfold quarantineMark. rewrite bput_ok by done. apply bool_decide_eq_true.
  cbn. rewrite lookup_insert_eq. eauto.
Qed.

Lemma mark_blobs s h : blobs (rcas (quarantineMark s h)) = blobs (rcas s).
Proof. unfold quarantineMark. by case_match. Qed.

(** Reading a missing or marked blob repairs it. *)
Lemma degraded_live s src h :
  blob_inv (blobs (rcas s)) → rebuildSource s = Some src → degradedRead s = true → healable src h →
  (GetBlob (blobs (rcas s)) h = Err (Errno ENOENT)
   ∨ (is_ok (GetBlob (blobs (rcas s)) h) = true ∧ quarantined (rcas s) h = true)) →
  ∃ c s', open_and_drain s h = (Ok c, s') ∧ HashBytes c = h
  ∧ localCopyVerified s' h = true ∧ quarantined (rcas s') h = false.
Proof.
  intros Hi Hs Hd Hb Hl. destruct (fetch_live s src h Hi Hs Hb) as (c & s' & Hf & H1 & _ & Hr).
  exists c, s'. destruct (restored_local s' h c) as [L1 L2]; [apply H1|apply Hb|done|].
  split; [|split; [apply Hr|done]]. unfold open_and_drain, openBlob. rewrite Hd, Hs, Hf.
  rewrite bool_decide_true by eauto. cbn [andb].
  assert (drain s' h (mkStream (reader_of c) false) = (Ok c, s')) as Hdr
    by (unfold drain; cbn; by rewrite app_nil_r).
  destruct Hl as [->|[Hok ->]]; [by rewrite decide_True|]. by destruct (GetBlob _ h).
Qed.

(** Reading repairs, whatever the local copy is. *)
Lemma degraded_heals s src h :
  blob_inv (blobs (rcas s)) → VerifyOnRead (rcas s) = true →
  rebuildSource s = Some src → degradedRead s = true → healable src h →
  (∀ e, GetBlob (blobs (rcas s)) h = Err e → e = Errno ENOENT) →
  ∃ c s', HashBytes c = h ∧ localCopyVerified s' h = true ∧ quarantined (rcas s') h = false
  ∧ (open_and_drain s h = (Ok c, s')
     ∨ ∃ s1, open_and_drain s h = (Err (Errno EBADMSG), s1) ∧ open_and_drain s1 h = (Ok c, s')).
Proof.
  intros Hi Hvr Hs Hd Hb He. destruct (GetBlob (blobs (rcas s)) h) as [c0|e] eqn:Eg.
  2:{ destruct (degraded_live s src h Hi Hs Hd Hb) as (c & s' & ? & ? & ? & ?); [|exists c, s'; auto].
      left. by rewrite Eg, (He e eq_refl). }
  destruct (quarantined (rcas s) h) eqn:Eq.
  { destruct (degraded_live s src h Hi Hs Hd Hb) as (c & s' & ? & ? & ? & ?); [|exists c, s'; auto].
    right. by rewrite Eg. }
  assert (open_and_drain s h = drain s h (mkStream (verifying_reader c0 h) true)) as Ho.
  { unfold open_and_drain, openBlob. rewrite Eg, Eq, Hvr, Hd, Hs. by rewrite bool_decide_true by eauto. }
  destruct (drain s h _) as [r s1] eqn:Edr.
  destruct (verified_drain _ _ _ _ _ _ Edr) as [(-> & Hc & ->)|(-> & Hc & ->)].
  - exists c0, s. unfold localCopyVerified. rewrite Eg, Eq, bool_decide_true by done. auto.
  - destruct (mark_healed s h Hi) as [Hi1 _ _ (C1 & C2 & C3)].
    destruct (degraded_live (quarantineMark s h) src h) as (c & s' & ? & ? & ? & ?);
      [done|congruence|congruence|done|right|].
    + rewrite mark_blobs, Eg. split; [done|]. apply mark_set, Hb.
    + exists c, s'. split_and!; [done..|right]. eauto.
Qed.

(** ** The rebuild pass *)
Definition well (src : RebuildSource) (target : Z) (s : RStore B) (h : bytes) : Prop :=
  quarantined (rcas s) h = false
  ∧ ((∃ c, view s !! h = Some c ∧ HashBytes c = h)
     ∨ ∃ peers, Survivors src h = Ok peers ∧ target <= Z.of_nat (length peers)).

(** A local copy that verifies is the stored one. *)
Lemma local_view s h c :
  blob_inv (blobs (rcas s)) → view s !! h ≠ Some [] → GetBlob (blobs (rcas s)) h = Ok c → view s !! h = Some c.
Proof.
  intros Hi Hne Hg. destruct (view s !! h) as [c'|] eqn:Ev.
  - assert (c' ≠ []) as Hc' by congruence. rewrite (get_ok _ _ _ Hi Ev Hc') in Hg. congruence.
  - pose proof (get_none _ _ Hi Ev) as Hno. rewrite Hg in Hno. discriminate Hno.
Qed.

Lemma push_healed s src h c : blob_inv (blobs (rcas s)) → healed s (push s src h c).2 h.
Proof. intros Hi. destruct (healed_refl s h Hi). by split. Qed.

Lemma repairBlob_spec s src h target :
  blob_inv (blobs (rcas s)) → view s !! h ≠ Some [] → rebuildSource s = Some src → 0 < target →
  healable src h → (∀ c, HashBytes c = h → Restore src h c = Ok tt) →
  let s' := repairBlob s h (Some src) target in
  healed s s' h ∧ well src target s' h
  ∧ ∃ new, pushed s' = pushed s ++ new ∧ Forall (λ hc : bytes * bytes, HashBytes hc.2 = hc.1) new.
Proof.
  intros Hi Hne Hs Ht Hb Hres. cbv zeta. unfold repairBlob. destruct (hb_peers _ _ Hb) as (peers & Hp & Hhon).
  rewrite Hp. destruct (target <=? 0) eqn:E0; [zbool; lia|].
  destruct (negb _ && _) eqn:Ehealthy.
  { apply andb_true_iff in Ehealthy as [Hq Hv]. apply negb_true_iff in Hq. zbool.
    split_and!; [by apply healed_refl| |exists []; by rewrite app_nil_r]. split; [done|].
    destruct (localCopyVerified s h) eqn:El; [left|right; exists peers; split; [exact Hp|lia]].
    unfold localCopyVerified in El. destruct (GetBlob (blobs (rcas s)) h) as [c|] eqn:Eg; [|discriminate El].
    apply bool_decide_eq_true in El. exists c. exact (conj (local_view s h c Hi Hne Eg) El). }
  assert (∃ c s1, (match (if localCopyVerified s h then GetBlob (blobs (rcas s)) h else Err (Errno ENOENT)) with
            | Ok f => (Ok f, s) | Err _ => fetchVerifiedToLocal s h end) = (Ok c, s1)
          ∧ healed s s1 h ∧ pushed s1 = pushed s ∧ HashBytes c = h ∧ view s1 !! h = Some c)
    as (c & s1 & -> & H1 & Hp1 & Hc & Hg).
  { unfold localCopyVerified. destruct (GetBlob (blobs (rcas s)) h) as [c|e] eqn:Eg.
    - destruct (bool_decide (HashBytes c = h)) eqn:Ec.
      + apply bool_decide_eq_true in Ec. exists c, s.
        exact (conj eq_refl (conj (healed_refl s h Hi) (conj eq_refl (conj Ec (local_view s h c Hi Hne Eg))))).
      + destruct (fetch_live s src h Hi Hs Hb) as (c' & s' & -> & H1 & H2 & [R1 R2 R3]). exists c', s'.
        exact (conj eq_refl (conj H1 (conj H2 (conj R1 R2)))).
    - destruct (fetch_live s src h Hi Hs Hb) as (c' & s' & -> & H1 & H2 & [R1 R2 R3]). exists c', s'.
      exact (conj eq_refl (conj H1 (conj H2 (conj R1 R2)))). }
  unfold push. rewrite (Hres c Hc). split_and!.
  - eapply healed_trans; [exact H1|]. pose proof (push_healed s1 src h c (he_inv _ _ _ H1)) as H2.
    destruct (healed_trans _ _ _ _ H2 (clear_healed _ h (he_inv _ _ _ H2))) as [I V M C]. by split.
  - split; [apply bool_decide_eq_false; cbn; rewrite lookup_delete_eq; by intros [? [=]]|].
    left. exists c. exact (conj Hg Hc).
  - exists [(h, c)]. cbn [pushed count_repair quarantineClear with_rcas]. rewrite Hp1. split; [done|].
    by repeat constructor.
Qed.

Lemma well_other s s' src target h x :
  healed s s' h → x ≠ h → well src target s x → well src target s' x.
Proof.
  intros [Hi' V (q & M & Q) _] Hx [Hq Hl]. unfold well. rewrite V by done. split; [|exact Hl].
  unfold quarantined in *. rewrite M. cbn. by rewrite Q.
Qed.

Lemma run_repairs_spec src target order s :
  blob_inv (blobs (rcas s)) → rebuildSource s = Some src → 0 < target → NoDup order →
  (∀ h, h ∈ order → view s !! h ≠ Some [] ∧ healable src h ∧ ∀ c, HashBytes c = h → Restore src h c = Ok tt) →
  let s' := run_repairs s order (Some src) target in
  (∀ h, h ∈ order → well src target s' h)
  ∧ (∀ h, h ∉ order → well src target s h → well src target s' h)
  ∧ ∃ new, pushed s' = pushed s ++ new ∧ Forall (λ hc : bytes * bytes, HashBytes hc.2 = hc.1) new.
Proof.
  unfold run_repairs. revert s. induction order as [|x order IH]; intros s Hi Hs Ht Hnd Hall; cbn [foldl].
  { split_and!; [by intros ? ?%elem_of_nil|done|]. exists []. rewrite app_nil_r. split; [reflexivity|constructor]. }
  apply NoDup_cons in Hnd as [Hx Hnd]. destruct (Hall x) as (N1 & N2 & N3); [left|].
  destruct (repairBlob_spec s src x target Hi N1 Hs Ht N2 N3) as (H1 & W & new & P & F).
  destruct (IH (repairBlob s x (Some src) target)) as (IH1 & IH2 & new' & P' & F').
  - apply H1.
  - destruct (he_cfg _ _ _ H1) as [E _]. congruence.
  - exact Ht.
  - exact Hnd.
  - intros h Hin. destruct (Hall h) as (M1 & M2 & M3); [by right|]. split_and!; [|exact M2|exact M3].
    rewrite (he_view _ _ _ H1); [exact M1|]. by intros ->.
  - split_and!.
    + intros h [->|Hin]%elem_of_cons; [apply IH2; [exact Hx|exact W]|by apply IH1].
    + intros h [Hn Hnin]%not_elem_of_cons Hw. apply IH2; [done|]. by eapply well_other.
    + exists (new ++ new'). rewrite P', P, app_assoc. split; [reflexivity|]. by apply Forall_app.
Qed.

(** A rebuild pass heals everything it can reach: with an honest survivor for
    each blob of the working set, afterwards no referenced or marked blob carries
    a mark, each has a verified local copy or its full number of surviving
    replicas, and every byte string pushed to the replica set matches its key,
    in whatever order the workers ran. *)
Theorem rebuild_heals s src target order :
  blob_inv (blobs (rcas s)) → rebuildSource s = Some src → 0 < target → order ≡ₚ rebuildSet s →
  (∀ h, h ∈ rebuildSet s → view s !! h ≠ Some [] ∧ healable src h ∧ ∀ c, HashBytes c = h → Restore src h c = Ok tt) →
  let s' := run_repairs s order (Some src) target in
  (∀ h, h ∈ referencedBlobs s ∨ h ∈ quarantinedHashes s → well src target s' h)
  ∧ ∃ new, pushed s' = pushed s ++ new ∧ Forall (λ hc : bytes * bytes, HashBytes hc.2 = hc.1) new.
Proof.
  intros Hi Hs Ht Hperm Hall. destruct (run_repairs_spec src target order s) as (H1 & _ & H2);
    [exact Hi|exact Hs|exact Ht| | |].
  - rewrite Hperm. apply dedup_nodup.
  - intros h Hin. apply Hall. by rewrite <- Hperm.
  - split; [|exact H2]. intros h Hh. apply H1. rewrite Hperm. apply elem_of_dedup.
    split; [by apply elem_of_app|apply not_elem_of_nil].
Qed.
End Healing.

(** C9: Reads heal, on a backend whose acknowledged put replaces what it held before
    ([Replaces], an explicit argument: a directory does so by its rename, see
    [local_refines_map] of LocalStore.v; the raw device does not, and there
    [repair_keeps_corrupt] shows the opposite).  With verification on, the degraded read
    armed, one survivor that serves content of the digest, a backend that accepts that content
    and reports nothing but absence for the digest, and a digest that is not the empty
    object's: whatever the local copy is (good, missing, marked or silently corrupted), the
    first or at latest the second read returns content of the right digest; a corrupted copy
    is reported by the first read and replaced by the second, and afterwards the local copy
    verifies and carries no mark. *)
Theorem degraded_read_heals {B : Type} `{Hspec : BlobStoreSpec B} (Hrep : Replaces B) (s : RStore B) src h :
  blob_inv (blobs (rcas s)) → VerifyOnRead (rcas s) = true →
  rebuildSource s = Some src → degradedRead s = true → healable (B := B) src h →
  (∀ e, GetBlob (blobs (rcas s)) h = Err e → e = Errno ENOENT) →
  ∃ c s', HashBytes c = h ∧ localCopyVerified s' h = true ∧ quarantined (rcas s') h = false
  ∧ (open_and_drain s h = (Ok c, s')
     ∨ ∃ s1, open_and_drain s h = (Err (Errno EBADMSG), s1) ∧ open_and_drain s1 h = (Ok c, s')).
Proof. exact (degraded_heals s src h). Qed.

(** The raw-device store acknowledges a put of a hash it already holds without
    writing: a repair from an honest survivor then clears the mark and hands out
    the old local bytes, whatever they are. *)
Theorem repair_keeps_corrupt (s : RStore RawBlobStore) src h p peers rc c f :
  rebuildSource s = Some src → Survivors src h = Ok (p :: peers) → Fetch src h p = Ok rc →
  read_all rc = Ok c → HashBytes c = h → HasPathTraversalChars h = false →
  raw_get (blobs (rcas s)) h = Ok f →
  ∃ s', fetchVerifiedToLocal s h = (Ok f, s') ∧ quarantined (rcas s') h = false
  ∧ raw_get (blobs (rcas s')) h = Ok f.
Proof.
  intros Hs Hp Hf Hr Hc Ht Hg. unfold fetchVerifiedToLocal. rewrite Hs, Hp. cbn [fetch_loop]. rewrite Hf.
  unfold storeVerified. rewrite Hr, decide_True by exact Hc.
  assert (is_Some (allocDB (blobs (rcas s)) !! h)) as [v Ev].
  { unfold raw_get in Hg. rewrite Ht in Hg. destruct (allocDB (blobs (rcas s)) !! h); [eauto|discriminate Hg]. }
  assert (PutBlob (blobs (rcas s)) h (reader_of c) = (Ok tt, blobs (rcas s))) as ->.
  { cbn [PutBlob raw_store]. unfold raw_put. by rewrite Ht, Ev. }
  cbn [is_ok rcas with_rcas with_blobs blobs]. change (GetBlob (blobs (rcas s)) h) with (raw_get (blobs (rcas s)) h).
  rewrite Hg. eexists. split; [reflexivity|]. split; [|exact Hg].
  apply bool_decide_eq_false. cbn. rewrite lookup_delete_eq. by intros [? [=]].
Qed.

(** ** Witnesses *)
#[local] Transparent HashBytes sha256.
Definition hbody : bytes := bs "hi".
Definition hkey : bytes := Eval vm_compute in HashBytes hbody.
Definition hsrc : RebuildSource :=
  mkSource (λ _, Ok [mkRPeer 2 (bs "rack2")]) (λ _ _, Ok (reader_of hbody)) (λ _ _, Ok tt).

(** A referenced, marked blob with other bytes on disk. *)
Definition hcas (b : gmap bytes bytes) (q : bucket bytes) : CASStore (gmap bytes bytes) :=
  mkCAS (mkDB {[ hkey := encode (mkObjectMeta 2 1 0 [] [] []) ]} {[ bs "a" := hkey ]} ∅ ∅ ∅ q) b true None 0 0 ∅.
Definition hrot : RStore (gmap bytes bytes) :=
  mkRS (hcas {[ hkey := bs "ho" ]} ∅) (Some hsrc) true ∅ 0 [].
Definition hmarked : RStore (gmap bytes bytes) :=
  mkRS (hcas {[ hkey := bs "ho" ]} {[ hkey := [Byte.x01] ]}) (Some hsrc) true ∅ 0 [].

Lemma hkey_eq : HashBytes hbody = hkey.
Proof. vm_compute. reflexivity. Qed.

Lemma hhealable : healable (B := gmap bytes bytes) hsrc hkey.
Proof.
  split.
  - vm_compute. reflexivity.
  - exists [mkRPeer 2 (bs "rack2")]. split; [reflexivity|]. exists (mkRPeer 2 (bs "rack2")), (reader_of hbody), hbody.
    split; [left|]. split; [reflexivity|]. split; [reflexivity|exact hkey_eq].
  - intros b c _. reflexivity.
  - vm_compute. discriminate.
Qed.

Lemma scrub_exact_witness :
  objects (db (rcas (runScrub hrot))) !! hkey = None ∧ blobs (rcas (runScrub hrot)) !! hkey = None.
Proof.
  assert (referencedBlobs hrot = [hkey]) as Er by (vm_compute; reflexivity).
  assert (HashBytes (bs "ho") ≠ hkey) as Hne by (vm_compute; discriminate).
  assert (blob_inv (blobs (rcas hrot))) as Hi by exact I.
  destruct (scrub_exact hrot Hi (λ b h _, eq_refl)) as (_ & H & _ & _ & _).
  specialize (H hkey (bs "ho")). rewrite (decide_False (P := HashBytes (bs "ho") = hkey)) in H by exact Hne.
  rewrite Er in H. specialize (H (list_elem_of_here _ _) eq_refl).
  destruct H as [H1 H2]; [discriminate|]. exact (conj H2 H1).
Defined.

Lemma degraded_read_verified_witness :
  open_and_drain hmarked hkey = (Ok hbody, (open_and_drain hmarked hkey).2) ∧ HashBytes hbody = hkey.
Proof.
  assert ((open_and_drain hmarked hkey).1 = Ok hbody) as E1 by (vm_compute; reflexivity).
  assert (open_and_drain hmarked hkey = (Ok hbody, (open_and_drain hmarked hkey).2)) as E
    by (rewrite <- E1; apply surjective_pairing).
  split; [exact E|]. apply (degraded_read_verified hmarked hkey hbody (open_and_drain hmarked hkey).2);
    [exact I|vm_compute; discriminate|reflexivity|exact E].
Defined.

Lemma degraded_read_heals_witness :
  ∃ c s', HashBytes c = hkey ∧ localCopyVerified s' hkey = true ∧ quarantined (rcas s') hkey = false
  ∧ (open_and_drain hrot hkey = (Ok c, s')
     ∨ ∃ s1, open_and_drain hrot hkey = (Err (Errno EBADMSG), s1) ∧ open_and_drain s1 hkey = (Ok c, s')).
Proof.
  apply (degraded_read_heals mem_replaces hrot hsrc hkey); [exact I|reflexivity|reflexivity|reflexivity|exact hhealable|].
  intros e He. vm_compute in He. discriminate He.
Defined.

Lemma rebuild_heals_witness :
  well (B := gmap bytes bytes) hsrc 2 (run_repairs hmarked [hkey] (Some hsrc) 2) hkey.
Proof.
  assert (rebuildSet hmarked = [hkey]) as E by (vm_compute; reflexivity).
  destruct (rebuild_heals hmarked hsrc 2 [hkey]) as [H _]; [exact I|reflexivity|reflexivity|rewrite E; reflexivity| |].
  - rewrite E. intros h ->%list_elem_of_singleton. split; [vm_compute; discriminate|].
    split; [exact hhealable|]. intros; reflexivity.
  - apply H. right. apply (bool_decide_unpack _). vm_compute. exact I.
Defined.
