(* ===== verification/Versioning.v ===== *)
(** * Object versions and object lock (src/src/storage/versioning.go, objectlock.go)

    The version chain of an S3 key lives in the [object_versions] bucket under
    [bucket NUL key NUL versionID]; lock records live under the same composite
    key in [object_lock_state].  A JSON value is kept as the record
    [json.Unmarshal] yields, or as [Corrupt] when it yields an error. *)
From S2P Require Import Prelude GoText Hashes Json Paths BlobStore CasStore.
Open Scope Z_scope.

(** ** Data *)
Record VersionRecord := mkVersion {
  VersionID : bytes;
  VHash : bytes;
  VSize : Z;
  Timestamp : Z;
  IsLatest : bool;
  IsDeleteMarker : bool;
  VKey : bytes          (* Key, not serialized *)
}.

#[export] Instance VersionRecord_eq_dec : EqDecision VersionRecord.
Proof. solve_decision. Defined.

Record VersionPage := mkPage {
  Records : list VersionRecord;
  NextKeyMarker : bytes;
  NextVersionID : bytes;
  IsTruncated : bool
}.

Record ObjectLockState := mkLock {
  Mode : bytes;
  RetainUntil : Z;
  LegalHoldOn : bool
}.

Definition VersioningEnabled : bytes := bs "Enabled".
Definition VersioningSuspended : bytes := bs "Suspended".
Definition LockModeCompliance : bytes := bs "COMPLIANCE".
Definition LockModeGovernance : bytes := bs "GOVERNANCE".

Record VDB := mkVDB {
  bucketVersioning : bucket bytes;
  bucketObjectVersions : bucket (stored VersionRecord);
  bucketObjectLock : bucket bytes;
  bucketLockStatus : bucket (stored ObjectLockState)
}.

(** The CAS store with its version buckets; [verHook] lists the calls made to
    the installed replication callback, [None] when there is none. *)
Record VStore (B : Type) := mkVS {
  cas : CASStore B;
  vdb : VDB;
  verHook : option (list (bytes * bytes * VersionRecord))
}.
Arguments mkVS {B}.
Arguments cas {B}.
Arguments vdb {B}.
Arguments verHook {B}.

Definition set_versioning (b : bucket bytes) (d : VDB) : VDB :=
  mkVDB b (bucketObjectVersions d) (bucketObjectLock d) (bucketLockStatus d).
Definition set_versions (b : bucket (stored VersionRecord)) (d : VDB) : VDB :=
  mkVDB (bucketVersioning d) b (bucketObjectLock d) (bucketLockStatus d).
Definition set_lock_status (b : bucket (stored ObjectLockState)) (d : VDB) : VDB :=
  mkVDB (bucketVersioning d) (bucketObjectVersions d) (bucketObjectLock d) b.

Definition set_latest (l : bool) (r : VersionRecord) : VersionRecord :=
  mkVersion (VersionID r) (VHash r) (VSize r) (Timestamp r) l (IsDeleteMarker r) (VKey r).
Definition set_key (k : bytes) (r : VersionRecord) : VersionRecord :=
  mkVersion (VersionID r) (VHash r) (VSize r) (Timestamp r) (IsLatest r) (IsDeleteMarker r) k.

(** [json.Marshal]: the Key field carries the tag "-". *)
Definition marshal (r : VersionRecord) : stored VersionRecord := Doc (set_key [] r).

(** ** Keys *)
Definition NUL : byte := Byte.x00.

Definition version_prefix (bkt key : bytes) : bytes := bkt ++ [NUL] ++ key ++ [NUL].

Definition versionKey (bkt key versionID : bytes) : bytes :=
  bkt ++ [NUL] ++ key ++ [NUL] ++ versionID.

Definition lockStatusKey (bkt key versionID : bytes) : bytes :=
  bkt ++ [NUL] ++ key ++ [NUL] ++ versionID.

Definition dash : byte := Byte.x2d.

(** [newVersionID] on the 16 bytes [rand.Read] produced, [None] when it failed. *)
Definition newVersionID (rnd : option bytes) : result bytes :=
  match rnd with
  | None => Err ErrPlain
  | Some b =>
      let b := <[6%nat := z2b (Z.lor (Z.land (b2z (b !!! 6%nat)) 15) 64)]> b in
      let b := <[8%nat := z2b (Z.lor (Z.land (b2z (b !!! 8%nat)) 63) 128)]> b in
      Ok (hex_encode (slice 0 4 b) ++ [dash] ++ hex_encode (slice 4 6 b) ++ [dash]
          ++ hex_encode (slice 6 8 b) ++ [dash] ++ hex_encode (slice 8 10 b) ++ [dash]
          ++ hex_encode (slice 10 16 b))
  end.

(** ** Cursor loops *)

(** [Cursor.Seek] then [Next]: the entries from the first key not below [p]. *)
Definition seek {V} (p : bytes) (b : bucket V) : list (bytes * V) :=
  filter (λ kv, bytes_ltb kv.1 p = false) (cursor b).

(** [for k, v := c.Seek(prefix); k != nil && string(k[:len(prefix)]) == prefix; ...]:
    the slice expression panics on a key shorter than the prefix, which the
    deferred [RecoverErr] reports as EIO. *)
Fixpoint prefix_loop {V S} (p : bytes) (step : S → bytes → V → result S)
    (entries : list (bytes * V)) (acc : S) : result S :=
  match entries with
  | [] => Ok acc
  | (k, v) :: rest =>
      if (length k <? length p)%nat then Err (Errno EIO)
      else if decide (take (length p) k = p) then
        let! acc := step acc k v in prefix_loop p step rest acc
      else Ok acc
  end.

(** ** Writing versions *)
Definition demote_step (acc : bucket (stored VersionRecord)) (k : bytes) (v : stored VersionRecord)
    : result (bucket (stored VersionRecord)) :=
  match v with
  | Corrupt => Err ErrPlain
  | Doc old =>
      if IsLatest old then
        match bput k (marshal (set_latest false old)) acc with
        | None => Err ErrPlain
        | Some a => Ok a
        end
      else Ok acc
  end.

Definition putVersion (b : bucket (stored VersionRecord)) (bkt key : bytes) (rec : VersionRecord)
    : result (bucket (stored VersionRecord)) :=
  let prefix := version_prefix bkt key in
  let! b' := prefix_loop prefix demote_step (seek prefix b) b in
  match bput (versionKey bkt key (VersionID rec)) (marshal rec) b' with
  | None => Err ErrPlain
  | Some b'' => Ok b''
  end.

(** Newest first: timestamp, then version id. *)
Definition newer (r best : VersionRecord) : bool :=
  (Timestamp best <? Timestamp r)
  || ((Timestamp r =? Timestamp best) && bytes_ltb (VersionID best) (VersionID r)).

Definition latest_step (best : option VersionRecord) (k : bytes) (v : stored VersionRecord)
    : result (option VersionRecord) :=
  match v with
  | Corrupt => Err ErrPlain
  | Doc r =>
      match best with
      | None => Ok (Some r)
      | Some q => Ok (Some (if newer r q then r else q))
      end
  end.

Definition latestVersionTx (b : bucket (stored VersionRecord)) (bkt key : bytes)
    : result (option VersionRecord) :=
  let prefix := version_prefix bkt key in
  let! best := prefix_loop prefix latest_step (seek prefix b) None in
  Ok (set_key key <$> best).

Definition applyReplicatedRecord (b : bucket (stored VersionRecord)) (bkt key : bytes)
    (rec : VersionRecord) : result (bucket (stored VersionRecord)) :=
  let vk := versionKey bkt key (VersionID rec) in
  let store_old :=
    match bput vk (marshal (set_latest false rec)) b with
    | None => Err ErrPlain
    | Some b' => Ok b'
    end in
  let same :=
    match b !! vk with
    | Some (Doc old) => bool_decide (old = rec)
    | _ => false
    end in
  if same then Ok b
  else if IsLatest rec then
    let! latest := latestVersionTx b bkt key in
    match latest with
    | None => putVersion b bkt key rec
    | Some l => if Timestamp l <=? Timestamp rec then putVersion b bkt key rec else store_old
    end
  else store_old.

(** [rePointLatest] after the latest record was removed. *)
Definition rePointLatest (b : bucket (stored VersionRecord)) (bkt key : bytes) (wasLatest : bool)
    : result (bucket (stored VersionRecord)) :=
  if negb wasLatest then Ok b
  else
    let! next := latestVersionTx b bkt key in
    match next with
    | None => Ok b
    | Some next =>
        if IsLatest next then Ok b
        else match bput (versionKey bkt key (VersionID next)) (marshal (set_latest true next)) b with
             | None => Err ErrPlain
             | Some b' => Ok b'
             end
    end.

(** ** Listing *)
Record versionEntry := mkEntry { ekey : bytes; erec : VersionRecord }.

Fixpoint scan_loop (head prefix : bytes) (entries : list (bytes * stored VersionRecord))
    : result (list versionEntry) :=
  match entries with
  | [] => Ok []
  | (full, v) :: rest =>
      if (length full <=? length head)%nat || negb (bool_decide (take (length head) full = head))
      then Ok []
      else
        let tail := drop (length head) full in
        match index_byte NUL tail with
        | None => scan_loop head prefix rest
        | Some nul =>
            let key := take nul tail in
            if negb (bool_decide (prefix = [])) && negb (has_prefix key prefix)
            then scan_loop head prefix rest
            else match v with
                 | Corrupt => Err ErrPlain
                 | Doc r => let! es := scan_loop head prefix rest in Ok (mkEntry key r :: es)
                 end
        end
  end.

Definition scanVersionEntries (b : bucket (stored VersionRecord)) (bkt prefix : bytes)
    : result (list versionEntry) :=
  let head := bkt ++ [NUL] in scan_loop head prefix (seek head b).

(** The comparison of [sortVersionEntries]. *)
Definition entry_less (a b : versionEntry) : bool :=
  if decide (ekey a = ekey b) then
    if Timestamp (erec a) =? Timestamp (erec b)
    then bytes_ltb (VersionID (erec b)) (VersionID (erec a))
    else Timestamp (erec b) <? Timestamp (erec a)
  else bytes_ltb (ekey a) (ekey b).

Definition sortVersionEntries (entries : list versionEntry) : list versionEntry :=
  stable_sort entry_less entries.

Fixpoint resume_loop (entries : list versionEntry) (keyMarker versionIDMarker : bytes)
    : list versionEntry :=
  match entries with
  | [] => []
  | e :: rest =>
      if bool_decide (ekey e = keyMarker) && bool_decide (VersionID (erec e) = versionIDMarker)
      then rest
      else if bytes_ltb keyMarker (ekey e) then e :: rest
      else resume_loop rest keyMarker versionIDMarker
  end.

Definition resumeAfterMarker (entries : list versionEntry) (keyMarker versionIDMarker : bytes)
    : list versionEntry :=
  if decide (keyMarker = [] ∨ versionIDMarker = []) then entries
  else resume_loop entries keyMarker versionIDMarker.

Definition paginate (entries : list versionEntry) (maxKeys : Z) : VersionPage :=
  let trunc := (0 <? maxKeys) && (maxKeys <? Z.of_nat (length entries)) in
  let entries := if trunc then take (Z.to_nat maxKeys) entries else entries in
  let recs := (λ e, set_key (ekey e) (erec e)) <$> entries in
  match trunc, last entries with
  | true, Some l => mkPage recs (ekey l) (VersionID (erec l)) true
  | _, _ => mkPage recs [] [] trunc
  end.

(** ** Lock records *)
Definition lockedAt (l : ObjectLockState) (now : Z) : bool :=
  if LegalHoldOn l then true
  else if decide (Mode l = []) then false
  else now <? RetainUntil l.

Definition validateLockState (st : ObjectLockState) : result unit :=
  if decide (Mode st = [] ∨ Mode st = LockModeCompliance ∨ Mode st = LockModeGovernance) then
    if negb (bool_decide (Mode st = [])) && (RetainUntil st <=? 0) then Err (Errno EINVAL) else Ok tt
  else Err (Errno EINVAL).

(** [checkLockTighten] at wall-clock second [now]. *)
Definition checkLockTighten (existing next : ObjectLockState) (bypassGovernance : bool) (now : Z)
    : result unit :=
  if now <? RetainUntil existing then
    if decide (Mode existing = LockModeCompliance) then
      if bool_decide (Mode next = LockModeGovernance)
         || (bool_decide (Mode next = LockModeCompliance) && (RetainUntil next <? RetainUntil existing))
         || (bool_decide (Mode next = []) && (RetainUntil next =? 0))
      then Err (Errno EPERM) else Ok tt
    else if decide (Mode existing = LockModeGovernance) then
      if negb bypassGovernance && (RetainUntil next <? RetainUntil existing)
      then Err (Errno EPERM) else Ok tt
    else Ok tt
  else Ok tt.

Definition lockDeniesTx (locks : bucket (stored ObjectLockState)) (bkt key versionID : bytes)
    (now : Z) (bypass : bool) : result bool :=
  match locks !! lockStatusKey bkt key versionID with
  | None => Ok false
  | Some Corrupt => Err ErrPlain
  | Some (Doc st) =>
      if negb (lockedAt st now) then Ok false
      else if bypass && bool_decide (Mode st = LockModeGovernance) && negb (LegalHoldOn st) then Ok false
      else Ok true
  end.

(** The transaction of [mutateVersionLock]. *)
Definition mutate_lock_tx (d : VDB) (bkt key versionID : bytes) (bypassGovernance : bool)
    (mutate : ObjectLockState → ObjectLockState) (now : Z) : result VDB :=
  let lk := lockStatusKey bkt key versionID in
  let! existing :=
    match bucketLockStatus d !! lk with
    | Some (Doc st) => Ok st
    | Some Corrupt => Err ErrPlain
    | None => match bucketObjectVersions d !! versionKey bkt key versionID with
              | None => Err (Errno ENOENT)
              | Some _ => Ok (mkLock [] 0 false)
              end
    end in
  let next := mutate existing in
  let! _ := validateLockState next in
  let! _ := checkLockTighten existing next bypassGovernance now in
  match bput lk (Doc next) (bucketLockStatus d) with
  | None => Err ErrPlain
  | Some b => Ok (set_lock_status b d)
  end.

(** ** Store operations *)
Section Ops.
Context {B : Type} `{BlobStore B}.
Implicit Types (s : VStore B).

Definition with_vdb (d : VDB) s : VStore B := mkVS (cas s) d (verHook s).
Definition with_cas (c : CASStore B) s : VStore B := mkVS c (vdb s) (verHook s).

(** A bbolt [Update]: the database changes only when the transaction succeeds. *)
Definition update s (tx : VDB → result VDB) : result unit * VStore B :=
  match tx (vdb s) with
  | Ok d => (Ok tt, with_vdb d s)
  | Err e => (Err e, s)
  end.

Definition put_versioning (bkt status : bytes) (d : VDB) : result VDB :=
  match bput bkt status (bucketVersioning d) with
  | None => Err ErrPlain
  | Some b => Ok (set_versioning b d)
  end.

Definition SetBucketVersioning s (bkt status : bytes) : result unit * VStore B :=
  if decide (status = VersioningEnabled ∨ status = VersioningSuspended)
  then update s (put_versioning bkt status)
  else (Err (Errno EINVAL), s).

Definition BucketVersioning s (bkt : bytes) : option bytes := bucketVersioning (vdb s) !! bkt.

Definition IsVersioned s (bkt : bytes) : bool :=
  match BucketVersioning s bkt with
  | Some st => bool_decide (st = VersioningEnabled)
  | None => false
  end.

Definition SetVersionReplicationHook s (on : bool) : VStore B :=
  mkVS (cas s) (vdb s) (if on then Some [] else None).

Definition notifyVersionRecorded s (bkt key : bytes) (rec : VersionRecord) : VStore B :=
  mkVS (cas s) (vdb s) ((λ l, l ++ [(bkt, key, rec)]) <$> verHook s).

Definition put_version_tx (bkt key : bytes) (rec : VersionRecord) (d : VDB) : result VDB :=
  let! b := putVersion (bucketObjectVersions d) bkt key rec in Ok (set_versions b d).

(** The common body of [RecordVersion] and [RecordDeleteMarker]. *)
Definition record_version s (bkt key : bytes) (rec : VersionRecord) : result bytes * VStore B :=
  match update s (put_version_tx bkt key rec) with
  | (Err e, s) => (Err e, s)
  | (Ok _, s) => (Ok (VersionID rec), notifyVersionRecorded s bkt key rec)
  end.

Definition RecordVersion s (bkt key hash : bytes) (size : Z) (rnd : option bytes) (now : Z)
    : result bytes * VStore B :=
  match newVersionID rnd with
  | Err e => (Err e, s)
  | Ok vid => record_version s bkt key (mkVersion vid hash size now true false [])
  end.

Definition RecordDeleteMarker s (bkt key : bytes) (rnd : option bytes) (now : Z)
    : result bytes * VStore B :=
  match newVersionID rnd with
  | Err e => (Err e, s)
  | Ok vid => record_version s bkt key (mkVersion vid [] 0 now true true [])
  end.

Definition PutVersionRecord s (bkt key : bytes) (rec : VersionRecord) : result unit * VStore B :=
  if decide (bkt = [] ∨ key = [] ∨ VersionID rec = []) then (Err (Errno EINVAL), s)
  else update s (λ d,
    let! b := applyReplicatedRecord (bucketObjectVersions d) bkt key (set_key [] rec) in
    Ok (set_versions b d)).

Definition LatestVersion s (bkt key : bytes) : result (option VersionRecord) :=
  latestVersionTx (bucketObjectVersions (vdb s)) bkt key.

Definition GetVersion s (bkt key versionID : bytes) : result VersionRecord :=
  match bucketObjectVersions (vdb s) !! versionKey bkt key versionID with
  | None => Err (Errno ENOENT)
  | Some Corrupt => Err ErrPlain
  | Some (Doc r) => Ok (set_key key r)
  end.

Definition ListVersions s (bkt prefix keyMarker versionIDMarker : bytes) (maxKeys : Z)
    : result VersionPage :=
  let! entries := scanVersionEntries (bucketObjectVersions (vdb s)) bkt prefix in
  Ok (paginate (resumeAfterMarker (sortVersionEntries entries) keyMarker versionIDMarker) maxKeys).

Definition delete_version_tx (d : VDB) (bkt key versionID : bytes) (now : Z) (bypass : bool)
    : result (VersionRecord * VDB) :=
  let b := bucketObjectVersions d in
  let k := versionKey bkt key versionID in
  match b !! k with
  | None => Err (Errno ENOENT)
  | Some Corrupt => Err ErrPlain
  | Some (Doc deleted) =>
      let! denied :=
        if negb (IsDeleteMarker deleted)
        then lockDeniesTx (bucketLockStatus d) bkt key versionID now bypass
        else Ok false in
      if denied : bool then Err (Errno EACCES)
      else
        let! b' := rePointLatest (delete k b) bkt key (IsLatest deleted) in
        Ok (deleted, set_versions b' d)
  end.

Definition DeleteVersion s (bkt key versionID : bytes) (now : Z) (bypass : bool)
    : result VersionRecord * VStore B :=
  match delete_version_tx (vdb s) bkt key versionID now bypass with
  | Ok (r, d) => (Ok r, with_vdb d s)
  | Err e => (Err e, s)
  end.

Definition GetVersionContent s (bkt key versionID : bytes) : result (bytes * VersionRecord) :=
  let! rec := GetVersion s bkt key versionID in
  if IsDeleteMarker rec then Err (Errno ENOENT)
  else let! c := GetBlob (blobs (cas s)) (VHash rec) in Ok (c, rec).

Definition RepointNamespace s (name hash : bytes) : result unit * VStore B :=
  let d := db (cas s) in
  let set_ns ns := with_cas (with_db (mkDB (objects d) ns (paths d) (modtimes d) (tombstones d)
                                           (quarantine d)) (cas s)) s in
  match hash with
  | [] => (Ok tt, set_ns (delete name (namespace d)))
  | _ => match bput name hash (namespace d) with
         | None => (Err ErrPlain, s)
         | Some ns => (Ok tt, set_ns ns)
         end
  end.

(** ** Object lock operations *)
Definition lock_bucket_tx (bkt : bytes) (d : VDB) : result VDB :=
  let cur := match bucketVersioning d !! bkt with Some v => v | None => [] end in
  if decide (cur = VersioningSuspended) then Err (Errno EPERM)
  else
    let! d := if decide (cur = VersioningEnabled) then Ok d
              else put_versioning bkt VersioningEnabled d in
    match bput bkt [Byte.x01] (bucketObjectLock d) with
    | None => Err ErrPlain
    | Some b => Ok (mkVDB (bucketVersioning d) (bucketObjectVersions d) b (bucketLockStatus d))
    end.

Definition SetBucketObjectLock s (bkt : bytes) : result unit * VStore B :=
  if decide (bkt = []) then (Err (Errno EINVAL), s) else update s (lock_bucket_tx bkt).

Definition BucketObjectLockEnabled s (bkt : bytes) : result bool :=
  if decide (bkt = []) then Err (Errno EINVAL)
  else Ok (bool_decide (is_Some (bucketObjectLock (vdb s) !! bkt))).

Definition mutateVersionLock s (bkt key versionID : bytes) (bypassGovernance : bool)
    (mutate : ObjectLockState → ObjectLockState) (now : Z) : result unit * VStore B :=
  if decide (bkt = [] ∨ key = [] ∨ versionID = []) then (Err (Errno EINVAL), s)
  else update s (λ d, mutate_lock_tx d bkt key versionID bypassGovernance mutate now).

Definition PutVersionLock s (bkt key versionID : bytes) (state : ObjectLockState)
    (bypassGovernance : bool) (now : Z) : result unit * VStore B :=
  mutateVersionLock s bkt key versionID bypassGovernance (λ _, state) now.

Definition PutVersionRetention s (bkt key versionID mode : bytes) (retainUntil : Z)
    (bypassGovernance : bool) (now : Z) : result unit * VStore B :=
  mutateVersionLock s bkt key versionID bypassGovernance
    (λ st, mkLock mode retainUntil (LegalHoldOn st)) now.

Definition PutVersionLegalHold s (bkt key versionID : bytes) (on : bool) (now : Z)
    : result unit * VStore B :=
  mutateVersionLock s bkt key versionID false (λ st, mkLock (Mode st) (RetainUntil st) on) now.

Definition VersionLock s (bkt key versionID : bytes) : result (option ObjectLockState) :=
  if decide (bkt = [] ∨ key = [] ∨ versionID = []) then Err (Errno EINVAL)
  else match bucketLockStatus (vdb s) !! lockStatusKey bkt key versionID with
       | None => Ok None
       | Some Corrupt => Err ErrPlain
       | Some (Doc st) => Ok (Some st)
       end.
End Ops.
