(* ===== verification/VersionTheorems.v ===== *)
(** * What versioning and object lock guarantee

    The lemmas and properties of Versioning.v: the shape of a version chain,
    replication of version records, listing by pages, retention. *)
From S2P Require Import Prelude GoText Hashes Json Paths BlobStore CasStore Versioning.
Open Scope Z_scope.

(** ** Composite keys *)
Definition nul_free (s : bytes) : Prop := NUL ∉ s.

Lemma nul_split a a' r r' :
  nul_free a → nul_free a' → a ++ NUL :: r = a' ++ NUL :: r' → a = a' ∧ r = r'.
Proof. apply sep_split. Qed.

Lemma versionKey_inj b k v b' k' v' :
  nul_free b → nul_free k → nul_free b' → nul_free k' →
  versionKey b k v = versionKey b' k' v' → b = b' ∧ k = k' ∧ v = v'.
Proof.
  intros Hb Hk Hb' Hk' E. unfold versionKey in E. cbn [app] in E.
  apply nul_split in E as [-> E]; [|done|done]. apply nul_split in E as [-> ->]; done.
Qed.

Lemma versionKey_prefix b k v : versionKey b k v = version_prefix b k ++ v.
Proof. unfold versionKey, version_prefix. by rewrite <- !app_assoc. Qed.

(** [prefixed p k] is the loop test [string(k[:len(prefix)]) == prefix]. *)
Definition prefixed (p k : bytes) : Prop := take (length p) k = p.
#[export] Instance prefixed_dec p k : Decision (prefixed p k).
Proof. unfold prefixed. apply _. Defined.

Lemma prefixed_app p k : prefixed p k ↔ ∃ t, k = p ++ t.
Proof.
  unfold prefixed. split.
  - intros E. exists (drop (length p) k). rewrite <- E at 1. by rewrite take_drop.
  - intros [t ->]. by apply take_app_eq.
Qed.

Lemma prefixed_versionKey b k b' k' v :
  nul_free b → nul_free k → nul_free b' → nul_free k' →
  prefixed (version_prefix b k) (versionKey b' k' v) ↔ b = b' ∧ k = k'.
Proof.
  intros ????. rewrite prefixed_app. split.
  - intros [t E]. rewrite <- versionKey_prefix in E. apply versionKey_inj in E; naive_solver.
  - intros [-> ->]. exists v. apply versionKey_prefix.
Qed.

(** ** Prefix loops visit exactly the keys under the prefix *)

(** Past the prefix, keys are above every key under it. *)
Lemma above_prefix p k k' :
  bytes_ltb k p = false → ¬ prefixed p k → prefixed p k' → bytes_ltb k' k = true.
Proof.
  unfold prefixed. revert k k'. induction p as [|x p IH]; intros k k' Hk Hn Hp; [by destruct Hn|].
  destruct k as [|y k]; [done|]. destruct k' as [|z k']; [done|].
  cbn [length take] in *. injection Hp as -> Hp. cbn [bytes_ltb] in *.
  destruct (b2z y <? b2z x) eqn:E1; [done|]. destruct (b2z x <? b2z y) eqn:E2; [done|].
  zbool. assert (y = x) as -> by (apply b2z_inj; lia).
  apply IH; [done| |done]. intros E. apply Hn. by rewrite E.
Qed.

(** A loop over all entries, without the range test. *)
Fixpoint run {V S} (step : S → bytes → V → result S) (l : list (bytes * V)) (acc : S) : result S :=
  match l with
  | [] => Ok acc
  | (k, v) :: rest => let! acc := step acc k v in run step rest acc
  end.

Section PrefixLoop.
Context {V S : Type} (p : bytes) (step : S → bytes → V → result S).

Definition sorted_keys (l : list (bytes * V)) : Prop :=
  StronglySorted (λ a b : bytes * V, bytes_ltb b.1 a.1 = false) l.

Lemma filter_past k v l :
  sorted_keys ((k, v) :: l) → bytes_ltb k p = false → ¬ prefixed p k →
  filter (λ kv : bytes * V, prefixed p kv.1) l = [].
Proof.
  intros Hs Hk Hn. apply StronglySorted_inv in Hs as [_ Hs].
  apply filter_none. eapply Forall_impl; [exact Hs|]. intros [k' v'] Hkk Hp. cbn [fst] in *.
  rewrite (above_prefix p k k') in Hkk by done. done.
Qed.

Lemma below_not_prefixed k : bytes_ltb k p = true → ¬ prefixed p k.
Proof.
  rewrite prefixed_app. intros H [t ->]. revert H. induction p as [|x q IH]; cbn [app bytes_ltb].
  - destruct t; done.
  - rewrite Z.ltb_irrefl. done.
Qed.

Lemma prefix_loop_run l acc x :
  sorted_keys l →
  prefix_loop p step (filter (λ kv : bytes * V, bytes_ltb kv.1 p = false) l) acc = Ok x →
  run step (filter (λ kv : bytes * V, prefixed p kv.1) l) acc = Ok x.
Proof.
  revert acc. induction l as [|[k v] l IH]; intros acc Hs; [done|].
  pose proof Hs as Hs'. apply StronglySorted_inv in Hs' as [Hs' _].
  destruct (decide (bytes_ltb k p = false)) as [Hk|Hk].
  - rewrite filter_cons_True by done. cbn [prefix_loop].
    destruct (length k <? length p)%nat; [discriminate|]. case_decide as Hp.
    + rewrite filter_cons_True by done. cbn [run]. destruct (step acc k v); [|discriminate]. by apply IH.
    + intros [= <-]. rewrite filter_cons_False by done. by rewrite (filter_past k v).
  - rewrite filter_cons_False by done. apply not_false_iff_true in Hk.
    rewrite (filter_cons_False (λ kv : bytes * V, prefixed p kv.1)) by (by apply below_not_prefixed).
    by apply IH.
Qed.

Lemma prefix_loop_total l acc :
  sorted_keys l → Forall (λ kv : bytes * V, (length p <= length kv.1)%nat) l →
  prefix_loop p step (filter (λ kv : bytes * V, bytes_ltb kv.1 p = false) l) acc
  = run step (filter (λ kv : bytes * V, prefixed p kv.1) l) acc.
Proof.
  revert acc. induction l as [|[k v] l IH]; intros acc Hs Hf; [done|].
  apply Forall_cons in Hf as [Hl Hf]. cbn [fst] in Hl.
  pose proof Hs as Hs'. apply StronglySorted_inv in Hs' as [Hs' _].
  destruct (decide (bytes_ltb k p = false)) as [Hk|Hk].
  - rewrite filter_cons_True by done. cbn [prefix_loop].
    rewrite (proj2 (Nat.ltb_ge _ _)) by done. case_decide as Hp.
    + rewrite filter_cons_True by done. cbn [run]. destruct (step acc k v); [|done]. by apply IH.
    + rewrite filter_cons_False by done. by rewrite (filter_past k v).
  - rewrite filter_cons_False by done. apply not_false_iff_true in Hk.
    rewrite (filter_cons_False (λ kv : bytes * V, prefixed p kv.1)) by (by apply below_not_prefixed).
    by apply IH.
Qed.
End PrefixLoop.

(** The entries under a prefix, in key order. *)
Definition under {V} (p : bytes) (b : bucket V) : list (bytes * V) :=
  filter (λ kv, prefixed p kv.1) (cursor b).

Lemma elem_of_under {V} (p : bytes) (b : bucket V) k v : (k, v) ∈ under p b ↔ prefixed p k ∧ b !! k = Some v.
Proof. unfold under. by rewrite list_elem_of_filter, elem_of_cursor. Qed.

Lemma under_nodup {V} (p : bytes) (b : bucket V) : NoDup (under p b).*1.
Proof.
  apply NoDup_map_filter, cursor_keys_nodup.
Qed.

Lemma Forall_under {V} (p : bytes) (b : bucket V) (P : bytes * V → Prop) :
  (∀ k v, prefixed p k → b !! k = Some v → P (k, v)) → Forall P (under p b).
Proof. intros HP. apply Forall_forall. intros [k v] [? ?]%elem_of_under. auto. Qed.

(** No stored key is shorter than the prefix: the loops' slice expression is in
    range. *)
Definition no_short {V} (p : bytes) (b : bucket V) : Prop :=
  ∀ k v, b !! k = Some v → (length p <= length k)%nat.

Lemma seek_run {V S} (p : bytes) (step : S → bytes → V → result S) (b : bucket V) acc x :
  prefix_loop p step (seek p b) acc = Ok x → run step (under p b) acc = Ok x.
Proof. apply prefix_loop_run, cursor_sorted. Qed.

Lemma seek_total {V S} (p : bytes) (step : S → bytes → V → result S) (b : bucket V) acc :
  no_short p b → prefix_loop p step (seek p b) acc = run step (under p b) acc.
Proof.
  intros Hs. apply prefix_loop_total; [apply cursor_sorted|].
  apply Forall_forall. intros [k v] Hin%elem_of_cursor. by eapply Hs.
Qed.

(** ** The invariant of the version bucket *)
Notation versions := (bucket (stored VersionRecord)).

(** Every value is a well-formed record stored under its own version id. *)
Definition ver_wf (b : versions) : Prop :=
  ∀ k v, b !! k = Some v → ∃ bkt key r, nul_free bkt ∧ nul_free key
    ∧ k = versionKey bkt key (VersionID r) ∧ v = Doc r ∧ VKey r = [] ∧ key_ok k.

(** The record of version [vid] of a key. *)
Definition has_version (b : versions) (bkt key : bytes) (r : VersionRecord) : Prop :=
  b !! versionKey bkt key (VersionID r) = Some (Doc r).

Record ver_inv (b : versions) : Prop := {
  vi_wf : ver_wf b;
  vi_one : ∀ bkt key r r', nul_free bkt → nul_free key →
    has_version b bkt key r → has_version b bkt key r' →
    IsLatest r = true → IsLatest r' = true → r = r'
}.

Lemma wf_under b bkt key k v :
  ver_wf b → nul_free bkt → nul_free key → prefixed (version_prefix bkt key) k → b !! k = Some v →
  ∃ r, k = versionKey bkt key (VersionID r) ∧ v = Doc r ∧ VKey r = [] ∧ key_ok k.
Proof.
  intros Hw Hb Hk Hp Hv. destruct (Hw k v Hv) as (b' & k' & r & Hb' & Hk' & -> & -> & ? & ?).
  apply prefixed_versionKey in Hp as [<- <-]; [|done..]. by exists r.
Qed.

Lemma set_key_id r : VKey r = [] → set_key [] r = r.
Proof. destruct r. cbn. by intros ->. Qed.

Lemma set_latest_id r l : IsLatest r = l → set_latest l r = r.
Proof. destruct r. cbn. by intros ->. Qed.

Lemma set_latest_key r l : VKey r = [] → set_key [] (set_latest l r) = set_latest l r.
Proof. intros H. by apply set_key_id. Qed.

(** What [putVersion] does to the other records of the key. *)
Definition demote (v : stored VersionRecord) : stored VersionRecord :=
  match v with Doc r => Doc (set_latest false r) | Corrupt => Corrupt end.

Lemma demote_step_Ok acc k r acc' :
  VKey r = [] → acc !! k = Some (Doc r) → demote_step acc k (Doc r) = Ok acc' →
  acc' = <[k := Doc (set_latest false r)]> acc.
Proof.
  intros Hk Ha. cbn [demote_step]. destruct (IsLatest r) eqn:El.
  - destruct (bput k _ acc) as [a|] eqn:Eb; [|discriminate]. intros [= <-].
    apply bput_Some in Eb as [-> _]. unfold marshal. by rewrite set_latest_key.
  - intros [= <-]. rewrite set_latest_id by done. by rewrite insert_id.
Qed.

(** The entries of a loop, as found in the bucket. *)
Definition entries_of (b : versions) (l : list (bytes * stored VersionRecord)) : Prop :=
  Forall (λ kv, b !! kv.1 = Some kv.2 ∧ ∃ r, kv.2 = Doc r ∧ VKey r = [] ∧ key_ok kv.1) l.

Lemma run_demote l acc b' :
  NoDup l.*1 → entries_of acc l → run demote_step l acc = Ok b' →
  ∀ k, b' !! k = if decide (k ∈ l.*1) then demote <$> acc !! k else acc !! k.
Proof.
  revert acc. induction l as [|[k0 v] l IH]; intros acc Hnd Hf.
  - intros [= <-] k. rewrite decide_False by set_solver. done.
  - apply NoDup_cons in Hnd as [Hk0 Hnd]. apply Forall_cons in Hf as [[Ha (r & Hr & Hkey & _)] Hf].
    cbn [fst snd] in *. subst v. cbn [run]. destruct (demote_step acc k0 (Doc r)) as [a|] eqn:Ed; [|discriminate].
    apply demote_step_Ok in Ed as ->; [|done|done]. intros Hrun k.
    erewrite (IH _ Hnd); [..|exact Hrun].
    + rewrite lookup_insert. destruct (decide (k ∈ l.*1)).
      * rewrite (decide_True (P := k ∈ _)) by set_solver. rewrite decide_False by set_solver. done.
      * destruct (decide (k0 = k)) as [->|].
        -- rewrite decide_True by set_solver. by rewrite Ha.
        -- by rewrite decide_False by set_solver.
    + eapply Forall_weaken_in; [exact Hf|]. intros [k1 v1] Hin [H1 H2]. split; [|done]. cbn [fst] in *.
      rewrite lookup_insert_ne; [done|]. intros ->. apply Hk0. by apply (list_elem_of_fmap_2 fst) in Hin.
Qed.

Lemma run_demote_total l acc : NoDup l.*1 → entries_of acc l → is_ok (run demote_step l acc) = true.
Proof.
  revert acc. induction l as [|[k0 v] l IH]; intros acc Hnd Hf; [done|].
  apply NoDup_cons in Hnd as [Hk0 Hnd]. apply Forall_cons in Hf as [[Ha (r & Hr & Hkey & Hok)] Hf].
  cbn [fst snd] in *. subst v. cbn [run demote_step].
  destruct (IsLatest r); [rewrite bput_ok by done|]; apply IH; try done.
  eapply Forall_weaken_in; [exact Hf|]. intros [k1 v1] Hin [H1 H2]. split; [|done]. cbn [fst] in *.
  rewrite lookup_insert_ne; [done|]. intros ->. apply Hk0. by apply (list_elem_of_fmap_2 fst) in Hin.
Qed.

Lemma under_entries b bkt key :
  ver_wf b → nul_free bkt → nul_free key → entries_of b (under (version_prefix bkt key) b).
Proof.
  intros Hw Hb Hk. apply Forall_under. intros k v Hp Hv. cbn [fst snd].
  destruct (wf_under _ _ _ _ _ Hw Hb Hk Hp Hv) as (r & _ & -> & ? & ?). split; [done|]. by exists r.
Qed.

Lemma elem_of_under_keys {V} (p : bytes) (b : bucket V) k :
  k ∈ (under p b).*1 ↔ prefixed p k ∧ is_Some (b !! k).
Proof.
  rewrite list_elem_of_fmap. split.
  - intros ([k' v] & -> & [? ?]%elem_of_under). eauto.
  - intros [Hp [v Hv]]. exists (k, v). split; [done|]. by apply elem_of_under.
Qed.

(** ** putVersion *)
Lemma putVersion_lookup b bkt key rec b' :
  ver_wf b → nul_free bkt → nul_free key → VKey rec = [] → putVersion b bkt key rec = Ok b' →
  key_ok (versionKey bkt key (VersionID rec)) ∧
  ∀ k, b' !! k = if decide (k = versionKey bkt key (VersionID rec)) then Some (Doc rec)
                 else if decide (prefixed (version_prefix bkt key) k) then demote <$> b !! k
                 else b !! k.
Proof.
  intros Hw Hb Hk Hr. unfold putVersion.
  destruct (prefix_loop _ _ _ b) as [b1|] eqn:E1; [|discriminate]. apply seek_run in E1.
  pose proof (run_demote _ _ _ (under_nodup _ _) (under_entries b bkt key Hw Hb Hk) E1) as Hl.
  destruct (bput _ _ b1) as [b2|] eqn:E2; [|discriminate]. intros [= <-].
  split; [by eapply bput_key|]. apply bput_Some in E2 as [-> _]. intros k.
  rewrite lookup_insert. unfold marshal. rewrite set_key_id by done.
  destruct (decide (versionKey _ _ _ = k)) as [<-|Hne]; [by rewrite decide_True|].
  rewrite decide_False by congruence. rewrite Hl.
  destruct (decide (prefixed (version_prefix bkt key) k)) as [Hp|Hp].
  - case_decide as Hin; [done|]. destruct (b !! k) eqn:E; [|done].
    destruct Hin. apply elem_of_under_keys. eauto.
  - rewrite decide_False; [done|]. by intros [? _]%elem_of_under_keys.
Qed.

Lemma putVersion_total b bkt key rec :
  ver_wf b → nul_free bkt → nul_free key → no_short (version_prefix bkt key) b →
  key_ok (versionKey bkt key (VersionID rec)) → ∃ b', putVersion b bkt key rec = Ok b'.
Proof.
  intros Hw Hb Hk Hs Hok. unfold putVersion. rewrite seek_total by done.
  pose proof (run_demote_total _ _ (under_nodup (version_prefix bkt key) b) (under_entries b bkt key Hw Hb Hk)) as Ht.
  destruct (run _ _ b) as [b1|]; [|discriminate]. rewrite bput_ok by done. by eexists.
Qed.

(** ** latestVersionTx *)
#[export] Instance newer_strict : StrictWeak newer.
Proof.
  split.
  - intros x y. unfold newer. intros H. apply not_true_iff_false. intros H'.
    apply orb_true_iff in H, H'. rewrite !andb_true_iff in *.
    destruct H as [H|[H H2]], H' as [H'|[H' H2']]; zbool; try lia.
    apply sw_asym in H2. congruence.
  - intros x y z. unfold newer. rewrite !orb_false_iff, !andb_false_iff.
    intros [H1 H2] [H3 H4]. zbool. split; [apply Z.ltb_ge; lia|].
    destruct H2 as [H2|H2], H4 as [H4|H4]; zbool.
    + left. apply Z.eqb_neq. lia.
    + destruct (Timestamp x =? Timestamp z) eqn:E; [|by left]. zbool. lia.
    + destruct (Timestamp x =? Timestamp z) eqn:E; [|by left]. zbool. lia.
    + right. by eapply (sw_ntrans (less := bytes_ltb)).
Qed.

Lemma newer_irrefl r : newer r r = false.
Proof. unfold newer. by rewrite Z.ltb_irrefl, bytes_ltb_irrefl, andb_false_r. Qed.

Lemma run_latest l best o :
  Forall (λ kv : bytes * stored VersionRecord, ∃ r, kv.2 = Doc r) l →
  run latest_step l best = Ok o →
  match o with
  | None => l = [] ∧ best = None
  | Some q => (best = Some q ∨ Doc q ∈ l.*2) ∧ (∀ r, best = Some r ∨ Doc r ∈ l.*2 → newer r q = false)
  end.
Proof.
  intros Hf. revert best. induction Hf as [|[k v] l (r & Hr) Hf IH]; intros best.
  - intros [= <-]. destruct best as [q|]; [|done]. split; [by left|].
    intros r [[= <-]|Hr]; [apply newer_irrefl|]. cbn in Hr. by apply not_elem_of_nil in Hr.
  - cbn [snd] in Hr. subst v. cbn [run latest_step].
    set (best' := match best with None => r | Some q => if newer r q then r else q end).
    assert (match best with None => Ok (Some r) | Some q => Ok (Some (if newer r q then r else q)) end
            = Ok (Some best')) as -> by (by destruct best).
    intros Ho. apply IH in Ho. destruct o as [q|]; [|by destruct Ho].
    destruct Ho as [Hin Hmax]. split.
    + destruct Hin as [[= Hq]|Hin]; [|right; by right]. unfold best' in Hq.
      destruct best as [q0|]; [destruct (newer r q0)|]; rewrite <- Hq; [right|by left|right];
        cbn [fmap list_fmap snd]; by left.
    + assert (newer best' q = false) as Hb by (apply Hmax; by left).
      assert (∀ x, x = r ∨ best = Some x → newer x best' = false) as Hx.
      { intros x. unfold best'. destruct best as [q0|].
        - intros [->|[= <-]]; destruct (newer r q0) eqn:E; try done; try apply newer_irrefl. by apply sw_asym.
        - intros [->|[=]]. apply newer_irrefl. }
      intros x [Hx1|Hx1]; [eapply sw_ntrans; [apply Hx; by right|done]|].
      cbn in Hx1. apply elem_of_cons in Hx1 as [[= ->]|Hx1]; [eapply sw_ntrans; [apply Hx; by left|done]|].
      apply Hmax. by right.
Qed.

Lemma latestVersionTx_spec b bkt key o :
  ver_wf b → nul_free bkt → nul_free key → latestVersionTx b bkt key = Ok o →
  match o with
  | None => ∀ r, ¬ has_version b bkt key r
  | Some q' => ∃ q, q' = set_key key q ∧ has_version b bkt key q
               ∧ ∀ r, has_version b bkt key r → newer r q = false
  end.
Proof.
  intros Hw Hb Hk. unfold latestVersionTx.
  destruct (prefix_loop _ _ _ _) as [o'|] eqn:E; [|discriminate]. intros [= <-].
  apply seek_run, run_latest in E.
  2: { apply Forall_under. intros k v Hp Hv.
       destruct (wf_under _ _ _ _ _ Hw Hb Hk Hp Hv) as (r & _ & -> & _). by exists r. }
  assert (∀ r, Doc r ∈ (under (version_prefix bkt key) b).*2 ↔ has_version b bkt key r) as Hin.
  { intros r. rewrite list_elem_of_fmap. split.
    - intros ([k v] & Hr & [Hp Hv]%elem_of_under). cbn [snd] in Hr. subst v.
      destruct (wf_under _ _ _ _ _ Hw Hb Hk Hp Hv) as (r' & -> & [= <-] & _). done.
    - intros Hr. exists (versionKey bkt key (VersionID r), Doc r). split; [done|].
      apply elem_of_under. split; [by apply prefixed_versionKey|done]. }
  destruct o' as [q|]; cbn [fmap option_fmap option_map].
  - destruct E as [[[=]|Hq] Hmax]. exists q. split_and!; [done|by apply Hin|].
    intros r Hr. apply Hmax. right. by apply Hin.
  - destruct E as [E _]. intros r Hr%Hin. rewrite E in Hr. by apply not_elem_of_nil in Hr.
Qed.

(** ** The operations on one chain *)
Lemma putVersion_has b bkt key rec b' bkt' key' r :
  ver_wf b → nul_free bkt → nul_free key → VKey rec = [] → putVersion b bkt key rec = Ok b' →
  nul_free bkt' → nul_free key' →
  has_version b' bkt' key' r ↔
    if decide (bkt' = bkt ∧ key' = key)
    then r = rec ∨ VersionID r ≠ VersionID rec ∧ ∃ r0, has_version b bkt key r0 ∧ r = set_latest false r0
    else has_version b bkt' key' r.
Proof.
  intros Hw Hb Hk Hr Hp Hb' Hk'. destruct (putVersion_lookup _ _ _ _ _ Hw Hb Hk Hr Hp) as [_ Hl].
  unfold has_version at 1. rewrite Hl. clear Hl. destruct (decide (bkt' = bkt ∧ key' = key)) as [[-> ->]|Hne].
  - destruct (decide (VersionID r = VersionID rec)) as [E|E].
    + rewrite decide_True by congruence. split; [intros [= <-]; by left|]. by intros [->|[? _]].
    + rewrite decide_False by (intros (_ & _ & ?)%versionKey_inj; done).
      rewrite decide_True by (by apply prefixed_versionKey). split.
      * intros (v & Hv & Hd)%fmap_Some. right. split; [done|].
        assert (prefixed (version_prefix bkt key) (versionKey bkt key (VersionID r))) as Hpr
          by (by apply prefixed_versionKey).
        destruct (wf_under _ _ _ _ _ Hw Hb Hk Hpr Hv) as (r0 & Ek & -> & _).
        injection Hd as Hd. exists r0. split; [|done]. unfold has_version. by rewrite <- Ek.
      * intros [->|(_ & r0 & Hr0 & ->)]; [done|]. unfold has_version in Hr0. cbn [VersionID set_latest].
        by rewrite Hr0.
  - rewrite decide_False by (intros (? & ? & _)%versionKey_inj; naive_solver).
    rewrite decide_False by (intros [? ?]%prefixed_versionKey; naive_solver). done.
Qed.

Lemma insert_has b bkt key rec bkt' key' r :
  nul_free bkt → nul_free key → nul_free bkt' → nul_free key' →
  has_version (<[versionKey bkt key (VersionID rec) := Doc rec]> b) bkt' key' r ↔
    if decide (bkt' = bkt ∧ key' = key ∧ VersionID r = VersionID rec)
    then r = rec else has_version b bkt' key' r.
Proof.
  intros. unfold has_version at 1. rewrite lookup_insert.
  case_decide as E; [apply versionKey_inj in E as (-> & -> & E); [|done..]|].
  - rewrite decide_True by done. split; congruence.
  - rewrite decide_False; [done|]. intros (-> & -> & E'). by rewrite E' in E.
Qed.

Lemma putVersion_inv b bkt key rec b' :
  ver_inv b → nul_free bkt → nul_free key → VKey rec = [] → putVersion b bkt key rec = Ok b' →
  ver_inv b'.
Proof.
  intros [Hw Ho] Hb Hk Hr Hp. destruct (putVersion_lookup _ _ _ _ _ Hw Hb Hk Hr Hp) as [Hok Hl]. split.
  - intros k v. rewrite Hl. case_decide as E1; [|case_decide as E2].
    + intros [= <-]. exists bkt, key, rec. by rewrite <- E1 in *.
    + intros (v0 & Hv & ->)%fmap_Some. destruct (Hw k v0 Hv) as (b1 & k1 & r & ? & ? & ? & -> & ? & ?).
      exists b1, k1, (set_latest false r). done.
    + apply Hw.
  - intros b1 k1 r r' Hb1 Hk1. rewrite !(putVersion_has b bkt key rec b' b1 k1) by done.
    case_decide; [|by apply Ho]. intros [->|(_ & r0 & _ & ->)] [->|(_ & r1 & _ & ->)]; done.
Qed.

Lemma insert_inv b bkt key rec :
  ver_inv b → nul_free bkt → nul_free key → VKey rec = [] → key_ok (versionKey bkt key (VersionID rec)) →
  (IsLatest rec = true → ∀ r, has_version b bkt key r → IsLatest r = true → VersionID r = VersionID rec) →
  ver_inv (<[versionKey bkt key (VersionID rec) := Doc rec]> b).
Proof.
  intros [Hw Ho] Hb Hk Hr Hok Hl. split.
  - intros k v. rewrite lookup_insert. case_decide; [intros [= <-]|apply Hw].
    subst k. by exists bkt, key, rec.
  - intros b1 k1 r r' Hb1 Hk1. rewrite !insert_has by done.
    case_decide as D1; case_decide as D2.
    + congruence.
    + intros -> Hr' L1 L2. destruct D1 as (-> & -> & _). destruct D2. eauto.
    + intros Hr' -> L1 L2. destruct D2 as (-> & -> & _). destruct D1. eauto.
    + intros. by apply (Ho b1 k1).
Qed.

Lemma delete_inv_versions b k : ver_inv b → ver_inv (delete k b).
Proof.
  intros [Hw Ho]. split.
  - intros k' v [_ Hv]%lookup_delete_Some. by apply Hw.
  - intros b1 k1 r r' Hb1 Hk1. unfold has_version. rewrite !lookup_delete_Some.
    intros [_ ?] [_ ?] ? ?. by apply (Ho b1 k1).
Qed.

Lemma applyReplicatedRecord_inv b bkt key rec b' :
  ver_inv b → nul_free bkt → nul_free key → VKey rec = [] →
  applyReplicatedRecord b bkt key rec = Ok b' → ver_inv b'.
Proof.
  intros Hi Hb Hk Hr. unfold applyReplicatedRecord.
  set (old := match bput _ _ b with None => Err ErrPlain | Some x => Ok x end).
  assert (old = Ok b' → ver_inv b') as Hold.
  { unfold old. destruct (bput _ _ _) as [b1|] eqn:E; [|discriminate]. intros [= <-].
    pose proof (bput_key _ _ _ _ E). apply bput_Some in E as [-> _].
    unfold marshal. rewrite set_latest_key by done.
    by apply (insert_inv b bkt key (set_latest false rec)). }
  clearbody old. destruct (match b !! _ with Some (Doc o) => _ | _ => false end); [by intros [= <-]|].
  destruct (IsLatest rec); [|done].
  destruct (latestVersionTx b bkt key) as [o|]; [|discriminate].
  destruct o as [l|]; [destruct (_ <=? _); [|done]|]; by apply putVersion_inv.
Qed.

(** No record of the key is marked latest. *)
Definition none_latest (b : versions) (bkt key : bytes) : Prop :=
  ∀ r, has_version b bkt key r → IsLatest r = false.

Lemma rePoint_latest_spec b bkt key b' :
  ver_inv b → nul_free bkt → nul_free key → none_latest b bkt key →
  rePointLatest b bkt key true = Ok b' →
  ver_inv b' ∧
  ((∀ r, ¬ has_version b bkt key r) ∧ b' = b
   ∨ ∃ q, has_version b bkt key q ∧ (∀ r, has_version b bkt key r → newer r q = false)
       ∧ b' = <[versionKey bkt key (VersionID q) := Doc (set_latest true q)]> b).
Proof.
  intros Hi Hb Hk Hn. unfold rePointLatest. cbn [negb].
  destruct (latestVersionTx b bkt key) as [o|] eqn:E; [|discriminate].
  apply latestVersionTx_spec in E; [|apply Hi|done|done]. destruct o as [q'|].
  - destruct E as (q & -> & Hq & Hmax). cbn [IsLatest set_key]. rewrite (Hn q Hq).
    destruct (bput _ _ b) as [b1|] eqn:Eb; [|discriminate]. intros [= <-].
    pose proof (bput_key _ _ _ _ Eb) as Hok. apply bput_Some in Eb as [-> _].
    cbn [VersionID set_key]. unfold marshal.
    replace (set_key [] (set_latest true (set_key key q))) with (set_latest true q).
    2: { destruct (vi_wf _ Hi _ _ Hq) as (? & ? & q0 & _ & _ & _ & [= <-] & Hkey & _).
         destruct q. cbn in *. by rewrite Hkey. }
    split.
    + apply (insert_inv b bkt key (set_latest true q)); try done.
      * destruct (vi_wf _ Hi _ _ Hq) as (? & ? & q0 & _ & _ & _ & [= <-] & Hkey & _). done.
      * intros _ r Hr Hl. rewrite (Hn r Hr) in Hl. done.
    + right. by exists q.
  - intros [= <-]. split; [done|]. by left.
Qed.

Lemma delete_has b bkt key vid r :
  nul_free bkt → nul_free key →
  has_version (delete (versionKey bkt key vid) b) bkt key r ↔ VersionID r ≠ vid ∧ has_version b bkt key r.
Proof.
  intros. unfold has_version. rewrite lookup_delete_Some. split; intros [E ?]; split; try done.
  - intros <-. by destruct E.
  - by intros (_ & _ & ?)%versionKey_inj.
Qed.

Lemma delete_version_spec d bkt key vid now bypass r d' :
  ver_inv (bucketObjectVersions d) → nul_free bkt → nul_free key →
  delete_version_tx d bkt key vid now bypass = Ok (r, d') →
  let b := bucketObjectVersions d in
  let b1 := delete (versionKey bkt key vid) b in
  has_version b bkt key r ∧ VersionID r = vid ∧ ver_inv (bucketObjectVersions d')
  ∧ bucketLockStatus d' = bucketLockStatus d
  ∧ (IsDeleteMarker r = false → lockDeniesTx (bucketLockStatus d) bkt key vid now bypass = Ok false)
  ∧ (bucketObjectVersions d' = b1
     ∨ IsLatest r = true ∧ ∃ q, has_version b1 bkt key q
         ∧ (∀ x, has_version b1 bkt key x → newer x q = false)
         ∧ bucketObjectVersions d' = <[versionKey bkt key (VersionID q) := Doc (set_latest true q)]> b1)
  ∧ (IsLatest r = true → (∀ x, ¬ has_version b1 bkt key x) ∨ ∃ q, has_version b1 bkt key q
         ∧ (∀ x, has_version b1 bkt key x → newer x q = false)
         ∧ bucketObjectVersions d' = <[versionKey bkt key (VersionID q) := Doc (set_latest true q)]> b1).
Proof.
  intros Hi Hb Hk. unfold delete_version_tx. cbn zeta.
  destruct (bucketObjectVersions d !! versionKey bkt key vid) as [[r0|]|] eqn:Ev; [|discriminate..].
  destruct (vi_wf _ Hi _ _ Ev) as (b1 & k1 & r1 & Hb1 & Hk1 & Ek & [= <-] & Hkey & Hok).
  apply versionKey_inj in Ek as (<- & <- & ->); [|done..].
  set (dn := if negb (IsDeleteMarker r0) then _ else Ok false).
  assert (dn = Ok false → IsDeleteMarker r0 = false →
    lockDeniesTx (bucketLockStatus d) bkt key (VersionID r0) now bypass = Ok false) as Hdn.
  { unfold dn. intros E E'. by rewrite E' in E. }
  destruct dn as [[]|] eqn:Edn; try discriminate. specialize (Hdn eq_refl).
  destruct (rePointLatest _ _ _ _) as [b'|] eqn:Er; [|discriminate]. intros [= <- <-].
  cbn [bucketObjectVersions set_versions bucketLockStatus].
  pose proof (delete_inv_versions _ (versionKey bkt key (VersionID r0)) Hi) as Hi1.
  destruct (IsLatest r0) eqn:El.
  - apply rePoint_latest_spec in Er as [Hi' Hor]; [|done..|].
    + split_and!; try done.
      * destruct Hor as [[_ ->]|Hor]; [by left|]. right. done.
      * intros _. destruct Hor as [[? _]|?]; [by left|by right].
    + intros r [Hne Hr]%delete_has; [|done..]. destruct (IsLatest r) eqn:E; [|done].
      destruct Hne. f_equal. by apply (vi_one _ Hi bkt key).
  - cbn in Er. injection Er as <-. split_and!; try done. by left.
Qed.

(** ** Reachable version stores *)
Section Versions.
Context {B : Type} `{BlobStore B}.
Implicit Types (s : VStore B).

Notation vers s := (bucketObjectVersions (vdb s)).

Inductive ver_step : VStore B → VStore B → Prop :=
  | vs_record s bkt key hash size rnd now : nul_free bkt → nul_free key →
      ver_step s (RecordVersion s bkt key hash size rnd now).2
  | vs_marker s bkt key rnd now : nul_free bkt → nul_free key →
      ver_step s (RecordDeleteMarker s bkt key rnd now).2
  | vs_replicate s bkt key rec : nul_free bkt → nul_free key →
      ver_step s (PutVersionRecord s bkt key rec).2
  | vs_delete s bkt key vid now bypass : nul_free bkt → nul_free key →
      ver_step s (DeleteVersion s bkt key vid now bypass).2
  | vs_lock s bkt key vid bypass f now : ver_step s (mutateVersionLock s bkt key vid bypass f now).2
  | vs_status s bkt status : ver_step s (SetBucketVersioning s bkt status).2
  | vs_objlock s bkt : ver_step s (SetBucketObjectLock s bkt).2
  | vs_repoint s name hash : ver_step s (RepointNamespace s name hash).2.

Lemma record_version_Ok s bkt key rec vid s' :
  record_version s bkt key rec = (Ok vid, s') →
  vid = VersionID rec ∧ ∃ b', putVersion (vers s) bkt key rec = Ok b' ∧
  s' = notifyVersionRecorded (with_vdb (set_versions b' (vdb s)) s) bkt key rec.
Proof.
  unfold record_version, update, put_version_tx.
  destruct (putVersion _ _ _ _) as [b'|]; [|discriminate]. intros [= <- <-]. split; [done|]. by exists b'.
Qed.

Lemma record_version_inv s bkt key rec :
  ver_inv (vers s) → nul_free bkt → nul_free key → VKey rec = [] →
  ver_inv (vers (record_version s bkt key rec).2).
Proof.
  intros Hi Hb Hk Hr. unfold record_version, update, put_version_tx.
  destruct (putVersion _ _ _ _) as [b'|] eqn:E; [|done].
  cbn [snd notifyVersionRecorded with_vdb vdb set_versions bucketObjectVersions].
  exact (putVersion_inv _ _ _ _ _ Hi Hb Hk Hr E).
Qed.

Lemma update_keeps s tx :
  (∀ d d', tx d = Ok d' → bucketObjectVersions d' = bucketObjectVersions d) →
  vers (update s tx).2 = vers s.
Proof. intros Ht. unfold update. destruct (tx (vdb s)) eqn:E; [|done]. by apply Ht in E. Qed.

Lemma put_versioning_keeps bkt st d d' :
  put_versioning bkt st d = Ok d' → bucketObjectVersions d' = bucketObjectVersions d.
Proof. unfold put_versioning. destruct (bput _ _ _); [|discriminate]. by intros [= <-]. Qed.

Lemma ver_step_inv s s' : ver_step s s' → ver_inv (vers s) → ver_inv (vers s').
Proof.
  intros Hs Hi. destruct Hs as [s bkt key hash size rnd now Hb Hk|s bkt key rnd now Hb Hk
    |s bkt key rec Hb Hk|s bkt key vid now bypass Hb Hk|s bkt key vid bypass f now|s bkt st|s bkt|s name hash].
  - unfold RecordVersion. destruct (newVersionID rnd); [|done]. by apply record_version_inv.
  - unfold RecordDeleteMarker. destruct (newVersionID rnd); [|done]. by apply record_version_inv.
  - unfold PutVersionRecord. case_decide; [done|]. unfold update.
    destruct (applyReplicatedRecord _ _ _ _) as [b'|] eqn:E; [|done].
    exact (applyReplicatedRecord_inv _ _ _ (set_key [] rec) _ Hi Hb Hk eq_refl E).
  - unfold DeleteVersion. destruct (delete_version_tx _ _ _ _ _ _) as [[r d]|] eqn:E; [|done].
    by apply delete_version_spec in E as (_ & _ & ? & _).
  - unfold mutateVersionLock. case_decide; [done|]. rewrite update_keeps; [done|].
    intros d d'. unfold mutate_lock_tx. case_res; try discriminate.
    destruct (bput _ _ _); [|discriminate]. by intros [= <-].
  - unfold SetBucketVersioning. case_decide; [|done]. rewrite update_keeps; [done|].
    by apply put_versioning_keeps.
  - unfold SetBucketObjectLock. case_decide; [done|]. rewrite update_keeps; [done|].
    intros d d'. unfold lock_bucket_tx. case_decide; [discriminate|].
    destruct (if decide _ then Ok d else _) as [d1|] eqn:E; [|discriminate].
    destruct (bput _ _ _); [|discriminate]. intros [= <-]. cbn [bucketObjectVersions].
    case_decide; [by injection E as <-|]. by apply put_versioning_keeps in E.
  - unfold RepointNamespace. destruct hash; [done|]. destruct (bput _ _ _); done.
Qed.

Lemma ver_reach_inv s s' : ver_inv (vers s) → rtc ver_step s s' → ver_inv (vers s').
Proof. intros Hi. induction 1; eauto using ver_step_inv. Qed.

Lemma GetVersion_has s bkt key vid r :
  ver_inv (vers s) → nul_free bkt → nul_free key → GetVersion s bkt key vid = Ok r →
  ∃ r0, has_version (vers s) bkt key r0 ∧ VersionID r0 = vid ∧ r = set_key key r0.
Proof.
  intros Hi Hb Hk. unfold GetVersion.
  destruct (vers s !! versionKey bkt key vid) as [[r0|]|] eqn:E; [|discriminate..]. intros [= <-].
  destruct (vi_wf _ Hi _ _ E) as (b1 & k1 & r1 & Hb1 & Hk1 & Ek & [= <-] & _).
  apply versionKey_inj in Ek as (<- & <- & ->); [|done..]. by exists r0.
Qed.

Lemma has_GetVersion s bkt key r :
  has_version (vers s) bkt key r → GetVersion s bkt key (VersionID r) = Ok (set_key key r).
Proof. unfold has_version, GetVersion. by intros ->. Qed.
End Versions.

(** ** Listing *)
#[export] Instance entry_less_strict : StrictWeak entry_less.
Proof.
  split.
  - intros x y. unfold entry_less. destruct (decide (ekey x = ekey y)) as [E|E].
    + rewrite (decide_True (P := ekey y = ekey x)) by done. rewrite (Z.eqb_sym (Timestamp (erec y))).
      destruct (_ =? _) eqn:Et; [apply sw_asym|]. zbool. intros Hl. zbool. apply Z.ltb_ge. lia.
    + rewrite (decide_False (P := ekey y = ekey x)) by congruence. apply sw_asym.
  - intros x y z. unfold entry_less.
    destruct (decide (ekey x = ekey y)) as [E1|E1], (decide (ekey y = ekey z)) as [E2|E2].
    + rewrite (decide_True (P := ekey x = ekey z)) by congruence.
      destruct (Timestamp (erec x) =? Timestamp (erec y)) eqn:T1,
        (Timestamp (erec y) =? Timestamp (erec z)) eqn:T2; zbool;
        destruct (Timestamp (erec x) =? Timestamp (erec z)) eqn:T3; zbool; intros H1 H2; zbool; try lia;
        try (apply Z.ltb_ge; lia).
      by eapply (sw_ntrans (less := bytes_ltb)).
    + rewrite (decide_False (P := ekey x = ekey z)) by congruence. by rewrite E1.
    + rewrite (decide_False (P := ekey x = ekey z)) by congruence. by rewrite E2.
    + intros H1 H2. pose proof (sw_ntrans (less := bytes_ltb) _ _ _ H1 H2) as H3.
      case_decide as E3; [|done]. exfalso. rewrite <- E3 in H2. destruct E1. by apply bytes_ltb_total.
Qed.

(** What a listing reports for one stored record of the bucket. *)
Definition entry_of (head pfx : bytes) (kv : bytes * stored VersionRecord) : option versionEntry :=
  match index_byte NUL (drop (length head) kv.1), kv.2 with
  | Some n, Doc r =>
      let key := take n (drop (length head) kv.1) in
      if negb (bool_decide (pfx = [])) && negb (has_prefix key pfx) then None
      else Some (mkEntry key r)
  | _, _ => None
  end.

Lemma scan_loop_run head pfx l :
  sorted_keys l →
  Forall (λ kv : bytes * stored VersionRecord, prefixed head kv.1 →
          (length head < length kv.1)%nat ∧ ∃ r, kv.2 = Doc r) l →
  scan_loop head pfx (filter (λ kv : bytes * stored VersionRecord, bytes_ltb kv.1 head = false) l)
  = Ok (omap (entry_of head pfx) (filter (λ kv : bytes * stored VersionRecord, prefixed head kv.1) l)).
Proof.
  induction l as [|[k v] l IH]; intros Hs Hf; [done|].
  apply Forall_cons in Hf as [Hh Hf]. cbn [fst snd] in Hh.
  pose proof Hs as Hs'. apply StronglySorted_inv in Hs' as [Hs' _]. specialize (IH Hs' Hf).
  destruct (decide (bytes_ltb k head = false)) as [Hk|Hk].
  - rewrite filter_cons_True by done. cbn [scan_loop]. destruct (decide (prefixed head k)) as [Hp|Hp].
    + destruct (Hh Hp) as [Hlen [r ->]].
      rewrite (proj2 (Nat.leb_gt _ _)) by done. rewrite bool_decide_eq_true_2 by done. cbn [orb negb].
      rewrite (filter_cons_True (λ kv : bytes * stored VersionRecord, prefixed head kv.1)) by done.
      cbn [omap list_omap]. unfold entry_of at 1. cbn [fst snd].
      destruct (index_byte NUL _); [|done]. destruct (_ && _); [done|]. by rewrite IH.
    + rewrite (bool_decide_eq_false_2 (take _ _ = _)) by done. rewrite orb_true_r.
      rewrite (filter_cons_False (λ kv : bytes * stored VersionRecord, prefixed head kv.1)) by done.
      by rewrite (filter_past head k v).
  - rewrite filter_cons_False by done. apply not_false_iff_true in Hk.
    rewrite (filter_cons_False (λ kv : bytes * stored VersionRecord, prefixed head kv.1))
      by (by apply below_not_prefixed). done.
Qed.

Lemma index_byte_nul key rest : nul_free key → index_byte NUL (key ++ NUL :: rest) = Some (length key).
Proof.
  unfold nul_free. induction key as [|x key IH]; intros Hk; cbn [app index_byte].
  - by rewrite decide_True.
  - rewrite decide_False by set_solver. rewrite IH by set_solver. done.
Qed.

Lemma entry_of_key bkt pfx key r :
  nul_free key →
  entry_of (bkt ++ [NUL]) pfx (versionKey bkt key (VersionID r), Doc r)
  = if decide (pfx `prefix_of` key) then Some (mkEntry key r) else None.
Proof.
  intros Hk. unfold entry_of. cbn [fst snd].
  replace (versionKey bkt key (VersionID r)) with ((bkt ++ [NUL]) ++ (key ++ NUL :: VersionID r))
    by (unfold versionKey; by rewrite <- app_assoc).
  rewrite drop_app_eq by done. rewrite index_byte_nul by done. rewrite take_app_eq by done.
  destruct (has_prefix key pfx) eqn:E.
  - rewrite andb_false_r. rewrite decide_True; [done|]. by apply has_prefix_spec.
  - assert (¬ (pfx `prefix_of` key)) as Hn.
    { intros Hp%has_prefix_spec. congruence. }
    rewrite decide_False by done. rewrite bool_decide_eq_false_2; [done|].
    intros ->. apply Hn. by exists key.
Qed.

(** The listing of a well-formed bucket: each version exactly once. *)
Lemma scan_entries_spec b bkt pfx :
  ver_wf b → nul_free bkt →
  ∃ es, scanVersionEntries b bkt pfx = Ok es
  ∧ NoDup ((λ e, (ekey e, VersionID (erec e))) <$> es)
  ∧ ∀ e, e ∈ es ↔ nul_free (ekey e) ∧ has_version b bkt (ekey e) (erec e) ∧ pfx `prefix_of` ekey e.
Proof.
  intros Hw Hb. unfold scanVersionEntries. set (head := bkt ++ [NUL]).
  assert (∀ k v, prefixed head k → b !! k = Some v → ∃ key r, nul_free key
    ∧ k = versionKey bkt key (VersionID r) ∧ v = Doc r) as Hh.
  { intros k v Hp Hv. destruct (Hw k v Hv) as (b' & k' & r & Hb' & Hk' & -> & -> & _ & _).
    exists k', r. split_and!; try done. apply prefixed_app in Hp as [t Ht].
    unfold head, versionKey in Ht. rewrite <- app_assoc in Ht.
    apply nul_split in Ht as [-> _]; done. }
  assert (∀ kv, kv ∈ under head b → ∃ key r, nul_free key ∧ kv = (versionKey bkt key (VersionID r), Doc r)
            ∧ has_version b bkt key r) as Hu.
  { intros [k v] [Hp Hv]%elem_of_under. destruct (Hh k v Hp Hv) as (key & r & ? & -> & ->). by exists key, r. }
  exists (omap (entry_of head pfx) (under head b)). split_and!.
  - apply scan_loop_run; [apply cursor_sorted|].
    apply Forall_forall. intros [k v] Hin%elem_of_cursor Hp. cbn [fst snd] in *.
    destruct (Hh k v Hp Hin) as (key & r & _ & -> & ->). split; [|by exists r].
    unfold head, versionKey. rewrite !length_app. cbn [length]. lia.
  - assert (∀ l, (∀ kv, kv ∈ l → kv ∈ under head b) → NoDup l.*1 →
      NoDup ((λ e, (ekey e, VersionID (erec e))) <$> omap (entry_of head pfx) l)) as Hnd;
      [|apply Hnd; [done|apply under_nodup]].
    induction l as [|kv l IH]; intros Hl Hn; [constructor|]. apply NoDup_cons in Hn as [Hkv Hn].
    cbn [omap list_omap]. specialize (IH ltac:(set_solver) Hn).
    destruct (Hu kv ltac:(set_solver)) as (key & r & Hkey & -> & Hr).
    unfold head. rewrite entry_of_key by done. fold head. case_decide; [|done].
    constructor; [|done]. intros (e & He & (kv' & Hin & He')%list_elem_of_omap)%list_elem_of_fmap.
    destruct (Hu kv' ltac:(set_solver)) as (key' & r' & Hkey' & -> & _).
    unfold head in He'. rewrite entry_of_key in He' by done. case_decide; [|done].
    injection He' as <-. cbn [ekey erec] in He. injection He as -> Hid. apply Hkv.
    rewrite Hid. by apply (list_elem_of_fmap_2 fst) in Hin.
  - intros e. rewrite list_elem_of_omap. split.
    + intros (kv & Hin & He). destruct (Hu kv Hin) as (key & r & Hkey & -> & Hr).
      unfold head in He. rewrite entry_of_key in He by done. case_decide; [|done]. by injection He as <-.
    + intros (Hk & Hv & Hp). exists (versionKey bkt (ekey e) (VersionID (erec e)), Doc (erec e)). split.
      * apply elem_of_under. split; [|done]. apply prefixed_app.
        exists (ekey e ++ NUL :: VersionID (erec e)). unfold head, versionKey. by rewrite <- app_assoc.
      * unfold head. rewrite entry_of_key by done. rewrite decide_True by done. by destruct e.
Qed.

(** Resuming after an entry of a sorted listing continues right behind it. *)
Lemma resume_after l1 e l2 :
  StronglySorted (notafter entry_less) (l1 ++ e :: l2) →
  NoDup ((λ x, (ekey x, VersionID (erec x))) <$> l1 ++ e :: l2) →
  resume_loop (l1 ++ e :: l2) (ekey e) (VersionID (erec e)) = l2.
Proof.
  induction l1 as [|x l1 IH]; cbn [app resume_loop].
  - intros _ _. rewrite !bool_decide_eq_true_2 by done. done.
  - intros [Hs Hx]%StronglySorted_inv Hn. cbn [fmap list_fmap] in Hn. apply NoDup_cons in Hn as [Hnx Hn].
    assert (¬ (ekey x = ekey e ∧ VersionID (erec x) = VersionID (erec e))) as Hne.
    { intros [E1 E2]. apply Hnx. rewrite E1, E2.
      apply (list_elem_of_fmap_2 (λ x, (ekey x, VersionID (erec x)))). set_solver. }
    destruct (bool_decide _ && _) eqn:E.
    { apply andb_prop in E as [E1%bool_decide_eq_true E2%bool_decide_eq_true]. by destruct Hne. }
    assert (bytes_ltb (ekey e) (ekey x) = false) as ->; [|by apply IH].
    rewrite Forall_forall in Hx. specialize (Hx e ltac:(set_solver)). unfold notafter, entry_less in Hx.
    case_decide as Ek; [|done]. rewrite Ek. apply bytes_ltb_irrefl.
Qed.
