(* ===== verification/VersionProps.v ===== *)
(** * The properties of versioning and object lock

    Chains, replication, listing and retention, proved from the lemmas of
    VersionTheorems.v. *)
From S2P Require Import Prelude GoText Hashes Json Paths BlobStore CasStore Versioning VersionTheorems.
Open Scope Z_scope.

Notation vers s := (bucketObjectVersions (vdb s)).

Section Chains.
Context {B : Type} `{BlobStore B}.
Implicit Types (s : VStore B).


(** An acknowledged [RecordVersion] stores exactly the new record as latest,
    keeps every older version of the key with its content but no longer latest,
    leaves all other keys alone and reports the record to the replication hook
    once. *)
Theorem RecordVersion_spec s bkt key hash size rnd now vid s' :
  ver_inv (vers s) → nul_free bkt → nul_free key →
  RecordVersion s bkt key hash size rnd now = (Ok vid, s') →
  let rec := mkVersion vid hash size now true false [] in
  GetVersion s' bkt key vid = Ok (set_key key rec)
  ∧ (∀ r, r ≠ set_key key rec → GetVersion s' bkt key (VersionID r) = Ok r →
       IsLatest r = false ∧ ∃ r0, GetVersion s bkt key (VersionID r) = Ok r0 ∧ r = set_latest false r0)
  ∧ (∀ r, VersionID r ≠ vid → GetVersion s bkt key (VersionID r) = Ok r →
       GetVersion s' bkt key (VersionID r) = Ok (set_latest false r))
  ∧ (∀ bkt' key' v, nul_free bkt' → nul_free key' → (bkt', key') ≠ (bkt, key) →
       GetVersion s' bkt' key' v = GetVersion s bkt' key' v)
  ∧ verHook s' = (λ l, l ++ [(bkt, key, rec)]) <$> verHook s.
Proof.
  intros Hi Hb Hk. unfold RecordVersion. destruct (newVersionID rnd) as [vid'|]; [|discriminate].
  intros Hr. apply record_version_Ok in Hr as (-> & b' & Hp & ->). cbn [VersionID]. cbn zeta.
  set (rec := mkVersion vid' hash size now true false []) in *.
  set (s' := notifyVersionRecorded _ _ _ _).
  assert (vers s' = b') as Hs' by done.
  assert (∀ r, has_version b' bkt key r ↔ r = rec ∨ VersionID r ≠ VersionID rec
            ∧ ∃ r0, has_version (vers s) bkt key r0 ∧ r = set_latest false r0) as Hh.
  { intros r. rewrite (putVersion_has (vers s) bkt key rec b') by (done || apply Hi).
    by rewrite decide_True. }
  assert (ver_inv (vers s')) as Hi' by exact (putVersion_inv _ _ _ rec _ Hi Hb Hk eq_refl Hp).
  split_and!.
  - apply (has_GetVersion s' bkt key rec). rewrite Hs'. apply Hh. by left.
  - intros r Hne Hg. apply GetVersion_has in Hg as (r0 & Hr0 & Hid & ->); [|done..].
    rewrite Hs' in Hr0. apply Hh in Hr0. destruct Hr0 as [->|(_ & r1 & Hr1 & ->)]; [by destruct Hne|]. split; [done|].
    exists (set_key key r1). split; [|done]. cbn [VersionID set_key set_latest].
    apply (has_GetVersion s bkt key r1 Hr1).
  - intros r Hne Hg. apply GetVersion_has in Hg as (r0 & Hr0 & Hid & Hr); [|done..].
    rewrite <- Hid. replace (set_latest false r) with (set_key key (set_latest false r0)) by (by rewrite Hr).
    apply (has_GetVersion s' bkt key (set_latest false r0)). rewrite Hs'. apply Hh. right. cbn [VersionID set_latest]. split; [by rewrite Hid|]. by exists r0.
  - intros bkt' key' v Hb' Hk' Hne. unfold GetVersion. rewrite Hs'.
    destruct (putVersion_lookup _ _ _ _ _ (vi_wf _ Hi) Hb Hk (eq_refl : VKey rec = []) Hp) as [_ ->].
    rewrite decide_False by (intros (-> & -> & _)%versionKey_inj; done).
    rewrite decide_False by (intros [-> ->]%prefixed_versionKey; done). done.
  - done.
Qed.

(** An acknowledged [DeleteVersion] removes exactly that version; if it was
    the latest, the newest remaining version (by time, then id) becomes the
    latest, so the chain never loses its head while versions remain. *)
Theorem DeleteVersion_repoints s bkt key vid now bypass r s' :
  ver_inv (vers s) → nul_free bkt → nul_free key →
  DeleteVersion s bkt key vid now bypass = (Ok r, s') →
  GetVersion s' bkt key vid = Err (Errno ENOENT)
  ∧ (∀ x, VersionID x ≠ vid → GetVersion s bkt key (VersionID x) = Ok x →
       ∃ l, GetVersion s' bkt key (VersionID x) = Ok (set_latest l x))
  ∧ (IsLatest r = true → ∀ x, VersionID x ≠ vid → GetVersion s bkt key (VersionID x) = Ok x →
       ∃ q, GetVersion s' bkt key (VersionID q) = Ok q ∧ IsLatest q = true ∧ newer x q = false).
Proof.
  intros Hi Hb Hk. unfold DeleteVersion.
  destruct (delete_version_tx _ _ _ _ _ _) as [[r0 d]|] eqn:E; [|discriminate]. intros [= -> <-].
  apply delete_version_spec in E as (Hr & Hid & Hi' & _ & _ & Hch & Hl); [|done..].
  set (s' := with_vdb d s). change (bucketObjectVersions d) with (vers s') in *.
  split_and!.
  - unfold GetVersion. destruct Hch as [->|(_ & q & Hq & _ & ->)]; [by rewrite lookup_delete_eq|].
    apply delete_has in Hq as [Hne _]; [|done..].
    rewrite lookup_insert_ne, lookup_delete_eq; [done|]. by intros (_ & _ & ?)%versionKey_inj.
  - intros x Hx Hg. apply GetVersion_has in Hg as (x0 & Hx0 & Hxid & ->); [|done..].
    assert (has_version (delete (versionKey bkt key vid) (vers s)) bkt key x0) as Hx1
      by (apply delete_has; [done|done|]; split; [congruence|done]).
    assert (∃ l, has_version (vers s') bkt key (set_latest l x0)) as [l Hl'].
    { destruct Hch as [->|(_ & q & Hq & _ & ->)].
      - exists (IsLatest x0). by rewrite set_latest_id.
      - destruct (decide (VersionID x0 = VersionID q)) as [Eq|Ne].
        + exists true. unfold has_version in Hq, Hx1. rewrite Eq, Hq in Hx1. injection Hx1 as ->.
          unfold has_version. by rewrite lookup_insert_eq.
        + exists (IsLatest x0). rewrite (set_latest_id x0) by done. unfold has_version.
          rewrite lookup_insert_ne; [done|]. by intros (_ & _ & ?)%versionKey_inj. }
    exists l. apply has_GetVersion in Hl'. cbn [VersionID set_key set_latest] in *. by rewrite Hl'.
  - intros L x Hx Hg. apply GetVersion_has in Hg as (x0 & Hx0 & Hxid & ->); [|done..].
    assert (has_version (delete (versionKey bkt key vid) (vers s)) bkt key x0) as Hx1
      by (apply delete_has; [done|done|]; split; [congruence|done]).
    destruct (Hl L) as [Hn|(q & Hq & Hmax & Eb)]; [by destruct (Hn x0)|].
    exists (set_key key (set_latest true q)). split_and!; [|done|exact (Hmax x0 Hx1)].
    apply (has_GetVersion s' bkt key (set_latest true q)). unfold has_version. rewrite Eb.
    by rewrite lookup_insert_eq.
Qed.

(** ** Listing by pages *)

(** A client that follows the markers until a page is not truncated. *)
Fixpoint all_pages (fuel : nat) s (bkt pfx keyMarker versionIDMarker : bytes) (maxKeys : Z)
    : result (list VersionRecord) :=
  match fuel with
  | O => Err ErrPlain
  | S f =>
      let! p := ListVersions s bkt pfx keyMarker versionIDMarker maxKeys in
      if IsTruncated p then
        let! rest := all_pages f s bkt pfx (NextKeyMarker p) (NextVersionID p) maxKeys in
        Ok (Records p ++ rest)
      else Ok (Records p)
  end.

Definition entry_record (e : versionEntry) : VersionRecord := set_key (ekey e) (erec e).

Lemma resume_suffix es l1 l2 km vm :
  StronglySorted (notafter entry_less) es → NoDup ((λ x, (ekey x, VersionID (erec x))) <$> es) →
  Forall (λ e, ekey e ≠ [] ∧ VersionID (erec e) ≠ []) es → es = l1 ++ l2 →
  match last l1 with
  | None => km = [] ∧ vm = []
  | Some e => km = ekey e ∧ vm = VersionID (erec e)
  end → resumeAfterMarker es km vm = l2.
Proof.
  intros Hs Hn Hf -> Hm. unfold resumeAfterMarker. destruct (last l1) as [e|] eqn:El.
  - destruct Hm as [-> ->]. apply last_Some in El as [l0 ->]. rewrite <- app_assoc in *. cbn [app] in *.
    rewrite Forall_forall in Hf. destruct (Hf e ltac:(set_solver)) as [? ?].
    rewrite decide_False by naive_solver. by apply resume_after.
  - destruct Hm as [-> ->]. rewrite decide_True by (by left). apply last_None in El as ->. done.
Qed.

Lemma all_pages_suffix s bkt pfx n es0 fuel l1 l2 km vm :
  let es := sortVersionEntries es0 in
  scanVersionEntries (vers s) bkt pfx = Ok es0 → 0 < n →
  StronglySorted (notafter entry_less) es → NoDup ((λ x, (ekey x, VersionID (erec x))) <$> es) →
  Forall (λ e, ekey e ≠ [] ∧ VersionID (erec e) ≠ []) es → es = l1 ++ l2 →
  match last l1 with
  | None => km = [] ∧ vm = []
  | Some e => km = ekey e ∧ vm = VersionID (erec e)
  end → (length l2 < fuel)%nat → all_pages fuel s bkt pfx km vm n = Ok (entry_record <$> l2).
Proof.
  intros es Hscan Hn0 Hs Hn Hf. revert l1 l2 km vm.
  induction fuel as [|fuel IH]; intros l1 l2 km vm Hes Hm Hfuel; [lia|].
  cbn [all_pages]. unfold ListVersions. rewrite Hscan. fold es.
  rewrite (resume_suffix es l1 l2 km vm) by done. unfold paginate.
  rewrite (proj2 (Z.ltb_lt 0 n)) by done. cbn [andb].
  destruct (n <? Z.of_nat (length l2)) eqn:El; [|done]. zbool.
  assert (0 < length (take (Z.to_nat n) l2))%nat as Hpos by (rewrite length_take; lia).
  destruct (last (take (Z.to_nat n) l2)) as [e|] eqn:Elast; [|apply last_None in Elast; rewrite Elast in Hpos; cbn in Hpos; lia].
  cbn [IsTruncated NextKeyMarker NextVersionID Records].
  rewrite (IH (l1 ++ take (Z.to_nat n) l2) (drop (Z.to_nat n) l2)).
  - f_equal. rewrite <- fmap_app. by rewrite take_drop.
  - by rewrite <- app_assoc, take_drop.
  - rewrite last_app, Elast. done.
  - rewrite length_drop. lia.
Qed.

(** Following the page markers with any page size visits every version under
    the prefix exactly once and ends: the pages concatenate to the unlimited
    listing, whose records are exactly the stored versions. *)
Theorem ListVersions_pages s bkt pfx n :
  ver_inv (vers s) → nul_free bkt → 0 < n →
  (∀ key r, nul_free key → has_version (vers s) bkt key r → key ≠ [] ∧ VersionID r ≠ []) →
  ∃ rs, ListVersions s bkt pfx [] [] 0 = Ok (mkPage rs [] [] false)
  ∧ (∀ fuel, (length rs < fuel)%nat → all_pages fuel s bkt pfx [] [] n = Ok rs)
  ∧ NoDup ((λ r, (VKey r, VersionID r)) <$> rs)
  ∧ ∀ r, r ∈ rs ↔ nul_free (VKey r) ∧ GetVersion s bkt (VKey r) (VersionID r) = Ok r
                  ∧ pfx `prefix_of` VKey r.
Proof.
  intros Hi Hb Hn0 Hne. destruct (scan_entries_spec (vers s) bkt pfx (vi_wf _ Hi) Hb) as (es0 & Hscan & Hnd & Hin).
  pose proof (stable_sort_perm entry_less es0) as Hperm.
  assert (∀ e, e ∈ sortVersionEntries es0 ↔ nul_free (ekey e) ∧ has_version (vers s) bkt (ekey e) (erec e)
            ∧ pfx `prefix_of` ekey e) as Hin' by (intros e; unfold sortVersionEntries; by rewrite Hperm).
  exists (entry_record <$> sortVersionEntries es0). split_and!.
  - unfold ListVersions. rewrite Hscan. unfold resumeAfterMarker. rewrite decide_True by (by left). done.
  - intros fuel Hfuel. rewrite length_fmap in Hfuel.
    apply (all_pages_suffix s bkt pfx n es0 fuel [] (sortVersionEntries es0)); try done.
    + apply (stable_sort_sorted entry_less).
    + unfold sortVersionEntries. by rewrite Hperm.
    + apply Forall_forall. intros e (He1 & He2 & _)%Hin'. eauto.
  - rewrite <- list_fmap_compose. unfold compose, entry_record. cbn [VKey VersionID set_key].
    unfold sortVersionEntries. by rewrite Hperm.
  - intros r. rewrite list_elem_of_fmap. split.
    + intros (e & -> & (He1 & He2 & He3)%Hin'). unfold entry_record. cbn [VKey VersionID set_key].
      split_and!; try done. by apply has_GetVersion.
    + intros (Hk & Hg & Hp). apply GetVersion_has in Hg as (r0 & Hr0 & _ & E); [|done..].
      exists (mkEntry (VKey r) r0). split; [done|]. by apply Hin'.
Qed.
End Chains.

(** ** Replication of version records *)

(** Newest among the records of [l]. *)
Definition newest (r : VersionRecord) (l : list VersionRecord) : bool :=
  bool_decide (Forall (λ q, Timestamp q <= Timestamp r) l).

(** The bucket after the records [l] of one key arrived over [b]. *)
Record chain_state (b : versions) (bkt key : bytes) (l : list VersionRecord) (b' : versions) : Prop := {
  cs_inv : ver_inv b';
  cs_long : no_short (version_prefix bkt key) b';
  cs_frame : ∀ k, ¬ prefixed (version_prefix bkt key) k → b' !! k = b !! k;
  cs_has : ∀ r, has_version b' bkt key r ↔ ∃ r0, r0 ∈ l ∧ r = set_latest (newest r0 l) r0
}.

Lemma newest_perm r l l' : l ≡ₚ l' → newest r l = newest r l'.
Proof. intros Hp. unfold newest. apply bool_decide_ext. by rewrite Hp. Qed.

Lemma chain_state_unique b bkt key l l' b1 b2 :
  nul_free bkt → nul_free key → l ≡ₚ l' →
  chain_state b bkt key l b1 → chain_state b bkt key l' b2 → b1 = b2.
Proof.
  intros Hb Hk Hp C1 C2. apply map_eq. intros k.
  destruct (decide (prefixed (version_prefix bkt key) k)) as [Hk0|Hk0];
    [|by rewrite (cs_frame _ _ _ _ _ C1), (cs_frame _ _ _ _ _ C2)].
  assert (∀ r, has_version b1 bkt key r ↔ has_version b2 bkt key r) as Hh.
  { intros r. rewrite (cs_has _ _ _ _ _ C1), (cs_has _ _ _ _ _ C2).
    setoid_rewrite (newest_perm _ l l' Hp). by setoid_rewrite Hp. }
  apply option_eq. intros v. split; intros Hv.
  - destruct (wf_under _ _ _ _ _ (vi_wf _ (cs_inv _ _ _ _ _ C1)) Hb Hk Hk0 Hv) as (r & -> & -> & _).
    by apply Hh.
  - destruct (wf_under _ _ _ _ _ (vi_wf _ (cs_inv _ _ _ _ _ C2)) Hb Hk Hk0 Hv) as (r & -> & -> & _).
    by apply Hh.
Qed.

Lemma latest_total b bkt key :
  ver_wf b → nul_free bkt → nul_free key → no_short (version_prefix bkt key) b →
  ∃ o, latestVersionTx b bkt key = Ok o.
Proof.
  intros Hw Hb Hk Hs. unfold latestVersionTx. rewrite seek_total by done.
  assert (∀ l best, entries_of b l → ∃ o, run latest_step l best = Ok o) as Ht.
  { intros l best Hl. revert best. induction Hl as [|[k v] l [_ (r & Hr & _)] _ IH]; intros best; [by eexists|].
    cbn [snd] in Hr. subst v. cbn [run latest_step]. destruct best; apply IH. }
  destruct (Ht _ None (under_entries b bkt key Hw Hb Hk)) as [o ->]. by eexists.
Qed.

Lemma long_versionKey bkt key v :
  (length (version_prefix bkt key) <= length (versionKey bkt key v))%nat.
Proof. rewrite versionKey_prefix, length_app. lia. Qed.

Lemma chain_put b bkt key l b' rec :
  nul_free bkt → nul_free key → chain_state b bkt key l b' → VKey rec = [] → IsLatest rec = true →
  VersionID rec ∉ VersionID <$> l → key_ok (versionKey bkt key (VersionID rec)) →
  Forall (λ q, Timestamp q < Timestamp rec) l →
  ∃ b'', putVersion b' bkt key rec = Ok b'' ∧ chain_state b bkt key (rec :: l) b''.
Proof.
  intros Hb Hk [Ci Cl Cf Ch] Hr Hlat Hid Hok Hts.
  destruct (putVersion_total b' bkt key rec (vi_wf _ Ci) Hb Hk Cl Hok) as [b'' Hp].
  exists b''. split; [done|].
  destruct (putVersion_lookup _ _ _ _ _ (vi_wf _ Ci) Hb Hk Hr Hp) as [_ Hlk].
  assert (newest rec (rec :: l) = true) as Hnew.
  { apply bool_decide_eq_true_2. constructor; [lia|]. eapply Forall_impl; [exact Hts|]. cbn. lia. }
  assert (∀ q, q ∈ l → newest q (rec :: l) = false) as Hold.
  { intros q Hq. apply bool_decide_eq_false_2. intros [Hle _]%Forall_cons.
    rewrite Forall_forall in Hts. specialize (Hts q Hq). lia. }
  split.
  - exact (putVersion_inv _ _ _ rec _ Ci Hb Hk Hr Hp).
  - intros k v. rewrite Hlk. case_decide; [intros _; subst; apply long_versionKey|].
    case_decide; [intros (v0 & Hv0 & _)%fmap_Some; by eapply Cl|by apply Cl].
  - intros k Hn. rewrite Hlk. rewrite !decide_False; [by apply Cf|done|].
    intros ->. by apply Hn, prefixed_versionKey.
  - intros r. rewrite (putVersion_has b' bkt key rec b'') by (done || apply Ci).
    rewrite decide_True by done. split.
    + intros [->|(Hne & r1 & (r0 & Hin & ->)%Ch & ->)].
      * exists rec. split; [by left|]. by rewrite Hnew, set_latest_id.
      * exists r0. split; [by right|]. by rewrite Hold.
    + intros (r0 & [->|Hin]%elem_of_cons & ->); [left; by rewrite Hnew, set_latest_id|].
      right. rewrite Hold by done. cbn [VersionID set_latest]. split.
      * intros E. apply Hid. rewrite <- E. by apply list_elem_of_fmap_2.
      * exists (set_latest (newest r0 l) r0). split; [|done]. apply Ch. by exists r0.
Qed.

Lemma chain_old b bkt key l b' rec q :
  nul_free bkt → nul_free key → chain_state b bkt key l b' → VKey rec = [] →
  VersionID rec ∉ VersionID <$> l → key_ok (versionKey bkt key (VersionID rec)) →
  q ∈ l → Timestamp rec < Timestamp q →
  chain_state b bkt key (rec :: l) (<[versionKey bkt key (VersionID rec) := Doc (set_latest false rec)]> b').
Proof.
  intros Hb Hk [Ci Cl Cf Ch] Hr Hid Hok Hq Hts.
  assert (newest rec (rec :: l) = false) as Hrec.
  { apply bool_decide_eq_false_2. intros Hf. rewrite Forall_forall in Hf.
    specialize (Hf q ltac:(by right)). lia. }
  assert (∀ x, newest x (rec :: l) = newest x l) as Hsame.
  { intros x. apply bool_decide_ext. rewrite Forall_cons. split; [by intros []|]. intros Hf. split; [|done].
    rewrite Forall_forall in Hf. specialize (Hf q Hq). lia. }
  split.
  - by apply (insert_inv b' bkt key (set_latest false rec)).
  - intros k v. rewrite lookup_insert. case_decide; [intros _; subst; apply long_versionKey|by apply Cl].
  - intros k Hn. rewrite lookup_insert_ne; [by apply Cf|]. intros <-. by apply Hn, prefixed_versionKey.
  - intros r. rewrite (insert_has b' bkt key (set_latest false rec)) by done.
    destruct (decide _) as [(_ & _ & E)|E].
    + split; [intros ->; exists rec; split; [by left|]; by rewrite Hrec|].
      intros (r0 & [->|Hin]%elem_of_cons & ->); [by rewrite Hrec|].
      destruct Hid. cbn [VersionID set_latest] in E. rewrite <- E. by apply list_elem_of_fmap_2.
    + rewrite Ch. split; intros (r0 & Hin & ->).
      * exists r0. split; [by right|]. by rewrite Hsame.
      * apply elem_of_cons in Hin as [->|Hin]; [by destruct E|]. exists r0. by rewrite Hsame.
Qed.

Lemma chain_step b bkt key l b' rec :
  nul_free bkt → nul_free key → chain_state b bkt key l b' → VKey rec = [] → IsLatest rec = true →
  VersionID rec ∉ VersionID <$> l → Timestamp rec ∉ Timestamp <$> l →
  key_ok (versionKey bkt key (VersionID rec)) →
  ∃ b'', applyReplicatedRecord b' bkt key rec = Ok b'' ∧ chain_state b bkt key (rec :: l) b''.
Proof.
  intros Hb Hk C Hr Hlat Hid Hts Hok. pose proof C as [Ci Cl Cf Ch]. unfold applyReplicatedRecord.
  replace (match b' !! _ with Some (Doc old) => _ | _ => false end) with false.
  2: { destruct (b' !! versionKey bkt key (VersionID rec)) as [[old|]|] eqn:E; [|done..].
       symmetry. apply bool_decide_eq_false_2. intros ->. apply Ch in E as (r0 & Hin & E').
       apply Hid. rewrite E'. cbn [VersionID set_latest]. by apply list_elem_of_fmap_2. }
  rewrite Hlat. destruct (latest_total b' bkt key (vi_wf _ Ci) Hb Hk Cl) as [o Ho]. rewrite Ho.
  apply latestVersionTx_spec in Ho; [|apply Ci|done..]. destruct o as [q'|].
  - destruct Ho as (q & -> & Hq & Hmax). apply Ch in Hq as (q0 & Hq0 & ->).
    cbn [Timestamp set_key set_latest]. destruct (_ <=? _) eqn:E; zbool.
    + apply chain_put; try done. apply Forall_forall. intros x Hx.
      assert (has_version b' bkt key (set_latest (newest x l) x)) as Hhx by (apply Ch; by exists x).
      specialize (Hmax _ Hhx). unfold newer in Hmax. cbn [Timestamp set_latest] in Hmax.
      apply orb_false_iff in Hmax as [Hmax _]. zbool.
      assert (Timestamp x ≠ Timestamp rec); [|lia].
      intros Ex. apply Hts. rewrite <- Ex. by apply list_elem_of_fmap_2.
    + rewrite bput_ok by done. unfold marshal. rewrite set_latest_key by done.
      eexists. split; [done|]. by eapply chain_old.
  - apply chain_put; try done. apply Forall_forall. intros x Hx. exfalso.
    apply (Ho (set_latest (newest x l) x)), Ch. by exists x.
Qed.

Section Replication.
Context {B : Type} `{BlobStore B}.
Implicit Types (s : VStore B).

(** Replicated records arriving one after the other. *)
Definition replicate_all s (bkt key : bytes) (l : list VersionRecord) : VStore B :=
  foldl (λ s r, (PutVersionRecord s bkt key r).2) s l.

(** The records a peer sends for one key. *)
Record batch_ok (bkt key : bytes) (l : list VersionRecord) : Prop := {
  bo_ids : NoDup (VersionID <$> l);
  bo_times : NoDup (Timestamp <$> l);
  bo_recs : Forall (λ r, VersionID r ≠ [] ∧ VKey r = [] ∧ IsLatest r = true
                         ∧ key_ok (versionKey bkt key (VersionID r))) l
}.

Lemma replicate_chain s bkt key l :
  bkt ≠ [] → key ≠ [] → nul_free bkt → nul_free key →
  ver_inv (vers s) → no_short (version_prefix bkt key) (vers s) →
  (∀ r, ¬ has_version (vers s) bkt key r) → batch_ok bkt key l →
  ∃ b', replicate_all s bkt key l = with_vdb (set_versions b' (vdb s)) s
        ∧ chain_state (vers s) bkt key (reverse l) b'.
Proof.
  intros Hb0 Hk0 Hb Hk Hi Hs Hno. induction l as [|r l IH] using rev_ind; intros [H1 H2 H3].
  - exists (vers s). split; [by destruct s as [? [] ?]|]. split; try done.
    intros r. split; [intros Hr; by destruct (Hno r)|]. intros (? & Hin & _).
    rewrite reverse_nil in Hin. by apply not_elem_of_nil in Hin.
  - rewrite fmap_app in H1. rewrite fmap_app in H2. apply NoDup_app in H1 as (H1 & H1' & _).
    apply NoDup_app in H2 as (H2 & H2' & _). apply Forall_app in H3 as [H3 [Hr _]%Forall_cons].
    destruct Hr as (R1 & R2 & R3 & R4). destruct IH as (b' & IH & C); [by split|].
    destruct (chain_step _ bkt key (reverse l) b' r Hb Hk C R2 R3) as (b'' & Ha & C'); [..|done|].
    + rewrite list_elem_of_fmap. intros (x & Ex & Hx). apply (H1' (VersionID r)); [|cbn; by left].
      rewrite Ex. apply list_elem_of_fmap_2. by apply elem_of_reverse.
    + rewrite list_elem_of_fmap. intros (x & Ex & Hx). apply (H2' (Timestamp r)); [|cbn; by left].
      rewrite Ex. apply list_elem_of_fmap_2. by apply elem_of_reverse.
    + exists b''. rewrite reverse_snoc. split; [|done]. unfold replicate_all in *.
      rewrite foldl_app. cbn [foldl]. rewrite IH. unfold PutVersionRecord.
      rewrite decide_False by naive_solver. unfold update.
      cbn [vdb with_vdb set_versions bucketObjectVersions]. rewrite set_key_id by done. by rewrite Ha.
Qed.

(** Replication of version records converges: whatever the order in which the
    records of a key arrive, the replica ends in the same state, with every
    record stored and exactly the newest one marked latest. *)
Theorem replication_converges s bkt key l l' :
  bkt ≠ [] → key ≠ [] → nul_free bkt → nul_free key →
  ver_inv (vers s) → no_short (version_prefix bkt key) (vers s) →
  (∀ r, ¬ has_version (vers s) bkt key r) → batch_ok bkt key l → l ≡ₚ l' →
  replicate_all s bkt key l = replicate_all s bkt key l'
  ∧ ∀ r, r ∈ l → GetVersion (replicate_all s bkt key l) bkt key (VersionID r)
                 = Ok (set_key key (set_latest (newest r l) r)).
Proof.
  intros Hb0 Hk0 Hb Hk Hi Hs Hno Hl Hp.
  assert (batch_ok bkt key l') as Hl'.
  { destruct Hl as [H1 H2 H3]. split; by rewrite <- Hp. }
  destruct (replicate_chain s bkt key l Hb0 Hk0 Hb Hk Hi Hs Hno Hl) as (b1 & E1 & C1).
  destruct (replicate_chain s bkt key l' Hb0 Hk0 Hb Hk Hi Hs Hno Hl') as (b2 & E2 & C2).
  assert (b1 = b2) as <-.
  { eapply chain_state_unique; [exact Hb|exact Hk| |exact C1|exact C2]. by rewrite !reverse_Permutation. }
  rewrite E1, E2. split; [done|]. intros r Hr.
  apply (has_GetVersion (with_vdb (set_versions b1 (vdb s)) s) bkt key (set_latest (newest r l) r)).
  apply (cs_has _ _ _ _ _ C1). exists r. split; [by apply elem_of_reverse|].
  f_equal. apply newest_perm. by rewrite reverse_Permutation.
Qed.
End Replication.

(** ** Retention *)
Section Worm.
Context {B : Type} `{BlobStore B}.
Implicit Types (s : VStore B).

(** What the S3 gateway does to a node's versions, locks and names while the clock is
    before [D].  Lock headers are stored for the version an upload has just recorded
    (LockVersion), so one without a mode but with a deadline, which the header parser
    lets through, is for another version than [vid]; the retention sub-resource asks
    for a mode (ParseRetentionXML).  Fresh version ids differ from [vid].  Uploads,
    plain and batch deletes, repointing and the background passes act on the content
    store, which [gw_names] replaces by any other. *)
Inductive gw_step (D : Z) (vid : bytes) : VStore B → VStore B → Prop :=
  | gw_lock s b k v st bypass t : nul_free b → nul_free k → t < D →
      (v = vid → Mode st = [] → RetainUntil st = 0) →
      gw_step D vid s (PutVersionLock s b k v st bypass t).2
  | gw_retention s b k v mode u bypass t : nul_free b → nul_free k → t < D → (mode = [] → u = 0) →
      gw_step D vid s (PutVersionRetention s b k v mode u bypass t).2
  | gw_hold s b k v on t : nul_free b → nul_free k → t < D →
      gw_step D vid s (PutVersionLegalHold s b k v on t).2
  | gw_delete s b k v t bypass : nul_free b → nul_free k → t < D →
      gw_step D vid s (DeleteVersion s b k v t bypass).2
  | gw_record s b k hash size rnd now : nul_free b → nul_free k → newVersionID rnd ≠ Ok vid →
      gw_step D vid s (RecordVersion s b k hash size rnd now).2
  | gw_marker s b k rnd now : nul_free b → nul_free k → newVersionID rnd ≠ Ok vid →
      gw_step D vid s (RecordDeleteMarker s b k rnd now).2
  | gw_names s c : gw_step D vid s (mkVS c (vdb s) (verHook s)).

(** The version's record has its content hash and is under compliance until [D]. *)
Record worm (D : Z) (bkt key vid h : bytes) s : Prop := {
  wo_inv : ver_inv (vers s);
  wo_rec : ∃ r, has_version (vers s) bkt key r ∧ VersionID r = vid ∧ VHash r = h ∧ IsDeleteMarker r = false;
  wo_lock : ∃ st, bucketLockStatus (vdb s) !! lockStatusKey bkt key vid = Some (Doc st)
                  ∧ Mode st = LockModeCompliance ∧ D <= RetainUntil st
}.

Lemma lockStatusKey_versionKey b k v : lockStatusKey b k v = versionKey b k v.
Proof. done. Qed.

Lemma compliance_tightens existing next bypass t :
  Mode existing = LockModeCompliance → t < RetainUntil existing →
  (Mode next = [] → RetainUntil next = 0) →
  validateLockState next = Ok tt → checkLockTighten existing next bypass t = Ok tt →
  Mode next = LockModeCompliance ∧ RetainUntil existing <= RetainUntil next.
Proof.
  intros Hm Ht Hsane. unfold validateLockState, checkLockTighten.
  destruct (decide (Mode next = [] ∨ _)) as [Hmode|]; [|discriminate]. intros _.
  rewrite (proj2 (Z.ltb_lt _ _)) by done. rewrite decide_True by done.
  destruct (_ || _) eqn:E; [discriminate|]. intros _.
  apply orb_false_iff in E as [[E1 E2]%orb_false_iff E3].
  destruct Hmode as [Hn|[Hn|Hn]].
  - rewrite bool_decide_eq_true_2, (Hsane Hn) in E3 by done. discriminate E3.
  - split; [done|]. rewrite bool_decide_eq_true_2 in E2 by done. cbn [andb] in E2. by zbool.
  - by rewrite bool_decide_eq_true_2 in E1.
Qed.

Lemma worm_mutate D bkt key vid h s b k v bypass f t :
  nul_free bkt → nul_free key → nul_free b → nul_free k → t < D →
  (∀ st, v = vid → Mode st = LockModeCompliance → Mode (f st) = [] → RetainUntil (f st) = 0) →
  worm D bkt key vid h s → worm D bkt key vid h (mutateVersionLock s b k v bypass f t).2.
Proof.
  intros Hb Hk Hb' Hk' Ht Hf [Wi Wr (st & Wl & Wm & Wd)]. unfold mutateVersionLock, update.
  case_decide; [by split; eauto|].
  destruct (mutate_lock_tx _ _ _ _ _ _ _) as [d|] eqn:E; [|by split; eauto].
  unfold mutate_lock_tx in E.
  destruct (match bucketLockStatus (vdb s) !! _ with Some _ => _ | None => _ end) as [ex|] eqn:Eex; [|discriminate].
  destruct (validateLockState _) as [[]|] eqn:Ev; [|discriminate].
  destruct (checkLockTighten _ _ _ _) as [[]|] eqn:Ec; [|discriminate].
  destruct (bput _ _ _) as [bk|] eqn:Eb; [|discriminate]. injection E as <-.
  apply bput_Some in Eb as [-> _]. split; [done|done|].
  cbn [snd with_vdb vdb set_lock_status bucketLockStatus].
  destruct (decide (b = bkt ∧ k = key ∧ v = vid)) as [(-> & -> & ->)|Hne].
  - rewrite lookup_insert_eq. eexists. split; [done|].
    rewrite Wl in Eex. injection Eex as <-.
    apply compliance_tightens in Ec as [? ?]; [split; [done|lia]|done|lia|by apply Hf|done].
  - rewrite lookup_insert_ne; [by exists st|]. rewrite !lockStatusKey_versionKey.
    intros (? & ? & ?)%versionKey_inj; naive_solver.
Qed.

Lemma worm_denies D bkt key vid h s t bypass :
  worm D bkt key vid h s → t < D → lockDeniesTx (bucketLockStatus (vdb s)) bkt key vid t bypass = Ok true.
Proof.
  intros [_ _ (st & Wl & Wm & Wd)] Ht. unfold lockDeniesTx, lockedAt. rewrite Wl, Wm.
  rewrite (proj2 (Z.ltb_lt _ _)) by lia. destruct (LegalHoldOn st), bypass; done.
Qed.

Lemma worm_delete D bkt key vid h s b k v t bypass :
  nul_free bkt → nul_free key → nul_free b → nul_free k → t < D →
  worm D bkt key vid h s → worm D bkt key vid h (DeleteVersion s b k v t bypass).2.
Proof.
  intros Hb Hk Hb' Hk' Ht W. pose proof W as [Wi (r & Wr & Wv & Wh & Wd) Wl]. unfold DeleteVersion.
  destruct (delete_version_tx _ _ _ _ _ _) as [[x d]|] eqn:E; [|done].
  apply delete_version_spec in E as (Hx & Hxid & Hi' & Hlk & Hden & Hch & _); [|done..].
  cbn [snd]. split; cbn [vdb with_vdb]; [done| |by rewrite Hlk].
  assert (¬ (b = bkt ∧ k = key ∧ v = vid)) as Hne.
  { intros (-> & -> & ->). pose proof (worm_denies _ _ _ _ _ _ t bypass W Ht) as Hdn.
    assert (x = r) as ->.
    { unfold has_version in Hx, Wr. rewrite Hxid in Hx. rewrite Wv in Wr. congruence. }
    rewrite (Hden Wd) in Hdn. discriminate Hdn. }
  assert (has_version (delete (versionKey b k v) (vers s)) bkt key r) as Hr1.
  { unfold has_version. rewrite lookup_delete_ne; [done|]. rewrite Wv.
    intros (? & ? & ?)%versionKey_inj; naive_solver. }
  destruct Hch as [->|(_ & q & Hq & _ & ->)]; [by exists r|].
  destruct (decide (b = bkt ∧ k = key ∧ VersionID q = VersionID r)) as [(-> & -> & Eq)|Nq].
  - assert (q = r) as -> by (unfold has_version in Hq, Hr1; rewrite Eq in Hq; congruence).
    exists (set_latest true r). split_and!; try done. unfold has_version. by rewrite lookup_insert_eq.
  - exists r. split_and!; try done. unfold has_version. rewrite lookup_insert_ne; [done|].
    intros (? & ? & ?)%versionKey_inj; naive_solver.
Qed.

Lemma worm_record D bkt key vid h s b k rec :
  nul_free bkt → nul_free key → nul_free b → nul_free k → VKey rec = [] → VersionID rec ≠ vid →
  worm D bkt key vid h s → worm D bkt key vid h (record_version s b k rec).2.
Proof.
  intros Hb Hk Hb' Hk' Hr Hne [Wi (r & Wr & Wv & Wh & Wd) Wl].
  split; [by apply record_version_inv| |].
  - unfold record_version, update, put_version_tx.
    destruct (putVersion _ _ _ _) as [b'|] eqn:Ep; [|by exists r].
    cbn [snd notifyVersionRecorded with_vdb vdb set_versions bucketObjectVersions].
    setoid_rewrite (putVersion_has _ _ _ _ _ bkt key _ (vi_wf _ Wi) Hb' Hk' Hr Ep Hb Hk).
    case_decide as E; [destruct E as [-> ->]|by exists r].
    exists (set_latest false r). split_and!; try done. right. split; [cbn; congruence|]. by exists r.
  - unfold record_version, update, put_version_tx. by destruct (putVersion _ _ _ _).
Qed.

Lemma worm_step D bkt key vid h s s' :
  nul_free bkt → nul_free key → gw_step D vid s s' → worm D bkt key vid h s → worm D bkt key vid h s'.
Proof.
  intros Hb Hk Hs W. destruct Hs.
  - apply worm_mutate; eauto.
  - apply worm_mutate; eauto.
  - apply worm_mutate; eauto. cbn. congruence.
  - by apply worm_delete.
  - unfold RecordVersion. destruct (newVersionID rnd); [|done]. apply worm_record; try done. cbn. congruence.
  - unfold RecordDeleteMarker. destruct (newVersionID rnd); [|done]. apply worm_record; try done. cbn. congruence.
  - by destruct W.
Qed.

(** C12: the record of a version under COMPLIANCE retention until [D] survives every
    sequence of operations the S3 gateway issues before [D], lock changes, governance
    bypass and batch deletes included: the version is still listed with its content
    hash, and each attempt to delete it by its id is denied without any effect.  This
    is about the record and its lock, for a retention that is only ever changed with
    a mode, as the gateway does ([compliance_droppable] shows the other case), and
    for a node that is not sent version records by a peer.  The content is not
    covered: a batch delete removes the key's name without looking at the lock, and
    with it the last reference to the bytes ([batch_delete_drops_locked_bytes]). *)
Theorem worm_compliance D s s' bkt key vid r st :
  ver_inv (vers s) → nul_free bkt → nul_free key → bkt ≠ [] → key ≠ [] → vid ≠ [] →
  GetVersion s bkt key vid = Ok r → IsDeleteMarker r = false →
  VersionLock s bkt key vid = Ok (Some st) → Mode st = LockModeCompliance → D <= RetainUntil st →
  rtc (gw_step D vid) s s' →
  (∃ r', GetVersion s' bkt key vid = Ok r' ∧ VHash r' = VHash r)
  ∧ ∀ t bypass, t < D → DeleteVersion s' bkt key vid t bypass = (Err (Errno EACCES), s').
Proof.
  intros Hi Hb Hk Hb0 Hk0 Hv0 Hg Hdm Hl Hm Hd Hr.
  assert (worm D bkt key vid (VHash r) s) as W.
  { apply GetVersion_has in Hg as (r0 & Hr0 & <- & ->); [|done..]. split; [done|by exists r0|].
    unfold VersionLock in Hl. rewrite decide_False in Hl by naive_solver.
    exists st. repeat case_match; by simplify_eq. }
  assert (worm D bkt key vid (VHash r) s') as W'.
  { clear -Hr W Hb Hk. induction Hr as [|x y z Hxy _ IH]; [done|]. apply IH.
    by apply (worm_step D bkt key vid (VHash r) x y Hb Hk). }
  pose proof W' as [_ (r' & Wr & Wv & Wh & Wd) _]. split.
  - exists (set_key key r'). rewrite <- Wv. split; [by apply has_GetVersion|done].
  - intros t bypass Ht. unfold DeleteVersion, delete_version_tx.
    unfold has_version in Wr. rewrite Wv in Wr. rewrite Wr, Wd. cbn [negb].
    by rewrite (worm_denies _ _ _ _ _ _ t bypass W' Ht).
Qed.

(** The retention update misses one case: an active COMPLIANCE retention may
    be replaced by "no mode" with a non-zero deadline, without any bypass; the
    version is then unprotected and its deletion is no longer denied. *)
Theorem compliance_droppable s bkt key vid u now t r st :
  nul_free bkt → nul_free key → bkt ≠ [] → key ≠ [] → vid ≠ [] → u ≠ 0 →
  ver_inv (vers s) → GetVersion s bkt key vid = Ok r →
  VersionLock s bkt key vid = Ok (Some st) → Mode st = LockModeCompliance → now < RetainUntil st →
  LegalHoldOn st = false → IsDeleteMarker r = false →
  ∃ s', PutVersionRetention s bkt key vid [] u false now = (Ok tt, s')
  ∧ (DeleteVersion s bkt key vid now false).1 = Err (Errno EACCES)
  ∧ lockDeniesTx (bucketLockStatus (vdb s')) bkt key vid t false = Ok false.
Proof.
  intros Hb Hk Hb0 Hk0 Hv0 Hu Hi Hg Hl Hm Hnow Hh Ed.
  unfold VersionLock in Hl. rewrite decide_False in Hl by naive_solver.
  destruct (bucketLockStatus (vdb s) !! _) as [[st0|]|] eqn:El; [|discriminate..]. injection Hl as ->.
  assert (key_ok (lockStatusKey bkt key vid)) as Hok.
  { apply GetVersion_has in Hg as (r0 & Hr0 & <- & ->); [|done..].
    by destruct (vi_wf _ Hi _ _ Hr0) as (? & ? & ? & _ & _ & _ & _ & _ & ?). }
  eexists. split_and!.
  - unfold PutVersionRetention, mutateVersionLock. rewrite decide_False by naive_solver.
    unfold update, mutate_lock_tx. rewrite El.
    unfold validateLockState. cbn [Mode RetainUntil LegalHoldOn]. rewrite decide_True by (by left).
    rewrite bool_decide_eq_true_2 by done. cbn [negb andb].
    unfold checkLockTighten. cbn [Mode RetainUntil]. rewrite (proj2 (Z.ltb_lt _ _)) by done.
    rewrite decide_True by done. rewrite (proj2 (Z.eqb_neq u 0)) by done.
    rewrite andb_false_r. cbn [bool_decide]. rewrite bput_ok by done. done.
  - unfold DeleteVersion, delete_version_tx.
    apply GetVersion_has in Hg as (r0 & Hr0 & <- & ->); [|done..]. cbn in Ed.
    unfold has_version in Hr0. rewrite Hr0, Ed. cbn [negb]. unfold lockDeniesTx. rewrite El.
    unfold lockedAt. rewrite Hh, Hm. by rewrite (proj2 (Z.ltb_lt _ _)) by done.
  - unfold lockDeniesTx. cbn [vdb with_vdb set_lock_status bucketLockStatus].
    rewrite lookup_insert_eq. unfold lockedAt. cbn [LegalHoldOn Mode]. by rewrite Hh, decide_True.
Qed.

(** Recording a version of a key fails when the next stored key is shorter than
    the key's prefix: the loop slices past the end of that key, the recovered
    panic is reported as EIO and nothing is stored. *)
Theorem RecordVersion_short_neighbour s bkt key hash size rnd now k0 v0 :
  (∀ k v, vers s !! k = Some v → bytes_ltb k (version_prefix bkt key) = false →
     (length k < length (version_prefix bkt key))%nat) →
  vers s !! k0 = Some v0 → bytes_ltb k0 (version_prefix bkt key) = false → rnd ≠ None →
  RecordVersion s bkt key hash size rnd now = (Err (Errno EIO), s).
Proof.
  intros Hsh H0 Hk0 Hrnd. unfold RecordVersion. destruct rnd as [rb|]; [|done].
  cbn [newVersionID]. unfold record_version, update, put_version_tx, putVersion. set (rec := mkVersion _ _ _ _ _ _ _).
  assert (prefix_loop (version_prefix bkt key) demote_step (seek (version_prefix bkt key) (vers s)) (vers s)
          = Err (Errno EIO)) as ->; [|done].
  assert ((k0, v0) ∈ seek (version_prefix bkt key) (vers s)) as Hin.
  { apply list_elem_of_filter. split; [done|]. by apply elem_of_cursor. }
  assert (∀ kv, kv ∈ seek (version_prefix bkt key) (vers s) →
          (length kv.1 < length (version_prefix bkt key))%nat) as Hall.
  { intros [k v] [Hlt Hc]%list_elem_of_filter. apply elem_of_cursor in Hc. by eapply Hsh. }
  destruct (seek _ _) as [|[k v] rest]; [by apply not_elem_of_nil in Hin|].
  specialize (Hall (k, v) ltac:(by left)). cbn [prefix_loop]. cbn [fst] in Hall.
  by rewrite (proj2 (Nat.ltb_lt _ _)).
Qed.
End Worm.

(** ** Witnesses *)
Definition vx0 : VStore (gmap bytes bytes) := mkVS (newCASStore ∅) (mkVDB ∅ ∅ ∅ ∅) (Some []).
Definition xb : bytes := bs "b".
Definition xk : bytes := bs "k".
Definition rnd1 : option bytes := Some (replicate 16 Byte.x01).
Definition rnd2 : option bytes := Some (replicate 16 Byte.x02).
Definition id1 : bytes := bs "01010101-0101-4101-8101-010101010101".
Definition id2 : bytes := bs "02020202-0202-4202-8202-020202020202".
Definition vx1 := (RecordVersion vx0 xb xk (bs "h1") 1 rnd1 10).2.
Definition vx2 := (RecordVersion vx1 xb xk (bs "h2") 2 rnd2 20).2.
Definition xlock : ObjectLockState := mkLock LockModeCompliance 100 false.
Definition vx3 := (PutVersionLock vx2 xb xk id1 xlock false 5).2.
Definition xrec1 : VersionRecord := mkVersion id1 (bs "h1") 1 10 false false xk.

Lemma xb_free : nul_free xb.
Proof. apply (bool_decide_unpack _). vm_compute. done. Qed.
Lemma xk_free : nul_free xk.
Proof. apply (bool_decide_unpack _). vm_compute. done. Qed.

Lemma vx0_inv : ver_inv (vers vx0).
Proof.
  split.
  - intros k v. cbn. by rewrite lookup_empty.
  - intros bkt key r r' _ _. unfold has_version. cbn. by rewrite lookup_empty.
Qed.

Lemma vx2_reach : rtc ver_step vx0 vx2.
Proof.
  eapply rtc_l; [apply (vs_record vx0 xb xk (bs "h1") 1 rnd1 10); auto using xb_free, xk_free|].
  apply rtc_once. apply (vs_record vx1 xb xk (bs "h2") 2 rnd2 20); auto using xb_free, xk_free.
Qed.

Lemma vx2_inv : ver_inv (vers vx2).
Proof. eapply ver_reach_inv; [apply vx0_inv|apply vx2_reach]. Qed.

Lemma vx3_inv : ver_inv (vers vx3).
Proof. eapply ver_step_inv; [apply (vs_lock vx2)|apply vx2_inv]. Qed.


Lemma RecordVersion_spec_witness :
  let rec := mkVersion id2 (bs "h2") 2 20 true false [] in
  GetVersion vx2 xb xk id2 = Ok (set_key xk rec)
  ∧ (∀ r, r ≠ set_key xk rec → GetVersion vx2 xb xk (VersionID r) = Ok r →
       IsLatest r = false ∧ ∃ r0, GetVersion vx1 xb xk (VersionID r) = Ok r0 ∧ r = set_latest false r0)
  ∧ (∀ r, VersionID r ≠ id2 → GetVersion vx1 xb xk (VersionID r) = Ok r →
       GetVersion vx2 xb xk (VersionID r) = Ok (set_latest false r))
  ∧ (∀ bkt' key' v, nul_free bkt' → nul_free key' → (bkt', key') ≠ (xb, xk) →
       GetVersion vx2 bkt' key' v = GetVersion vx1 bkt' key' v)
  ∧ verHook vx2 = (λ l, l ++ [(xb, xk, rec)]) <$> verHook vx1.
Proof.
  apply (RecordVersion_spec vx1 xb xk (bs "h2") 2 rnd2 20 id2 vx2); [|apply xb_free|apply xk_free|].
  - eapply ver_step_inv; [|apply vx0_inv].
    apply (vs_record vx0 xb xk (bs "h1") 1 rnd1 10); auto using xb_free, xk_free.
  - vm_compute. reflexivity.
Defined.

Lemma DeleteVersion_repoints_witness :
  let s' := (DeleteVersion vx2 xb xk id2 30 false).2 in
  GetVersion s' xb xk id2 = Err (Errno ENOENT)
  ∧ (∀ x, VersionID x ≠ id2 → GetVersion vx2 xb xk (VersionID x) = Ok x →
       ∃ l, GetVersion s' xb xk (VersionID x) = Ok (set_latest l x))
  ∧ (IsLatest (mkVersion id2 (bs "h2") 2 20 true false []) = true →
       ∀ x, VersionID x ≠ id2 → GetVersion vx2 xb xk (VersionID x) = Ok x →
       ∃ q, GetVersion s' xb xk (VersionID q) = Ok q ∧ IsLatest q = true ∧ newer x q = false).
Proof.
  apply (DeleteVersion_repoints vx2 xb xk id2 30 false); [apply vx2_inv|apply xb_free|apply xk_free|].
  vm_compute. reflexivity.
Defined.

Lemma vx2_named key r : nul_free key → has_version (vers vx2) xb key r → key ≠ [] ∧ VersionID r ≠ [].
Proof.
  unfold has_version. intros Hk Hv%elem_of_map_to_list. apply (list_elem_of_fmap_2 fst) in Hv.
  assert (versionKey xb key (VersionID r) ∈ [versionKey xb xk id1; versionKey xb xk id2]) as Hin.
  { revert Hv. cbn [fst]. generalize (versionKey xb key (VersionID r)).
    apply Forall_forall. vm_compute. repeat constructor; set_solver. }
  rewrite !elem_of_cons in Hin.
  destruct Hin as [E|[E|[]%not_elem_of_nil]]; apply versionKey_inj in E as (_ & -> & ->);
    auto using xb_free, xk_free.
Qed.

Lemma ListVersions_pages_witness :
  ∃ rs, ListVersions vx2 xb [] [] [] 0 = Ok (mkPage rs [] [] false)
  ∧ (∀ fuel, (length rs < fuel)%nat → all_pages fuel vx2 xb [] [] [] 1 = Ok rs)
  ∧ NoDup ((λ r, (VKey r, VersionID r)) <$> rs)
  ∧ ∀ r, r ∈ rs ↔ nul_free (VKey r) ∧ GetVersion vx2 xb (VKey r) (VersionID r) = Ok r
                  ∧ [] `prefix_of` VKey r.
Proof.
  apply (ListVersions_pages vx2 xb [] 1); [apply vx2_inv|apply xb_free|lia|apply vx2_named].
Defined.

Definition xbatch : list VersionRecord :=
  [mkVersion id1 (bs "h1") 1 10 true false []; mkVersion id2 (bs "h2") 2 20 true false []].

Lemma xbatch_ok : batch_ok xb xk xbatch.
Proof.
  split; [apply (bool_decide_unpack _); vm_compute; done..|].
  repeat constructor; done.
Qed.

Lemma replication_converges_witness :
  replicate_all vx0 xb xk xbatch = replicate_all vx0 xb xk (reverse xbatch)
  ∧ ∀ r, r ∈ xbatch → GetVersion (replicate_all vx0 xb xk xbatch) xb xk (VersionID r)
                      = Ok (set_key xk (set_latest (newest r xbatch) r)).
Proof.
  apply (replication_converges vx0 xb xk xbatch (reverse xbatch));
    [done|done|apply xb_free|apply xk_free|apply vx0_inv| | |apply xbatch_ok|by rewrite reverse_Permutation].
  - intros k v. cbn. by rewrite lookup_empty.
  - intros r. unfold has_version. cbn. by rewrite lookup_empty.
Defined.

Lemma worm_compliance_witness :
  let s' := (DeleteVersion (PutVersionRetention vx3 xb xk id1 [] 0 true 50).2 xb xk id1 60 true).2 in
  (∃ r', GetVersion s' xb xk id1 = Ok r' ∧ VHash r' = VHash xrec1)
  ∧ ∀ t bypass, t < 100 → DeleteVersion s' xb xk id1 t bypass = (Err (Errno EACCES), s').
Proof.
  apply (worm_compliance 100 vx3 _ xb xk id1 xrec1 xlock);
    [apply vx3_inv|apply xb_free|apply xk_free|done|done|done|vm_compute; reflexivity|done|
     vm_compute; reflexivity|done|done|].
  eapply rtc_l; [apply (gw_retention 100 id1 vx3 xb xk id1 [] 0 true 50); auto using xb_free, xk_free; lia|].
  apply rtc_once, gw_delete; auto using xb_free, xk_free. lia.
Defined.

Lemma compliance_droppable_witness :
  ∃ s', PutVersionRetention vx3 xb xk id1 [] 1 false 50 = (Ok tt, s')
  ∧ (DeleteVersion vx3 xb xk id1 50 false).1 = Err (Errno EACCES)
  ∧ lockDeniesTx (bucketLockStatus (vdb s')) xb xk id1 51 false = Ok false.
Proof.
  apply (compliance_droppable vx3 xb xk id1 1 50 51 xrec1 xlock);
    [apply xb_free|apply xk_free|done|done|done|done|apply vx3_inv|vm_compute; reflexivity|
     vm_compute; reflexivity|done|done|done|done].
Defined.

(** A bucket whose name sorts first and whose object key is long. *)
Definition xlong : bytes := replicate 60 Byte.x6b.

Lemma RecordVersion_short_neighbour_witness :
  RecordVersion vx1 (bs "a") xlong (bs "h") 1 rnd2 30 = (Err (Errno EIO), vx1).
Proof.
  apply (RecordVersion_short_neighbour vx1 (bs "a") xlong (bs "h") 1 rnd2 30
           (versionKey xb xk id1) (Doc (mkVersion id1 (bs "h1") 1 10 true false [])));
    [|vm_compute; reflexivity|vm_compute; reflexivity|done].
  intros k v Hv%elem_of_map_to_list _. revert Hv.
  assert (Forall (λ kv : bytes * stored VersionRecord,
    (length kv.1 < length (version_prefix (bs "a") xlong))%nat) (map_to_list (vers vx1))) as Hf.
  { vm_compute. repeat constructor. }
  rewrite Forall_forall in Hf. intros Hv. apply (Hf _ Hv).
Defined.

(** The content of a version under COMPLIANCE retention goes with the name that a batch
    delete removes; the record and the lock stay. *)
Example batch_delete_drops_locked_bytes :
  let body := bs "hi" in let h := HashBytes body in
  let c1 := (Put (newCASStore (∅ : gmap bytes bytes)) xk h 2 xk (Some (reader_of body)) 5).2 in
  let s1 := (RecordVersion (mkVS c1 (vdb vx0) None) xb xk h 2 rnd1 10).2 in
  let s2 := (PutVersionLock s1 xb xk id1 xlock false 11).2 in
  let s3 := mkVS (Delete (cas s2) xk 20).2 (vdb s2) None in
  is_ok (GetBlob (blobs (cas s2)) h) = true ∧ is_ok (GetBlob (blobs (cas s3)) h) = false
  ∧ (DeleteVersion s3 xb xk id1 20 true).1 = Err (Errno EACCES) ∧ is_ok (GetVersion s3 xb xk id1) = true.
Proof. vm_compute. split_and!; reflexivity. Qed.
