(* ===== verification/Volume.v ===== *)
(** * The volume backend (src/src/storage/volume_needle.go, volume_blobstore.go)

    Blobs are appended as needles (header, payload, padding, CRC-32C) to volume
    files of bounded size; needle locations live in their own bbolt file.  A
    volume file has its bytes in the directory and, once open, a file position:
    needles are written at the position and read at recorded offsets.  The
    directory is keyed by volume id ([volume_name_roundtrip] below). *)
From S2P Require Import Prelude GoText Hashes Paths RawStore.
Open Scope Z_scope.

(** ** Needles *)
Definition NeedleMagic : Z := 1297042767.       (* 0x4D4F4D4F *)
Definition NeedleHeaderSize : Z := 4 + 4 + 32 + 2.
Definition NeedleCRCBytes : Z := 4.
Definition NeedleOverhead : Z := NeedleHeaderSize + NeedleCRCBytes.
Definition NeedleFlagNone : Z := 0.

Record Needle := mkNeedle {
  nd_magic : Z;
  nd_len : Z;
  nd_hash : bytes;
  nd_flags : Z;
  nd_payload : bytes;
  nd_crc : Z
}.

(** [(n + 7) &^ 7] *)
Definition alignTo8 (n : Z) : Z := Z.ldiff (n + 8 - 1) (8 - 1).

Definition needleCRC (hash payload : bytes) : Z :=
  crc32c (put_be 4 NeedleMagic ++ put_be 4 (uint32 (Z.of_nat (length payload))) ++ hash
          ++ put_be 2 NeedleFlagNone ++ payload).

(** The bytes [writeNeedle] writes, in order. *)
Definition needle_bytes (hash payload : bytes) (flags : Z) : bytes :=
  let payloadLen := Z.of_nat (length payload) in
  let padding := alignTo8 payloadLen - payloadLen in
  put_be 4 NeedleMagic ++ put_be 4 (uint32 payloadLen) ++ hash ++ put_be 2 flags ++ payload
  ++ replicate (Z.to_nat padding) ch_nul ++ put_be 4 (needleCRC hash payload).

(** An environment fault during an append. *)
Inductive io_fault := NoFault | WriteFails (n : nat) | SyncFails.

(** Writing at the file position: contents and position after the write. *)
Definition file_write (content : bytes) (pos : Z) (data : bytes) : bytes * Z :=
  (patch (Z.to_nat pos) data content, pos + Z.of_nat (length data)).

(** [appendNeedle]: [writeNeedle] at the current position, then [Sync]. *)
Definition appendNeedle (content : bytes) (pos : Z) (hash payload : bytes) (fault : io_fault)
    : result unit * (bytes * Z) :=
  let frame := needle_bytes hash payload NeedleFlagNone in
  match fault with
  | NoFault => (Ok tt, file_write content pos frame)
  | WriteFails n => (Err (Errno EIO), file_write content pos (take n frame))
  | SyncFails => (Err (Errno EIO), file_write content pos frame)
  end.

(** [os.File.ReadAt] into a buffer of [n] bytes; a short read is an error. *)
Definition ReadAt (content : bytes) (off n : Z) : option bytes :=
  if (0 <=? off) && (off + n <=? Z.of_nat (length content))
  then Some (take (Z.to_nat n) (drop (Z.to_nat off) content))
  else None.

Definition readNeedle (content : bytes) (offset : Z) : result Needle :=
  match ReadAt content offset NeedleHeaderSize with
  | None => Err ErrPlain
  | Some buf =>
      let magic := get_be (slice 0 4 buf) in
      let len := get_be (slice 4 8 buf) in
      let flags := get_be (slice 40 42 buf) in
      let hash := slice 8 40 buf in
      if negb (magic =? NeedleMagic) then Err ErrInvalidNeedleMagic
      else match ReadAt content (offset + NeedleHeaderSize) len with
      | None => Err ErrPlain
      | Some payload =>
          match ReadAt content (offset + NeedleHeaderSize + alignTo8 len) NeedleCRCBytes with
          | None => Err ErrPlain
          | Some crcBuf =>
              let crcVal := get_be crcBuf in
              if negb (crcVal =? needleCRC hash payload) then Err ErrCRC32Mismatch
              else Ok (mkNeedle magic len hash flags payload crcVal)
          end
      end
  end.

(** ** File names *)
Definition VolumeFilePrefix : bytes := bs "vol-".
Definition VolumeFileExt : bytes := bs ".dat".

Definition has_suffix (s t : bytes) : bool :=
  (length t <=? length s)%nat && bool_decide (drop (length s - length t) s = t).

(** [strconv.ParseUint(s, 10, 32)] *)
Definition parse_uint32 (s : bytes) : option Z :=
  match s with
  | [] => None
  | _ => if forallb is_digit s then
           let v := dec_value 0 s in if v <? 2 ^ 32 then Some v else None
         else None
  end.

Definition trim_suffix (s t : bytes) : bytes := if has_suffix s t then take (length s - length t) s else s.

Definition volumeIDFromName (name : bytes) : Z :=
  if negb (has_prefix name VolumeFilePrefix) || negb (has_suffix name VolumeFileExt) then 0
  else match parse_uint32 (trim_suffix (trim_prefix name VolumeFilePrefix) VolumeFileExt) with
       | None => 0
       | Some id => id
       end.

(** The file name of [volumePath]: "%04d" pads with zeros. *)
Definition volume_name (id : Z) : bytes :=
  let ds := append_int id in
  VolumeFilePrefix ++ replicate (4 - length ds) Byte.x30 ++ ds ++ VolumeFileExt.

(** ** The store *)
Record VolumeFile := mkVF { volumeID : Z; vpos : Z; vsize : Z; vsealed : bool }.

Record VolumeMetadata := mkVM {
  VolumeID : Z; VMSize : Z; Sealed : bool; CreatedAt : Z; SealedAt : Z; NeedleCount : Z; CommittedAt : Z
}.

Record NeedleMetadata := mkNM { NMHash : bytes; NMVolumeID : Z; Offset : Z; NMSize : Z }.

Record VolumeBlobStore := mkVBS {
  dir : gmap Z bytes;                    (* volume files by id *)
  volumes : gmap Z VolumeMetadata;       (* needles.db *)
  needles : bucket NeedleMetadata;
  volumeSize : Z;
  activeVolume : option VolumeFile;
  sealedVolumes : gmap Z VolumeFile;
  volumeIDCounter : Z
}.

Definition DefaultVolumeSizeBytes : Z := Z.shiftl 1 30.
Definition MaxVolumeSizeBytes : Z := Z.shiftl 32 30.

Definition createNewVolumeLocked (s : VolumeBlobStore) (now : Z) : VolumeBlobStore :=
  let newID := uint32 (volumeIDCounter s + 1) in
  mkVBS (<[newID := match dir s !! newID with Some c => c | None => [] end]> (dir s))
        (<[newID := mkVM newID 0 false now 0 0 0]> (volumes s))
        (needles s) (volumeSize s) (Some (mkVF newID 0 0 false)) (sealedVolumes s) newID.

Definition sealCurrentVolume (s : VolumeBlobStore) (now : Z) : VolumeBlobStore :=
  match activeVolume s with
  | None => s
  | Some vf =>
      if vsealed vf then s
      else
        let vf := mkVF (volumeID vf) (vpos vf) (vsize vf) true in
        let vols := match volumes s !! volumeID vf with
                    | Some m => <[volumeID vf := mkVM (VolumeID m) (VMSize m) true (CreatedAt m) now
                                                   (NeedleCount m) (CommittedAt m)]> (volumes s)
                    | None => volumes s
                    end in
        createNewVolumeLocked
          (mkVBS (dir s) vols (needles s) (volumeSize s) None
                 (<[volumeID vf := vf]> (sealedVolumes s)) (volumeIDCounter s)) now
  end.

(** [openExistingVolume]: the handle of a volume file that exists. *)
Definition openExistingVolume (s : VolumeBlobStore) (id : Z) : option VolumeFile :=
  match dir s !! id with
  | None => None
  | Some c =>
      let size := Z.of_nat (length c) in
      let sealed := match volumes s !! id with
                    | Some m => Sealed m
                    | None => volumeSize s <=? size
                    end in
      Some (mkVF id 0 size sealed)
  end.

Definition restore_step (s : VolumeBlobStore) (id : Z) : VolumeBlobStore :=
  match openExistingVolume s id with
  | None => s
  | Some vf =>
      if vsealed vf
      then mkVBS (dir s) (volumes s) (needles s) (volumeSize s) (activeVolume s)
                 (<[volumeID vf := vf]> (sealedVolumes s)) (volumeIDCounter s)
      else mkVBS (dir s) (volumes s) (needles s) (volumeSize s) (Some vf) (sealedVolumes s)
                 (volumeIDCounter s)
  end.

Definition restoreVolumes (s : VolumeBlobStore) (now : Z) : VolumeBlobStore :=
  let maxID := foldr Z.max 0 (map fst (map_to_list (dir s))) in
  let s := mkVBS (dir s) (volumes s) (needles s) (volumeSize s) (activeVolume s) (sealedVolumes s) maxID in
  let s := foldl restore_step s (seqZ 1 maxID) in
  match activeVolume s with
  | None => createNewVolumeLocked s now
  | Some _ => s
  end.

(** [NewVolumeBlobStore] over what is on disk. *)
Definition NewVolumeBlobStore (files : gmap Z bytes) (vols : gmap Z VolumeMetadata)
    (nds : bucket NeedleMetadata) (size now : Z) : result VolumeBlobStore :=
  let size := if size <=? 0 then DefaultVolumeSizeBytes else size in
  if MaxVolumeSizeBytes <? size then Err (Errno EINVAL)
  else Ok (restoreVolumes (mkVBS files vols nds size None ∅ 0) now).

Definition decodeContentHash (hash : bytes) : result bytes :=
  if HasPathTraversalChars hash then Err (Errno EINVAL)
  else match hex_decode hash with
  | None => Err ErrPlain
  | Some raw => if decide (length raw = 32%nat) then Ok raw else Err ErrPlain
  end.

Definition readVerifiedPayload (hashBytes : bytes) (content : reader) : result bytes :=
  let! payload := read_all content in
  if decide (hashBytes = sha256 payload) then Ok payload else Err ErrPlain.

(** [reserveNeedleSlot]: afterwards the active volume is the one to write to. *)
Definition reserveNeedleSlot (s : VolumeBlobStore) (needleSize now : Z) : result Z * VolumeBlobStore :=
  match activeVolume s with
  | None => (Err ErrPlain, s)
  | Some vf =>
      if vsize vf + needleSize <=? volumeSize s then (Ok (vsize vf), s)
      else
        let s := sealCurrentVolume s now in
        match activeVolume s with
        | None => (Err ErrPlain, s)
        | Some vf =>
            if volumeSize s <? vsize vf + needleSize then (Err (Errno ENOSPC), s)
            else (Ok (vsize vf), s)
        end
  end.

(** [saveNeedleMetadata] inside [PutBlob]: a failure is only logged. *)
Definition saveNeedleMetadata (nds : bucket NeedleMetadata) (hash hashBytes : bytes)
    (vid offset : Z) (size : Z) : bucket NeedleMetadata :=
  if (Z.of_nat (length hash) =? 0) || (32768 <? Z.of_nat (length hash)) then nds
  else <[hash := mkNM hashBytes vid offset (alignTo8 size)]> nds.

(** Writing the needle into the active volume. *)
Definition put_needle (s : VolumeBlobStore) (hash hashBytes payload : bytes) (offset needleSize : Z)
    (fault : io_fault) : result unit * VolumeBlobStore :=
  match activeVolume s with
  | None => (Err ErrPlain, s)
  | Some vf =>
      let content := match dir s !! volumeID vf with Some c => c | None => [] end in
      let '(r, (content, pos)) := appendNeedle content (vpos vf) hashBytes payload fault in
      let d := <[volumeID vf := content]> (dir s) in
      match r with
      | Err e => (Err e, mkVBS d (volumes s) (needles s) (volumeSize s)
                           (Some (mkVF (volumeID vf) pos (vsize vf) (vsealed vf)))
                           (sealedVolumes s) (volumeIDCounter s))
      | Ok _ => (Ok tt, mkVBS d (volumes s)
                          (saveNeedleMetadata (needles s) hash hashBytes (volumeID vf) offset
                             (Z.of_nat (length payload)))
                          (volumeSize s)
                          (Some (mkVF (volumeID vf) pos (vsize vf + needleSize) (vsealed vf)))
                          (sealedVolumes s) (volumeIDCounter s))
      end
  end.

Definition vol_put (s : VolumeBlobStore) (hash : bytes) (content : reader) (fault : io_fault) (now : Z)
    : result unit * VolumeBlobStore :=
  match decodeContentHash hash with
  | Err e => (Err e, s)
  | Ok hashBytes =>
      match readVerifiedPayload hashBytes content with
      | Err e => (Err e, s)
      | Ok payload =>
          let needleSize := NeedleOverhead + alignTo8 (Z.of_nat (length payload)) in
          let '(r, s) := reserveNeedleSlot s needleSize now in
          match r with
          | Err e => (Err e, s)
          | Ok offset => put_needle s hash hashBytes payload offset needleSize fault
          end
      end
  end.

Definition getNeedleMetadata (s : VolumeBlobStore) (hash : bytes) : result NeedleMetadata :=
  match needles s !! hash with None => Err (Errno ENOENT) | Some m => Ok m end.

Definition vol_exists (s : VolumeBlobStore) (hash : bytes) : result bool :=
  let! _ := decodeContentHash hash in
  match getNeedleMetadata s hash with
  | Ok _ => Ok true
  | Err e => if decide (e = Errno ENOENT) then Ok false else Err e
  end.

(** The volume a needle lives in; a nil active volume is a recovered panic. *)
Definition volume_of (s : VolumeBlobStore) (vid : Z) : result VolumeFile :=
  match activeVolume s with
  | None => Err (Errno EIO)
  | Some a =>
      if vid =? volumeID a then Ok a
      else match sealedVolumes s !! vid with Some vf => Ok vf | None => Err ErrPlain end
  end.

Definition vol_get (s : VolumeBlobStore) (hash : bytes) : result bytes :=
  let! _ := decodeContentHash hash in
  let! meta := getNeedleMetadata s hash in
  let! vf := volume_of s (NMVolumeID meta) in
  match dir s !! volumeID vf with
  | None => Err ErrPlain
  | Some content =>
      let! needle := readNeedle content (Offset meta) in
      if decide (NMHash meta = nd_hash needle) then Ok (nd_payload needle) else Err ErrPlain
  end.

(** [FALLOC_FL_PUNCH_HOLE | FALLOC_FL_KEEP_SIZE]: the range reads as zeros. *)
Definition punch_hole (content : bytes) (off n : Z) : bytes :=
  let len := Z.of_nat (length content) in
  let lo := Z.to_nat (Z.min off len) in
  let hi := Z.to_nat (Z.min (off + n) len) in
  take lo content ++ replicate (hi - lo) ch_nul ++ drop hi content.

(** [punch] tells whether the file system can punch holes; otherwise
    [writeTombstone], which does nothing, reports success. *)
Definition vol_delete (s : VolumeBlobStore) (hash : bytes) (punch : bool)
    : result unit * VolumeBlobStore :=
  match decodeContentHash hash with
  | Err e => (Err e, s)
  | Ok _ =>
      match getNeedleMetadata s hash with
      | Err e => (Err e, s)
      | Ok meta =>
          match volume_of s (NMVolumeID meta) with
          | Err e => (Err e, s)
          | Ok vf =>
              if vsealed vf then (Err (Errno EPERM), s)
              else if negb punch then (Ok tt, s)
              else
                let content := match dir s !! volumeID vf with Some c => c | None => [] end in
                (Ok tt, mkVBS (<[volumeID vf := punch_hole content (Offset meta)
                                                 (NeedleOverhead + alignTo8 (NMSize meta))]> (dir s))
                          (volumes s) (delete hash (needles s)) (volumeSize s) (activeVolume s)
                          (sealedVolumes s) (volumeIDCounter s))
          end
      end
  end.
