(* ===== verification/VolumeTheorems.v ===== *)
(** * What the volume backend guarantees

    Needle framing, the store invariant, and the properties of puts, gets,
    deletes and restarts. *)
From S2P Require Import Prelude GoText Hashes Paths RawStore Volume.
Open Scope Z_scope.

(** ** Arithmetic *)
Lemma alignTo8_eq n : alignTo8 n = 8 * ((n + 7) / 8).
Proof.
  unfold alignTo8. change (8 - 1) with (Z.ones 3). rewrite Z.ldiff_ones_r by lia.
  rewrite Z.shiftl_mul_pow2, Z.shiftr_div_pow2 by lia. change (2 ^ 3) with 8.
  replace (n + 8 - 1) with (n + 7) by lia. lia.
Qed.

Lemma alignTo8_bounds n : n <= alignTo8 n < n + 8.
Proof. rewrite alignTo8_eq. pose proof (Z.div_mod (n + 7) 8). pose proof (Z.mod_pos_bound (n + 7) 8). lia. Qed.

Lemma alignTo8_idem n : alignTo8 (alignTo8 n) = alignTo8 n.
Proof.
  rewrite (alignTo8_eq n). rewrite alignTo8_eq. f_equal.
  replace (8 * ((n + 7) / 8) + 7) with (7 + ((n + 7) / 8) * 8) by lia.
  rewrite Z.div_add by lia. change (7 / 8) with 0. lia.
Qed.

Lemma crc_step_bound c : 0 <= c < 2 ^ 32 → 0 <= crc_step c < 2 ^ 32.
Proof.
  intros Hc. unfold crc_step.
  assert (0 <= Z.shiftr c 1 < 2 ^ 32) as Hs.
  { rewrite Z.shiftr_div_pow2 by lia. change (2 ^ 1) with 2. split; [apply Z.div_pos; lia|].
    apply Z.div_lt_upper_bound; lia. }
  destruct (Z.odd c); [|done]. by apply lxor_bound.
Qed.

Lemma crc_byte_bound c b : 0 <= c < 2 ^ 32 → 0 <= crc_byte c b < 2 ^ 32.
Proof.
  intros Hc. unfold crc_byte. pose proof (b2z_range b).
  assert (0 <= Z.lxor c (b2z b) < 2 ^ 32) as H0 by (apply lxor_bound; lia).
  revert H0. generalize (Z.lxor c (b2z b)). intros x Hx.
  cbn [Nat.iter nat_rect]. do 8 apply crc_step_bound. done.
Qed.

Lemma crc32c_bound b : 0 <= crc32c b < 2 ^ 32.
Proof.
  unfold crc32c. apply lxor_bound; [lia| |lia].
  assert (∀ acc, 0 <= acc < 2 ^ 32 → 0 <= foldl crc_byte acc b < 2 ^ 32) as Hf; [|apply Hf; lia].
  induction b as [|x b IH]; intros acc Hacc; [done|]. cbn [foldl]. apply IH, crc_byte_bound, Hacc.
Qed.

(** ** Frames *)
Lemma length_needle_bytes hash p f :
  length hash = 32%nat →
  Z.of_nat (length (needle_bytes hash p f)) = NeedleOverhead + alignTo8 (Z.of_nat (length p)).
Proof.
  intros Hh. unfold needle_bytes. rewrite !length_app, !length_put_be, length_replicate, Hh.
  pose proof (alignTo8_bounds (Z.of_nat (length p))). unfold NeedleOverhead, NeedleHeaderSize, NeedleCRCBytes. lia.
Qed.

Lemma ReadAt_app (a x b : bytes) off n :
  off = Z.of_nat (length a) → n = Z.of_nat (length x) → ReadAt (a ++ x ++ b) off n = Some x.
Proof.
  intros -> ->. unfold ReadAt. rewrite !length_app.
  rewrite (proj2 (Z.leb_le 0 _)), (proj2 (Z.leb_le _ _)) by lia. cbn [andb].
  rewrite !Nat2Z.id. f_equal. rewrite drop_app_eq by done. by rewrite take_app_eq.
Qed.

(** The file holds the needle of [p] at offset [off]. *)
Definition needle_in (c : bytes) (off : Z) (hb p : bytes) : Prop :=
  ∃ a b, c = a ++ needle_bytes hb p NeedleFlagNone ++ b ∧ off = Z.of_nat (length a).

Lemma readNeedle_in c off hb p :
  length hb = 32%nat → Z.of_nat (length p) < 2 ^ 32 → needle_in c off hb p →
  readNeedle c off = Ok (mkNeedle NeedleMagic (Z.of_nat (length p)) hb 0 p (needleCRC hb p)).
Proof.
  intros Hh Hp (a & b & -> & ->). unfold readNeedle, needle_bytes.
  set (len := Z.of_nat (length p)) in *. set (pad := replicate _ _). set (crc := needleCRC hb p).
  assert (uint32 len = len) as Hlen by (apply uint32_id; unfold is_uint32; lia).
  assert (Z.of_nat (length pad) = alignTo8 len - len) as Hpad.
  { unfold pad. rewrite length_replicate. pose proof (alignTo8_bounds len). lia. }
  set (hdr := put_be 4 NeedleMagic ++ put_be 4 (uint32 len) ++ hb ++ put_be 2 NeedleFlagNone).
  replace (a ++ _ ++ b) with (a ++ hdr ++ p ++ pad ++ put_be 4 crc ++ b)
    by (unfold hdr; by rewrite <- !app_assoc).
  assert (Z.of_nat (length hdr) = NeedleHeaderSize) as Hhdr
    by (unfold hdr; rewrite !length_app, !length_put_be, Hh; done).
  rewrite (ReadAt_app a hdr) by done.
  assert (slice 0 4 hdr = put_be 4 NeedleMagic) as -> by done.
  assert (slice 4 8 hdr = put_be 4 (uint32 len)) as ->.
  { unfold slice, hdr. rewrite drop_app_eq by done. by rewrite take_app_eq. }
  assert (slice 8 40 hdr = hb) as ->.
  { unfold slice, hdr. rewrite app_assoc, drop_app_eq by done. by rewrite take_app_eq. }
  assert (slice 40 42 hdr = put_be 2 NeedleFlagNone) as ->.
  { unfold slice, hdr. rewrite !app_assoc, drop_app_eq; [done|]. rewrite !length_app, !length_put_be, Hh. done. }
  rewrite !get_be_put_be4, !Hlen.
  change (negb (uint32 NeedleMagic =? NeedleMagic)) with false. cbn iota.
  rewrite (app_assoc a hdr), (ReadAt_app (a ++ hdr) p) by (rewrite ?length_app; lia).
  replace ((a ++ hdr) ++ p ++ pad ++ put_be 4 crc ++ b)
    with (((a ++ hdr) ++ p ++ pad) ++ put_be 4 crc ++ b) by (by rewrite <- !app_assoc).
  rewrite (ReadAt_app _ (put_be 4 crc)).
  - rewrite get_be_put_be4, (uint32_id crc) by (apply crc32c_bound). fold crc.
    rewrite Z.eqb_refl. reflexivity.
  - rewrite !length_app. lia.
  - by rewrite length_put_be.
Qed.

Lemma needle_in_app c off hb p t : needle_in c off hb p → needle_in (c ++ t) off hb p.
Proof. intros (a & b & -> & ->). exists a, (b ++ t). split; [|done]. by rewrite <- !app_assoc. Qed.

Lemma needle_in_end c hb p :
  needle_in (c ++ needle_bytes hb p NeedleFlagNone) (Z.of_nat (length c)) hb p.
Proof. exists c, []. by rewrite app_nil_r. Qed.

Lemma needle_in_bound c off hb p :
  length hb = 32%nat → needle_in c off hb p →
  0 <= off ∧ off + NeedleOverhead + alignTo8 (Z.of_nat (length p)) <= Z.of_nat (length c).
Proof.
  intros Hh (a & b & -> & ->). rewrite !length_app, !Nat2Z.inj_add, length_needle_bytes by done. lia.
Qed.

Lemma length_punch c off n : 0 <= off → 0 <= n → length (punch_hole c off n) = length c.
Proof. intros. unfold punch_hole. rewrite !length_app, length_take, length_replicate, length_drop. lia. Qed.

(** A hole leaves the needles outside it alone. *)
Lemma needle_in_punch c off hb p o n :
  length hb = 32%nat → 0 <= o → 0 <= n → needle_in c off hb p →
  o + n <= off ∨ off + NeedleOverhead + alignTo8 (Z.of_nat (length p)) <= o →
  needle_in (punch_hole c o n) off hb p.
Proof.
  intros Hh Ho Hn (a & b & -> & ->) Hd. set (f := needle_bytes hb p NeedleFlagNone) in *.
  assert (Z.of_nat (length f) = NeedleOverhead + alignTo8 (Z.of_nat (length p))) as Hf
    by (by apply length_needle_bytes).
  unfold punch_hole. rewrite !length_app, !Nat2Z.inj_add. destruct Hd as [Hd|Hd].
  - rewrite !Z.min_l by lia. replace (Z.to_nat (o + n) - Z.to_nat o)%nat with (Z.to_nat n) by lia.
    exists (take (Z.to_nat o) a ++ replicate (Z.to_nat n) ch_nul ++ drop (Z.to_nat (o + n)) a), b. split.
    + rewrite take_app_le, drop_app_le by lia. by rewrite <- !app_assoc.
    + rewrite !length_app, length_take, length_replicate, length_drop. lia.
  - set (lo := Z.to_nat (Z.min o _)). set (hi := Z.to_nat (Z.min (o + n) _)).
    exists a, (take (lo - length a - length f) b ++ replicate (hi - lo) ch_nul ++ drop (hi - length a - length f) b).
    split; [|done]. rewrite take_app_ge, drop_app_ge by lia. rewrite take_app_ge, drop_app_ge by lia.
    by rewrite <- !app_assoc.
Qed.

(** ** The invariant *)

(** The needle recorded for [h] carries payload [p]. *)
Record needle_live (s : VolumeBlobStore) (h : bytes) (m : NeedleMetadata) (p : bytes) : Prop := {
  nl_hash : decodeContentHash h = Ok (NMHash m);
  nl_sum : sha256 p = NMHash m;
  nl_size : NMSize m = alignTo8 (Z.of_nat (length p));
  nl_small : Z.of_nat (length p) < 2 ^ 32;
  nl_vol : ∃ vf, volume_of s (NMVolumeID m) = Ok vf ∧ volumeID vf = NMVolumeID m;
  nl_in : ∃ c, dir s !! NMVolumeID m = Some c ∧ needle_in c (Offset m) (NMHash m) p
}.

Definition needle_end (m : NeedleMetadata) : Z := Offset m + NeedleOverhead + alignTo8 (NMSize m).

(** Every volume file is active or sealed, as its metadata says; the active one
    is written at its end. *)
Record vol_files (s : VolumeBlobStore) : Prop := {
  vv_cnt : 0 <= volumeIDCounter s < 2 ^ 32;
  vv_size : 0 <= volumeSize s <= 2 ^ 32;
  vv_dir : ∀ id c, dir s !! id = Some c → 1 <= id <= volumeIDCounter s
           ∧ Z.of_nat (length c) <= volumeSize s
           ∧ ∃ m, volumes s !! id = Some m ∧ Sealed m = bool_decide (is_Some (sealedVolumes s !! id));
  vv_active : ∃ vf c, activeVolume s = Some vf ∧ vsealed vf = false ∧ dir s !! volumeID vf = Some c
              ∧ vpos vf = Z.of_nat (length c) ∧ vsize vf = Z.of_nat (length c)
              ∧ sealedVolumes s !! volumeID vf = None;
  vv_sealed : ∀ id vf, sealedVolumes s !! id = Some vf →
              volumeID vf = id ∧ vsealed vf = true ∧ is_Some (dir s !! id);
  vv_cover : ∀ id c vf, dir s !! id = Some c → activeVolume s = Some vf →
              id = volumeID vf ∨ is_Some (sealedVolumes s !! id)
}.

Record vol_inv (s : VolumeBlobStore) : Prop := {
  vv_files : vol_files s;
  vv_needle : ∀ h m, needles s !! h = Some m → ∃ p, needle_live s h m p;
  vv_disj : ∀ h h' m m', needles s !! h = Some m → needles s !! h' = Some m' → h ≠ h' →
            NMVolumeID m = NMVolumeID m' → needle_end m <= Offset m' ∨ needle_end m' <= Offset m
}.

Lemma decode_length h hb : decodeContentHash h = Ok hb → length hb = 32%nat.
Proof.
  unfold decodeContentHash. destruct (HasPathTraversalChars h); [discriminate|].
  destruct (hex_decode h); [|discriminate]. case_decide; [|discriminate]. by intros [= <-].
Qed.

Lemma live_get s h m p : needles s !! h = Some m → needle_live s h m p → vol_get s h = Ok p.
Proof.
  intros Hm [L1 L2 L3 L4 (vf & L5 & L5') (c & L6 & L7)]. unfold vol_get, getNeedleMetadata.
  rewrite L1, Hm, L5, L5', L6. rewrite (readNeedle_in c _ (NMHash m) p) by eauto using decode_length.
  cbn [nd_hash nd_payload]. by rewrite decide_True.
Qed.

Lemma live_bound s h m p c :
  needle_live s h m p → dir s !! NMVolumeID m = Some c →
  0 <= Offset m ∧ needle_end m <= Z.of_nat (length c).
Proof.
  intros [L1 _ L3 _ _ (c' & L6 & L7)] Hc. simplify_eq.
  apply needle_in_bound in L7; [|by eapply decode_length]. unfold needle_end. rewrite L3, alignTo8_idem. lia.
Qed.

(** Reads depend only on the needle's own metadata, volume and bytes. *)
Lemma absent_get s s' h : needles s !! h = None → needles s' !! h = None → vol_get s h = vol_get s' h.
Proof. intros H1 H2. unfold vol_get, getNeedleMetadata. by rewrite H1, H2. Qed.

Lemma volume_of_dir s id c :
  vol_files s → dir s !! id = Some c → ∃ vf, volume_of s id = Ok vf ∧ volumeID vf = id.
Proof.
  intros Hi Hc. destruct (vv_active s Hi) as (vf & c' & Ha & _). unfold volume_of. rewrite Ha.
  destruct (id =? volumeID vf) eqn:E; zbool; [by exists vf|].
  destruct (vv_cover s Hi id c vf Hc Ha) as [?|[vf' Hs]]; [done|]. rewrite Hs. exists vf'. split; [done|].
  by apply (vv_sealed s Hi).
Qed.

(** ** Rolling over to a new volume *)
Lemma seal_spec s now :
  vol_inv s → volumeIDCounter s + 1 < 2 ^ 32 →
  let s' := sealCurrentVolume s now in
  vol_inv s' ∧ needles s' = needles s ∧ volumeSize s' = volumeSize s
  ∧ (∀ vf, activeVolume s' = Some vf → vsize vf = 0)
  ∧ ∀ h, vol_get s' h = vol_get s h.
Proof.
  intros [Hf Hn Hd] Hc s'. destruct (vv_active s Hf) as (vf & c & Ha & Hse & Hdir & Hpos & Hsz & Hnone).
  pose proof (vv_cnt s Hf) as Hcnt.
  assert (uint32 (volumeIDCounter s + 1) = volumeIDCounter s + 1) as Hid
    by (apply uint32_id; unfold is_uint32; lia).
  assert (dir s !! (volumeIDCounter s + 1) = None) as Hfresh.
  { destruct (dir s !! (volumeIDCounter s + 1)) as [c0|] eqn:E; [|done]. pose proof (vv_dir s Hf _ _ E) as [Hr0 _]. lia. }
  assert (sealedVolumes s !! (volumeIDCounter s + 1) = None) as Hsn.
  { destruct (sealedVolumes s !! (volumeIDCounter s + 1)) as [x|] eqn:E; [|done].
    destruct (vv_sealed s Hf _ _ E) as (_ & _ & [? ?]). congruence. }
  assert (volumeID vf ≠ volumeIDCounter s + 1) as Hne by (intros E; rewrite E in Hdir; congruence).
  destruct (vv_dir s Hf _ _ Hdir) as (Hr & Hlen & mv & Hmv & Hmvs).
  assert (s' = mkVBS (<[volumeIDCounter s + 1 := []]> (dir s))
    (<[volumeIDCounter s + 1 := mkVM (volumeIDCounter s + 1) 0 false now 0 0 0]>
       (<[volumeID vf := mkVM (VolumeID mv) (VMSize mv) true (CreatedAt mv) now (NeedleCount mv)
                           (CommittedAt mv)]> (volumes s)))
    (needles s) (volumeSize s) (Some (mkVF (volumeIDCounter s + 1) 0 0 false))
    (<[volumeID vf := mkVF (volumeID vf) (vpos vf) (vsize vf) true]> (sealedVolumes s))
    (volumeIDCounter s + 1)) as Es'.
  { unfold s', sealCurrentVolume, createNewVolumeLocked. rewrite Ha, Hse. cbn [volumeID]. rewrite Hmv.
    cbn [dir volumes needles volumeSize sealedVolumes volumeIDCounter]. by rewrite Hid, Hfresh. }
  assert (vol_files s') as Hf'.
  { rewrite Es'. split; cbn [dir volumes needles volumeSize sealedVolumes volumeIDCounter activeVolume].
    - lia.
    - apply Hf.
    - intros id c0. rewrite lookup_insert. case_decide as E.
      + intros [= <-]. subst id. split_and!; [lia|lia|apply (vv_size s Hf)|].
        rewrite lookup_insert_eq. eexists. split; [done|]. rewrite lookup_insert_ne by done.
        by rewrite Hsn.
      + intros Hc0. destruct (vv_dir s Hf _ _ Hc0) as (Hr0 & Hl0 & m & Hm & Hms). split; [lia|]. split; [done|].
        rewrite lookup_insert_ne by done. rewrite !lookup_insert. case_decide as E2; [|by exists m].
        eexists. split; [done|]. cbn [Sealed]. by rewrite bool_decide_eq_true_2.
    - eexists _, []. split_and!; try done; cbn [volumeID].
      + by rewrite lookup_insert_eq.
      + by rewrite lookup_insert_ne.
    - intros id vf'. rewrite lookup_insert. case_decide as E.
      + intros [= <-]. subst id. cbn. split_and!; try done. by rewrite lookup_insert_ne, Hdir.
      + intros Hvf. destruct (vv_sealed s Hf _ _ Hvf) as (? & ? & [c0 Hc0]). split_and!; try done.
        rewrite lookup_insert. case_decide; [by eexists|by exists c0].
    - intros id c0 vf'. rewrite lookup_insert. intros Hc0 [= <-]. cbn [volumeID].
      case_decide as E; [by left|]. right. rewrite lookup_insert. case_decide as E2; [by eexists|].
      destruct (vv_cover s Hf id c0 vf Hc0 Ha) as [?|?]; [by destruct E2|done]. }
  assert (∀ h m p, needle_live s h m p → needle_live s' h m p) as Hlive.
  { intros h m p [L1 L2 L3 L4 L5 (c0 & L6 & L7)].
    assert (dir s' !! NMVolumeID m = Some c0) as Hd'.
    { rewrite Es'. cbn [dir]. rewrite lookup_insert_ne; [done|]. congruence. }
    split; try done; [by eapply volume_of_dir|by exists c0]. }
  assert (needles s' = needles s) as Hns by (by rewrite Es').
  split_and!; [|done|by rewrite Es'| |].
  - split; [done| |].
    + intros h m. rewrite Hns. intros [p Hp]%Hn. exists p. auto.
    + rewrite Hns. apply Hd.
  - rewrite Es'. cbn. by intros ? [= <-].
  - intros h. destruct (needles s !! h) as [m|] eqn:Em.
    + destruct (Hn h m Em) as [p Hp]. rewrite (live_get s h m p), (live_get s' h m p); auto. by rewrite Hns.
    + apply absent_get; [by rewrite Hns|done].
Qed.

Lemma patch_end c data : patch (length c) data c = c ++ data.
Proof.
  unfold patch. rewrite Nat.sub_diag. cbn [replicate]. rewrite app_nil_r, firstn_all.
  rewrite drop_ge by lia. by rewrite app_nil_r.
Qed.

(** ** Appending a needle *)
Lemma put_needle_spec s h hb p off :
  vol_inv s → decodeContentHash h = Ok hb → sha256 p = hb →
  (∀ vf, activeVolume s = Some vf → off = vsize vf
     ∧ vsize vf + (NeedleOverhead + alignTo8 (Z.of_nat (length p))) <= volumeSize s) →
  (0 < Z.of_nat (length h) <= 32768) →
  ∃ s', put_needle s h hb p off (NeedleOverhead + alignTo8 (Z.of_nat (length p))) NoFault = (Ok tt, s')
  ∧ vol_inv s' ∧ vol_get s' h = Ok p ∧ (∀ h', h' ≠ h → vol_get s' h' = vol_get s h').
Proof.
  intros [Hf Hn Hd] Hh Hsum Hfit Hk.
  destruct (vv_active s Hf) as (vf & c & Ha & Hse & Hdir & Hpos & Hsz & Hnone).
  destruct (Hfit vf Ha) as [-> Hroom]. clear Hfit. pose proof (decode_length h hb Hh) as Hlen.
  set (frame := needle_bytes hb p NeedleFlagNone).
  assert (Z.of_nat (length frame) = NeedleOverhead + alignTo8 (Z.of_nat (length p))) as Hfl
    by (by apply length_needle_bytes).
  pose proof (alignTo8_bounds (Z.of_nat (length p))) as Hal.
  set (m' := mkNM hb (volumeID vf) (vsize vf) (alignTo8 (Z.of_nat (length p)))).
  set (vf' := mkVF (volumeID vf) (vpos vf + Z.of_nat (length frame))
                (vsize vf + (NeedleOverhead + alignTo8 (Z.of_nat (length p)))) false).
  set (s' := mkVBS (<[volumeID vf := c ++ frame]> (dir s)) (volumes s) (<[h := m']> (needles s))
               (volumeSize s) (Some vf') (sealedVolumes s) (volumeIDCounter s)).
  exists s'.
  assert (put_needle s h hb p (vsize vf) (NeedleOverhead + alignTo8 (Z.of_nat (length p))) NoFault
          = (Ok tt, s')) as Hput.
  { unfold put_needle, appendNeedle, file_write, saveNeedleMetadata. rewrite Ha, Hdir, Hpos, Nat2Z.id.
    rewrite patch_end. rewrite (proj2 (Z.eqb_neq _ _)), (proj2 (Z.ltb_ge _ _)) by lia. cbn [orb].
    unfold s', vf', m'. by rewrite Hpos, Hse. }
  assert (vol_files s') as Hf'.
  { destruct Hf as [F1 F2 F3 F4 F5 F6]. split; cbn [s' dir volumes volumeSize sealedVolumes volumeIDCounter activeVolume]; try done.
    - intros id c0. rewrite lookup_insert. case_decide as E; [|apply F3].
      intros [= <-]. subst id. destruct (F3 _ _ Hdir) as (? & ? & ?). split_and!; try done; try lia.
      rewrite length_app. lia.
    - exists vf', (c ++ frame). cbn [vf' volumeID vsealed vpos vsize]. rewrite lookup_insert_eq.
      split_and!; try done; rewrite length_app; lia.
    - intros id x Hx. destruct (F5 id x Hx) as (? & ? & [y Hy]). split_and!; try done.
      rewrite lookup_insert. case_decide; by eexists.
    - intros id c0 x. rewrite lookup_insert. intros Hc0 [= <-]. cbn [vf' volumeID].
      case_decide as E; [by left|]. by apply (F6 id c0 vf). }
  assert (needle_live s' h m' p) as Hnew.
  { split; cbn [m' NMHash NMVolumeID Offset NMSize]; try done.
    - pose proof (vv_size s Hf). unfold NeedleOverhead, NeedleHeaderSize, NeedleCRCBytes in *. lia.
    - eapply (volume_of_dir s' (volumeID vf)); [done|]. cbn [s' dir]. by rewrite lookup_insert_eq.
    - exists (c ++ frame). cbn [s' dir]. rewrite lookup_insert_eq, Hsz. split; [done|]. apply needle_in_end. }
  assert (∀ k m q, needle_live s k m q → needle_live s' k m q) as Hlive.
  { intros k m q [L1 L2 L3 L4 L5 (c0 & L6 & L7)].
    assert (∃ c1, dir s' !! NMVolumeID m = Some c1 ∧ needle_in c1 (Offset m) (NMHash m) q) as (c1 & Hc1 & Hi1).
    { cbn [s' dir]. rewrite lookup_insert. case_decide as E; [|by exists c0].
      exists (c ++ frame). split; [done|]. apply needle_in_app. congruence. }
    split; try done; [by eapply volume_of_dir|by exists c1]. }
  split_and!; [done| | |].
  - split; [done| |].
    + intros k m. cbn [s' needles]. rewrite lookup_insert. case_decide as E.
      * intros [= <-]. subst k. by exists p.
      * intros [q Hq]%Hn. exists q. auto.
    + assert (∀ k m, needles s !! k = Some m → NMVolumeID m = volumeID vf → needle_end m <= vsize vf) as Hend.
      { intros k m Hkm Hv. destruct (Hn k m Hkm) as [q Hq].
        destruct (live_bound s k m q c Hq) as [_ He]; [by rewrite Hv|]. lia. }
      intros k k' m m2. cbn [s' needles]. rewrite !lookup_insert. repeat case_decide; try congruence.
      * intros [= <-] Hm2 _ Hv. right. by apply (Hend k').
      * intros Hm [= <-] _ Hv. left. by apply (Hend k).
      * by apply Hd.
  - eapply live_get; [|done]. cbn [s' needles]. by rewrite lookup_insert_eq.
  - intros k Hk'. destruct (needles s !! k) as [m|] eqn:Em.
    + destruct (Hn k m Em) as [q Hq]. rewrite (live_get s k m q), (live_get s' k m q); auto.
      cbn [s' needles]. by rewrite lookup_insert_ne.
    + apply absent_get; [|done]. cbn [s' needles]. by rewrite lookup_insert_ne.
Qed.

Lemma hex_decode_length s r : hex_decode s = Some r → length s = (2 * length r)%nat.
Proof.
  revert r. induction s as [s IH] using (well_founded_induction (Wf_nat.well_founded_ltof _ (@length byte))).
  intros r. destruct s as [|x [|y s]]; cbn [hex_decode]; [by intros [= <-]|discriminate|].
  destruct (hex_val x), (hex_val y); try discriminate.
  destruct (hex_decode s) as [r'|] eqn:E; [|discriminate]. intros [= <-].
  apply IH in E; [|unfold Wf_nat.ltof; cbn; lia]. cbn [length]. lia.
Qed.

Lemma decode_key h hb : decodeContentHash h = Ok hb → 0 < Z.of_nat (length h) <= 32768.
Proof.
  unfold decodeContentHash. destruct (HasPathTraversalChars h); [discriminate|].
  destruct (hex_decode h) as [raw|] eqn:E; [|discriminate]. case_decide; [|discriminate]. intros _.
  apply hex_decode_length in E. lia.
Qed.

(** A put that gets as far as the append. *)
Lemma vol_put_inv s h r fault now res s' :
  vol_put s h r fault now = (res, s') →
  (∃ e, res = Err e ∧ s' = s)
  ∨ ∃ hb p, decodeContentHash h = Ok hb ∧ read_all r = Ok p ∧ sha256 p = hb
    ∧ let n := NeedleOverhead + alignTo8 (Z.of_nat (length p)) in
      ((∃ e, reserveNeedleSlot s n now = (Err e, s') ∧ res = Err e)
       ∨ ∃ off s1, reserveNeedleSlot s n now = (Ok off, s1)
         ∧ put_needle s1 h hb p off n fault = (res, s')).
Proof.
  unfold vol_put, readVerifiedPayload. destruct (decodeContentHash h) as [hb|] eqn:Eh; [|intros [= <- <-]; left; by eexists].
  destruct (read_all r) as [p|] eqn:Er; [|intros [= <- <-]; left; by eexists].
  case_decide as Es; [|intros [= <- <-]; left; by eexists].
  destruct (reserveNeedleSlot _ _ _) as [ro s1] eqn:Ev. intros Hp. right. exists hb, p.
  split_and!; try done. cbn zeta. destruct ro as [off|e].
  - right. by exists off, s1.
  - left. injection Hp as <- <-. by exists e.
Qed.

Lemma reserve_spec s n now r s1 :
  vol_inv s → volumeIDCounter s + 1 < 2 ^ 32 → reserveNeedleSlot s n now = (r, s1) →
  vol_inv s1 ∧ (∀ h, vol_get s1 h = vol_get s h)
  ∧ ∀ off, r = Ok off → ∀ vf, activeVolume s1 = Some vf → off = vsize vf ∧ vsize vf + n <= volumeSize s1.
Proof.
  intros Hi Hc. unfold reserveNeedleSlot. destruct (vv_active s (vv_files s Hi)) as (vf & c & Ha & _). rewrite Ha.
  destruct (_ <=? _) eqn:E; zbool.
  - intros [= <- <-]. split_and!; try done. intros off [= <-] vf'. rewrite Ha. by intros [= <-].
  - destruct (seal_spec s now Hi Hc) as (Hi' & _ & _ & _ & Hget).
    destruct (activeVolume (sealCurrentVolume s now)) as [vf'|] eqn:Ea;
      [|intros [= <- <-]; split_and!; try done; by intros ? [=]].
    destruct (_ <? _) eqn:E2; zbool; intros [= <- <-]; split_and!; try done; try by intros ? [=].
    intros off [= <-] x. rewrite Ea. by intros [= <-].
Qed.

Lemma vol_put_spec s h r now res s' :
  vol_inv s → volumeIDCounter s + 1 < 2 ^ 32 → vol_put s h r NoFault now = (res, s') →
  vol_inv s' ∧ (∀ h', h' ≠ h → vol_get s' h' = vol_get s h')
  ∧ (res = Ok tt → ∃ c, read_all r = Ok c ∧ decodeContentHash h = Ok (sha256 c) ∧ vol_get s' h = Ok c)
  ∧ (res ≠ Ok tt → vol_get s' h = vol_get s h).
Proof.
  intros Hi Hc Hp. apply vol_put_inv in Hp as [(e & -> & ->)|(hb & p & Hh & Hr & Hs & [(e & Hres & ->)|(off & s1 & Hres & Hput)])].
  - split_and!; done.
  - apply reserve_spec in Hres as (? & ? & _); [|done..]. split_and!; try done.
  - apply reserve_spec in Hres as (Hi1 & Hg1 & Hfit); [|done..].
    destruct (put_needle_spec s1 h hb p off Hi1 Hh Hs (Hfit off eq_refl) (decode_key h hb Hh))
      as (s2 & Hput' & Hi2 & Hg2 & Ho2).
    rewrite Hput in Hput'. injection Hput' as -> ->. split_and!; try done.
    + intros h' Hne. by rewrite Ho2, Hg1.
    + intros _. exists p. by rewrite Hs.
Qed.

(** ** Deleting *)
Lemma vol_delete_spec s h s' :
  vol_inv s → vol_delete s h true = (Ok tt, s') →
  vol_inv s' ∧ vol_get s' h = Err (Errno ENOENT) ∧ (∀ h', h' ≠ h → vol_get s' h' = vol_get s h').
Proof.
  intros Hi. pose proof Hi as [Hf Hn Hd]. unfold vol_delete, getNeedleMetadata.
  destruct (decodeContentHash h) as [hb|] eqn:Eh; [|discriminate].
  destruct (needles s !! h) as [m|] eqn:Em; [|discriminate].
  destruct (volume_of s (NMVolumeID m)) as [vf|] eqn:Ev; [|discriminate].
  destruct (vsealed vf); [discriminate|]. cbn [negb].
  destruct (Hn h m Em) as [p Hp]. pose proof Hp as [L1 L2 L3 L4 (vf' & L5 & L5') (c & L6 & L7)].
  rewrite Ev in L5. injection L5 as <-. rewrite L5', L6. intros [= <-].
  destruct (live_bound s h m p c Hp L6) as [Hlo Hhi].
  set (n := NeedleOverhead + alignTo8 (NMSize m)).
  assert (0 <= n) as Hn0.
  { unfold n, NeedleOverhead, NeedleHeaderSize, NeedleCRCBytes. pose proof (alignTo8_bounds (NMSize m)).
    pose proof (alignTo8_bounds (Z.of_nat (length p))). lia. }
  set (s' := mkVBS _ _ _ _ _ _ _).
  assert (vol_files s') as Hf'.
  { destruct Hf as [F1 F2 F3 (va & ca & A1 & A2 & A3 & A4 & A5 & A6) F5 F6].
    split; cbn [s' dir volumes volumeSize sealedVolumes volumeIDCounter activeVolume]; try done.
    - intros id c0. rewrite lookup_insert. case_decide as E; [|apply F3].
      intros [= <-]. subst id. rewrite length_punch by done. by apply F3.
    - rewrite A1. destruct (decide (NMVolumeID m = volumeID va)) as [E|E].
      + exists va, (punch_hole c (Offset m) n). rewrite E, lookup_insert_eq, length_punch by done.
        assert (ca = c) as -> by congruence. done.
      + exists va, ca. by rewrite lookup_insert_ne.
    - intros id x Hx. destruct (F5 id x Hx) as (? & ? & [y Hy]). split_and!; try done.
      rewrite lookup_insert. case_decide; by eexists.
    - intros id c0 x. rewrite lookup_insert. case_decide as E; [|by apply F6].
      intros _ Ha. subst id. by apply (F6 _ c). }
  assert (∀ k mk q, needles s !! k = Some mk → k ≠ h → needle_live s k mk q → needle_live s' k mk q) as Hlive.
  { intros k mk q Hk Hne [M1 M2 M3 M4 M5 (c0 & M6 & M7)].
    assert (∃ c1, dir s' !! NMVolumeID mk = Some c1 ∧ needle_in c1 (Offset mk) (NMHash mk) q) as (c1 & Hc1 & Hi1).
    { cbn [s' dir]. rewrite lookup_insert. case_decide as E; [|by exists c0].
      exists (punch_hole c (Offset m) n). split; [done|]. assert (c0 = c) as -> by congruence.
      apply needle_in_punch; try done; [by eapply decode_length|].
      destruct (Hd k h mk m Hk Em Hne (eq_sym E)) as [He|He]; unfold needle_end in He; rewrite ?M3, ?alignTo8_idem in He.
      - right. lia.
      - left. unfold n. lia. }
    split; try done. by exists c1. }
  split_and!.
  - split; [done| |].
    + intros k mk. cbn [s' needles]. rewrite lookup_delete_Some. intros [Hne Hk].
      destruct (Hn k mk Hk) as [q Hq]. exists q. by apply Hlive.
    + intros k k' mk mk'. cbn [s' needles]. rewrite !lookup_delete_Some. intros [_ ?] [_ ?]. by apply Hd.
  - unfold vol_get, getNeedleMetadata. rewrite Eh. cbn [s' needles]. by rewrite lookup_delete_eq.
  - intros k Hk. destruct (needles s !! k) as [mk|] eqn:Ek.
    + destruct (Hn k mk Ek) as [q Hq]. rewrite (live_get s k mk q), (live_get s' k mk q); auto.
      cbn [s' needles]. by rewrite lookup_delete_ne.
    + apply absent_get; [|done]. cbn [s' needles]. by rewrite lookup_delete_ne.
Qed.

(** ** Restarting *)
Lemma restore_fold s l :
  let s' := foldl restore_step s l in
  dir s' = dir s ∧ volumes s' = volumes s ∧ needles s' = needles s ∧ volumeSize s' = volumeSize s
  ∧ volumeIDCounter s' = volumeIDCounter s
  ∧ (∀ id vf, openExistingVolume s id = Some vf → vsealed vf = true → id ∈ l →
       sealedVolumes s' !! id = Some vf)
  ∧ (∀ vf, activeVolume s' = Some vf → activeVolume s = Some vf
       ∨ ∃ id, id ∈ l ∧ openExistingVolume s id = Some vf ∧ vsealed vf = false)
  ∧ (∀ id vf, openExistingVolume s id = Some vf → vsealed vf = false → id ∈ l → is_Some (activeVolume s')).
Proof.
  induction l as [|x l IH] using rev_ind.
  - cbn [foldl]. split_and!; try done; [intros ? ? _ _ H|by left|intros ? ? _ _ H]; by apply not_elem_of_nil in H.
  - rewrite foldl_app. cbn [foldl]. destruct IH as (I1 & I2 & I3 & I4 & I5 & I6 & I7 & I8).
    set (s1 := foldl restore_step s l) in *. unfold restore_step.
    assert (openExistingVolume s1 x = openExistingVolume s x) as ->
      by (unfold openExistingVolume; by rewrite I1, I2, I4).
    destruct (openExistingVolume s x) as [vx|] eqn:Ex.
    + assert (volumeID vx = x) as Hid by (unfold openExistingVolume in Ex; destruct (dir s !! x); by simplify_eq).
      destruct (vsealed vx) eqn:Esx; cbn [dir volumes needles volumeSize volumeIDCounter sealedVolumes activeVolume].
      * split_and!; try done.
        -- intros id vf Ho Hs [Hin|Hin]%elem_of_app.
           ++ rewrite lookup_insert. case_decide as E; [|by apply I6]. congruence.
           ++ apply list_elem_of_singleton in Hin as ->. rewrite Hid, lookup_insert_eq. congruence.
        -- intros vf Hv. destruct (I7 vf Hv) as [?|(id & ? & ? & ?)]; [by left|]. right. exists id. set_solver.
        -- intros id vf Ho Hs [Hin|Hin]%elem_of_app; [by eapply I8|].
           apply list_elem_of_singleton in Hin as ->. congruence.
      * split_and!; try done.
        -- intros id vf Ho Hs [Hin|Hin]%elem_of_app; [by apply I6|].
           apply list_elem_of_singleton in Hin as ->. congruence.
        -- intros vf [= <-]. right. exists x. set_solver.
    + split_and!; try done.
      * intros id vf Ho Hs [Hin|Hin]%elem_of_app; [by apply I6|].
        apply list_elem_of_singleton in Hin as ->. congruence.
      * intros vf Hv. destruct (I7 vf Hv) as [?|(id & ? & ? & ?)]; [by left|]. right. exists id. set_solver.
      * intros id vf Ho Hs [Hin|Hin]%elem_of_app; [by eapply I8|].
        apply list_elem_of_singleton in Hin as ->. congruence.
Qed.

Lemma foldr_max_ge l x : x ∈ l → x <= foldr Z.max 0 l.
Proof. induction l as [|y l IH]; [by intros ?%not_elem_of_nil|]. intros [->|Hx]%elem_of_cons; cbn [foldr]; [lia|]. specialize (IH Hx). lia. Qed.

(** The store a restart yields, in terms of the one before. *)
Lemma restart_spec s now s' :
  vol_inv s → 0 < volumeSize s →
  NewVolumeBlobStore (dir s) (volumes s) (needles s) (volumeSize s) now = Ok s' →
  dir s' = dir s ∧ needles s' = needles s ∧ volumeSize s' = volumeSize s
  ∧ ∃ vf c, activeVolume s = Some vf ∧ dir s !! volumeID vf = Some c
    ∧ activeVolume s' = Some (mkVF (volumeID vf) 0 (Z.of_nat (length c)) false)
  ∧ (∀ id, is_Some (sealedVolumes s !! id) → ∃ vf', sealedVolumes s' !! id = Some vf' ∧ volumeID vf' = id).
Proof.
  intros [Hf _ _] Hpos. unfold NewVolumeBlobStore. rewrite (proj2 (Z.leb_gt _ _)) by done.
  pose proof (vv_size s Hf). rewrite (proj2 (Z.ltb_ge _ _)) by (change MaxVolumeSizeBytes with 34359738368; lia).
  intros [= <-]. unfold restoreVolumes. cbn [dir volumes needles volumeSize activeVolume sealedVolumes].
  set (maxID := foldr Z.max 0 _). set (s0 := mkVBS _ _ _ _ _ _ maxID).
  destruct (restore_fold s0 (seqZ 1 maxID)) as (R1 & _ & R3 & R4 & _ & R6 & R7 & R8).
  set (s1 := foldl _ _ _) in *.
  assert (∀ id c, dir s !! id = Some c → id ∈ seqZ 1 maxID) as Hin.
  { intros id c Hc. apply elem_of_seqZ. destruct (vv_dir s Hf id c Hc) as [? _].
    assert (id <= maxID); [|lia]. apply foldr_max_ge. apply list_elem_of_fmap. exists (id, c).
    split; [done|]. by apply elem_of_map_to_list. }
  assert (∀ id c, dir s !! id = Some c →
    openExistingVolume s0 id = Some (mkVF id 0 (Z.of_nat (length c)) (bool_decide (is_Some (sealedVolumes s !! id))))) as Hopen.
  { intros id c Hc. unfold openExistingVolume. cbn [s0 dir volumes volumeSize]. rewrite Hc.
    destruct (vv_dir s Hf id c Hc) as (_ & _ & m & -> & ->). done. }
  destruct (vv_active s Hf) as (vf & c & Ha & Hse & Hdir & _ & _ & Hnone).
  assert (bool_decide (is_Some (sealedVolumes s !! volumeID vf)) = false) as Hbf
    by (rewrite Hnone; apply bool_decide_eq_false_2; by intros []).
  destruct (R8 (volumeID vf) _ (Hopen _ _ Hdir)) as [va Hva]; [done|by eapply Hin|].
  assert (va = mkVF (volumeID vf) 0 (Z.of_nat (length c)) false) as ->.
  { destruct (R7 va Hva) as [[=]|(id & _ & Ho & Hs)].
    destruct (dir s !! id) as [c0|] eqn:Ec0; [|unfold openExistingVolume in Ho; cbn [s0 dir] in Ho; by rewrite Ec0 in Ho].
    rewrite (Hopen id c0 Ec0) in Ho. injection Ho as <-. cbn [vsealed] in Hs.
    destruct (vv_cover s Hf id c0 vf Ec0 Ha) as [->|Hsm]; [|by rewrite bool_decide_eq_true_2 in Hs].
    assert (c0 = c) as -> by congruence. by rewrite Hs. }
  rewrite Hva. split_and!; [by rewrite R1|by rewrite R3|by rewrite R4|].
  exists vf, c. split_and!; try done. intros id [vs Hs]. destruct (vv_sealed s Hf id vs Hs) as (_ & _ & [c0 Hc0]).
  eexists. split; [apply (R6 id _ (Hopen id c0 Hc0)); [|by eapply Hin]|done].
  cbn [vsealed]. rewrite bool_decide_eq_true_2; [done|by eexists].
Qed.

Lemma restart_get s now s' :
  vol_inv s → 0 < volumeSize s →
  NewVolumeBlobStore (dir s) (volumes s) (needles s) (volumeSize s) now = Ok s' →
  ∀ h, vol_get s' h = vol_get s h.
Proof.
  intros Hi Hpos Hr. destruct (restart_spec s now s' Hi Hpos Hr) as (R1 & R2 & _ & vf & c & Ha & Hc & Ha' & Hs').
  intros h. destruct (needles s !! h) as [m|] eqn:Em; [|apply absent_get; [by rewrite R2|done]].
  destruct (vv_needle s Hi h m Em) as [p Hp]. rewrite (live_get s h m p) by done.
  apply (live_get s' h m p); [by rewrite R2|]. destruct Hp as [L1 L2 L3 L4 L5 (c0 & L6 & L7)].
  split; try done; [|rewrite R1; by exists c0]. unfold volume_of. rewrite Ha'. cbn [volumeID].
  destruct (_ =? _) eqn:E; zbool; [by eexists|].
  destruct (vv_cover s (vv_files s Hi) _ c0 vf L6 Ha) as [?|Hsm]; [done|].
  destruct (Hs' _ Hsm) as (vf' & -> & ?). by exists vf'.
Qed.
