(* ===== verification/VolumeProps.v ===== *)
(** * The properties of the volume backend *)
From S2P Require Import Prelude GoText Hashes Paths RawStore Volume VolumeTheorems.
Open Scope Z_scope.

(** A needle written at the file position is read back from that offset
    exactly (hash, length, payload, checksum), occupies 46 bytes plus the payload
    rounded up to 8, and leaves the bytes below it untouched. *)
Theorem needle_roundtrip content pos hb p :
  0 <= pos <= Z.of_nat (length content) → length hb = 32%nat → Z.of_nat (length p) < 2 ^ 32 →
  ∃ content', appendNeedle content pos hb p NoFault
              = (Ok tt, (content', pos + NeedleOverhead + alignTo8 (Z.of_nat (length p))))
  ∧ readNeedle content' pos
    = Ok (mkNeedle NeedleMagic (Z.of_nat (length p)) hb NeedleFlagNone p (needleCRC hb p))
  ∧ take (Z.to_nat pos) content' = take (Z.to_nat pos) content.
Proof.
  intros Hpos Hh Hp. eexists. split_and!.
  - unfold appendNeedle, file_write. rewrite length_needle_bytes by done. by rewrite Z.add_assoc.
  - apply readNeedle_in; [done|done|]. unfold patch.
    exists (take (Z.to_nat pos) (content ++ replicate (Z.to_nat pos - length content) ch_nul)).
    eexists. split; [done|]. rewrite length_take, length_app, length_replicate. lia.
  - apply patch_below; lia.
Qed.

(** An acknowledged volume put proves the content has the digest it is stored
    under, the blob then reads back byte for byte, every other blob reads as
    before, rolling to a new volume included, and no volume file exceeds the
    configured size; a refused put changes no blob. *)
Theorem volume_put_get s h r now res s' :
  vol_inv s → volumeIDCounter s + 1 < 2 ^ 32 → vol_put s h r NoFault now = (res, s') →
  vol_inv s' ∧ (∀ h', h' ≠ h → vol_get s' h' = vol_get s h')
  ∧ (res = Ok tt → ∃ c, read_all r = Ok c ∧ decodeContentHash h = Ok (sha256 c) ∧ vol_get s' h = Ok c)
  ∧ (res ≠ Ok tt → vol_get s' h = vol_get s h)
  ∧ ∀ id c, dir s' !! id = Some c → Z.of_nat (length c) <= volumeSize s'.
Proof.
  intros Hi Hc Hp. destruct (vol_put_spec s h r now res s' Hi Hc Hp) as (Hi' & H1 & H2 & H3).
  split_and!; try done. intros id c Hid. by apply (vv_dir s' (vv_files s' Hi')) in Hid as (_ & ? & _).
Qed.

(** An acknowledged delete (with hole punching) makes exactly that blob
    disappear: it is gone, and every other blob, in the same volume or another,
    reads as before. *)
Theorem volume_delete_isolated s h s' :
  vol_inv s → vol_delete s h true = (Ok tt, s') →
  vol_inv s' ∧ vol_get s' h = Err (Errno ENOENT) ∧ ∀ h', h' ≠ h → vol_get s' h' = vol_get s h'.
Proof. apply vol_delete_spec. Qed.

(** Reopening the volume directory after a restart serves every blob exactly
    as before the restart. *)
Theorem volume_restart_reads s now s' :
  vol_inv s → 0 < volumeSize s →
  NewVolumeBlobStore (dir s) (volumes s) (needles s) (volumeSize s) now = Ok s' →
  ∀ h, vol_get s' h = vol_get s h.
Proof. apply restart_get. Qed.

(** ** Findings *)
Lemma readNeedle_past c off : Z.of_nat (length c) < off + NeedleHeaderSize → readNeedle c off = Err ErrPlain.
Proof.
  intros Hl. unfold readNeedle, ReadAt. rewrite (proj2 (Z.leb_gt _ (Z.of_nat _))) by done.
  by rewrite andb_false_r.
Qed.

(** After a restart the reopened active volume is written from position 0
    while the needle is recorded at the end of the file: a put that fits is
    acknowledged, but the blob cannot be read back. *)
Theorem volume_restart_loses_put s now s1 h r now' s2 c0 vf0 p :
  vol_inv s → 0 < volumeSize s →
  activeVolume s = Some vf0 → dir s !! volumeID vf0 = Some c0 →
  NewVolumeBlobStore (dir s) (volumes s) (needles s) (volumeSize s) now = Ok s1 →
  read_all r = Ok p →
  NeedleOverhead + alignTo8 (Z.of_nat (length p)) <= Z.of_nat (length c0) →
  Z.of_nat (length c0) + (NeedleOverhead + alignTo8 (Z.of_nat (length p))) <= volumeSize s →
  vol_put s1 h r NoFault now' = (Ok tt, s2) →
  vol_get s2 h = Err ErrPlain.
Proof.
  intros Hi Hpos Ha0 Hc0 Hrs Hrd Hbig Hroom Hput.
  destruct (restart_spec s now s1 Hi Hpos Hrs) as (R1 & R2 & R3 & vf & c & Ha & Hc & Ha1 & _). simplify_eq.
  apply vol_put_inv in Hput as [(e & [=] & _)|(hb & p' & Hh & Hr & Hs & [(e & _ & [=])|(off & s3 & Hres & Hput)])].
  assert (p' = p) as -> by congruence. subst hb. pose proof (decode_length h _ Hh) as Hlen. pose proof (decode_key h _ Hh) as Hkey.
  unfold reserveNeedleSlot in Hres. rewrite Ha1 in Hres. cbn [vsize] in Hres.
  rewrite R3, (proj2 (Z.leb_le _ _)) in Hres by lia. injection Hres as <- <-.
  unfold put_needle, appendNeedle, file_write, saveNeedleMetadata in Hput.
  rewrite Ha1 in Hput. cbn [volumeID vpos vsize vsealed] in Hput. rewrite R1, Hc0 in Hput.
  rewrite (proj2 (Z.eqb_neq _ _)), (proj2 (Z.ltb_ge _ _)) in Hput by lia. cbn [orb] in Hput.
  injection Hput as <-. unfold vol_get, getNeedleMetadata. rewrite Hh.
  cbn [needles]. rewrite lookup_insert_eq. unfold volume_of. cbn [activeVolume NMVolumeID volumeID].
  rewrite Z.eqb_refl. cbn [dir volumeID]. rewrite lookup_insert_eq. cbn [Offset].
  rewrite readNeedle_past; [done|]. rewrite length_patch.
  pose proof (length_needle_bytes (sha256 p) p NeedleFlagNone Hlen).
  change (Z.to_nat 0) with 0%nat. unfold NeedleHeaderSize. lia.
Qed.

(** When the sync of an append fails, the file position has moved but the
    recorded size has not: the next put is acknowledged and recorded at the
    position of the failed needle, and reading it back fails. *)
Theorem volume_failed_sync_loses_next s h1 r1 h2 r2 now s1 s2 e p1 p2 vf :
  vol_inv s → activeVolume s = Some vf →
  read_all r1 = Ok p1 → read_all r2 = Ok p2 → sha256 p1 ≠ sha256 p2 →
  vsize vf + (NeedleOverhead + alignTo8 (Z.of_nat (length p1))) <= volumeSize s →
  vsize vf + (NeedleOverhead + alignTo8 (Z.of_nat (length p2))) <= volumeSize s →
  vol_put s h1 r1 SyncFails now = (Err e, s1) → decodeContentHash h1 = Ok (sha256 p1) →
  vol_put s1 h2 r2 NoFault now = (Ok tt, s2) →
  vol_get s2 h2 = Err ErrPlain.
Proof.
  intros Hi Ha Hr1 Hr2 Hne Hfit1 Hfit2 Hp1 Hh1 Hp2.
  destruct (vv_active s (vv_files s Hi)) as (vf' & c & Ha' & Hse & Hdir & Hpos & Hsz & _).
  assert (vf' = vf) as -> by congruence.
  pose proof (decode_length h1 _ Hh1) as Hlen1.
  remember (needle_bytes (sha256 p1) p1 NeedleFlagNone) as f1 eqn:Ef1.
  assert (activeVolume s1 = Some (mkVF (volumeID vf) (vpos vf + Z.of_nat (length f1)) (vsize vf) false)
          ∧ dir s1 !! volumeID vf = Some (c ++ f1) ∧ volumeSize s1 = volumeSize s) as (Ha1 & Hd1 & Hv1).
  { unfold vol_put, readVerifiedPayload in Hp1. rewrite Hh1, Hr1, decide_True in Hp1 by done.
    unfold reserveNeedleSlot in Hp1. rewrite Ha, (proj2 (Z.leb_le _ _)) in Hp1 by lia.
    unfold put_needle, appendNeedle, file_write in Hp1. rewrite Ha, Hdir, Hpos, Nat2Z.id, patch_end in Hp1.
    rewrite <- Ef1 in Hp1. injection Hp1 as _ <-. cbn [activeVolume dir volumeSize]. rewrite lookup_insert_eq, Hse, Hpos. done. }
  apply vol_put_inv in Hp2 as [(e' & [=] & _)|(hb & p' & Hh & Hr & Hs & [(e' & _ & [=])|(off & s3 & Hres & Hput)])].
  assert (p' = p2) as -> by congruence. subst hb. pose proof (decode_length h2 _ Hh) as Hlen. pose proof (decode_key h2 _ Hh) as Hkey.
  unfold reserveNeedleSlot in Hres. rewrite Ha1 in Hres. cbn [vsize] in Hres.
  rewrite Hv1, (proj2 (Z.leb_le _ _)) in Hres by lia. injection Hres as <- <-.
  unfold put_needle, appendNeedle, file_write, saveNeedleMetadata in Hput.
  rewrite Ha1 in Hput. cbn [volumeID vpos vsize vsealed] in Hput. rewrite Hd1 in Hput.
  rewrite (proj2 (Z.eqb_neq _ _)), (proj2 (Z.ltb_ge _ _)) in Hput by lia. cbn [orb] in Hput.
  injection Hput as <-. unfold vol_get, getNeedleMetadata. rewrite Hh.
  cbn [needles]. rewrite lookup_insert_eq. unfold volume_of. cbn [activeVolume NMVolumeID volumeID].
  rewrite Z.eqb_refl. cbn [dir volumeID]. rewrite lookup_insert_eq. cbn [Offset NMHash].
  rewrite Hpos, Hsz.
  replace (Z.to_nat (Z.of_nat (length c) + Z.of_nat (length f1))) with (length (c ++ f1)) by (rewrite length_app; lia).
  rewrite patch_end. rewrite (readNeedle_in _ _ (sha256 p1) p1); [|done| |].
  - cbn [nd_hash]. by rewrite decide_False by congruence.
  - pose proof (alignTo8_bounds (Z.of_nat (length p1))). pose proof (vv_size s (vv_files s Hi)).
    unfold NeedleOverhead, NeedleHeaderSize, NeedleCRCBytes in *. lia.
  - apply needle_in_app. rewrite Ef1. apply needle_in_end.
Qed.

(** Where the file system cannot punch holes, a delete is acknowledged but
    changes nothing: the blob stays readable. *)
Theorem volume_delete_noop s h c :
  vol_inv s → vol_get s h = Ok c → (vol_delete s h false).1 = Ok tt →
  ∃ s', vol_delete s h false = (Ok tt, s') ∧ vol_get s' h = Ok c.
Proof.
  intros Hi Hg. unfold vol_delete. destruct (decodeContentHash h); [|discriminate].
  destruct (getNeedleMetadata s h) as [m|]; [|discriminate].
  destruct (volume_of s (NMVolumeID m)) as [vf|]; [|discriminate].
  destruct (vsealed vf); [discriminate|]. intros _. exists s. done.
Qed.

(** The file name of a volume determines its id: [volumeIDFromName] inverts
    the "vol-%04d.dat" rendering for every 32-bit id. *)
Theorem volume_name_roundtrip id : is_uint32 id → volumeIDFromName (volume_name id) = id.
Proof.
  intros Hid. unfold is_uint32 in Hid. unfold volume_name, append_int.
  rewrite (proj2 (Z.ltb_ge _ _)) by lia.
  destruct (dec_digits_spec 20 id []) as (ds & -> & Hne & Hf & Hval); [lia|].
  rewrite app_nil_r. specialize (Hne ltac:(lia)).
  set (pad := replicate _ _). set (num := pad ++ ds).
  assert (VolumeFilePrefix ++ pad ++ ds ++ VolumeFileExt = VolumeFilePrefix ++ num ++ VolumeFileExt) as ->
    by (unfold num; by rewrite <- !app_assoc).
  unfold volumeIDFromName, trim_prefix, trim_suffix.
  assert (has_prefix (VolumeFilePrefix ++ num ++ VolumeFileExt) VolumeFilePrefix = true) as ->
    by (apply has_prefix_spec; by eexists).
  assert (∀ a, has_suffix (a ++ VolumeFileExt) VolumeFileExt = true) as Hsuf.
  { intros a. unfold has_suffix. rewrite length_app. rewrite (proj2 (Nat.leb_le _ _)) by lia.
    rewrite drop_app_eq by lia. by rewrite bool_decide_eq_true_2. }
  rewrite (app_assoc VolumeFilePrefix num), Hsuf. cbn [negb orb].
  rewrite <- app_assoc, drop_app_eq by done. rewrite Hsuf, take_app_eq by (rewrite length_app; lia).
  assert (dec_value 0 num = id) as Hv.
  { unfold num. rewrite dec_value_app.
    assert (dec_value 0 pad = 0) as ->; [|done]. unfold pad. generalize (4 - length ds)%nat.
    intros n. induction n; done. }
  assert (forallb is_digit num = true) as Hd.
  { apply forallb_forall. intros x Hx%list_elem_of_In. unfold num in Hx. apply elem_of_app in Hx as [Hx|Hx].
    - unfold pad in Hx. by apply elem_of_replicate in Hx as [-> _].
    - rewrite Forall_forall in Hf. by apply Hf. }
  assert (num ≠ []) as Hnn by (unfold num; by intros [_ ?]%app_nil).
  clearbody num. unfold parse_uint32. destruct num as [|x num']; [done|].
  by rewrite Hd, Hv, (proj2 (Z.ltb_lt _ _)) by lia.
Qed.

(** ** Witnesses *)
Definition wb1 : bytes := bs "hello".
Definition wb2 : bytes := bs "hi".
Definition wh1 : bytes := HashBytes wb1.
Definition wh2 : bytes := HashBytes wb2.
Definition wv0 : VolumeBlobStore :=
  mkVBS {[ 1 := [] ]} {[ 1 := mkVM 1 0 false 0 0 0 0 ]} ∅ 200 (Some (mkVF 1 0 0 false)) ∅ 1.
Definition wv1 := (vol_put wv0 wh1 (reader_of wb1) NoFault 1).2.
Definition wv2 := (vol_put wv1 wh2 (reader_of wb2) NoFault 2).2.

Lemma wv0_new : NewVolumeBlobStore ∅ ∅ ∅ 200 0 = Ok wv0.
Proof. vm_compute. reflexivity. Qed.

Lemma wv0_inv : vol_inv wv0.
Proof.
  split; [split|..]; cbn [wv0 dir volumes needles volumeSize activeVolume sealedVolumes volumeIDCounter].
  - lia.
  - lia.
  - intros id c [<- <-]%lookup_singleton_Some. split; [lia|]. split; [done|].
    eexists. rewrite lookup_singleton_eq. split; [done|]. by rewrite lookup_empty.
  - eexists _, []. split_and!; try done.
  - intros id vf. by rewrite lookup_empty.
  - intros id c vf [<- _]%lookup_singleton_Some [= <-]. by left.
  - intros h m. by rewrite lookup_empty.
  - intros h h' m m'. by rewrite lookup_empty.
Qed.

Lemma run_put s h r f now : (vol_put s h r f now).1 = Ok tt →
  vol_put s h r f now = (Ok tt, (vol_put s h r f now).2).
Proof. destruct (vol_put s h r f now). cbn. by intros ->. Qed.

Lemma wv1_inv : vol_inv wv1.
Proof.
  apply (vol_put_spec wv0 wh1 (reader_of wb1) 1 (Ok tt)); [apply wv0_inv|done|].
  apply run_put. vm_compute. reflexivity.
Qed.

Lemma wv2_inv : vol_inv wv2.
Proof.
  apply (vol_put_spec wv1 wh2 (reader_of wb2) 2 (Ok tt)); [apply wv1_inv|vm_compute; done|].
  apply run_put. vm_compute. reflexivity.
Qed.

Lemma needle_roundtrip_witness :
  ∃ content', appendNeedle [] 0 (sha256 wb1) wb1 NoFault
              = (Ok tt, (content', 0 + NeedleOverhead + alignTo8 (Z.of_nat (length wb1))))
  ∧ readNeedle content' 0
    = Ok (mkNeedle NeedleMagic (Z.of_nat (length wb1)) (sha256 wb1) NeedleFlagNone wb1 (needleCRC (sha256 wb1) wb1))
  ∧ take (Z.to_nat 0) content' = take (Z.to_nat 0) [].
Proof. apply (needle_roundtrip [] 0 (sha256 wb1) wb1); [cbn; lia|vm_compute; reflexivity|vm_compute; reflexivity]. Defined.

Lemma volume_put_get_witness :
  vol_inv wv2 ∧ (∀ h', h' ≠ wh2 → vol_get wv2 h' = vol_get wv1 h')
  ∧ (Ok tt = Ok tt → ∃ c, read_all (reader_of wb2) = Ok c ∧ decodeContentHash wh2 = Ok (sha256 c)
                          ∧ vol_get wv2 wh2 = Ok c)
  ∧ (Ok tt ≠ Ok tt → vol_get wv2 wh2 = vol_get wv1 wh2)
  ∧ ∀ id c, dir wv2 !! id = Some c → Z.of_nat (length c) <= volumeSize wv2.
Proof.
  apply (volume_put_get wv1 wh2 (reader_of wb2) 2 (Ok tt) wv2); [apply wv1_inv|vm_compute; done|].
  apply run_put. vm_compute. reflexivity.
Defined.

Lemma volume_delete_isolated_witness :
  let s' := (vol_delete wv2 wh1 true).2 in
  vol_inv s' ∧ vol_get s' wh1 = Err (Errno ENOENT) ∧ ∀ h', h' ≠ wh1 → vol_get s' h' = vol_get wv2 h'.
Proof.
  apply (volume_delete_isolated wv2 wh1); [apply wv2_inv|]. vm_compute. reflexivity.
Defined.

Definition wv3 : VolumeBlobStore :=
  match NewVolumeBlobStore (dir wv2) (volumes wv2) (needles wv2) (volumeSize wv2) 9 with
  | Ok s => s
  | Err _ => wv2
  end.

Lemma wv3_new : NewVolumeBlobStore (dir wv2) (volumes wv2) (needles wv2) (volumeSize wv2) 9 = Ok wv3.
Proof. vm_compute. reflexivity. Qed.

Lemma volume_restart_reads_witness : vol_get wv3 wh1 = vol_get wv2 wh1.
Proof. apply (volume_restart_reads wv2 9 wv3); [apply wv2_inv|vm_compute; done|apply wv3_new]. Defined.

Definition wb3 : bytes := bs "yo".
Definition wh3 : bytes := HashBytes wb3.

Lemma volume_restart_loses_put_witness :
  vol_get (vol_put wv3 wh3 (reader_of wb3) NoFault 10).2 wh3 = Err ErrPlain.
Proof.
  apply (volume_restart_loses_put wv2 9 wv3 wh3 (reader_of wb3) 10
           (vol_put wv3 wh3 (reader_of wb3) NoFault 10).2
           (match dir wv2 !! 1 with Some c => c | None => [] end) (mkVF 1 108 108 false) wb3).
  - apply wv2_inv.
  - vm_compute. reflexivity.
  - vm_compute. reflexivity.
  - vm_compute. reflexivity.
  - apply wv3_new.
  - reflexivity.
  - vm_compute. discriminate.
  - vm_compute. discriminate.
  - apply run_put. vm_compute. reflexivity.
Defined.

Lemma volume_failed_sync_loses_next_witness :
  vol_get (vol_put (vol_put wv0 wh1 (reader_of wb1) SyncFails 1).2 wh2 (reader_of wb2) NoFault 1).2 wh2
  = Err ErrPlain.
Proof.
  apply (volume_failed_sync_loses_next wv0 wh1 (reader_of wb1) wh2 (reader_of wb2) 1
           (vol_put wv0 wh1 (reader_of wb1) SyncFails 1).2
           (vol_put (vol_put wv0 wh1 (reader_of wb1) SyncFails 1).2 wh2 (reader_of wb2) NoFault 1).2
           (Errno EIO) wb1 wb2 (mkVF 1 0 0 false)).
  - apply wv0_inv.
  - reflexivity.
  - reflexivity.
  - reflexivity.
  - vm_compute. discriminate.
  - vm_compute. discriminate.
  - vm_compute. discriminate.
  - vm_compute. reflexivity.
  - vm_compute. reflexivity.
  - apply run_put. vm_compute. reflexivity.
Defined.

Lemma volume_delete_noop_witness :
  ∃ s', vol_delete wv2 wh1 false = (Ok tt, s') ∧ vol_get s' wh1 = Ok wb1.
Proof. apply (volume_delete_noop wv2 wh1 wb1); [apply wv2_inv|vm_compute; reflexivity..]. Defined.

Lemma volume_name_roundtrip_witness : volumeIDFromName (volume_name 12345) = 12345.
Proof. apply (volume_name_roundtrip 12345). unfold is_uint32. lia. Defined.
