(* ===== verification/Access.v ===== *)
(** * Tenants and access control (src/src/storage/storage.go, R8 methods)

    ACL documents of buckets and objects share the [acl] bucket under the keys
    [bucket/<name>] and [object/<bucket>/<key>]; tenant documents live in
    [tenant_meta] under the tenant's id. *)
From S2P Require Import Prelude GoText Hashes Json Paths BlobStore CasStore.
Open Scope Z_scope.

(** ** Data *)
Definition PermRead : bytes := bs "read".
Definition PermWrite : bytes := bs "write".
Definition PermAdmin : bytes := bs "admin".
Definition PermDelete : bytes := bs "delete".

Record ACLEntry := mkACL { ETenant : bytes; EPermission : bytes; Effect : bytes }.
Record BucketACL := mkBucketACL { ABucket : bytes; BEntries : list ACLEntry }.
Record ObjectACL := mkObjectACL { AKey : bytes; OEntries : list ACLEntry }.
Record TenantConfig := mkTenant {
  TID : bytes;
  MasterKeyID : bytes;
  AuthToken : bytes;
  QuotaBytes : Z;
  QuotaObjects : Z;
  TEnabled : bool
}.

#[export] Instance ACLEntry_eq_dec : EqDecision ACLEntry.
Proof. solve_decision. Defined.

(** The JSON documents of the [acl] bucket. *)
Inductive acl_doc := BucketDoc (a : BucketACL) | ObjectDoc (a : ObjectACL).

Record AccessDB := mkAccess {
  acl_bucket : bucket (stored acl_doc);
  tenant_meta : bucket (stored TenantConfig)
}.

(** What survives [json.Marshal] and [json.Unmarshal]. *)
Definition json_entry (e : ACLEntry) : ACLEntry :=
  mkACL (json_valid (ETenant e)) (json_valid (EPermission e)) (json_valid (Effect e)).
Definition json_tenant (t : TenantConfig) : TenantConfig :=
  mkTenant (json_valid (TID t)) (json_valid (MasterKeyID t)) (json_valid (AuthToken t))
    (QuotaBytes t) (QuotaObjects t) (TEnabled t).

(** ** ACL documents *)
Definition bucketResourcePrefix : bytes := bs "bucket/".
Definition objectResourcePrefix : bytes := bs "object/".

Definition put_acl (k : bytes) (d : acl_doc) (s : AccessDB) : result unit * AccessDB :=
  match bput k (Doc d) (acl_bucket s) with
  | None => (Err ErrPlain, s)
  | Some b => (Ok tt, mkAccess b (tenant_meta s))
  end.

Definition PutBucketACL (s : AccessDB) (acl : option BucketACL) : result unit * AccessDB :=
  match acl with
  | Some (mkBucketACL (c :: name) es) =>
      put_acl (bucketResourcePrefix ++ c :: name)
        (BucketDoc (mkBucketACL (json_valid (c :: name)) (json_entry <$> es))) s
  | _ => (Err (Errno EINVAL), s)
  end.

Definition PutObjectACL (s : AccessDB) (acl : option ObjectACL) : result unit * AccessDB :=
  match acl with
  | Some (mkObjectACL (c :: key) es) =>
      put_acl (objectResourcePrefix ++ c :: key)
        (ObjectDoc (mkObjectACL (json_valid (c :: key)) (json_entry <$> es))) s
  | _ => (Err (Errno EINVAL), s)
  end.

(** A missing document reads as the zero value; a document of the other kind
    unmarshals to its entries. *)
Definition GetBucketACL (s : AccessDB) (name : bytes) : result BucketACL :=
  match name with
  | [] => Err (Errno EINVAL)
  | _ => match acl_bucket s !! (bucketResourcePrefix ++ name) with
         | None => Ok (mkBucketACL [] [])
         | Some Corrupt => Err ErrPlain
         | Some (Doc (BucketDoc a)) => Ok a
         | Some (Doc (ObjectDoc a)) => Ok (mkBucketACL [] (OEntries a))
         end
  end.

Definition GetObjectACL (s : AccessDB) (key : bytes) : result ObjectACL :=
  match key with
  | [] => Err (Errno EINVAL)
  | _ => match acl_bucket s !! (objectResourcePrefix ++ key) with
         | None => Ok (mkObjectACL [] [])
         | Some Corrupt => Err ErrPlain
         | Some (Doc (ObjectDoc a)) => Ok a
         | Some (Doc (BucketDoc a)) => Ok (mkObjectACL [] (BEntries a))
         end
  end.

(** ** Evaluation *)
Definition perm_match (entry perm : bytes) : bool :=
  if decide (entry = PermRead) then bool_decide (perm = PermRead) || bool_decide (perm = PermAdmin)
  else if decide (entry = PermWrite) then bool_decide (perm = PermWrite) || bool_decide (perm = PermAdmin)
  else if decide (entry = PermAdmin) then bool_decide (perm = PermAdmin)
  else if decide (entry = PermDelete) then bool_decide (perm = PermDelete) || bool_decide (perm = PermAdmin)
  else false.

Definition checkACL (acl : option ACLEntry) (tenantID perm : bytes) : bool :=
  match acl with
  | None => false
  | Some e =>
      if negb (bool_decide (ETenant e = [])) && negb (bool_decide (ETenant e = tenantID)) then false
      else if negb (perm_match (EPermission e) perm) then false
      else
        let effect := match Effect e with [] => bs "allow" | f => f end in
        bool_decide (effect = bs "allow")
  end.

Definition parseACLResource (resource : bytes) : result (bytes * bytes) :=
  if has_prefix resource bucketResourcePrefix
  then Ok (drop (length bucketResourcePrefix) resource, [])
  else if has_prefix resource objectResourcePrefix then
    let rest := drop (length objectResourcePrefix) resource in
    match index_byte ch_slash rest with
    | None => Err (Errno EINVAL)
    | Some idx => Ok (take idx rest, drop (idx + 1) rest)
    end
  else Err (Errno EINVAL).

Fixpoint aclAllows (entries : list ACLEntry) (tenantID perm : bytes) : bool :=
  match entries with
  | [] => false
  | e :: rest => if checkACL (Some e) tenantID perm then true else aclAllows rest tenantID perm
  end.

Definition Authorize (s : AccessDB) (tenantID perm resource : bytes) : result unit :=
  if decide (tenantID = []) then Err (Errno EINVAL)
  else if decide (tenantID = bs "admin") then Ok tt
  else
    let! parts := parseACLResource resource in
    let '(bkt, object) := parts in
    let! byObject :=
      if decide (object = []) then Ok false
      else let! acl := GetObjectACL s (bkt ++ [ch_slash] ++ object) in
           Ok (aclAllows (OEntries acl) tenantID perm) in
    if (byObject : bool) then Ok tt
    else
      let! byBucket :=
        if decide (bkt = []) then Ok false
        else let! acl := GetBucketACL s bkt in Ok (aclAllows (BEntries acl) tenantID perm) in
      if (byBucket : bool) then Ok tt else Err (Errno EACCES).

(** ** Tenants *)
Definition PutTenantConfig (s : AccessDB) (t : TenantConfig) : result unit * AccessDB :=
  match bput (TID t) (Doc (json_tenant t)) (tenant_meta s) with
  | None => (Err ErrPlain, s)
  | Some b => (Ok tt, mkAccess (acl_bucket s) b)
  end.

Definition GetTenantConfig (s : AccessDB) (tenantID : bytes) : result TenantConfig :=
  match tenant_meta s !! tenantID with
  | None => Err (Errno ENOENT)
  | Some Corrupt => Err ErrPlain
  | Some (Doc t) => Ok t
  end.

(** [ForEach] stops at the first document that does not unmarshal; the tenants
    read so far are returned with the error. *)
Fixpoint tenants_loop (entries : list (bytes * stored TenantConfig))
    : list TenantConfig * result unit :=
  match entries with
  | [] => ([], Ok tt)
  | (_, Corrupt) :: _ => ([], Err ErrPlain)
  | (_, Doc t) :: rest => let '(ts, r) := tenants_loop rest in (t :: ts, r)
  end.
Definition ListTenantConfigs (s : AccessDB) : list TenantConfig * result unit :=
  tenants_loop (cursor (tenant_meta s)).

Definition DeleteTenantConfig (s : AccessDB) (tenantID : bytes) : AccessDB :=
  mkAccess (acl_bucket s) (delete tenantID (tenant_meta s)).

Fixpoint token_loop (entries : list (bytes * stored TenantConfig)) (authToken : bytes)
    : result bytes :=
  match entries with
  | [] => Err (Errno ENOENT)
  | (k, v) :: rest =>
      match v with
      | Corrupt => token_loop rest authToken
      | Doc cfg => if decide (AuthToken cfg = authToken) then Ok k else token_loop rest authToken
      end
  end.

Definition GetTenantIDByAuthToken (s : AccessDB) (authToken : bytes) : result bytes :=
  match authToken with
  | [] => Err (Errno EINVAL)
  | _ => token_loop (cursor (tenant_meta s)) authToken
  end.

(** * What an authorization means *)

(** The permissions an entry's permission covers: its own, and [admin]. *)
Definition covers (entry perm : bytes) : Prop :=
  (entry = perm ∧ perm ∈ [PermRead; PermWrite; PermAdmin; PermDelete])
  ∨ (perm = PermAdmin ∧ entry ∈ [PermRead; PermWrite; PermDelete]).

Record grants (e : ACLEntry) (tenant perm : bytes) : Prop := {
  gr_tenant : ETenant e = [] ∨ ETenant e = tenant;
  gr_perm : covers (EPermission e) perm;
  gr_effect : Effect e = [] ∨ Effect e = bs "allow"
}.

Definition entries_at (s : AccessDB) (key : bytes) : list ACLEntry :=
  match acl_bucket s !! key with
  | Some (Doc (BucketDoc a)) => BEntries a
  | Some (Doc (ObjectDoc a)) => OEntries a
  | _ => []
  end.

(** The keys consulted for a resource: the object's ACL, then the bucket's. *)
Definition resource_keys (bkt object : bytes) : list bytes :=
  (if decide (object = []) then [] else [objectResourcePrefix ++ bkt ++ [ch_slash] ++ object])
  ++ (if decide (bkt = []) then [] else [bucketResourcePrefix ++ bkt]).

Definition rules (s : AccessDB) (bkt object : bytes) : list ACLEntry :=
  resource_keys bkt object ≫= entries_at s.

Definition acl_intact (s : AccessDB) : Prop := ∀ k v, acl_bucket s !! k = Some v → v ≠ Corrupt.

Lemma perm_match_covers e p : perm_match e p = true ↔ covers e p.
Proof.
  unfold perm_match, covers.
  repeat case_decide; subst; rewrite ?orb_true_iff, ?bool_decide_eq_true;
    rewrite ?elem_of_cons, ?elem_of_nil; naive_solver.
Qed.

Lemma checkACL_grants e t p : checkACL (Some e) t p = true ↔ grants e t p.
Proof.
  unfold checkACL. rewrite <- !bool_decide_not, <- bool_decide_and. case_bool_decide as Ht.
  { split; [done|]. intros [[?|?] _ _]; tauto. }
  destruct (perm_match (EPermission e) p) eqn:Ep; cbn [negb].
  - apply perm_match_covers in Ep. rewrite bool_decide_eq_true. split.
    + intros He. split; [|done|destruct (Effect e); auto]. destruct (decide (ETenant e = [])); [by left|].
      right. apply dec_stable. tauto.
    + intros [_ _ [-> | ->]]; done.
  - split; [done|]. intros [_ Hc _]. apply perm_match_covers in Hc. congruence.
Qed.

Lemma aclAllows_grants es t p : aclAllows es t p = true ↔ ∃ e, e ∈ es ∧ grants e t p.
Proof.
  induction es as [|e es IH]; cbn [aclAllows].
  - split; [done|]. by intros (? & ?%elem_of_nil & _).
  - destruct (checkACL (Some e) t p) eqn:E.
    + apply checkACL_grants in E. split; [|done]. intros _. exists e. split; [left|done].
    + rewrite IH. split; intros (x & Hx & Hg); exists x; split; try done; [by right|].
      apply elem_of_cons in Hx as [-> |Hx]; [|done]. apply checkACL_grants in Hg. congruence.
Qed.

Lemma aclAllows_app a b t p : aclAllows (a ++ b) t p = aclAllows a t p || aclAllows b t p.
Proof. induction a as [|e a IH]; [done|]. cbn [app aclAllows]. by case_match. Qed.

Lemma GetObjectACL_entries s k :
  acl_intact s → k ≠ [] →
  ∃ a, GetObjectACL s k = Ok a ∧ OEntries a = entries_at s (objectResourcePrefix ++ k).
Proof.
  intros Hi Hk. unfold GetObjectACL, entries_at. destruct k as [|c k]; [done|].
  destruct (acl_bucket s !! _) as [[[]|]|] eqn:E; eauto. by apply Hi in E.
Qed.

Lemma GetBucketACL_entries s k :
  acl_intact s → k ≠ [] →
  ∃ a, GetBucketACL s k = Ok a ∧ BEntries a = entries_at s (bucketResourcePrefix ++ k).
Proof.
  intros Hi Hk. unfold GetBucketACL, entries_at. destruct k as [|c k]; [done|].
  destruct (acl_bucket s !! _) as [[[]|]|] eqn:E; eauto. by apply Hi in E.
Qed.

Lemma Authorize_rules s t p r bkt o :
  acl_intact s → t ≠ [] → t ≠ bs "admin" → parseACLResource r = Ok (bkt, o) →
  Authorize s t p r = if aclAllows (rules s bkt o) t p then Ok tt else Err (Errno EACCES).
Proof.
  intros Hi H1 H2 Hp. unfold Authorize. rewrite !decide_False, Hp by done.
  unfold rules, resource_keys. rewrite bind_app, aclAllows_app.
  destruct (decide (o = [])) as [->|Ho].
  - cbn [mbind list_bind aclAllows orb]. destruct (decide (bkt = [])) as [->|Hb]; [done|].
    destruct (GetBucketACL_entries s bkt Hi Hb) as (a & -> & ->). cbn [mbind list_bind].
    by rewrite app_nil_r.
  - destruct (GetObjectACL_entries s (bkt ++ [ch_slash] ++ o) Hi) as (a & -> & ->); [by destruct bkt|].
    cbn [mbind list_bind]. rewrite app_nil_r. case_match; [done|]. cbn [orb].
    destruct (decide (bkt = [])) as [->|Hb]; [done|].
    destruct (GetBucketACL_entries s bkt Hi Hb) as (a' & -> & ->). cbn [mbind list_bind].
    by rewrite app_nil_r.
Qed.

(** ** Guarantees *)

(** C32: authorization decides by allow entries alone.  With every stored ACL readable,
    for a tenant other than the [admin] tenant: a request succeeds exactly when an
    allow entry of the object's or the bucket's own ACL names the tenant (or everyone)
    and covers the permission, whether or not an explicit deny entry matches as well
    (the configuration guide says that deny entries win; [deny_entries_inert] shows
    they have no force); every other well-formed request is refused with EACCES, a
    malformed resource with EINVAL. *)
Theorem Authorize_exact s t p r :
  acl_intact s → t ≠ [] → t ≠ bs "admin" →
  match parseACLResource r with
  | Err e => Authorize s t p r = Err e ∧ e = Errno EINVAL
  | Ok (bkt, o) =>
      (Authorize s t p r = Ok tt ↔ ∃ e, e ∈ rules s bkt o ∧ grants e t p)
      ∧ (Authorize s t p r ≠ Ok tt → Authorize s t p r = Err (Errno EACCES))
  end.
Proof.
  intros Hi H1 H2. destruct (parseACLResource r) as [[bkt o]|e] eqn:Hp.
  - rewrite (Authorize_rules _ _ _ _ _ _ Hi H1 H2 Hp), <- aclAllows_grants.
    case_match; split; try done; by split.
  - unfold Authorize. rewrite !decide_False, Hp by done. split; [done|].
    unfold parseACLResource in Hp. repeat case_match; congruence.
Qed.

(** The part of an ACL that can matter. *)
Definition drop_denies (es : list ACLEntry) : list ACLEntry :=
  filter (λ e, Effect e = [] ∨ Effect e = bs "allow") es.

Definition without_denies (s : AccessDB) : AccessDB :=
  mkAccess
    ((λ v, match v with
           | Doc (BucketDoc a) => Doc (BucketDoc (mkBucketACL (ABucket a) (drop_denies (BEntries a))))
           | Doc (ObjectDoc a) => Doc (ObjectDoc (mkObjectACL (AKey a) (drop_denies (OEntries a))))
           | Corrupt => Corrupt
           end) <$> acl_bucket s)
    (tenant_meta s).

(** A deny entry has no force: removing every entry whose effect is not "allow"
    changes no decision. *)
Theorem deny_entries_inert s t p r :
  acl_intact s → Authorize (without_denies s) t p r = Authorize s t p r.
Proof.
  intros Hi. assert (acl_intact (without_denies s)) as Hi'.
  { intros k v Hv. cbn in Hv. apply lookup_fmap_Some in Hv as (w & <- & Hw). apply Hi in Hw.
    by destruct w as [[]|]. }
  destruct (decide (t = [])) as [->|H1]; [done|]. destruct (decide (t = bs "admin")) as [->|H2]; [done|].
  destruct (parseACLResource r) as [[bkt o]|e] eqn:Hp; cycle 1.
  { unfold Authorize. by rewrite !decide_False, Hp by done. }
  rewrite (Authorize_rules _ _ _ _ _ _ Hi H1 H2 Hp), (Authorize_rules _ _ _ _ _ _ Hi' H1 H2 Hp).
  assert (aclAllows (rules (without_denies s) bkt o) t p = aclAllows (rules s bkt o) t p) as ->; [|done].
  apply eq_bool_prop_intro. rewrite !Is_true_true, !aclAllows_grants. unfold rules.
  assert (∀ k, entries_at (without_denies s) k = drop_denies (entries_at s k)) as He.
  { intros k. unfold entries_at. cbn. rewrite lookup_fmap. by destruct (acl_bucket s !! k) as [[[]|]|]. }
  split; intros (e & (k & He' & Hk)%list_elem_of_bind & Hg); exists e; split; try done;
    apply list_elem_of_bind; exists k; split; try done; rewrite He in *; unfold drop_denies in *;
    rewrite list_elem_of_filter in *; destruct Hg; tauto.
Qed.

(** A grant of any single permission is a grant of [admin]: the entry that lets
    a tenant read also lets it change the bucket's configuration. *)
Theorem read_grants_admin s t bkt e :
  acl_intact s → t ≠ [] → bkt ≠ [] → e ∈ entries_at s (bucketResourcePrefix ++ bkt) →
  grants e t PermRead → Authorize s t PermAdmin (bucketResourcePrefix ++ bkt) = Ok tt.
Proof.
  intros Hi Ht Hb He [H1 H2 H3]. destruct (decide (t = bs "admin")) as [->|Ha]; [done|].
  assert (parseACLResource (bucketResourcePrefix ++ bkt) = Ok (bkt, [])) as Hp.
  { unfold parseACLResource. assert (has_prefix (bucketResourcePrefix ++ bkt) bucketResourcePrefix = true) as ->; done. }
  rewrite (Authorize_rules _ _ _ _ _ _ Hi Ht Ha Hp).
  assert (aclAllows (rules s bkt []) t PermAdmin = true) as ->; [|done].
  apply aclAllows_grants. exists e. split.
  - unfold rules, resource_keys. rewrite (decide_False (P := bkt = [])) by done. apply list_elem_of_bind.
    exists (bucketResourcePrefix ++ bkt). split; [done|]. by apply list_elem_of_singleton.
  - split; [done| |done]. destruct H2 as [[-> _]|[[=] _]]. right. split; [done|left].
Qed.

Lemma Authorize_local s s' t p r bkt o :
  parseACLResource r = Ok (bkt, o) →
  (∀ k, k ∈ resource_keys bkt o → acl_bucket s' !! k = acl_bucket s !! k) →
  Authorize s' t p r = Authorize s t p r.
Proof.
  intros Hp Hk. unfold Authorize. rewrite Hp.
  assert (o ≠ [] → GetObjectACL s' (bkt ++ [ch_slash] ++ o) = GetObjectACL s (bkt ++ [ch_slash] ++ o)) as Ho.
  { intros Ho. unfold GetObjectACL. rewrite (Hk (objectResourcePrefix ++ bkt ++ [ch_slash] ++ o)); [done|].
    unfold resource_keys. rewrite decide_False by done. by left. }
  assert (bkt ≠ [] → GetBucketACL s' bkt = GetBucketACL s bkt) as Hb.
  { intros Hb. unfold GetBucketACL. rewrite (Hk (bucketResourcePrefix ++ bkt)); [done|].
    unfold resource_keys. apply elem_of_app. right. rewrite decide_False by done. by left. }
  destruct (decide (o = [])), (decide (bkt = [])); rewrite ?Ho, ?Hb by done; done.
Qed.

Lemma put_acl_Ok k d s s' :
  put_acl k d s = (Ok tt, s') → acl_bucket s' = <[k := Doc d]> (acl_bucket s).
Proof.
  unfold put_acl. destruct (bput k (Doc d) (acl_bucket s)) as [b|] eqn:E; [|discriminate].
  intros [= <-]. by apply bput_Some in E as [-> _].
Qed.

Lemma resource_keys_spec bkt o k :
  k ∈ resource_keys bkt o →
  (k = objectResourcePrefix ++ bkt ++ [ch_slash] ++ o) ∨ k = bucketResourcePrefix ++ bkt.
Proof. unfold resource_keys. repeat case_decide; set_solver. Qed.

(** Storing an ACL document takes effect on its own resource, whose rules are
    then exactly the entries written, and changes no decision about any resource
    of another bucket (for a bucket ACL) or any other object (for an object ACL). *)
Theorem acl_update_local s s' t p r bkt o :
  parseACLResource r = Ok (bkt, o) →
  (∀ a, PutBucketACL s (Some a) = (Ok tt, s') →
     entries_at s' (bucketResourcePrefix ++ ABucket a) = json_entry <$> BEntries a
     ∧ (ABucket a ≠ bkt → Authorize s' t p r = Authorize s t p r))
  ∧ (∀ a, PutObjectACL s (Some a) = (Ok tt, s') →
     entries_at s' (objectResourcePrefix ++ AKey a) = json_entry <$> OEntries a
     ∧ (AKey a ≠ bkt ++ [ch_slash] ++ o → Authorize s' t p r = Authorize s t p r)).
Proof.
  intros Hp. split; intros [[|c n] es] Hput; try discriminate Hput;
    apply put_acl_Ok in Hput; cbn [ABucket AKey BEntries OEntries];
    (split; [unfold entries_at; by rewrite Hput, lookup_insert_eq|]);
    intros Hne; apply (Authorize_local _ _ _ _ _ _ _ Hp); intros k [-> | ->]%resource_keys_spec;
    rewrite Hput, lookup_insert_ne; try done; intros E; apply Hne; by injection E.
Qed.

(** What the token scan reports of the entries it walked. *)
Definition token_answer (tok : bytes) (l : list (bytes * stored TenantConfig)) (r : result bytes) : Prop :=
  match r with
  | Ok k => (∃ cfg, (k, Doc cfg) ∈ l ∧ AuthToken cfg = tok)
            ∧ ∀ k' cfg, (k', Doc cfg) ∈ l → AuthToken cfg = tok → bytes_ltb k' k = false
  | Err e => e = Errno ENOENT ∧ ∀ k cfg, (k, Doc cfg) ∈ l → AuthToken cfg ≠ tok
  end.

Lemma token_answer_skip tok k v l r :
  (∀ cfg, v = Doc cfg → AuthToken cfg ≠ tok) → token_answer tok l r → token_answer tok ((k, v) :: l) r.
Proof.
  intros Hv. destruct r as [k0|e]; intros [H1 H2]; split; try done.
  - destruct H1 as (cfg & Hin & ?). exists cfg. split; [by right|done].
  - intros k' cfg [[= _ E]|Hin]%elem_of_cons Hc; [by destruct (Hv cfg)|by eapply H2].
  - intros k' cfg [[= _ E]|Hin]%elem_of_cons; [by apply Hv|by eapply H2].
Qed.

Lemma token_loop_spec tok l :
  StronglySorted (λ a b : bytes * stored TenantConfig, bytes_ltb b.1 a.1 = false) l →
  token_answer tok l (token_loop l tok).
Proof.
  induction 1 as [|[k v] l Hs IH Hx]; cbn [token_loop]; [split; [done|by intros ? ? ?%elem_of_nil]|].
  destruct v as [cfg|]; [|by apply token_answer_skip].
  case_decide as Hd; [|apply token_answer_skip; [|done]; by intros ? [= <-]].
  split; [exists cfg; split; [left|done]|]. rewrite Forall_forall in Hx.
  intros k' cfg' [[= -> ->]|Hin]%elem_of_cons _; [apply bytes_ltb_irrefl|by apply (Hx _ Hin)].
Qed.

(** A token resolves to the first tenant, in id order, that carries it, and to
    ENOENT exactly when no tenant does; unreadable documents are skipped. *)
Theorem token_resolves s tok :
  tok ≠ [] →
  match GetTenantIDByAuthToken s tok with
  | Ok k => (∃ cfg, tenant_meta s !! k = Some (Doc cfg) ∧ AuthToken cfg = tok)
            ∧ ∀ k' cfg, tenant_meta s !! k' = Some (Doc cfg) → AuthToken cfg = tok → bytes_ltb k' k = false
  | Err e => e = Errno ENOENT ∧ ∀ k cfg, tenant_meta s !! k = Some (Doc cfg) → AuthToken cfg ≠ tok
  end.
Proof.
  intros Ht. unfold GetTenantIDByAuthToken. destruct tok as [|c tok]; [done|]. set (tk := c :: tok).
  pose proof (token_loop_spec (c :: tok)) as H. fold tk in H.
  specialize (H _ (cursor_sorted (tenant_meta s))).
  destruct (token_loop _ tk); destruct H as [H1 H2]; (split; [|intros ? ? Hk; by eapply H2, elem_of_cursor]).
  - destruct H1 as (cfg & Hin%elem_of_cursor & ?). eauto.
  - done.
Qed.

(** ** Witnesses *)
Definition ac0 : AccessDB := mkAccess ∅ ∅.
Definition ac_entry : ACLEntry := mkACL (bs "t1") PermRead [].
Definition ac1 : AccessDB := (PutBucketACL ac0 (Some (mkBucketACL (bs "b1") [ac_entry]))).2.
Definition ac_tenant : TenantConfig := mkTenant (bs "t1") [] (bs "tok") 0 0 false.
Definition ac2 : AccessDB := (PutTenantConfig ac1 ac_tenant).2.

Lemma ac1_intact : acl_intact ac1.
Proof.
  intros k v Hv. unfold ac1 in Hv. vm_compute in Hv.
  change (({[ bs "bucket/b1" := Doc (BucketDoc (mkBucketACL (bs "b1") [ac_entry])) ]} : bucket (stored acl_doc)) !! k = Some v) in Hv.
  apply lookup_singleton_Some in Hv as [_ <-]. done.
Qed.

Lemma Authorize_exact_witness :
  (Authorize ac1 (bs "t1") PermRead (bs "object/b1/k") = Ok tt
     ↔ ∃ e, e ∈ rules ac1 (bs "b1") (bs "k") ∧ grants e (bs "t1") PermRead)
  ∧ Authorize ac1 (bs "t1") PermWrite (bs "object/b1/k") = Err (Errno EACCES).
Proof.
  split.
  - apply (Authorize_exact ac1 (bs "t1") PermRead (bs "object/b1/k") ac1_intact); done.
  - apply (Authorize_exact ac1 (bs "t1") PermWrite (bs "object/b1/k") ac1_intact); done.
Defined.

Lemma acl_update_local_witness :
  entries_at ac1 (bs "bucket/b1") = [ac_entry]
  ∧ Authorize ac1 (bs "t1") PermRead (bs "bucket/b2") = Authorize ac0 (bs "t1") PermRead (bs "bucket/b2").
Proof.
  destruct (acl_update_local ac0 ac1 (bs "t1") PermRead (bs "bucket/b2") (bs "b2") [] eq_refl) as [H _].
  destruct (H (mkBucketACL (bs "b1") [ac_entry])) as [H1 H2]; [by vm_compute|].
  split; [exact H1|apply H2; done].
Defined.

(** The token of a disabled tenant still resolves. *)
Lemma token_resolves_witness :
  GetTenantIDByAuthToken ac2 (bs "tok") = Ok (bs "t1")
  ∧ ∃ cfg, tenant_meta ac2 !! bs "t1" = Some (Doc cfg) ∧ AuthToken cfg = bs "tok".
Proof.
  assert (GetTenantIDByAuthToken ac2 (bs "tok") = Ok (bs "t1")) as E by (vm_compute; reflexivity).
  split; [exact E|]. pose proof (token_resolves ac2 (bs "tok")) as H. rewrite E in H. apply H. done.
Defined.
