(* ===== verification/Crush.v ===== *)
(** * Replica placement (src/src/common/crush.go)

    Weighted rendezvous hashing with a failure-domain pass.  The SHA-256 fold
    into a 52-bit mantissa is computed; the final score is the parameter
    [scoreBits weight mant], the order key of the float64
    [-weight / math.Log(mant / 2^52)] (for a non-negative float64, its bit
    pattern). *)
From S2P Require Import Prelude Hashes.
Open Scope Z_scope.

(** A node, with the address that identifies the [*Node]. *)
Record Node := mkNode { ptr : nat; ID : Z; Weight : Z; Addr : bytes; Domain : bytes }.

#[export] Instance Node_eq_dec : EqDecision Node.
Proof. solve_decision. Defined.

(** Little-endian words. *)
Fixpoint put_le (n : nat) (z : Z) : bytes :=
  match n with O => [] | S n => z2b z :: put_le n (z / 256) end.
Definition get_le32 (b : bytes) : Z := get_be (rev (take 4 b)).

(** The 52-bit mantissa of [hashToScoreValue]. *)
Definition hashToScoreValue (sum : bytes) : Z :=
  let hi := get_le32 (take 4 sum) in
  let lo := get_le32 (drop 28 sum) in
  Z.lor (Z.shiftl hi 20) (Z.land lo (Z.shiftl 1 20 - 1)).

Section Crush.
Variable scoreBits : Z → Z → Z.

Definition node_score (objectHash : bytes) (node : Node) : Z :=
  let mant := hashToScoreValue (sha256 (objectHash ++ put_le 8 (uint64 (ID node)))) in
  if (0 <? mant) && (mant <? 2 ^ 52) && (0 <? Weight node) then scoreBits (Weight node) mant else 0.

(** Nil entries and nodes without positive weight are never used. *)
Definition eligible_nodes (nodes : list (option Node)) : list Node :=
  filter (λ n, 0 < Weight n) (omap id nodes).

Definition domains_configured (eligible : list Node) : bool :=
  existsb (λ n, negb (bool_decide (Domain n = []))) eligible.

(** The comparison of the stable sort: by score, descending. *)
Definition higher (objectHash : bytes) (a b : Node) : bool :=
  node_score objectHash b <? node_score objectHash a.

Definition ranked (objectHash : bytes) (eligible : list Node) : list Node :=
  stable_sort (higher objectHash) eligible.

(** First pass: the best node of each failure domain, up to [rf] nodes. *)
Fixpoint spread_pass (rf : nat) (scores : list Node) (used : list bytes) (result : list Node) : list Node :=
  match scores with
  | [] => result
  | n :: rest =>
      if decide (length result = rf) then result
      else if decide (Domain n ∈ used) then spread_pass rf rest used result
      else spread_pass rf rest (Domain n :: used) (result ++ [n])
  end.

(** Second pass: fill up by score, sharing domains. *)
Fixpoint fill_pass (rf : nat) (scores : list Node) (selected : list nat) (result : list Node) : list Node :=
  match scores with
  | [] => result
  | n :: rest =>
      if decide (length result = rf) then result
      else if decide (ptr n ∈ selected) then fill_pass rf rest selected result
      else fill_pass rf rest (ptr n :: selected) (result ++ [n])
  end.

Definition select_nodes (rf : nat) (domains : bool) (scores : list Node) : list Node :=
  if negb domains then take rf scores
  else
    let result := spread_pass rf scores [] [] in
    if (length result <? rf)%nat then fill_pass rf scores (ptr <$> result) result else result.

Definition Placement (nodes : list (option Node)) (objectHash : bytes) (replicationFactor : Z)
    : result (list Node) :=
  if decide (nodes = []) then Err (Errno EINVAL)
  else if replicationFactor <=? 0 then Err (Errno EINVAL)
  else if decide (objectHash = []) then Err (Errno EINVAL)
  else
    let eligible := eligible_nodes nodes in
    match eligible with
    | [] => Err (Errno EINVAL)
    | _ =>
        let rf := Nat.min (Z.to_nat replicationFactor) (length eligible) in
        Ok (select_nodes rf (domains_configured eligible) (ranked objectHash eligible))
    end.

(** ** Lemmas *)
#[export] Instance higher_strict h : StrictWeak (higher h).
Proof.
  unfold higher. split.
  - intros x y Hx. zbool. apply Z.ltb_ge. lia.
  - intros x y z H1 H2. zbool. apply Z.ltb_ge. lia.
Qed.

Lemma ranked_perm h l : ranked h l ≡ₚ l.
Proof. apply stable_sort_perm. Qed.

(** Both passes are one loop: they walk the ranking and append each node whose
    key was not seen, up to [rf] nodes. *)
Section Pass.
Context {K : Type} `{EqDecision K} (key : Node → K).

Fixpoint key_pass (rf : nat) (scores : list Node) (seen : list K) (result : list Node) : list Node :=
  match scores with
  | [] => result
  | n :: rest =>
      if decide (length result = rf) then result
      else if decide (key n ∈ seen) then key_pass rf rest seen result
      else key_pass rf rest (key n :: seen) (result ++ [n])
  end.

Lemma key_pass_prefix rf l seen res : ∃ t, key_pass rf l seen res = res ++ t ∧ t `sublist_of` l.
Proof.
  revert seen res. induction l as [|n l IH]; intros seen res; cbn [key_pass].
  - exists []. by rewrite app_nil_r.
  - case_decide; [exists []; rewrite app_nil_r; split; [done|apply sublist_nil_l]|]. case_decide.
    + destruct (IH seen res) as (t & -> & Ht). exists t. split; [done|]. by constructor.
    + destruct (IH (key n :: seen) (res ++ [n])) as (t & -> & Ht). exists (n :: t).
      rewrite <- app_assoc. split; [done|]. by constructor.
Qed.

Lemma key_pass_length rf l seen res :
  (length res <= rf)%nat → (length (key_pass rf l seen res) <= rf)%nat.
Proof.
  revert seen res. induction l as [|n l IH]; intros seen res Hr; cbn [key_pass]; [done|].
  case_decide; [done|]. case_decide; [by apply IH|]. apply IH. rewrite length_app. cbn [length]. lia.
Qed.

(** Dropping nodes the pass does not choose does not change what it chooses. *)
Lemma key_pass_filter (P : Node → Prop) `{∀ n, Decision (P n)} rf l seen res :
  Forall P (key_pass rf l seen res) →
  key_pass rf (filter P l) seen res = key_pass rf l seen res.
Proof.
  revert seen res. induction l as [|n l IH]; intros seen res; [done|]. cbn [key_pass].
  case_decide as Hl.
  - intros _. destruct (filter P (n :: l)); [done|]. cbn [key_pass]. by rewrite decide_True.
  - case_decide as Hs.
    + intros Hf. destruct (decide (P n)).
      * rewrite filter_cons_True by done. cbn [key_pass]. rewrite decide_False, decide_True by done. by apply IH.
      * rewrite filter_cons_False by done. by apply IH.
    + intros Hf. assert (P n) as HP.
      { destruct (key_pass_prefix rf l (key n :: seen) (res ++ [n])) as (t & Et & _).
        rewrite Et in Hf. rewrite Forall_app, Forall_app, Forall_singleton in Hf. tauto. }
      rewrite filter_cons_True by done. cbn [key_pass]. rewrite decide_False, decide_False by done. by apply IH.
Qed.

(** The chosen keys are new and distinct; unless the result is full every key of
    the ranking was seen. *)
Lemma key_pass_keys rf l seen res :
  NoDup seen →
  ∃ t, key_pass rf l seen res = res ++ t ∧ NoDup (key <$> t) ∧ (∀ n, n ∈ t → key n ∉ seen)
  ∧ ((length (res ++ t) = rf) ∨ ∀ n, n ∈ l → key n ∈ seen ∨ key n ∈ key <$> t).
Proof.
  revert seen res. induction l as [|n l IH]; intros seen res Hs; cbn [key_pass].
  - exists []. rewrite app_nil_r. split_and!; try done; [constructor|set_solver|right; set_solver].
  - case_decide as Hl.
    { exists []. rewrite app_nil_r. split_and!; try done; [constructor|set_solver|by left]. }
    case_decide as Hn.
    + destruct (IH seen res Hs) as (t & -> & H1 & H2 & H3). exists t. split_and!; try done.
      destruct H3 as [?|H3]; [by left|right]. intros x [->|Hx]%elem_of_cons; [by left|by apply H3].
    + destruct (IH (key n :: seen) (res ++ [n])) as (t & -> & H1 & H2 & H3); [by constructor|].
      exists (n :: t). rewrite <- app_assoc in *. cbn [app] in *. split_and!.
      * done.
      * cbn [fmap list_fmap]. constructor; [|done]. intros (x & Ex & Hx)%list_elem_of_fmap.
        apply (H2 x Hx). rewrite <- Ex. by left.
      * intros x [->|Hx]%elem_of_cons; [done|]. specialize (H2 x Hx). set_solver.
      * destruct H3 as [?|H3]; [by left|right]. intros x Hx. cbn [fmap list_fmap].
        apply elem_of_cons in Hx as [->|Hx]; [right; by left|].
        destruct (H3 x Hx) as [[->|?]%elem_of_cons|?]; [right; by left|by left|right; by right].
Qed.
End Pass.

Lemma spread_pass_key rf l used res : spread_pass rf l used res = key_pass Domain rf l used res.
Proof. revert used res. induction l as [|n l IH]; intros; cbn; [done|]. repeat case_decide; auto. Qed.

Lemma fill_pass_key rf l sel res : fill_pass rf l sel res = key_pass ptr rf l sel res.
Proof. revert sel res. induction l as [|n l IH]; intros; cbn; [done|]. repeat case_decide; auto. Qed.

Lemma take_filter (P : Node → Prop) `{∀ n, Decision (P n)} k l :
  Forall P (take k l) → take k (filter P l) = take k l.
Proof.
  revert k. induction l as [|n l IH]; intros k; [done|]. destruct k as [|k]; [done|].
  cbn [take]. intros [Hn Hf]%Forall_cons. rewrite filter_cons_True by done. cbn [take]. by rewrite IH.
Qed.

Lemma select_filter (P : Node → Prop) `{∀ n, Decision (P n)} rf d l :
  Forall P (select_nodes rf d l) → select_nodes rf d (filter P l) = select_nodes rf d l.
Proof.
  unfold select_nodes. destruct d; cbn [negb]; [|apply take_filter].
  cbn zeta. rewrite (spread_pass_key rf l), (spread_pass_key rf (filter P l)).
  set (r1 := key_pass Domain rf l [] []).
  assert (Forall P r1 → key_pass Domain rf (filter P l) [] [] = r1) as H1 by apply key_pass_filter.
  destruct (length r1 <? rf)%nat eqn:E.
  - rewrite (fill_pass_key rf l). intros Hf.
    assert (Forall P r1) as Hf1.
    { destruct (key_pass_prefix ptr rf l (ptr <$> r1) r1) as (t & Et & _). rewrite Et in Hf.
      by apply Forall_app in Hf as []. }
    rewrite H1, E, fill_pass_key by done. by apply key_pass_filter.
  - intros Hf. by rewrite H1, E.
Qed.

Lemma nodup_sublist_fmap {K} (f : Node → K) t l : t `sublist_of` l → NoDup (f <$> l) → NoDup (f <$> t).
Proof.
  intros Hs. induction Hs as [|x t l Hs IH|x t l Hs IH]; intros Hn; [constructor| |].
  - cbn [fmap list_fmap] in *. apply NoDup_cons in Hn as [Hx Hn]. constructor; [|by apply IH].
    intros (y & Exy & Hy)%list_elem_of_fmap. apply Hx. rewrite Exy. apply list_elem_of_fmap_2.
    by eapply elem_of_sublist.
  - apply NoDup_cons in Hn as [_ Hn]. by apply IH.
Qed.

(** The chosen nodes: as many as asked for, pairwise different, from the ranking. *)
Lemma select_spec rf d l :
  NoDup (ptr <$> l) → (rf <= length l)%nat →
  length (select_nodes rf d l) = rf ∧ NoDup (ptr <$> select_nodes rf d l)
  ∧ (∀ n, n ∈ select_nodes rf d l → n ∈ l).
Proof.
  intros Hn Hr. unfold select_nodes. destruct d; cbn [negb].
  2: { split_and!; [by rewrite length_take, Nat.min_l| |].
       - eapply nodup_sublist_fmap; [apply sublist_take|done].
       - intros n Hin. apply elem_of_take in Hin as (i & Hi & _). by apply list_elem_of_lookup_2 in Hi. }
  rewrite spread_pass_key, fill_pass_key.
  destruct (key_pass_prefix Domain rf l [] []) as (r1 & E1 & Hs1). rewrite E1. cbn [app].
  pose proof (key_pass_length Domain rf l [] [] ltac:(cbn; lia)) as Hl1. rewrite E1 in Hl1. cbn [app] in Hl1.
  pose proof (nodup_sublist_fmap ptr _ _ Hs1 Hn) as Hn1.
  destruct (length r1 <? rf)%nat eqn:E; zbool.
  2: { split_and!; [lia|done|]. intros n Hin. by eapply elem_of_sublist. }
  destruct (key_pass_keys ptr rf l (ptr <$> r1) r1 Hn1) as (t & Et & Ht & Hnew & Hall).
  destruct (key_pass_prefix ptr rf l (ptr <$> r1) r1) as (t' & Et' & Hst). rewrite Et in Et'.
  apply app_inv_head in Et' as <-.
  pose proof (key_pass_length ptr rf l (ptr <$> r1) r1 Hl1) as Hlt. rewrite Et in *.
  assert (NoDup (ptr <$> r1 ++ t)) as Hnd.
  { rewrite fmap_app. apply NoDup_app. split_and!; [done| |done].
    intros x Hx (n & -> & Hin)%list_elem_of_fmap. by apply (Hnew n Hin). }
  split_and!; [|done|].
  - destruct Hall as [?|Hall]; [done|].
    assert (length (ptr <$> l) <= length (ptr <$> r1 ++ t))%nat as Hle.
    { apply submseteq_length, NoDup_submseteq; [done|]. intros x (n & -> & Hin)%list_elem_of_fmap.
      rewrite fmap_app. apply elem_of_app. by apply Hall. }
    rewrite !length_fmap in Hle. lia.
  - intros n [Hin|Hin]%elem_of_app; by eapply elem_of_sublist.
Qed.

(** The failure domains of a list of nodes. *)
Definition domains (l : list Node) : gset bytes := list_to_set (Domain <$> l).

Lemma domains_nodup l : NoDup (Domain <$> l) → size (domains l) = length l.
Proof. intros Hn. unfold domains. rewrite size_list_to_set by done. apply length_fmap. Qed.

Lemma select_spread rf l :
  size (domains (select_nodes rf true l)) = Nat.min rf (size (domains l)).
Proof.
  unfold select_nodes. cbn [negb]. rewrite spread_pass_key, fill_pass_key.
  destruct (key_pass_keys Domain rf l [] [] (NoDup_nil_2)) as (r1 & E1 & Hn1 & _ & Hall).
  destruct (key_pass_prefix Domain rf l [] []) as (r1' & E1' & Hs1). rewrite E1 in E1'. cbn [app] in *. subst r1'.
  rewrite E1. pose proof (key_pass_length Domain rf l [] [] ltac:(cbn; lia)) as Hl1. rewrite E1 in Hl1.
  pose proof (domains_nodup r1 Hn1) as Hd1.
  assert (domains r1 ⊆ domains l) as Hsub.
  { unfold domains. intros x. rewrite !elem_of_list_to_set, !list_elem_of_fmap.
    intros (n & -> & Hin). exists n. split; [done|]. by eapply elem_of_sublist. }
  pose proof (subseteq_size _ _ Hsub) as Hle.
  destruct Hall as [Hfull|Hall].
  - rewrite (proj2 (Nat.ltb_ge _ _)) by lia. lia.
  - assert (∀ t, (∀ n, n ∈ t → n ∈ l) → domains (r1 ++ t) = domains l) as Heq.
    { intros t Ht. apply leibniz_equiv. unfold domains. intros x.
      rewrite !elem_of_list_to_set, fmap_app, elem_of_app, !list_elem_of_fmap. split.
      - intros [(n & -> & Hin)|(n & -> & Hin)]; exists n; (split; [done|]); [by eapply elem_of_sublist|auto].
      - intros (n & -> & Hin). destruct (Hall n Hin) as [Hx|Hx]; [by apply not_elem_of_nil in Hx|].
        left. by apply list_elem_of_fmap in Hx. }
    assert (domains r1 = domains l) as Hdl by (rewrite <- (app_nil_r r1); apply Heq; set_solver).
    assert (size (domains l) = length r1) as Hsz by (by rewrite <- Hdl).
    cbn [app length] in Hl1. destruct (length r1 <? rf)%nat; [|lia].
    destruct (key_pass_prefix ptr rf l (ptr <$> r1) r1) as (t & -> & Ht).
    rewrite Heq by (intros n Hin; by eapply elem_of_sublist). lia.
Qed.

Lemma eligible_elem nodes n : n ∈ eligible_nodes nodes ↔ Some n ∈ nodes ∧ 0 < Weight n.
Proof.
  unfold eligible_nodes. rewrite list_elem_of_filter, list_elem_of_omap. split.
  - intros [? (o & Hin & Ho)]. split; [|done]. unfold id in Ho. by subst o.
  - intros [Hin ?]. split; [done|]. by exists (Some n).
Qed.
End Crush.

(** ** Properties *)

(** The nodes of a cluster map are distinct objects. *)
Definition distinct_nodes (nodes : list (option Node)) : Prop := NoDup (ptr <$> omap id nodes).

Lemma eligible_distinct nodes : distinct_nodes nodes → NoDup (ptr <$> eligible_nodes nodes).
Proof. apply NoDup_map_filter. Qed.

Lemma Placement_Ok scoreBits nodes h r l :
  Placement scoreBits nodes h r = Ok l →
  let e := eligible_nodes nodes in
  0 < r ∧ e ≠ [] ∧
  l = select_nodes (Nat.min (Z.to_nat r) (length e)) (domains_configured e) (ranked scoreBits h e).
Proof.
  unfold Placement. case_decide; [discriminate|]. destruct (r <=? 0) eqn:Er; [discriminate|].
  case_decide; [discriminate|]. zbool. cbn zeta.
  destruct (eligible_nodes nodes) eqn:E; [discriminate|]. by intros [= <-].
Qed.

(** Placement always succeeds on a usable map and picks exactly
    min(replicas, eligible) different nodes, all of them members of the map with
    positive weight: a decommissioned node never receives data. *)
Theorem Placement_valid scoreBits nodes h r :
  distinct_nodes nodes → h ≠ [] → 0 < r → eligible_nodes nodes ≠ [] →
  ∃ l, Placement scoreBits nodes h r = Ok l
  ∧ length l = Nat.min (Z.to_nat r) (length (eligible_nodes nodes))
  ∧ NoDup (ptr <$> l) ∧ ∀ n, n ∈ l → Some n ∈ nodes ∧ 0 < Weight n.
Proof.
  intros Hd Hh Hr He.
  exists (select_nodes (Nat.min (Z.to_nat r) (length (eligible_nodes nodes)))
            (domains_configured (eligible_nodes nodes)) (ranked scoreBits h (eligible_nodes nodes))). split.
  { unfold Placement. rewrite decide_False by (intros ->; done).
    rewrite (proj2 (Z.leb_gt _ _)), decide_False by done.
    by destruct (eligible_nodes nodes). }
  set (e := eligible_nodes nodes) in *. set (rf := Nat.min _ _).
  assert (Permutation (ranked scoreBits h e) e) as Hp by apply ranked_perm.
  destruct (select_spec rf (domains_configured e) (ranked scoreBits h e)) as (H1 & H2 & H3).
  - rewrite Hp. by apply eligible_distinct.
  - rewrite Hp. lia.
  - split_and!; try done. intros n Hn%H3. rewrite Hp in Hn. by apply eligible_elem.
Qed.

(** Replicas are spread over as many failure domains as possible: the chosen
    nodes cover min(replicas, domains) distinct domains. *)
Theorem Placement_spread scoreBits nodes h r l :
  distinct_nodes nodes → Placement scoreBits nodes h r = Ok l →
  size (domains l) = Nat.min (length l) (size (domains (eligible_nodes nodes))).
Proof.
  intros Hd Hp. apply Placement_Ok in Hp as (Hr & He & ->). set (e := eligible_nodes nodes) in *.
  set (rf := Nat.min _ _). assert (Permutation (ranked scoreBits h e) e) as Hperm by apply ranked_perm.
  assert (0 < length e)%nat as Hpos by (destruct e; [done|cbn; lia]).
  assert (0 < rf <= length e)%nat as Hrf by (unfold rf; lia).
  destruct (select_spec rf (domains_configured e) (ranked scoreBits h e)) as (H1 & _ & H3);
    [rewrite Hperm; by apply eligible_distinct|rewrite Hperm; lia|].
  rewrite H1. assert (domains (ranked scoreBits h e) = domains e) as Hde.
  { unfold domains. apply leibniz_equiv. intros x. rewrite !elem_of_list_to_set. by rewrite Hperm. }
  destruct (domains_configured e) eqn:Ed; [rewrite select_spread; by rewrite Hde|].
  assert (∀ n, n ∈ e → Domain n = []) as Hun.
  { intros n Hn. destruct (decide (Domain n = [])) as [|Hne]; [done|]. exfalso.
    assert (domains_configured e = true) as Ht; [|congruence].
    apply existsb_exists. exists n. split; [by apply list_elem_of_In|]. by rewrite bool_decide_eq_false_2. }
  assert (∀ k : list Node, k ≠ [] → (∀ n, n ∈ k → Domain n = []) → domains k = {[ [] ]}) as Hone.
  { intros k Hk Hall. apply leibniz_equiv. intros x. unfold domains.
    rewrite elem_of_list_to_set, elem_of_singleton, list_elem_of_fmap. split.
    - intros (n & -> & Hn). by apply Hall.
    - intros ->. destruct k as [|n k]; [done|]. exists n. split; [symmetry; apply Hall; by left|by left]. }
  rewrite (Hone e), Hone, !size_singleton; [lia|..].
  - intros E. apply (f_equal length) in E. rewrite H1 in E. cbn in E. lia.
  - intros n Hn. apply Hun. apply H3 in Hn. by rewrite Hperm in Hn.
  - done.
  - done.
Qed.

(** C39: minimal data movement: taking nodes out of the map that an object was not
    placed on, or lowering their weight to zero, leaves the object's placement
    exactly as it was (for nodes with distinct ids, as long as some node still
    carries a failure domain if one did before). *)
Theorem Placement_minimal_movement scoreBits nodes nodes' h r l (P : Node → Prop) `{∀ n, Decision (P n)} :
  distinct_nodes nodes → Placement scoreBits nodes h r = Ok l →
  Forall P l → eligible_nodes nodes' = filter P (eligible_nodes nodes) →
  domains_configured (eligible_nodes nodes') = domains_configured (eligible_nodes nodes) → nodes' ≠ [] →
  Placement scoreBits nodes' h r = Ok l.
Proof.
  intros Hd Hp Hf He Hc Hne. pose proof Hp as Hp0.
  apply Placement_Ok in Hp as (Hr & Hen & Hl). set (e := eligible_nodes nodes) in *.
  set (rf := Nat.min _ _) in *. assert (Permutation (ranked scoreBits h e) e) as Hperm by apply ranked_perm.
  destruct (select_spec rf (domains_configured e) (ranked scoreBits h e)) as (H1 & H2 & H3);
    [rewrite Hperm; by apply eligible_distinct|rewrite Hperm; unfold rf; lia|]. rewrite <- Hl in *.
  assert (∀ n, n ∈ l → n ∈ filter P e) as Hin.
  { intros n Hn. apply list_elem_of_filter. rewrite Forall_forall in Hf. split; [by apply Hf|].
    apply H3 in Hn. by rewrite Hperm in Hn. }
  assert (length l <= length (filter P e))%nat as Hlen.
  { apply submseteq_length, NoDup_submseteq; [|done]. by eapply NoDup_fmap_1. }
  assert (length (filter P e) <= length e)%nat as Hle by apply length_filter.
  assert (0 < length e)%nat as Hpos by (destruct e; [done|cbn; lia]).
  assert (Nat.min (Z.to_nat r) (length (filter P e)) = rf) as Hrf by (unfold rf in *; lia).
  unfold Placement in *. rewrite decide_False by done. case_decide; [discriminate|].
  destruct (r <=? 0); [discriminate|]. case_decide; [discriminate|]. cbn zeta. rewrite He in Hc |- *. rewrite Hc.
  rewrite Hrf. destruct (filter P e) as [|x k] eqn:Ek; [cbn in Hlen; lia|]. rewrite <- Ek.
  f_equal. unfold ranked. rewrite stable_sort_filter by apply _.
  fold (ranked scoreBits h e). rewrite select_filter; [done|]. by rewrite <- Hl.
Qed.

(** ** Witnesses *)
Definition cn1 : Node := mkNode 1 1 10 (bs "a:1") (bs "rack1").
Definition cn2 : Node := mkNode 2 2 10 (bs "b:1") (bs "rack1").
Definition cn3 : Node := mkNode 3 3 20 (bs "c:1") (bs "rack2").
Definition cn4 : Node := mkNode 4 4 0 (bs "d:1") (bs "rack3").
Definition cmap : list (option Node) := [Some cn1; Some cn2; None; Some cn3; Some cn4].
Definition cscore (w m : Z) : Z := w * m.

Lemma cmap_distinct : distinct_nodes cmap.
Proof. apply (bool_decide_unpack _). vm_compute. done. Qed.

Lemma Placement_valid_witness :
  ∃ l, Placement cscore cmap (bs "obj") 2 = Ok l
  ∧ length l = Nat.min (Z.to_nat 2) (length (eligible_nodes cmap))
  ∧ NoDup (ptr <$> l) ∧ ∀ n, n ∈ l → Some n ∈ cmap ∧ 0 < Weight n.
Proof. apply (Placement_valid cscore cmap (bs "obj") 2); [apply cmap_distinct|done|lia|done]. Defined.

Definition cplaced : list Node :=
  match Placement cscore cmap (bs "obj") 2 with Ok l => l | Err _ => [] end.

Lemma cplaced_ok : Placement cscore cmap (bs "obj") 2 = Ok cplaced.
Proof. vm_compute. reflexivity. Qed.

Lemma Placement_spread_witness :
  size (domains cplaced) = Nat.min (length cplaced) (size (domains (eligible_nodes cmap))).
Proof. apply (Placement_spread cscore cmap (bs "obj") 2); [apply cmap_distinct|apply cplaced_ok]. Defined.

Lemma Placement_minimal_movement_witness : ∃ nodes', nodes' ≠ cmap ∧ Placement cscore nodes' (bs "obj") 2 = Ok cplaced.
Proof.
  exists (Some <$> filter (λ n, n ∈ cplaced) (eligible_nodes cmap)). split; [vm_compute; discriminate|].
  apply (Placement_minimal_movement cscore cmap _ (bs "obj") 2 cplaced (λ n, n ∈ cplaced));
    [apply cmap_distinct|apply cplaced_ok|by apply Forall_forall|vm_compute; reflexivity..|vm_compute; discriminate].
Defined.
