(* ===== verification/Ring.v ===== *)
(** * The metadata ring (src/src/p2p/metadata_ring.go)

    Consistent hashing of metadata shards onto nodes with CRC-32C.  [None] is a
    panic (indexing an empty vnode list).  [sort.Slice] is modelled by the stable
    sort: the two differ only in the order of vnodes with equal hashes. *)
From S2P Require Import Prelude Hashes.
Open Scope Z_scope.

Definition MetadataShards : nat := 256.
Definition MetadataVNodes : nat := 150.

Record vnodeEntry := mkVNode { vhash : Z; vnodeID : Z }.

Record Ring := mkRing {
  shards : list Z;
  vnodes : list vnodeEntry;
  nodeIDs : gset Z;
  replicaM : Z
}.

Definition vnode_of (id : Z) (v : nat) : vnodeEntry :=
  mkVNode (crc32c (put_be 4 (uint32 id) ++ put_be 2 (Z.of_nat v))) id.

Definition vnode_less (a b : vnodeEntry) : bool := vhash a <? vhash b.

(** [sort.Search] over the sorted vnodes: the first index satisfying the test. *)
Fixpoint search {A} (f : A → bool) (l : list A) : nat :=
  match l with
  | [] => O
  | x :: l' => if f x then O else S (search f l')
  end.

(** The vnode [sort.Search] finds, wrapping to the first; with its index. *)
Definition next_vnode (f : vnodeEntry → bool) (vs : list vnodeEntry) : option (nat * vnodeEntry) :=
  let idx := search f vs in
  let idx := if decide (idx = length vs) then O else idx in
  match vs !! idx with Some e => Some (idx, e) | None => None end.

Definition build_vnodes (ids : list Z) : list vnodeEntry :=
  stable_sort vnode_less (id ← ids; vnode_of id <$> seq 0 MetadataVNodes).

Definition shard_owner (vs : list vnodeEntry) (s : nat) : option Z :=
  match next_vnode (λ e, Z.of_nat s <=? vhash e) vs with
  | Some (_, e) => Some (vnodeID e)
  | None => None
  end.

(** [rebuild]; also the body of [UpdateNodes]. *)
Definition rebuild (ids : list Z) (m : Z) : option Ring :=
  let vs := build_vnodes ids in
  match mapM (shard_owner vs) (seq 0 MetadataShards) with
  | Some owners => Some (mkRing owners vs (list_to_set ids) m)
  | None => None
  end.

Definition NewRing (ids : list Z) (m : Z) : option Ring := rebuild ids m.
Definition UpdateNodes (r : Ring) (ids : list Z) : option Ring := rebuild ids (replicaM r).

Definition Lookup (r : Ring) (key : bytes) : option Z :=
  shards r !! Z.to_nat (crc32c key mod 256).

(** The walk of [Replicas]; [None] when the fuel runs out. *)
Fixpoint replicas_loop (fuel : nat) (r : Ring) (M : Z) (vnodeHash : Z) (replicas : list Z) : option (list Z) :=
  match fuel with
  | O => None
  | S fuel =>
      if (Z.of_nat (length replicas) <? M) && (length replicas <? size (nodeIDs r))%nat then
        match next_vnode (λ e, vnodeHash <? vhash e) (vnodes r) with
        | None => None
        | Some (idx, e) =>
            let replicas := if decide (vnodeID e ∈ replicas) then replicas else replicas ++ [vnodeID e] in
            if decide (idx = O) then Some replicas     (* full circle *)
            else replicas_loop fuel r M (vhash e) replicas
        end
      else Some replicas
  end.

Definition Replicas (r : Ring) (key : bytes) (M : Z) : option (list Z) :=
  match Lookup r key with
  | None => None
  | Some owner =>
      if M <=? 1 then Some [owner]
      else replicas_loop (S (S (length (vnodes r)))) r M (crc32c key) [owner]
  end.

(** [string(rune(h % MetadataShards))]: the UTF-8 encoding of a code point below 256. *)
Definition ShardKey (name : bytes) : bytes :=
  let c := crc32c name mod 256 in
  if c <? 128 then [z2b c] else [z2b (192 + c / 64); z2b (128 + c mod 64)].

Definition NodeCount (r : Ring) : nat := size (nodeIDs r).

(** ** Lemmas *)
#[export] Instance vnode_less_strict : StrictWeak vnode_less.
Proof.
  unfold vnode_less. split.
  - intros x y H. zbool. apply Z.ltb_ge. lia.
  - intros x y z H1 H2. zbool. apply Z.ltb_ge. lia.
Qed.

Lemma search_length {A} (f : A → bool) l : (search f l <= length l)%nat.
Proof. induction l as [|x l IH]; cbn; [done|]. destruct (f x); lia. Qed.

Lemma search_found {A} (f : A → bool) l x : l !! search f l = Some x → f x = true.
Proof. induction l as [|y l IH]; cbn [search]; [done|]. destruct (f y) eqn:E; [by intros [= <-]|done]. Qed.

Lemma search_none {A} (f : A → bool) l : search f l = length l → Forall (λ x, f x = false) l.
Proof.
  induction l as [|x l IH]; cbn [search length]; [constructor|].
  destruct (f x) eqn:E; [discriminate|]. intros [= H]. constructor; auto.
Qed.

Lemma next_vnode_some f vs : vs ≠ [] → ∃ i e, next_vnode f vs = Some (i, e) ∧ e ∈ vs ∧ (i ≠ O → f e = true).
Proof.
  intros Hne. unfold next_vnode. pose proof (search_length f vs) as Hl. case_decide as E.
  - destruct vs as [|e vs]; [done|]. exists O, e. split_and!; [done|by left|done].
  - destruct (vs !! search f vs) as [e|] eqn:Ee.
    + exists (search f vs), e. split_and!; [done|by eapply list_elem_of_lookup_2|].
      intros _. by eapply search_found.
    + apply lookup_ge_None in Ee. lia.
Qed.

Lemma build_vnodes_elem ids e :
  e ∈ build_vnodes ids ↔ ∃ id v, id ∈ ids ∧ (v < MetadataVNodes)%nat ∧ e = vnode_of id v.
Proof.
  unfold build_vnodes. rewrite stable_sort_perm, list_elem_of_bind. split.
  - intros (id & (v & -> & Hv%elem_of_seq)%list_elem_of_fmap & Hid). exists id, v. split_and!; [done|lia|done].
  - intros (id & v & Hid & Hv & ->). exists id. split; [|done]. apply list_elem_of_fmap. exists v.
    split; [done|]. apply elem_of_seq. lia.
Qed.

Lemma build_vnodes_ne ids : ids ≠ [] → build_vnodes ids ≠ [].
Proof.
  destruct ids as [|id ids]; [done|]. intros _ E.
  assert (vnode_of id 0 ∈ build_vnodes (id :: ids)) as Hin.
  { apply build_vnodes_elem. exists id, O. split_and!; [by left|unfold MetadataVNodes; lia|done]. }
  rewrite E in Hin. by apply not_elem_of_nil in Hin.
Qed.

(** A ring over its node list. *)
Record ring_of (ids : list Z) (r : Ring) : Prop := {
  ro_nodes : nodeIDs r = list_to_set ids;
  ro_vnodes : vnodes r = build_vnodes ids;
  ro_ne : ids ≠ [];
  ro_shards : length (shards r) = MetadataShards;
  ro_owner : ∀ s, (s < MetadataShards)%nat → shards r !! s = shard_owner (vnodes r) s
}.

Lemma rebuild_some ids m r : rebuild ids m = Some r → ids ≠ [] → ring_of ids r ∧ replicaM r = m.
Proof.
  unfold rebuild. destruct (mapM _ _) as [owners|] eqn:E; [|done]. intros [= <-] Hne. split; [|done].
  apply mapM_Some in E. split; cbn [nodeIDs vnodes shards]; try done.
  - apply Forall2_length in E. by rewrite length_seq in E.
  - intros s Hs. destruct (owners !! s) as [o|] eqn:Eo.
    + destruct (Forall2_lookup_r _ _ _ _ _ E Eo) as (x & Hx & <-).
      apply lookup_seq in Hx as [-> _]. done.
    + apply lookup_ge_None in Eo. apply Forall2_length in E. rewrite length_seq in E. lia.
Qed.

Lemma rebuild_total ids m : ids ≠ [] → ∃ r, rebuild ids m = Some r.
Proof.
  intros Hne. unfold rebuild. destruct (mapM _ _) as [owners|] eqn:E; [by eexists|]. exfalso.
  apply mapM_None in E. apply Exists_exists in E as (s & _ & Hs). unfold shard_owner in Hs.
  destruct (next_vnode_some (λ e, Z.of_nat s <=? vhash e) (build_vnodes ids) (build_vnodes_ne ids Hne))
    as (i & e & Hn & _). by rewrite Hn in Hs.
Qed.

Lemma shard_index key : (Z.to_nat (crc32c key mod 256) < MetadataShards)%nat.
Proof. pose proof (Z.mod_pos_bound (crc32c key) 256 ltac:(lia)). unfold MetadataShards. lia. Qed.

Lemma Lookup_owner ids r key :
  ring_of ids r → Lookup r key = shard_owner (vnodes r) (Z.to_nat (crc32c key mod 256)).
Proof. intros Hr. apply (ro_owner ids r Hr), shard_index. Qed.

Lemma vnode_member ids e : e ∈ build_vnodes ids → vnodeID e ∈ ids.
Proof. by intros (id & v & Hid & _ & ->)%build_vnodes_elem. Qed.

Lemma Lookup_some ids r key : ring_of ids r → ∃ o, Lookup r key = Some o ∧ o ∈ ids.
Proof.
  intros Hr. rewrite (Lookup_owner ids) by done. unfold shard_owner. rewrite (ro_vnodes ids r Hr).
  destruct (next_vnode_some (λ e, Z.of_nat (Z.to_nat (crc32c key mod 256)) <=? vhash e) (build_vnodes ids)
    (build_vnodes_ne ids (ro_ne ids r Hr))) as (i & e & -> & He & _).
  exists (vnodeID e). split; [done|]. by apply vnode_member.
Qed.






(** ** Properties *)

(** On any non-empty node list the ring exists, every key has an owner, and
    the owner is a member: lookups never point outside the cluster. *)
Theorem ring_lookup_member ids m :
  ids ≠ [] → ∃ r, NewRing ids m = Some r ∧ ∀ key, ∃ o, Lookup r key = Some o ∧ o ∈ ids.
Proof.
  intros Hne. destruct (rebuild_total ids m Hne) as [r Hr]. exists r. split; [done|].
  intros key. apply (Lookup_some ids). by apply (rebuild_some ids m).
Qed.


(** When no vnode hash is below 255, every shard search stops at the first vnode. *)
Lemma shard_owner_first vs s e vs' :
  vs = e :: vs' → Z.of_nat s <= vhash e → shard_owner vs s = Some (vnodeID e).
Proof.
  intros -> He. unfold shard_owner, next_vnode. cbn [search]. rewrite (proj2 (Z.leb_le _ _)) by done. done.
Qed.

(** Shards are looked up by their number (0..255) on a circle of 32-bit
    hashes: unless some vnode hashes below 255, one single node owns every key of
    the cluster. *)
Theorem ring_single_owner ids m r :
  ids ≠ [] → NewRing ids m = Some r →
  (∀ id v, id ∈ ids → (v < MetadataVNodes)%nat → 255 <= vhash (vnode_of id v)) →
  ∃ o, ∀ key, Lookup r key = Some o.
Proof.
  intros Hne Hr Hh. destruct (rebuild_some ids m r Hr Hne) as [Ho _].
  destruct (vnodes r) as [|e vs] eqn:Ev;
    [rewrite (ro_vnodes ids r Ho) in Ev; by destruct (build_vnodes_ne ids Hne)|].
  exists (vnodeID e). intros key. rewrite (Lookup_owner ids) by done.
  apply (shard_owner_first _ _ e vs); [done|].
  assert (255 <= vhash e) as He.
  { assert (e ∈ build_vnodes ids) as (id & v & Hid & Hv & ->)%build_vnodes_elem
      by (rewrite <- (ro_vnodes ids r Ho), Ev; by left). by apply Hh. }
  pose proof (shard_index key). unfold MetadataShards in *. lia.
Qed.

(** A walk that starts above every vnode takes one step. *)
Lemma replicas_loop_wrap fuel r M h o l :
  (∀ e, e ∈ vnodes r → vhash e <= h) →
  replicas_loop (S fuel) r M h [o] = Some l → (length l <= 2)%nat.
Proof.
  intros Hh. cbn [replicas_loop]. destruct (_ && _); [|intros [= <-]; cbn [length]; lia].
  assert (∀ vs, (∀ e, e ∈ vs → vhash e <= h) → search (λ e, h <? vhash e) vs = length vs) as Hall.
  { induction vs as [|e vs IH]; intros Hv; [done|]. cbn [search length].
    rewrite (proj2 (Z.ltb_ge _ _)) by (apply Hv; by left). f_equal. apply IH. set_solver. }
  unfold next_vnode. rewrite (Hall (vnodes r) Hh), decide_True by done.
  destruct (vnodes r !! 0%nat) as [e|]; [|discriminate].
  rewrite decide_True by done. intros [= <-]. case_decide; cbn [length app]; lia.
Qed.

(** The replica walk stops when it reaches the start of the circle: a key
    hashed above every vnode has at most two replicas, whatever M and however
    many nodes there are. *)
Theorem ring_replicas_wrap ids m r key M l :
  ids ≠ [] → NewRing ids m = Some r →
  (∀ id v, id ∈ ids → (v < MetadataVNodes)%nat → vhash (vnode_of id v) <= crc32c key) →
  Replicas r key M = Some l → (length l <= 2)%nat.
Proof.
  intros Hne Hr Hh. destruct (rebuild_some ids m r Hr Hne) as [Ho _]. unfold Replicas.
  destruct (Lookup r key) as [o|]; [|discriminate]. destruct (M <=? 1); [intros [= <-]; cbn [length]; lia|].
  apply replicas_loop_wrap. rewrite (ro_vnodes ids r Ho).
  intros e (id & v & Hid & Hv & ->)%build_vnodes_elem. by apply Hh.
Qed.

(** ** Witnesses: a three-node ring *)
Definition ids3 : list Z := [1; 2; 3].
Definition ring_or (o : option Ring) : Ring :=
  match o with Some r => r | None => mkRing [] [] ∅ 0 end.
Definition ring3 : Ring := ring_or (NewRing ids3 3).

Lemma ring_or_some o : (∃ r, o = Some r) → o = Some (ring_or o).
Proof. by intros [r ->]. Qed.

Lemma ring3_new : NewRing ids3 3 = Some ring3.
Proof. apply (ring_or_some (NewRing ids3 3)). apply rebuild_total. discriminate. Qed.

Definition all_vnodes (ids : list Z) : list vnodeEntry := id ← ids; vnode_of id <$> seq 0 MetadataVNodes.

Lemma all_vnodes_check (P : vnodeEntry → bool) ids :
  forallb P (all_vnodes ids) = true → ∀ id v, id ∈ ids → (v < MetadataVNodes)%nat → P (vnode_of id v) = true.
Proof.
  intros Hf id v Hid Hv. rewrite forallb_forall in Hf. apply Hf, list_elem_of_In, list_elem_of_bind.
  exists id. split; [|done]. apply list_elem_of_fmap. exists v. split; [done|]. apply elem_of_seq. lia.
Qed.

Lemma ring_lookup_member_witness :
  ∃ r, NewRing ids3 3 = Some r ∧ ∀ key, ∃ o, Lookup r key = Some o ∧ o ∈ ids3.
Proof. apply (ring_lookup_member ids3 3). done. Defined.


Lemma ring_single_owner_witness : ∃ o, ∀ key, Lookup ring3 key = Some o.
Proof.
  apply (ring_single_owner ids3 3 ring3); [done|apply ring3_new|].
  intros id v Hid Hv. apply Z.leb_le. apply (all_vnodes_check (λ e, 255 <=? vhash e) ids3);
    [vm_compute; reflexivity|done|done].
Defined.

Lemma ring_replicas_wrap_witness : Replicas ring3 (bs "k692") 3 = Some [1] ∧ (length [1] <= 2)%nat.
Proof.
  assert (Replicas ring3 (bs "k692") 3 = Some [1]) as E by (vm_compute; reflexivity).
  split; [exact E|].
  apply (ring_replicas_wrap ids3 3 ring3 (bs "k692") 3 [1]); [discriminate|apply ring3_new| |exact E].
  intros id v Hid Hv. apply Z.leb_le.
  apply (all_vnodes_check (λ e, vhash e <=? crc32c (bs "k692")) ids3);
    [vm_compute; reflexivity|done|done].
Defined.
