(* ===== verification/Wire.v ===== *)
(** * Peer-to-peer wire formats (src/src/p2p/types.go)

    One instance of [Wire] per payload type: its [Encode], its [Decode], the
    values the encoding can represent, and the round trip.  Offsets and guards
    are those of the source. *)
From S2P Require Import Prelude.
Open Scope Z_scope.

Definition maxPayloadSize : Z := Z.shiftl 1 20.

(** A codec with its contract. *)
Class Wire (A : Type) := {
  Encode : A → bytes;
  Decode : bytes → result A;
  wire_ok : A → Prop;
  wire_roundtrip : ∀ a, wire_ok a → Decode (Encode a) = Ok a
}.

Notation zlen b := (Z.of_nat (length b)).

(** [binary.BigEndian.UintNN(data[lo:hi])] *)
Definition be_at (lo hi : nat) (data : bytes) : Z := get_be (slice lo hi data).

Definition uint16 (z : Z) : Z := z mod 2 ^ 16.

(** ** Lemmas *)
Lemma slice_mid (a x b : bytes) lo hi :
  lo = length a → hi = (length a + length x)%nat → slice lo hi (a ++ x ++ b) = x.
Proof.
  intros -> ->. unfold slice. rewrite drop_app_eq by done. apply take_app_eq. lia.
Qed.

Lemma slice_end (a x : bytes) lo hi :
  lo = length a → hi = (length a + length x)%nat → slice lo hi (a ++ x) = x.
Proof. intros. rewrite <- (app_nil_r x) at 1. by apply slice_mid. Qed.

Lemma be_at_mid a (x : Z) n b lo hi :
  lo = length a → hi = (length a + n)%nat → be_at lo hi (a ++ put_be n x ++ b) = x mod 256 ^ Z.of_nat n.
Proof. intros -> ->. unfold be_at. rewrite slice_mid by (rewrite ?length_put_be; done). apply get_be_put_be. Qed.

Lemma be_at8 a x b lo hi : is_uint64 x → lo = length a → hi = (length a + 8)%nat →
  be_at lo hi (a ++ put_be 8 x ++ b) = x.
Proof. intros Hx ??. rewrite (be_at_mid a x 8) by done. apply Z.mod_small. exact Hx. Qed.

Lemma be_at8_0 x b : is_uint64 x → be_at 0 8 (put_be 8 x ++ b) = x.
Proof. intros Hx. by apply (be_at8 [] x b). Qed.

Lemma be_at4 a x b lo hi : is_uint32 x → lo = length a → hi = (length a + 4)%nat →
  be_at lo hi (a ++ put_be 4 x ++ b) = x.
Proof. intros Hx ??. rewrite (be_at_mid a x 4) by done. apply Z.mod_small. exact Hx. Qed.

Lemma be_at4_0 x b : is_uint32 x → be_at 0 4 (put_be 4 x ++ b) = x.
Proof. intros Hx. by apply (be_at4 [] x b). Qed.

Lemma be_at2 a x b lo hi : 0 <= x < 2 ^ 16 → lo = length a → hi = (length a + 2)%nat →
  be_at lo hi (a ++ put_be 2 x ++ b) = x.
Proof. intros Hx ??. rewrite (be_at_mid a x 2) by done. apply Z.mod_small. exact Hx. Qed.

Lemma uint64_is x : is_uint64 (uint64 x).
Proof. apply Z.mod_pos_bound. lia. Qed.
Lemma uint32_is x : is_uint32 (uint32 x).
Proof. apply Z.mod_pos_bound. lia. Qed.

Lemma byte_at0 (z : Z) (b : bytes) : 0 <= z < 256 → get_be (slice 0 1 ([z2b z] ++ b)) = z.
Proof.
  intros Hz. change (slice 0 1 ([z2b z] ++ b)) with [z2b z]. unfold get_be. cbn [get_be_acc].
  rewrite b2z_z2b, (Z.mod_small z 256) by lia. lia.
Qed.

Lemma uint32_int32 x : uint32 (int32 x) = uint32 x.
Proof. unfold uint32, int32. rewrite Zminus_mod_idemp_l. f_equal. lia. Qed.

(** ** RPC frames *)
Record RPC := mkRPC { From : Z; Type_ : Z; Payload : bytes }.

Definition RPC_Encode (r : RPC) : bytes :=
  let totalLen := 1 + 4 + zlen (Payload r) in
  put_be 4 (uint32 totalLen) ++ [z2b (Type_ r)] ++ put_be 4 (uint32 (From r)) ++ Payload r.

(** [DecodeRPC] over the bytes the connection delivers: the frame and the rest. *)
Definition DecodeRPC (conn : bytes) : result (RPC * bytes) :=
  if (length conn <? 4)%nat then Err (Errno EIO)
  else
    let totalLen := get_be (take 4 conn) in
    if (totalLen <? 5) || (Z.shiftl 1 20 <? totalLen) then Err (Errno EBADMSG)
    else if zlen (drop 4 conn) <? totalLen then Err (Errno EIO)
    else
      let body := take (Z.to_nat totalLen) (drop 4 conn) in
      Ok (mkRPC (int32 (be_at 1 5 body)) (get_be (slice 0 1 body)) (drop 5 body),
          drop (Z.to_nat totalLen) (drop 4 conn)).

Definition rpc_ok (r : RPC) : Prop :=
  is_int32 (From r) ∧ 0 <= Type_ r < 256 ∧ zlen (Payload r) <= 2 ^ 20 - 5.

(** A stream of RPC frames is parsed back frame by frame: decoding an encoded
    frame followed by anything returns the frame and leaves exactly the rest. *)
Theorem RPC_roundtrip r rest :
  rpc_ok r → DecodeRPC (RPC_Encode r ++ rest) = Ok (r, rest).
Proof.
  intros (Hf & Ht & Hp). unfold RPC_Encode, DecodeRPC. set (n := 1 + 4 + zlen (Payload r)).
  assert (uint32 n = n) as Hn by (apply uint32_id; unfold is_uint32; lia). rewrite Hn.
  set (body := [z2b (Type_ r)] ++ put_be 4 (uint32 (From r)) ++ Payload r).
  assert (zlen body = n) as Hb by (unfold body; rewrite !length_app, length_put_be; cbn [length]; lia).
  rewrite <- app_assoc. rewrite length_app, length_put_be. change (4 + _ <? 4)%nat with false. cbn iota.
  rewrite take_app_eq, drop_app_eq by done. rewrite get_be_put_be4, Hn.
  rewrite (proj2 (Z.ltb_ge n 5)), (proj2 (Z.ltb_ge _ n)) by (change (Z.shiftl 1 20) with (2 ^ 20); lia). cbn [orb].
  rewrite (proj2 (Z.ltb_ge _ n)) by (rewrite length_app; lia).
  rewrite (take_app_eq (Z.to_nat n) body), (drop_app_eq (Z.to_nat n) body) by lia. f_equal. f_equal.
  destruct r as [f t p]. cbn [From Type_ Payload] in *. f_equal.
  - unfold body. rewrite be_at4 by (done || apply uint32_is). rewrite int32_uint32. by apply int32_id.
  - unfold body. by apply byte_at0.
Qed.

(** ** Leases *)
Record LeasePayload := mkLease { LeaseID : Z; LKey : bytes; Expiry : Z }.

Definition Lease_Encode (l : LeasePayload) : bytes :=
  put_be 8 (LeaseID l) ++ put_be 4 (uint32 (zlen (LKey l))) ++ LKey l ++ put_be 8 (uint64 (Expiry l)).

Definition DecodeLeasePayload (data : bytes) : result LeasePayload :=
  if maxPayloadSize <? zlen data then Err ErrPlain
  else if zlen data <? 20 then Err (Errno EBADMSG)
  else
    let leaseID := be_at 0 8 data in
    let keyLen := be_at 8 12 data in
    if zlen data <? 12 + keyLen + 8 then Err (Errno EBADMSG)
    else
      let off := (12 + Z.to_nat keyLen)%nat in
      Ok (mkLease leaseID (slice 12 off data) (int64 (be_at off (off + 8) data))).

Definition lease_ok (l : LeasePayload) : Prop :=
  is_uint64 (LeaseID l) ∧ is_int64 (Expiry l) ∧ zlen (LKey l) <= maxPayloadSize - 20.

#[export] Program Instance lease_wire : Wire LeasePayload := {|
  Encode := Lease_Encode; Decode := DecodeLeasePayload; wire_ok := lease_ok |}.
Next Obligation.
  intros [i k e] (Hi & He & Hk). unfold Lease_Encode, DecodeLeasePayload. cbn [LeaseID LKey Expiry] in *.
  change maxPayloadSize with (2 ^ 20) in *.
  assert (uint32 (zlen k) = zlen k) as Hn by (apply uint32_id; unfold is_uint32; lia). rewrite Hn.
  rewrite !length_app, !length_put_be.
  rewrite (proj2 (Z.ltb_ge (2 ^ 20) _)), (proj2 (Z.ltb_ge _ 20)) by lia.
  rewrite be_at8_0 by done.
  rewrite (be_at4 (put_be 8 i) (zlen k)) by (try rewrite length_put_be; try done; unfold is_uint32; lia).
  rewrite (proj2 (Z.ltb_ge _ _)) by lia. rewrite Nat2Z.id. rewrite (app_assoc (put_be 8 i)).
  rewrite (slice_mid (put_be 8 i ++ put_be 4 (zlen k))) by (rewrite length_app, !length_put_be; done).
  rewrite (app_assoc _ k), <- (app_nil_r (put_be 8 (uint64 e))).
  rewrite be_at8 by (try apply uint64_is; rewrite !length_app, !length_put_be; lia).
  by rewrite int64_uint64, int64_id.
Qed.

(** ** Queries *)
Record QueryPayload := mkQuery { QType : Z; QRequestID : Z; QData : bytes }.

Definition Query_Encode (q : QueryPayload) : bytes :=
  [z2b (QType q)] ++ put_be 8 (QRequestID q) ++ QData q.

Definition DecodeQueryPayload (data : bytes) : result QueryPayload :=
  if maxPayloadSize <? zlen data then Err ErrPlain
  else if zlen data <? 9 then Err (Errno EBADMSG)
  else Ok (mkQuery (get_be (slice 0 1 data)) (be_at 1 9 data) (drop 9 data)).

Definition query_ok (q : QueryPayload) : Prop :=
  0 <= QType q < 256 ∧ is_uint64 (QRequestID q) ∧ zlen (QData q) <= maxPayloadSize - 9.

#[export] Program Instance query_wire : Wire QueryPayload := {|
  Encode := Query_Encode; Decode := DecodeQueryPayload; wire_ok := query_ok |}.
Next Obligation.
  intros [t i d] (Ht & Hi & Hd). unfold Query_Encode, DecodeQueryPayload. cbn [QType QRequestID QData] in *.
  change maxPayloadSize with (2 ^ 20) in *.
  rewrite !length_app, length_put_be. cbn [length].
  rewrite (proj2 (Z.ltb_ge (2 ^ 20) _)), (proj2 (Z.ltb_ge _ 9)) by lia.
  rewrite byte_at0 by done. rewrite (be_at8 [z2b t] i) by done.
  rewrite (app_assoc [z2b t]), drop_app_eq by (by rewrite length_app, length_put_be). done.
Qed.

(** ** Query responses *)
Record QueryResponsePayload := mkQResp { RRequestID : Z; RData : bytes; RError : bytes }.

Definition QueryResponse_Encode (q : QueryResponsePayload) : bytes :=
  put_be 8 (RRequestID q) ++ put_be 4 (uint32 (zlen (RData q))) ++ RData q
  ++ put_be 2 (uint16 (zlen (RError q))) ++ RError q.

Definition DecodeQueryResponsePayload (data : bytes) : result QueryResponsePayload :=
  if maxPayloadSize <? zlen data then Err ErrPlain
  else if zlen data <? 14 then Err (Errno EBADMSG)
  else
    let reqID := be_at 0 8 data in
    let dataLen := be_at 8 12 data in
    if zlen data <? 12 + dataLen + 2 then Err (Errno EBADMSG)
    else
      let off := (12 + Z.to_nat dataLen)%nat in
      let errLen := be_at off (off + 2) data in
      let off2 := (off + 2)%nat in
      if zlen data <? Z.of_nat off2 + errLen then Err (Errno EBADMSG)
      else Ok (mkQResp reqID (slice 12 off data) (slice off2 (off2 + Z.to_nat errLen) data)).

Definition qresp_ok (q : QueryResponsePayload) : Prop :=
  is_uint64 (RRequestID q) ∧ zlen (RError q) < 2 ^ 16
  ∧ 14 + zlen (RData q) + zlen (RError q) <= maxPayloadSize.

#[export] Program Instance qresp_wire : Wire QueryResponsePayload := {|
  Encode := QueryResponse_Encode; Decode := DecodeQueryResponsePayload; wire_ok := qresp_ok |}.
Next Obligation.
  intros [i d e] (Hi & He & Hd). unfold QueryResponse_Encode, DecodeQueryResponsePayload.
  cbn [RRequestID RData RError] in *. change maxPayloadSize with (2 ^ 20) in *.
  assert (uint32 (zlen d) = zlen d) as Hn by (apply uint32_id; unfold is_uint32; lia). rewrite Hn.
  assert (uint16 (zlen e) = zlen e) as Hm by (apply Z.mod_small; lia). rewrite Hm.
  rewrite !length_app, !length_put_be.
  rewrite (proj2 (Z.ltb_ge (2 ^ 20) _)), (proj2 (Z.ltb_ge _ 14)) by lia.
  rewrite be_at8_0 by done.
  rewrite (be_at4 (put_be 8 i) (zlen d)) by (try rewrite length_put_be; try done; unfold is_uint32; lia).
  rewrite (proj2 (Z.ltb_ge _ (12 + zlen d + 2))) by lia. rewrite Nat2Z.id.
  rewrite (app_assoc (put_be 8 i)).
  rewrite (slice_mid (put_be 8 i ++ put_be 4 (zlen d))) by (rewrite length_app, !length_put_be; done).
  rewrite (app_assoc _ d).
  rewrite be_at2 by (try rewrite !length_app, !length_put_be; lia).
  rewrite (proj2 (Z.ltb_ge _ _)) by lia. rewrite Nat2Z.id.
  rewrite (app_assoc _ (put_be 2 _)).
  rewrite slice_end by (rewrite !length_app, !length_put_be; lia). done.
Qed.

(** ** Heartbeats *)
Record PeerInfo := mkPeer { PID : Z; PAddr : bytes }.

Definition peer_entry (p : PeerInfo) : bytes :=
  put_be 4 (uint32 (PID p)) ++ put_be 2 (uint16 (zlen (PAddr p))) ++ PAddr p.

Definition Heartbeat_Encode (peers : list PeerInfo) : bytes :=
  put_be 4 (uint32 (Z.of_nat (length peers))) ++ concat (peer_entry <$> peers).

Fixpoint heartbeat_loop (count : nat) (data : bytes) (off : nat) : result (list PeerInfo) :=
  match count with
  | O => Ok []
  | S count =>
      if (length data <? off + 6)%nat then Err (Errno EBADMSG)
      else
        let id := int32 (be_at off (off + 4) data) in
        let addrLen := Z.to_nat (be_at (off + 4) (off + 6) data) in
        let off := (off + 6)%nat in
        if (length data <? off + addrLen)%nat then Err (Errno EBADMSG)
        else
          let addr := slice off (off + addrLen) data in
          let! peers := heartbeat_loop count data (off + addrLen) in
          Ok (mkPeer id addr :: peers)
  end.

Definition DecodeHeartbeatPayload (data : bytes) : result (list PeerInfo) :=
  if maxPayloadSize <? zlen data then Err (Errno EBADMSG)
  else if zlen data <? 4 then Err (Errno EBADMSG)
  else
    let count := be_at 0 4 data in
    let maxCount := (zlen data - 4) / 6 in
    if maxCount <? count then Err (Errno EINVAL)
    else heartbeat_loop (Z.to_nat count) data 4.

Definition peer_ok (p : PeerInfo) : Prop := is_int32 (PID p) ∧ zlen (PAddr p) < 2 ^ 16.
Definition heartbeat_ok (peers : list PeerInfo) : Prop :=
  Forall peer_ok peers ∧ zlen (Heartbeat_Encode peers) <= maxPayloadSize.

Lemma length_peer_entry p : length (peer_entry p) = (6 + length (PAddr p))%nat.
Proof. unfold peer_entry. by rewrite !length_app, !length_put_be. Qed.

Lemma heartbeat_loop_ok pre peers :
  Forall peer_ok peers →
  heartbeat_loop (length peers) (pre ++ concat (peer_entry <$> peers)) (length pre) = Ok peers.
Proof.
  intros Hf. revert pre. induction Hf as [|[i a] peers [Hi Ha] Hf IH]; intros pre; [done|].
  cbn [PID PAddr] in *. cbn [length heartbeat_loop fmap list_fmap concat]. fold (peer_entry <$> peers).
  set (tl := concat (peer_entry <$> peers)).
  assert (uint16 (zlen a) = zlen a) as Hm by (apply Z.mod_small; lia).
  rewrite !length_app, length_peer_entry. cbn [PAddr].
  rewrite (proj2 (Nat.ltb_ge _ _)) by lia.
  replace (peer_entry (mkPeer i a) ++ tl) with (put_be 4 (uint32 i) ++ put_be 2 (zlen a) ++ a ++ tl)
    by (unfold peer_entry; cbn [PID PAddr]; by rewrite Hm, <- !app_assoc).
  rewrite (be_at4 pre (uint32 i) _ (length pre)) by (done || apply uint32_is). rewrite int32_uint32, int32_id by done.
  rewrite (app_assoc pre). rewrite be_at2 by (rewrite ?length_app, ?length_put_be; lia). rewrite Nat2Z.id.
  rewrite (proj2 (Nat.ltb_ge _ _)) by lia.
  rewrite (app_assoc _ (put_be 2 _)).
  rewrite slice_mid by (rewrite !length_app, !length_put_be; lia).
  rewrite (app_assoc _ a).
  replace (length pre + 6 + length a)%nat with (length (((pre ++ put_be 4 (uint32 i)) ++ put_be 2 (zlen a)) ++ a))
    by (rewrite !length_app, !length_put_be; lia).
  unfold tl. by rewrite IH.
Qed.

Lemma length_entries peers : (6 * length peers <= length (concat (peer_entry <$> peers)))%nat.
Proof.
  induction peers as [|p peers IH]; [done|]. cbn [fmap list_fmap concat length].
  fold (peer_entry <$> peers). rewrite length_app, length_peer_entry. lia.
Qed.

#[export] Program Instance heartbeat_wire : Wire (list PeerInfo) := {|
  Encode := Heartbeat_Encode; Decode := DecodeHeartbeatPayload; wire_ok := heartbeat_ok |}.
Next Obligation.
  intros peers [Hf Hlen]. unfold DecodeHeartbeatPayload. change maxPayloadSize with (2 ^ 20) in *.
  unfold Heartbeat_Encode in *. pose proof (length_entries peers) as He.
  rewrite length_app, length_put_be in *.
  assert (uint32 (Z.of_nat (length peers)) = Z.of_nat (length peers)) as Hn
    by (apply uint32_id; unfold is_uint32; lia). rewrite Hn.
  rewrite (proj2 (Z.ltb_ge (2 ^ 20) _)), (proj2 (Z.ltb_ge _ 4)) by lia.
  rewrite be_at4_0 by (unfold is_uint32; lia).
  rewrite (proj2 (Z.ltb_ge _ _)) by (apply Z.div_le_lower_bound; lia). rewrite Nat2Z.id.
  by apply (heartbeat_loop_ok (put_be 4 (Z.of_nat (length peers)))).
Qed.

(** ** Load reports *)
Record PeerLoad := mkLoad { DiskUsedPercent : Z; InflightRequests : Z; ReplicationQueue : Z; UpdatedUnixNano : Z }.

Definition Load_Encode (l : PeerLoad) : bytes :=
  ([z2b (DiskUsedPercent l)] ++ replicate 3 Byte.x00) ++ put_be 4 (InflightRequests l)
  ++ put_be 4 (ReplicationQueue l) ++ put_be 8 (uint64 (UpdatedUnixNano l)).

Definition DecodeLoadPayload (data : bytes) : result PeerLoad :=
  if maxPayloadSize <? zlen data then Err ErrPlain
  else if zlen data <? 20 then Err (Errno EBADMSG)
  else if 100 <? get_be (slice 0 1 data) then Err (Errno EBADMSG)
  else Ok (mkLoad (get_be (slice 0 1 data)) (be_at 4 8 data) (be_at 8 12 data) (int64 (be_at 12 20 data))).

Definition load_ok (l : PeerLoad) : Prop :=
  0 <= DiskUsedPercent l <= 100 ∧ is_uint32 (InflightRequests l) ∧ is_uint32 (ReplicationQueue l)
  ∧ is_int64 (UpdatedUnixNano l).

#[export] Program Instance load_wire : Wire PeerLoad := {|
  Encode := Load_Encode; Decode := DecodeLoadPayload; wire_ok := load_ok |}.
Next Obligation.
  intros [d i q u] (Hd & Hi & Hq & Hu). unfold Load_Encode, DecodeLoadPayload.
  cbn [DiskUsedPercent InflightRequests ReplicationQueue UpdatedUnixNano] in *.
  rewrite !length_app, !length_put_be. cbn [length replicate].
  change (maxPayloadSize <? _) with false. change (Z.of_nat _ <? 20) with false. cbn iota.
  rewrite <- (app_assoc [z2b d]). rewrite byte_at0 by lia. rewrite (proj2 (Z.ltb_ge _ _)) by lia.
  rewrite (app_assoc [z2b d]). set (h := [z2b d] ++ _). rewrite be_at4 by done.
  rewrite (app_assoc h), be_at4 by (try rewrite length_app, length_put_be; done).
  rewrite (app_assoc (h ++ _)), <- (app_nil_r (put_be 8 _)).
  rewrite be_at8 by (try apply uint64_is; rewrite !length_app, !length_put_be; done).
  by rewrite int64_uint64, int64_id.
Qed.

(** ** Pings *)
Record PingPayload := mkPing { PingID : Z; TargetID : Z; PTimestamp : Z }.

Definition Ping_Encode (p : PingPayload) : bytes :=
  put_be 8 (PingID p) ++ put_be 4 (uint32 (TargetID p)) ++ put_be 8 (uint64 (PTimestamp p)).

Definition DecodePingPayload (data : bytes) : result PingPayload :=
  if maxPayloadSize <? zlen data then Err ErrPlain
  else if zlen data <? 20 then Err (Errno EBADMSG)
  else Ok (mkPing (be_at 0 8 data) (int32 (be_at 8 12 data)) (int64 (be_at 12 20 data))).

Definition ping_ok (p : PingPayload) : Prop :=
  is_uint64 (PingID p) ∧ is_int32 (TargetID p) ∧ is_int64 (PTimestamp p).

#[export] Program Instance ping_wire : Wire PingPayload := {|
  Encode := Ping_Encode; Decode := DecodePingPayload; wire_ok := ping_ok |}.
Next Obligation.
  intros [i t s] (Hi & Ht & Hs). unfold Ping_Encode, DecodePingPayload. cbn [PingID TargetID PTimestamp] in *.
  rewrite !length_app, !length_put_be.
  change (maxPayloadSize <? _) with false. change (Z.of_nat _ <? 20) with false. cbn iota.
  rewrite be_at8_0 by done.
  rewrite be_at4 by (try apply uint32_is; by rewrite length_put_be).
  rewrite (app_assoc (put_be 8 i)), <- (app_nil_r (put_be 8 (uint64 s))).
  rewrite be_at8 by (try apply uint64_is; rewrite !length_app, !length_put_be; done).
  rewrite int32_uint32, int32_id, int64_uint64, int64_id by done. done.
Qed.

(** ** OPRF evaluation *)
Record OPRFEvalRequestPayload := mkOReq { ORequestID : Z; OShareIndex : Z; Blinded : bytes }.

Definition OPRFRequest_Encode (o : OPRFEvalRequestPayload) : bytes :=
  put_be 8 (ORequestID o) ++ put_be 1 (OShareIndex o) ++ put_be 4 (uint32 (zlen (Blinded o))) ++ Blinded o.

Definition DecodeOPRFEvalRequestPayload (data : bytes) : result OPRFEvalRequestPayload :=
  if maxPayloadSize <? zlen data then Err ErrPlain
  else if zlen data <? 13 then Err (Errno EBADMSG)
  else
    let blindedLen := be_at 9 13 data in
    if zlen data <? 13 + blindedLen then Err (Errno EBADMSG)
    else Ok (mkOReq (be_at 0 8 data) (be_at 8 9 data) (slice 13 (13 + Z.to_nat blindedLen) data)).

Definition oreq_ok (o : OPRFEvalRequestPayload) : Prop :=
  is_uint64 (ORequestID o) ∧ 0 <= OShareIndex o < 256 ∧ zlen (Blinded o) <= maxPayloadSize - 13.

Lemma be_at1 a x b lo hi : 0 <= x < 256 → lo = length a → hi = (length a + 1)%nat →
  be_at lo hi (a ++ put_be 1 x ++ b) = x.
Proof. intros Hx ??. rewrite (be_at_mid a x 1) by done. apply Z.mod_small. exact Hx. Qed.

#[export] Program Instance oreq_wire : Wire OPRFEvalRequestPayload := {|
  Encode := OPRFRequest_Encode; Decode := DecodeOPRFEvalRequestPayload; wire_ok := oreq_ok |}.
Next Obligation.
  intros [i s b] (Hi & Hs & Hb). unfold OPRFRequest_Encode, DecodeOPRFEvalRequestPayload.
  cbn [ORequestID OShareIndex Blinded] in *. change maxPayloadSize with (2 ^ 20) in *.
  assert (uint32 (zlen b) = zlen b) as Hn by (apply uint32_id; unfold is_uint32; lia). rewrite Hn.
  rewrite !length_app, !length_put_be.
  rewrite (proj2 (Z.ltb_ge (2 ^ 20) _)), (proj2 (Z.ltb_ge _ 13)) by lia.
  rewrite be_at8_0 by done. rewrite (be_at1 (put_be 8 i) s _ 8 9) by (try rewrite length_put_be; done).
  rewrite (app_assoc (put_be 8 i)).
  rewrite be_at4 by (try rewrite !length_app, !length_put_be; try done; unfold is_uint32; lia).
  rewrite (proj2 (Z.ltb_ge _ _)) by lia. rewrite Nat2Z.id, (app_assoc _ (put_be 4 _)).
  rewrite slice_end by (rewrite !length_app, !length_put_be; done). done.
Qed.

Record OPRFEvalResponsePayload := mkOResp { SRequestID : Z; SShareIndex : Z; SError : bytes; Eval_ : bytes }.

Definition OPRFResponse_Encode (o : OPRFEvalResponsePayload) : bytes :=
  put_be 8 (SRequestID o) ++ put_be 1 (SShareIndex o) ++ put_be 2 (uint16 (zlen (SError o))) ++ SError o
  ++ put_be 4 (uint32 (zlen (Eval_ o))) ++ Eval_ o.

Definition DecodeOPRFEvalResponsePayload (data : bytes) : result OPRFEvalResponsePayload :=
  if maxPayloadSize <? zlen data then Err ErrPlain
  else if zlen data <? 11 then Err (Errno EBADMSG)
  else
    let errLen := be_at 9 11 data in
    if zlen data <? 11 + errLen + 4 then Err (Errno EBADMSG)
    else
      let off := (11 + Z.to_nat errLen)%nat in
      let evalLen := be_at off (off + 4) data in
      if zlen data <? Z.of_nat off + 4 + evalLen then Err (Errno EBADMSG)
      else Ok (mkOResp (be_at 0 8 data) (be_at 8 9 data) (slice 11 off data)
                 (slice (off + 4) (off + 4 + Z.to_nat evalLen) data)).

Definition oresp_ok (o : OPRFEvalResponsePayload) : Prop :=
  is_uint64 (SRequestID o) ∧ 0 <= SShareIndex o < 256 ∧ zlen (SError o) < 2 ^ 16
  ∧ 15 + zlen (SError o) + zlen (Eval_ o) <= maxPayloadSize.

#[export] Program Instance oresp_wire : Wire OPRFEvalResponsePayload := {|
  Encode := OPRFResponse_Encode; Decode := DecodeOPRFEvalResponsePayload; wire_ok := oresp_ok |}.
Next Obligation.
  intros [i s e v] (Hi & Hs & He & Hv). unfold OPRFResponse_Encode, DecodeOPRFEvalResponsePayload.
  cbn [SRequestID SShareIndex SError Eval_] in *. change maxPayloadSize with (2 ^ 20) in *.
  assert (uint32 (zlen v) = zlen v) as Hn by (apply uint32_id; unfold is_uint32; lia). rewrite Hn.
  assert (uint16 (zlen e) = zlen e) as Hm by (apply Z.mod_small; lia). rewrite Hm.
  rewrite !length_app, !length_put_be.
  rewrite (proj2 (Z.ltb_ge (2 ^ 20) _)), (proj2 (Z.ltb_ge _ 11)) by lia.
  rewrite be_at8_0 by done. rewrite (be_at1 (put_be 8 i) s _ 8 9) by (try rewrite length_put_be; done).
  rewrite (app_assoc (put_be 8 i)). rewrite be_at2 by (try rewrite !length_app, !length_put_be; lia).
  rewrite (proj2 (Z.ltb_ge _ (11 + zlen e + 4))) by lia. rewrite Nat2Z.id.
  rewrite (app_assoc _ (put_be 2 _)). rewrite slice_mid by (rewrite !length_app, !length_put_be; lia).
  rewrite (app_assoc _ e).
  rewrite be_at4 by (try rewrite !length_app, !length_put_be; try (unfold is_uint32); lia).
  rewrite (proj2 (Z.ltb_ge _ _)) by lia. rewrite Nat2Z.id.
  rewrite (app_assoc _ (put_be 4 _)). rewrite slice_end by (rewrite !length_app, !length_put_be; lia). done.
Qed.

(** ** Properties *)

(** Every peer-to-peer payload (lease, query, query response, heartbeat,
    load, ping, OPRF request and response) decodes to exactly the value that was
    encoded, for all values within the size limits. *)
Theorem payloads_roundtrip :
  (∀ l : LeasePayload, lease_ok l → DecodeLeasePayload (Lease_Encode l) = Ok l)
  ∧ (∀ q : QueryPayload, query_ok q → DecodeQueryPayload (Query_Encode q) = Ok q)
  ∧ (∀ q : QueryResponsePayload, qresp_ok q → DecodeQueryResponsePayload (QueryResponse_Encode q) = Ok q)
  ∧ (∀ h : list PeerInfo, heartbeat_ok h → DecodeHeartbeatPayload (Heartbeat_Encode h) = Ok h)
  ∧ (∀ l : PeerLoad, load_ok l → DecodeLoadPayload (Load_Encode l) = Ok l)
  ∧ (∀ p : PingPayload, ping_ok p → DecodePingPayload (Ping_Encode p) = Ok p)
  ∧ (∀ o : OPRFEvalRequestPayload, oreq_ok o → DecodeOPRFEvalRequestPayload (OPRFRequest_Encode o) = Ok o)
  ∧ (∀ o : OPRFEvalResponsePayload, oresp_ok o → DecodeOPRFEvalResponsePayload (OPRFResponse_Encode o) = Ok o).
Proof.
  exact (conj (@wire_roundtrip _ lease_wire) (conj (@wire_roundtrip _ query_wire)
    (conj (@wire_roundtrip _ qresp_wire) (conj (@wire_roundtrip _ heartbeat_wire)
    (conj (@wire_roundtrip _ load_wire) (conj (@wire_roundtrip _ ping_wire)
    (conj (@wire_roundtrip _ oreq_wire) (@wire_roundtrip _ oresp_wire)))))))).
Qed.

Lemma slice_split lo mid hi (b : bytes) :
  (lo <= mid <= hi)%nat → slice lo hi b = slice lo mid b ++ slice mid hi b.
Proof.
  intros Hm. unfold slice. rewrite <- (take_drop (mid - lo) (take (hi - lo) (drop lo b))).
  rewrite take_take, Nat.min_l by lia. f_equal.
  rewrite skipn_firstn_comm, drop_drop. f_equal; [lia|]. f_equal. lia.
Qed.

Lemma be_at_put n lo (b : bytes) :
  (lo + n <= length b)%nat → put_be n (be_at lo (lo + n) b) = slice lo (lo + n) b.
Proof. intros Hl. unfold be_at. apply put_be_get_be. rewrite length_slice; lia. Qed.

(** A frame the reader accepts is well-formed: it is the encoding of the
    decoded RPC, at most 1 MiB long, and the rest of the stream is untouched. *)
Theorem DecodeRPC_sound conn r rest :
  DecodeRPC conn = Ok (r, rest) → conn = RPC_Encode r ++ rest ∧ rpc_ok r.
Proof.
  unfold DecodeRPC. destruct (length conn <? 4)%nat eqn:E1; [discriminate|]. zbool.
  set (n := get_be (take 4 conn)). destruct (_ || _) eqn:E2; [discriminate|].
  apply orb_false_iff in E2 as [E2 E3]. change (Z.shiftl 1 20) with (2 ^ 20) in E3. zbool.
  destruct (_ <? n) eqn:E4; [discriminate|]. zbool. intros [= <- <-].
  set (body := take (Z.to_nat n) (drop 4 conn)).
  assert (length body = Z.to_nat n) as Hb by (unfold body; rewrite length_take; lia).
  assert (zlen (drop 5 body) = n - 5) as Hp by (rewrite length_drop; lia).
  assert (body ++ drop (Z.to_nat n) (drop 4 conn) = drop 4 conn) as Hcat by apply take_drop.
  clearbody body. destruct body as [|t body]; [cbn in Hb; lia|].
  assert (get_be (slice 0 1 (t :: body)) = b2z t) as Ht.
  { change (slice 0 1 (t :: body)) with [t]. unfold get_be. cbn [get_be_acc]. lia. }
  split.
  - unfold RPC_Encode. cbn [Payload Type_ From]. rewrite Hp, Ht, z2b_b2z.
    replace (1 + 4 + (n - 5)) with n by lia.
    replace (put_be 4 (uint32 n)) with (take 4 conn).
    2: { rewrite uint32_id.
         - symmetry. apply put_be_get_be. rewrite length_take. lia.
         - pose proof (get_be_bound (take 4 conn)) as Hbd. rewrite length_take, Nat.min_l in Hbd by lia. exact Hbd. }
    replace (put_be 4 (uint32 (int32 (be_at 1 5 (t :: body))))) with (slice 1 5 (t :: body)).
    2: { rewrite <- (be_at_put 4 1) by (cbn [length] in *; lia). f_equal.
         pose proof (get_be_bound (slice 1 5 (t :: body))) as Hbd.
         rewrite length_slice in Hbd by (cbn [length] in *; lia).
         rewrite uint32_int32. symmetry. apply uint32_id. exact Hbd. }
    assert (t :: body = [t] ++ slice 1 5 (t :: body) ++ drop 5 (t :: body)) as Hsplit.
    { unfold slice. cbn [drop app]. change (5 - 1)%nat with 4%nat. by rewrite take_drop. }
    rewrite <- (take_drop 4 conn) at 1. rewrite <- Hcat, Hsplit at 1. by rewrite <- !app_assoc.
  - unfold rpc_ok. cbn [From Type_ Payload]. split_and!.
    + unfold is_int32, int32. pose proof (Z.mod_pos_bound (be_at 1 5 (t :: body) + 2 ^ 31) (2 ^ 32)). lia.
    + rewrite Ht. apply b2z_range.
    + rewrite Ht. apply b2z_range.
    + lia.
Qed.

(** ** Witnesses *)
Definition ex_rpc : RPC := mkRPC (-7) 6 (bs "payload").

Lemma RPC_roundtrip_witness : DecodeRPC (RPC_Encode ex_rpc ++ bs "tail") = Ok (ex_rpc, bs "tail").
Proof.
  apply (RPC_roundtrip ex_rpc (bs "tail")). split_and!; by vm_compute.
Defined.

Lemma payloads_roundtrip_witness :
  DecodeLeasePayload (Lease_Encode (mkLease 5 (bs "key") 99)) = Ok (mkLease 5 (bs "key") 99).
Proof.
  destruct payloads_roundtrip as [Hl _]. apply Hl. split_and!; by vm_compute.
Defined.

Lemma DecodeRPC_sound_witness :
  RPC_Encode ex_rpc ++ bs "x" = RPC_Encode ex_rpc ++ bs "x" ∧ rpc_ok ex_rpc.
Proof. apply (DecodeRPC_sound (RPC_Encode ex_rpc ++ bs "x") ex_rpc (bs "x")). vm_compute. reflexivity. Defined.
