(* ===== verification/Lease.v ===== *)
(** * Leases (src/src/p2p/lease.go)

    Each node votes on lease requests from its [granted] table; an [Acquire]
    succeeds when a majority of the other peers granted it.  The handlers are
    functions of one [LeaseManager]; [lease_step] composes them into a cluster
    whose messages may be delayed and reordered. *)
From S2P Require Import Prelude Wire.
Open Scope Z_scope.

(** ** Data *)
Record Lease := mkHeld { HLeaseID : Z; HolderID : Z; HKey : bytes; HExpiry : Z; QuorumSize : Z }.

(** A pending [Acquire]: the buffered grant channel and its capacity. *)
Record grantChan := mkChan { ch_cap : nat; ch_buf : list bool }.

Record LeaseManager := mkLM {
  localID : Z;
  nextLeaseID : Z;
  granted : gmap bytes Z;
  held : gmap Z Lease;
  pending : gmap Z grantChan
}.

Definition NewLeaseManager (id : Z) : LeaseManager := mkLM id 0 ∅ ∅ ∅.

Definition set_granted (g : gmap bytes Z) (lm : LeaseManager) : LeaseManager :=
  mkLM (localID lm) (nextLeaseID lm) g (held lm) (pending lm).
Definition set_held (h : gmap Z Lease) (lm : LeaseManager) : LeaseManager :=
  mkLM (localID lm) (nextLeaseID lm) (granted lm) h (pending lm).
Definition set_pending (p : gmap Z grantChan) (lm : LeaseManager) : LeaseManager :=
  mkLM (localID lm) (nextLeaseID lm) (granted lm) (held lm) p.

(** ** Handlers *)
Definition cleanupExpired (lm : LeaseManager) (now : Z) : LeaseManager :=
  set_held (filter (λ kv, ¬ (HExpiry kv.2 < now)) (held lm))
    (set_granted (filter (λ kv, ¬ (kv.2 < now)) (granted lm)) lm).

(** [handleLeaseRequest]: the new state and the answer sent back. *)
Definition handleLeaseRequest (lm : LeaseManager) (payload : LeasePayload) (now : Z)
    : LeaseManager * LeasePayload :=
  let deny := (lm, mkLease (LeaseID payload) (LKey payload) 0) in
  let grant := (set_granted (<[LKey payload := Expiry payload]> (granted lm)) lm,
                mkLease (LeaseID payload) (LKey payload) (Expiry payload)) in
  match granted lm !! LKey payload with
  | Some existing => if now <? existing then deny else grant
  | None => grant
  end.

Definition handleLeaseGrant (lm : LeaseManager) (payload : LeasePayload) : LeaseManager :=
  match pending lm !! LeaseID payload with
  | None => lm
  | Some ch =>
      if (length (ch_buf ch) <? ch_cap ch)%nat
      then set_pending (<[LeaseID payload := mkChan (ch_cap ch) (ch_buf ch ++ [negb (Expiry payload =? 0)])]>
                          (pending lm)) lm
      else lm
  end.

Definition handleLeaseRelease (lm : LeaseManager) (payload : LeasePayload) : LeaseManager :=
  set_granted (delete (LKey payload) (granted lm)) lm.

(** [HandleLeaseRPC]: the state and the message to send, if any. *)
Definition HandleLeaseRPC (lm : LeaseManager) (rpc : RPC) (now : Z) : LeaseManager * option RPC :=
  match DecodeLeasePayload (Payload rpc) with
  | Err _ => (lm, None)
  | Ok p =>
      if Type_ rpc =? 6 then
        let '(lm, resp) := handleLeaseRequest lm p now in
        (lm, Some (mkRPC (localID lm) 7 (Lease_Encode resp)))
      else if Type_ rpc =? 7 then (handleLeaseGrant lm p, None)
      else if Type_ rpc =? 8 then (handleLeaseRelease lm p, None)
      else (lm, None)
  end.

Definition majorityQuorum (peerCount : Z) : Z :=
  if peerCount =? 0 then 0 else Z.quot peerCount 2 + 1.

(** The first half of [Acquire], up to the broadcast: [count] peers are known,
    [alive] other peers are alive. *)
Definition acquire_begin (lm : LeaseManager) (key : bytes) (duration now count alive : Z)
    : result (LeaseManager * LeasePayload * Z) :=
  if (0 <? count) && (alive =? 0) then Err ErrPlain
  else
    let quorum := majorityQuorum alive in
    let leaseID := uint64 (nextLeaseID lm + 1) in
    let lm := mkLM (localID lm) leaseID (granted lm) (held lm)
                (<[leaseID := mkChan (Z.to_nat alive) []]> (pending lm)) in
    Ok (lm, mkLease leaseID key (now + duration), quorum).

(** What the wait loop of [Acquire] receives. *)
Inductive acq_event := Recv (granted : bool) | TimedOut | Stopped.

Fixpoint collect_grants (quorum grants : Z) (events : list acq_event) : option (result Z) :=
  if quorum <=? grants then Some (Ok grants)
  else match events with
  | [] => None                                     (* still waiting *)
  | Recv g :: rest => collect_grants quorum (if g then grants + 1 else grants) rest
  | TimedOut :: _ => Some (Err ErrPlain)
  | Stopped :: _ => Some (Err ErrPlain)
  end.

(** The second half of [Acquire]: [sent] requests went out, then [events] came. *)
Definition acquire_finish (lm : LeaseManager) (p : LeasePayload) (quorum sent : Z) (events : list acq_event)
    : option (result Lease * LeaseManager) :=
  let done lm := set_pending (delete (LeaseID p) (pending lm)) lm in
  if sent <? quorum then Some (Err ErrPlain, done lm)
  else match collect_grants quorum 0 events with
  | None => None
  | Some (Err e) => Some (Err e, done lm)
  | Some (Ok grants) =>
      let lease := mkHeld (LeaseID p) (localID lm) (LKey p) (Expiry p) grants in
      Some (Ok lease, done (set_held (<[LeaseID p := lease]> (held lm)) lm))
  end.

(** [Release]: the state and the payload broadcast to all peers. *)
Definition Release (lm : LeaseManager) (lease : Lease) : LeaseManager * LeasePayload :=
  (set_held (delete (HLeaseID lease) (held lm)) lm, mkLease (HLeaseID lease) (HKey lease) 0).

Definition ReleaseByKey (lm : LeaseManager) (key : bytes) : LeaseManager * option LeasePayload :=
  match List.find (λ kv : Z * Lease, bool_decide (HKey kv.2 = key)) (map_to_list (held lm)) with
  | Some (id, _) => (set_held (delete id (held lm)) lm, Some (mkLease id key 0))
  | None => (lm, None)
  end.

Definition ActiveLeases (lm : LeaseManager) : nat := size (held lm).

(** ** The cluster *)

(** One [Acquire]: how many other peers were alive when it began, who was asked, whose
    grants came back, and whether the lease has been released since. *)
Record request := mkReq {
  rq_holder : Z;
  rq_payload : LeasePayload;
  rq_alive : Z;
  rq_asked : gset Z;
  rq_votes : gset Z;
  rq_released : bool
}.

Record cluster := mkCluster { mgr : gmap Z LeaseManager; clock : Z; reqs : list request }.

Definition members (c : cluster) : gset Z := dom (mgr c).

(** The test of [Acquire]: grants from a majority of the peers that were alive. *)
Definition acquired (r : request) : Prop := majorityQuorum (rq_alive r) <= Z.of_nat (size (rq_votes r)).

Definition vote (r : request) (v : Z) (granted : bool) : request :=
  mkReq (rq_holder r) (rq_payload r) (rq_alive r) ({[v]} ∪ rq_asked r)
    (if granted then {[v]} ∪ rq_votes r else rq_votes r) (rq_released r).
Definition released (r : request) : request :=
  mkReq (rq_holder r) (rq_payload r) (rq_alive r) (rq_asked r) (rq_votes r) true.
Definition lease_of (r : request) : Lease :=
  mkHeld (LeaseID (rq_payload r)) (rq_holder r) (LKey (rq_payload r)) (Expiry (rq_payload r)) (Z.of_nat (size (rq_votes r))).

(** A lease in force. *)
Definition live (c : cluster) (r : request) : Prop := rq_released r = false ∧ clock c < Expiry (rq_payload r).

(** Node [v] has no vote in force for the key of [r]. *)
Definition timely (c : cluster) (r : request) (v : Z) : Prop :=
  ∀ j q, reqs c !! j = Some q → LKey (rq_payload q) = LKey (rq_payload r) → v ∈ rq_votes q → ¬ live c q.

(** What the nodes do: time passes, a node begins an [Acquire], a request reaches a
    voter, a holder releases, the release reaches a node, expired grants are swept.
    Messages may be delayed, reordered or lost.  Where [late] is false a release
    reaches a node only while that node has no vote in force for the key. *)
Inductive lease_step (late : bool) : cluster → cluster → Prop :=
  | ls_tick c d : 0 <= d → lease_step late c (mkCluster (mgr c) (clock c + d) (reqs c))
  | ls_begin c h lm lm' key duration count alive p q :
      mgr c !! h = Some lm → acquire_begin lm key duration (clock c) count alive = Ok (lm', p, q) →
      lease_step late c (mkCluster (<[h := lm']> (mgr c)) (clock c) (reqs c ++ [mkReq h p alive ∅ ∅ false]))
  | ls_deliver c i r v lm lm' resp :
      reqs c !! i = Some r → v ≠ rq_holder r → v ∉ rq_asked r → mgr c !! v = Some lm →
      handleLeaseRequest lm (rq_payload r) (clock c) = (lm', resp) →
      lease_step late c (mkCluster (<[v := lm']> (mgr c)) (clock c) (<[i := vote r v (negb (Expiry resp =? 0))]> (reqs c)))
  | ls_release c i r lm :
      reqs c !! i = Some r → acquired r → mgr c !! rq_holder r = Some lm →
      lease_step late c (mkCluster (<[rq_holder r := (Release lm (lease_of r)).1]> (mgr c)) (clock c) (<[i := released r]> (reqs c)))
  | ls_released c i r v lm :
      reqs c !! i = Some r → rq_released r = true → v ≠ rq_holder r → mgr c !! v = Some lm →
      (late = false → timely c r v) →
      lease_step late c (mkCluster (<[v := handleLeaseRelease lm (mkLease (LeaseID (rq_payload r)) (LKey (rq_payload r)) 0)]> (mgr c)) (clock c) (reqs c))
  | ls_cleanup c v lm : mgr c !! v = Some lm →
      lease_step late c (mkCluster (<[v := cleanupExpired lm (clock c)]> (mgr c)) (clock c) (reqs c)).

(** Delivering request [i] to node [v], and beginning a request, as functions. *)
Definition deliver (c : cluster) (i : nat) (v : Z) : cluster :=
  match reqs c !! i, mgr c !! v with
  | Some r, Some lm =>
      let '(lm', resp) := handleLeaseRequest lm (rq_payload r) (clock c) in
      mkCluster (<[v := lm']> (mgr c)) (clock c) (<[i := vote r v (negb (Expiry resp =? 0))]> (reqs c))
  | _, _ => c
  end.

Definition can_deliver (c : cluster) (i : nat) (v : Z) : bool :=
  match reqs c !! i, mgr c !! v with
  | Some r, Some _ => negb (v =? rq_holder r) && bool_decide (v ∉ rq_asked r)
  | _, _ => false
  end.

Definition begin_req (c : cluster) (h : Z) (key : bytes) (duration count alive : Z) : cluster :=
  match mgr c !! h with
  | Some lm =>
      match acquire_begin lm key duration (clock c) count alive with
      | Ok (lm', p, _) => mkCluster (<[h := lm']> (mgr c)) (clock c) (reqs c ++ [mkReq h p alive ∅ ∅ false])
      | Err _ => c
      end
  | None => c
  end.

Definition can_begin (c : cluster) (h count alive : Z) : bool :=
  match mgr c !! h with Some _ => negb ((0 <? count) && (alive =? 0)) | None => false end.

Lemma deliver_step late c i v : can_deliver c i v = true → lease_step late c (deliver c i v).
Proof.
  unfold can_deliver, deliver. destruct (reqs c !! i) as [r|] eqn:Er; [|done].
  destruct (mgr c !! v) as [lm|] eqn:Em; [|done].
  destruct (handleLeaseRequest lm (rq_payload r) (clock c)) as [lm' resp] eqn:Eh.
  intros [E1 E2%bool_decide_eq_true]%andb_prop. zbool. by eapply ls_deliver.
Qed.

Lemma begin_step late c h key duration count alive : can_begin c h count alive = true → lease_step late c (begin_req c h key duration count alive).
Proof.
  unfold can_begin, begin_req. destruct (mgr c !! h) as [lm|] eqn:Em; [|done]. intros E%negb_true_iff.
  destruct (acquire_begin lm key duration (clock c) count alive) as [[[lm' p] q]|] eqn:Ea; [by eapply ls_begin|].
  unfold acquire_begin in Ea. by rewrite E in Ea.
Qed.

(** Votes come from other members; a vote in force is recorded at its voter, and no voter
    has two votes in force for one key. *)
Record lease_inv (c : cluster) : Prop := {
  li_voter : ∀ i r v, reqs c !! i = Some r → v ∈ rq_votes r →
    v ∈ rq_asked r ∧ v ≠ rq_holder r ∧
    ∃ lm, mgr c !! v = Some lm ∧ (live c r → granted lm !! LKey (rq_payload r) = Some (Expiry (rq_payload r)));
  li_once : ∀ i j ri rj v, reqs c !! i = Some ri → reqs c !! j = Some rj → i ≠ j →
    v ∈ rq_votes ri → v ∈ rq_votes rj → LKey (rq_payload ri) = LKey (rq_payload rj) →
    live c ri → live c rj → False
}.

(** ** Lemmas *)
Lemma quorum_odd n : 0 < n → n mod 2 = 1 → 2 * majorityQuorum (n - 1) > n ∨ n = 1.
Proof.
  intros Hn Ho. unfold majorityQuorum. destruct (n - 1 =? 0) eqn:E; zbool; [right; lia|left].
  rewrite Z.quot_div_nonneg by lia. pose proof (Z.div_mod n 2). pose proof (Z.div_mod (n - 1) 2).
  pose proof (Z.mod_pos_bound (n - 1) 2). lia.
Qed.

Lemma request_answer lm p now lm' resp :
  handleLeaseRequest lm p now = (lm', resp) → Expiry resp ≠ 0 →
  lm' = set_granted (<[LKey p := Expiry p]> (granted lm)) lm
  ∧ ∀ e, granted lm !! LKey p = Some e → e <= now.
Proof.
  unfold handleLeaseRequest. destruct (granted lm !! LKey p) as [e|] eqn:E.
  - destruct (now <? e) eqn:El; intros [= <- <-] Hne; [by destruct Hne|]. zbool.
    split; [done|]. by intros ? [= <-].
  - intros [= <- <-] _. split; [done|]. by intros ? [=].
Qed.

Lemma request_deny lm p now lm' resp :
  handleLeaseRequest lm p now = (lm', resp) → Expiry resp = 0 →
  ∀ k e, granted lm !! k = Some e → now < e → granted lm' !! k = Some e.
Proof.
  unfold handleLeaseRequest. destruct (granted lm !! LKey p) as [e0|] eqn:E.
  - destruct (now <? e0) eqn:El; intros [= <- <-] He k e Hk Hlt; [done|]. zbool.
    cbn [granted set_granted]. rewrite lookup_insert. case_decide as Ek; [|done].
    subst k. rewrite E in Hk. injection Hk as <-. lia.
  - intros [= <- <-] He k e Hk Hlt. cbn [granted set_granted]. rewrite lookup_insert.
    case_decide as Ek; [|done]. subst k. congruence.
Qed.

Lemma members_insert c v lm lm' t l : mgr c !! v = Some lm → members (mkCluster (<[v := lm']> (mgr c)) t l) = members c.
Proof. intros Hm. unfold members. cbn [mgr]. rewrite dom_insert_L. apply elem_of_dom_2 in Hm. set_solver. Qed.

(** A node that keeps its votes in force keeps the invariant. *)
Lemma inv_manager c v lm lm' :
  lease_inv c → mgr c !! v = Some lm →
  (∀ i r, reqs c !! i = Some r → v ∈ rq_votes r → live c r →
     granted lm !! LKey (rq_payload r) = Some (Expiry (rq_payload r)) → granted lm' !! LKey (rq_payload r) = Some (Expiry (rq_payload r))) →
  lease_inv (mkCluster (<[v := lm']> (mgr c)) (clock c) (reqs c)).
Proof.
  intros [Hv Ho] Hm Hk. split; cbn [reqs clock mgr]; [|exact Ho].
  intros i r u Hr Hin. destruct (Hv i r u Hr Hin) as (H1 & H2 & lmu & H3 & H4). split_and!; [done..|].
  destruct (decide (u = v)) as [->|Hu]; [|exists lmu; by rewrite lookup_insert_ne].
  assert (lmu = lm) as -> by congruence. exists lm'. rewrite lookup_insert_eq. split; [done|]. intros Hl. exact (Hk i r Hr Hin Hl (H4 Hl)).
Qed.

(** A request without votes, and one that is released. *)
Lemma inv_begin c r : lease_inv c → rq_votes r = ∅ → lease_inv (mkCluster (mgr c) (clock c) (reqs c ++ [r])).
Proof.
  intros [Hv Ho] Hr. assert (∀ k q v, (reqs c ++ [r]) !! k = Some q → v ∈ rq_votes q → reqs c !! k = Some q) as Hk.
  { intros k q v [?|[_ Hq]]%lookup_app_Some Hin; [done|]. apply list_lookup_singleton_Some in Hq as [_ <-]. rewrite Hr in Hin. set_solver. }
  split; cbn [reqs clock mgr].
  - intros i q v Hq Hin. apply (Hv i q v); [by eapply Hk|done].
  - intros i j ri rj v H1 H2 H3 H4 H5. apply (Ho i j ri rj v); [by eapply Hk|by eapply Hk|done..].
Qed.

Lemma inv_released c i r : lease_inv c → reqs c !! i = Some r → lease_inv (mkCluster (mgr c) (clock c) (<[i := released r]> (reqs c))).
Proof.
  intros [Hv Ho] Hr. split; cbn [reqs clock mgr].
  - intros j q v [(<- & <- & _)|[_ Hq]]%list_lookup_insert_Some Hin; [|by apply (Hv j q v)].
    destruct (Hv i r v Hr Hin) as (H1 & H2 & lm & H3 & _). split_and!; [done..|]. exists lm. split; [done|]. by intros [[=] _].
  - intros j k qj qk v [(<- & <- & _)|[_ Hj]]%list_lookup_insert_Some; [by intros _ _ _ _ _ [[=] _]|].
    intros [(<- & <- & _)|[_ Hk]]%list_lookup_insert_Some; [by intros _ _ _ _ _ [[=] _]|]. by apply (Ho j k qj qk v).
Qed.

Lemma inv_deliver c i r v lm lm' resp :
  lease_inv c → reqs c !! i = Some r → v ≠ rq_holder r → v ∉ rq_asked r → mgr c !! v = Some lm →
  handleLeaseRequest lm (rq_payload r) (clock c) = (lm', resp) →
  lease_inv (mkCluster (<[v := lm']> (mgr c)) (clock c) (<[i := vote r v (negb (Expiry resp =? 0))]> (reqs c))).
Proof.
  intros Hi Hr Hne Ha Hm Hreq. pose proof Hi as [Hv Ho].
  assert (∀ k e, granted lm !! k = Some e → clock c < e → granted lm' !! k = Some e) as Hkeep.
  { destruct (decide (Expiry resp = 0)) as [E0|E0]; [by eapply request_deny|].
    destruct (request_answer _ _ _ _ _ Hreq E0) as [-> Hold]. intros k e Hke Hlt.
    cbn [granted set_granted]. rewrite lookup_insert. case_decide as Ek; [|done]. subst k. specialize (Hold e Hke). lia. }
  destruct (inv_manager c v lm lm' Hi Hm) as [Hv' _].
  { intros j q _ _ [_ Hlt] Hg. by apply Hkeep. }
  cbn [reqs clock mgr] in Hv'.
  assert (∀ u, u ∈ rq_votes (vote r v (negb (Expiry resp =? 0))) → u ∈ rq_votes r ∨ u = v ∧ Expiry resp ≠ 0) as Hnew.
  { intros u. cbn [vote rq_votes]. destruct (Expiry resp =? 0) eqn:E; cbn [negb]; [by left|]. zbool. rewrite elem_of_union, elem_of_singleton. naive_solver. }
  assert (∀ j q u, reqs c !! j = Some q → j ≠ i → u ∈ rq_votes q → u ∈ rq_votes (vote r v (negb (Expiry resp =? 0))) →
    LKey (rq_payload q) = LKey (rq_payload r) → live c q → live c r → False) as Hpair.
  { intros j q u Hq Hji Huq Hur Hkey Lq Lr. apply Hnew in Hur as [Hur|[-> E0]]; [by apply (Ho j i q r u)|].
    destruct (request_answer _ _ _ _ _ Hreq E0) as [_ Hold]. destruct (Hv j q v Hq Huq) as (_ & _ & lmv & H3 & H4).
    assert (lmv = lm) as -> by congruence. specialize (H4 Lq). rewrite Hkey in H4. specialize (Hold _ H4). destruct Lq. lia. }
  split; cbn [reqs clock mgr].
  - intros j q u [(<- & <- & _)|[_ Hq]]%list_lookup_insert_Some Hin; [|by apply (Hv' j q u)].
    apply Hnew in Hin as [Hin|[-> E0]].
    + destruct (Hv' i r u Hr Hin) as (H1 & H2 & H3). split_and!; [cbn; set_solver|done|done].
    + destruct (request_answer _ _ _ _ _ Hreq E0) as [-> _]. split_and!; [cbn; set_solver|done|]. eexists. rewrite lookup_insert_eq.
      split; [done|]. intros _. cbn [granted set_granted rq_payload vote]. by rewrite lookup_insert_eq.
  - intros j k qj qk u [(<- & <- & _)|[Hij Hj]]%list_lookup_insert_Some [(<- & <- & _)|[Hik Hk]]%list_lookup_insert_Some Hjk Huj Huk Hkey Lj Lk.
    + done.
    + apply (Hpair k qk u); try done.
    + by apply (Hpair j qj u).
    + by apply (Ho j k qj qk u).
Qed.

Lemma lease_step_inv c c' : lease_step false c c' → lease_inv c → lease_inv c' ∧ members c' = members c.
Proof.
  intros Hs Hi.
  destruct Hs as [c d Hd|c h lm lm' key dur n a p q Hm Hb|c i r v lm lm' resp Hr Hne Ha Hm Hreq|c i r lm Hr Hq Hm|c i r v lm Hr Hrel Hne Hm Hlate|c v lm Hm].
  - split; [|done]. destruct Hi as [Hv Ho]. assert (∀ r, live (mkCluster (mgr c) (clock c + d) (reqs c)) r → live c r) as Hl
      by (intros r [? Hlt]; split; [done|]; cbn in Hlt; lia). split; cbn [reqs mgr].
    + intros i r v Hr Hin. destruct (Hv i r v Hr Hin) as (? & ? & lm & ? & Hg). split_and!; [done..|]. exists lm. eauto.
    + intros i j ri rj v H1 H2 H3 H4 H5 H6 L1 L2. by apply (Ho i j ri rj v); auto.
  - split; [|by eapply members_insert]. refine (inv_begin (mkCluster (<[h := lm']> (mgr c)) (clock c) (reqs c)) (mkReq h p a ∅ ∅ false) _ eq_refl).
    apply (inv_manager c h lm lm' Hi Hm). intros _ r _ _ _. unfold acquire_begin in Hb. destruct (_ && _); [done|]. by injection Hb as <- _ _.
  - split; [by eapply inv_deliver|by eapply members_insert].
  - split; [|by eapply members_insert]. refine (inv_released (mkCluster (<[rq_holder r := (Release lm (lease_of r)).1]> (mgr c)) (clock c) (reqs c)) i r _ Hr).
    by apply (inv_manager c _ lm).
  - split; [|by eapply members_insert]. apply (inv_manager c v lm); [done|done|]. intros j q Hj Hin Hl Hg.
    cbn [handleLeaseRelease granted set_granted LKey]. rewrite lookup_delete_ne; [done|]. intros Hkey. by destruct (Hlate eq_refl j q Hj (eq_sym Hkey) Hin).
  - split; [|by eapply members_insert]. apply (inv_manager c v lm); [done|done|]. intros i r _ _ [_ Hlt] Hg.
    cbn [granted cleanupExpired set_held set_granted]. apply map_lookup_filter_Some. split; [done|]. cbn. lia.
Qed.

Lemma lease_reach_inv c c' : lease_inv c → rtc (lease_step false) c c' → lease_inv c' ∧ members c' = members c.
Proof.
  intros Hi. induction 1 as [|x y z Hxy _ IH]; [done|].
  destruct (lease_step_inv x y Hxy Hi) as [Hy Hm]. destruct (IH Hy) as [? ?]. split; [done|]. congruence.
Qed.

Definition start (ids : list Z) : cluster :=
  mkCluster (list_to_map ((λ id, (id, NewLeaseManager id)) <$> ids)) 0 [].

Lemma start_members ids : members (start ids) = list_to_set ids.
Proof.
  unfold members, start. cbn [mgr]. rewrite dom_list_to_map_L. f_equal.
  rewrite <- list_fmap_compose. apply list_fmap_id.
Qed.

Lemma start_inv ids : lease_inv (start ids).
Proof. split; cbn [start reqs]; intros; by rewrite lookup_nil in *. Qed.

(** Two quorums of the other members meet when the cluster size is odd. *)
Lemma quorums_meet (M A B : gset Z) n :
  Z.of_nat (size M) = n → 1 < n → n mod 2 = 1 → A ⊆ M → B ⊆ M →
  majorityQuorum (n - 1) <= Z.of_nat (size A) → majorityQuorum (n - 1) <= Z.of_nat (size B) →
  ∃ v, v ∈ A ∧ v ∈ B.
Proof.
  intros Hn H1 Ho HA HB QA QB.
  destruct (decide (A ∩ B = ∅)) as [He|He].
  - exfalso. destruct (quorum_odd n ltac:(lia) Ho) as [Hq|?]; [|lia].
    assert (size (A ∪ B) = size A + size B)%nat as Hu by (apply size_union; set_solver).
    assert (size (A ∪ B) <= size M)%nat as Hle by (apply subseteq_size; set_solver). lia.
  - apply set_choose_L in He as [v Hv]. exists v. set_solver.
Qed.

(** ** Properties *)

(** C30: leases exclude each other while every holder sees the whole cluster.  In a
    cluster with an odd number of members (at least three) and one clock, however
    acquisitions, votes, releases, clock ticks and expiry sweeps interleave and
    whatever messages are delayed or lost: of two acquired leases on one key whose
    holders both had all other members alive when they asked, one has expired or was
    released, provided a release reaches a node only while that node has no vote in
    force for the key.  Each condition is needed: the quorum counts the alive peers
    only, so both sides of a partition acquire ([lease_partition_unsafe]); the holder
    does not vote, so two nodes of an even cluster do ([lease_even_unsafe]); and a late
    release drops the vote for the next holder ([lease_late_release_unsafe]). *)
Theorem lease_mutual_exclusion ids c i j ri rj :
  NoDup ids → 1 < Z.of_nat (length ids) → Z.of_nat (length ids) mod 2 = 1 →
  rtc (lease_step false) (start ids) c →
  reqs c !! i = Some ri → reqs c !! j = Some rj → i ≠ j →
  LKey (rq_payload ri) = LKey (rq_payload rj) → acquired ri → acquired rj →
  rq_alive ri = Z.of_nat (length ids) - 1 → rq_alive rj = Z.of_nat (length ids) - 1 →
  ¬ (live c ri ∧ live c rj).
Proof.
  intros Hnd H1 Ho Hr Hi Hj Hij Hk Qi Qj Ai Aj [Li Lj].
  destruct (lease_reach_inv _ _ (start_inv ids) Hr) as [[Hv Hon] Hm]. rewrite start_members in Hm.
  assert (size (members c) = length ids) as Hsz by (rewrite Hm; by apply size_list_to_set).
  assert (∀ k q, reqs c !! k = Some q → rq_votes q ⊆ members c) as Hsub.
  { intros k q Hq v Hin. destruct (Hv k q v Hq Hin) as (_ & _ & lm & Hlm & _). unfold members. by apply elem_of_dom_2 in Hlm. }
  unfold acquired in *. rewrite Ai in Qi. rewrite Aj in Qj.
  destruct (quorums_meet (members c) (rq_votes ri) (rq_votes rj) (Z.of_nat (length ids))) as (v & H2 & H3);
    [by rewrite Hsz|done|done|by eapply Hsub|by eapply Hsub|done|done|].
  by apply (Hon i j ri rj v).
Qed.

(** A vote is never given twice: a peer that has granted a key denies every
    request for it until the granted expiry has passed, and a granted request is
    what the peer remembers. *)
Theorem lease_vote_exclusive lm p q now now' lm1 r1 lm2 r2 :
  handleLeaseRequest lm p now = (lm1, r1) → Expiry r1 ≠ 0 → LKey q = LKey p → now' < Expiry p →
  handleLeaseRequest (cleanupExpired lm1 now') q now' = (lm2, r2) →
  Expiry r2 = 0 ∧ granted lm2 !! LKey p = Some (Expiry p).
Proof.
  intros Hp Hne Hk Hlt Hq. destruct (request_answer _ _ _ _ _ Hp Hne) as [-> _].
  assert (granted (cleanupExpired (set_granted (<[LKey p := Expiry p]> (granted lm)) lm) now') !! LKey p
          = Some (Expiry p)) as Hg.
  { cbn [granted cleanupExpired set_held set_granted]. apply map_lookup_filter_Some.
    rewrite lookup_insert_eq. split; [done|]. cbn. lia. }
  unfold handleLeaseRequest in Hq. rewrite Hk, Hg in Hq. rewrite (proj2 (Z.ltb_lt _ _)) in Hq by done.
  injection Hq as <- <-. done.
Qed.

(** Two leases on one key are in force at once. *)
Definition double_held (c : cluster) : Prop :=
  ∃ ri rj, reqs c !! 0%nat = Some ri ∧ reqs c !! 1%nat = Some rj ∧ rq_holder ri ≠ rq_holder rj
  ∧ LKey (rq_payload ri) = LKey (rq_payload rj) ∧ acquired ri ∧ acquired rj ∧ live c ri ∧ live c rj.

Definition lk : bytes := bs "key".

(** Two requests that cross in a two-node cluster. *)
Definition two_asked : cluster := begin_req (begin_req (start [1; 2]) 1 lk 10 1 1) 2 lk 20 1 1.
Definition two_holders : cluster := deliver (deliver two_asked 0 2) 1 1.

(** With an even number of members the quorum of the other peers is not
    exclusive: in a two-node cluster both nodes can hold an unexpired lease on
    the same key at the same time. *)
Theorem lease_even_unsafe : rtc (lease_step false) (start [1; 2]) two_holders ∧ double_held two_holders.
Proof.
  split.
  - eapply rtc_l; [apply (begin_step false (start [1; 2]) 1 lk 10 1 1); vm_compute; reflexivity|].
    eapply rtc_l; [apply (begin_step false _ 2 lk 20 1 1); vm_compute; reflexivity|].
    eapply rtc_l; [apply (deliver_step false two_asked 0 2); vm_compute; reflexivity|].
    apply rtc_once, deliver_step. vm_compute. reflexivity.
  - eexists _, _. split; [vm_compute; reflexivity|]. split; [vm_compute; reflexivity|]. split_and!; try done; vm_compute; done.
Qed.

(** Five members split in two and three: each side sees only its own peers alive. *)
Definition five : cluster := start [1; 2; 3; 4; 5].
Definition split_asked : cluster := begin_req (begin_req five 1 lk 10 4 1) 3 lk 20 4 2.
Definition split_holders : cluster := deliver (deliver (deliver split_asked 0 2) 1 4) 1 5.

(** On both sides of a partition a node acquires the lease: the quorum is a majority of
    the peers that are alive in the node's view. *)
Theorem lease_partition_unsafe : rtc (lease_step false) five split_holders ∧ double_held split_holders.
Proof.
  split.
  - eapply rtc_l; [apply (begin_step false five 1 lk 10 4 1); vm_compute; reflexivity|].
    eapply rtc_l; [apply (begin_step false _ 3 lk 20 4 2); vm_compute; reflexivity|].
    eapply rtc_l; [apply (deliver_step false split_asked 0 2); vm_compute; reflexivity|].
    eapply rtc_l; [apply (deliver_step false _ 1 4); vm_compute; reflexivity|].
    apply rtc_once, deliver_step. vm_compute. reflexivity.
  - eexists _, _. split; [vm_compute; reflexivity|]. split; [vm_compute; reflexivity|]. split_and!; try done; vm_compute; done.
Qed.

(** A release is honoured whoever sends it: a late release of an old lease on
    a key erases the vote for the current holder, and the peer then grants the
    key to a third node although the current lease has not expired. *)
Theorem lease_stale_release lm stale q now e :
  granted lm !! LKey q = Some e → now < e → LKey stale = LKey q → Expiry q ≠ 0 →
  (handleLeaseRequest lm q now).2 = mkLease (LeaseID q) (LKey q) 0
  ∧ (handleLeaseRequest (handleLeaseRelease lm stale) q now).2 = mkLease (LeaseID q) (LKey q) (Expiry q).
Proof.
  intros Hg Hlt Hk Hq. unfold handleLeaseRequest. split.
  - rewrite Hg. by rewrite (proj2 (Z.ltb_lt _ _)).
  - cbn [granted handleLeaseRelease set_granted]. rewrite Hk, lookup_delete_eq. done.
Qed.

(** Three members.  Node 3 holds a lease, releases it, and the release is slow to reach
    node 2; node 1 acquires with the votes of 2 and 3; then the release arrives at node 2,
    which votes for node 3 again. *)
Definition late0 : cluster := deliver (deliver (begin_req (start [1; 2; 3]) 3 lk 10 2 2) 0 1) 0 2.
Definition late_req (c : cluster) (i : nat) : request := default (mkReq 0 (mkLease 0 [] 0) 0 ∅ ∅ false) (reqs c !! i).
Definition late_mgr (c : cluster) (v : Z) : LeaseManager := default (NewLeaseManager 0) (mgr c !! v).
Definition release_req (c : cluster) (i : nat) : cluster :=
  let r := late_req c i in
  mkCluster (<[rq_holder r := (Release (late_mgr c (rq_holder r)) (lease_of r)).1]> (mgr c)) (clock c) (<[i := released r]> (reqs c)).
Definition hear_release (c : cluster) (i : nat) (v : Z) : cluster :=
  let r := late_req c i in
  mkCluster (<[v := handleLeaseRelease (late_mgr c v) (mkLease (LeaseID (rq_payload r)) (LKey (rq_payload r)) 0)]> (mgr c)) (clock c) (reqs c).
Definition late1 : cluster := hear_release (release_req late0 0) 0 1.
Definition late2 : cluster := mkCluster (mgr late1) (clock late1 + 15) (reqs late1).
Definition late3 : cluster := deliver (deliver (begin_req late2 1 lk 100 2 2) 1 2) 1 3.
Definition late4 : cluster := deliver (deliver (begin_req (hear_release late3 0 2) 3 lk 100 2 2) 2 1) 2 2.

(** With late releases two holders that see everyone hold one key: node 1 and node 3. *)
Theorem lease_late_release_unsafe :
  rtc (lease_step true) (start [1; 2; 3]) late4
  ∧ acquired (late_req late4 1) ∧ acquired (late_req late4 2) ∧ live late4 (late_req late4 1) ∧ live late4 (late_req late4 2)
  ∧ rq_holder (late_req late4 1) = 1 ∧ rq_holder (late_req late4 2) = 3
  ∧ LKey (rq_payload (late_req late4 1)) = lk ∧ LKey (rq_payload (late_req late4 2)) = lk.
Proof.
  split; [|split_and!; vm_compute; done].
  eapply rtc_l; [apply (begin_step true (start [1; 2; 3]) 3 lk 10 2 2); vm_compute; reflexivity|].
  eapply rtc_l; [apply (deliver_step true _ 0 1); vm_compute; reflexivity|].
  eapply rtc_l; [apply (deliver_step true _ 0 2); vm_compute; reflexivity|].
  eapply rtc_l; [apply (ls_release true late0 0 (late_req late0 0) (late_mgr late0 3)); vm_compute; done|].
  eapply rtc_l; [apply (ls_released true (release_req late0 0) 0 (late_req (release_req late0 0) 0) 1 (late_mgr (release_req late0 0) 1)); vm_compute; done|].
  eapply rtc_l; [apply (ls_tick true late1 15); lia|].
  eapply rtc_l; [apply (begin_step true late2 1 lk 100 2 2); vm_compute; reflexivity|].
  eapply rtc_l; [apply (deliver_step true _ 1 2); vm_compute; reflexivity|].
  eapply rtc_l; [apply (deliver_step true _ 1 3); vm_compute; reflexivity|].
  eapply rtc_l; [apply (ls_released true late3 0 (late_req late3 0) 2 (late_mgr late3 2)); vm_compute; done|].
  eapply rtc_l; [apply (begin_step true (hear_release late3 0 2) 3 lk 100 2 2); vm_compute; reflexivity|].
  eapply rtc_l; [apply (deliver_step true _ 2 1); vm_compute; reflexivity|].
  apply rtc_once, deliver_step. vm_compute. reflexivity.
Qed.

(** ** Witnesses *)
Definition lw1 : LeaseManager := NewLeaseManager 1.
Definition lwp : LeasePayload := mkLease 1 (bs "k") 100.
Definition lwq : LeasePayload := mkLease 9 (bs "k") 200.

Lemma lease_vote_exclusive_witness :
  Expiry (mkLease 9 (bs "k") 0) = 0
  ∧ granted (cleanupExpired (handleLeaseRequest lw1 lwp 5).1 50) !! LKey lwp = Some (Expiry lwp).
Proof.
  apply (lease_vote_exclusive lw1 lwp lwq 5 50 (handleLeaseRequest lw1 lwp 5).1 (mkLease 1 (bs "k") 100));
    done.
Defined.

Lemma lease_stale_release_witness :
  (handleLeaseRequest (handleLeaseRequest lw1 lwp 5).1 lwq 50).2 = mkLease 9 (bs "k") 0
  ∧ (handleLeaseRequest (handleLeaseRelease (handleLeaseRequest lw1 lwp 5).1 (mkLease 3 (bs "k") 0)) lwq 50).2
    = mkLease 9 (bs "k") 200.
Proof.
  apply (lease_stale_release (handleLeaseRequest lw1 lwp 5).1 (mkLease 3 (bs "k") 0) lwq 50 100);
    done.
Defined.

(** Three nodes: node 1 wins and releases, its release reaches nodes 2 and 3, and node 2
    wins while the first lease has not expired. *)
Definition three_won : cluster := deliver (deliver (begin_req (start [1; 2; 3]) 1 lk 10 2 2) 0 2) 0 3.
Definition three_free : cluster := hear_release (hear_release (release_req three_won 0) 0 2) 0 3.
Definition three_end : cluster := deliver (deliver (begin_req three_free 2 lk 20 2 2) 1 1) 1 3.

Lemma sole_timely c r v : reqs c = [r] → rq_released r = true → timely c r v.
Proof. intros Hc Hr j q Hq _ _ [Hl _]. rewrite Hc in Hq. apply list_lookup_singleton_Some in Hq as [_ <-]. congruence. Qed.

Lemma three_reach : rtc (lease_step false) (start [1; 2; 3]) three_end.
Proof.
  eapply rtc_l; [apply (begin_step false (start [1; 2; 3]) 1 lk 10 2 2); vm_compute; reflexivity|].
  eapply rtc_l; [apply (deliver_step false _ 0 2); vm_compute; reflexivity|].
  eapply rtc_l; [apply (deliver_step false _ 0 3); vm_compute; reflexivity|].
  eapply rtc_l; [apply (ls_release false three_won 0 (late_req three_won 0) (late_mgr three_won 1)); vm_compute; done|].
  eapply rtc_l; [apply (ls_released false (release_req three_won 0) 0 (late_req (release_req three_won 0) 0) 2 (late_mgr (release_req three_won 0) 2));
    [vm_compute; done..|intros _; apply sole_timely; vm_compute; reflexivity]|].
  eapply rtc_l; [apply (ls_released false (hear_release (release_req three_won 0) 0 2) 0 (late_req (hear_release (release_req three_won 0) 0 2) 0) 3
    (late_mgr (hear_release (release_req three_won 0) 0 2) 3)); [vm_compute; done..|intros _; apply sole_timely; vm_compute; reflexivity]|].
  eapply rtc_l; [apply (begin_step false three_free 2 lk 20 2 2); vm_compute; reflexivity|].
  eapply rtc_l; [apply (deliver_step false _ 1 1); vm_compute; reflexivity|].
  apply rtc_once, deliver_step. vm_compute. reflexivity.
Qed.

Lemma lease_mutual_exclusion_witness :
  clock three_end < Expiry (rq_payload (late_req three_end 0)) ∧ live three_end (late_req three_end 1)
  ∧ ¬ (live three_end (late_req three_end 0) ∧ live three_end (late_req three_end 1)).
Proof.
  split; [vm_compute; reflexivity|]. split; [vm_compute; done|].
  apply (lease_mutual_exclusion [1; 2; 3] three_end 0 1 (late_req three_end 0) (late_req three_end 1));
    [apply (bool_decide_unpack _); vm_compute; done|done|done|apply three_reach|
     vm_compute; reflexivity|vm_compute; reflexivity|done|vm_compute; reflexivity|by vm_compute|by vm_compute|
     vm_compute; reflexivity|vm_compute; reflexivity].
Defined.
