(* ===== verification/Chunked.v ===== *)
(** * The aws-chunked body decoder (src/src/transport/aws_chunked.go)

    [awsChunkedReader] strips the framing of a signed or unsigned streaming
    upload while checking the signature chain.  The connection is the bytes that
    will arrive and how the stream then ends; a hash in progress is the bytes
    fed to it.  [Read] is the Go method: the bytes delivered into a buffer of
    the caller's size, and what it returned. *)
From S2P Require Import Prelude GoText Hashes Paths.
Open Scope Z_scope.

(** ** Constants *)
Definition maxAWSChunkSize : Z := 8 * 1024 * 1024.
Definition maxAWSChunkHeaderLine : Z := 1024.
Definition maxAWSChunkTrailers : Z := 64 * 1024.
Definition awsChunkSigField : bytes := bs "chunk-signature=".
Definition awsChunkEmptySHA256 : bytes :=
  bs "e3b0c44298fc1c149afbf4c8996fb92427ae41e4649b934ca495991b7852b855".
Definition awsChunkStringToSignPayload : bytes := bs "AWS4-HMAC-SHA256-PAYLOAD".
Definition s3StreamingSignedPayload : bytes := bs "STREAMING-AWS4-HMAC-SHA256-PAYLOAD".
Definition s3StreamingSignedTrailer : bytes := bs "STREAMING-AWS4-HMAC-SHA256-PAYLOAD-TRAILER".
Definition s3StreamingUnsignedTrailer : bytes := bs "STREAMING-UNSIGNED-PAYLOAD-TRAILER".
Definition s3StreamingContentEncoding : bytes := bs "aws-chunked".

(** ** Request classification *)
Inductive streamingMode := streamingNone | streamingSigned | streamingSignedTrailer | streamingUnsignedTrailer.

(** [strings.Contains] *)
Fixpoint contains (s sub : bytes) : bool :=
  has_prefix s sub || match s with [] => false | _ :: s' => contains s' sub end.

Definition streamingModeOf (sha256Literal contentEncoding : bytes) : streamingMode :=
  let enc := contains contentEncoding s3StreamingContentEncoding in
  if decide (sha256Literal = s3StreamingSignedPayload) then streamingSigned
  else if decide (sha256Literal = s3StreamingSignedTrailer) then streamingSignedTrailer
  else if decide (sha256Literal = s3StreamingUnsignedTrailer) then streamingUnsignedTrailer
  else if enc then streamingUnsignedTrailer else streamingNone.

Definition isStreamingLiteral (hash : bytes) : bool :=
  bool_decide (hash = s3StreamingSignedPayload) || bool_decide (hash = s3StreamingSignedTrailer)
  || bool_decide (hash = s3StreamingUnsignedTrailer) || has_prefix hash (bs "STREAMING-").

(** ** The reader *)
Record streamingSigningCtx := mkCtx { ctx_key : bytes; ctx_date : bytes; ctx_scope : bytes; ctx_seed : bytes }.

Record awsChunkedReader := mkCR {
  source : bytes;               (* what the connection will deliver *)
  source_err : option error;    (* how it ends; None is io.EOF *)
  signing : option (bytes * bytes * bytes);   (* signingKey, amzDate, scope *)
  prevSig : bytes;
  trailers : bool;
  maxTotal : Z;
  chunkHasher : bytes;
  contentHash : bytes;
  chunkSig : bytes;
  remaining : Z;
  needHeader : bool;
  decoded : Z;
  rdone : bool;
  rerr : option error
}.

Definition newAWSChunkedReader (src : reader) (ctx : option streamingSigningCtx) (trl : bool) (max : Z)
    : awsChunkedReader :=
  mkCR (concat (rd_chunks src)) (rd_err src)
    ((λ c, (ctx_key c, ctx_date c, ctx_scope c)) <$> ctx)
    (match ctx with Some c => ctx_seed c | None => [] end)
    trl max [] [] [] 0 true 0 false None.

Definition ContentHash (r : awsChunkedReader) : bytes := HashBytes (contentHash r).
Definition DecodedSize (r : awsChunkedReader) : Z := decoded r.

(** ** Header lines *)

(** The default buffer of [bufio.NewReader]. *)
Definition bufio_size : Z := 4096.

(** [readHeaderLine]: the line without its terminator, and what follows it. *)
Definition readHeaderLine (src : bytes) (serr : option error) : result (bytes * bytes) :=
  match index_byte ch_lf src with
  | None =>
      if bufio_size <=? Z.of_nat (length src) then Err (Errno EBADMSG)   (* ErrBufferFull *)
      else match serr with None => Err (Errno EBADMSG) | Some e => Err e end
  | Some i =>
      if maxAWSChunkHeaderLine <? Z.of_nat i + 1 then Err (Errno EBADMSG)
      else
        let line := take i src in
        let line := match last line with
                    | Some c => if decide (c = ch_cr) then take (i - 1) line else line
                    | None => line
                    end in
        Ok (line, drop (i + 1) src)
  end.

(** [strconv.ParseInt(s, 16, 64)] *)
Fixpoint hex_digits_value (acc : Z) (s : bytes) : option Z :=
  match s with
  | [] => Some acc
  | c :: s' => match hex_val c with
               | None => None
               | Some d => hex_digits_value (acc * 16 + d) s'
               end
  end.
Definition parse_hex64 (s : bytes) : option Z :=
  let '(neg, ds) := split_sign s in
  match ds with
  | [] => None
  | _ => match hex_digits_value 0 ds with
         | None => None
         | Some v => let v := if (neg : bool) then - v else v in
                     if (- 2 ^ 63 <=? v) && (v <=? 2 ^ 63 - 1) then Some v else None
         end
  end.

Definition ch_semi : byte := Byte.x3b.

(** The extension loop of [parseAWSChunkHeader]; each turn consumes the text up
    to the next separator. *)
Fixpoint ext_loop (fuel : nat) (rest sig : bytes) : result bytes :=
  match fuel, rest with
  | S fuel, _ :: _ =>
      let '(part, rest) := match index_byte ch_semi rest with
                           | Some i => (take i rest, drop (i + 1) rest)
                           | None => (rest, [])
                           end in
      if has_prefix part awsChunkSigField then
        let sig := drop (length awsChunkSigField) part in
        if 64 <? Z.of_nat (length sig) then Err (Errno EBADMSG) else ext_loop fuel rest sig
      else ext_loop fuel rest sig
  | _, _ => Ok sig
  end.

Definition parseAWSChunkHeader (line : bytes) : result (Z * bytes) :=
  let '(sizeStr, rest) := match index_byte ch_semi line with
                          | Some i => (take i line, drop (i + 1) line)
                          | None => (line, [])
                          end in
  match parse_hex64 (trim_space sizeStr) with
  | None => Err (Errno EBADMSG)
  | Some size =>
      if size <? 0 then Err (Errno EBADMSG)
      else if maxAWSChunkSize <? size then Err (Errno EBADMSG)
      else let! sig := ext_loop (length rest) rest [] in Ok (size, sig)
  end.

(** [expectCRLF] *)
Definition expectCRLF (src : bytes) : result bytes :=
  match src with
  | a :: b :: rest => if decide (a = ch_cr ∧ b = ch_lf) then Ok rest else Err (Errno EBADMSG)
  | _ => Err (Errno EBADMSG)
  end.

(** [consumeTrailers]: every turn consumes a line. *)
Fixpoint trailer_loop (fuel : nat) (src : bytes) (serr : option error) (total : Z) : result bytes :=
  match fuel with
  | O => Err (Errno EBADMSG)
  | S fuel =>
      let! p := readHeaderLine src serr in
      let '(line, rest) := p in
      let total := total + Z.of_nat (length line) + 2 in
      if maxAWSChunkTrailers <? total then Err (Errno EBADMSG)
      else match line with [] => Ok rest | _ => trailer_loop fuel rest serr total end
  end.
Definition consumeTrailers (src : bytes) (serr : option error) : result bytes :=
  trailer_loop (S (length src)) src serr 0.

(** ** Signatures *)
Definition nl : bytes := [ch_lf].
Definition chunk_signature (key date scope prev hash : bytes) : bytes :=
  hex_encode (hmacSHA256 key (awsChunkStringToSignPayload ++ nl ++ date ++ nl ++ scope ++ nl
                              ++ prev ++ nl ++ awsChunkEmptySHA256 ++ nl ++ hash)).

(** [verifyChunkHash]: the signature the next chunk chains to. *)
Definition verifyChunkHash (sg : option (bytes * bytes * bytes)) (prev sig hash : bytes) : result bytes :=
  match sg with
  | None => Ok prev
  | Some (key, date, scope) =>
      let expected := chunk_signature key date scope prev hash in
      if decide (expected = sig) then Ok expected else Err (Errno EACCES)
  end.

(** ** Reading *)

(** The sticky error; the counters of a failed reader are not used. *)
Definition fail (e : error) (r : awsChunkedReader) : awsChunkedReader :=
  mkCR (source r) (source_err r) (signing r) (prevSig r) (trailers r) (maxTotal r) (chunkHasher r) (contentHash r)
    (chunkSig r) (remaining r) (needHeader r) (decoded r) (rdone r) (Some e).

(** [readChunkHeader]; on success [needHeader] is cleared as the caller does. *)
Definition readChunkHeader (r : awsChunkedReader) : result awsChunkedReader :=
  let! p := readHeaderLine (source r) (source_err r) in
  let '(line, src) := p in
  let! h := parseAWSChunkHeader line in
  let '(size, sig) := h in
  if size =? 0 then
    let! prev := verifyChunkHash (signing r) (prevSig r) sig awsChunkEmptySHA256 in
    let! src := expectCRLF src in
    let! src := if trailers r then consumeTrailers src (source_err r) else Ok src in
    Ok (mkCR src (source_err r) (signing r) prev (trailers r) (maxTotal r) [] (contentHash r)
          sig 0 false (decoded r) true (rerr r))
  else
    Ok (mkCR src (source_err r) (signing r) (prevSig r) (trailers r) (maxTotal r) [] (contentHash r)
          sig size false (decoded r) false (rerr r)).

(** [readChunkData] into a buffer of [n] bytes. *)
Definition readChunkData (r : awsChunkedReader) (n : Z) : result (bytes * awsChunkedReader) :=
  let n := Z.to_nat (Z.min n (remaining r)) in
  if (length (source r) <? n)%nat then
    Err (match source_err r with None => Errno EBADMSG | Some e => e end)
  else
    let data := take n (source r) in
    let src := drop n (source r) in
    let left := remaining r - Z.of_nat n in
    let hashed := chunkHasher r ++ data in
    let content := contentHash r ++ data in
    let total := decoded r + Z.of_nat n in
    if maxTotal r <? total then Err (Errno EOVERFLOW)
    else if left =? 0 then
      let! src := expectCRLF src in
      let! prev := verifyChunkHash (signing r) (prevSig r) (chunkSig r) (HashBytes hashed) in
      Ok (data, mkCR src (source_err r) (signing r) prev (trailers r) (maxTotal r) [] content
                  (chunkSig r) left (needHeader r) total (rdone r) (rerr r))
    else
      Ok (data, mkCR src (source_err r) (signing r) (prevSig r) (trailers r) (maxTotal r) hashed content
                  (chunkSig r) left (needHeader r) total (rdone r) (rerr r)).

Inductive read_end := More | AtEOF | Failed (e : error).

(** [Read]: the chunk in progress, or the next header and then its data. *)
Definition Read (r : awsChunkedReader) (n : Z) : bytes * read_end * awsChunkedReader :=
  if rdone r then ([], AtEOF, r)
  else match rerr r with
  | Some e => ([], Failed e, r)
  | None =>
      let header := if needHeader r || (remaining r <=? 0) then readChunkHeader r else Ok r in
      match header with
      | Err e => ([], Failed e, fail e r)
      | Ok r =>
          if rdone r then ([], AtEOF, r)
          else match readChunkData r n with
               | Err e => ([], Failed e, fail e r)
               | Ok (data, r) => (data, More, r)
               end
      end
  end.

(** [io.Copy] with a buffer of [n] bytes: everything delivered, and how it ended. *)
Fixpoint read_to_end (fuel : nat) (r : awsChunkedReader) (n : Z)
    : option (bytes * result unit * awsChunkedReader) :=
  match fuel with
  | O => None
  | S fuel =>
      let '(data, e, r) := Read r n in
      match e with
      | AtEOF => Some (data, Ok tt, r)
      | Failed err => Some (data, Err err, r)
      | More => match read_to_end fuel r n with
                | Some (rest, out, r) => Some (data ++ rest, out, r)
                | None => None
                end
      end
  end.

(** * The wire grammar *)
Section Grammar.
Context (sg : option (bytes * bytes * bytes)) (trl : bool) (serr : option error).

(** The signature a chunk must carry, chained to the previous one. *)
Definition signed (prev sig hash next : bytes) : Prop :=
  match sg with
  | None => next = prev
  | Some (key, date, scope) => sig = chunk_signature key date scope prev hash ∧ next = sig
  end.

(** [framed prev src chunks rest]: after the signature [prev], [src] starts with
    the frames of [chunks], the terminating chunk and the trailers, and [rest]
    follows. *)
Inductive framed : bytes → bytes → list bytes → bytes → Prop :=
  | framed_end prev src line src1 sig prev' src2 rest :
      readHeaderLine src serr = Ok (line, src1) → parseAWSChunkHeader line = Ok (0, sig) →
      signed prev sig awsChunkEmptySHA256 prev' →
      src1 = [ch_cr; ch_lf] ++ src2 →
      (if trl then consumeTrailers src2 serr = Ok rest else rest = src2) →
      framed prev src [] rest
  | framed_chunk prev src line size sig data prev' src2 chunks rest :
      readHeaderLine src serr = Ok (line, data ++ [ch_cr; ch_lf] ++ src2) →
      parseAWSChunkHeader line = Ok (size, sig) → 0 < size → Z.of_nat (length data) = size →
      signed prev sig (HashBytes data) prev' →
      framed prev' src2 chunks rest → framed prev src (data :: chunks) rest.
End Grammar.

Lemma verify_signed sg prev sig hash next : verifyChunkHash sg prev sig hash = Ok next ↔ signed sg prev sig hash next.
Proof.
  unfold verifyChunkHash, signed. destruct sg as [[[key date] scope]|]; [|split; [by intros [= ->]|by intros ->]].
  case_decide as E; split; [by intros [= <-]|by intros [_ ->]; rewrite E|done|].
  intros [H _]. by destruct E.
Qed.

(** What a reader in mid-stream still has to deliver. *)
Definition boundary (r : awsChunkedReader) : bool := needHeader r || (remaining r <=? 0).

Definition mid_chunk (r : awsChunkedReader) (body rest : bytes) : Prop :=
  ∃ data src2 prev' chunks, Z.of_nat (length data) = remaining r
  ∧ source r = data ++ [ch_cr; ch_lf] ++ src2
  ∧ verifyChunkHash (signing r) (prevSig r) (chunkSig r) (HashBytes (chunkHasher r ++ data)) = Ok prev'
  ∧ framed (signing r) (trailers r) (source_err r) prev' src2 chunks rest
  ∧ body = data ++ concat chunks.

Definition accepts (r : awsChunkedReader) (body rest : bytes) : Prop :=
  if boundary r then
    ∃ chunks, framed (signing r) (trailers r) (source_err r) (prevSig r) (source r) chunks rest
              ∧ body = concat chunks
  else mid_chunk r body rest.

Lemma expectCRLF_Ok src rest : expectCRLF src = Ok rest ↔ src = [ch_cr; ch_lf] ++ rest.
Proof.
  unfold expectCRLF. split.
  - destruct src as [|a [|b src]]; try done. case_decide as H; [|done]. by destruct H as [-> ->]; intros [= ->].
  - intros ->. cbn. by rewrite decide_True.
Qed.

Lemma readHeaderLine_shorter src serr line rest :
  readHeaderLine src serr = Ok (line, rest) → (length rest < length src)%nat.
Proof.
  unfold readHeaderLine. destruct (index_byte ch_lf src) as [i|] eqn:E; [|repeat case_match; done].
  case_match; [done|]. intros [= _ <-]. apply index_byte_Some in E. rewrite length_drop.
  destruct E as (_ & _ & E). lia.
Qed.

Lemma trailer_loop_shorter fuel src serr total rest :
  trailer_loop fuel src serr total = Ok rest → (length rest < length src)%nat.
Proof.
  revert src total. induction fuel as [|fuel IH]; intros src total; cbn [trailer_loop]; [done|].
  destruct (readHeaderLine src serr) as [[line src']|e] eqn:E; [|done].
  apply readHeaderLine_shorter in E. case_match; [done|]. destruct line; [by intros [= <-]|].
  intros H1%IH. lia.
Qed.

Lemma consumeTrailers_shorter src serr rest :
  consumeTrailers src serr = Ok rest → (length rest <= length src)%nat.
Proof. intros H%trailer_loop_shorter. lia. Qed.

(** The size a header announces is never negative. *)
Lemma parse_size line size sig : parseAWSChunkHeader line = Ok (size, sig) → 0 <= size <= maxAWSChunkSize.
Proof.
  unfold parseAWSChunkHeader. destruct (match index_byte ch_semi line with Some _ => _ | None => _ end) as [sz rest].
  destruct (parse_hex64 (trim_space sz)) as [v|]; [|done].
  destruct (v <? 0) eqn:E1; [done|]. destruct (maxAWSChunkSize <? v) eqn:E2; [done|].
  destruct (ext_loop _ _ _); [|done]. intros [= <- _]. zbool. lia.
Qed.

Lemma framed_inv sg trl serr prev src chunks rest line src1 size sig :
  framed sg trl serr prev src chunks rest →
  readHeaderLine src serr = Ok (line, src1) → parseAWSChunkHeader line = Ok (size, sig) →
  (size = 0 ∧ chunks = [] ∧ ∃ prev' src2, verifyChunkHash sg prev sig awsChunkEmptySHA256 = Ok prev'
     ∧ src1 = [ch_cr; ch_lf] ++ src2 ∧ if trl then consumeTrailers src2 serr = Ok rest else rest = src2)
  ∨ (0 < size ∧ ∃ data chunks' prev' src2, chunks = data :: chunks' ∧ Z.of_nat (length data) = size
     ∧ src1 = data ++ [ch_cr; ch_lf] ++ src2 ∧ verifyChunkHash sg prev sig (HashBytes data) = Ok prev'
     ∧ framed sg trl serr prev' src2 chunks' rest).
Proof.
  intros Hf El Ep. destruct Hf as [prev src l s1 sg' p' s2 rest H1 H2 H3 H4 H5
                                  |prev src l sz sg' data p' s2 cs rest H1 H2 H3 H4 H5 H6].
  - left. apply verify_signed in H3. assert (l = line ∧ s1 = src1) as [-> ->] by (split; congruence).
    assert (0 = size ∧ sg' = sig) as [<- ->] by (split; congruence). eauto 10.
  - right. apply verify_signed in H5. assert (l = line) as -> by congruence.
    assert (sz = size ∧ sg' = sig) as [-> ->] by (split; congruence). split; [done|].
    exists data, cs, p', s2. split_and!; [done..|congruence|done|done].
Qed.

Lemma framed_head sg trl serr prev src chunks rest :
  framed sg trl serr prev src chunks rest →
  ∃ line src1 size sig, readHeaderLine src serr = Ok (line, src1) ∧ parseAWSChunkHeader line = Ok (size, sig).
Proof. destruct 1; eauto 10. Qed.

(** What stays fixed while a reader runs. *)
Definition same_stream (r r' : awsChunkedReader) : Prop :=
  source_err r' = source_err r ∧ signing r' = signing r ∧ trailers r' = trailers r
  ∧ maxTotal r' = maxTotal r ∧ rerr r' = rerr r.

Lemma header_step r :
  boundary r = true → rdone r = false →
  match readChunkHeader r with
  | Err _ => ∀ body rest, ¬ accepts r body rest
  | Ok r1 =>
      same_stream r r1 ∧ (length (source r1) < length (source r))%nat
      ∧ decoded r1 = decoded r ∧ contentHash r1 = contentHash r
      ∧ if rdone r1 then ∀ body rest, accepts r body rest ↔ body = [] ∧ rest = source r1
        else boundary r1 = false ∧ ∀ body rest, accepts r body rest ↔ accepts r1 body rest
  end.
Proof.
  intros Hb Hd. unfold accepts. rewrite Hb. unfold readChunkHeader.
  destruct (readHeaderLine (source r) (source_err r)) as [[line src1]|e] eqn:El.
  2:{ intros body rest (chunks & Hf & _). apply framed_head in Hf as (? & ? & ? & ? & ? & _). congruence. }
  pose proof (readHeaderLine_shorter _ _ _ _ El) as Hlt.
  destruct (parseAWSChunkHeader line) as [[size sig]|e] eqn:Ep.
  2:{ intros body rest (chunks & Hf & _). apply framed_head in Hf as (? & ? & ? & ? & ? & ?). congruence. }
  pose proof (parse_size _ _ _ Ep) as Hsz. destruct (size =? 0) eqn:E0; zbool.
  - subst size.
    assert (∀ chunks rest, framed (signing r) (trailers r) (source_err r) (prevSig r) (source r) chunks rest →
      chunks = [] ∧ ∃ prev' src2, verifyChunkHash (signing r) (prevSig r) sig awsChunkEmptySHA256 = Ok prev'
      ∧ src1 = [ch_cr; ch_lf] ++ src2 ∧ if trailers r then consumeTrailers src2 (source_err r) = Ok rest else rest = src2)
      as Hinv.
    { intros chunks rest Hf. destruct (framed_inv _ _ _ _ _ _ _ _ _ _ _ Hf El Ep) as [(_ & ? & ?)|(? & _)]; [done|lia]. }
    destruct (verifyChunkHash _ _ _ _) as [prev|e] eqn:Ev.
    2:{ intros body rest (chunks & (_ & ? & ? & ? & _)%Hinv & _). congruence. }
    destruct (expectCRLF src1) as [src2|e] eqn:Ec.
    2:{ intros body rest (chunks & (_ & ? & ? & _ & Hs & _)%Hinv & _). apply expectCRLF_Ok in Hs. congruence. }
    apply expectCRLF_Ok in Ec. subst src1.
    assert (∀ chunks rest, framed (signing r) (trailers r) (source_err r) (prevSig r) (source r) chunks rest →
      chunks = [] ∧ if trailers r then consumeTrailers src2 (source_err r) = Ok rest else rest = src2) as Hinv'.
    { intros chunks rest (-> & ? & ? & _ & [= <-] & ?)%Hinv. done. }
    destruct (if trailers r then consumeTrailers src2 (source_err r) else Ok src2) as [src3|e] eqn:Et.
    2:{ intros body rest (chunks & (_ & Ht)%Hinv' & _). destruct (trailers r); congruence. }
    cbn [source decoded contentHash rdone]. split_and!; try done.
    + enough (length src3 <= length src2)%nat by (cbn in Hlt; lia).
      destruct (trailers r); [by eapply consumeTrailers_shorter|by injection Et as ->].
    + intros body rest. split.
      * intros (chunks & (-> & Ht)%Hinv' & ->). split; [done|]. destruct (trailers r); congruence.
      * intros [-> ->]. exists []. split; [|done]. apply verify_signed in Ev. eapply framed_end; eauto. by destruct (trailers r); simplify_eq.
  - cbn [source decoded contentHash rdone].
    assert (boundary (mkCR src1 (source_err r) (signing r) (prevSig r) (trailers r) (maxTotal r) []
              (contentHash r) sig size false (decoded r) false (rerr r)) = false) as Hnb.
    { unfold boundary. cbn. apply Z.leb_gt. lia. }
    split_and!; try done. intros body rest. rewrite Hnb. unfold mid_chunk. cbn [source signing trailers source_err prevSig chunkSig remaining chunkHasher app].
    split.
    + intros (chunks & Hf & ->).
      destruct (framed_inv _ _ _ _ _ _ _ _ _ _ _ Hf El Ep) as [(? & _)|(_ & data & cs & p' & s2 & -> & ? & ? & ? & ?)]; [lia|].
      exists data, s2, p', cs. done.
    + intros (data & src2 & prev' & chunks & Hl & -> & Hv & Hf & ->). exists (data :: chunks). split; [|done].
      apply verify_signed in Hv. by apply (framed_chunk _ _ _ _ _ line size sig data prev' src2); [..|lia| | |].
Qed.

Lemma data_step r n :
  boundary r = false → 0 < n →
  match readChunkData r n with
  | Err _ => ∀ body rest, accepts r body rest → maxTotal r < decoded r + Z.of_nat (length body)
  | Ok (d, r1) =>
      same_stream r r1 ∧ (length (source r1) < length (source r))%nat
      ∧ decoded r1 = decoded r + Z.of_nat (length d) ∧ contentHash r1 = contentHash r ++ d
      ∧ rdone r1 = rdone r ∧ decoded r1 <= maxTotal r
      ∧ ∀ body rest, accepts r body rest ↔ ∃ body', body = d ++ body' ∧ accepts r1 body' rest
  end.
Proof.
  intros Hb Hn. assert (∀ body rest, accepts r body rest ↔ mid_chunk r body rest) as Hacc.
  { intros body rest. unfold accepts. by rewrite Hb. }
  unfold boundary in Hb. apply orb_false_iff in Hb as [Hnh Hrem]. zbool. unfold readChunkData. remember (Z.to_nat (Z.min n (remaining r))) as k eqn:Ek.
  assert (0 < k)%nat as Hk by lia. assert (Z.of_nat k <= remaining r) as Hkr by lia.
  destruct (length (source r) <? k)%nat eqn:Elen.
  { apply Nat.ltb_lt in Elen. intros body rest (data & src2 & p' & cs & Hl & Hs & _)%Hacc. exfalso.
    apply (f_equal length) in Hs. rewrite !length_app in Hs. lia. }
  apply Nat.ltb_ge in Elen. assert (length (take k (source r)) = k) as Hlt by (rewrite length_take; lia).
  destruct (maxTotal r <? decoded r + Z.of_nat k) eqn:Emax; zbool.
  { intros body rest (data & src2 & p' & cs & Hl & Hs & _ & _ & ->)%Hacc. rewrite length_app. lia. }
  destruct (remaining r - Z.of_nat k =? 0) eqn:Eleft; zbool.
  - assert (∀ data src2, Z.of_nat (length data) = remaining r →
      source r = data ++ [ch_cr; ch_lf] ++ src2 →
      data = take k (source r) ∧ drop k (source r) = [ch_cr; ch_lf] ++ src2) as Hsplit.
    { intros data src2 Hl Hs. assert (length data = k) as <- by lia. rewrite Hs.
      by rewrite take_app_length, drop_app_length. }
    destruct (expectCRLF (drop k (source r))) as [src2|e] eqn:Ec.
    2:{ intros body rest (data & src2 & p' & cs & Hl & Hs & _)%Hacc. exfalso.
        destruct (Hsplit _ _ Hl Hs) as [_ E]. apply expectCRLF_Ok in E. congruence. }
    apply expectCRLF_Ok in Ec. destruct (verifyChunkHash _ _ _ _) as [prev|e] eqn:Ev.
    2:{ intros body rest (data & s2 & p' & cs & Hl & Hs & Hv & _)%Hacc. exfalso.
        destruct (Hsplit _ _ Hl Hs) as [-> _]. congruence. }
    cbn [source decoded contentHash rdone]. split_and!; try done.
    + apply (f_equal length) in Ec. rewrite length_drop in Ec. cbn in Ec. lia.
    + by rewrite Hlt.
    + intros body rest. rewrite Hacc. unfold accepts, boundary. cbn [needHeader remaining source signing trailers source_err prevSig].
      rewrite Hnh. assert ((remaining r - Z.of_nat k <=? 0) = true) as -> by (apply Z.leb_le; lia). cbn [orb]. split.
      * intros (data & s2 & p' & cs & Hl & Hs & Hv & Hf & ->). destruct (Hsplit _ _ Hl Hs) as [-> E].
        assert (s2 = src2) as -> by (rewrite Ec in E; by injection E). assert (p' = prev) as -> by congruence. eauto.
      * intros (body' & -> & cs & Hf & ->). exists (take k (source r)), src2, prev, cs.
        split_and!; [lia|by rewrite <- Ec, take_drop|done..].
  - cbn [source decoded contentHash rdone]. split_and!; try done.
    + rewrite length_drop. lia.
    + by rewrite Hlt.
    + intros body rest. rewrite Hacc. unfold accepts, boundary, mid_chunk.
      cbn [needHeader remaining source signing trailers source_err prevSig chunkSig chunkHasher].
      rewrite Hnh. assert ((remaining r - Z.of_nat k <=? 0) = false) as -> by (apply Z.leb_gt; lia). cbn [orb]. split.
      * intros (data & s2 & p' & cs & Hl & Hs & Hv & Hf & ->).
        assert (take k (source r) = take k data ∧ drop k (source r) = drop k data ++ [ch_cr; ch_lf] ++ s2) as [E1 E2].
        { rewrite Hs. by rewrite take_app_le, drop_app_le by lia. }
        exists (drop k data ++ concat cs). rewrite E1, app_assoc, take_drop. split; [done|].
        exists (drop k data), s2, p', cs. rewrite <- app_assoc, take_drop.
        split_and!; [rewrite length_drop; lia|done..].
      * intros (body' & -> & data & s2 & p' & cs & Hl & Hs & Hv & Hf & ->).
        exists (take k (source r) ++ data), s2, p', cs. rewrite length_app, <- !app_assoc.
        rewrite <- app_assoc in Hv. split_and!; [lia|by rewrite <- Hs, take_drop|done..].
Qed.

(** One [Read] from a reader that has neither finished nor failed. *)
Lemma Read_step r n :
  0 < n → rdone r = false → rerr r = None → decoded r <= maxTotal r →
  match Read r n with
  | (d, AtEOF, r1) => d = [] ∧ decoded r1 = decoded r ∧ contentHash r1 = contentHash r
      ∧ ∀ body rest, accepts r body rest ↔ body = [] ∧ rest = source r1
  | (d, Failed _, r1) => d = [] ∧ ∀ body rest, accepts r body rest → maxTotal r < decoded r + Z.of_nat (length body)
  | (d, More, r1) => rdone r1 = false ∧ rerr r1 = None ∧ maxTotal r1 = maxTotal r ∧ decoded r1 <= maxTotal r1
      ∧ (length (source r1) < length (source r))%nat
      ∧ decoded r1 = decoded r + Z.of_nat (length d) ∧ contentHash r1 = contentHash r ++ d
      ∧ ∀ body rest, accepts r body rest ↔ ∃ body', body = d ++ body' ∧ accepts r1 body' rest
  end.
Proof.
  intros Hn Hd He Hm. unfold Read. rewrite Hd, He. fold (boundary r). destruct (boundary r) eqn:Hb.
  - pose proof (header_step r Hb Hd) as H1. destruct (readChunkHeader r) as [r1|e].
    2:{ split; [done|]. intros body rest Ha. by apply H1 in Ha. }
    destruct H1 as ((S1 & S2 & S3 & S4 & S5) & Hlen & Hdec & Hch & Hacc). destruct (rdone r1) eqn:Hd1.
    { split_and!; done. }
    destruct Hacc as [Hb1 Hacc]. pose proof (data_step r1 n Hb1 Hn) as H2.
    destruct (readChunkData r1 n) as [[d r2]|e].
    + destruct H2 as ((T1 & T2 & T3 & T4 & T5) & Hlen2 & Hdec2 & Hch2 & Hd2 & Hm2 & Hacc2).
      split_and!; [congruence|congruence|congruence|congruence|lia|congruence|congruence|].
      intros body rest. rewrite Hacc. apply Hacc2.
    + split; [done|]. intros body rest Ha%Hacc%H2. rewrite <- S4, <- Hdec. done.
  - rewrite Hd. pose proof (data_step r n Hb Hn) as H2. destruct (readChunkData r n) as [[d r2]|e]; [|done].
    destruct H2 as ((T1 & T2 & T3 & T4 & T5) & Hlen2 & Hdec2 & Hch2 & Hd2 & Hm2 & Hacc2).
    split_and!; [congruence|congruence|congruence|congruence|lia|congruence|congruence|done].
Qed.

Lemma read_to_end_spec fuel r n :
  0 < n → rdone r = false → rerr r = None → decoded r <= maxTotal r → (length (source r) < fuel)%nat →
  ∃ d res r', read_to_end fuel r n = Some (d, res, r')
  ∧ (res = Ok tt → accepts r d (source r') ∧ decoded r + Z.of_nat (length d) <= maxTotal r
       ∧ contentHash r' = contentHash r ++ d ∧ decoded r' = decoded r + Z.of_nat (length d))
  ∧ (∀ body rest, accepts r body rest → decoded r + Z.of_nat (length body) <= maxTotal r →
       res = Ok tt ∧ d = body ∧ source r' = rest).
Proof.
  intros Hn. revert r. induction fuel as [|fuel IH]; intros r Hd He Hm Hf; [lia|].
  cbn [read_to_end]. pose proof (Read_step r n Hn Hd He Hm) as Hs.
  destruct (Read r n) as [[d e] r1]. destruct e as [| |err].
  - destruct Hs as (D1 & E1 & M1 & M2 & Hlen & Hdec & Hch & Hacc).
    destruct (IH r1) as (d' & res & r' & -> & Hok & Hall); [done..|lia|].
    exists (d ++ d'), res, r'. split; [done|]. rewrite length_app. split.
    + intros Hres. destruct (Hok Hres) as (A & B & C & D). split_and!; [apply Hacc; eauto|lia| |lia].
      by rewrite C, Hch, app_assoc.
    + intros body rest (body' & -> & Ha)%Hacc Hle. rewrite length_app in Hle.
      destruct (Hall body' rest Ha) as (-> & -> & <-); [lia|]. done.
  - destruct Hs as (-> & Hdec & Hch & Hacc). exists [], (Ok tt), r1. split; [done|]. split.
    + intros _. rewrite Hch, Hdec, app_nil_r. split_and!; [by apply Hacc|cbn; lia|done|cbn; lia].
    + by intros body rest [-> ->]%Hacc _.
  - destruct Hs as (-> & Hacc). exists [], (Err err), r1. split; [done|]. split; [done|].
    intros body rest Ha%Hacc Hle. lia.
Qed.

(** ** Guarantees *)

(** C22: the streaming decoder implements the wire grammar, whatever the size of
    the caller's buffer: it always ends; it ends cleanly exactly on the streams
    that are a sequence of correctly signed frames with a signed terminator and
    at most [max] bytes of data; it then has delivered exactly the frames' data,
    reports its digest and length, and has consumed nothing beyond the body. *)
Theorem chunked_exact src ctx trl max n :
  0 < n → 0 <= max →
  let r := newAWSChunkedReader src ctx trl max in
  ∃ d res r', read_to_end (S (length (source r))) r n = Some (d, res, r')
  ∧ (res = Ok tt ↔ ∃ chunks rest, framed (signing r) trl (rd_err src) (prevSig r) (source r) chunks rest
                     ∧ Z.of_nat (length (concat chunks)) <= max)
  ∧ (res = Ok tt → ContentHash r' = HashBytes d ∧ DecodedSize r' = Z.of_nat (length d)
       ∧ ∃ chunks, framed (signing r) trl (rd_err src) (prevSig r) (source r) chunks (source r') ∧ d = concat chunks).
Proof.
  intros Hn Hmax. cbv zeta. set (r := newAWSChunkedReader src ctx trl max).
  assert (∀ body rest, accepts r body rest ↔ ∃ chunks, framed (signing r) trl (rd_err src) (prevSig r) (source r) chunks rest
            ∧ body = concat chunks) as Ha by done.
  destruct (read_to_end_spec (S (length (source r))) r n) as (d & res & r' & Hrun & Hok & Hall); [done..|cbn; lia|lia|].
  exists d, res, r'. split; [done|]. cbn [decoded maxTotal contentHash r newAWSChunkedReader] in Hok, Hall. split.
  - split.
    + intros Hres. destruct (Hok Hres) as ((chunks & Hf & ->)%Ha & Hle & _). exists chunks, (source r'). split; [done|lia].
    + intros (chunks & rest & Hf & Hle). by apply (Hall (concat chunks) rest); [apply Ha; eauto|lia].
  - intros Hres. destruct (Hok Hres) as ((chunks & Hf & ->)%Ha & _ & Hc & Hde).
    unfold ContentHash, DecodedSize. rewrite Hc, Hde. split_and!; [done|lia|eauto].
Qed.

(** ** A conforming client *)
Fixpoint hex_number (fuel : nat) (n : Z) (acc : bytes) : bytes :=
  match fuel with
  | O => acc
  | S fuel => let acc := hex_digit (n mod 16) :: acc in
              if n / 16 =? 0 then acc else hex_number fuel (n / 16) acc
  end.

Definition sig_field (sg : option (bytes * bytes * bytes)) (prev hash : bytes) : bytes :=
  match sg with
  | None => []
  | Some (key, date, scope) => [ch_semi] ++ awsChunkSigField ++ chunk_signature key date scope prev hash
  end.
Definition next_sig (sg : option (bytes * bytes * bytes)) (prev hash : bytes) : bytes :=
  match sg with
  | None => prev
  | Some (key, date, scope) => chunk_signature key date scope prev hash
  end.

(** The body an SDK sends: each chunk with its size and signature, then the
    empty chunk. *)
Fixpoint aws_encode (sg : option (bytes * bytes * bytes)) (prev : bytes) (chunks : list bytes) : bytes :=
  match chunks with
  | [] => [Byte.x30] ++ sig_field sg prev awsChunkEmptySHA256 ++ [ch_cr; ch_lf] ++ [ch_cr; ch_lf]
  | c :: cs =>
      hex_number 16 (Z.of_nat (length c)) [] ++ sig_field sg prev (HashBytes c) ++ [ch_cr; ch_lf]
      ++ c ++ [ch_cr; ch_lf] ++ aws_encode sg (next_sig sg prev (HashBytes c)) cs
  end.

(** Lower-case hexadecimal text. *)
Definition lower_hex (c : byte) : bool :=
  ((48 <=? b2z c) && (b2z c <=? 57)) || ((97 <=? b2z c) && (b2z c <=? 102)).

Lemma hex_digit_lower n : 0 <= n < 16 → lower_hex (hex_digit n) = true ∧ hex_val (hex_digit n) = Some n.
Proof.
  intros Hn. assert (n ∈ seqZ 0 16) as Hin by (apply elem_of_seqZ; lia).
  assert (Forall (λ n, lower_hex (hex_digit n) = true ∧ hex_val (hex_digit n) = Some n) (seqZ 0 16)) as HF
    by (apply (bool_decide_unpack _); vm_compute; exact I).
  rewrite Forall_forall in HF. by apply HF.
Qed.

Lemma hex_digits_app acc a b :
  hex_digits_value acc (a ++ b) = match hex_digits_value acc a with Some v => hex_digits_value v b | None => None end.
Proof.
  revert acc. induction a as [|c a IH]; intros acc; cbn; [done|]. destruct (hex_val c); [apply IH|done].
Qed.

Lemma hex_number_spec fuel n acc :
  0 <= n < 16 ^ Z.of_nat fuel → (0 < fuel)%nat →
  ∃ ds, hex_number fuel n acc = ds ++ acc ∧ ds ≠ [] ∧ Forall (λ c, lower_hex c = true) ds
  ∧ hex_digits_value 0 ds = Some n ∧ (length ds <= fuel)%nat.
Proof.
  revert n acc. induction fuel as [|fuel IH]; intros n acc Hn Hf; [lia|]. cbn [hex_number].
  assert (0 <= n mod 16 < 16) as Hm by (apply Z.mod_pos_bound; lia).
  destruct (hex_digit_lower _ Hm) as [Hl Hv]. destruct (n / 16 =? 0) eqn:E; zbool.
  - exists [hex_digit (n mod 16)]. split_and!; [done|done|by repeat constructor| |cbn; lia].
    cbn. rewrite Hv. f_equal. pose proof (Z.div_mod n 16). lia.
  - assert (0 <= n / 16 < 16 ^ Z.of_nat fuel) as Hq.
    { split; [apply Z.div_pos; lia|]. apply Z.div_lt_upper_bound; [lia|].
      rewrite Nat2Z.inj_succ, Z.pow_succ_r in Hn by lia. lia. }
    assert (0 < fuel)%nat as Hf' by (destruct fuel; [cbn in Hq; lia|lia]).
    destruct (IH (n / 16) (hex_digit (n mod 16) :: acc) Hq Hf') as (ds & -> & Hne & HF & Hval & Hlen).
    exists (ds ++ [hex_digit (n mod 16)]). rewrite <- app_assoc. split_and!; [done| |..].
    + by destruct ds.
    + apply Forall_app. split; [done|by repeat constructor].
    + rewrite hex_digits_app, Hval. cbn. rewrite Hv. f_equal. pose proof (Z.div_mod n 16). lia.
    + rewrite length_app. cbn. lia.
Qed.

Lemma trim_space_hex s : s ≠ [] → Forall (λ c, lower_hex c = true) s → trim_space s = s.
Proof. intros _ HF. apply trim_space_visible. eapply Forall_impl; [exact HF|]. unfold lower_hex. intros c Hc. lia. Qed.

Definition hex_text (s : bytes) : Prop := Forall (λ c, lower_hex c = true) s.

Lemma hex_text_notin d s : hex_text s → lower_hex d = false → d ∉ s.
Proof. unfold hex_text. intros HF Hd Hin. rewrite Forall_forall in HF. apply HF in Hin. congruence. Qed.

Lemma hex_encode_text b : hex_text (hex_encode b).
Proof.
  unfold hex_text, hex_encode. induction b as [|x b IH]; [constructor|]. cbn [map concat].
  pose proof (b2z_range x). apply Forall_app. split; [|done].
  repeat constructor; apply hex_digit_lower; [|apply Z.mod_pos_bound; lia].
  split; [apply Z.div_pos; lia|apply Z.div_lt_upper_bound; lia].
Qed.

Lemma length_hex_encode b : length (hex_encode b) = (2 * length b)%nat.
Proof. unfold hex_encode. induction b as [|x b IH]; [done|]. cbn [map concat]. rewrite length_app, IH. cbn. lia. Qed.

Lemma index_byte_first c a b : c ∉ a → index_byte c (a ++ c :: b) = Some (length a).
Proof.
  induction a as [|x a IH]; cbn; intros H; [by rewrite decide_True|].
  apply not_elem_of_cons in H as [H1 H2]. rewrite decide_False by congruence. by rewrite IH.
Qed.

(** A header line as the client writes it is the line the reader sees. *)
Lemma readHeaderLine_line h rest serr :
  ch_lf ∉ h → Z.of_nat (length h) + 2 <= maxAWSChunkHeaderLine →
  readHeaderLine (h ++ [ch_cr; ch_lf] ++ rest) serr = Ok (h, rest).
Proof.
  intros Hn Hl. unfold readHeaderLine.
  replace (h ++ [ch_cr; ch_lf] ++ rest) with ((h ++ [ch_cr]) ++ ch_lf :: rest) by (by rewrite <- app_assoc).
  rewrite index_byte_first by (rewrite not_elem_of_app, list_elem_of_singleton; split; [done|discriminate]).
  rewrite length_app, (proj2 (Z.ltb_ge _ _)) by (cbn; lia). rewrite <- length_app, take_app_length, last_snoc, decide_True by done.
  rewrite <- drop_drop, drop_app_length, length_app. cbn [length]. by rewrite Nat.add_sub, take_app_length.
Qed.

Lemma hex_split_sign s : hex_text s → split_sign s = (false, s).
Proof.
  destruct s as [|c s]; [done|]. intros [Hc _]%Forall_cons. cbn.
  rewrite !decide_False by (intros ->; discriminate Hc). done.
Qed.

Lemma chunk_signature_text key date scope prev hash :
  hex_text (chunk_signature key date scope prev hash)
  ∧ length (chunk_signature key date scope prev hash) = 64%nat.
Proof.
  unfold chunk_signature. split; [apply hex_encode_text|].
  rewrite length_hex_encode. unfold hmacSHA256. by rewrite length_sha256.
Qed.

(** The signature field of a header line, and what the parser reads in it. *)
Definition sig_of (sg : option (bytes * bytes * bytes)) (prev hash : bytes) : bytes :=
  match sg with None => [] | Some (key, date, scope) => chunk_signature key date scope prev hash end.

Lemma sig_field_parse sg prev hash ds :
  hex_text ds →
  (match index_byte ch_semi (ds ++ sig_field sg prev hash) with
   | Some i => (take i (ds ++ sig_field sg prev hash), drop (i + 1) (ds ++ sig_field sg prev hash))
   | None => (ds ++ sig_field sg prev hash, [])
   end = (ds, match sg with None => [] | Some _ => awsChunkSigField ++ sig_of sg prev hash end))
  ∧ ch_lf ∉ sig_field sg prev hash ∧ (length (sig_field sg prev hash) <= 81)%nat.
Proof.
  intros Hds. assert (ch_semi ∉ ds) as Hn by (by apply hex_text_notin).
  destruct sg as [[[key date] scope]|]; cbn [sig_field sig_of].
  - destruct (chunk_signature_text key date scope prev hash) as [Ht Hl]. split_and!.
    + cbn [app]. rewrite index_byte_first by done. rewrite take_app_length, <- drop_drop, drop_app_length. reflexivity.
    + rewrite !not_elem_of_app. split_and!; [|by apply (bool_decide_unpack _); vm_compute|by apply hex_text_notin].
      by rewrite list_elem_of_singleton.
    + rewrite !length_app, Hl. cbn. lia.
  - rewrite app_nil_r. rewrite (proj2 (index_byte_None ch_semi ds)) by done. split_and!; [done|set_solver|cbn; lia].
Qed.

Lemma ext_loop_sig sig fuel :
  hex_text sig → length sig = 64%nat → (0 < fuel)%nat → ext_loop fuel (awsChunkSigField ++ sig) [] = Ok sig.
Proof.
  intros Ht Hl Hf. destruct fuel as [|fuel]; [lia|].
  assert (index_byte ch_semi (awsChunkSigField ++ sig) = None) as Hi.
  { apply index_byte_None. rewrite not_elem_of_app. split; [|by apply hex_text_notin].
    by apply (bool_decide_unpack _); vm_compute. }
  destruct (awsChunkSigField ++ sig) as [|x xs] eqn:E; [done|]. cbn [ext_loop]. rewrite Hi.
  rewrite <- E, (proj2 (has_prefix_spec _ _)) by eauto. rewrite drop_app_length, (proj2 (Z.ltb_ge _ _)) by lia. by destruct fuel.
Qed.

(** The header line of a chunk is parsed back to its size and signature. *)
Lemma header_parse sg prev hash ds n :
  ds ≠ [] → hex_text ds → (length ds <= 16)%nat → hex_digits_value 0 ds = Some n → 0 <= n <= maxAWSChunkSize →
  parseAWSChunkHeader (ds ++ sig_field sg prev hash) = Ok (n, sig_of sg prev hash)
  ∧ ∀ rest serr, readHeaderLine (ds ++ sig_field sg prev hash ++ [ch_cr; ch_lf] ++ rest) serr
                 = Ok (ds ++ sig_field sg prev hash, rest).
Proof.
  intros Hne Hds Hl Hv Hn. destruct (sig_field_parse sg prev hash ds Hds) as (Hp & Hlf & Hsl). split.
  - unfold parseAWSChunkHeader. rewrite Hp. rewrite trim_space_hex by done. unfold parse_hex64.
    rewrite hex_split_sign by done. destruct ds as [|d ds']; [done|]. rewrite Hv.
    unfold maxAWSChunkSize in *. rewrite (proj2 (Z.leb_le _ _)), (proj2 (Z.leb_le n _)) by lia. cbn [andb].
    rewrite (proj2 (Z.ltb_ge n 0)), (proj2 (Z.ltb_ge _ n)) by lia.
    destruct sg as [[[key date] scope]|]; [|reflexivity]. cbn [sig_of].
    destruct (chunk_signature_text key date scope prev hash) as [Ht Hl'].
    rewrite ext_loop_sig; [reflexivity|done|done|rewrite length_app; cbn; lia].
  - intros rest serr. rewrite app_assoc. apply readHeaderLine_line.
    + rewrite not_elem_of_app. split; [by apply hex_text_notin|done].
    + rewrite length_app. unfold maxAWSChunkHeaderLine. lia.
Qed.

Lemma verify_sig sg prev hash : verifyChunkHash sg prev (sig_of sg prev hash) hash = Ok (next_sig sg prev hash).
Proof. destruct sg as [[[key date] scope]|]; cbn [verifyChunkHash sig_of next_sig]; [by rewrite decide_True|done]. Qed.

Lemma aws_encode_framed sg prev chunks rest serr :
  Forall (λ c, 0 < Z.of_nat (length c) <= maxAWSChunkSize) chunks →
  framed sg false serr prev (aws_encode sg prev chunks ++ rest) chunks rest.
Proof.
  intros HF. revert prev. induction HF as [|c chunks Hc HF IH]; intros prev; cbn [aws_encode].
  - destruct (header_parse sg prev awsChunkEmptySHA256 [Byte.x30] 0) as [Hp Hr]; try done; [by repeat constructor|cbn; lia|].
    rewrite <- !app_assoc. eapply framed_end; [apply Hr|apply Hp|apply verify_signed, verify_sig|reflexivity|reflexivity].
  - destruct (hex_number_spec 16 (Z.of_nat (length c)) []) as (ds & E & Hne & Ht & Hv & Hl);
      [unfold maxAWSChunkSize in Hc; lia|lia|]. rewrite app_nil_r in E. rewrite E.
    destruct (header_parse sg prev (HashBytes c) ds (Z.of_nat (length c))) as [Hp Hr]; try done; [lia|].
    rewrite <- !app_assoc. eapply framed_chunk; [apply Hr|apply Hp|lia|lia|apply verify_signed, verify_sig|apply IH].
Qed.

(** What a conforming client sends is what the handler reads: the decoder,
    with the client's signing context, any buffer size and any split of the
    connection into reads, delivers the concatenation of the client's chunks,
    signed or not, ends cleanly, reports the digest of the plain content and
    leaves the connection at the first byte after the body. *)
Theorem chunked_roundtrip src ctx max n chunks rest :
  0 < n → Forall (λ c, 0 < Z.of_nat (length c) <= maxAWSChunkSize) chunks →
  Z.of_nat (length (concat chunks)) <= max →
  let r := newAWSChunkedReader src ctx false max in
  concat (rd_chunks src) = aws_encode (signing r) (prevSig r) chunks ++ rest →
  ∃ r', read_to_end (S (length (source r))) r n = Some (concat chunks, Ok tt, r')
  ∧ source r' = rest ∧ ContentHash r' = HashBytes (concat chunks)
  ∧ DecodedSize r' = Z.of_nat (length (concat chunks)).
Proof.
  intros Hn HF Hmax r Hsrc.
  destruct (read_to_end_spec (S (length (source r))) r n) as (d & res & r' & Hrun & Hok & Hall); [done..|cbn; lia|lia|].
  assert (accepts r (concat chunks) rest) as Ha.
  { exists chunks. split; [|reflexivity]. change (source r) with (concat (rd_chunks src)). rewrite Hsrc.
    by apply aws_encode_framed. }
  destruct (Hall _ _ Ha Hmax) as (-> & -> & Hr). destruct (Hok eq_refl) as (_ & _ & Hc & Hd).
  exists r'. split_and!; [exact Hrun|exact Hr| |exact Hd]. unfold ContentHash. by rewrite Hc.
Qed.

(** A signed upload of two chunks, delivered in two network reads. *)
Definition demo_ctx : streamingSigningCtx :=
  mkCtx (bs "key") (bs "20260101T000000Z") (bs "20260101/us-east-1/s3/aws4_request") (bs "seed").
Definition demo_chunks : list bytes := [bs "hello "; bs "world"].
Definition demo_body : bytes :=
  Eval vm_compute in aws_encode (Some (ctx_key demo_ctx, ctx_date demo_ctx, ctx_scope demo_ctx)) (ctx_seed demo_ctx) demo_chunks.
Definition demo_src : reader := Reader [take 50 demo_body; drop 50 demo_body ++ bs "GET"] None.

Lemma chunked_roundtrip_witness :
  ∃ r', read_to_end (S (length demo_body + 3)) (newAWSChunkedReader demo_src (Some demo_ctx) false 100) 4
        = Some (bs "hello world", Ok tt, r') ∧ source r' = bs "GET"
  ∧ ContentHash r' = HashBytes (bs "hello world") ∧ DecodedSize r' = 11.
Proof.
  apply (chunked_roundtrip demo_src (Some demo_ctx) 100 4 demo_chunks (bs "GET")).
  - lia.
  - by apply (bool_decide_unpack _); vm_compute.
  - vm_compute. discriminate.
  - vm_compute. reflexivity.
Defined.

Lemma chunked_exact_witness :
  let r := newAWSChunkedReader demo_src (Some demo_ctx) false 100 in
  ∃ d res r', read_to_end (S (length (source r))) r 4 = Some (d, res, r')
  ∧ (res = Ok tt ↔ ∃ chunks rest, framed (signing r) false None (prevSig r) (source r) chunks rest
                     ∧ Z.of_nat (length (concat chunks)) <= 100)
  ∧ (res = Ok tt → ContentHash r' = HashBytes d ∧ DecodedSize r' = Z.of_nat (length d)
       ∧ ∃ chunks, framed (signing r) false None (prevSig r) (source r) chunks (source r') ∧ d = concat chunks).
Proof. apply (chunked_exact demo_src (Some demo_ctx) false 100 4); lia. Defined.

(** A flipped byte of the first chunk is refused. *)
Example chunked_tampered :
  let body := take 85 demo_body ++ [z2b 72] ++ drop 86 demo_body in
  match read_to_end 1000 (newAWSChunkedReader (Reader [body] None) (Some demo_ctx) false 100) 64 with
  | Some (d, Err e, _) => Some (d, e)
  | _ => None
  end = Some ([], Errno EACCES).
Proof. vm_compute. reflexivity. Qed.
