(* ===== verification/Peers.v ===== *)
(** * Peers and their connections (src/src/p2p/types.go, peer_map.go, tcp_transport.go)

    The peer table of a node and the TCP transport that keeps its connections.
    [range] over a Go map yields the entries in any order: the functions take the
    order as an argument, and the theorems hold for every permutation.  A
    connection is a number; [readers] is what each connection's goroutine knows
    of its peer, and [net_step] interleaves them with dialling and closing. *)
From S2P Require Import Prelude Wire.
Open Scope Z_scope.

(** ** Peers *)
Inductive PeerState := PeerStateAlive | PeerStateSuspect | PeerStateOffline.

#[export] Instance PeerState_eq_dec : EqDecision PeerState.
Proof. solve_decision. Defined.

Record Peer := mkP {
  Addr : bytes;
  state : PeerState;
  lastSeen : Z;
  rtt : Z;
  load : option PeerLoad;
  conn : option Z
}.

Definition NewPeer (addr : bytes) (now : Z) : Peer := mkP addr PeerStateAlive now 0 None None.
Definition SetState (s : PeerState) (p : Peer) : Peer := mkP (Addr p) s (lastSeen p) (rtt p) (load p) (conn p).
Definition Touch (now : Z) (p : Peer) : Peer := mkP (Addr p) (state p) now (rtt p) (load p) (conn p).
Definition SetRTT (r : Z) (p : Peer) : Peer := mkP (Addr p) (state p) (lastSeen p) r (load p) (conn p).
Definition SetLoad (l : PeerLoad) (p : Peer) : Peer := mkP (Addr p) (state p) (lastSeen p) (rtt p) (Some l) (conn p).
Definition SetConn (c : option Z) (p : Peer) : Peer := mkP (Addr p) (state p) (lastSeen p) (rtt p) (load p) c.

(** ** The peer map *)
Notation PeerMap := (gmap Z Peer).
Notation entry := (Z * Peer)%type.

Definition is_state (s : PeerState) (e : entry) : Prop := state e.2 = s.
#[export] Instance is_state_dec s e : Decision (is_state s e).
Proof. unfold is_state. apply _. Defined.

Definition Alive (order : list entry) : list entry := filter (is_state PeerStateAlive) order.
Definition StateCount (s : PeerState) (order : list entry) : Z := Z.of_nat (length (filter (is_state s) order)).
Definition AliveCount (order : list entry) : Z := StateCount PeerStateAlive order.
Definition PeerInfos (order : list entry) : list PeerInfo := (λ e : entry, mkPeer e.1 (Addr e.2)) <$> order.

(** The order of [AliveByQuality]: an unknown round-trip time ranks last. *)
Definition quality_less (a b : entry) : bool :=
  let ri := rtt a.2 in
  let rj := rtt b.2 in
  if ri =? 0 then false else if rj =? 0 then true else ri <? rj.

Definition AliveByQuality (order : list entry) : list entry := stable_sort quality_less (Alive order).

(** The collecting loop of [RandomPeers]. *)
Fixpoint pick (k : nat) (excludeID : Z) (l : list entry) : list entry :=
  match l with
  | [] => []
  | p :: rest =>
      if decide (p.1 = excludeID) then pick k excludeID rest
      else match k with
           | O | S O => [p]
           | S k => p :: pick k excludeID rest
           end
  end.

Definition RandomPeers (shuffle : list entry → list entry) (k excludeID : Z) (order : list entry) : list entry :=
  if k <=? 0 then []
  else
    let alive := Alive order in
    if (length alive <=? 1)%nat then filter (λ e : entry, e.1 ≠ excludeID) alive
    else pick (Z.to_nat k) excludeID (shuffle alive).

(** ** The TCP transport *)
Record TCPTransport := mkTCP {
  peerMap : PeerMap;
  conns : gset Z;
  closed : bool;
  readers : gmap Z Z           (* per running read loop: its [peerID], -1 before the first RPC *)
}.

Definition set_peerMap (m : PeerMap) (t : TCPTransport) : TCPTransport := mkTCP m (conns t) (closed t) (readers t).

(** A write to the connection of [peerID]; [write] says whether the socket takes it. *)
Definition Send (write : Z → bool) (m : PeerMap) (peerID : Z) : result unit :=
  match m !! peerID with
  | None => Err (Errno ENOENT)
  | Some p => match conn p with
              | None => Err (Errno ENOTCONN)
              | Some c => if write c then Ok tt else Err (Errno EPIPE)
              end
  end.

(** [Broadcast]: the peers the RPC was written to. *)
Definition writable (write : Z → bool) (p : Peer) : bool :=
  match conn p with Some c => write c | None => false end.
Definition Broadcast (write : Z → bool) (order : list entry) (from : Z) : list Z :=
  (filter (λ e : entry, e.1 ≠ from ∧ writable write e.2 = true) order).*1.

(** The acceptor registers a connection and starts its read loop. *)
Definition accept (c : Z) (t : TCPTransport) : TCPTransport :=
  if closed t then t else mkTCP (peerMap t) ({[c]} ∪ conns t) (closed t) (<[c := -1]> (readers t)).

Definition cleanupConn (c peerID : Z) (t : TCPTransport) : TCPTransport :=
  let t := mkTCP (peerMap t) (conns t ∖ {[c]}) (closed t) (delete c (readers t)) in
  if peerID <? 0 then t
  else match peerMap t !! peerID with
       | Some p => if decide (conn p = Some c) then set_peerMap (<[peerID := SetConn None p]> (peerMap t)) t else t
       | None => t
       end.

(** The first RPC of an accepted connection names its peer. *)
Definition first_rpc (auth : option (Z → bool)) (c : Z) (addr : bytes) (from now : Z) (t : TCPTransport) : TCPTransport :=
  if from <? 0 then cleanupConn c from t
  else if match auth with Some f => negb (f from) | None => false end then cleanupConn c from t
  else mkTCP (<[from := Touch now (SetConn (Some c) (NewPeer addr now))]> (peerMap t)) (conns t) (closed t)
         (<[c := from]> (readers t)).

(** [Dial] and [Connect] look at the table, dial, and then install the
    connection [c] the operating system gave, if it gave one; other goroutines
    may run in between, so the second part is a definition of its own. *)
Definition dial_finish (id : Z) (addr : bytes) (c now : Z) (t : TCPTransport) : result Peer * TCPTransport :=
  if closed t then (Err (Errno ECONNREFUSED), t)
  else
    let p := SetConn (Some c) (NewPeer addr now) in
    (Ok p, mkTCP (<[id := p]> (peerMap t)) ({[c]} ∪ conns t) (closed t) (<[c := id]> (readers t))).

Definition Dial (id : Z) (addr : bytes) (c : option Z) (now : Z) (t : TCPTransport) : result Peer * TCPTransport :=
  match peerMap t !! id with
  | Some p => (Ok p, t)
  | None => match c with
            | None => (Err (Errno ECONNREFUSED), t)
            | Some c => dial_finish id addr c now t
            end
  end.

(** The peer object of the caller may have been replaced in the map meanwhile
    ([current] false): the connection is then set on the old object. *)
Definition connect_finish (id c : Z) (current : bool) (t : TCPTransport) : result unit * TCPTransport :=
  if closed t then (Err (Errno ECONNREFUSED), t)
  else
    let m := if current then alter (SetConn (Some c)) id (peerMap t) else peerMap t in
    (Ok tt, mkTCP m ({[c]} ∪ conns t) (closed t) (<[c := id]> (readers t))).

Definition Connect (id : Z) (c : option Z) (t : TCPTransport) : result unit * TCPTransport :=
  match peerMap t !! id with
  | None => (Err (Errno EINVAL), t)
  | Some p =>
      match conn p, c with
      | Some _, _ => (Ok tt, t)
      | None, None => (Err (Errno ECONNREFUSED), t)
      | None, Some c => connect_finish id c true t
      end
  end.

(** [Close]: no connection is accepted or dialled any more; the read loops exit
    one by one. *)
Definition Close (t : TCPTransport) : TCPTransport := mkTCP (peerMap t) (conns t) true (readers t).

(** Connection numbers are never reused. *)
Definition fresh_conn (c : Z) (t : TCPTransport) : Prop := c ∉ conns t ∧ readers t !! c = None.

Inductive net_step (auth : option (Z → bool)) : TCPTransport → TCPTransport → Prop :=
  | net_accept t c : fresh_conn c t → net_step auth t (accept c t)
  | net_first t c addr from now : readers t !! c = Some (-1) → net_step auth t (first_rpc auth c addr from now t)
  | net_dial t id addr c now : fresh_conn c t → 0 <= id → net_step auth t (dial_finish id addr c now t).2
  | net_connect t id c current : fresh_conn c t → 0 <= id → net_step auth t (connect_finish id c current t).2
  | net_exit t c id : readers t !! c = Some id → net_step auth t (cleanupConn c id t)
  | net_add t id addr now : peerMap t !! id = None → net_step auth t (set_peerMap (<[id := NewPeer addr now]> (peerMap t)) t)
  | net_update t id p p' : peerMap t !! id = Some p → conn p' = conn p →
      net_step auth t (set_peerMap (<[id := p']> (peerMap t)) t)
  | net_remove t id : net_step auth t (set_peerMap (delete id (peerMap t)) t)
  | net_close t : net_step auth t (Close t).

(** ** Lemmas: choosing peers *)
Lemma pick_spec k ex l :
  (0 < k)%nat → pick k ex l = take k (filter (λ e : entry, e.1 ≠ ex) l).
Proof.
  revert k. induction l as [|p l IH]; intros k Hk; cbn [pick]; [by destruct k|].
  rewrite filter_cons. destruct (decide (p.1 = ex)) as [E|E].
  - rewrite decide_False by (intros H; exact (H E)). by apply IH.
  - rewrite decide_True by done. destruct k as [|[|k]]; [lia|done|]. cbn [take]. f_equal. apply IH. lia.
Qed.

(** An entry whose round-trip time is at least as good. *)
Definition quality_le (a b : entry) : Prop := rtt b.2 = 0 ∨ rtt a.2 ≠ 0 ∧ rtt a.2 <= rtt b.2.

Lemma quality_notafter a b : notafter quality_less a b → quality_le a b.
Proof.
  unfold notafter, quality_less, quality_le. destruct (Z.eqb_spec (rtt b.2) 0); [by left|].
  destruct (Z.eqb_spec (rtt a.2) 0); [done|]. intros H%Z.ltb_ge. right. lia.
Qed.

#[export] Instance quality_weak : StrictWeak quality_less.
Proof.
  split; unfold quality_less; intros; repeat case_match; zbool; try done; try (apply Z.ltb_ge); try lia.
Qed.

(** ** Guarantees of the peer map *)

(** For every iteration order of the map and every shuffle, [RandomPeers]
    returns distinct alive peers of the table, never the excluded one, and as
    many as were asked for when that many are available. *)
Theorem RandomPeers_spec (shuffle : list entry → list entry) k ex (m : PeerMap) order :
  (∀ l, shuffle l ≡ₚ l) → order ≡ₚ map_to_list m → 0 < k →
  let others := filter (λ e : entry, e.1 ≠ ex) (Alive order) in
  let r := RandomPeers shuffle k ex order in
  NoDup r.*1 ∧ Z.of_nat (length r) = Z.min k (Z.of_nat (length others))
  ∧ ∀ id p, (id, p) ∈ r → m !! id = Some p ∧ state p = PeerStateAlive ∧ id ≠ ex.
Proof.
  intros Hs Ho Hk others r.
  assert (∀ id p, (id, p) ∈ others → m !! id = Some p ∧ state p = PeerStateAlive ∧ id ≠ ex) as Hin.
  { intros id p [He Hm]%list_elem_of_filter. apply list_elem_of_filter in Hm as [Hst Hm].
    rewrite Ho in Hm. apply elem_of_map_to_list in Hm. done. }
  assert (NoDup others.*1) as Hnd.
  { do 2 apply NoDup_map_filter. rewrite Ho. apply NoDup_fst_map_to_list. }
  unfold r, RandomPeers. rewrite (proj2 (Z.leb_gt k 0)) by lia. fold others.
  destruct (length (Alive order) <=? 1)%nat eqn:El.
  { split_and!; [done| |done]. apply Nat.leb_le in El.
    pose proof (length_filter (λ e : entry, e.1 ≠ ex) (Alive order)) as Hle. fold others in Hle. lia. }
  rewrite pick_spec by lia. set (o := filter _ (shuffle (Alive order))).
  assert (o ≡ₚ others) as Hperm by (unfold o, others; by rewrite Hs). split_and!.
  - rewrite fmap_take. eapply sublist_NoDup; [|apply sublist_take]. by rewrite Hperm.
  - rewrite length_take, Hperm. lia.
  - intros id p Hip. apply Hin. rewrite <- Hperm. eapply elem_of_take in Hip as (i & Hi & _). by eapply list_elem_of_lookup_2.
Qed.

(** [AliveByQuality] lists exactly the alive peers, best round-trip time
    first and unknown times last. *)
Theorem AliveByQuality_sorted order :
  AliveByQuality order ≡ₚ Alive order
  ∧ StronglySorted quality_le (AliveByQuality order).
Proof.
  split; [apply stable_sort_perm|].
  assert (∀ l, StronglySorted (notafter quality_less) l → StronglySorted quality_le l) as H.
  { induction 1; constructor; [done|]. eapply Forall_impl; [done|]. apply quality_notafter. }
  apply H, stable_sort_sorted. apply _.
Qed.

(** ** The connection table *)
Record tcp_inv (t : TCPTransport) : Prop := {
  held_read : ∀ id p c, peerMap t !! id = Some p → conn p = Some c → readers t !! c = Some id ∧ 0 <= id;
  read_open : ∀ c id, readers t !! c = Some id → c ∈ conns t
}.

Definition empty_tcp : TCPTransport := mkTCP ∅ ∅ false ∅.

(** Changing one entry of the table, and the read loop of its connection. *)
Lemma tcp_inv_insert t id p c cs cl :
  tcp_inv t → fresh_conn c t ∨ readers t !! c = Some (-1) → 0 <= id → conn p = Some c →
  c ∈ cs → conns t ⊆ cs → tcp_inv (mkTCP (<[id := p]> (peerMap t)) cs cl (<[c := id]> (readers t))).
Proof.
  intros [H1 H2] Hc Hid Hp Hcs Hsub. split; cbn.
  - intros id' p' c' Hl Hc'. destruct (decide (id' = id)) as [->|Hne].
    + rewrite lookup_insert_eq in Hl. simplify_eq. by rewrite lookup_insert_eq.
    + rewrite lookup_insert_ne in Hl by done. destruct (H1 _ _ _ Hl Hc') as [Hr Hp'].
      rewrite lookup_insert_ne; [done|]. intros ->. destruct Hc as [[_ Hf]|Hf]; [congruence|].
      rewrite Hr in Hf. injection Hf as ->. lia.
  - intros c' id' Hl. destruct (decide (c' = c)) as [->|Hne]; [done|]. rewrite lookup_insert_ne in Hl by done.
    apply Hsub. by eapply H2.
Qed.

Lemma tcp_inv_reader t c id cl :
  tcp_inv t → fresh_conn c t → tcp_inv (mkTCP (peerMap t) ({[c]} ∪ conns t) cl (<[c := id]> (readers t))).
Proof.
  intros [H1 H2] [_ Hf]. split; cbn.
  - intros id' p' c' Hl Hc'. destruct (H1 _ _ _ Hl Hc') as [Hr Hp]. rewrite lookup_insert_ne by congruence. done.
  - intros c' id' Hl. destruct (decide (c' = c)) as [->|Hne]; [set_solver|]. rewrite lookup_insert_ne in Hl by done.
    apply H2 in Hl. set_solver.
Qed.

Lemma tcp_inv_map t m :
  tcp_inv t → (∀ id p c, m !! id = Some p → conn p = Some c → ∃ p', peerMap t !! id = Some p' ∧ conn p' = Some c) →
  tcp_inv (set_peerMap m t).
Proof. intros [H1 H2] Hm. split; [|done]. intros id p c Hl Hc. destruct (Hm _ _ _ Hl Hc) as (p' & Hl' & Hc'). by eapply H1. Qed.

Lemma tcp_inv_cleanup t c id from :
  tcp_inv t → readers t !! c = Some id → id = from ∨ id = -1 → tcp_inv (cleanupConn c from t).
Proof.
  intros [H1 H2] Hr Hfrom. unfold cleanupConn. cbn.
  assert (∀ m : PeerMap, (∀ i p c', m !! i = Some p → conn p = Some c' → readers t !! c' = Some i ∧ 0 <= i ∧ c' ≠ c) →
    tcp_inv (mkTCP m (conns t ∖ {[c]}) (closed t) (delete c (readers t)))) as Hm.
  { intros m Hm. split; cbn.
    - intros i p c' Hl Hc'. destruct (Hm _ _ _ Hl Hc') as (? & ? & ?). by rewrite lookup_delete_ne.
    - intros c' i [Hne Hl]%lookup_delete_Some. apply H2 in Hl. set_solver. }
  assert (∀ i p c', peerMap t !! i = Some p → conn p = Some c' → i ≠ from → c' ≠ c) as Hother.
  { intros i p c' Hl Hc' Hne ->. destruct (H1 _ _ _ Hl Hc') as [Hi Hi0]. rewrite Hr in Hi. injection Hi as ->. lia. }
  destruct (from <? 0) eqn:E; zbool.
  { apply Hm. intros i p c' Hl Hc'. destruct (H1 _ _ _ Hl Hc') as [Hi Hi0]. split_and!; [done..|].
    eapply Hother; [done..|lia]. }
  destruct (peerMap t !! from) as [p|] eqn:Ep.
  - destruct (decide (conn p = Some c)) as [Hc|Hc]; apply Hm; intros i p' c' Hl Hc'.
    + apply lookup_insert_Some in Hl as [[<- <-]|[Hne Hl]]; [done|].
      destruct (H1 _ _ _ Hl Hc') as [Hi Hi0]. split_and!; [done..|]. by eapply Hother.
    + destruct (H1 _ _ _ Hl Hc') as [Hi Hi0]. split_and!; [done..|].
      destruct (decide (i = from)) as [->|Hne]; [intros ->; congruence|by eapply Hother].
  - apply Hm. intros i p' c' Hl Hc'. destruct (H1 _ _ _ Hl Hc') as [Hi Hi0]. split_and!; [done..|].
    eapply Hother; [done..|]. intros ->. congruence.
Qed.

Lemma net_step_inv auth t t' : tcp_inv t → net_step auth t t' → tcp_inv t'.
Proof.
  intros Hi Hs. destruct Hs as [t c Hf|t c addr from now Hr|t id addr c now Hf Hid|t id c cur Hf Hid|t c id Hr
                               |t id addr now Hl|t id p p' Hl Hc|t id|t].
  - unfold accept. destruct (closed t) eqn:E; [done|]. by apply tcp_inv_reader.
  - unfold first_rpc. destruct (from <? 0) eqn:E; zbool; [by eapply tcp_inv_cleanup; eauto|].
    case_match; [by eapply tcp_inv_cleanup; eauto|].
    apply tcp_inv_insert; [done|by right|lia|done|by eapply read_open|done].
  - unfold dial_finish. destruct (closed t) eqn:E; [done|]. apply tcp_inv_insert; [done|by left|done|done|set_solver|set_solver].
  - unfold connect_finish. destruct (closed t) eqn:E; [done|]. destruct cur; [|by apply tcp_inv_reader].
    destruct (peerMap t !! id) as [p|] eqn:Ep; cbn.
    + replace (alter (SetConn (Some c)) id (peerMap t)) with (<[id := SetConn (Some c) p]> (peerMap t)).
      * apply tcp_inv_insert; [done|by left|done|done|set_solver|set_solver].
      * apply map_eq. intros j. destruct (decide (j = id)) as [->|Hne].
        -- by rewrite lookup_insert_eq, lookup_alter_eq, Ep.
        -- by rewrite lookup_insert_ne, lookup_alter_ne.
    + rewrite alter_id by (intros ??; congruence). by apply tcp_inv_reader.
  - eapply tcp_inv_cleanup; eauto.
  - apply tcp_inv_map; [done|]. intros i p c [[<- <-]|[_ ?]]%lookup_insert_Some ?; [done|eauto].
  - apply tcp_inv_map; [done|]. intros i q c [[<- <-]|[_ ?]]%lookup_insert_Some ?; [|eauto]. exists p. split; congruence.
  - apply tcp_inv_map; [done|]. intros i p c [_ ?]%lookup_delete_Some ?; eauto.
  - destruct Hi as [H1 H2]. by split.
Qed.

(** Whatever the order of accepts, dials, connects, read-loop exits and peer
    updates, a connection the table hands out for sending is open and belongs to
    that peer's own read loop: no peer keeps the connection of a loop that has
    exited, and no two peers share one. *)
Theorem tcp_no_stale_conn auth t id p c :
  rtc (net_step auth) empty_tcp t → peerMap t !! id = Some p → conn p = Some c →
  c ∈ conns t ∧ readers t !! c = Some id
  ∧ ∀ id' p', peerMap t !! id' = Some p' → conn p' = Some c → id' = id.
Proof.
  intros Hr Hp Hc. assert (tcp_inv t) as [H1 H2].
  { assert (tcp_inv empty_tcp) as H0 by (split; cbn; intros; by rewrite lookup_empty in *).
    clear Hp Hc. revert H0. induction Hr as [|? ? ? Hs _ IH]; [done|]. intros H0. by eapply IH, net_step_inv. }
  destruct (H1 _ _ _ Hp Hc) as [Hrd _]. split_and!; [by eapply H2|done|].
  intros id' p' Hp' Hc'. destruct (H1 _ _ _ Hp' Hc'). congruence.
Qed.

(** ** Concrete tables *)
Definition peer_a : Peer := SetRTT 30 (NewPeer (bs "a:1") 5).
Definition peer_b : Peer := NewPeer (bs "b:1") 5.
Definition pm_demo : PeerMap := {[ 1 := peer_a; 2 := peer_b; 3 := SetState PeerStateSuspect peer_b ]}.

Lemma RandomPeers_spec_witness :
  let r := RandomPeers (@rev entry) 3 1 (map_to_list pm_demo) in
  r = [(2, peer_b)] ∧ NoDup r.*1
  ∧ ∀ id p, (id, p) ∈ r → pm_demo !! id = Some p ∧ state p = PeerStateAlive ∧ id ≠ 1.
Proof.
  split; [vm_compute; reflexivity|].
  destruct (RandomPeers_spec (@rev entry) 3 1 pm_demo (map_to_list pm_demo)) as (H1 & _ & H3).
  - intros l. symmetry. apply Permutation_rev.
  - reflexivity.
  - lia.
  - exact (conj H1 H3).
Defined.

Definition tcp_demo : TCPTransport := first_rpc None 7 (bs "c:9") 4 5 (accept 7 empty_tcp).

Lemma tcp_no_stale_conn_witness :
  7 ∈ conns tcp_demo ∧ readers tcp_demo !! 7 = Some 4
  ∧ ∀ id' p', peerMap tcp_demo !! id' = Some p' → conn p' = Some 7 → id' = 4.
Proof.
  apply (tcp_no_stale_conn None tcp_demo 4 (Touch 5 (SetConn (Some 7) (NewPeer (bs "c:9") 5))) 7).
  - eapply rtc_l; [apply (net_accept _ empty_tcp 7); split; [set_solver|reflexivity]|].
    eapply rtc_l; [apply (net_first _ (accept 7 empty_tcp) 7 (bs "c:9") 4 5); reflexivity|apply rtc_refl].
  - reflexivity.
  - reflexivity.
Defined.
