(* ===== verification/Gossip.v ===== *)
(** * Gossip membership and failure detection (src/src/p2p/gossip.go)

    A node's [Gossiper]: the peer table, the round-trip times, the pings in
    flight.  Each handler is a function returning the new state and what it
    sent or called.  The acknowledgement channels are a store of their own, as a
    channel is shared between the goroutine that waits and the table.
    [gossip_step] is one node: the consumer loop (one RPC at a time), the ping
    loop (one ping at a time), the suspicion ticks and the transport, in any
    order.  Floating-point numbers are binary64 ([Float64]). *)
From Stdlib Require SpecFloat.
From S2P Require Import Prelude Float64 Wire Lease Peers.
Open Scope Z_scope.

(** ** Configuration *)
Definition MaxPeersInHeartbeat : nat := 256.
Definition minGossipFanout : Z := 1.
Definition maxGossipFanout : Z := 10.

Record GossipConfig := mkCfg {
  LocalID : Z;
  HeartbeatInterval : Z;
  SuspicionTimeout : Z;
  Fanout : Z;
  PingTimeout : Z;
  IndirectPingCount : Z;
  RTTAlpha : float64
}.

Definition second : Z := 10 ^ 9.
(** 0.25 *)
Definition quarter : float64 := fdiv (f64 1) (f64 4).

Definition DefaultGossipConfig (localID : Z) : GossipConfig :=
  mkCfg localID second (5 * second) 3 (500 * 10 ^ 6) 3 quarter.

(** ** Fanout *)

(** 2.718281828459045 *)
Definition euler : float64 := SpecFloat.S754_finite false 6121026514868073 (-51).

Fixpoint fanout_loop (fuel : nat) (f : Z) (v n : float64) : Z :=
  match fuel with
  | O => f
  | S fuel =>
      if SpecFloat.SFltb v n then
        let f := f + 1 in
        if maxGossipFanout <=? f then maxGossipFanout else fanout_loop fuel f (fmul v euler) n
      else f
  end.

(** The loop body runs at most [maxGossipFanout - minGossipFanout] times. *)
Definition adaptiveFanout (aliveCount : Z) : Z :=
  if aliveCount <=? 1 then minGossipFanout else fanout_loop 9 minGossipFanout euler (f64 aliveCount).

Definition effectiveFanout (cfgFanout aliveCount : Z) : Z :=
  if 0 <? cfgFanout then cfgFanout else adaptiveFanout aliveCount.

(** ** State *)
Record pendingPing := mkPP { targetID : Z; sentAt : Z; ackCh : nat }.

Record Gossiper := mkG {
  cfg : GossipConfig;
  peers : PeerMap;
  rtts : gmap Z Z;
  pendingPings : gmap Z pendingPing;
  nextPingID : Z;
  acks : list bool;                        (* per channel: an ack is buffered *)
  leaseManager : option LeaseManager;
  routed : bool                            (* scatter-gather, OPRF and metadata handlers are installed *)
}.

Definition NewGossiper (c : GossipConfig) (m : PeerMap) : Gossiper := mkG c m ∅ ∅ 0 [] None false.

Definition set_peers (m : PeerMap) (g : Gossiper) : Gossiper :=
  mkG (cfg g) m (rtts g) (pendingPings g) (nextPingID g) (acks g) (leaseManager g) (routed g).
Definition set_pings (p : gmap Z pendingPing) (a : list bool) (g : Gossiper) : Gossiper :=
  mkG (cfg g) (peers g) (rtts g) p (nextPingID g) a (leaseManager g) (routed g).

(** What a handler does to the outside. *)
Inductive effect :=
  | Sent (to : Z) (rpc : RPC)
  | OnJoin (id : Z)
  | OnLeave (id : Z)
  | Dialing (id : Z)            (* the connecting goroutine is started *)
  | Forward (rpc : RPC).        (* handed to another subsystem *)

(** [g.transport.Send]; a failure is only logged. *)
Definition sends (write : Z → bool) (g : Gossiper) (to : Z) (rpc : RPC) : list effect :=
  match Send write (peers g) to with Ok _ => [Sent to rpc] | Err _ => [] end.

(** [time.Time.Sub]: the difference, saturated to an int64. *)
Definition time_sub (a b : Z) : Z := Z.max (- 2 ^ 63) (Z.min MaxInt64 (a - b)).

(** ** Round-trip times *)
Definition Update (g : Gossiper) (peerID sample : Z) : Z * Gossiper :=
  let updated := match rtts g !! peerID with
                 | None => sample
                 | Some prev => f64_trunc (fadd (fmul (f64 prev) (fsub (f64 1) (RTTAlpha (cfg g))))
                                                (fmul (f64 sample) (RTTAlpha (cfg g))))
                 end in
  (updated, mkG (cfg g) (peers g) (<[peerID := updated]> (rtts g)) (pendingPings g) (nextPingID g) (acks g)
              (leaseManager g) (routed g)).

Definition adaptiveTimeout (g : Gossiper) (peerID : Z) : Z :=
  let st := SuspicionTimeout (cfg g) in
  let r := default 0 (rtts g !! peerID) in
  if r <=? 0 then st
  else
    let adaptive := int64 (r * 10) in
    if adaptive <? st then st
    else if int64 (5 * st) <? adaptive then int64 (5 * st)
    else adaptive.

(** ** Peer updates *)

(** What every message from a known peer does to its entry. *)
Definition revived (now : Z) (p : Peer) : Peer :=
  let p := Touch now p in
  match state p with
  | PeerStateAlive => p
  | PeerStateSuspect | PeerStateOffline => SetState PeerStateAlive p
  end.
Definition revive (id now : Z) (g : Gossiper) : Gossiper := set_peers (alter (revived now) id (peers g)) g.

Definition suspected (p : Peer) : Peer :=
  match state p with PeerStateAlive => SetState PeerStateSuspect p | _ => p end.
Definition markSuspectIfAlive (peerID : Z) (g : Gossiper) : Gossiper := set_peers (alter suspected peerID (peers g)) g.

Definition removePendingPing (pingID : Z) (g : Gossiper) : Gossiper :=
  set_pings (delete pingID (pendingPings g)) (acks g) g.

(** ** Membership messages *)
Definition merge_peer (now : Z) (st : Gossiper * list effect) (pi : PeerInfo) : Gossiper * list effect :=
  let '(g, es) := st in
  if decide (PID pi = LocalID (cfg g)) then (g, es)
  else match peers g !! PID pi with
       | Some _ => (g, es)
       | None => (set_peers (<[PID pi := NewPeer (PAddr pi) now]> (peers g)) g,
                  es ++ [OnJoin (PID pi); Dialing (PID pi)])
       end.

Definition merge_peers (now : Z) (l : list PeerInfo) (g : Gossiper) : Gossiper * list effect :=
  foldl (merge_peer now) (g, []) (take MaxPeersInHeartbeat l).

Definition handleHeartbeat (g : Gossiper) (rpc : RPC) (now : Z) : Gossiper * list effect :=
  match DecodeHeartbeatPayload (Payload rpc) with
  | Err _ => (g, [])
  | Ok l => let '(g, es) := merge_peers now l g in (revive (From rpc) now g, es)
  end.

Definition handleMembership (g : Gossiper) (rpc : RPC) (now : Z) : Gossiper * list effect :=
  match DecodeHeartbeatPayload (Payload rpc) with
  | Err _ => (g, [])
  | Ok l => merge_peers now l g
  end.

(** The identifier is assembled from its bytes in 32-bit arithmetic. *)
Definition handleSuspect (g : Gossiper) (rpc : RPC) : Gossiper :=
  match Payload rpc with
  | a :: b :: c :: d :: _ =>
      let suspectID := Z.lor (Z.lor (Z.lor (int32 (Z.shiftl (b2z a) 24)) (int32 (Z.shiftl (b2z b) 16)))
                                    (int32 (Z.shiftl (b2z c) 8))) (int32 (b2z d)) in
      if decide (suspectID = LocalID (cfg g)) then g else markSuspectIfAlive suspectID g
  | _ => g
  end.

Definition handleLoad (g : Gossiper) (rpc : RPC) : Gossiper :=
  match DecodeLoadPayload (Payload rpc) with
  | Err _ => g
  | Ok l => set_peers (alter (SetLoad l) (From rpc) (peers g)) g
  end.

(** ** Pings *)
Definition MsgPing : Z := 9.
Definition MsgAck : Z := 10.
Definition MsgIndirectPing : Z := 11.

Definition handlePing (write : Z → bool) (g : Gossiper) (rpc : RPC) (now : Z) : Gossiper * list effect :=
  match DecodePingPayload (Payload rpc) with
  | Err _ => (g, [])
  | Ok p =>
      let ack := mkRPC (LocalID (cfg g)) MsgAck (Ping_Encode (mkPing (PingID p) (LocalID (cfg g)) (PTimestamp p))) in
      (revive (From rpc) now g, sends write g (From rpc) ack)
  end.

Definition handleAck (g : Gossiper) (rpc : RPC) (now : Z) : Gossiper :=
  match DecodePingPayload (Payload rpc) with
  | Err _ => g
  | Ok p =>
      match pendingPings g !! PingID p with
      | None => g
      | Some pp => revive (From rpc) now (set_pings (pendingPings g) (<[ackCh pp := true]> (acks g)) g)
      end
  end.

(** The consumer while it waits for the target of an indirect ping. *)
Record waiting := mkWait { w_ping : PingPayload; w_requester : Z; w_chan : nat }.

(** [handleIndirectPing] up to its [select]. *)
Definition handleIndirectPing (write : Z → bool) (g : Gossiper) (rpc : RPC)
    : Gossiper * list effect * option waiting :=
  match DecodePingPayload (Payload rpc) with
  | Err _ => (g, [], None)
  | Ok p =>
      match peers g !! TargetID p with
      | None => (g, [], None)
      | Some _ =>
          match Send write (peers g) (TargetID p) with
          | Err _ => (g, [], None)
          | Ok _ =>
              let ch := length (acks g) in
              (set_pings (<[PingID p := mkPP (TargetID p) (PTimestamp p) ch]> (pendingPings g)) (acks g ++ [false]) g,
               [Sent (TargetID p) (mkRPC (LocalID (cfg g)) MsgPing (Ping_Encode p))],
               Some (mkWait p (From rpc) ch))
          end
      end
  end.

(** Its three outcomes: the ack is forwarded to the requester; a timeout or a
    stop only forgets the ping. *)
Definition indirect_acked (write : Z → bool) (g : Gossiper) (w : waiting) : Gossiper * list effect :=
  (removePendingPing (PingID (w_ping w)) g,
   sends write g (w_requester w) (mkRPC (LocalID (cfg g)) MsgAck (Ping_Encode (w_ping w)))).
Definition indirect_timeout (g : Gossiper) (w : waiting) : Gossiper := removePendingPing (PingID (w_ping w)) g.

(** [sendPing], split at its waits. *)
Record pinging := mkPg { pg_target : Z; pg_id : Z; pg_sent : Z; pg_chan : nat; pg_indirect : bool }.

Definition ping_start (write : Z → bool) (g : Gossiper) (target now : Z) : Gossiper * list effect * option pinging :=
  let next := uint64 (nextPingID g + 1) in
  let pid := Z.lor (uint64 (Z.shiftl (uint64 (LocalID (cfg g))) 32)) (Z.land next 4294967295) in
  let ch := length (acks g) in
  let g := mkG (cfg g) (peers g) (rtts g) (<[pid := mkPP target now ch]> (pendingPings g)) next (acks g ++ [false])
             (leaseManager g) (routed g) in
  let rpc := mkRPC (LocalID (cfg g)) MsgPing (Ping_Encode (mkPing pid target now)) in
  match Send write (peers g) target with
  | Err _ => (removePendingPing pid g, [], None)
  | Ok _ => (g, [Sent target rpc], Some (mkPg target pid now ch false))
  end.

Definition recordPingSuccess (g : Gossiper) (target sent now : Z) : Gossiper :=
  let '(ewma, g) := Update g target (time_sub now sent) in
  set_peers (alter (SetRTT ewma) target (peers g)) g.

Definition ping_acked (g : Gossiper) (pg : pinging) (now : Z) : Gossiper :=
  removePendingPing (pg_id pg) (recordPingSuccess g (pg_target pg) (pg_sent pg) now).

(** [sendIndirectPing] to the [helpers] that [RandomPeers] chose. *)
Definition sendIndirectPing (write : Z → bool) (g : Gossiper) (helpers : list Z) (pg : pinging) : list effect :=
  let rpc := mkRPC (LocalID (cfg g)) MsgIndirectPing (Ping_Encode (mkPing (pg_id pg) (pg_target pg) (pg_sent pg))) in
  h ← filter (λ h, h ≠ pg_target pg) helpers; sends write g h rpc.

Definition ping_timeout (write : Z → bool) (g : Gossiper) (helpers : list Z) (pg : pinging)
    : Gossiper * list effect * option pinging :=
  let suspected_now := removePendingPing (pg_id pg) (markSuspectIfAlive (pg_target pg) g) in
  if pg_indirect pg then (suspected_now, [], None)
  else match sendIndirectPing write g helpers pg with
       | [] => (suspected_now, [], None)
       | es => (g, es, Some (mkPg (pg_target pg) (pg_id pg) (pg_sent pg) (pg_chan pg) true))
       end.

(** ** Suspicion *)
Definition suspect_one (g : Gossiper) (now id : Z) (p : Peer) : Peer :=
  if decide (id = LocalID (cfg g)) then p
  else
    let elapsed := time_sub now (lastSeen p) in
    let timeout := adaptiveTimeout g id in
    match state p with
    | PeerStateAlive => if timeout <? elapsed then SetState PeerStateSuspect p else p
    | PeerStateSuspect => if int64 (2 * timeout) <? elapsed then SetState PeerStateOffline p else p
    | PeerStateOffline => p
    end.

Definition goes_offline (p p' : Peer) : bool :=
  bool_decide (state p ≠ PeerStateOffline) && bool_decide (state p' = PeerStateOffline).

Definition checkSuspicion (g : Gossiper) (now : Z) : Gossiper * list effect :=
  (set_peers (map_imap (λ id p, Some (suspect_one g now id p)) (peers g)) g,
   e ← map_to_list (peers g); if goes_offline e.2 (suspect_one g now e.1 e.2) then [OnLeave e.1] else []).

(** ** Announcements and heartbeats *)
Definition MsgHeartbeat : Z := 1.
Definition MsgMembership : Z := 2.
Definition MsgSuspect : Z := 3.
Definition MsgLoad : Z := 24.

Definition announce (write : Z → bool) (g : Gossiper) (rpc : RPC) : list effect :=
  (λ id, Sent id rpc) <$> Broadcast write (map_to_list (peers g)) (From rpc).

Definition AnnounceJoin (write : Z → bool) (g : Gossiper) (id : Z) (addr : bytes) : list effect :=
  announce write g (mkRPC (LocalID (cfg g)) MsgMembership (Heartbeat_Encode [mkPeer id addr])).

Definition suspect_payload (peerID : Z) : bytes :=
  [z2b (Z.shiftr peerID 24); z2b (Z.shiftr peerID 16); z2b (Z.shiftr peerID 8); z2b peerID].
Definition AnnounceSuspect (write : Z → bool) (g : Gossiper) (peerID : Z) : list effect :=
  announce write g (mkRPC (LocalID (cfg g)) MsgSuspect (suspect_payload peerID)).

Definition broadcastLoad (write : Z → bool) (g : Gossiper) (provider : option PeerLoad) (targets : list Z) : list effect :=
  match provider with
  | None => []
  | Some l => t ← targets; sends write g t (mkRPC (LocalID (cfg g)) MsgLoad (Load_Encode l))
  end.

(** [sendHeartbeat]: [shuffle] is the random choice, [order] the iteration order. *)
Definition sendHeartbeat (write : Z → bool) (shuffle : list entry → list entry) (order : list entry)
    (provider : option PeerLoad) (g : Gossiper) : list effect :=
  let fanout := effectiveFanout (Fanout (cfg g)) (AliveCount order) in
  match RandomPeers shuffle fanout (LocalID (cfg g)) order with
  | [] => []
  | targets =>
      broadcastLoad write g provider targets.*1
      ++ t ← targets; sends write g t.1 (mkRPC (LocalID (cfg g)) MsgHeartbeat (Heartbeat_Encode (PeerInfos order)))
  end.

(** ** Dispatch *)
Definition HandleRPC (write : Z → bool) (g : Gossiper) (rpc : RPC) (now : Z)
    : Gossiper * list effect * option waiting :=
  let pure (r : Gossiper * list effect) := (r, None) in
  let t := Type_ rpc in
  if t =? MsgHeartbeat then pure (handleHeartbeat g rpc now)
  else if t =? MsgMembership then pure (handleMembership g rpc now)
  else if t =? MsgSuspect then pure (handleSuspect g rpc, [])
  else if t =? MsgPing then pure (handlePing write g rpc now)
  else if t =? MsgAck then pure (handleAck g rpc now, [])
  else if t =? MsgIndirectPing then handleIndirectPing write g rpc
  else if t =? MsgLoad then pure (handleLoad g rpc, [])
  else if (6 <=? t) && (t <=? 8) then
    match leaseManager g with
    | None => pure (g, [])
    | Some lm =>
        let '(lm, resp) := HandleLeaseRPC lm rpc now in
        let g := mkG (cfg g) (peers g) (rtts g) (pendingPings g) (nextPingID g) (acks g) (Some lm) (routed g) in
        pure (g, match resp with Some r => sends write g (From rpc) r | None => [] end)
    end
  else if ((4 <=? t) && (t <=? 5)) || ((12 <=? t) && (t <=? 19)) then
    pure (g, if routed g then [Forward rpc] else [])
  else pure (g, []).

(** ** One node *)
Record node := mkN { gsp : Gossiper; pinger : option pinging; consumer : option waiting }.

(** What the transport does to the table meanwhile: a connection registers its
    peer afresh, sets or clears a connection, or touches the peer it reads from. *)
Inductive transport_change : PeerMap → PeerMap → Prop :=
  | tc_register m id addr c now : transport_change m (<[id := SetConn (Some c) (NewPeer addr now)]> m)
  | tc_conn m id c : transport_change m (alter (SetConn c) id m)
  | tc_touch m id now : transport_change m (alter (Touch now) id m).

Inductive gossip_step : node → node → Prop :=
  | gs_rpc g pg write rpc now g' es w :          (* the consumer takes an RPC when idle *)
      HandleRPC write g rpc now = (g', es, w) → gossip_step (mkN g pg None) (mkN g' pg w)
  | gs_indirect_ack g pg write w g' es :
      acks g !! w_chan w = Some true → indirect_acked write g w = (g', es) →
      gossip_step (mkN g pg (Some w)) (mkN g' pg None)
  | gs_indirect_timeout g pg w : gossip_step (mkN g pg (Some w)) (mkN (indirect_timeout g w) pg None)
  | gs_ping g cs write target now g' es pg :     (* the ping loop starts a ping when idle *)
      ping_start write g target now = (g', es, pg) → gossip_step (mkN g None cs) (mkN g' pg cs)
  | gs_ping_ack g pg cs now :
      acks g !! pg_chan pg = Some true → gossip_step (mkN g (Some pg) cs) (mkN (ping_acked g pg now) None cs)
  | gs_ping_timeout g pg cs write helpers g' es pg' :
      ping_timeout write g helpers pg = (g', es, pg') → gossip_step (mkN g (Some pg) cs) (mkN g' pg' cs)
  | gs_ping_stop g pg cs : gossip_step (mkN g (Some pg) cs) (mkN (removePendingPing (pg_id pg) g) None cs)
  | gs_tick g pg cs now g' es :
      checkSuspicion g now = (g', es) → gossip_step (mkN g pg cs) (mkN g' pg cs)
  | gs_transport g pg cs m : transport_change (peers g) m → gossip_step (mkN g pg cs) (mkN (set_peers m g) pg cs).

(** ** Lemmas: timeouts *)
Definition cfg_ok (c : GossipConfig) : Prop := 0 < SuspicionTimeout c ∧ 10 * SuspicionTimeout c < 2 ^ 63.

Lemma adaptiveTimeout_bounds g id :
  cfg_ok (cfg g) → SuspicionTimeout (cfg g) <= adaptiveTimeout g id <= 5 * SuspicionTimeout (cfg g).
Proof.
  intros [H1 H2]. unfold adaptiveTimeout. rewrite (int64_id (5 * _)) by (unfold is_int64; lia).
  destruct (_ <=? 0) eqn:E1; [lia|]. destruct (_ <? SuspicionTimeout _) eqn:E2; [lia|].
  destruct (_ <? int64 _) eqn:E3; zbool; lia.
Qed.

Lemma double_timeout g id : cfg_ok (cfg g) → int64 (2 * adaptiveTimeout g id) = 2 * adaptiveTimeout g id.
Proof. intros H. pose proof (adaptiveTimeout_bounds g id H). destruct H. apply int64_id. unfold is_int64. lia. Qed.

Lemma checkSuspicion_lookup g now id :
  peers (checkSuspicion g now).1 !! id = suspect_one g now id <$> peers g !! id.
Proof. cbn. rewrite map_lookup_imap. by destruct (peers g !! id). Qed.

Lemma checkSuspicion_leaves g now id p :
  peers g !! id = Some p → goes_offline p (suspect_one g now id p) = true → OnLeave id ∈ (checkSuspicion g now).2.
Proof.
  intros Hp Ho. cbn. apply list_elem_of_bind. exists (id, p). cbn. rewrite Ho. split; [by left|].
  by apply elem_of_map_to_list.
Qed.

(** ** Lemmas: which steps can declare a peer offline *)
Definition keeps (m m' : PeerMap) : Prop :=
  ∀ id p p', m !! id = Some p → m' !! id = Some p' → state p' = PeerStateOffline → state p = PeerStateOffline.

Lemma keeps_refl m : keeps m m.
Proof. intros id p p' H1 H2. congruence. Qed.

Lemma keeps_alter f i m : (∀ p, state (f p) = PeerStateOffline → state p = PeerStateOffline) → keeps m (alter f i m).
Proof.
  intros Hf id p p' H1 H2 Ho. destruct (decide (id = i)) as [->|Hne].
  - rewrite lookup_alter_eq, H1 in H2. injection H2 as <-. by apply Hf.
  - rewrite lookup_alter_ne in H2 by done. congruence.
Qed.

Lemma keeps_insert i q m : state q = PeerStateAlive → keeps m (<[i := q]> m).
Proof. intros Hq id p p' H1 [[<- <-]|[_ H2]]%lookup_insert_Some Ho; congruence. Qed.

Lemma keeps_weaken m m1 m2 : m ⊆ m1 → keeps m1 m2 → keeps m m2.
Proof. intros Hs Hk id p p' H1 H2 Ho. eapply Hk; [by eapply lookup_weaken|done..]. Qed.

Lemma revived_alive now p : state (revived now p) = PeerStateAlive.
Proof. unfold revived. destruct (state (Touch now p)) eqn:E; [done|done|done]. Qed.

Lemma suspected_offline p : state (suspected p) = PeerStateOffline → state p = PeerStateOffline.
Proof. unfold suspected. destruct (state p) eqn:E; cbn; congruence. Qed.

#[local] Hint Resolve keeps_refl keeps_alter keeps_insert suspected_offline : core.

Lemma keeps_revive g id now : keeps (peers g) (peers (revive id now g)).
Proof. apply keeps_alter. intros p. by rewrite revived_alive. Qed.

(** ** Lemmas: merging memberships *)
Definition announced (l : list PeerInfo) (id : Z) : option PeerInfo := List.find (λ pi, PID pi =? id) l.

Definition merged (m : PeerMap) (self now : Z) (l : list PeerInfo) (id : Z) : option Peer :=
  match m !! id with
  | Some p => Some p
  | None => if decide (id = self) then None else (λ pi, NewPeer (PAddr pi) now) <$> announced l id
  end.

Lemma merge_foldl now l g es :
  let r := foldl (merge_peer now) (g, es) l in
  r.1 = set_peers (peers r.1) g ∧ ∀ id, peers r.1 !! id = merged (peers g) (LocalID (cfg g)) now l id.
Proof.
  revert g es. induction l as [|pi l IH]; intros g es; cbn [foldl].
  { split; [by destruct g|]. intros id. unfold merged. cbn. destruct (peers g !! id); [done|by case_decide]. }
  destruct (merge_peer now (g, es) pi) as [g1 es1] eqn:Em. unfold merge_peer in Em.
  destruct (decide (PID pi = LocalID (cfg g))) as [Hl|Hl];
    [|destruct (peers g !! PID pi) as [q|] eqn:Eq]; injection Em as <- <-.
  - destruct (IH g es) as [H1 H2]. split; [done|]. intros id. rewrite H2. unfold merged, announced. cbn [List.find].
    destruct (peers g !! id); [done|]. case_decide; [done|]. by rewrite (proj2 (Z.eqb_neq _ _)) by congruence.
  - destruct (IH g es) as [H1 H2]. split; [done|]. intros id. rewrite H2. unfold merged, announced. cbn [List.find].
    destruct (peers g !! id) eqn:E; [done|]. case_decide; [done|]. by rewrite (proj2 (Z.eqb_neq _ _)) by congruence.
  - destruct (IH (set_peers (<[PID pi := NewPeer (PAddr pi) now]> (peers g)) g) (es ++ [OnJoin (PID pi); Dialing (PID pi)]))
      as [H1 H2]. split; [rewrite H1 at 1; done|]. intros id. rewrite H2. unfold merged, announced. cbn [List.find peers cfg set_peers].
    destruct (Z.eqb_spec (PID pi) id) as [<-|Hne].
    + rewrite lookup_insert_eq, Eq, decide_False by done. done.
    + by rewrite lookup_insert_ne.
Qed.

Lemma merge_peers_lookup now l g id :
  peers (merge_peers now l g).1 !! id = merged (peers g) (LocalID (cfg g)) now (take MaxPeersInHeartbeat l) id.
Proof. unfold merge_peers. apply merge_foldl. Qed.

Lemma merge_peers_sub now l g : peers g ⊆ peers (merge_peers now l g).1.
Proof. apply map_subseteq_spec. intros id p H. rewrite merge_peers_lookup. unfold merged. by rewrite H. Qed.

Lemma merge_peers_rest now l g : (merge_peers now l g).1 = set_peers (peers (merge_peers now l g).1) g.
Proof. unfold merge_peers. apply merge_foldl. Qed.

(** ** Lemmas: what dispatch does to the table and to the channels *)
Lemma handleHeartbeat_keeps g rpc now : keeps (peers g) (peers (handleHeartbeat g rpc now).1).
Proof.
  unfold handleHeartbeat. destruct (DecodeHeartbeatPayload _) as [l|]; [|done].
  pose proof (merge_peers_sub now l g) as Hs. destruct (merge_peers now l g) as [g1 es].
  eapply keeps_weaken; [exact Hs|apply keeps_revive].
Qed.

Lemma handleMembership_keeps g rpc now : keeps (peers g) (peers (handleMembership g rpc now).1).
Proof.
  unfold handleMembership. destruct (DecodeHeartbeatPayload _) as [l|]; [|done].
  eapply keeps_weaken; [apply merge_peers_sub|done].
Qed.

Lemma handleSuspect_keeps g rpc : keeps (peers g) (peers (handleSuspect g rpc)).
Proof. unfold handleSuspect. repeat (case_match; [done|]). case_decide; [done|]. apply keeps_alter. auto. Qed.

Lemma handleIndirectPing_spec write g rpc g' es w :
  handleIndirectPing write g rpc = (g', es, w) →
  peers g' = peers g ∧ match w with Some w => acks g' !! w_chan w = Some false | None => g' = g end.
Proof.
  unfold handleIndirectPing. intros H. repeat case_match; simplify_eq/=; try done.
  split; [done|]. by rewrite lookup_app_r, Nat.sub_diag.
Qed.

Lemma HandleRPC_spec write g rpc now g' es w :
  HandleRPC write g rpc now = (g', es, w) →
  keeps (peers g) (peers g') ∧ match w with Some w => acks g' !! w_chan w = Some false | None => True end.
Proof.
  unfold HandleRPC. cbn zeta beta.
  destruct (_ =? MsgHeartbeat).
  { pose proof (handleHeartbeat_keeps g rpc now) as K. destruct (handleHeartbeat g rpc now). by intros [= <- <- <-]. }
  destruct (_ =? MsgMembership).
  { pose proof (handleMembership_keeps g rpc now) as K. destruct (handleMembership g rpc now). by intros [= <- <- <-]. }
  destruct (_ =? MsgSuspect); [intros [= <- <- <-]; split; [apply handleSuspect_keeps|done]|].
  destruct (_ =? MsgPing).
  { unfold handlePing. case_match; intros; simplify_eq; split; try done. apply keeps_revive. }
  destruct (_ =? MsgAck).
  { unfold handleAck. repeat case_match; intros; simplify_eq; split; try done. apply keeps_alter. intros q. by rewrite revived_alive. }
  destruct (_ =? MsgIndirectPing).
  { intros (Hp & Hw)%handleIndirectPing_spec. rewrite Hp. split; [done|]. by destruct w. }
  destruct (_ =? MsgLoad).
  { unfold handleLoad. case_match; intros; simplify_eq; split; try done. by apply keeps_alter. }
  destruct (_ && _).
  { destruct (leaseManager g); [|intros [= <- <- <-]; done]. destruct (HandleLeaseRPC _ _ _). by intros [= <- <- <-]. }
  destruct (_ || _); by intros [= <- <- <-].
Qed.

Lemma ping_timeout_keeps write g helpers pg g' es pg' :
  ping_timeout write g helpers pg = (g', es, pg') → keeps (peers g) (peers g') ∧ acks g' = acks g.
Proof.
  unfold ping_timeout. destruct (pg_indirect pg); [|destruct (sendIndirectPing write g helpers pg)];
    intros [= <- <- <-]; (split; [|done]); cbn; auto.
Qed.

Lemma ping_start_spec write g target now g' es pg :
  ping_start write g target now = (g', es, pg) → peers g' = peers g ∧ acks g' = acks g ++ [false].
Proof. unfold ping_start. cbn zeta. case_match; by intros [= <- <- <-]. Qed.

Lemma transport_keeps m m' : transport_change m m' → keeps m m'.
Proof. destruct 1; [by apply keeps_insert|by apply keeps_alter|by apply keeps_alter]. Qed.

(** ** Guarantees *)

(** C33: the failure detector is accurate: whatever the interleaving of
    messages, pings, announcements and transport events, the only step that
    declares a peer offline is a suspicion tick, and then the peer was already
    suspect and nothing had been heard from it for more than twice the configured
    timeout; a single announcement, timeout or message never takes an alive peer
    offline. *)
Theorem offline_only_if_silent n n' id p p' :
  cfg_ok (cfg (gsp n)) → gossip_step n n' →
  peers (gsp n) !! id = Some p → peers (gsp n') !! id = Some p' →
  state p ≠ PeerStateOffline → state p' = PeerStateOffline →
  state p = PeerStateSuspect ∧ id ≠ LocalID (cfg (gsp n))
  ∧ ∃ now, gsp n' = (checkSuspicion (gsp n) now).1 ∧ 2 * SuspicionTimeout (cfg (gsp n)) < time_sub now (lastSeen p).
Proof.
  intros Hc Hs Hp Hp' Hne Ho.
  assert (∀ m', keeps (peers (gsp n)) m' → m' !! id = Some p' → False) as Hk by (intros m' Hk Hm'; by eapply Hne, Hk).
  destruct Hs as [g pg write rpc now g' es w H|g pg write w g' es Ha H|g pg w|g cs write target now g' es pg H
                 |g pg cs now Ha|g pg cs write helpers g' es pg' H|g pg cs|g pg cs now g' es H|g pg cs m H]; cbn [gsp] in *.
  - by destruct (Hk _ (proj1 (HandleRPC_spec _ _ _ _ _ _ _ H))).
  - injection H as <- <-. by destruct (Hk _ (keeps_refl _)).
  - by destruct (Hk _ (keeps_refl _)).
  - apply ping_start_spec in H as [E _]. rewrite E in Hp'. by destruct (Hk _ (keeps_refl _)).
  - exfalso. eapply Hk; [|exact Hp']. by apply keeps_alter.
  - by destruct (Hk _ (proj1 (ping_timeout_keeps _ _ _ _ _ _ _ H))).
  - by destruct (Hk _ (keeps_refl _)).
  - assert (g' = (checkSuspicion g now).1) as -> by (by rewrite H). rewrite checkSuspicion_lookup, Hp in Hp'.
    injection Hp' as <-. unfold suspect_one in Ho. case_decide; [done|].
    destruct (state p) eqn:Es; [destruct (_ <? _) in Ho; cbn in Ho; congruence| |done].
    destruct (_ <? _) eqn:E in Ho; [|congruence]. zbool. rewrite double_timeout in E by done.
    pose proof (adaptiveTimeout_bounds g id Hc). split_and!; [done..|]. exists now. split; [done|lia].
  - exfalso. eapply Hk; [by apply transport_keeps|done].
Qed.

(** The failure detector is complete: a peer that has been silent for more
    than ten timeouts is offline after two suspicion ticks, whatever round-trip
    time is recorded for it and whatever happened to the other peers in between,
    and its departure has been reported. *)
Theorem silent_peer_detected g g1 now now' id p :
  cfg_ok (cfg g) → id ≠ LocalID (cfg g) → peers g !! id = Some p → state p ≠ PeerStateOffline →
  10 * SuspicionTimeout (cfg g) < time_sub now (lastSeen p) → now <= now' →
  cfg g1 = cfg g → peers g1 !! id = peers (checkSuspicion g now).1 !! id →
  let '(g2, es2) := checkSuspicion g1 now' in
  (∃ p', peers g2 !! id = Some p' ∧ state p' = PeerStateOffline)
  ∧ (OnLeave id ∈ (checkSuspicion g now).2 ∨ OnLeave id ∈ es2).
Proof.
  intros Hc Hid Hp Hne Hsil Hnow Hcfg Hg1. rewrite checkSuspicion_lookup, Hp in Hg1. cbn in Hg1.
  set (p1 := suspect_one g now id p) in *.
  assert (time_sub now (lastSeen p) <= time_sub now' (lastSeen p)) as Hmono by (unfold time_sub; lia).
  destruct (adaptiveTimeout_bounds g id Hc) as [B1 B2]. pose proof (double_timeout g id Hc) as D1.
  assert (cfg_ok (cfg g1)) as Hc1 by (by rewrite Hcfg).
  destruct (adaptiveTimeout_bounds g1 id Hc1) as [B3 B4]. pose proof (double_timeout g1 id Hc1) as D2. rewrite Hcfg in *.
  pose proof Hc as [Hpos _].
  assert (lastSeen p1 = lastSeen p ∧ (state p1 = PeerStateSuspect ∨ state p1 = PeerStateOffline ∧ goes_offline p p1 = true))
    as [Hl Hst].
  { unfold p1, suspect_one, goes_offline. rewrite decide_False by done. destruct (state p) eqn:Es; [| |done].
    - rewrite (proj2 (Z.ltb_lt _ _)) by lia. by split; [|left].
    - rewrite D1, (proj2 (Z.ltb_lt _ _)) by lia. split; [done|right]. by rewrite !bool_decide_eq_true_2. }
  destruct (checkSuspicion g1 now') as [g2 es2] eqn:E2.
  assert (g2 = (checkSuspicion g1 now').1 ∧ es2 = (checkSuspicion g1 now').2) as [-> ->] by (by rewrite E2).
  rewrite checkSuspicion_lookup, Hg1. cbn [fmap option_fmap option_map].
  assert (state (suspect_one g1 now' id p1) = PeerStateOffline) as Hoff.
  { unfold suspect_one. rewrite Hcfg, decide_False by done. destruct Hst as [->|[Hs _]]; [|by rewrite Hs].
    rewrite D2, (proj2 (Z.ltb_lt _ _)) by (rewrite Hl; lia). done. }
  split; [eauto|]. destruct Hst as [Hs|[_ Hg]]; [right|left; by eapply checkSuspicion_leaves].
  eapply checkSuspicion_leaves; [exact Hg1|]. unfold goes_offline. rewrite Hs, !bool_decide_eq_true_2; done.
Qed.

(** The peers a merge reports as joined. *)
Lemma merge_foldl_joins now l g es id :
  OnJoin id ∈ (foldl (merge_peer now) (g, es) l).2 ↔
  OnJoin id ∈ es ∨ peers g !! id = None ∧ id ≠ LocalID (cfg g) ∧ is_Some (announced l id).
Proof.
  revert g es. induction l as [|pi l IH]; intros g es; cbn [foldl].
  { unfold announced. cbn. split; [by left|]. intros [?|(_ & _ & [? [=]])]; done. }
  destruct (merge_peer now (g, es) pi) as [g1 es1] eqn:Em. unfold merge_peer in Em.
  destruct (decide (PID pi = LocalID (cfg g))) as [Hl|Hl];
    [|destruct (peers g !! PID pi) as [q|] eqn:Eq]; injection Em as <- <-; rewrite IH; unfold announced; cbn [List.find].
  - destruct (Z.eqb_spec (PID pi) id); [|done]. naive_solver.
  - destruct (Z.eqb_spec (PID pi) id); [|done]. subst. naive_solver.
  - cbn [peers cfg set_peers]. rewrite elem_of_app. destruct (Z.eqb_spec (PID pi) id) as [<-|Hne].
    + rewrite lookup_insert_eq. split; [|intros _; left; right; by left].
      intros _. right. split_and!; [done..|eauto].
    + rewrite lookup_insert_ne by done. split.
      * intros [[?|Hin]|?]; [by left| |by right]. exfalso.
        apply elem_of_cons in Hin as [[= ?]|[[=]|Hin]%elem_of_cons]; [congruence|]. by apply elem_of_nil in Hin.
      * intros [?|?]; [left; by left|by right].
Qed.

Lemma merge_peers_joins now l g id :
  OnJoin id ∈ (merge_peers now l g).2 ↔
  peers g !! id = None ∧ id ≠ LocalID (cfg g) ∧ is_Some (announced (take MaxPeersInHeartbeat l) id).
Proof. unfold merge_peers. rewrite merge_foldl_joins. rewrite elem_of_nil. naive_solver. Qed.

(** A heartbeat merges its peer list: a known peer keeps its entry, an
    unknown one among the first 256 enters with the address first announced and
    is reported as joined exactly once it is new, the node never enters itself,
    and the sender, known before or through this very message, is alive and
    freshly seen.  The rest of the state does not change. *)
Theorem heartbeat_merge g from l now :
  heartbeat_ok l →
  let '(g', es) := handleHeartbeat g (mkRPC from MsgHeartbeat (Heartbeat_Encode l)) now in
  g' = set_peers (peers g') g
  ∧ (∀ id, peers g' !! id = (if decide (id = from) then revived now else λ p, p)
                           <$> merged (peers g) (LocalID (cfg g)) now (take MaxPeersInHeartbeat l) id)
  ∧ (∀ id, OnJoin id ∈ es ↔ peers g !! id = None ∧ is_Some (peers g' !! id)).
Proof.
  intros Hok. unfold handleHeartbeat. cbn [Payload From].
  assert (DecodeHeartbeatPayload (Heartbeat_Encode l) = Ok l) as -> by (by apply heartbeat_wire.(wire_roundtrip)).
  pose proof (merge_peers_lookup now l g) as Hl. pose proof (merge_peers_joins now l g) as Hj.
  pose proof (merge_peers_rest now l g) as Hr.
  destruct (merge_peers now l g) as [g1 es]. cbn [fst snd] in *.
  assert (∀ id, peers (revive from now g1) !! id = (if decide (id = from) then revived now else λ p, p)
                  <$> merged (peers g) (LocalID (cfg g)) now (take MaxPeersInHeartbeat l) id) as Hp.
  { intros id. cbn. destruct (decide (id = from)) as [->|Hne].
    - by rewrite lookup_alter_eq, Hl.
    - rewrite lookup_alter_ne by done. rewrite Hl. symmetry. apply option_fmap_id. }
  split_and!; [|exact Hp|].
  - unfold revive. rewrite Hr. reflexivity.
  - intros id. rewrite Hj, Hp, fmap_is_Some. unfold merged. destruct (peers g !! id); [naive_solver|].
    case_decide; [|rewrite fmap_is_Some; naive_solver]. split; [naive_solver|]. intros [_ [? [=]]].
Qed.

(** An indirect ping can never succeed: the helper waits for the target's ack
    in the consumer loop, the only goroutine that could deliver that ack, so in
    every state a running node reaches the ack it waits for has not arrived, and
    nothing but the timeout (or a stop) ends the wait. *)
Theorem indirect_ack_never_forwarded c m n w :
  rtc gossip_step (mkN (NewGossiper c m) None None) n → consumer n = Some w →
  acks (gsp n) !! w_chan w = Some false
  ∧ ∀ n', gossip_step n n' → consumer n' = None → gsp n' = indirect_timeout (gsp n) w.
Proof.
  intros Hr. assert (∀ n n', (∀ w, consumer n = Some w → acks (gsp n) !! w_chan w = Some false) →
    gossip_step n n' → ∀ w, consumer n' = Some w → acks (gsp n') !! w_chan w = Some false) as Hstep.
  { clear. intros n n' Hi Hs w Hw.
    destruct Hs as [g pg write rpc now g' es w' H|g pg write w' g' es Ha H|g pg w'|g cs write target now g' es pg H
                 |g pg cs now Ha|g pg cs write helpers g' es pg' H|g pg cs|g pg cs now g' es H|g pg cs m H]; cbn [gsp consumer] in *; subst; try done.
    - by apply HandleRPC_spec in H as [_ ?].
    - apply ping_start_spec in H as [_ ->]. apply lookup_app_l_Some. by apply Hi.
    - by apply Hi.
    - apply ping_timeout_keeps in H as [_ ->]. by apply Hi.
    - by apply Hi.
    - injection H as <- <-. by apply Hi.
    - by apply Hi. }
  assert (∀ w, consumer n = Some w → acks (gsp n) !! w_chan w = Some false) as Hinv.
  { remember (mkN (NewGossiper c m) None None) as n0 eqn:E0.
    assert (∀ w, consumer n0 = Some w → acks (gsp n0) !! w_chan w = Some false) as H0 by (by subst).
    clear E0. induction Hr as [|n0 n1 n2 Hs Hr IH]; [done|]. apply IH. by eapply Hstep. }
  intros Hw. pose proof (Hinv w Hw) as Hf. split; [done|]. intros n' Hs Hn'.
  destruct Hs; cbn [gsp consumer] in *; simplify_eq; done.
Qed.

(** ** Suspicion announcements *)
Lemma lor_add a n x : 0 <= n → 0 <= x < 2 ^ n → Z.lor (a * 2 ^ n) x = a * 2 ^ n + x.
Proof.
  intros Hn Hx. symmetry. apply Z.add_nocarry_lor. rewrite <- Z.shiftl_mul_pow2 by done.
  apply Z.bits_inj'. intros m Hm. rewrite Z.land_spec, Z.bits_0. destruct (decide (m < n)).
  - by rewrite Z.shiftl_spec_low.
  - replace (Z.testbit x m) with false; [by rewrite andb_false_r|]. symmetry.
    rewrite <- (Z.mod_small x (2 ^ n)) by lia. apply Z.mod_pow2_bits_high. lia.
Qed.

(** The bytes of an identifier assemble to the identifier. *)
Lemma suspect_bytes id :
  is_int32 id →
  Z.lor (Z.lor (Z.lor (int32 (Z.shiftl (b2z (z2b (Z.shiftr id 24))) 24)) (int32 (Z.shiftl (b2z (z2b (Z.shiftr id 16))) 16)))
               (int32 (Z.shiftl (b2z (z2b (Z.shiftr id 8))) 8))) (int32 (b2z (z2b id))) = id.
Proof.
  intros Hid. unfold is_int32 in Hid. rewrite !b2z_z2b, !Z.shiftr_div_pow2, !Z.shiftl_mul_pow2 by lia.
  set (a := id / 2 ^ 24). set (b := id / 2 ^ 16 mod 256). set (c := id / 2 ^ 8 mod 256). set (d := id mod 256).
  assert (0 <= b < 256 ∧ 0 <= c < 256 ∧ 0 <= d < 256) as (Hb & Hc & Hd) by (split_and!; apply Z.mod_pos_bound; lia).
  assert (id = a * 2 ^ 24 + b * 2 ^ 16 + c * 2 ^ 8 + d) as E.
  { unfold a, b, c, d. Z.to_euclidean_division_equations. lia. }
  assert (- 128 <= a < 128) as Ha by lia.
  replace (int32 (a mod 256 * 2 ^ 24)) with (a * 2 ^ 24).
  2:{ unfold int32. Z.to_euclidean_division_equations. lia. }
  rewrite !int32_id by (unfold is_int32; lia).
  rewrite (lor_add a 24) by lia. replace (a * 2 ^ 24 + b * 2 ^ 16) with ((a * 2 ^ 8 + b) * 2 ^ 16) by lia.
  rewrite (lor_add _ 16) by lia. replace ((a * 2 ^ 8 + b) * 2 ^ 16 + c * 2 ^ 8) with ((a * 2 ^ 16 + b * 2 ^ 8 + c) * 2 ^ 8) by lia.
  rewrite (lor_add _ 8) by lia. lia.
Qed.

(** An announcement reaches the peer it names: a node that receives
    another's suspicion of [id], negative identifiers included, marks exactly
    that peer suspect if it was alive, ignores a suspicion of itself, and changes
    nothing else. *)
Theorem suspect_announcement g from id :
  is_int32 id →
  let g' := handleSuspect g (mkRPC from MsgSuspect (suspect_payload id)) in
  g' = (if decide (id = LocalID (cfg g)) then g else markSuspectIfAlive id g)
  ∧ (∀ id', id' ≠ id → peers g' !! id' = peers g !! id').
Proof.
  intros Hid. unfold handleSuspect, suspect_payload. cbn [Payload]. rewrite suspect_bytes by done.
  split; [done|]. intros id' Hne. case_decide; [done|]. cbn. by rewrite lookup_alter_ne.
Qed.

(** ** Fanout *)
Lemma fanout_loop_bounds fuel f v n :
  1 <= f <= 9 → f <= fanout_loop fuel f v n <= 10.
Proof.
  revert f v. induction fuel as [|fuel IH]; intros f v Hf; cbn [fanout_loop]; [lia|].
  destruct (SpecFloat.SFltb v n); [|lia]. destruct (maxGossipFanout <=? f + 1) eqn:E; unfold maxGossipFanout in *; zbool; [lia|].
  specialize (IH (f + 1) (fmul v euler)). lia.
Qed.

(** The natural logarithm, rounded up, from the integers just above the powers
    of e. *)
Definition ceil_ln (n : Z) : Z :=
  1 + Z.of_nat (length (filter (λ t, t <= n) [3; 8; 21; 55; 149; 404; 1097; 2981; 8104])).

Lemma adaptiveFanout_table : Forall (λ n, adaptiveFanout n = ceil_ln n) (seqZ 0 1001).
Proof. apply (bool_decide_unpack _). vm_compute. exact I. Qed.

(** The adaptive fanout stays within its bounds for every cluster size, and
    for clusters of up to a thousand peers the floating-point loop computes
    exactly the rounded-up natural logarithm of the number of alive peers. *)
Theorem adaptiveFanout_exact n :
  1 <= adaptiveFanout n <= 10 ∧ (n <= 1000 → adaptiveFanout n = Z.min 10 (if n <=? 1 then 1 else ceil_ln n)).
Proof.
  unfold adaptiveFanout at 1 2. split.
  { destruct (n <=? 1); [unfold minGossipFanout; lia|].
    pose proof (fanout_loop_bounds 9 1 euler (f64 n)). unfold minGossipFanout. lia. }
  intros Hn. destruct (n <=? 1) eqn:E; zbool; [unfold adaptiveFanout; by rewrite (proj2 (Z.leb_le _ _))|].
  pose proof adaptiveFanout_table as H. rewrite Forall_forall in H.
  assert (adaptiveFanout n = ceil_ln n) as Hc by (apply H, elem_of_seqZ; lia). rewrite Hc.
  assert (ceil_ln n <= 10); [|lia]. unfold ceil_ln.
  pose proof (length_filter (λ t, t <= n) [3; 8; 21; 55; 149; 404; 1097; 2981; 8104]) as Hl. cbn [length] in Hl. lia.
Qed.

(** ** Concrete nodes *)
Definition gw_peer : Peer := SetConn (Some 3) (NewPeer (bs "b:1") 0).
Definition gw : Gossiper := NewGossiper (DefaultGossipConfig 1) {[ 2 := gw_peer ]}.
Definition gw_late : Z := 100 * second.

Lemma gw_cfg_ok : cfg_ok (cfg gw).
Proof. by apply (bool_decide_unpack _); vm_compute. Qed.

Definition gw_suspect : Gossiper := (checkSuspicion gw gw_late).1.

Lemma offline_only_if_silent_witness :
  let n := mkN gw_suspect None None in
  state (SetState PeerStateSuspect gw_peer) = PeerStateSuspect ∧ 2 ≠ LocalID (cfg (gsp n))
  ∧ ∃ now, gsp (mkN (checkSuspicion gw_suspect gw_late).1 None None) = (checkSuspicion (gsp n) now).1
           ∧ 2 * SuspicionTimeout (cfg (gsp n)) < time_sub now (lastSeen (SetState PeerStateSuspect gw_peer)).
Proof.
  apply (offline_only_if_silent (mkN gw_suspect None None) (mkN (checkSuspicion gw_suspect gw_late).1 None None) 2
           (SetState PeerStateSuspect gw_peer) (SetState PeerStateOffline gw_peer)).
  - exact gw_cfg_ok.
  - eapply gs_tick. reflexivity.
  - vm_compute. reflexivity.
  - vm_compute. reflexivity.
  - discriminate.
  - reflexivity.
Defined.

Lemma silent_peer_detected_witness :
  let '(g2, es2) := checkSuspicion gw_suspect gw_late in
  (∃ p', peers g2 !! 2 = Some p' ∧ state p' = PeerStateOffline)
  ∧ (OnLeave 2 ∈ (checkSuspicion gw gw_late).2 ∨ OnLeave 2 ∈ es2).
Proof.
  apply (silent_peer_detected gw gw_suspect gw_late gw_late 2 gw_peer).
  - exact gw_cfg_ok.
  - discriminate.
  - reflexivity.
  - discriminate.
  - vm_compute. reflexivity.
  - lia.
  - reflexivity.
  - reflexivity.
Defined.

Lemma heartbeat_merge_witness :
  let l := [mkPeer 1 (bs "a:1"); mkPeer 3 (bs "c:1"); mkPeer 2 (bs "x:1")] in
  let '(g', es) := handleHeartbeat gw (mkRPC 2 MsgHeartbeat (Heartbeat_Encode l)) 9 in
  g' = set_peers (peers g') gw
  ∧ (∀ id, peers g' !! id = (if decide (id = 2) then revived 9 else λ p, p)
                           <$> merged (peers gw) (LocalID (cfg gw)) 9 (take MaxPeersInHeartbeat l) id)
  ∧ (∀ id, OnJoin id ∈ es ↔ peers gw !! id = None ∧ is_Some (peers g' !! id)).
Proof.
  apply (heartbeat_merge gw 2 [mkPeer 1 (bs "a:1"); mkPeer 3 (bs "c:1"); mkPeer 2 (bs "x:1")] 9).
  split; [|vm_compute; discriminate]. repeat constructor; vm_compute; congruence.
Defined.

(** A helper that forwarded a ping and waits. *)
Definition gw_ask : RPC := mkRPC 5 MsgIndirectPing (Ping_Encode (mkPing 77 2 0)).
Definition gw_wait : waiting := mkWait (mkPing 77 2 0) 5 0.
Definition gw_node : node := mkN (HandleRPC (λ _, true) gw gw_ask 1).1.1 None (Some gw_wait).

Lemma indirect_ack_never_forwarded_witness :
  acks (gsp gw_node) !! w_chan gw_wait = Some false
  ∧ ∀ n', gossip_step gw_node n' → consumer n' = None → gsp n' = indirect_timeout (gsp gw_node) gw_wait.
Proof.
  apply (indirect_ack_never_forwarded (DefaultGossipConfig 1) {[ 2 := gw_peer ]} gw_node gw_wait).
  - eapply rtc_l; [|apply rtc_refl]. eapply (gs_rpc gw None (λ _, true) gw_ask 1). reflexivity.
  - reflexivity.
Defined.

Lemma suspect_announcement_witness :
  let g' := handleSuspect gw (mkRPC 7 MsgSuspect (suspect_payload 2)) in
  g' = markSuspectIfAlive 2 gw ∧ (∀ id', id' ≠ 2 → peers g' !! id' = peers gw !! id').
Proof. apply (suspect_announcement gw 7 2). vm_compute. split; [discriminate|reflexivity]. Defined.

(** The smoothing of a 40 ms sample into an average of 80 ms. *)
Example ewma_step :
  (Update (mkG (DefaultGossipConfig 1) ∅ {[ 2 := 80000000 ]} ∅ 0 [] None false) 2 40000000).1 = 70000000.
Proof. vm_compute. reflexivity. Qed.

(** The messages that replicate versions and list shards (types 20 to 23) are
    not in the dispatch table: they are dropped. *)
Theorem version_rpc_dropped write g rpc now :
  20 <= Type_ rpc <= 23 → HandleRPC write g rpc now = (g, [], None).
Proof.
  intros H. unfold HandleRPC, MsgHeartbeat, MsgMembership, MsgSuspect, MsgPing, MsgAck, MsgIndirectPing, MsgLoad.
  rewrite !(proj2 (Z.eqb_neq _ _)) by lia. rewrite !(proj2 (Z.leb_gt (Type_ rpc) _)) by lia. by rewrite !andb_false_r.
Qed.
