(* ===== verification/Query.v ===== *)
(** * Cluster queries (src/src/server/query_handler.go, src/src/p2p/scatter_gather.go,
    src/src/server/p2p_adapters.go)

    A coordinator broadcasts a query; every peer answers it from its own store
    ([StorageQueryHandler]) and the answers are collected by request number.
    File lists travel in a binary format; [GlobalList] decodes and merges them.
    Error texts are an argument ([text]): the code only tests them for emptiness. *)
From S2P Require Import Prelude GoText Hashes Paths ObjectMeta BlobStore RawStore CasStore Wire.
Open Scope Z_scope.

Definition MaxPathLength : Z := 4096.

(** ** The list format *)
Definition crlf_free (s : bytes) : bool := negb (contains_byte ch_cr s || contains_byte ch_lf s).

(** The filter of [EncodeFileMetadataList]. *)
Definition encodable (f : FileMetadata) : bool :=
  (zlen (Name f) <=? FileInfoLength) && (zlen (Hash f) <=? FileInfoLength) && (zlen (RemotePath f) <=? MaxPathLength).

Definition file_entry (f : FileMetadata) : bytes :=
  put_be 4 (uint32 (zlen (Name f))) ++ Name f ++ put_be 4 (uint32 (zlen (Hash f))) ++ Hash f
  ++ put_be 8 (uint64 (FSize f)) ++ put_be 4 (uint32 (zlen (RemotePath f))) ++ RemotePath f
  ++ put_be 8 (uint64 (ModTime f)).

Definition EncodeFileMetadataList (files : list FileMetadata) : bytes :=
  let filtered := filter (λ f, encodable f = true) files in
  put_be 4 (uint32 (Z.of_nat (length filtered))) ++ concat (file_entry <$> filtered).

(** The fields are read one after the other; what the offset has passed is
    dropped. *)
Definition read_int (n : nat) (data : bytes) : result (Z * bytes) :=
  if (length data <? n)%nat then Err ErrPlain else Ok (get_be (take n data), drop n data).

Definition read_field (max : Z) (data : bytes) : result (bytes * bytes) :=
  let! p := read_int 4 data in
  let '(len, data) := p in
  if max <? len then Err (Errno EBADMSG)
  else if zlen data <? len then Err ErrPlain
  else Ok (take (Z.to_nat len) data, drop (Z.to_nat len) data).

Definition decode_entry (data : bytes) : result (FileMetadata * bytes) :=
  let! p := read_field FileInfoLength data in let '(name, data) := p in
  let! p := read_field FileInfoLength data in let '(hash, data) := p in
  let! p := read_int 8 data in let '(size, data) := p in
  let fileSize := int64 size in
  let! p := read_field MaxPathLength data in let '(remotePath, data) := p in
  let! p := read_int 8 data in let '(mt, data) := p in
  if negb (crlf_free hash && crlf_free name && crlf_free remotePath) then Err (Errno EBADMSG)
  else if HasPathTraversalChars hash then Err (Errno EBADMSG)
  else
    let! _ := ValidatePath name in
    if (fileSize <? 0) || (MaxFileSize <? fileSize) then Err (Errno EBADMSG)
    else Ok (mkFile name hash fileSize remotePath (int64 mt), data).

Fixpoint decode_files (count : nat) (data : bytes) : result (list FileMetadata) :=
  match count with
  | O => Ok []
  | S count =>
      let! p := decode_entry data in let '(f, data) := p in
      let! fs := decode_files count data in
      Ok (f :: fs)
  end.

Definition DecodeFileMetadataList (data : bytes) : result (list FileMetadata) :=
  if zlen data <? 4 then Err (Errno EINVAL)
  else
    let count := get_be (take 4 data) in
    let maxCount := (zlen data - 4) / 28 in
    if maxCount <? count then Err (Errno EBADMSG) else decode_files (Z.to_nat count) (drop 4 data).

(** ** Merging *)
Definition fileKey (f : FileMetadata) : bytes * bytes := (Name f, Hash f).

Fixpoint merge_loop (seen : gset (bytes * bytes)) (l : list FileMetadata) : list FileMetadata :=
  match l with
  | [] => []
  | f :: rest => if decide (fileKey f ∈ seen) then merge_loop seen rest
                 else f :: merge_loop ({[ fileKey f ]} ∪ seen) rest
  end.
Definition MergeFileMetadataLists (lists : list (list FileMetadata)) : list FileMetadata :=
  merge_loop ∅ (concat lists).

(** ** The handler *)
Definition QueryList : Z := 1.
Definition QueryGet : Z := 2.
Definition QueryHas : Z := 3.
Definition QueryDelete : Z := 4.

Definition parseAndValidateName (data : bytes) : result bytes :=
  match data with
  | [] => Err (Errno EINVAL)
  | _ => if FileInfoLength <? zlen data then Err (Errno EBADMSG)
         else if negb (crlf_free data) then Err (Errno EBADMSG)
         else let! _ := ValidatePath data in Ok data
  end.

(** What answers a query from a local state. *)
Class QueryHandler (S : Type) := HandleQuery : S → Z → bytes → Z → result bytes * S.

Section Storage.
Context {B : Type} `{BlobStore B}.
Implicit Types (s : CASStore B).

Definition handleList s : result bytes := let! files := List s in Ok (EncodeFileMetadataList files).

Definition handleGet s (data : bytes) : result bytes :=
  let! name := parseAndValidateName data in
  let! meta := GetMeta s name in
  Ok (EncodeFileMetadataList [meta]).

Definition handleHas s (data : bytes) : result bytes :=
  match data with
  | [] => Err (Errno EINVAL)
  | _ => if FileInfoLength <? zlen data then Err (Errno EBADMSG)
         else if negb (crlf_free data) then Err (Errno EBADMSG)
         else if HasPathTraversalChars data then Err (Errno EBADMSG)
         else let! exists_ := Has s data in Ok [if exists_ then Byte.x01 else Byte.x00]
  end.

Definition handleDelete s (data : bytes) (now : Z) : result bytes * CASStore B :=
  match parseAndValidateName data with
  | Err e => (Err e, s)
  | Ok name => match Delete s name now with
               | (Err e, s) => (Err e, s)
               | (Ok _, s) => (Ok [Byte.x01], s)
               end
  end.

Definition HandleStorageQuery s (qt : Z) (data : bytes) (now : Z) : result bytes * CASStore B :=
  if qt =? QueryList then (handleList s, s)
  else if qt =? QueryGet then (handleGet s data, s)
  else if qt =? QueryHas then (handleHas s data, s)
  else if qt =? QueryDelete then handleDelete s data now
  else (Err ErrPlain, s).

#[export] Instance StorageQueryHandler : QueryHandler (CASStore B) := HandleStorageQuery.
End Storage.

(** ** Scatter and gather *)
Definition MsgQuery : Z := 4.
Definition MsgQueryResponse : Z := 5.

(** A pending query: its response channel, with the capacity of the channel. *)
Record pendingQuery := mkPQ { peerCount : nat; responses : list QueryResponsePayload }.

Record ScatterGather := mkSG {
  sgLocalID : Z;
  nextRequestID : Z;
  pendingQueries : gmap Z pendingQuery;
  queriesTotal : Z;
  timeoutsTotal : Z
}.

Definition NewScatterGather (id : Z) : ScatterGather := mkSG id 0 ∅ 0 0.

(** A peer answers a query. *)
Definition handleQuery {S} `{QueryHandler S} (text : error → bytes) (localID : Z) (st : S) (rpc : RPC) (now : Z)
    : option RPC * S :=
  match DecodeQueryPayload (Payload rpc) with
  | Err _ => (None, st)
  | Ok q =>
      let '(r, st) := HandleQuery st (QType q) (QData q) now in
      let resp := match r with
                  | Ok data => mkQResp (QRequestID q) data []
                  | Err e => mkQResp (QRequestID q) [] (text e)
                  end in
      (Some (mkRPC localID MsgQueryResponse (QueryResponse_Encode resp)), st)
  end.

(** The coordinator routes a response to the query that waits for it; a full
    channel drops it. *)
Definition handleQueryResponse (sg : ScatterGather) (rpc : RPC) : ScatterGather :=
  match DecodeQueryResponsePayload (Payload rpc) with
  | Err _ => sg
  | Ok p =>
      match pendingQueries sg !! RRequestID p with
      | None => sg
      | Some pq =>
          if (length (responses pq) <? peerCount pq)%nat then
            mkSG (sgLocalID sg) (nextRequestID sg)
              (<[RRequestID p := mkPQ (peerCount pq) (responses pq ++ [p])]> (pendingQueries sg))
              (queriesTotal sg) (timeoutsTotal sg)
          else sg
      end
  end.

(** [Query] up to the wait: [alive] are the alive peers; the RPC is broadcast. *)
Definition query_begin (sg : ScatterGather) (alive : list Z) (qt : Z) (data : bytes)
    : option (ScatterGather * RPC * Z * nat) :=
  let count := length (filter (λ id, id ≠ sgLocalID sg) alive) in
  match count with
  | O => None
  | _ =>
      let id := uint64 (nextRequestID sg + 1) in
      Some (mkSG (sgLocalID sg) id (<[id := mkPQ count []]> (pendingQueries sg)) (uint64 (queriesTotal sg + 1)) (timeoutsTotal sg),
            mkRPC (sgLocalID sg) MsgQuery (Query_Encode (mkQuery qt id data)), id, count)
  end.

(** The end of the wait: all answers are in, or the timer fired. *)
Definition query_end (sg : ScatterGather) (id : Z) (timeout : bool) : list QueryResponsePayload * ScatterGather :=
  (match pendingQueries sg !! id with Some pq => responses pq | None => [] end,
   mkSG (sgLocalID sg) (nextRequestID sg) (delete id (pendingQueries sg)) (queriesTotal sg)
     (if timeout then uint64 (timeoutsTotal sg + 1) else timeoutsTotal sg)).

(** ** The adapters *)

(** The lists [GlobalList] merges: the local one, then the decodable answers. *)
Definition peer_lists (rs : list QueryResponsePayload) : list (list FileMetadata) :=
  omap (λ r, match RError r with
             | [] => match DecodeFileMetadataList (RData r) with Ok fs => Some fs | Err _ => None end
             | _ => None
             end) rs.

Definition GlobalList (local_ : result (list FileMetadata)) (rs : list QueryResponsePayload) : list FileMetadata :=
  let own := match local_ with Ok [] => [] | Ok l => [l] | Err _ => [] end in
  MergeFileMetadataLists (own ++ peer_lists rs).

Definition PropagateDelete (rs : list QueryResponsePayload) : result unit :=
  let count := length rs in
  match count with
  | O => Err ErrPlain
  | _ => let successes := length (filter (λ r, RError r = []) rs) in
         if (0 <? count - successes)%nat then Err ErrPlain else Ok tt
  end.

(** ** The list format: lemmas *)

(** An entry every peer accepts. *)
Record listable (f : FileMetadata) : Prop := {
  l_encodable : encodable f = true;
  l_crlf : crlf_free (Hash f) && crlf_free (Name f) && crlf_free (RemotePath f) = true;
  l_hash : HasPathTraversalChars (Hash f) = false;
  l_name : ValidatePath (Name f) = Ok tt;
  l_size : 0 <= FSize f <= MaxFileSize;
  l_time : is_int64 (ModTime f)
}.

Lemma encodable_spec f :
  encodable f = true ↔ zlen (Name f) <= 64 ∧ zlen (Hash f) <= 64 ∧ zlen (RemotePath f) <= 4096.
Proof. unfold encodable, FileInfoLength, MaxPathLength. rewrite !andb_true_iff, !Z.leb_le. lia. Qed.

Lemma read_int_put n z rest : read_int n (put_be n z ++ rest) = Ok (z mod 256 ^ Z.of_nat n, rest).
Proof.
  unfold read_int. rewrite length_app, length_put_be, (proj2 (Nat.ltb_ge _ _)) by lia.
  rewrite take_app_eq, drop_app_eq by apply length_put_be. by rewrite get_be_put_be.
Qed.

Lemma read_field_put max s rest :
  zlen s <= max → max <= 4096 → read_field max (put_be 4 (uint32 (zlen s)) ++ s ++ rest) = Ok (s, rest).
Proof.
  intros Hs Hm. unfold read_field. rewrite read_int_put. change (256 ^ Z.of_nat 4) with (2 ^ 32).
  unfold uint32. rewrite !Z.mod_small by (try apply Z.mod_pos_bound; lia).
  rewrite (proj2 (Z.ltb_ge _ _)), (proj2 (Z.ltb_ge _ (zlen s))) by (rewrite ?length_app; lia).
  by rewrite take_app_eq, drop_app_eq by lia.
Qed.

Lemma uint64_int64 z : is_int64 z → int64 (uint64 z mod 256 ^ Z.of_nat 8) = z.
Proof.
  intros H. change (256 ^ Z.of_nat 8) with (2 ^ 64). fold (uint64 (uint64 z)).
  rewrite (uint64_id (uint64 z)) by apply uint64_is. rewrite int64_uint64. by apply int64_id.
Qed.

Lemma decode_entry_put f rest : listable f → decode_entry (file_entry f ++ rest) = Ok (f, rest).
Proof.
  intros [He Hc Hh Hn Hs Ht]. apply encodable_spec in He as (L1 & L2 & L3). unfold MaxFileSize in Hs.
  unfold decode_entry, file_entry. rewrite <- !app_assoc.
  rewrite read_field_put by (unfold FileInfoLength; lia). cbn iota.
  rewrite read_field_put by (unfold FileInfoLength; lia). cbn iota.
  rewrite read_int_put. cbn iota. rewrite uint64_int64 by (unfold is_int64; lia).
  rewrite read_field_put by (unfold MaxPathLength; lia). cbn iota.
  rewrite read_int_put. cbn iota. rewrite uint64_int64 by done.
  rewrite Hc, Hh, Hn. cbn [negb]. unfold MaxFileSize.
  rewrite (proj2 (Z.ltb_ge _ _)), (proj2 (Z.ltb_ge _ _)) by lia. by destruct f.
Qed.

Lemma decode_files_put fs rest :
  Forall listable fs → decode_files (length fs) (concat (file_entry <$> fs) ++ rest) = Ok fs.
Proof.
  induction 1 as [|f fs Hf HF IH]; [done|]. cbn [length fmap list_fmap concat decode_files].
  rewrite <- app_assoc, decode_entry_put by done. cbn iota. fold (file_entry <$> fs). by rewrite IH.
Qed.

Lemma length_file_entry f : (28 <= length (file_entry f))%nat.
Proof. unfold file_entry. rewrite !length_app, !length_put_be. lia. Qed.

Lemma length_file_entries fs : (28 * length fs <= length (concat (file_entry <$> fs)))%nat.
Proof.
  induction fs as [|f fs IH]; [done|]. cbn [length fmap list_fmap concat]. fold (file_entry <$> fs).
  rewrite length_app. pose proof (length_file_entry f). lia.
Qed.

Lemma list_decodes files :
  Forall listable (filter (λ f, encodable f = true) files) → Z.of_nat (length files) < 2 ^ 32 →
  DecodeFileMetadataList (EncodeFileMetadataList files) = Ok (filter (λ f, encodable f = true) files).
Proof.
  intros HF Hlen. unfold EncodeFileMetadataList, DecodeFileMetadataList. set (fs := filter _ files) in *.
  assert (length fs <= length files)%nat as Hle by apply length_filter.
  pose proof (length_file_entries fs) as He. rewrite length_app, length_put_be.
  rewrite (proj2 (Z.ltb_ge _ 4)) by lia. rewrite take_app_eq, drop_app_eq by apply length_put_be.
  rewrite get_be_put_be4. unfold uint32. rewrite !Z.mod_small by (try apply Z.mod_pos_bound; lia).
  rewrite (proj2 (Z.ltb_ge _ _)) by (apply Z.div_le_lower_bound; lia). rewrite Nat2Z.id.
  rewrite <- (app_nil_r (concat _)). by apply decode_files_put.
Qed.

(** A file list survives the network: decoding an encoded list returns its
    entries in order, provided every entry that is sent is acceptable; entries
    with an oversized name, digest or path are left out by the encoder. *)
Theorem FileMetadataList_roundtrip files :
  Forall listable (filter (λ f, encodable f = true) files) → Z.of_nat (length files) < 2 ^ 32 →
  DecodeFileMetadataList (EncodeFileMetadataList files) = Ok (filter (λ f, encodable f = true) files).
Proof. apply list_decodes. Qed.

(** ** Decoding untrusted lists *)
Lemma read_field_ok max data s rest :
  read_field max data = Ok (s, rest) → zlen s <= max ∧ (length rest + length s + 4 = length data)%nat.
Proof.
  unfold read_field, read_int. destruct (length data <? 4)%nat eqn:E; [done|]. cbn iota. apply Nat.ltb_ge in E.
  destruct (max <? get_be _) eqn:E1; [done|]. destruct (zlen _ <? get_be _) eqn:E2; [done|]. zbool. intros [= <- <-].
  pose proof (get_be_bound (take 4 data)) as Hb. rewrite !length_take, !length_drop in *. lia.
Qed.

Lemma read_int_ok n data z rest : read_int n data = Ok (z, rest) → (length rest + n = length data)%nat.
Proof. unfold read_int. destruct (length data <? n)%nat eqn:E; [done|]. apply Nat.ltb_ge in E. intros [= _ <-]. rewrite length_drop. lia. Qed.

Lemma decode_entry_ok data f rest :
  decode_entry data = Ok (f, rest) → listable f ∧ (length rest + 28 <= length data)%nat.
Proof.
  unfold decode_entry.
  destruct (read_field FileInfoLength data) as [[name d1]|] eqn:E1; [|done]. cbn iota.
  destruct (read_field FileInfoLength d1) as [[hash d2]|] eqn:E2; [|done]. cbn iota.
  destruct (read_int 8 d2) as [[size d3]|] eqn:E3; [|done]. cbn iota.
  destruct (read_field MaxPathLength d3) as [[path d4]|] eqn:E4; [|done]. cbn iota.
  destruct (read_int 8 d4) as [[mt d5]|] eqn:E5; [|done]. cbn iota.
  apply read_field_ok in E1 as [L1 S1], E2 as [L2 S2], E4 as [L4 S4]. apply read_int_ok in E3, E5.
  destruct (crlf_free hash && crlf_free name && crlf_free path) eqn:Ec; [|done]. cbn [negb].
  destruct (HasPathTraversalChars hash) eqn:Eh; [done|]. destruct (ValidatePath name) as [[]|] eqn:Ev; [|done].
  destruct (_ || _) eqn:Ez; [done|]. apply orb_false_iff in Ez as [Z1 Z2]. zbool.
  intros [= <- <-]. split; [|lia]. split; cbn; try done; [|by rewrite !andb_true_iff|apply int64_range].
  apply encodable_spec. cbn. unfold FileInfoLength, MaxPathLength in *. lia.
Qed.

Lemma decode_files_ok n data fs :
  decode_files n data = Ok fs → Forall listable fs ∧ length fs = n ∧ (28 * n <= length data)%nat.
Proof.
  revert data fs. induction n as [|n IH]; intros data fs; cbn [decode_files]; [intros [= <-]; split_and!; [constructor|done|lia]|].
  destruct (decode_entry data) as [[f d]|] eqn:E; [|done]. cbn iota. apply decode_entry_ok in E as [Hf Hl].
  destruct (decode_files n d) as [fs'|] eqn:E'; [|done]. apply IH in E' as (HF & <- & Hn).
  intros [= <-]. split_and!; [by constructor|done|lia].
Qed.

(** No answer from a peer can inject an unsafe entry or exhaust memory: every
    entry of a list that decodes has a confined name, a digest free of path
    separators, no line breaks, bounded fields and a legal size, and the number
    of entries is bounded by the bytes received. *)
Theorem DecodeFileMetadataList_sound data files :
  DecodeFileMetadataList data = Ok files → Forall listable files ∧ 28 * Z.of_nat (length files) + 4 <= zlen data.
Proof.
  unfold DecodeFileMetadataList. destruct (zlen data <? 4) eqn:E; [done|]. zbool. destruct (_ <? _); [done|].
  intros (HF & Hl & Hb)%decode_files_ok. rewrite length_drop in Hb. split; [done|]. lia.
Qed.

(** ** Merging: lemmas *)

(** What identifies an entry of a cluster-wide list. *)
Definition named (f : FileMetadata) : bytes * bytes := (Name f, Hash f).

Lemma merge_loop_spec seen l :
  NoDup (fileKey <$> merge_loop seen l) ∧ merge_loop seen l ⊆ l
  ∧ ∀ k, k ∈ fileKey <$> merge_loop seen l ↔ k ∈ fileKey <$> l ∧ k ∉ seen.
Proof.
  revert seen. induction l as [|f l IH]; intros seen; cbn [merge_loop].
  { split_and!; [constructor|done|]. intros k. cbn. rewrite elem_of_nil. naive_solver. }
  case_decide as Hs.
  - destruct (IH seen) as (H1 & H2 & H3). split_and!; [done|intros g Hg; right; by apply H2|].
    intros k. rewrite H3, fmap_cons, elem_of_cons. split; [naive_solver|]. intros [[->|?] ?]; [done|done].
  - destruct (IH ({[fileKey f]} ∪ seen)) as (H1 & H2 & H3). split_and!.
    + rewrite fmap_cons. apply NoDup_cons. split; [|done]. intros [_ Hn]%H3. apply Hn, elem_of_union_l, elem_of_singleton. done.
    + intros g [->|Hg]%elem_of_cons; [by left|right; by apply H2].
    + intros k. rewrite !fmap_cons, !elem_of_cons, H3, not_elem_of_union, not_elem_of_singleton.
      destruct (decide (k = fileKey f)) as [->|Hne]; naive_solver.
Qed.

Lemma elem_of_key k (l : list FileMetadata) : k ∈ fileKey <$> l ↔ ∃ f, f ∈ l ∧ fileKey f = k.
Proof. rewrite list_elem_of_fmap. naive_solver. Qed.

(** Merging keeps, for every (name, digest) pair of any node's list, exactly
    one entry, taken from those lists: aliases of one content stay apart and
    replicas collapse. *)
Theorem MergeFileMetadataLists_spec lists :
  let r := MergeFileMetadataLists lists in
  NoDup (named <$> r) ∧ r ⊆ concat lists ∧ ∀ k, k ∈ named <$> r ↔ ∃ l, l ∈ lists ∧ k ∈ named <$> l.
Proof.
  change named with fileKey.
  destruct (merge_loop_spec ∅ (concat lists)) as (H1 & H2 & H3). split_and!; [done..|].
  intros k. unfold MergeFileMetadataLists. rewrite H3, elem_of_key. split.
  - intros [(f & Hf & <-) _]. apply list_elem_of_In, in_concat in Hf as (l & Hl & Hf).
    exists l. split; [by apply list_elem_of_In|]. apply elem_of_key. exists f. split; [by apply list_elem_of_In|done].
  - intros (l & Hl & (f & Hf & <-)%elem_of_key). split; [|set_solver]. exists f. split; [|done].
    apply list_elem_of_In, in_concat. exists l. by rewrite <- !list_elem_of_In.
Qed.

(** ** A list across the cluster *)
Section Cluster.
Context {B : Type} `{BlobStore B}.
Implicit Types (s : CASStore B).

(** [r] is the answer a node's handler gave to a list query. *)
Definition answered (s : CASStore B) (r : QueryResponsePayload) : Prop :=
  ∃ now, HandleQuery s QueryList [] now = (Ok (RData r), s) ∧ RError r = [].

(** What a node contributes: the entries of its list that fit the wire. *)
Definition published s : list FileMetadata :=
  match List s with Ok l => filter (λ f, encodable f = true) l | Err _ => [] end.

Definition well_listed s : Prop :=
  ∃ l, List s = Ok l ∧ Forall listable (filter (λ f, encodable f = true) l) ∧ Z.of_nat (length l) < 2 ^ 32.

Lemma answered_decodes s r :
  well_listed s → answered s r → peer_lists [r] = [published s].
Proof.
  intros (l & Hl & HF & Hn) (now & Hq & He). unfold published. rewrite Hl. unfold peer_lists. cbn. rewrite He.
  unfold HandleQuery, StorageQueryHandler, HandleStorageQuery, handleList in Hq. rewrite Z.eqb_refl, Hl in Hq. injection Hq as <-.
  by rewrite list_decodes.
Qed.

Lemma answers_decode ss rs :
  Forall well_listed ss → Forall2 answered ss rs → peer_lists rs = published <$> ss.
Proof.
  intros HF HA. induction HA as [|s r ss rs Ha HA IH]; [done|]. apply Forall_cons in HF as [Hw HF].
  pose proof (answered_decodes s r Hw Ha) as E. unfold peer_lists in *. cbn [omap list_omap] in *.
  destruct (match RError r with [] => _ | _ => _ end); [|done]. injection E as ->. rewrite fmap_cons. f_equal. by apply IH.
Qed.

(** A cluster-wide list is complete and exact: when every peer answered, in
    whatever order, the result has exactly one entry for each (name, digest)
    pair that the coordinator or some peer lists, and no other; listing changes
    no store. *)
Theorem GlobalList_exact s ss rs rs' :
  well_listed s → Forall well_listed ss → Forall2 answered ss rs → rs' ≡ₚ rs →
  let r := GlobalList (List s) rs' in
  NoDup (named <$> r)
  ∧ ∀ k, k ∈ named <$> r ↔
      k ∈ named <$> (match List s with Ok l => l | Err _ => [] end)
      ∨ ∃ s', s' ∈ ss ∧ k ∈ named <$> published s'.
Proof.
  change named with fileKey.
  intros (l & Hl & _) HF HA Hp. unfold GlobalList. rewrite Hl.
  assert (peer_lists rs' ≡ₚ published <$> ss) as Hpl.
  { rewrite <- (answers_decode ss rs) by done. unfold peer_lists. by rewrite Hp. }
  set (own := match l with [] => [] | _ => [l] end).
  destruct (merge_loop_spec ∅ (concat (own ++ peer_lists rs'))) as (H1 & _ & H3). split; [done|].
  intros k. fold (MergeFileMetadataLists (own ++ peer_lists rs')) in H3. unfold MergeFileMetadataLists in *.
  rewrite H3, concat_app, Hpl, fmap_app, elem_of_app.
  assert (concat own = l) as -> by (destruct l; cbn; [done|by rewrite app_nil_r]).
  assert (k ∉ (∅ : gset (bytes * bytes))) as Hk by set_solver.
  rewrite (elem_of_key k (concat _)). split.
  - intros [[?|(f & Hf & <-)] _]; [by left|right]. apply list_elem_of_In, in_concat in Hf as (x & Hx & Hf).
    apply list_elem_of_In, list_elem_of_fmap in Hx as (s' & -> & Hs'). exists s'. split; [done|].
    apply elem_of_key. exists f. by rewrite list_elem_of_In.
  - intros [?|(s' & Hs' & (f & Hf & <-)%elem_of_key)]; (split; [|done]); [by left|right].
    exists f. split; [|done]. apply list_elem_of_In, in_concat. exists (published s').
    rewrite <- !list_elem_of_In. split; [|done]. apply list_elem_of_fmap. eauto.
Qed.
End Cluster.

(** ** Scatter and gather *)

(** An answer reaches the query it answers: the peer that receives the
    broadcast request runs its handler on the query, and its response, value or
    error, is appended intact to the waiting query of the coordinator and to no
    other; a full channel drops what exceeds one answer per peer. *)
Theorem scatter_delivers {St} `{QueryHandler St} text sg alive qt data now peer st r st' sg1 rpc id n rs :
  query_begin sg alive qt data = Some (sg1, rpc, id, n) →
  0 <= qt < 256 → zlen data <= maxPayloadSize - 9 →
  HandleQuery st qt data now = (r, st') →
  let answer := match r with Ok d => mkQResp id d [] | Err e => mkQResp id [] (text e) end in
  qresp_ok answer →
  ∃ resp, handleQuery text peer st rpc now = (Some resp, st')
  ∧ ∀ sg2, pendingQueries sg2 !! id = Some (mkPQ n rs) →
      let sg3 := handleQueryResponse sg2 resp in
      pendingQueries sg3 !! id = Some (mkPQ n (if (length rs <? n)%nat then rs ++ [answer] else rs))
      ∧ ∀ id', id' ≠ id → pendingQueries sg3 !! id' = pendingQueries sg2 !! id'.
Proof.
  intros Hb Hqt Hd Hh answer Hok. unfold query_begin in Hb.
  destruct (length (filter _ alive)) as [|m] eqn:El; [done|]. injection Hb as <- <- <- <-.
  set (id := uint64 (nextRequestID sg + 1)) in *.
  unfold handleQuery. cbn [Payload].
  rewrite (query_wire.(wire_roundtrip) (mkQuery qt id data)
             (conj Hqt (conj (uint64_is _) Hd)) : DecodeQueryPayload (Query_Encode _) = _).
  cbn [QType QData QRequestID]. rewrite Hh. fold answer. eexists. split; [reflexivity|].
  intros sg2 Hp. cbn zeta. unfold handleQueryResponse. cbn [Payload].
  rewrite (qresp_wire.(wire_roundtrip) answer Hok : DecodeQueryResponsePayload (QueryResponse_Encode _) = _).
  assert (RRequestID answer = id) as -> by (unfold answer; by destruct r). rewrite Hp. cbn [responses peerCount].
  destruct (length rs <? S m)%nat; [|done]. cbn [pendingQueries]. split; [by rewrite lookup_insert_eq|].
  intros id' Hne. by rewrite lookup_insert_ne.
Qed.

(** ** Limits of the protocol *)

(** One entry the decoder refuses, such as a stored remote path with a line
    break, makes peers drop the whole list. *)
Theorem poisoned_list :
  let bad := mkFile (bs "a") (bs "h") 1 [ch_lf] 0 in
  let good := mkFile (bs "b") (bs "h") 1 (bs "p") 0 in
  encodable bad = true ∧ DecodeFileMetadataList (EncodeFileMetadataList [good]) = Ok [good]
  ∧ DecodeFileMetadataList (EncodeFileMetadataList [good; bad]) = Err (Errno EBADMSG).
Proof. vm_compute. done. Qed.

(** Peers that do not answer in time are not counted: a delete that reached one
    of two peers is reported as propagated. *)
Theorem delete_partially_propagated :
  ∃ sg rpc, query_begin (NewScatterGather 1) [1; 2; 3] QueryDelete (bs "f") = Some (sg, rpc, 1, 2%nat)
  ∧ let sg := handleQueryResponse sg (mkRPC 2 MsgQueryResponse (QueryResponse_Encode (mkQResp 1 [Byte.x01] []))) in
    PropagateDelete (query_end sg 1 true).1 = Ok tt.
Proof. do 2 eexists. split; [reflexivity|]. vm_compute. reflexivity. Qed.

(** An answer of a mebibyte or more is sent but cannot be received. *)
Theorem oversized_rpc_refused r rest :
  2 ^ 20 - 5 < zlen (Payload r) < 2 ^ 32 - 5 → DecodeRPC (RPC_Encode r ++ rest) = Err (Errno EBADMSG).
Proof.
  intros Hp. unfold RPC_Encode, DecodeRPC. set (n := 1 + 4 + zlen (Payload r)).
  rewrite <- app_assoc, length_app, length_put_be. change (4 + _ <? 4)%nat with false. cbn iota.
  rewrite take_app_eq by apply length_put_be. rewrite get_be_put_be4. unfold uint32. rewrite !Z.mod_small by (try apply Z.mod_pos_bound; lia).
  change (Z.shiftl 1 20) with (2 ^ 20). rewrite (proj2 (Z.ltb_lt (2 ^ 20) n)) by lia. by rewrite orb_true_r.
Qed.

(** ** Concrete stores *)
Definition qs_hash : bytes := Eval vm_compute in HashBytes (bs "hi").
Definition qs_file (name : bytes) : FileMetadata := mkFile name qs_hash 2 (bs "p") 7.
Definition qs_store (name : bytes) : CASStore (gmap bytes bytes) :=
  (Put (newCASStore ∅) name qs_hash 2 (bs "p") (Some (reader_of (bs "hi"))) 7).2.
Definition qs_a : CASStore (gmap bytes bytes) := qs_store (bs "a").
Definition qs_b : CASStore (gmap bytes bytes) := qs_store (bs "b").

Lemma qs_file_listable name :
  ValidatePath name = Ok tt → crlf_free name = true → zlen name <= 64 → listable (qs_file name).
Proof.
  intros Hv Hc Hl. split; cbn [qs_file Name Hash FSize RemotePath ModTime].
  - apply encodable_spec. cbn [qs_file Name Hash RemotePath]. split; [done|]. vm_compute. split; discriminate.
  - rewrite Hc. vm_compute. reflexivity.
  - vm_compute. reflexivity.
  - exact Hv.
  - vm_compute. split; discriminate.
  - vm_compute. split; [discriminate|reflexivity].
Qed.

Lemma qs_listed name :
  List (qs_store name) = Ok [qs_file name] → ValidatePath name = Ok tt → crlf_free name = true → zlen name <= 64 →
  well_listed (qs_store name).
Proof.
  intros Hl Hv Hc Hn. exists [qs_file name]. split; [exact Hl|]. split; [|done].
  rewrite Forall_forall. intros f [_ Hf]%list_elem_of_filter. apply list_elem_of_singleton in Hf as ->.
  by apply qs_file_listable.
Qed.

Lemma qs_a_listed : well_listed qs_a.
Proof. apply qs_listed; vm_compute; (reflexivity || discriminate). Qed.
Lemma qs_b_listed : well_listed qs_b.
Proof. apply qs_listed; vm_compute; (reflexivity || discriminate). Qed.

Definition qs_answer : QueryResponsePayload :=
  Eval vm_compute in mkQResp 1 (EncodeFileMetadataList [qs_file (bs "b")]) [].

Lemma qs_b_answered : answered qs_b qs_answer.
Proof. exists 9. split; [|reflexivity]. unfold HandleQuery, StorageQueryHandler, HandleStorageQuery. cbn [QueryList Z.eqb Pos.eqb].
  f_equal. Qed.

Lemma FileMetadataList_roundtrip_witness :
  DecodeFileMetadataList (EncodeFileMetadataList [qs_file (bs "a"); qs_file (bs "b")])
  = Ok (filter (λ f, encodable f = true) [qs_file (bs "a"); qs_file (bs "b")]).
Proof.
  apply (FileMetadataList_roundtrip [qs_file (bs "a"); qs_file (bs "b")]).
  - rewrite Forall_forall. intros f [_ Hf]%list_elem_of_filter.
    apply elem_of_cons in Hf as [->|Hf%list_elem_of_singleton]; [|subst f];
      apply qs_file_listable; vm_compute; (reflexivity || discriminate).
  - vm_compute. reflexivity.
Defined.

Lemma DecodeFileMetadataList_sound_witness :
  Forall listable [qs_file (bs "b")] ∧ 28 * Z.of_nat (length [qs_file (bs "b")]) + 4 <= zlen (RData qs_answer).
Proof. apply (DecodeFileMetadataList_sound (RData qs_answer)). vm_compute. reflexivity. Defined.

Lemma GlobalList_exact_witness :
  let r := GlobalList (List qs_a) [qs_answer] in
  NoDup (named <$> r)
  ∧ ∀ k, k ∈ named <$> r ↔
      k ∈ named <$> (match List qs_a with Ok l => l | Err _ => [] end)
      ∨ ∃ s', s' ∈ [qs_b] ∧ k ∈ named <$> published s'.
Proof.
  apply (GlobalList_exact qs_a [qs_b] [qs_answer] [qs_answer]).
  - exact qs_a_listed.
  - exact (Forall_cons_2 _ _ _ qs_b_listed (Forall_nil_2 _)).
  - apply Forall2_cons. exact (conj qs_b_answered (Forall2_nil_2 _ _ _)).
  - reflexivity.
Defined.

Definition qs_text (e : error) : bytes := bs "failed".

Lemma scatter_delivers_witness :
  ∃ resp, handleQuery qs_text 2 qs_b (mkRPC 1 MsgQuery (Query_Encode (mkQuery QueryList 1 []))) 9 = (Some resp, qs_b)
  ∧ ∀ sg2, pendingQueries sg2 !! 1 = Some (mkPQ 1 []) →
      let sg3 := handleQueryResponse sg2 resp in
      pendingQueries sg3 !! 1 = Some (mkPQ 1 [mkQResp 1 (RData qs_answer) []])
      ∧ ∀ id', id' ≠ 1 → pendingQueries sg3 !! id' = pendingQueries sg2 !! id'.
Proof.
  eapply (scatter_delivers qs_text (NewScatterGather 1) [1; 2] QueryList [] 9 2 qs_b (Ok (RData qs_answer)) qs_b _ _ _ 1 []).
  - reflexivity.
  - vm_compute. split; [discriminate|reflexivity].
  - vm_compute. discriminate.
  - unfold HandleQuery, StorageQueryHandler, HandleStorageQuery. cbn [QueryList Z.eqb Pos.eqb]. f_equal.
  - vm_compute. repeat split; discriminate.
Defined.
