(* ===== verification/Limits.v ===== *)
(** * Admission limits (src/src/common/auth_limiter.go, src/src/server/concurrency.go)

    The limiter of failed authentications keeps one entry per source; durations
    and instants are nanoseconds, [time_zero] the zero [time.Time].  The
    concurrency controller sizes itself from its environment and hands out
    connection slots through a buffered channel. *)
From Stdlib Require SpecFloat.
From S2P Require Import Prelude GoText Float64.
Open Scope Z_scope.

Definition time_zero : Z := - 62135596800 * 10 ^ 9.
Definition second : Z := 10 ^ 9.

(** ** The authentication limiter *)
Definition authLimiterDefaultFactor : Z := 2.
Definition authLimiterDefaultMaxDelay : Z := 8 * second.
Definition authLimiterDefaultMaxFailures : Z := 5.
Definition authLimiterDefaultIdleWindow : Z := 5 * 60 * second.

Record authLimiterEntry := mkALE { failures : Z; nextAllow : Z; lockoutUntil : Z; lastSeen : Z }.

Record AuthLimiter := mkAL {
  baseDelay : Z;
  factor : Z;
  maxDelay : Z;
  maxFailures : Z;
  lockout : Z;
  idleWindow : Z;
  sources : gmap bytes authLimiterEntry
}.

Definition NewAuthLimiter (base : Z) : AuthLimiter :=
  let lock :=
    if base <=? 0 then 0
    else
      let l := int64 (base * 60) in
      let l := if 60 * second <? l then 60 * second else l in
      if l <? authLimiterDefaultMaxDelay then authLimiterDefaultMaxDelay else l in
  mkAL base authLimiterDefaultFactor authLimiterDefaultMaxDelay authLimiterDefaultMaxFailures lock
    authLimiterDefaultIdleWindow ∅.

Definition set_sources (m : gmap bytes authLimiterEntry) (l : AuthLimiter) : AuthLimiter :=
  mkAL (baseDelay l) (factor l) (maxDelay l) (maxFailures l) (lockout l) (idleWindow l) m.

Definition Enabled (l : AuthLimiter) : bool := 0 <? baseDelay l.

Definition evictIdle (l : AuthLimiter) (now : Z) : AuthLimiter :=
  set_sources (filter (λ kv, ¬ (idleWindow l < now - lastSeen kv.2)) (sources l)) l.

Definition Allow (l : AuthLimiter) (source : bytes) (now : Z) : bool * AuthLimiter :=
  if negb (Enabled l) then (true, l)
  else match sources l !! source with
       | None => (true, evictIdle l now)
       | Some e => (if now <? lockoutUntil e then false else if now <? nextAllow e then false else true, l)
       end.

(** The loop of [backoffDelay], in 64-bit arithmetic. *)
Fixpoint backoff_loop (l : AuthLimiter) (n : nat) (delay : Z) : Z :=
  match n with
  | O => if maxDelay l <? delay then maxDelay l else delay
  | S n => let delay := int64 (delay * factor l) in
           if maxDelay l <=? delay then maxDelay l else backoff_loop l n delay
  end.
Definition backoffDelay (l : AuthLimiter) (fails : Z) : Z := backoff_loop l (Z.to_nat (fails - 1)) (baseDelay l).

Definition RecordFailure (l : AuthLimiter) (source : bytes) (now : Z) : Z * AuthLimiter :=
  if negb (Enabled l) then (0, l)
  else
    let e := default (mkALE 0 time_zero time_zero time_zero) (sources l !! source) in
    let f := failures e + 1 in
    if maxFailures l <=? f then
      let until := now + lockout l in
      (lockout l, set_sources (<[source := mkALE f until until now]> (sources l)) l)
    else
      let delay := backoffDelay l f in
      (delay, set_sources (<[source := mkALE f (now + delay) (lockoutUntil e) now]> (sources l)) l).

Definition RecordSuccess (l : AuthLimiter) (source : bytes) : AuthLimiter :=
  if negb (Enabled l) then l else set_sources (delete source (sources l)) l.

(** ** The concurrency controller *)
Definition MinConcurrentConnections : Z := 32.
Definition MaxConcurrentConnections : Z := 10000.
Definition EstimatedPerConnRAMBytes : Z := 4 * 1024 * 1024.

Record epigeneticController := mkEC {
  capacity : Z;
  currentLimit : Z;
  active : Z;
  sem : Z                      (* tokens in the buffered channel *)
}.

Definition new_controller (cap : Z) : epigeneticController := mkEC cap cap 0 0.
Definition NewAdaptiveConcurrencyControllerWithCapacity (cap : Z) : epigeneticController :=
  new_controller (if cap <? 1 then 1 else cap).

(** [AcquireSlot] is three atomic steps: the load-shedding test, the channel
    send, the counter. *)
Definition acquire_test (c : epigeneticController) : bool := negb (currentLimit c <=? active c).
Definition acquire_send (c : epigeneticController) : option epigeneticController :=
  if sem c <? capacity c then Some (mkEC (capacity c) (currentLimit c) (active c) (sem c + 1)) else None.
Definition add_active (d : Z) (c : epigeneticController) : epigeneticController :=
  mkEC (capacity c) (currentLimit c) (active c + d) (sem c).

(** [ReleaseSlot]: the receive, if a token is there, then the counter. *)
Definition release_recv (c : epigeneticController) : option epigeneticController :=
  if 0 <? sem c then Some (mkEC (capacity c) (currentLimit c) (active c) (sem c - 1)) else None.

Definition above (x : float64) (z : Z) : bool := SpecFloat.SFltb (f64 z) x.

Definition UpdateMetrics (c : epigeneticController) (cpuPercent memUsedPercent : float64) : epigeneticController :=
  let limit := if above cpuPercent 90 || above memUsedPercent 90 then Z.quot (capacity c) 4
               else if above cpuPercent 80 || above memUsedPercent 80 then Z.quot (capacity c) 2
               else capacity c in
  let limit := if (limit <? MinConcurrentConnections) && (MinConcurrentConnections <=? capacity c)
               then MinConcurrentConnections else limit in
  let limit := if limit <? 1 then 1 else limit in
  mkEC (capacity c) limit (active c) (sem c).

(** What the host answers: the descriptor limit (a uint64), the two cgroup files
    and the memory obtained from the system. *)
Record host := mkHost { rlimit : option Z; cgroup2 : option bytes; cgroup1 : option bytes; memSys : Z }.

Definition probeAvailableRAM (h : host) : Z :=
  let v2 := match cgroup2 h with
            | Some data => let val := trim_space data in
                if decide (val = bs "max") then None
                else match parse_int64 val with Some n => if 0 <? n then Some n else None | None => None end
            | None => None
            end in
  match v2 with
  | Some n => n
  | None =>
      let v1 := match cgroup1 h with
                | Some data => match parse_int64 (trim_space data) with
                               | Some n => if (0 <? n) && (n <? Z.shiftl 1 62) then Some n else None
                               | None => None
                               end
                | None => None
                end in
      match v1 with
      | Some n => n
      | None => if 0 <? memSys h then int64 (int64 (memSys h) * 4) else 4 * 1024 * 1024 * 1024
      end
  end.

Definition probeEnvironment (h : host) : Z :=
  let fdLimit := match rlimit h with Some cur => if 0 <? cur then int64 cur else 1024 | None => 1024 end in
  let fdCeiling := Z.quot fdLimit 4 in
  let fdCeiling := if fdCeiling <? MinConcurrentConnections then MinConcurrentConnections else fdCeiling in
  let ramCeiling := Z.quot (probeAvailableRAM h) EstimatedPerConnRAMBytes in
  let ramCeiling := if ramCeiling <? MinConcurrentConnections then MinConcurrentConnections else ramCeiling in
  let capLimit := if ramCeiling <? fdCeiling then ramCeiling else fdCeiling in
  if capLimit <? MinConcurrentConnections then MinConcurrentConnections
  else if MaxConcurrentConnections <? capLimit then MaxConcurrentConnections else capLimit.
Definition NewAdaptiveConcurrencyController (h : host) : epigeneticController := new_controller (probeEnvironment h).

(** Many handlers at once: those past the test, those between the channel and
    the counter, and the controller. *)
Record slots := mkSlots { ctl : epigeneticController; tested : nat; sent : nat; received : nat; holding : nat }.

Inductive slot_step : slots → slots → Prop :=
  | ss_test c t a r h : acquire_test c = true → slot_step (mkSlots c t a r h) (mkSlots c (S t) a r h)
  | ss_cancel c t a r h : slot_step (mkSlots c (S t) a r h) (mkSlots c t a r h)
  | ss_send c c' t a r h : acquire_send c = Some c' → slot_step (mkSlots c (S t) a r h) (mkSlots c' t (S a) r h)
  | ss_count c t a r h : slot_step (mkSlots c t (S a) r h) (mkSlots (add_active 1 c) t a r (S h))
  | ss_recv c c' t a r h : release_recv c = Some c' → slot_step (mkSlots c t a r (S h)) (mkSlots c' t a (S r) h)
  | ss_uncount c t a r h : slot_step (mkSlots c t a (S r) h) (mkSlots (add_active (-1) c) t a r h)
  | ss_metrics c t a r h cpu mem : slot_step (mkSlots c t a r h) (mkSlots (UpdateMetrics c cpu mem) t a r h).

(** ** Backoff *)
Lemma backoff_loop_min l n d :
  maxDelay l = 8 * second → factor l = 2 → 0 < d < 2 ^ 62 →
  backoff_loop l n d = Z.min (d * 2 ^ Z.of_nat n) (8 * second).
Proof.
  intros Hm Hf. revert d. induction n as [|n IH]; intros d Hd; cbn [backoff_loop].
  - rewrite Hm, Z.mul_1_r. destruct (_ <? d) eqn:E; zbool; lia.
  - rewrite Hf, Hm. rewrite int64_id by (unfold is_int64; lia).
    rewrite Nat2Z.inj_succ, Z.pow_succ_r by lia. destruct (_ <=? d * 2) eqn:E; zbool.
    + assert (1 <= 2 ^ Z.of_nat n) by (apply (Z.pow_le_mono_r 2 0); lia). nia.
    + rewrite IH by (unfold second in *; lia). f_equal. lia.
Qed.

Definition backoff (base fails : Z) : Z := Z.min (base * 2 ^ (fails - 1)) (8 * second).

(** The wait after the [f]-th consecutive failure. *)
Definition penalty (l : AuthLimiter) (f : Z) : Z := if 5 <=? f then lockout l else backoff (baseDelay l) f.

(** A limiter as the constructor builds it, after any traffic. *)
Record limiter_ok (base : Z) (l : AuthLimiter) : Prop := {
  lo_base : baseDelay l = base ∧ 0 < base < 2 ^ 56;
  lo_cfg : factor l = 2 ∧ maxDelay l = 8 * second ∧ maxFailures l = 5 ∧ idleWindow l = 300 * second;
  lo_lock : 8 * second <= lockout l <= 60 * second;
  lo_entry : ∀ s e, sources l !! s = Some e →
    1 <= failures e ∧ nextAllow e = lastSeen e + penalty l (failures e)
    ∧ lockoutUntil e = if 5 <=? failures e then nextAllow e else time_zero
}.

Lemma NewAuthLimiter_ok base : 0 < base < 2 ^ 56 → limiter_ok base (NewAuthLimiter base).
Proof.
  intros Hb. split; [done|done| |intros s e; cbn; by rewrite lookup_empty].
  cbn. rewrite (proj2 (Z.leb_gt base 0)) by lia. rewrite int64_id by (unfold is_int64; lia).
  unfold authLimiterDefaultMaxDelay, second. repeat case_match; zbool; lia.
Qed.

Lemma backoffDelay_exact base l f : limiter_ok base l → 1 <= f → backoffDelay l f = backoff base f.
Proof.
  intros [[Hb Hr] (Hf & Hm & _) _ _] Hf1. unfold backoffDelay, backoff. rewrite backoff_loop_min by (try done; rewrite Hb; lia).
  by rewrite Hb, Z2Nat.id by lia.
Qed.

Lemma backoff_mono base f f' : 0 < base → 1 <= f <= f' → 0 < backoff base f <= backoff base f' ∧ backoff base f' <= 8 * second.
Proof.
  intros Hb Hf. unfold backoff. assert (1 <= 2 ^ (f - 1)) by (apply (Z.pow_le_mono_r 2 0); lia).
  assert (2 ^ (f - 1) <= 2 ^ (f' - 1)) by (apply Z.pow_le_mono_r; lia). unfold second. nia.
Qed.

Lemma penalty_mono base l f f' :
  limiter_ok base l → 1 <= f <= f' → 0 < penalty l f <= penalty l f' ∧ penalty l f' <= 60 * second.
Proof.
  intros [[Hb Hr] _ Hl _] Hf. unfold penalty. rewrite Hb. destruct (backoff_mono base f f') as [H1 H2]; [lia|done|].
  assert (0 < second) by done. destruct (5 <=? f) eqn:E, (5 <=? f') eqn:E'; zbool; lia.
Qed.

Lemma limiter_enabled base l : limiter_ok base l → Enabled l = true.
Proof. intros [[Hb Hr] _ _ _]. unfold Enabled. rewrite Hb. apply Z.ltb_lt; lia. Qed.

(** What a failure writes. *)
Definition fails_of (l : AuthLimiter) (src : bytes) : Z := match sources l !! src with Some e => failures e | None => 0 end.
Definition failed_entry (l : AuthLimiter) (f now : Z) : authLimiterEntry :=
  mkALE f (now + penalty l f) (if 5 <=? f then now + penalty l f else time_zero) now.

Lemma RecordFailure_spec base l src now :
  limiter_ok base l →
  let f := fails_of l src + 1 in
  RecordFailure l src now = (penalty l f, set_sources (<[src := failed_entry l f now]> (sources l)) l).
Proof.
  intros Hl. unfold RecordFailure. rewrite (limiter_enabled base) by done. cbn [negb].
  pose proof Hl as [[Hb Hr] (Hf & Hm & Hmf & _) _ He]. rewrite Hmf. unfold penalty, fails_of, failed_entry, penalty.
  destruct (sources l !! src) as [e0|] eqn:E; cbn [default failures lockoutUntil id from_option].
  - destruct (He _ _ E) as (H1 & _ & H3). destruct (5 <=? failures e0 + 1) eqn:E5; [done|].
    rewrite (backoffDelay_exact base) by (done || lia). rewrite Hb, H3. zbool. by rewrite (proj2 (Z.leb_gt 5 _)) by lia.
  - cbn [Z.add Z.leb Z.compare]. rewrite (backoffDelay_exact base) by (done || lia). by rewrite Hb.
Qed.

Lemma set_sources_ok base l m :
  limiter_ok base l →
  (∀ s e, m !! s = Some e → sources l !! s = Some e ∨ ∃ f now, 1 <= f ∧ e = failed_entry l f now) →
  limiter_ok base (set_sources m l).
Proof.
  intros [H1 H2 H3 H4] Hm. split; [done..|]. intros s e [He|(f & now & Hf & ->)]%Hm; [by eapply H4|].
  cbn. split_and!; [done|done|]. reflexivity.
Qed.

Lemma fails_of_pos base l src : limiter_ok base l → 0 <= fails_of l src.
Proof. intros [_ _ _ H]. unfold fails_of. destruct (sources l !! src) eqn:E; [|done]. apply H in E. lia. Qed.

(** ** Traffic *)
Inductive lop := LAllow (s : bytes) (now : Z) | LFail (s : bytes) (now : Z) | LSuccess (s : bytes).

Definition run_lop (l : AuthLimiter) (op : lop) : AuthLimiter :=
  match op with
  | LAllow s now => (Allow l s now).2
  | LFail s now => (RecordFailure l s now).2
  | LSuccess s => RecordSuccess l s
  end.

Lemma run_lop_ok base l op : limiter_ok base l → limiter_ok base (run_lop l op).
Proof.
  intros Hl. destruct op as [s now|s now|s]; cbn [run_lop].
  - unfold Allow. rewrite (limiter_enabled base) by done. cbn [negb]. destruct (sources l !! s); [done|].
    apply set_sources_ok; [done|]. intros s' e [H _]%map_lookup_filter_Some. by left.
  - rewrite (RecordFailure_spec base) by done. apply set_sources_ok; [done|].
    intros s' e [[<- <-]|[_ H]]%lookup_insert_Some; [|by left]. right. do 2 eexists. split; [|done].
    pose proof (fails_of_pos base l s Hl). lia.
  - unfold RecordSuccess. rewrite (limiter_enabled base) by done. apply set_sources_ok; [done|].
    intros s' e [_ H]%lookup_delete_Some. by left.
Qed.

(** The source stays blocked until [until]. *)
Definition blocked (src : bytes) (t f until : Z) (l : AuthLimiter) : Prop :=
  ∃ e, sources l !! src = Some e ∧ f <= failures e ∧ t <= lastSeen e ∧ until <= nextAllow e.

Definition in_window (src : bytes) (t until : Z) (op : lop) : Prop :=
  match op with LAllow _ now | LFail _ now => t <= now < until | LSuccess s => s ≠ src end.

Lemma run_lop_blocked base l op src t f :
  limiter_ok base l → 1 <= f → in_window src t (t + penalty l f) op →
  blocked src t f (t + penalty l f) l → blocked src t f (t + penalty l f) (run_lop l op).
Proof.
  intros Hl Hf Hop (e & Hs & Hfe & Ht & Hu). destruct op as [s now|s now|s]; cbn [run_lop in_window] in *.
  - unfold Allow. rewrite (limiter_enabled base) by done. cbn [negb]. destruct (sources l !! s) eqn:E; [by exists e|].
    exists e. split_and!; [|done..]. cbn. apply map_lookup_filter_Some. split; [done|]. cbn.
    pose proof (lo_cfg _ _ Hl) as (_ & _ & _ & ->). destruct (penalty_mono base l f f Hl ltac:(lia)) as [_ Hp].
    assert (0 < second) by done. lia.
  - rewrite (RecordFailure_spec base) by done. cbn. destruct (decide (s = src)) as [->|Hne].
    + exists (failed_entry l (fails_of l src + 1) now). cbn. rewrite lookup_insert_eq.
      unfold fails_of. rewrite Hs. destruct (penalty_mono base l f (failures e + 1) Hl ltac:(lia)).
      split_and!; [done|lia..].
    + exists e. cbn. by rewrite lookup_insert_ne.
  - unfold RecordSuccess. rewrite (limiter_enabled base) by done. exists e. cbn. by rewrite lookup_delete_ne.
Qed.

Lemma run_lop_penalty l op f : penalty (run_lop l op) f = penalty l f.
Proof.
  destruct op as [s now|s now|s]; cbn [run_lop]; unfold Allow, RecordFailure, RecordSuccess.
  all: repeat (case_match; try done).
Qed.

Lemma run_lops_blocked base ops src t f l :
  limiter_ok base l → 1 <= f → Forall (in_window src t (t + penalty l f)) ops →
  blocked src t f (t + penalty l f) l →
  limiter_ok base (foldl run_lop l ops) ∧ blocked src t f (t + penalty l f) (foldl run_lop l ops).
Proof.
  intros Hl Hf HF Hb. revert l Hl HF Hb. induction ops as [|op ops IH]; intros l Hl HF Hb; [done|].
  apply Forall_cons in HF as [Ho HF]. cbn [foldl]. rewrite <- (run_lop_penalty l op) in *. apply IH; [by apply run_lop_ok|done|].
  rewrite run_lop_penalty in *. by eapply run_lop_blocked.
Qed.

(** ** Guarantees of the limiter *)

(** A failed authentication buys the source the wait it is told, doubling
    from the base delay up to eight seconds and jumping to the lockout at the
    fifth failure in a row; until it is over, no traffic of any source (attempts,
    failures, evictions, successes of others), in any order, lets that source
    through, and when it is over the source may try again. *)
Theorem backoff_enforced base l src t :
  limiter_ok base l → 0 <= t →
  let f := fails_of l src + 1 in
  let '(d, l1) := RecordFailure l src t in
  d = (if 5 <=? f then lockout l else Z.min (base * 2 ^ (f - 1)) (8 * second))
  ∧ (∀ ops now, Forall (in_window src t (t + d)) ops → t <= now < t + d →
       (Allow (foldl run_lop l1 ops) src now).1 = false)
  ∧ (Allow l1 src (t + d)).1 = true.
Proof.
  intros Hl Ht f. pose proof (fails_of_pos base l src Hl) as Hf0. rewrite (RecordFailure_spec base) by done. fold f.
  set (l1 := set_sources _ _). assert (limiter_ok base l1) as Hl1.
  { unfold l1. pose proof (run_lop_ok base l (LFail src t) Hl) as H. cbn [run_lop] in H.
    by rewrite (RecordFailure_spec base) in H by done. }
  assert (sources l1 !! src = Some (failed_entry l f t)) as Hs by apply lookup_insert_eq.
  split; [|split].
  - unfold penalty, backoff. by rewrite (proj1 (lo_base _ _ Hl)).
  - intros ops now HF Hnow. destruct (run_lops_blocked base ops src t f l1) as [Hok (e & He & _ & _ & Hu)]; [done|lia|done| |].
    { exists (failed_entry l f t). split_and!; [done|done|done|]. cbn. unfold penalty. cbn. lia. }
    unfold Allow. rewrite (limiter_enabled base) by done. cbn [negb]. rewrite He. cbn [fst].
    destruct (now <? lockoutUntil e); [done|]. by rewrite (proj2 (Z.ltb_lt _ _)) by (change (penalty l1 f) with (penalty l f) in Hu; lia).
  - unfold Allow. rewrite (limiter_enabled base) by done. cbn [negb]. rewrite Hs. cbn [failed_entry fst lockoutUntil nextAllow].
    destruct (penalty_mono base l f f Hl ltac:(lia)) as [Hp _].
    rewrite (Z.ltb_irrefl (t + _)). destruct (5 <=? f); [by rewrite Z.ltb_irrefl|].
    by rewrite (proj2 (Z.ltb_ge _ time_zero)) by (unfold time_zero; lia).
Qed.

Lemma backoff_enforced_witness :
  let '(d, l1) := RecordFailure (NewAuthLimiter second) (bs "10.0.0.1") 5 in
  d = second
  ∧ (∀ ops now, Forall (in_window (bs "10.0.0.1") 5 (5 + d)) ops → 5 <= now < 5 + d →
       (Allow (foldl run_lop l1 ops) (bs "10.0.0.1") now).1 = false)
  ∧ (Allow l1 (bs "10.0.0.1") (5 + d)).1 = true.
Proof.
  apply (backoff_enforced second (NewAuthLimiter second) (bs "10.0.0.1") 5); [|lia].
  apply NewAuthLimiter_ok. vm_compute. done.
Defined.

(** ** Guarantees of the controller *)

(** The capacity probed from the host is always between 32 and 10000,
    whatever the descriptor limit, the cgroup files and the memory figures are. *)
Theorem probeEnvironment_bounds h : 32 <= probeEnvironment h <= 10000.
Proof.
  unfold probeEnvironment. cbn zeta.
  match goal with |- context [MaxConcurrentConnections <? ?c] => generalize c; intros cap end.
  unfold MinConcurrentConnections, MaxConcurrentConnections.
  destruct (cap <? 32) eqn:E1; [lia|]. destruct (10000 <? cap) eqn:E2; zbool; lia.
Qed.

(** An unlimited number of descriptors (2^64 - 1) is read as -1 and yields the
    minimum. *)
Example unlimited_descriptors :
  probeEnvironment (mkHost (Some (2 ^ 64 - 1)) (Some (bs "max")) None (2 ^ 40)) = 32.
Proof. vm_compute. reflexivity. Qed.

Lemma UpdateMetrics_limit c cpu mem :
  1 <= capacity c → let l := currentLimit (UpdateMetrics c cpu mem) in
  1 <= l <= capacity c ∧ (32 <= capacity c → 32 <= l).
Proof.
  intros Hc. cbn. unfold MinConcurrentConnections. set (lim := if _ || _ then Z.quot (capacity c) 4 else _).
  assert (0 <= lim <= capacity c) as Hl.
  { unfold lim. pose proof (Z.quot_pos (capacity c) 4). pose proof (Z.quot_pos (capacity c) 2).
    pose proof (Z.quot_le_upper_bound (capacity c) 4 (capacity c)). pose proof (Z.quot_le_upper_bound (capacity c) 2 (capacity c)).
    repeat case_match; lia. }
  destruct ((lim <? 32) && (32 <=? capacity c)) eqn:E.
  - apply andb_true_iff in E as [E1 E2]. zbool. rewrite (proj2 (Z.ltb_ge 32 1)) by lia. lia.
  - apply andb_false_iff in E. destruct (lim <? 1) eqn:E1; zbool; destruct E as [E|E]; zbool; lia.
Qed.

Record slots_inv (cap : Z) (s : slots) : Prop := {
  si_cap : capacity (ctl s) = cap;
  si_limit : 1 <= currentLimit (ctl s) <= cap ∧ (32 <= cap → 32 <= currentLimit (ctl s));
  si_sem : sem (ctl s) = Z.of_nat (sent s + holding s) ∧ sem (ctl s) <= cap;
  si_active : active (ctl s) = Z.of_nat (holding s + received s)
}.

Lemma slot_step_inv cap s s' : 1 <= cap → slots_inv cap s → slot_step s s' → slots_inv cap s'.
Proof.
  intros Hcap [H1 H2 H3 H4] Hs.
  destruct Hs as [c t a r h Ht|c t a r h|c c' t a r h Hs|c t a r h|c c' t a r h Hs|c t a r h|c t a r h cpu mem];
    cbn [ctl sent holding received] in *.
  - by split.
  - by split.
  - unfold acquire_send in Hs. destruct (sem c <? capacity c) eqn:E; [|done]. injection Hs as <-. zbool. split; cbn; [lia|done|lia|lia].
  - split; cbn; [done|done|lia|lia].
  - unfold release_recv in Hs. destruct (0 <? sem c) eqn:E; [|done]. injection Hs as <-. zbool. split; cbn; [lia|done|lia|lia].
  - split; cbn; [done|done|lia|lia].
  - pose proof (UpdateMetrics_limit c cpu mem ltac:(lia)) as Hl. rewrite H1 in Hl. by split.
Qed.

(** C38: however the handlers interleave, never more connections hold a slot than
    the capacity; the admission limit stays between one and the capacity, and at
    32 or more when the capacity allows it; a handler that releases always finds
    its token; and once no release is half done, a connection is refused exactly
    when the limit is reached by the connections held. *)
Theorem slots_bounded cap s :
  1 <= cap → rtc slot_step (mkSlots (new_controller cap) 0 0 0 0) s →
  Z.of_nat (sent s + holding s) <= cap
  ∧ 1 <= currentLimit (ctl s) <= cap ∧ (32 <= cap → 32 <= currentLimit (ctl s))
  ∧ ((0 < holding s)%nat → is_Some (release_recv (ctl s)))
  ∧ (received s = 0%nat → acquire_test (ctl s) = true ↔ Z.of_nat (holding s) < currentLimit (ctl s)).
Proof.
  intros Hcap Hr. assert (slots_inv cap s) as [H1 [H2 H3] [H4 H5] H6].
  { assert (slots_inv cap (mkSlots (new_controller cap) 0 0 0 0)) as H0 by (split; cbn; lia).
    induction Hr as [|s0 s1 s2 Hs _ IH]; [done|]. by eapply IH, slot_step_inv. }
  split_and!; [lia|lia|lia|done| |].
  - intros Hh. unfold release_recv. rewrite (proj2 (Z.ltb_lt 0 _)) by lia. eauto.
  - intros Hz. unfold acquire_test. rewrite negb_true_iff, Z.leb_gt. lia.
Qed.

Lemma slots_bounded_witness :
  let s := mkSlots (mkEC 40 40 1 1) 0 0 0 1 in
  Z.of_nat (sent s + holding s) <= 40
  ∧ 1 <= currentLimit (ctl s) <= 40 ∧ (32 <= 40 → 32 <= currentLimit (ctl s))
  ∧ ((0 < holding s)%nat → is_Some (release_recv (ctl s)))
  ∧ (received s = 0%nat → acquire_test (ctl s) = true ↔ Z.of_nat (holding s) < currentLimit (ctl s)).
Proof.
  apply (slots_bounded 40); [lia|].
  eapply rtc_l; [apply ss_test; reflexivity|]. eapply rtc_l; [eapply ss_send; reflexivity|].
  eapply rtc_l; [apply ss_count|apply rtc_refl].
Defined.
