(* ===== verification/Durability.v ===== *)
(** * Write durability (src/src/storage/durability.go)

    The barriers a store crosses before it acknowledges a write.  The group
    commit batches directory syncs between goroutines: [commit_step] interleaves
    their atomic parts (recording a digest, draining the batch, one directory
    sync), and [durable] is what has been synced since the digest was renamed
    into place. *)
From S2P Require Import Prelude.
Open Scope Z_scope.

(** ** Modes *)
Inductive DurabilityMode := DurabilityFSync | DurabilityGroupCommit | DurabilityNone.

Definition DurabilityNameFSync : bytes := bs "fsync".
Definition DurabilityNameGroupCommit : bytes := bs "group-commit".
Definition DurabilityNameNone : bytes := bs "none".

Definition mode_String (m : DurabilityMode) : bytes :=
  match m with
  | DurabilityFSync => DurabilityNameFSync
  | DurabilityGroupCommit => DurabilityNameGroupCommit
  | DurabilityNone => DurabilityNameNone
  end.

Definition ParseDurabilityMode (s : bytes) : result DurabilityMode :=
  if decide (s = []) then Ok DurabilityFSync
  else if decide (s = DurabilityNameFSync) then Ok DurabilityFSync
  else if decide (s = DurabilityNameGroupCommit) then Ok DurabilityGroupCommit
  else if decide (s = DurabilityNameNone) then Ok DurabilityNone
  else Err (Errno EINVAL).

(** The names of the durability modes parse back to the modes, and nothing
    else but the empty name, the durable default, parses. *)
Theorem DurabilityMode_roundtrip s m :
  ParseDurabilityMode s = Ok m ↔ s = mode_String m ∨ s = [] ∧ m = DurabilityFSync.
Proof.
  unfold ParseDurabilityMode. repeat case_decide; subst; destruct m; cbn; split; intros; destruct_or?; destruct_and?; try done; naive_solver.
Qed.

(** ** The simple barriers *)

(** [syncBlob] is the backend's [SyncBlob], if it has one; [D] is what it works on. *)
Definition fsync_Commit {D : Type} (syncBlob : option (D → bytes → result unit * D)) (disk : D) (hash : bytes) : result unit * D :=
  match syncBlob with None => (Ok tt, disk) | Some f => f disk hash end.
Definition none_Commit {D : Type} (disk : D) (hash : bytes) : result unit * D := (Ok tt, disk).

(** ** Group commit *)
Record groupCommitBarrier := mkGC { pending : gset bytes; flushing : bool }.
Definition newGroupCommitBarrier : groupCommitBarrier := mkGC ∅ false.

Definition record (g : groupCommitBarrier) (hash : bytes) : bool * groupCommitBarrier :=
  (negb (flushing g), mkGC ({[ hash ]} ∪ pending g) true).
Definition drain (g : groupCommitBarrier) : gset bytes * groupCommitBarrier := (pending g, mkGC ∅ false).

(** [Commit] when no other goroutine is inside it: the caller wins and syncs the
    directories of the batch. *)
Fixpoint sync_batch {D : Type} (syncDir : D → bytes → result unit * D) (batch : list bytes) (disk : D) : result unit * D :=
  match batch with
  | [] => (Ok tt, disk)
  | h :: rest => match syncDir disk h with
                 | (Err e, disk) => (Err e, disk)
                 | (Ok _, disk) => sync_batch syncDir rest disk
                 end
  end.
Definition group_Commit {D : Type} (syncDir : option (D → bytes → result unit * D)) (g : groupCommitBarrier) (disk : D) (hash : bytes)
    : result unit * (groupCommitBarrier * D) :=
  match syncDir with
  | None => (Ok tt, (g, disk))
  | Some f =>
      let '(winner, g) := record g hash in
      if winner : bool then
        let '(batch, g) := drain g in
        let '(r, disk) := sync_batch f (elements batch) disk in (r, (g, disk))
      else (Ok tt, (g, disk))
  end.

(** Where a goroutine in [Commit] is. *)
Inductive committer :=
  | Won (hash : bytes)                               (* recorded, about to drain *)
  | Flushing (hash : bytes) (todo : list bytes)      (* in the sync loop *)
  | Returned (hash : bytes) (r : result unit).

Record commits := mkC { barrier : groupCommitBarrier; threads : gmap nat committer; durable : gset bytes }.

(** [ops.SyncDir] of a batch, in the order the map yields. *)
Inductive commit_step : commits → commits → Prop :=
  | cs_record b ts d tid hash won b' :
      ts !! tid = None → record b hash = (won, b') →
      commit_step (mkC b ts d) (mkC b' (<[tid := if won : bool then Won hash else Returned hash (Ok tt)]> ts) d)
  | cs_drain b ts d tid hash batch b' todo :
      ts !! tid = Some (Won hash) → drain b = (batch, b') → todo ≡ₚ elements batch →
      commit_step (mkC b ts d) (mkC b' (<[tid := Flushing hash todo]> ts) d)
  | cs_sync b ts d tid hash h todo :
      ts !! tid = Some (Flushing hash (h :: todo)) →
      commit_step (mkC b ts d) (mkC b (<[tid := Flushing hash todo]> ts) ({[ h ]} ∪ d))
  | cs_fail b ts d tid hash h todo e :
      ts !! tid = Some (Flushing hash (h :: todo)) →
      commit_step (mkC b ts d) (mkC b (<[tid := Returned hash (Err e)]> ts) d)
  | cs_done b ts d tid hash :
      ts !! tid = Some (Flushing hash []) →
      commit_step (mkC b ts d) (mkC b (<[tid := Returned hash (Ok tt)]> ts) d).

Definition commits0 : commits := mkC newGroupCommitBarrier ∅ ∅.

Definition failed (ts : gmap nat committer) : Prop := ∃ tid h e, ts !! tid = Some (Returned h (Err e)).
Definition in_flight (ts : gmap nat committer) (h : bytes) : Prop :=
  ∃ tid h' todo, ts !! tid = Some (Flushing h' todo) ∧ h ∈ todo.

(** A digest is taken care of: synced, in a batch being synced, in the batch a
    winner is about to drain, or its sync has failed in front of someone. *)
Definition covered (c : commits) (h : bytes) : Prop :=
  h ∈ durable c ∨ in_flight (threads c) h ∨ h ∈ pending (barrier c) ∨ failed (threads c).

Definition hash_of (t : committer) : option bytes :=
  match t with Won h => Some h | Flushing h _ => Some h | Returned h (Ok _) => Some h | Returned _ (Err _) => None end.

Record commit_inv (c : commits) : Prop := {
  ci_covered : ∀ tid t h, threads c !! tid = Some t → hash_of t = Some h → covered c h;
  ci_winner : pending (barrier c) ≠ ∅ → ∃ tid h, threads c !! tid = Some (Won h);
  ci_flag : flushing (barrier c) = true ↔ ∃ tid h, threads c !! tid = Some (Won h);
  ci_one : ∀ tid tid' h h', threads c !! tid = Some (Won h) → threads c !! tid' = Some (Won h') → tid = tid'
}.

(** ** Lemmas *)
Lemma in_flight_insert ts tid t h :
  in_flight ts h → (∀ h' todo, ts !! tid = Some (Flushing h' todo) → h ∉ todo) → in_flight (<[tid := t]> ts) h.
Proof.
  intros (tid' & h' & todo & Ht & Hh) Hn. exists tid', h', todo. split; [|done].
  rewrite lookup_insert_ne; [done|]. intros <-. by eapply Hn.
Qed.

Lemma failed_insert ts tid t : failed ts → (∀ h e, ts !! tid ≠ Some (Returned h (Err e))) → failed (<[tid := t]> ts).
Proof. intros (tid' & h & e & Ht) Hn. exists tid', h, e. rewrite lookup_insert_ne; [done|]. intros <-. by eapply Hn. Qed.

Lemma covered_mono c c' h : commit_step c c' → covered c h → covered c' h.
Proof.
  intros Hs Hc. unfold covered in *. destruct Hs as [b ts d tid hash won b' Hf Hr|b ts d tid hash batch b' todo Ht Hd Hp
    |b ts d tid hash x todo Ht|b ts d tid hash x todo e Ht|b ts d tid hash Ht]; cbn [durable threads barrier] in *.
  - injection Hr as <- <-. cbn [pending]. destruct Hc as [?|[?|[?|?]]]; [by left|right; left|right; right; left; set_solver|].
    + apply in_flight_insert; [done|]. intros ??. by rewrite Hf.
    + do 3 right. apply failed_insert; [done|]. intros ??. by rewrite Hf.
  - injection Hd as <- <-. destruct Hc as [?|[?|[?|?]]]; [by left|right; left|right; left|].
    + apply in_flight_insert; [done|]. intros ??. by rewrite Ht.
    + exists tid, hash, todo. rewrite lookup_insert_eq. split; [done|]. rewrite Hp. by apply elem_of_elements.
    + do 3 right. apply failed_insert; [done|]. intros ??. by rewrite Ht.
  - destruct Hc as [?|[(tid' & h' & todo' & Ht' & Hh)|[?|?]]]; [left; set_solver| |by do 2 right; left|].
    + destruct (decide (tid' = tid)) as [->|Hne].
      * rewrite Ht in Ht'. injection Ht' as <- <-. apply elem_of_cons in Hh as [->|Hh]; [left; set_solver|].
        right. left. exists tid, hash, todo. by rewrite lookup_insert_eq.
      * right. left. exists tid', h', todo'. by rewrite lookup_insert_ne.
    + do 3 right. apply failed_insert; [done|]. intros ??. by rewrite Ht.
  - do 3 right. exists tid, hash, e. by rewrite lookup_insert_eq.
  - destruct Hc as [?|[?|[?|?]]]; [by left|right; left|by do 2 right; left|].
    + apply in_flight_insert; [done|]. intros ??. rewrite Ht. intros [= _ <-]. by apply not_elem_of_nil.
    + do 3 right. apply failed_insert; [done|]. intros ??. by rewrite Ht.
Qed.

(** The winner clause after a thread that is not the winner moves on. *)
Lemma winner_insert (ts : gmap nat committer) tid t :
  (∀ h, ts !! tid ≠ Some (Won h)) → (∀ h, t ≠ Won h) →
  (∃ tid' h, <[tid := t]> ts !! tid' = Some (Won h)) ↔ ∃ tid' h, ts !! tid' = Some (Won h).
Proof.
  intros H1 H2. split; intros (tid' & h & Ht').
  - apply lookup_insert_Some in Ht' as [[<- E]|[_ Ht']]; [by destruct (H2 h)|eauto].
  - exists tid', h. rewrite lookup_insert_ne; [done|]. intros <-. by destruct (H1 h).
Qed.

Lemma one_insert (ts : gmap nat committer) tid t :
  (∀ h, t ≠ Won h) → (∀ t1 t2 h1 h2, ts !! t1 = Some (Won h1) → ts !! t2 = Some (Won h2) → t1 = t2) →
  ∀ t1 t2 h1 h2, <[tid := t]> ts !! t1 = Some (Won h1) → <[tid := t]> ts !! t2 = Some (Won h2) → t1 = t2.
Proof.
  intros Ht Ho t1 t2 h1 h2 [[<- E]|[_ E1]]%lookup_insert_Some [[<- E']|[_ E2]]%lookup_insert_Some;
    try (by destruct (Ht h1)); try (by destruct (Ht h2)). by eapply Ho.
Qed.

(** A thread that is not the winner moves on and the barrier does not change. *)
Lemma commit_move b ts d d' tid t0 t :
  commit_inv (mkC b ts d) → ts !! tid = Some t0 → (∀ h, t0 ≠ Won h) → (∀ h, t ≠ Won h) →
  hash_of t = hash_of t0 ∨ hash_of t = None →
  (∀ h, covered (mkC b ts d) h → covered (mkC b (<[tid := t]> ts) d') h) →
  commit_inv (mkC b (<[tid := t]> ts) d').
Proof.
  intros [H1 H2 H3 H4] Ht Hw0 Hw Hh Hc.
  assert (∀ h, ts !! tid ≠ Some (Won h)) as Hn by (intros h E; rewrite Ht in E; injection E as E; exact (Hw0 h E)).
  split; cbn [threads barrier] in *.
  - intros tid' t' h [[<- <-]|[_ E]]%lookup_insert_Some E'; [|eapply Hc, H1; eauto].
    eapply Hc, H1; [exact Ht|]. destruct Hh; congruence.
  - rewrite winner_insert by done. done.
  - rewrite winner_insert by done. done.
  - by apply one_insert.
Qed.

Lemma commit_step_inv c c' : commit_inv c → commit_step c c' → commit_inv c'.
Proof.
  intros [H1 H2 H3 H4] Hs.
  assert (∀ tid t h, threads c !! tid = Some t → hash_of t = Some h → covered c' h) as Hcov
    by (intros tid t h Ht Hh; eapply covered_mono; [exact Hs|by eapply H1]).
  destruct Hs as [b ts d tid hash won b' Hf Hr|b ts d tid hash batch b' todo Ht Hd Hp
    |b ts d tid hash x todo Ht|b ts d tid hash x todo e Ht|b ts d tid hash Ht]; cbn [durable threads barrier] in *.
  - injection Hr as <- <-. destruct (flushing b) eqn:Ef; cbn [negb].
    + assert (∃ tid h, ts !! tid = Some (Won h)) as Hw by by apply H3.
      split; cbn [threads barrier pending flushing].
      * intros tid' t h [[<- <-]|[_ ?]]%lookup_insert_Some Hh; [|by eapply Hcov]. injection Hh as ->. right; right; left. set_solver.
      * intros _. apply winner_insert; [by rewrite Hf|done|done].
      * split; [|done]. intros _. apply winner_insert; [by rewrite Hf|done|done].
      * by apply one_insert.
    + assert (¬ ∃ tid h, ts !! tid = Some (Won h)) as Hw by (intros ?%H3; done).
      split; cbn [threads barrier pending flushing].
      * intros tid' t h [[<- <-]|[_ ?]]%lookup_insert_Some Hh; [|by eapply Hcov]. injection Hh as ->. right; right; left. set_solver.
      * intros _. exists tid, hash. by rewrite lookup_insert_eq.
      * split; [|done]. intros _. exists tid, hash. by rewrite lookup_insert_eq.
      * intros t1 t2 h1 h2 [[<- ?]|[_ ?]]%lookup_insert_Some [[<- ?]|[_ ?]]%lookup_insert_Some; [done| | |]; exfalso; apply Hw; eauto.
  - injection Hd as <- <-. assert (∀ tid' h, <[tid := Flushing hash todo]> ts !! tid' ≠ Some (Won h)) as Hw.
    { intros tid' h [[_ [=]]|[Hne E]]%lookup_insert_Some. by apply Hne, (H4 _ _ _ _ Ht E). }
    split; cbn [threads barrier pending flushing]; [|done| |].
    + intros tid' t h [[<- <-]|[_ ?]]%lookup_insert_Some Hh; [|by eapply Hcov]. eapply Hcov; [exact Ht|done].
    + split; [done|]. intros (tid' & h & E). by destruct (Hw _ _ E).
    + intros t1 t2 h1 h2 E. by destruct (Hw _ _ E).
  - eapply commit_move; [by split|done|done|done|by left|]. intros h. by apply covered_mono, cs_sync.
  - eapply commit_move; [by split|done|done|done|by right|]. intros h. by eapply covered_mono, cs_fail.
  - eapply commit_move; [by split|done|done|done|by left|]. intros h. by apply covered_mono, cs_done.
Qed.

Lemma commits0_inv : commit_inv commits0.
Proof.
  split; cbn; [intros ???|done|split; [done|]; intros (? & ? & H)|intros ????]; try (by rewrite lookup_empty).
  by rewrite lookup_empty in H.
Qed.

Lemma commits_inv c : rtc commit_step commits0 c → commit_inv c.
Proof.
  intros Hr. pose proof commits0_inv as H0. induction Hr as [|c0 c1 c2 Hs _ IH]; [done|]. by eapply IH, commit_step_inv.
Qed.

(** ** Guarantees *)

(** No acknowledged write is forgotten by the group commit: in every
    interleaving, a digest whose [Commit] returned success is already synced, or
    in the batch some goroutine is syncing or about to drain, unless a sync has
    failed in front of some caller; and when no goroutine is inside [Commit] and
    none has failed, every acknowledged digest is synced. *)
Theorem group_commit_covers c tid h :
  rtc commit_step commits0 c → threads c !! tid = Some (Returned h (Ok tt)) →
  covered c h
  ∧ ((∀ tid' t, threads c !! tid' = Some t → ∃ h', t = Returned h' (Ok tt)) → h ∈ durable c).
Proof.
  intros Hr Ht. destruct (commits_inv c Hr) as [H1 H2 _ _]. pose proof (H1 _ _ _ Ht eq_refl) as Hc. split; [done|].
  intros Hq. destruct Hc as [?|[(t' & h' & todo & E & _)|[Hp|(t' & h' & e & E)]]]; [done| | |].
  - by apply Hq in E as [? [=]].
  - destruct H2 as (t' & h' & E); [set_solver|]. by apply Hq in E as [? [=]].
  - by apply Hq in E as [? [=]].
Qed.

(** Two writers: the second finds the first about to drain and returns at once,
    before anything has been synced. *)
Definition early : commits :=
  mkC (mkGC {[ bs "b"; bs "a" ]} true) (<[2%nat := Returned (bs "b") (Ok tt)]> (<[1%nat := Won (bs "a")]> ∅)) ∅.

Lemma early_reachable : rtc commit_step commits0 early.
Proof.
  eapply rtc_l; [apply (cs_record _ _ _ 1%nat (bs "a") true (mkGC ({[ bs "a" ]} ∪ ∅) true)); reflexivity|].
  eapply rtc_l; [apply (cs_record _ _ _ 2%nat (bs "b") false (mkGC ({[ bs "b" ]} ∪ ({[ bs "a" ]} ∪ ∅)) true)); reflexivity|].
  replace ({[bs "b"]} ∪ ({[bs "a"]} ∪ ∅) : gset bytes) with ({[ bs "b"; bs "a" ]} : gset bytes) by (by rewrite (right_id_L ∅ (∪))).
  apply rtc_refl.
Qed.

(** The group commit acknowledges too early: a reachable state has a [Commit]
    that returned success for a digest of which nothing has been synced, so a
    crash at that point loses an acknowledged write. *)
Theorem group_commit_acks_early :
  ∃ c tid h, rtc commit_step commits0 c ∧ threads c !! tid = Some (Returned h (Ok tt)) ∧ h ∉ durable c.
Proof. exists early, 2%nat, (bs "b"). split; [exact early_reachable|]. split; [reflexivity|set_solver]. Qed.

Lemma group_commit_covers_witness :
  covered early (bs "b")
  ∧ ((∀ tid' t, threads early !! tid' = Some t → ∃ h', t = Returned h' (Ok tt)) → bs "b" ∈ durable early).
Proof. apply (group_commit_covers early 2 (bs "b")); [exact early_reachable|reflexivity]. Defined.
