(* ===== verification/Keys.v ===== *)
(** * Key registry and rotation (src/src/common/keyregistry.go, rotation.go, secrets.go)

    The registry is a bucket of JSON documents, one per key version.  A key's
    identifier is made of two readings of the clock, which are arguments; random
    bytes and the secret sources are arguments too.  Change hooks are callbacks
    that are only notified. *)
From S2P Require Import Prelude GoText Hashes Json Paths.
Open Scope Z_scope.

(** ** Data *)
Inductive KeyStatus := KeyStatusActive | KeyStatusRetired | KeyStatusCompromised | KeyStatusPendingRotation.

#[export] Instance KeyStatus_eq_dec : EqDecision KeyStatus.
Proof. solve_decision. Defined.

Record KeyEntry := mkKey {
  KeyID : bytes;
  Purpose : bytes;
  KVersion : Z;
  Material : bytes;
  Algorithm : bytes;
  KStatus : KeyStatus;
  CreatedAt : Z;
  RotatedAt : option Z;
  KTenantID : bytes;
  OPRFShareIndex : Z
}.

Notation registry := (bucket (stored KeyEntry)).

Definition set_status (st : KeyStatus) (rotated : option Z) (e : KeyEntry) : KeyEntry :=
  mkKey (KeyID e) (Purpose e) (KVersion e) (Material e) (Algorithm e) st (CreatedAt e) rotated (KTenantID e) (OPRFShareIndex e).

(** What [json.Unmarshal] gives back for an entry that was marshalled. *)
Definition key_doc (e : KeyEntry) : stored KeyEntry :=
  Doc (mkKey (json_valid (KeyID e)) (json_valid (Purpose e)) (KVersion e) (Material e) (json_valid (Algorithm e)) (KStatus e)
         (CreatedAt e) (RotatedAt e) (json_valid (KTenantID e)) (OPRFShareIndex e)).

(** ** The registry *)
Definition newKeyID (now now' : Z) : bytes :=
  bs "key-" ++ append_int now ++ bs "-" ++ append_int (Z.rem now' 1000).

(** The [ForEach] loops skip values that do not unmarshal. *)
Fixpoint docs (l : list (bytes * stored KeyEntry)) : list KeyEntry :=
  match l with
  | [] => []
  | (_, Doc e) :: rest => e :: docs rest
  | (_, Corrupt) :: rest => docs rest
  end.

Definition max_version (purpose : bytes) (acc : Z) (e : KeyEntry) : Z :=
  if bool_decide (Purpose e = purpose) && (acc <? KVersion e) then KVersion e else acc.
Definition nextVersion (kr : registry) (purpose : bytes) : Z :=
  int64 (foldl (max_version purpose) 0 (docs (cursor kr)) + 1).

(** [StoreKey]: the tenant and the share index it is given are not stored. *)
Definition StoreKey (kr : registry) (purpose material algorithm tenantID : bytes) (status : KeyStatus) (oprfShareIndex : Z)
    (keyID : bytes) (now : Z) : result bytes * registry :=
  match material, purpose with
  | [], _ => (Err (Errno EINVAL), kr)
  | _, [] => (Err (Errno EINVAL), kr)
  | _, _ =>
      let entry := mkKey keyID purpose (nextVersion kr purpose) material algorithm status now None [] 0 in
      (Ok keyID, <[keyID := key_doc entry]> kr)
  end.

(** [GetActiveKey]: the last active entry in key order. *)
Definition active_step (purpose : bytes) (acc : option KeyEntry) (e : KeyEntry) : option KeyEntry :=
  if bool_decide (Purpose e = purpose ∧ KTenantID e = [] ∧ KStatus e = KeyStatusActive) then Some e else acc.
Definition GetActiveKey (kr : registry) (purpose : bytes) : option (bytes * bytes) :=
  (λ e, (KeyID e, Material e)) <$> foldl (active_step purpose) None (docs (cursor kr)).

Definition GetKey (kr : registry) (keyID : bytes) : option KeyEntry :=
  match kr !! keyID with Some (Doc e) => Some e | _ => None end.

Definition mark (st : KeyStatus) (kr : registry) (keyID : bytes) (now : Z) : result unit * registry :=
  match kr !! keyID with
  | None => (Err (Errno ENOENT), kr)
  | Some Corrupt => (Err ErrPlain, kr)
  | Some (Doc e) => (Ok tt, <[keyID := key_doc (set_status st (Some now) e)]> kr)
  end.
Definition MarkRetired : registry → bytes → Z → result unit * registry := mark KeyStatusRetired.
Definition MarkCompromised : registry → bytes → Z → result unit * registry := mark KeyStatusCompromised.

(** The demotion of the cursor loop of [SetActive]. *)
Definition demote_key (purpose keyID : bytes) (now : Z) (k : bytes) (v : stored KeyEntry) : stored KeyEntry :=
  match v with
  | Corrupt => Corrupt
  | Doc e => if bool_decide (Purpose e = purpose ∧ KStatus e = KeyStatusActive ∧ k ≠ keyID)
             then key_doc (set_status KeyStatusRetired (Some now) e) else Doc e
  end.

Definition SetActive (kr : registry) (keyID : bytes) (now : Z) : result unit * registry :=
  match kr !! keyID with
  | None => (Err (Errno ENOENT), kr)
  | Some Corrupt => (Err ErrPlain, kr)
  | Some (Doc target) =>
      let kr := map_imap (λ k v, Some (demote_key (Purpose target) keyID now k v)) kr in
      (Ok tt, <[keyID := key_doc (set_status KeyStatusActive None target)]> kr)
  end.

Definition ListKeyVersions (kr : registry) (purpose : bytes) : list KeyEntry :=
  filter (λ e, Purpose e = purpose) (docs (cursor kr)).

(** ** Secret sources *)

(** A [SecretProvider]: a lookup gives a value, nothing ("try the next source") or an
    error; [Reload] refreshes it. *)
Record SecretProvider := mkProvider {
  GetSecret : bytes → result (option bytes);
  ProviderReload : result unit
}.

Fixpoint chain_GetSecret (providers : list SecretProvider) (name : bytes) : result (option bytes) :=
  match providers with
  | [] => Ok None
  | p :: rest => let! v := GetSecret p name in
                 match v with Some val => Ok (Some val) | None => chain_GetSecret rest name end
  end.

Fixpoint chain_Reload (providers : list SecretProvider) : result unit :=
  match providers with
  | [] => Ok tt
  | p :: rest => let! _ := ProviderReload p in chain_Reload rest
  end.

(** [ProviderChain] is itself a [SecretProvider]. *)
Definition ProviderChain (providers : list SecretProvider) : SecretProvider :=
  mkProvider (chain_GetSecret providers) (chain_Reload providers).

(** ** Rotation *)
Definition rotationPurposes : list bytes := [bs "encryption"; bs "auth"; bs "e2ee"; bs "oprf"].

Definition oprf_placeholder : bytes := bs "oprf-share-placeholder".

Definition generateKeyForPurpose (purpose : bytes) (rand : result bytes) : result bytes :=
  if bool_decide (purpose = bs "encryption" ∨ purpose = bs "auth" ∨ purpose = bs "e2ee") then rand
  else if bool_decide (purpose = bs "oprf") then Ok oprf_placeholder
  else Err ErrPlain.

Definition Rotate (kr : registry) (purpose : bytes) (rand : result bytes) (keyID : bytes) (now : Z)
    : result unit * registry :=
  match generateKeyForPurpose purpose rand with
  | Err e => (Err e, kr)
  | Ok material =>
      match StoreKey kr purpose material (bs "AES-256-GCM") [] KeyStatusPendingRotation 0 keyID now with
      | (Err e, kr) => (Err e, kr)
      | (Ok newKeyID, kr) => SetActive kr newKeyID now
      end
  end.

(** One purpose of [RotateAll]: the random bytes, the identifier and the clock it
    gets; a failure is logged and the next purpose follows. *)
Definition rotate_next (kr : registry) (x : bytes * result bytes * bytes * Z) : registry :=
  let '(purpose, rand, keyID, now) := x in (Rotate kr purpose rand keyID now).2.
Definition RotateAll (kr : registry) (inputs : list (result bytes * bytes * Z)) : registry :=
  foldl rotate_next kr (zip_with (λ p x, let '(r, k, n) := x in (p, r, k, n)) rotationPurposes inputs).

Definition secret_name (purpose : bytes) : bytes :=
  if bool_decide (purpose = bs "auth") then bs "auth_token"
  else if bool_decide (purpose = bs "e2ee") then bs "e2ee_key"
  else if bool_decide (purpose = bs "oprf") then bs "oprf_share"
  else purpose ++ bs "_key".

(** One purpose of [Reload]: a failure is logged and the next purpose follows. *)
Definition reload_one (p : SecretProvider) (kr : registry) (x : bytes * bytes * Z) : registry :=
  let '(purpose, keyID, now) := x in
  match GetSecret p (secret_name purpose) with
  | Ok (Some val) =>
      match (if (length val =? 64)%nat then hex_decode val else Some val) with
      | None => kr
      | Some material => (StoreKey kr purpose material (bs "AES-256-GCM") [] KeyStatusActive 0 keyID now).2
      end
  | _ => kr
  end.
Definition Reload (p : SecretProvider) (kr : registry) (inputs : list (bytes * Z)) : result unit * registry :=
  match ProviderReload p with
  | Err e => (Err e, kr)
  | Ok _ => (Ok tt, foldl (reload_one p) kr (zip_with (λ pu x, (pu, x.1, x.2)) rotationPurposes inputs))
  end.

(** ** Well-formed registries *)

(** An entry sits under its own identifier, is global, and its text is UTF-8. *)
Definition entry_wf (k : bytes) (e : KeyEntry) : Prop :=
  KeyID e = k ∧ KTenantID e = [] ∧ utf8 (KeyID e) ∧ utf8 (Purpose e) ∧ utf8 (Algorithm e).
Definition registry_wf (kr : registry) : Prop := ∀ k e, kr !! k = Some (Doc e) → entry_wf k e.

(** An active key of a purpose. *)
Definition is_active (purpose : bytes) (e : KeyEntry) : Prop := Purpose e = purpose ∧ KTenantID e = [] ∧ KStatus e = KeyStatusActive.
#[export] Instance is_active_dec purpose e : Decision (is_active purpose e).
Proof. unfold is_active. apply _. Defined.

(** What decryption needs of a key: everything but its status. *)
Definition same_key (e e' : KeyEntry) : Prop :=
  KeyID e' = KeyID e ∧ Purpose e' = Purpose e ∧ KVersion e' = KVersion e ∧ Material e' = Material e ∧ Algorithm e' = Algorithm e.

#[export] Instance same_key_preorder : PreOrder same_key.
Proof. split; [intros e; repeat split|]. intros a b c (?&?&?&?&?) (?&?&?&?&?). split_and!; congruence. Qed.

(** ** Lemmas *)
Lemma elem_of_docs (e : KeyEntry) l : e ∈ docs l ↔ ∃ k, (k, Doc e) ∈ l.
Proof.
  induction l as [|[k [e'|]] l IH]; cbn [docs].
  - split; [by intros H%elem_of_nil|by intros [? H%elem_of_nil]].
  - rewrite elem_of_cons, IH. setoid_rewrite elem_of_cons. naive_solver.
  - rewrite IH. setoid_rewrite elem_of_cons. naive_solver.
Qed.

Lemma elem_of_registry (kr : registry) e : e ∈ docs (cursor kr) ↔ ∃ k, kr !! k = Some (Doc e).
Proof. rewrite elem_of_docs. by setoid_rewrite elem_of_cursor. Qed.

Lemma active_fold purpose l acc :
  foldl (active_step purpose) acc l = match last (filter (is_active purpose) l) with Some e => Some e | None => acc end.
Proof.
  induction l as [|e l IH] using rev_ind; [done|]. rewrite foldl_app, IH. cbn [foldl]. unfold active_step.
  rewrite filter_app, filter_cons, filter_nil. change (_ ∧ _ ∧ _) with (is_active purpose e).
  case_bool_decide; case_decide; try done; [by rewrite last_snoc|by rewrite app_nil_r].
Qed.

(** [GetActiveKey] finds a key exactly when one is active, and gives an active one. *)
Lemma GetActiveKey_spec (kr : registry) purpose :
  match GetActiveKey kr purpose with
  | Some (id, m) => ∃ k e, kr !! k = Some (Doc e) ∧ is_active purpose e ∧ KeyID e = id ∧ Material e = m
  | None => ∀ k e, kr !! k = Some (Doc e) → ¬ is_active purpose e
  end.
Proof.
  unfold GetActiveKey. rewrite active_fold. destruct (last _) as [e|] eqn:E; cbn [fmap option_fmap option_map].
  - apply last_Some_elem_of, list_elem_of_filter in E as [Ha (k & Hk)%elem_of_registry]. by exists k, e.
  - intros k e Hk Ha. apply last_None in E.
    assert (e ∈ filter (is_active purpose) (docs (cursor kr))) as H by (apply list_elem_of_filter; split; [done|apply elem_of_registry; eauto]).
    rewrite E in H. by apply elem_of_nil in H.
Qed.

Lemma key_doc_wf k e : entry_wf k e → key_doc e = Doc e.
Proof. intros (? & Ht & ? & ? & ?). unfold key_doc. rewrite Ht, !json_valid_id by done. destruct e. cbn [KTenantID] in Ht. by subst. Qed.

Lemma set_status_wf k st r e : entry_wf k e → entry_wf k (set_status st r e).
Proof. done. Qed.

Lemma set_status_same st r e : same_key e (set_status st r e).
Proof. by destruct e. Qed.

(** ** What each operation does to the entries *)

(** Every key of [kr] is still in [kr'], with everything decryption needs. *)
Definition keeps (kr kr' : registry) : Prop :=
  ∀ k e, kr !! k = Some (Doc e) → ∃ e', kr' !! k = Some (Doc e') ∧ same_key e e'.

#[export] Instance keeps_preorder : PreOrder keeps.
Proof.
  split.
  - intros kr k e H. exists e. by split.
  - intros a b c H1 H2 k e (e' & (e'' & H & S2)%H2 & S1)%H1. exists e''. split; [done|]. by transitivity e'.
Qed.

Lemma StoreKey_wf kr purpose material algorithm tenant status share keyID now r kr' :
  registry_wf kr → utf8 purpose → utf8 algorithm → utf8 keyID → kr !! keyID = None →
  StoreKey kr purpose material algorithm tenant status share keyID now = (r, kr') →
  registry_wf kr' ∧ keeps kr kr' ∧
  (r = Ok keyID ∧ kr' = <[keyID := Doc (mkKey keyID purpose (nextVersion kr purpose) material algorithm status now None [] 0)]> kr
   ∨ r = Err (Errno EINVAL) ∧ kr' = kr ∧ (material = [] ∨ purpose = [])).
Proof.
  intros Hw Hp Ha Hk Hf. unfold StoreKey.
  destruct material as [|m ms] eqn:Em; [intros [= <- <-]; split_and!; [done|reflexivity|auto]|].
  destruct purpose as [|p ps] eqn:Ep; [intros [= <- <-]; split_and!; [done|reflexivity|auto]|].
  rewrite <- Em, <- Ep in *. clear Em Ep.
  set (e := mkKey keyID purpose (nextVersion kr purpose) material algorithm status now None [] 0).
  assert (entry_wf keyID e) as He by done. rewrite (key_doc_wf _ _ He). intros [= <- <-]. split_and!; [| |auto].
  - intros k e'. destruct (decide (k = keyID)) as [->|Hne].
    + rewrite lookup_insert_eq. by intros [= <-].
    + rewrite lookup_insert_ne by done. apply Hw.
  - intros k e' H. assert (keyID ≠ k) by congruence. exists e'. rewrite lookup_insert_ne by done. by split.
Qed.

Lemma mark_wf st kr keyID now r kr' :
  registry_wf kr → mark st kr keyID now = (r, kr') → registry_wf kr' ∧ keeps kr kr'.
Proof.
  intros Hw. unfold mark. destruct (kr !! keyID) as [[e|]|] eqn:E; intros [= <- <-]; try (split; [done|reflexivity]).
  pose proof (Hw _ _ E) as He. rewrite (key_doc_wf keyID) by by apply set_status_wf. split.
  - intros k e'. destruct (decide (k = keyID)) as [->|Hne].
    + rewrite lookup_insert_eq. intros [= <-]. by apply set_status_wf.
    + rewrite lookup_insert_ne by done. apply Hw.
  - intros k e' H. destruct (decide (k = keyID)) as [->|Hne].
    + rewrite lookup_insert_eq. eexists. split; [done|]. rewrite H in E. injection E as ->. apply set_status_same.
    + rewrite lookup_insert_ne by done. exists e'. by split.
Qed.

(** The bucket after [SetActive], entry by entry. *)
Definition activated (purpose keyID : bytes) (now : Z) (k : bytes) (e : KeyEntry) : KeyEntry :=
  if decide (k = keyID) then set_status KeyStatusActive None e
  else if decide (Purpose e = purpose ∧ KStatus e = KeyStatusActive) then set_status KeyStatusRetired (Some now) e else e.

Lemma activated_same purpose keyID now k e : same_key e (activated purpose keyID now k e).
Proof. unfold activated. repeat case_decide; [apply set_status_same..|reflexivity]. Qed.

Lemma activated_wf purpose keyID now k e : entry_wf k e → entry_wf k (activated purpose keyID now k e).
Proof. unfold activated. by repeat case_decide. Qed.

Lemma SetActive_lookup (kr : registry) keyID now target :
  registry_wf kr → kr !! keyID = Some (Doc target) →
  ∃ kr', SetActive kr keyID now = (Ok tt, kr') ∧
    ∀ k, kr' !! k = match kr !! k with
                    | Some (Doc e) => Some (Doc (activated (Purpose target) keyID now k e))
                    | o => o
                    end.
Proof.
  intros Hw Ht. unfold SetActive. rewrite Ht. eexists. split; [reflexivity|]. intros k.
  destruct (decide (k = keyID)) as [->|Hne].
  - rewrite lookup_insert_eq, Ht. unfold activated. rewrite decide_True by done.
    by rewrite (key_doc_wf keyID) by (apply set_status_wf; eauto).
  - rewrite lookup_insert_ne, map_lookup_imap by done. destruct (kr !! k) as [[e|]|] eqn:E; try done.
    cbn [mbind option_bind demote_key]. unfold activated. rewrite (decide_False _ _ Hne).
    case_bool_decide as H; case_decide as H'; try done; [|tauto|tauto].
    by rewrite (key_doc_wf k) by (apply set_status_wf; eauto).
Qed.

Lemma SetActive_wf kr keyID now r kr' :
  registry_wf kr → SetActive kr keyID now = (r, kr') → registry_wf kr' ∧ keeps kr kr'.
Proof.
  intros Hw Hs. destruct (kr !! keyID) as [[target|]|] eqn:E;
    [|unfold SetActive in Hs; rewrite E in Hs; injection Hs as <- <-; split; [done|reflexivity]..].
  destruct (SetActive_lookup _ _ now _ Hw E) as (kr1 & H1 & Hl). rewrite H1 in Hs. injection Hs as <- <-. split.
  - intros k e. rewrite Hl. destruct (kr !! k) as [[e0|]|] eqn:Ek; try done. intros [= <-]. by apply activated_wf, Hw.
  - intros k e H. rewrite Hl, H. eexists. split; [done|]. apply activated_same.
Qed.

(** A successful rotation, entry by entry. *)
Lemma Rotate_cases kr purpose rand keyID now r kr' :
  registry_wf kr → utf8 purpose → utf8 keyID → kr !! keyID = None →
  Rotate kr purpose rand keyID now = (r, kr') →
  registry_wf kr' ∧ keeps kr kr' ∧
  match r with
  | Err _ => kr' = kr
  | Ok _ => ∃ m, generateKeyForPurpose purpose rand = Ok m ∧
      let e := mkKey keyID purpose (nextVersion kr purpose) m (bs "AES-256-GCM") KeyStatusActive now None [] 0 in
      ∀ k, kr' !! k = if decide (k = keyID) then Some (Doc e) else
        match kr !! k with Some (Doc e) => Some (Doc (activated purpose keyID now k e)) | o => o end
  end.
Proof.
  intros Hw Hp Hk Hf. unfold Rotate. destruct (generateKeyForPurpose purpose rand) as [m|] eqn:Eg;
    [|intros [= <- <-]; split_and!; [done|reflexivity|done]].
  destruct (StoreKey _ _ _ _ _ _ _ _ _) as [r1 kr1] eqn:Es.
  assert (utf8 (bs "AES-256-GCM")) as Ha by reflexivity.
  destruct (StoreKey_wf _ _ _ _ _ _ _ _ _ _ _ Hw Hp Ha Hk Hf Es) as (Hw1 & Hk1 & [[-> E1]|(-> & -> & _)]);
    [|intros [= <- <-]; split_and!; [done|reflexivity|done]].
  assert (kr1 !! keyID = Some (Doc (mkKey keyID purpose (nextVersion kr purpose) m (bs "AES-256-GCM") KeyStatusPendingRotation now None [] 0))) as Ht
    by (rewrite E1; apply lookup_insert_eq).
  destruct (SetActive_lookup _ _ now _ Hw1 Ht) as (kr2 & H2 & Hl).
  destruct (SetActive_wf _ _ _ _ _ Hw1 H2) as [Hw2 Hk2]. intros H. rewrite H2 in H. injection H as <- <-.
  split_and!; [done|by transitivity kr1|]. exists m. split; [done|]. intros k. rewrite Hl, E1.
  case_decide as Hd; [subst; rewrite lookup_insert_eq|by rewrite lookup_insert_ne by done].
  unfold activated. by rewrite decide_True by done.
Qed.

(** ** Version numbers *)
Lemma max_version_bounds purpose l acc :
  acc <= foldl (max_version purpose) acc l ∧
  (∀ e, e ∈ l → Purpose e = purpose → KVersion e <= foldl (max_version purpose) acc l) ∧
  (foldl (max_version purpose) acc l = acc ∨ ∃ e, e ∈ l ∧ KVersion e = foldl (max_version purpose) acc l).
Proof.
  revert acc. induction l as [|x l IH]; intros acc; cbn [foldl].
  { split_and!; [lia| |auto]. by intros e He%elem_of_nil. }
  destruct (IH (max_version purpose acc x)) as (H1 & H2 & H3).
  assert (acc <= max_version purpose acc x ∧ (Purpose x = purpose → KVersion x <= max_version purpose acc x) ∧
          (max_version purpose acc x = acc ∨ KVersion x = max_version purpose acc x)) as (B1 & B2 & B3).
  { unfold max_version. case_bool_decide; cbn [andb]; [|split_and!; [lia|tauto|auto]].
    destruct (Z.ltb_spec acc (KVersion x)); split_and!; auto; lia. }
  split_and!; [lia| |].
  - intros e [->|He]%elem_of_cons Hp; [specialize (B2 Hp); lia|by apply H2].
  - destruct H3 as [->|(e & He & Hv)].
    + destruct B3 as [->|B3]; [auto|]. right. exists x. split; [left|done].
    + right. exists e. split; [by right|done].
Qed.

Lemma nextVersion_fresh (kr : registry) purpose :
  (∀ k e, kr !! k = Some (Doc e) → KVersion e < 2 ^ 63 - 1) →
  ∀ k e, kr !! k = Some (Doc e) → Purpose e = purpose → KVersion e < nextVersion kr purpose.
Proof.
  intros Hb k e Hk Hp. unfold nextVersion. destruct (max_version_bounds purpose (docs (cursor kr)) 0) as (H1 & H2 & H3).
  specialize (H2 e). rewrite int64_id.
  - pose proof (H2 ltac:(apply elem_of_registry; eauto) Hp). lia.
  - unfold is_int64. destruct H3 as [->|(x & (k' & Hx)%elem_of_registry & Hv)]; [lia|]. specialize (Hb _ _ Hx). lia.
Qed.

(** ** Rotation *)
Lemma active_unique kr purpose keyID e :
  registry_wf kr → kr !! keyID = Some (Doc e) → is_active purpose e →
  (∀ k e', kr !! k = Some (Doc e') → is_active purpose e' → k = keyID) →
  GetActiveKey kr purpose = Some (keyID, Material e).
Proof.
  intros Hw Hk Ha Hu. pose proof (GetActiveKey_spec kr purpose) as H. destruct (GetActiveKey kr purpose) as [[id m]|].
  - destruct H as (k & e' & Hk' & Ha' & <- & <-). assert (k = keyID) as -> by eauto.
    rewrite Hk in Hk'. injection Hk' as <-. by destruct (Hw _ _ Hk) as [-> _].
  - by destruct (H _ _ Hk).
Qed.

(** A rotation that reports success makes the freshly generated key the one the
    registry hands out for the purpose, leaves it the only active key of the purpose,
    keeps every older key retrievable with its material and version for decryption,
    gives the new key a higher version number than every other key of the purpose, and
    does not touch the keys of other purposes; a rotation that fails leaves the registry
    as it was. *)
Theorem rotation_spec kr purpose rand keyID now r kr' :
  registry_wf kr → utf8 purpose → utf8 keyID → kr !! keyID = None →
  (∀ k e, kr !! k = Some (Doc e) → KVersion e < 2 ^ 63 - 1) →
  Rotate kr purpose rand keyID now = (r, kr') →
  match r with
  | Err _ => kr' = kr
  | Ok _ => ∃ m, generateKeyForPurpose purpose rand = Ok m ∧ GetActiveKey kr' purpose = Some (keyID, m) ∧
      (∀ k e, GetKey kr' k = Some e → is_active purpose e ↔ k = keyID) ∧
      (∀ k e, GetKey kr k = Some e → ∃ e', GetKey kr' k = Some e' ∧ same_key e e' ∧
         (Purpose e = purpose → ∀ new, GetKey kr' keyID = Some new → KVersion e < KVersion new) ∧
         (Purpose e ≠ purpose → e' = e))
  end.
Proof.
  intros Hw Hp Hk Hf Hb Hr. destruct (Rotate_cases _ _ _ _ _ _ _ Hw Hp Hk Hf Hr) as (Hw' & Hkeep & H).
  destruct r as [[]|]; [|done]. destruct H as (m & Hg & Hl). cbv zeta in Hl.
  assert (∀ k e, kr' !! k = Some (Doc e) → is_active purpose e → k = keyID) as Hu.
  { intros k e. rewrite Hl. destruct (decide (k = keyID)) as [->|Hne]; [done|].
    destruct (kr !! k) as [[e0|]|]; try done. intros [= <-] (Ha & _ & Hs). revert Ha Hs. unfold activated.
    rewrite decide_False by done. case_decide; [done|tauto]. }
  pose proof (Hl keyID) as Hn. rewrite decide_True in Hn by done.
  exists m. split_and!; [done| | |].
  - exact (active_unique _ _ _ _ Hw' Hn ltac:(done) Hu).
  - intros k e. unfold GetKey. destruct (kr' !! k) as [[e'|]|] eqn:E; [|done..]. intros [= ->]. split; [by apply Hu|].
    intros ->. rewrite Hn in E. by injection E as <-.
  - intros k e He. assert (kr !! k = Some (Doc e)) as Hke by (unfold GetKey in He; destruct (kr !! k) as [[]|]; naive_solver).
    destruct (Hkeep _ _ Hke) as (e' & He' & Hsame). exists e'. unfold GetKey. rewrite He', Hn. split_and!; [done|done| |].
    + intros Hpe new [= <-]. by apply (nextVersion_fresh kr purpose Hb k).
    + intros Hpe. rewrite Hl in He'. rewrite decide_False in He' by congruence. rewrite Hke in He'. injection He' as <-.
      unfold activated. rewrite !decide_False; [done|tauto|congruence].
Qed.

Definition rw_key : KeyEntry := mkKey (newKeyID 5 5) (bs "auth") 1 (bs "old") (bs "AES-256-GCM") KeyStatusActive 5 None [] 0.
Definition rw_kr : registry := {[newKeyID 5 5 := Doc rw_key]}.
Definition rw_new : result unit * registry := Rotate rw_kr (bs "auth") (Ok (bs "fresh")) (newKeyID 7 8) 7.

Lemma rw_kr_lookup k e : rw_kr !! k = Some (Doc e) → k = newKeyID 5 5 ∧ e = rw_key.
Proof. unfold rw_kr. by intros [<- [= <-]]%lookup_singleton_Some. Qed.

Lemma rw_kr_wf : registry_wf rw_kr.
Proof. intros k e [-> ->]%rw_kr_lookup. repeat split. Qed.

Lemma rotation_spec_witness :
  GetActiveKey rw_kr (bs "auth") = Some (newKeyID 5 5, bs "old") ∧
  match rw_new.1 with
  | Err _ => rw_new.2 = rw_kr
  | Ok _ => ∃ m, generateKeyForPurpose (bs "auth") (Ok (bs "fresh")) = Ok m ∧ GetActiveKey rw_new.2 (bs "auth") = Some (newKeyID 7 8, m) ∧
      (∀ k e, GetKey rw_new.2 k = Some e → is_active (bs "auth") e ↔ k = newKeyID 7 8) ∧
      (∀ k e, GetKey rw_kr k = Some e → ∃ e', GetKey rw_new.2 k = Some e' ∧ same_key e e' ∧
         (Purpose e = bs "auth" → ∀ new, GetKey rw_new.2 (newKeyID 7 8) = Some new → KVersion e < KVersion new) ∧
         (Purpose e ≠ bs "auth" → e' = e))
  end.
Proof.
  split; [vm_compute; reflexivity|].
  apply (rotation_spec rw_kr (bs "auth") (Ok (bs "fresh")) (newKeyID 7 8) 7 rw_new.1 rw_new.2 rw_kr_wf);
    [vm_compute; reflexivity..| |exact (surjective_pairing rw_new)].
  intros k e [_ ->]%rw_kr_lookup. reflexivity.
Defined.

(** ** The life of a registry *)
Lemma append_int_ascii v : is_int64 v → Forall (λ b, in_range 0 127 b = true) (append_int v).
Proof.
  unfold is_int64. intros Hv.
  assert (∀ ds, Forall (λ c, is_digit c = true) ds → Forall (λ b, in_range 0 127 b = true) ds) as Hd.
  { intros ds H. apply (Forall_impl _ _ _ H). intros c. unfold is_digit, in_range. rewrite !andb_true_iff, !Z.leb_le. pose proof (b2z_range c). lia. }
  unfold append_int. destruct (v <? 0) eqn:E; zbool.
  - destruct (dec_digits_spec 20 (- v) []) as (ds & -> & _ & Hf & _); [lia|]. rewrite app_nil_r. constructor; [reflexivity|by apply Hd].
  - destruct (dec_digits_spec 20 v []) as (ds & -> & _ & Hf & _); [lia|]. rewrite app_nil_r. by apply Hd.
Qed.

Lemma newKeyID_utf8 now now' : is_int64 now → is_int64 now' → utf8 (newKeyID now now').
Proof.
  intros H1 H2. apply ascii_utf8. unfold newKeyID. rewrite !Forall_app. split_and!; [by repeat constructor|by apply append_int_ascii|by repeat constructor|].
  apply append_int_ascii. unfold is_int64 in *. pose proof (Z.rem_bound_abs now' 1000). lia.
Qed.

(** One operation on the registry.  An identifier that is generated is one no key has
    (two readings of the nanosecond clock make it). *)
Inductive key_step (kr : registry) : registry → Prop :=
  | step_store purpose material algorithm tenant status share now now' :
      utf8 purpose → utf8 algorithm → is_int64 now → is_int64 now' → kr !! newKeyID now now' = None →
      key_step kr (StoreKey kr purpose material algorithm tenant status share (newKeyID now now') now).2
  | step_active keyID now : key_step kr (SetActive kr keyID now).2
  | step_retire keyID now : key_step kr (MarkRetired kr keyID now).2
  | step_compromise keyID now : key_step kr (MarkCompromised kr keyID now).2
  | step_rotate purpose rand now now' :
      utf8 purpose → is_int64 now → is_int64 now' → kr !! newKeyID now now' = None →
      key_step kr (Rotate kr purpose rand (newKeyID now now') now).2
  | step_reload p purpose now now' :
      purpose ∈ rotationPurposes → is_int64 now → is_int64 now' → kr !! newKeyID now now' = None →
      key_step kr (reload_one p kr (purpose, newKeyID now now', now)).

Lemma rotationPurposes_utf8 purpose : purpose ∈ rotationPurposes → utf8 purpose.
Proof. unfold rotationPurposes. rewrite !elem_of_cons, elem_of_nil. by intros [->|[->|[->|[->|[]]]]]. Qed.

Lemma key_step_keeps kr kr' : registry_wf kr → key_step kr kr' → registry_wf kr' ∧ keeps kr kr'.
Proof.
  intros Hw. destruct 1 as [purpose m a t st sh now now' Hp Ha Hn Hn' Hf|id now|id now|id now|purpose rand now now' Hp Hn Hn' Hf|p purpose now now' Hp Hn Hn' Hf].
  - destruct (StoreKey _ _ _ _ _ _ _ _ _) as [r kr'] eqn:E.
    by destruct (StoreKey_wf _ _ _ _ _ _ _ _ _ _ _ Hw Hp Ha (newKeyID_utf8 _ _ Hn Hn') Hf E) as (? & ? & _).
  - eapply SetActive_wf; [done|apply surjective_pairing].
  - eapply mark_wf; [done|apply surjective_pairing].
  - eapply mark_wf; [done|apply surjective_pairing].
  - destruct (Rotate _ _ _ _ _) as [r kr'] eqn:E.
    by destruct (Rotate_cases _ _ _ _ _ _ _ Hw Hp (newKeyID_utf8 _ _ Hn Hn') Hf E) as (? & ? & _).
  - cbn [reload_one]. destruct (GetSecret p _) as [[val|]|]; try (split; [done|reflexivity]).
    destruct (if (length val =? 64)%nat then _ else _) as [m|]; [|split; [done|reflexivity]].
    destruct (StoreKey _ _ _ _ _ _ _ _ _) as [r kr'] eqn:E.
    assert (utf8 (bs "AES-256-GCM")) as Ha by reflexivity.
    by destruct (StoreKey_wf _ _ _ _ _ _ _ _ _ _ _ Hw (rotationPurposes_utf8 _ Hp) Ha (newKeyID_utf8 _ _ Hn Hn') Hf E) as (? & ? & _).
Qed.

(** However many keys are stored, rotated, reloaded, retired or marked compromised, a
    key once in the registry can be fetched by its identifier with the material, purpose,
    algorithm and version it was stored with: nothing encrypted under it becomes
    unreadable. *)
Theorem keys_never_lost kr kr' k e :
  registry_wf kr → rtc key_step kr kr' → GetKey kr k = Some e →
  ∃ e', GetKey kr' k = Some e' ∧ same_key e e'.
Proof.
  intros Hw Hs. assert (registry_wf kr' ∧ keeps kr kr') as [_ Hk].
  { induction Hs as [|a b c Hab _ IH]; [split; [done|reflexivity]|]. destruct (key_step_keeps _ _ Hw Hab) as [Hwb Hk].
    destruct (IH Hwb) as [? Hk']. split; [done|by transitivity b]. }
  unfold GetKey. destruct (kr !! k) as [[e0|]|] eqn:E; intros [= <-]. destruct (Hk _ _ E) as (e' & -> & ?). eauto.
Qed.

Lemma keys_never_lost_witness :
  ∃ e', GetKey (MarkCompromised rw_new.2 (newKeyID 5 5) 9).2 (newKeyID 5 5) = Some e' ∧
        same_key rw_key e'.
Proof.
  apply (keys_never_lost rw_kr _ (newKeyID 5 5)); [exact rw_kr_wf| |vm_compute; reflexivity].
  apply (rtc_l _ _ rw_new.2).
  - apply (step_rotate rw_kr (bs "auth") (Ok (bs "fresh")) 7 8); [reflexivity|by vm_compute|by vm_compute|vm_compute; reflexivity].
  - apply rtc_once. exact (step_compromise rw_new.2 (newKeyID 5 5) 9).
Defined.

(** [Reload] stores a new active version each time, also when the secret is unchanged, and
    does not retire the previous one. *)
Example reload_unchanged_secret :
  let p := ProviderChain [mkProvider (λ n, Ok (if decide (n = bs "auth_token") then Some (bs "s") else None)) (Ok tt)] in
  let ids t := [(newKeyID t t, t); (newKeyID (t + 1) t, t); (newKeyID (t + 2) t, t); (newKeyID (t + 3) t, t)] in
  let kr := (Reload p (Reload p ∅ (ids 10)).2 (ids 20)).2 in
  (λ e, (KeyID e, KVersion e, Material e, KStatus e)) <$> ListKeyVersions kr (bs "auth")
  = [(newKeyID 11 10, 1, bs "s", KeyStatusActive); (newKeyID 21 20, 2, bs "s", KeyStatusActive)].
Proof. vm_compute. reflexivity. Qed.

(** The tenant and the share index given to [StoreKey] are not stored, so the key of one
    tenant replaces the global one as the active key. *)
Example StoreKey_drops_tenant :
  let kr := (StoreKey ∅ (bs "oprf") (bs "global") (bs "OPRF-Shamir") [] KeyStatusActive 0 (newKeyID 5 5) 5).2 in
  let kr := (StoreKey kr (bs "oprf") (bs "tenant share") (bs "OPRF-Shamir") (bs "acme") KeyStatusActive 3 (newKeyID 6 6) 6).2 in
  GetActiveKey kr (bs "oprf") = Some (newKeyID 6 6, bs "tenant share") ∧
  (λ e, (KTenantID e, OPRFShareIndex e)) <$> GetKey kr (newKeyID 6 6) = Some ([], 0).
Proof. vm_compute. split; reflexivity. Qed.

(** The key a rotation makes for "oprf" is a constant, whatever the random source gives. *)
Lemma oprf_rotation_constant rand : generateKeyForPurpose (bs "oprf") rand = Ok oprf_placeholder.
Proof. reflexivity. Qed.
