(* ===== verification/Lifecycle.v ===== *)
(** * Bucket lifecycle and S3 object headers (src/src/storage/lifecycle.go, storage.go, src/src/common/s3meta.go)

    The lifecycle worker of one bucket: rules stored as JSON, the first enabled rule
    that matches an object's name, expiration (a delete marker on a versioned bucket,
    then a delete) and transition (a storage class in the object's S3 headers).  The
    random bytes and the clock readings of a pass are arguments. *)
From S2P Require Import Prelude GoText Float64 Hashes Json Paths ObjectMeta BlobStore CasStore CasTheorems Versioning VersionTheorems.
Open Scope Z_scope.

(** ** Data *)
Definition LifecycleEnabled : bytes := bs "Enabled".
Definition LifecycleDisabled : bytes := bs "Disabled".

Record LifecycleRule := mkRule {
  RuleID : bytes;
  RuleStatus : bytes;
  RulePrefix : bytes;
  ExpirationDays : Z;
  TransitionDays : Z;
  StorageClass : bytes
}.

Notation LifecycleConfig := (list LifecycleRule).

Record LifecycleOutcome := mkOutcome { Expired : Z; Transitioned : Z }.

(** A map of S3 header names to values. *)
Notation headers := (gmap (list Byte.byte) (list Byte.byte)).

(** The store with the two buckets this part adds. *)
Record LStore (B : Type) := mkLS {
  vs : VStore B;
  lifecycles : bucket (stored LifecycleConfig);
  s3meta : bucket (stored headers)
}.
Arguments mkLS {B}.
Arguments vs {B}.
Arguments lifecycles {B}.
Arguments s3meta {B}.

(** ** S3 headers at rest *)
Definition MaxS3MetaJSONBytes : Z := 8192.

Definition header_member (kv : bytes * bytes) : bytes := json_string kv.1 ++ [Byte.x3a] ++ json_string kv.2.

(** [json.Marshal] of a map: the header_members in key order, between braces. *)
Fixpoint header_members (l : list (bytes * bytes)) : bytes :=
  match l with
  | [] => []
  | [kv] => header_member kv
  | kv :: rest => header_member kv ++ [ch_comma] ++ header_members rest
  end.
Definition marshal_headers (h : headers) : bytes := [Byte.x7b] ++ header_members (cursor h) ++ [Byte.x7d].

(** The map [json.Unmarshal] gives back: a key that occurs twice keeps its last value. *)
Definition put_header (m : headers) (kv : bytes * bytes) : headers := <[json_valid kv.1 := json_valid kv.2]> m.
Definition headers_doc (h : headers) : stored headers := Doc (foldl put_header ∅ (cursor h)).

Definition MarshalS3MetaJSON (h : headers) : result (option (stored headers)) :=
  if decide (h = ∅) then Ok None
  else if MaxS3MetaJSONBytes <? Z.of_nat (length (marshal_headers h)) then Err (Errno EOVERFLOW)
  else Ok (Some (headers_doc h)).

(** [UnmarshalS3MetaJSON] of a stored value: a value that is not a document gives nil. *)
Definition UnmarshalS3MetaJSON (v : stored headers) : option headers :=
  match v with Doc h => Some h | Corrupt => None end.

Section Ops.
Context {B : Type} `{BlobStore B}.
Implicit Types (s : LStore B).

Definition with_vs (v : VStore B) s : LStore B := mkLS v (lifecycles s) (s3meta s).
Definition with_lifecycles (l : bucket (stored LifecycleConfig)) s : LStore B := mkLS (vs s) l (s3meta s).
Definition with_s3meta (m : bucket (stored headers)) s : LStore B := mkLS (vs s) (lifecycles s) m.

Definition PutS3Meta s (name : bytes) (h : headers) : result unit * LStore B :=
  match MarshalS3MetaJSON h with
  | Err e => (Err e, s)
  | Ok None => (Ok tt, s)
  | Ok (Some data) =>
      match bput name data (s3meta s) with
      | None => (Err ErrPlain, s)
      | Some m => (Ok tt, with_s3meta m s)
      end
  end.

Definition GetS3Meta s (name : bytes) : option headers := s3meta s !! name ≫= UnmarshalS3MetaJSON.

Definition class_header : bytes := bs "x-amz-storage-class".

Definition SetStorageClass s (name class : bytes) : result unit * LStore B :=
  let h := default ∅ (GetS3Meta s name) in
  if bool_decide (default [] (h !! class_header) = class) then (Ok tt, s)
  else PutS3Meta s name (<[class_header := class]> h).

(** ** Rules *)
Definition rule_doc (r : LifecycleRule) : LifecycleRule :=
  mkRule (json_valid (RuleID r)) (json_valid (RuleStatus r)) (json_valid (RulePrefix r)) (ExpirationDays r) (TransitionDays r)
    (json_valid (StorageClass r)).

Definition SetBucketLifecycle s (bkt : bytes) (cfg : LifecycleConfig) : result unit * LStore B :=
  match bkt with
  | [] => (Err (Errno EINVAL), s)
  | _ => match bput bkt (Doc (rule_doc <$> cfg)) (lifecycles s) with
         | None => (Err ErrPlain, s)
         | Some l => (Ok tt, with_lifecycles l s)
         end
  end.

Definition BucketLifecycle s (bkt : bytes) : result (option LifecycleConfig) :=
  match lifecycles s !! bkt with
  | None => Ok None
  | Some Corrupt => Err (Errno EIO)
  | Some (Doc cfg) => Ok (Some cfg)
  end.

Definition DeleteBucketLifecycle s (bkt : bytes) : result unit * LStore B := (Ok tt, with_lifecycles (delete bkt (lifecycles s)) s).

Fixpoint matchingRule (cfg : LifecycleConfig) (name : bytes) : option LifecycleRule :=
  match cfg with
  | [] => None
  | r :: rest => if negb (bool_decide (RuleStatus r = LifecycleEnabled)) then matchingRule rest name
                 else if has_prefix name (RulePrefix r) then Some r else matchingRule rest name
  end.

(** ** Age *)

(** [Time.Sub] saturates. *)
Definition sub_time (t u : Z) : Z := Z.max (- 2 ^ 63) (Z.min (2 ^ 63 - 1) (t - u)).
Definition hour : Z := 3600 * 10 ^ 9.
Definition Hours (d : Z) : float64 := fadd (f64 (Z.quot d hour)) (fdiv (f64 (Z.rem d hour)) (f64 hour)).
Definition ageDays (now modTime : Z) : Z := f64_trunc (fdiv (Hours (sub_time now modTime)) (f64 24)).

(** ** The pass *)

(** What the deletion of one object reads: the random bytes and the clock of the
    delete marker, the clock of the delete. *)
Record reading := mkReading { rnd : option bytes; marker_now : Z; delete_now : Z }.

Definition delete_object s (name : bytes) (now : Z) : result unit * LStore B :=
  let '(r, c) := Delete (cas (vs s)) name now in (r, with_vs (with_cas c (vs s)) s).

Definition expireObject s (bkt name : bytes) (versioned : bool) (rd : reading) : result unit * LStore B :=
  if versioned then
    match RecordDeleteMarker (vs s) bkt name (rnd rd) (marker_now rd) with
    | (Err e, v) => (Err e, with_vs v s)
    | (Ok _, v) => delete_object (with_vs v s) name (delete_now rd)
    end
  else delete_object s name (delete_now rd).

Definition applyLifecycleRule s (bkt : bytes) (obj : FileMetadata) (rule : LifecycleRule) (versioned : bool) (now : Z)
    (rd : reading) (out : LifecycleOutcome) : result unit * LStore B * LifecycleOutcome :=
  let age := ageDays now (ModTime obj) in
  if (0 <? ExpirationDays rule) && (ExpirationDays rule <=? age) then
    match expireObject s bkt (Name obj) versioned rd with
    | (Err e, s) => (Err e, s, out)
    | (Ok _, s) => (Ok tt, s, mkOutcome (Expired out + 1) (Transitioned out))
    end
  else if (0 <? TransitionDays rule) && (TransitionDays rule <=? age) && negb (bool_decide (StorageClass rule = [])) then
    match SetStorageClass s (Name obj) (StorageClass rule) with
    | (Err e, s) => (Err e, s, out)
    | (Ok _, s) => (Ok tt, s, mkOutcome (Expired out) (Transitioned out + 1))
    end
  else (Ok tt, s, out).

Fixpoint lifecycle_loop s (bkt : bytes) (cfg : LifecycleConfig) (versioned : bool) (now : Z) (rd : bytes → reading)
    (objects : list FileMetadata) (out : LifecycleOutcome) : result unit * LStore B * LifecycleOutcome :=
  match objects with
  | [] => (Ok tt, s, out)
  | obj :: rest =>
      match matchingRule cfg (Name obj) with
      | Some rule =>
          if ModTime obj =? 0 then lifecycle_loop s bkt cfg versioned now rd rest out
          else match applyLifecycleRule s bkt obj rule versioned now (rd (Name obj)) out with
               | (Err e, s, out) => (Err e, s, out)
               | (Ok _, s, out) => lifecycle_loop s bkt cfg versioned now rd rest out
               end
      | None => lifecycle_loop s bkt cfg versioned now rd rest out
      end
  end.

Definition EvaluateLifecycle s (bkt : bytes) (now : Z) (rd : bytes → reading) : result unit * LStore B * LifecycleOutcome :=
  let out := mkOutcome 0 0 in
  match BucketLifecycle s bkt with
  | Err e => (Err e, s, out)
  | Ok None => (Ok tt, s, out)
  | Ok (Some []) => (Ok tt, s, out)
  | Ok (Some cfg) =>
      match List (cas (vs s)) with
      | Err e => (Err e, s, out)
      | Ok objects => lifecycle_loop s bkt cfg (IsVersioned (vs s) bkt) now rd objects out
      end
  end.
End Ops.

(** ** Which objects a pass expires *)

(** The rule that decides about a name: the first one that is enabled and whose prefix
    the name has. *)
Definition covers (r : LifecycleRule) (name : bytes) : Prop := RuleStatus r = LifecycleEnabled ∧ RulePrefix r `prefix_of` name.

Definition decides (cfg : LifecycleConfig) (name : bytes) (r : LifecycleRule) : Prop :=
  ∃ before after, cfg = before ++ r :: after ∧ covers r name ∧ Forall (λ r', ¬ covers r' name) before.

Definition expires (cfg : LifecycleConfig) (now : Z) (f : FileMetadata) : Prop :=
  ModTime f ≠ 0 ∧ ∃ r, decides cfg (Name f) r ∧ 0 < ExpirationDays r <= ageDays now (ModTime f).

Lemma matchingRule_decides cfg name r : matchingRule cfg name = Some r ↔ decides cfg name r.
Proof.
  unfold decides. induction cfg as [|x cfg IH]; cbn [matchingRule].
  { split; [done|]. intros (b & a & E & _). by destruct b. }
  assert (negb (bool_decide (RuleStatus x = LifecycleEnabled)) = false ∧ has_prefix name (RulePrefix x) = true ↔ covers x name) as Hc.
  { unfold covers. rewrite negb_false_iff, bool_decide_eq_true, has_prefix_spec. done. }
  destruct (decide (negb (bool_decide (RuleStatus x = LifecycleEnabled)) = false ∧ has_prefix name (RulePrefix x) = true)) as [Hx|Hx].
  - destruct Hx as [Hx1 Hx2]. rewrite Hx1, Hx2. pose proof (proj1 Hc (conj Hx1 Hx2)) as Hcx. split.
    + intros [= <-]. exists [], cfg. split_and!; [done|done|constructor].
    + intros ([|y b] & a & E & Hr & Hb); [by injection E as <- _|]. injection E as <- ->. by apply Forall_cons in Hb as [? _].
  - assert (¬ covers x name) as Hcx by tauto.
    replace (if negb _ then _ else _) with (matchingRule cfg name)
      by (destruct (negb _), (has_prefix _ _); [done..|by destruct Hx|done]).
    rewrite IH. split.
    + intros (b & a & -> & Hr & Hb). exists (x :: b), a. split_and!; [done|done|by constructor].
    + intros ([|y b] & a & E & Hr & Hb); [by injection E as <- _|]. injection E as <- ->. apply Forall_cons in Hb as [_ Hb]. by exists b, a.
Qed.

(** The boolean form of [expires], as the loop tests it. *)
Definition expires_now (cfg : LifecycleConfig) (now : Z) (f : FileMetadata) : bool :=
  match matchingRule cfg (Name f) with
  | Some r => negb (ModTime f =? 0) && ((0 <? ExpirationDays r) && (ExpirationDays r <=? ageDays now (ModTime f)))
  | None => false
  end.

Lemma expires_now_spec cfg now f : expires_now cfg now f = true ↔ expires cfg now f.
Proof.
  unfold expires_now, expires. setoid_rewrite <- matchingRule_decides. destruct (matchingRule cfg (Name f)) as [r|].
  - rewrite !andb_true_iff, negb_true_iff, Z.eqb_neq, Z.ltb_lt, Z.leb_le. naive_solver.
  - split; [done|]. by intros (_ & r & ? & _).
Qed.

#[export] Instance expires_dec cfg now f : Decision (expires cfg now f).
Proof. refine (cast_if (decide (expires_now cfg now f = true))); by rewrite <- expires_now_spec. Defined.

Section Guarantees.
Context {B : Type} `{Hspec : BlobStoreSpec B}.
Implicit Types (s : LStore B).

Notation store s := (cas (vs s)).

(** What no change of a store may do to the other objects. *)
Definition reads_same (c c' : CASStore B) (n : bytes) : Prop :=
  ∀ h x, GetHashForName c n = Ok h → blob_view (blobs c) !! h = Some x → x ≠ [] →
    GetHashForName c' n = Ok h ∧ blob_view (blobs c') !! h = Some x ∧ Get c' n = Get c n.

Lemma reads_same_refl c n : reads_same c c n.
Proof. by intros h x. Qed.

Lemma reads_same_trans c1 c2 c3 n : reads_same c1 c2 n → reads_same c2 c3 n → reads_same c1 c3 n.
Proof.
  intros H1 H2 h x Hg Hx Hn. destruct (H1 h x Hg Hx Hn) as (Hg2 & Hx2 & E2). destruct (H2 h x Hg2 Hx2 Hn) as (? & ? & ?).
  split_and!; congruence.
Qed.

Definition hidden (c : CASStore B) (n : bytes) : Prop := GetHashForName c n = Err (Errno ENOENT).

Lemma Delete_frame (c : CASStore B) name now r c' :
  cas_inv c → is_int64 now → Delete c name now = (r, c') →
  cas_inv c' ∧ (r = Ok tt → hidden c' name) ∧ (∀ n, hidden c n → hidden c' n) ∧ (∀ n, n ≠ name → reads_same c c' n).
Proof.
  intros Hi Hn Hd. pose proof (Delete_inv c name now Hi Hn) as Hi'. rewrite Hd in Hi'. cbn in Hi'.
  unfold Delete in Hd. destruct (delete_tx _ _ _ _) as [[d o]|e] eqn:E;
    [|injection Hd as <- <-; split_and!; [done|done|done|intros; apply reads_same_refl]].
  injection Hd as <- <-. split; [done|]. pose proof E as E'.
  apply delete_tx_spec in E' as (Hdi & Ens & Ets & _ & _ & _ & Ho & Hex & _); [|apply Hi|done].
  assert (cas_inv (with_db d c)) as Hid by (split; [apply Hi|done|]; intros k Hk; by apply (ci_bytes c Hi), Hex).
  destruct (reap_spec true o _ Hid Ho) as (Hir & R1 & R2 & _). split_and!.
  - intros _. unfold hidden, GetHashForName. cbn [db invalidateCache with_cache]. rewrite R2. cbn [db with_db]. by rewrite Ets, lookup_insert_eq.
  - intros n. unfold hidden, GetHashForName. cbn [db invalidateCache with_cache]. rewrite R1, R2. cbn [db with_db]. rewrite Ens, Ets.
    destruct (decide (n = name)) as [->|Hne]; [by rewrite lookup_insert_eq|].
    by rewrite lookup_insert_ne, lookup_delete_ne by done.
  - intros n Hne h x Hg Hx Hxn. pose proof (delete_tx_same_read _ c name now d o true n h (ci_blob c Hi) (cas_counted c name Hi) Hn E Hne Hg) as Hsr.
    destruct (same_read_Get _ _ n h x (ci_blob c Hi) (ci_blob _ Hir) Hsr Hg Hx Hxn) as (Hg' & _ & HG). split_and!; [done| |done].
    cbn [blobs invalidateCache with_cache]. by rewrite (sr_view _ _ _ _ Hsr).
Qed.

Lemma RecordDeleteMarker_cas (v : VStore B) bkt key rn now : cas (RecordDeleteMarker v bkt key rn now).2 = cas v.
Proof.
  unfold RecordDeleteMarker. destruct (newVersionID rn); [|done]. unfold record_version, update.
  by destruct (put_version_tx _ _ _ _).
Qed.

Lemma SetStorageClass_vs s name class : vs (SetStorageClass s name class).2 = vs s.
Proof.
  unfold SetStorageClass, PutS3Meta. case_bool_decide; [done|]. destruct (MarshalS3MetaJSON _) as [[data|]|]; try done.
  by destruct (bput _ _ _).
Qed.

(** The effect of an action on the objects: [name], when given, is hidden. *)
Definition hides (c c' : CASStore B) (name : option bytes) : Prop :=
  cas_inv c' ∧ (∀ n, hidden c n → hidden c' n) ∧ (∀ n, name ≠ Some n → reads_same c c' n).

Lemma hides_refl c : cas_inv c → hides c c None.
Proof. intros Hi. split_and!; [done|done|]. intros n _. apply reads_same_refl. Qed.

Lemma expireObject_spec s bkt name versioned rd r s' :
  cas_inv (store s) → is_int64 (delete_now rd) → expireObject s bkt name versioned rd = (r, s') →
  hides (store s) (store s') (Some name) ∧ (r = Ok tt → hidden (store s') name).
Proof.
  intros Hi Hn. assert (∀ s0, store s0 = store s → delete_object s0 name (delete_now rd) = (r, s') →
    hides (store s) (store s') (Some name) ∧ (r = Ok tt → hidden (store s') name)) as Hdel.
  { intros s0 E. unfold delete_object. rewrite E. destruct (Delete (store s) name (delete_now rd)) as [r0 c] eqn:Ed.
    intros [= <- <-]. destruct (Delete_frame _ _ _ _ _ Hi Hn Ed) as (H1 & H2 & H3 & H4). split; [|done]. split_and!; [done..|].
    intros n Hne. apply H4. congruence. }
  unfold expireObject. destruct versioned; [|by apply Hdel].
  pose proof (RecordDeleteMarker_cas (vs s) bkt name (rnd rd) (marker_now rd)) as Hc.
  destruct (RecordDeleteMarker _ _ _ _ _) as [[x|e] v]; cbn [snd] in Hc; [by apply Hdel|].
  intros [= <- <-]. cbn [vs with_vs]. rewrite Hc. split; [|done]. split_and!; [done|done|]. intros n _. apply reads_same_refl.
Qed.

(** One object of the loop, whatever the loop decides about it. *)
Lemma object_step cfg s bkt obj versioned now rd out :
  cas_inv (store s) → is_int64 (delete_now rd) →
  let '(r, s', out') := match matchingRule cfg (Name obj) with
                        | Some rule => if ModTime obj =? 0 then (Ok tt, s, out) else applyLifecycleRule s bkt obj rule versioned now rd out
                        | None => (Ok tt, s, out)
                        end in
  hides (store s) (store s') (if expires_now cfg now obj then Some (Name obj) else None) ∧
  (r = Ok tt → Expired out' = Expired out + (if expires_now cfg now obj then 1 else 0)) ∧
  (r = Ok tt → expires_now cfg now obj = true → hidden (store s') (Name obj)).
Proof.
  intros Hi Hn. unfold expires_now. destruct (matchingRule cfg (Name obj)) as [rule|];
    [|split_and!; [by apply hides_refl|lia|done]].
  destruct (ModTime obj =? 0); cbn [negb andb]; [split_and!; [by apply hides_refl|lia|done]|].
  unfold applyLifecycleRule. destruct (_ && (_ <=? _)).
  - destruct (expireObject _ _ _ _ _) as [r s'] eqn:E. destruct (expireObject_spec _ _ _ _ _ _ _ Hi Hn E) as [Hh Hg].
    destruct r as [[]|e]; split_and!; try done. by intros _ _; apply Hg.
  - destruct (_ && _ && _); [|split_and!; [by apply hides_refl|lia|done]].
    pose proof (SetStorageClass_vs s (Name obj) (StorageClass rule)) as Hv.
    destruct (SetStorageClass _ _ _) as [[x|e] s']; cbn [snd] in Hv; rewrite Hv; (split_and!; [by apply hides_refl|cbn; try lia; done|done]).
Qed.

Lemma lifecycle_loop_step cfg s bkt obj versioned now rd rest out :
  lifecycle_loop s bkt cfg versioned now rd (obj :: rest) out =
  match (match matchingRule cfg (Name obj) with
         | Some rule => if ModTime obj =? 0 then (Ok tt, s, out) else applyLifecycleRule s bkt obj rule versioned now (rd (Name obj)) out
         | None => (Ok tt, s, out)
         end) with
  | (Err e, s, out) => (Err e, s, out)
  | (Ok _, s, out) => lifecycle_loop s bkt cfg versioned now rd rest out
  end.
Proof. cbn [lifecycle_loop]. destruct (matchingRule _ _); [|done]. by destruct (ModTime obj =? 0). Qed.

Definition count_expired (cfg : LifecycleConfig) (now : Z) (l : list FileMetadata) : Z := Z.of_nat (length (filter (expires cfg now) l)).

Lemma lifecycle_loop_spec cfg bkt versioned now rd l s out r s' out' :
  cas_inv (store s) → (∀ n, is_int64 (delete_now (rd n))) →
  lifecycle_loop s bkt cfg versioned now rd l out = (r, s', out') →
  cas_inv (store s') ∧ (∀ n, hidden (store s) n → hidden (store s') n) ∧
  (∀ n, (∀ f, f ∈ l → Name f = n → ¬ expires cfg now f) → reads_same (store s) (store s') n) ∧
  (r = Ok tt → (∀ f, f ∈ l → expires cfg now f → hidden (store s') (Name f)) ∧
               Expired out' = Expired out + count_expired cfg now l).
Proof.
  intros Hi Hrd. unfold count_expired. revert s out Hi. induction l as [|obj l IH]; intros s out Hi.
  { intros [= <- <- <-]. split_and!; [done|done|intros; apply reads_same_refl|]. intros _. split; [by intros f ?%elem_of_nil|].
    rewrite filter_nil. cbn [length]. lia. }
  rewrite lifecycle_loop_step. pose proof (object_step cfg s bkt obj versioned now (rd (Name obj)) out Hi (Hrd _)) as Hst.
  destruct (match matchingRule cfg (Name obj) with Some _ => _ | None => _ end) as [[r1 s1] out1].
  destruct Hst as ((Hi1 & Hh1 & Hr1) & Hc1 & Hg1).
  assert (∀ n, (∀ f, f ∈ obj :: l → Name f = n → ¬ expires cfg now f) → reads_same (store s) (store s1) n) as Hs1.
  { intros n Hn. apply Hr1. destruct (expires_now cfg now obj) eqn:E; [|done]. intros [= E'].
    apply (Hn obj); [left|done|by apply expires_now_spec]. }
  destruct r1 as [[]|e]; [|intros [= <- <- <-]; by split_and!].
  intros Hl. destruct (IH _ _ Hi1 Hl) as (Hi2 & Hh2 & Hr2 & Hok). split_and!; [done|auto| |].
  - intros n Hn. eapply reads_same_trans; [by apply Hs1|]. apply Hr2. intros f Hf. apply Hn. by right.
  - intros Hr. destruct (Hok Hr) as [Hex Hcnt]. split.
    + intros f [->|Hf]%elem_of_cons He; [|by apply Hex]. by apply Hh2, Hg1; [|apply expires_now_spec].
    + rewrite Hcnt, Hc1, filter_cons by done. destruct (decide (expires cfg now obj)) as [He|He].
      * rewrite (proj2 (expires_now_spec _ _ _) He). cbn [length]. lia.
      * destruct (expires_now cfg now obj) eqn:E; [by apply expires_now_spec in E|lia].
Qed.

Lemma EvaluateLifecycle_loop s bkt cfg now rd l :
  BucketLifecycle s bkt = Ok (Some cfg) → List (store s) = Ok l →
  EvaluateLifecycle s bkt now rd = lifecycle_loop s bkt cfg (IsVersioned (vs s) bkt) now rd l (mkOutcome 0 0).
Proof.
  intros Hcfg Hl. unfold EvaluateLifecycle. rewrite Hcfg, Hl. destruct cfg; [|done]. clear Hl.
  generalize (mkOutcome 0 0) as out. induction l as [|o l IH]; intros out; [done|]. apply IH.
Qed.

Lemma GetMeta_named (c : CASStore B) n f : GetMeta c n = Ok f → Name f = n ∧ GetHashForName c n = Ok (Hash f).
Proof.
  unfold GetMeta, read_meta. destruct (GetHashForName _ n) as [h|]; [|done].
  destruct (objects _ !! h) as [v|]; [|done]. destruct (decodeObjectMeta v) as [m|]; [|done].
  destruct (Size m <? 0); [done|]. by intros [= <-].
Qed.

(** A lifecycle pass acts on exactly the objects it should: every visible object that
    the first enabled rule matching its name does not expire reads byte for byte as
    before, with the same metadata, whatever happened to the others and even if the pass
    stops at an error; when the pass succeeds every expired object is gone and the
    reported number is the number of expired objects.  The store keeps its invariant. *)
Theorem lifecycle_exact s bkt cfg now rd r s' out :
  cas_inv (store s) → (∀ n, is_int64 (delete_now (rd n))) → BucketLifecycle s bkt = Ok (Some cfg) →
  EvaluateLifecycle s bkt now rd = (r, s', out) →
  cas_inv (store s') ∧
  (∀ n f c, GetMeta (store s) n = Ok f → blob_view (blobs (store s)) !! Hash f = Some c → c ≠ [] →
     ¬ expires cfg now f → Get (store s') n = Get (store s) n) ∧
  (r = Ok tt → (∀ n f, GetMeta (store s) n = Ok f → expires cfg now f → GetHashForName (store s') n = Err (Errno ENOENT)) ∧
     ∃ l, List (store s) = Ok l ∧ Expired out = count_expired cfg now l).
Proof.
  intros Hi Hrd Hcfg Hev. destruct (List_exact (store s) Hi) as (l & Hl & _ & Hmem).
  rewrite (EvaluateLifecycle_loop _ _ _ _ _ _ Hcfg Hl) in Hev.
  destruct (lifecycle_loop_spec _ _ _ _ _ _ _ _ _ _ _ Hi Hrd Hev) as (Hi' & _ & Hr & Hok). split_and!; [done| |].
  - intros n f c Hf Hc Hcn Hne. destruct (GetMeta_named _ _ _ Hf) as [En Hg]. eapply Hr; [|done..].
    intros f' Hf' En'. apply Hmem in Hf'. rewrite En', Hf in Hf'. by injection Hf' as <-.
  - intros Hr'. destruct (Hok Hr') as [Hex Hcnt]. split; [|exists l; split; [done|cbn in Hcnt; lia]].
    intros n f Hf He. destruct (GetMeta_named _ _ _ Hf) as [En _]. rewrite <- En. apply Hex; [|done]. apply Hmem. by rewrite En.
Qed.
End Guarantees.

(** ** Witnesses and examples: a store over the reference backend *)
Definition lc_day : Z := 24 * hour.
Definition lc_body : bytes := bs "hello".
Definition lc_hash : bytes := HashBytes lc_body.
Definition lc_rule : LifecycleRule := mkRule (bs "r") LifecycleEnabled (bs "log/") 30 0 [].
Definition lc_cas : CASStore (gmap bytes bytes) :=
  let s := (Put (newCASStore ∅) (bs "log/a") lc_hash 5 [] (Some (reader_of lc_body)) lc_day).2 in
  (Put s (bs "doc/b") (HashBytes (bs "doc")) 3 [] (Some (reader_of (bs "doc"))) lc_day).2.
Definition lc_vs : VStore (gmap bytes bytes) := mkVS lc_cas (mkVDB ∅ ∅ ∅ ∅) None.
Definition lc_store : LStore (gmap bytes bytes) := (SetBucketLifecycle (mkLS lc_vs ∅ ∅) (bs "b") [lc_rule]).2.
Definition lc_rd (n : bytes) : reading := mkReading (Some (repeat Byte.x01 16)) (40 * lc_day) (40 * lc_day).
Definition lc_run := EvaluateLifecycle lc_store (bs "b") (32 * lc_day) lc_rd.

Lemma triple_eta {X Y Z} (x : X * Y * Z) : x = (x.1.1, x.1.2, x.2).
Proof. by destruct x as [[? ?] ?]. Qed.

Lemma lc_cas_inv : cas_inv lc_cas.
Proof.
  apply Put_inv; [apply Put_inv; [by apply new_inv|done|done|vm_compute; done]|done|done|vm_compute; done].
Qed.

Lemma lifecycle_exact_witness :
  lc_run.1.1 = Ok tt ∧ Expired lc_run.2 = 1 ∧ expires [lc_rule] (32 * lc_day) (mkFile (bs "log/a") lc_hash 5 [] lc_day) ∧
  cas_inv (cas (vs lc_run.1.2)) ∧
  (∀ n f c, GetMeta (cas (vs lc_store)) n = Ok f → blob_view (blobs (cas (vs lc_store))) !! Hash f = Some c → c ≠ [] →
     ¬ expires [lc_rule] (32 * lc_day) f → Get (cas (vs lc_run.1.2)) n = Get (cas (vs lc_store)) n) ∧
  (lc_run.1.1 = Ok tt → (∀ n f, GetMeta (cas (vs lc_store)) n = Ok f → expires [lc_rule] (32 * lc_day) f →
       GetHashForName (cas (vs lc_run.1.2)) n = Err (Errno ENOENT)) ∧
     ∃ l, List (cas (vs lc_store)) = Ok l ∧ Expired lc_run.2 = count_expired [lc_rule] (32 * lc_day) l).
Proof.
  split; [vm_compute; reflexivity|]. split; [vm_compute; reflexivity|].
  split; [apply expires_now_spec; vm_compute; reflexivity|].
  apply (lifecycle_exact lc_store (bs "b") [lc_rule] (32 * lc_day) lc_rd lc_run.1.1 lc_run.1.2 lc_run.2);
    [exact lc_cas_inv|done|vm_compute; reflexivity|exact (triple_eta lc_run)].
Defined.

(** Ages are whole days: an object expires on the day, not a microsecond before. *)
Example ageDays_boundary : ageDays (30 * lc_day) 0 = 30 ∧ ageDays (30 * lc_day - 1000) 0 = 29 ∧ ageDays 0 (5 * lc_day) = -5.
Proof. vm_compute. split_and!; reflexivity. Qed.

(** On a versioned bucket expiration records a delete marker, but then deletes the object:
    the last reference goes, the blob is removed and the version the marker should
    preserve, here under a COMPLIANCE lock, can no longer be read. *)
Example lifecycle_destroys_locked_version :
  let v := (SetBucketVersioning lc_vs (bs "b") VersioningEnabled).2 in
  let v := (RecordVersion v (bs "b") (bs "log/a") lc_hash 5 (Some (repeat Byte.x02 16)) 1).2 in
  let vid := match newVersionID (Some (repeat Byte.x02 16)) with Ok id => id | Err _ => [] end in
  let v := (PutVersionLock v (bs "b") (bs "log/a") vid (mkLock LockModeCompliance (10 ^ 12) false) false 1).2 in
  let s := (SetBucketLifecycle (mkLS v ∅ ∅) (bs "b") [lc_rule]).2 in
  let '(r, s', out) := EvaluateLifecycle s (bs "b") (32 * lc_day) lc_rd in
  is_ok (GetVersionContent (vs s) (bs "b") (bs "log/a") vid) = true ∧
  r = Ok tt ∧ Expired out = 1 ∧
  is_ok (GetVersion (vs s') (bs "b") (bs "log/a") vid) = true ∧
  is_ok (GetVersionContent (vs s') (bs "b") (bs "log/a") vid) = false ∧
  (DeleteVersion (vs s) (bs "b") (bs "log/a") vid 5 false).1 = Err (Errno EACCES).
Proof. vm_compute. split_and!; reflexivity. Qed.

(** ** S3 headers at rest *)
Definition headers_utf8 (h : headers) : Prop := ∀ k v, h !! k = Some v → utf8 k ∧ utf8 v.

Lemma put_headers_union (l : list (bytes * bytes)) (m : headers) :
  NoDup l.*1 → (∀ k v, (k, v) ∈ l → utf8 k ∧ utf8 v) → foldl put_header m l = list_to_map l ∪ m.
Proof.
  revert m. induction l as [|[k v] l IH]; intros m Hnd Hu; cbn [foldl].
  { by rewrite list_to_map_nil, (left_id_L ∅ (∪)). }
  apply NoDup_cons in Hnd as [Hk Hnd]. destruct (Hu k v) as [Uk Uv]; [left|].
  unfold put_header at 2. cbn [fst snd]. rewrite !json_valid_id, IH by (done || (intros; apply Hu; by right)).
  rewrite list_to_map_cons, <- insert_union_l. symmetry. apply insert_union_r. by apply not_elem_of_list_to_map_1.
Qed.

Lemma headers_doc_id h : headers_utf8 h → headers_doc h = Doc h.
Proof.
  intros Hu. unfold headers_doc. rewrite put_headers_union, (right_id_L ∅ (∪)).
  - f_equal. rewrite (list_to_map_proper (cursor h) (map_to_list h)); [apply list_to_map_to_list|apply cursor_keys_nodup|apply cursor_perm].
  - apply cursor_keys_nodup.
  - intros k v Hin%elem_of_cursor. by apply Hu.
Qed.

Section Headers.
Context {B : Type} `{BlobStore B}.
Implicit Types (s : LStore B).

(** Headers in UTF-8 that are stored read back unchanged, for their object only;
    headers whose document would exceed the limit are refused and nothing changes. *)
Theorem S3Meta_roundtrip s name h :
  headers_utf8 h → h ≠ ∅ → key_ok name →
  (Z.of_nat (length (marshal_headers h)) <= MaxS3MetaJSONBytes →
     (PutS3Meta s name h).1 = Ok tt ∧ GetS3Meta (PutS3Meta s name h).2 name = Some h) ∧
  (MaxS3MetaJSONBytes < Z.of_nat (length (marshal_headers h)) → PutS3Meta s name h = (Err (Errno EOVERFLOW), s)) ∧
  (∀ n, n ≠ name → GetS3Meta (PutS3Meta s name h).2 n = GetS3Meta s n).
Proof.
  intros Hu Hne Hk. unfold PutS3Meta, MarshalS3MetaJSON. rewrite decide_False by done.
  destruct (Z.ltb_spec MaxS3MetaJSONBytes (Z.of_nat (length (marshal_headers h)))); [split_and!; [lia|done|done]|].
  rewrite bput_ok by done. cbn [fst snd]. split_and!; [|lia|].
  - intros _. split; [done|]. unfold GetS3Meta. cbn [s3meta with_s3meta]. by rewrite lookup_insert_eq, headers_doc_id.
  - intros n Hn. unfold GetS3Meta. cbn [s3meta with_s3meta]. by rewrite lookup_insert_ne by done.
Qed.

(** A transition records the class of the rule and keeps every other header. *)
Theorem SetStorageClass_spec s name class h s' :
  headers_utf8 h → utf8 class → class ≠ [] → default ∅ (GetS3Meta s name) = h → SetStorageClass s name class = (Ok tt, s') →
  GetS3Meta s' name = Some (<[class_header := class]> h).
Proof.
  intros Hu Hc Hne Hh. unfold SetStorageClass. rewrite Hh. case_bool_decide as Hd.
  - intros [= <-]. assert (h !! class_header = Some class) as Hl by (destruct (h !! class_header); naive_solver).
    rewrite insert_id by done. destruct (GetS3Meta s name) as [h'|]; [by subst|]. cbn in Hh. subst. by rewrite lookup_empty in Hl.
  - unfold PutS3Meta, MarshalS3MetaJSON. rewrite decide_False by apply insert_non_empty.
    destruct (_ <? _); [done|]. destruct (bput _ _ _) as [m|] eqn:Eb; [|done]. intros [= <-].
    apply bput_Some in Eb as [-> _]. unfold GetS3Meta. cbn [s3meta with_s3meta]. rewrite lookup_insert_eq, headers_doc_id; [done|].
    intros k v [[<- <-]|[_ Hk]]%lookup_insert_Some; [by split|by apply Hu].
Qed.
End Headers.

(** A delete leaves the S3 headers of the object behind, and a write without headers does
    not replace them: the next object of that name inherits the class and the user
    metadata of the deleted one. *)
Example stale_headers :
  let h := {[class_header := bs "GLACIER"]} : headers in
  let s := (PutS3Meta lc_store (bs "log/a") h).2 in
  let s' := (delete_object s (bs "log/a") 7).2 in
  let again := with_vs (with_cas (Put (cas (vs s')) (bs "log/a") (HashBytes (bs "new")) 3 [] (Some (reader_of (bs "new"))) 8).2 (vs s')) s' in
  is_ok (GetHashForName (cas (vs s')) (bs "log/a")) = false ∧
  GetHashForName (cas (vs again)) (bs "log/a") = Ok (HashBytes (bs "new")) ∧
  (PutS3Meta again (bs "log/a") ∅).1 = Ok tt ∧
  GetS3Meta (PutS3Meta again (bs "log/a") ∅).2 (bs "log/a") = Some h.
Proof.
  cbv zeta. split; [vm_compute; reflexivity|]. split; [vm_compute; reflexivity|]. split; [vm_compute; reflexivity|].
  apply (bool_decide_unpack _). vm_compute. exact I.
Qed.
