(* ===== verification/Rebalance.v ===== *)
(** * Rebalancing (src/src/server/rebalance.go, rebuild_source.go, bandwidth.go, src/src/storage/rebalance_blobs.go)

    One node shedding blobs to its peers: the shed cycle, the migration to a peer that
    joined, and the daemon's pusher with its cache of connections.  What a peer does
    with an offered blob is a parameter; so are the disk readings, the outcome of dialling
    and the order [sort.Slice] gives to blobs of equal age. *)
From S2P Require Import Prelude GoText Float64 Hashes BlobStore CasStore Crush.
From Stdlib Require SpecFloat.
Open Scope Z_scope.

(** ** Data *)
Record BlobInfo := mkBlobInfo { BHash : bytes; BSize : Z; BModTime : Z }.

Record ConfigurationRebalance := mkRebalance {
  REnabled : bool;
  RInterval : Z;
  DiskHighWater : float64;
  DiskLowWater : float64;
  MaxShedPerCycle : Z;
  MaxBandwidthMbps : float64
}.

(** How an exchange with a peer ends: metadata refused, the peer already has the blob,
    the payload or the acknowledgement failed, or the blob was acknowledged. *)
Inductive exchange := MetaFailed | Skipped | PayloadFailed | AckFailed | Acked.

(** The rebalance counters. *)
Record counters := mkCounters { movedBlobs : Z; movedBytes : Z; pushFailures : Z }.

(** ** Bandwidth: the chunks of a throttled write *)
Definition chunkSize : Z := 65536.

Definition throttle_chunk (burst : float64) : Z :=
  let chunk := if f64_trunc burst <? chunkSize then f64_trunc burst else chunkSize in
  if chunk <? 1 then 1 else chunk.

(** [mbps] megabits per second, in bytes. *)
Definition limiter_rate (mbps : float64) : float64 := fdiv (fmul mbps (f64 1000000)) (f64 8).

Fixpoint chunks_loop (fuel : nat) (chunk : nat) (data : bytes) : list bytes :=
  match fuel, data with
  | S fuel, _ :: _ => take chunk data :: chunks_loop fuel chunk (drop chunk data)
  | _, _ => []
  end.

(** The writes of [writeThrottled], in order: one without a limiter. *)
Definition writeThrottled (limiter : option float64) (data : bytes) : list bytes :=
  match limiter with
  | None => [data]
  | Some burst => chunks_loop (length data) (Z.to_nat (throttle_chunk burst)) data
  end.

(** ** Placement *)
Section Owners.
Variable scoreBits : Z → Z → Z.

Definition placementOwnership (cmap : list (option Node)) (hash : bytes) (rf self peerID : Z) : result (bool * bool) :=
  let! placement := Placement scoreBits cmap hash rf in
  Ok (foldl (λ acc n, (acc.1 || (ID n =? peerID), acc.2 || (ID n =? self))) (false, false) placement).

Definition pickShedTarget (cmap : list (option Node)) (hash : bytes) (self rf : Z) : option Z :=
  match Placement scoreBits cmap hash rf with
  | Err _ => None
  | Ok placement => ID <$> find (λ n, negb (ID n =? self)) placement
  end.

(** [DaemonRebuildSource.Survivors]: where a read looks for a blob that is not here. *)
Definition daemonSurvivors (cmap : list (option Node)) (hash : bytes) (self rf : Z) : result (list (Z * bytes)) :=
  let! placement := Placement scoreBits cmap hash rf in
  Ok ((λ n, (ID n, Domain n)) <$> filter (λ n, ID n ≠ self) placement).
End Owners.

(** The cluster map of [NewDaemonRebuildSource]: one node of weight 1 per daemon. *)
Fixpoint daemon_nodes (i : nat) (daemons : list (bytes * bytes)) : list (option Node) :=
  match daemons with
  | [] => []
  | (host, domain) :: rest => Some (mkNode i (Z.of_nat i) 1 host domain) :: daemon_nodes (S i) rest
  end.
Definition daemon_cmap (daemons : list (bytes * bytes)) : list (option Node) := daemon_nodes 0 daemons.

(** ** The node and its peers *)
Section Ops.
Context {B : Type} `{BlobStore B}.
(* the seams of the backend: its enumeration and its sizes *)
Context (WalkBlobs : option (B → result (list BlobInfo))) (BlobSizer : option (B → bytes → result Z)).
(* a peer, and what it does with an offered blob *)
Context {P : Type} (offer : P → bytes → Z → bytes → exchange * P).
Context (scoreBits : Z → Z → Z) (sort_cold : list BlobInfo → list BlobInfo).

Record daemon := mkDaemon {
  store : CASStore B;
  peers : gmap Z P;
  cache : gmap Z nat;        (* transportCache: the connection kept for a peer *)
  opened : gset nat;         (* connections that are open *)
  next_conn : nat;
  stats : counters
}.

Definition with_store (c : CASStore B) (d : daemon) : daemon :=
  mkDaemon c (peers d) (cache d) (opened d) (next_conn d) (stats d).
Definition with_peers (p : gmap Z P) (d : daemon) : daemon :=
  mkDaemon (store d) p (cache d) (opened d) (next_conn d) (stats d).
Definition with_conns (c : gmap Z nat) (o : gset nat) (n : nat) (d : daemon) : daemon :=
  mkDaemon (store d) (peers d) c o n (stats d).
Definition with_stats (c : counters) (d : daemon) : daemon :=
  mkDaemon (store d) (peers d) (cache d) (opened d) (next_conn d) c.

(** *** Blobs on this node *)
Definition ListBlobs (c : CASStore B) : result (list BlobInfo) :=
  match WalkBlobs with
  | None => Err (Errno ENOTSUP)
  | Some walk => walk (blobs c)
  end.

Definition GetBlobByHash (c : CASStore B) (hash : bytes) : result bytes := GetBlob (blobs c) hash.

Definition BlobSize (c : CASStore B) (hash : bytes) : result Z :=
  match BlobSizer with
  | None => Err (Errno ENOTSUP)
  | Some f => f (blobs c) hash
  end.

Definition DropBlob (c : CASStore B) (hash : bytes) : result unit * CASStore B :=
  let '(r, b) := DeleteBlob (blobs c) hash in (r, with_blobs b c).

(** *** The pusher *)

(** [dialPeer]: a cached connection is returned as it is; [dialled] is the outcome of
    dialling and shaking hands. *)
Definition dialPeer (n : Z) (self : Z) (d : daemon) (peerID : Z) (dialled : result unit) : result nat * daemon :=
  if (peerID <? 0) || (n <=? peerID) then (Err (Errno EINVAL), d)
  else if peerID =? self then (Err (Errno EINVAL), d)
  else match cache d !! peerID with
       | Some c => (Ok c, d)
       | None =>
           match dialled with
           | Err e => (Err e, d)
           | Ok _ => let c := next_conn d in
                     (Ok c, with_conns (<[peerID := c]> (cache d)) ({[c]} ∪ opened d) (S c) d)
           end
       end.

(** The exchange over one connection, which is closed at the end: on a connection that
    is closed already the first write fails. *)
Definition converse (d : daemon) (peerID : Z) (c : nat) (hash : bytes) (size : Z) (data : bytes) : exchange * daemon :=
  let d' := with_conns (cache d) (opened d ∖ {[c]}) (next_conn d) d in
  if bool_decide (c ∈ opened d) then
    match peers d !! peerID with
    | None => (MetaFailed, d')
    | Some p => let '(x, p) := offer p hash size data in (x, with_peers (<[peerID := p]> (peers d)) d')
    end
  else (MetaFailed, d').

Definition exchange_result (x : exchange) : result unit :=
  match x with Skipped | Acked => Ok tt | _ => Err ErrPlain end.

(** [pushReaderToPeer] (the size is the directory's) and [pushToPeer] (the length read). *)
Definition push_to (n self : Z) (d : daemon) (targetID : Z) (hash : bytes) (size : Z) (data : bytes) (dialled : result unit)
    : result unit * daemon :=
  match dialPeer n self d targetID dialled with
  | (Err e, d) => (Err e, d)
  | (Ok c, d) => let '(x, d) := converse d targetID c hash size data in (exchange_result x, d)
  end.

Definition recordRebalancePush (n : Z) (failed : bool) (d : daemon) : daemon :=
  let s := stats d in
  with_stats (if failed then mkCounters (movedBlobs s) (movedBytes s) (uint64 (pushFailures s + 1))
              else mkCounters (uint64 (movedBlobs s + 1)) (uint64 (movedBytes s + uint64 n)) (pushFailures s)) d.

Definition Push (n self : Z) (d : daemon) (hash : bytes) (targetID : Z) (dialled : result unit) : result unit * daemon :=
  match GetBlobByHash (store d) hash with
  | Err e => (Err e, d)
  | Ok data =>
      let size := match BlobSize (store d) hash with Ok sz => sz | Err _ => Z.of_nat (length data) end in
      let '(r, d) := push_to n self d targetID hash size data dialled in
      (r, recordRebalancePush size (negb (is_ok r)) d)
  end.

(** *** The shed cycle *)
Definition diskUsedPercent (usage : result (Z * Z)) : result float64 :=
  let! uf := usage in
  let total := uint64 (uf.1 + uf.2) in
  if total =? 0 then Err (Errno EIO) else Ok (fdiv (fmul (f64 uf.1) (f64 100)) (f64 total)).

(** One blob: pushed, then dropped; whether it moved. *)
Definition move_blob (n self : Z) (d : daemon) (hash : bytes) (target : Z) (dialled : result unit) : bool * daemon :=
  match Push n self d hash target dialled with
  | (Err _, d) => (false, d)
  | (Ok _, d) => match DropBlob (store d) hash with
                 | (Err _, c) => (false, with_store c d)
                 | (Ok _, c) => (true, with_store c d)
                 end
  end.

Fixpoint shed_loop (n self rf : Z) (cmap : list (option Node)) (rc : ConfigurationRebalance) (usage : nat → result (Z * Z))
    (dials : bytes → result unit) (l : list BlobInfo) (d : daemon) (moved : nat) (usedPct : float64) : nat * daemon :=
  match l with
  | [] => (moved, d)
  | blob :: rest =>
      if (MaxShedPerCycle rc <=? Z.of_nat moved) || SpecFloat.SFleb usedPct (DiskLowWater rc) then (moved, d)
      else match pickShedTarget scoreBits cmap (BHash blob) self rf with
           | None => shed_loop n self rf cmap rc usage dials rest d moved usedPct
           | Some target =>
               match move_blob n self d (BHash blob) target (dials (BHash blob)) with
               | (false, d) => shed_loop n self rf cmap rc usage dials rest d moved usedPct
               | (true, d) =>
                   let usedPct := match diskUsedPercent (usage (S moved)) with Ok pct => pct | Err _ => usedPct end in
                   shed_loop n self rf cmap rc usage dials rest d (S moved) usedPct
               end
           end
  end.

(** [usage i] is the disk reading taken after [i] moves. *)
Definition rebalanceCycle (n self rf : Z) (cmap : list (option Node)) (rc : ConfigurationRebalance) (usage : nat → result (Z * Z))
    (dials : bytes → result unit) (d : daemon) : result nat * daemon :=
  match diskUsedPercent (usage 0%nat) with
  | Err e => (Err e, d)
  | Ok usedPct =>
      if SpecFloat.SFltb usedPct (DiskHighWater rc) then (Ok 0%nat, d)
      else match ListBlobs (store d) with
           | Err e => (Err e, d)
           | Ok l => let '(moved, d) := shed_loop n self rf cmap rc usage dials (sort_cold l) d 0 usedPct in (Ok moved, d)
           end
  end.

(** *** Migration to a peer that joined *)
Definition migrateBlob (n self rf : Z) (cmap : list (option Node)) (d : daemon) (hash : bytes) (peerID : Z) (dialled : result unit)
    : bool * daemon :=
  match placementOwnership scoreBits cmap hash rf self peerID with
  | Ok (true, false) => move_blob n self d hash peerID dialled
  | _ => (false, d)
  end.

(** [alive i] is whether the context is still alive before the [i]-th blob from the end. *)
Fixpoint migrate_loop (n self rf : Z) (cmap : list (option Node)) (rc : ConfigurationRebalance) (alive : nat → bool)
    (dials : bytes → result unit) (peerID : Z) (l : list BlobInfo) (d : daemon) (moved : nat) : nat * daemon :=
  match l with
  | [] => (moved, d)
  | blob :: rest =>
      if (MaxShedPerCycle rc <=? Z.of_nat moved) || negb (alive (length rest)) then (moved, d)
      else let '(ok, d) := migrateBlob n self rf cmap d (BHash blob) peerID (dials (BHash blob)) in
           migrate_loop n self rf cmap rc alive dials peerID rest d (if ok : bool then S moved else moved)
  end.

Definition migrateToPeer (n self rf : Z) (cmap : list (option Node)) (rc : ConfigurationRebalance) (alive : nat → bool)
    (dials : bytes → result unit) (d : daemon) (peerID : Z) : result nat * daemon :=
  match ListBlobs (store d) with
  | Err e => (Err e, d)
  | Ok l => let '(moved, d) := migrate_loop n self rf cmap rc alive dials peerID (sort_cold l) d 0 in (Ok moved, d)
  end.
End Ops.

Arguments daemon : clear implicits.
Arguments mkDaemon {B P}.
Arguments store {B P}.
Arguments peers {B P}.
Arguments cache {B P}.
Arguments opened {B P}.
Arguments next_conn {B P}.
Arguments stats {B P}.

(** ** Placement: who owns a blob *)
Section OwnerFacts.
Variable scoreBits : Z → Z → Z.

Definition owner (cmap : list (option Node)) (rf : Z) (hash : bytes) (node : Z) : Prop :=
  ∃ pl n, Placement scoreBits cmap hash rf = Ok pl ∧ n ∈ pl ∧ ID n = node.

Lemma placementOwnership_spec cmap hash rf self peerID p s :
  placementOwnership scoreBits cmap hash rf self peerID = Ok (p, s) →
  (p = true ↔ owner cmap rf hash peerID) ∧ (s = true ↔ owner cmap rf hash self).
Proof.
  unfold placementOwnership, owner. destruct (Placement _ _ _ _) as [pl|]; [|done]. intros [= E].
  assert (∀ l a b, foldl (λ acc n, (acc.1 || (ID n =? peerID), acc.2 || (ID n =? self))) (a, b) l =
            (a || existsb (λ n, ID n =? peerID) l, b || existsb (λ n, ID n =? self) l)) as Hf.
  { induction l as [|n l IH]; intros a b; cbn [foldl existsb]; [by rewrite !orb_false_r|]. cbn [fst snd]. by rewrite IH, !orb_assoc. }
  rewrite Hf in E. injection E as <- <-. cbn [orb].
  assert (∀ i, existsb (λ n, ID n =? i) pl = true ↔ ∃ pl0 n, Ok pl = Ok pl0 ∧ n ∈ pl0 ∧ ID n = i) as He.
  { intros i. rewrite existsb_exists. setoid_rewrite Z.eqb_eq. setoid_rewrite <- list_elem_of_In. split.
    - intros (n & ? & ?). eauto.
    - intros (pl0 & n & [= <-] & ? & ?). eauto. }
  split; apply He.
Qed.

Lemma pickShedTarget_spec cmap hash self rf t :
  pickShedTarget scoreBits cmap hash self rf = Some t → owner cmap rf hash t ∧ t ≠ self.
Proof.
  unfold pickShedTarget, owner. destruct (Placement _ _ _ _) as [pl|]; [|done]. intros Hf.
  destruct (find _ pl) as [n|] eqn:E; [|done]. injection Hf as <-. apply find_some in E as [Hin Hn].
  apply negb_true_iff, Z.eqb_neq in Hn. split; [|done]. exists pl, n. split_and!; [done|by apply list_elem_of_In|done].
Qed.

(** The nodes a degraded read asks are the owners other than this one. *)
Lemma daemonSurvivors_spec cmap hash self rf l t :
  daemonSurvivors scoreBits cmap hash self rf = Ok l → t ∈ l.*1 ↔ owner cmap rf hash t ∧ t ≠ self.
Proof.
  unfold daemonSurvivors, owner. destruct (Placement _ _ _ _) as [pl|]; [|done]. intros [= <-].
  rewrite <- list_fmap_compose, list_elem_of_fmap. setoid_rewrite list_elem_of_filter. cbn. split.
  - intros (n & -> & Hn & Hin). split; [|done]. by exists pl, n.
  - intros [(pl0 & n & [= <-] & Hin & <-) Hn]. by exists n.
Qed.
End OwnerFacts.

(** ** What a pass preserves *)
Section Guarantees.
Context {B : Type} `{Hspec : BlobStoreSpec B}.
Context (WalkBlobs : option (B → result (list BlobInfo))) (BlobSizer : option (B → bytes → result Z)).
Context {P : Type} (offer : P → bytes → Z → bytes → exchange * P) (told : P → bytes → bytes → Prop).
Context (scoreBits : Z → Z → Z) (sort_cold : list BlobInfo → list BlobInfo).

(** [told p h data]: peer [p] was offered [data] under [h] and acknowledged it or declined
    it as known. *)
Hypothesis offer_keeps : ∀ p h sz data k x, told p k x → told (offer p h sz data).2 k x.
Hypothesis offer_told : ∀ p h sz data x p', offer p h sz data = (x, p') → x = Skipped ∨ x = Acked → told p' h data.

Notation view d := (blob_view (blobs (store d))).

Definition peer_told (d : daemon B P) (t : Z) (h data : bytes) : Prop := ∃ p, peers d !! t = Some p ∧ told p h data.

Definition peers_keep (d d' : daemon B P) : Prop := ∀ t h x, peer_told d t h x → peer_told d' t h x.

Lemma Push_spec n self d hash t dialled r d' :
  Push BlobSizer offer n self d hash t dialled = (r, d') →
  store d' = store d ∧ peers_keep d d' ∧ (r = Ok tt → t ≠ self ∧ ∃ data, GetBlob (blobs (store d)) hash = Ok data ∧ peer_told d' t hash data).
Proof.
  unfold Push, GetBlobByHash. destruct (GetBlob _ _) as [data|]; [|intros [= <- <-]; split_and!; [done|by intros ? ?|done]].
  set (sz := match BlobSize _ _ _ with Ok _ => _ | Err _ => _ end). unfold push_to.
  destruct (dialPeer n self d t dialled) as [rc d1] eqn:Ed.
  assert (store d1 = store d ∧ peers d1 = peers d ∧ (is_ok rc = true → t ≠ self)) as (Es & Ep & Hself).
  { unfold dialPeer in Ed. destruct (_ || _); [by injection Ed as <- <-|]. destruct (Z.eqb_spec t self); [by injection Ed as <- <-|].
    destruct (cache d !! t); [by injection Ed as <- <-|]. by destruct dialled; injection Ed as <- <-. }
  destruct rc as [c|]; [|intros [= <- <-]; split_and!; [done| |done]; intros t' h y (p & Hp & ?); exists p; cbn; by rewrite Ep].
  unfold converse. case_bool_decide; [|intros [= <- <-]; split_and!; [done| |done]; intros t' h y (p & Hp & ?); exists p; cbn; by rewrite Ep].
  rewrite Ep. destruct (peers d !! t) as [p|] eqn:Et;
    [|intros [= <- <-]; split_and!; [done| |done]; intros t' h y (p & Hp & ?); exists p; cbn; by rewrite Ep].
  destruct (offer p hash sz data) as [x p'] eqn:Eo. intros [= <- <-].
  split_and!; [done| |].
  - intros t' h y (q & Hq & Hh). unfold peer_told. cbn [peers recordRebalancePush with_stats with_peers]. destruct (decide (t' = t)) as [->|Hne].
    + exists p'. rewrite lookup_insert_eq. split; [done|]. rewrite Et in Hq. injection Hq as <-.
      pose proof (offer_keeps p hash sz data h y Hh) as Hk. by rewrite Eo in Hk.
    + exists q. by rewrite lookup_insert_ne by done.
  - intros Hx. split; [by apply Hself|]. exists data. split; [done|]. exists p'. cbn [peers recordRebalancePush with_stats with_peers]. rewrite lookup_insert_eq.
    split; [done|]. apply (offer_told _ _ _ _ _ _ Eo). destruct x; cbn in Hx; auto; discriminate Hx.
Qed.

(** [d] became [d'] by moves to peers that [good] allows: every blob is still here with
    its bytes, or an allowed peer answered for it. *)
Definition moves (good : bytes → Z → Prop) (d d' : daemon B P) : Prop :=
  blob_inv (blobs (store d)) →
  blob_inv (blobs (store d')) ∧ peers_keep d d' ∧
  ∀ h c, view d !! h = Some c → view d' !! h = Some c ∨ ∃ t data, good h t ∧ peer_told d' t h data ∧ (c ≠ [] → data = c).

#[local] Instance moves_preorder good : PreOrder (moves good).
Proof.
  split.
  - intros d Hi. split_and!; [done|by intros ? ?|auto].
  - intros a b c H1 H2 Hi. destruct (H1 Hi) as (Hib & Hk1 & Hv1). destruct (H2 Hib) as (Hic & Hk2 & Hv2).
    split_and!; [done|intros t h x ?; auto|]. intros h x Hx. destruct (Hv1 h x Hx) as [Hy|(t & data & Hg & Hp & Hd)]; [by apply Hv2|].
    right. exists t, data. split_and!; [done|by apply Hk2|done].
Qed.

Lemma move_blob_moves (good : bytes → Z → Prop) n self d hash t dialled ok d' :
  (t ≠ self → good hash t) → move_blob BlobSizer offer n self d hash t dialled = (ok, d') → moves good d d'.
Proof.
  intros Hg. unfold move_blob. destruct (Push _ _ _ _ _ _ _ _) as [r d1] eqn:Ep.
  destruct (Push_spec _ _ _ _ _ _ _ _ Ep) as (Es & Hk & Hok).
  destruct r as [[]|]; [|intros [= <- <-] Hi; rewrite Es; split_and!; auto].
  destruct (Hok eq_refl) as (Ht & data & Hdata & Hp). unfold DropBlob. rewrite Es.
  destruct (DeleteBlob (blobs (store d)) hash) as [r b] eqn:Eb. intros Hm Hi.
  pose proof (delete_inv (blobs (store d)) hash Hi) as Hib. rewrite Eb in Hib. cbn in Hib.
  destruct r as [[]|]; injection Hm as <- <-; cbn [store with_store blobs with_blobs]; (split_and!; [done|done|]).
  - intros h c Hc. rewrite (delete_ok _ _ _ Hi Eb). destruct (decide (h = hash)) as [->|Hne].
    + right. exists t, data. split_and!; [by apply Hg|done|]. intros Hne. rewrite (get_ok _ _ _ Hi Hc Hne) in Hdata. congruence.
    + left. by rewrite lookup_delete_ne.
  - intros h c Hc. left. by rewrite (delete_err _ _ _ _ Hi Eb).
Qed.

Definition shed_to cmap rf self (h : bytes) (t : Z) : Prop := owner scoreBits cmap rf h t ∧ t ≠ self.
Definition migrated_to cmap rf self (h : bytes) (t : Z) : Prop := owner scoreBits cmap rf h t ∧ t ≠ self ∧ ¬ owner scoreBits cmap rf h self.

Lemma shed_loop_moves n self rf cmap rc usage dials l d moved pct k d' :
  shed_loop BlobSizer offer scoreBits n self rf cmap rc usage dials l d moved pct = (k, d') →
  moves (shed_to cmap rf self) d d' ∧ Z.of_nat k <= Z.max (Z.of_nat moved) (MaxShedPerCycle rc).
Proof.
  revert d moved pct. induction l as [|blob l IH]; intros d moved pct; cbn [shed_loop].
  { intros [= <- <-]. split; [reflexivity|lia]. }
  destruct (Z.leb_spec (MaxShedPerCycle rc) (Z.of_nat moved)); cbn [orb]; [intros [= <- <-]; split; [reflexivity|lia]|].
  destruct (SpecFloat.SFleb _ _); [intros [= <- <-]; split; [reflexivity|lia]|].
  destruct (pickShedTarget _ _ _ _ _) as [t|] eqn:Et; [|apply IH].
  destruct (move_blob _ _ _ _ _ _ _ _) as [ok d1] eqn:Em.
  assert (moves (shed_to cmap rf self) d d1) as Hm.
  { eapply move_blob_moves; [|exact Em]. intros _. by apply pickShedTarget_spec. }
  destruct ok; intros Hl; destruct (IH _ _ _ Hl) as [Hm' Hk]; (split; [by transitivity d1|lia]).
Qed.

Lemma migrate_loop_moves n self rf cmap rc alive dials peerID l d moved k d' :
  migrate_loop BlobSizer offer scoreBits n self rf cmap rc alive dials peerID l d moved = (k, d') →
  moves (migrated_to cmap rf self) d d' ∧ Z.of_nat k <= Z.max (Z.of_nat moved) (MaxShedPerCycle rc).
Proof.
  revert d moved. induction l as [|blob l IH]; intros d moved; cbn [migrate_loop].
  { intros [= <- <-]. split; [reflexivity|lia]. }
  destruct (Z.leb_spec (MaxShedPerCycle rc) (Z.of_nat moved)); cbn [orb]; [intros [= <- <-]; split; [reflexivity|lia]|].
  destruct (alive _); cbn [negb]; [|intros [= <- <-]; split; [reflexivity|lia]].
  destruct (migrateBlob _ _ _ _ _ _ _ _ _ _) as [ok d1] eqn:Em.
  assert (moves (migrated_to cmap rf self) d d1) as Hm.
  { unfold migrateBlob in Em. destruct (placementOwnership _ _ _ _ _ _) as [[p s]|] eqn:Eo; [|by injection Em as <- <-].
    destruct (placementOwnership_spec _ _ _ _ _ _ _ _ Eo) as [Hp Hs]. destruct p, s; try (by injection Em as <- <-).
    eapply move_blob_moves; [|exact Em]. intros Ht. split_and!; [by apply Hp|done|]. by rewrite <- Hs. }
  intros Hl. destruct (IH _ _ Hl) as [Hm' Hk]. split; [by transitivity d1|]. destruct ok; lia.
Qed.

Lemma shed_moves n self rf cmap rc usage dials d r d' :
  rebalanceCycle WalkBlobs BlobSizer offer scoreBits sort_cold n self rf cmap rc usage dials d = (r, d') →
  moves (shed_to cmap rf self) d d' ∧ ∀ k, r = Ok k → Z.of_nat k <= Z.max 0 (MaxShedPerCycle rc).
Proof.
  intros Hc. unfold rebalanceCycle in Hc. destruct (diskUsedPercent _) as [pct|]; [|injection Hc as <- <-; split; [reflexivity|done]].
  destruct (SpecFloat.SFltb _ _); [injection Hc as <- <-; split; [reflexivity|intros k [= <-]; lia]|].
  destruct (ListBlobs _ _) as [l|]; [|injection Hc as <- <-; split; [reflexivity|done]].
  destruct (shed_loop _ _ _ _ _ _ _ _ _ _ _ _ _ _) as [k d1] eqn:El. injection Hc as <- <-.
  destruct (shed_loop_moves _ _ _ _ _ _ _ _ _ _ _ _ _ El) as [Hm Hk]. split; [done|]. intros k' [= <-]. lia.
Qed.

Lemma migrate_moves n self rf cmap rc alive dials d peerID r d' :
  migrateToPeer WalkBlobs BlobSizer offer scoreBits sort_cold n self rf cmap rc alive dials d peerID = (r, d') →
  moves (migrated_to cmap rf self) d d'.
Proof.
  intros Hc. unfold migrateToPeer in Hc. destruct (ListBlobs _ _) as [l|]; [|by injection Hc as <- <-].
  destruct (migrate_loop _ _ _ _ _ _ _ _ _ _ _ _ _ _) as [k d1] eqn:El. injection Hc as <- <-.
  by destruct (migrate_loop_moves _ _ _ _ _ _ _ _ _ _ _ _ _ El).
Qed.

(** A push closes its connection but leaves it in the cache, so that after one successful
    push to a peer no later push to that peer can succeed: the closed connection is used
    again each time. *)
Theorem one_push_per_peer n self d hash t dialled d1 hash' dialled' :
  Push BlobSizer offer n self d hash t dialled = (Ok tt, d1) →
  is_ok (Push BlobSizer offer n self d1 hash' t dialled').1 = false.
Proof.
  intros Hp. assert (∃ c, cache d1 !! t = Some c ∧ c ∉ opened d1) as (c & Hc & Ho).
  { unfold Push in Hp. destruct (GetBlobByHash _ _) as [data|]; [|done]. unfold push_to in Hp.
    destruct (dialPeer n self d t dialled) as [[c|] d0] eqn:Ed; [|done]. exists c.
    assert (cache d0 !! t = Some c) as Hc.
    { unfold dialPeer in Ed. destruct (_ || _); [done|]. destruct (t =? self); [done|].
      destruct (cache d !! t) as [c'|] eqn:Ec; [injection Ed as <- <-; congruence|].
      destruct dialled; [|done]. injection Ed as <- <-. apply lookup_insert_eq. }
    unfold converse in Hp. case_bool_decide; [|done]. destruct (peers d0 !! t) as [p|]; [|done].
    destruct (offer _ _ _ _) as [x p']. injection Hp as _ <-. cbn. split; [done|]. set_solver. }
  unfold Push. destruct (GetBlobByHash _ _); [|done]. unfold push_to, dialPeer. destruct (_ || _); [done|]. destruct (t =? self); [done|].
  rewrite Hc. unfold converse. by rewrite bool_decide_eq_false_2.
Qed.
End Guarantees.

(** ** The answers of the peers *)
Section Answers.
Context {B : Type} `{Hspec : BlobStoreSpec B}.
Context (WalkBlobs : option (B → result (list BlobInfo))) (BlobSizer : option (B → bytes → result Z)).
Context {P : Type} (offer : P → bytes → Z → bytes → exchange * P).
Context (scoreBits : Z → Z → Z) (sort_cold : list BlobInfo → list BlobInfo).

(** A peer with a record of the blobs it was offered and of how each exchange ended. *)
Definition log : Type := list (bytes * bytes * exchange).
Definition logged (p : P * log) (h : bytes) (sz : Z) (data : bytes) : exchange * (P * log) :=
  let '(x, q) := offer p.1 h sz data in (x, (q, p.2 ++ [(h, data, x)])).

(** The peer acknowledged [data] under [h], or answered that it knows [h]. *)
Definition answered (p : P * log) (h data : bytes) : Prop := (h, data, Skipped) ∈ p.2 ∨ (h, data, Acked) ∈ p.2.

Lemma logged_keeps p h sz data k x : answered p k x → answered (logged p h sz data).2 k x.
Proof. unfold answered, logged. destruct (offer _ _ _ _). cbn. rewrite !elem_of_app. tauto. Qed.
Lemma logged_told p h sz data x p' : logged p h sz data = (x, p') → x = Skipped ∨ x = Acked → answered p' h data.
Proof. unfold answered, logged. destruct (offer _ _ _ _). intros [= <- <-] [-> | ->]; cbn; set_solver. Qed.

(** C37: Shedding drops a blob only after one of the peers that degraded reads ask for it
    has answered for it.  With the exchanges of the peers on record (an empty record before
    the cycle makes it the record of the cycle), over any backend whose stored blobs are
    sound: after a cycle every blob this node stored is still here with its bytes, or an
    owner of the blob other than this node was offered exactly these bytes (unless they are
    empty) and either acknowledged them or answered that it knows the digest; at most the
    configured number of blobs moved.  The second answer is given from the peer's metadata
    alone, so it is no promise that the peer holds the bytes: see [shed_loses_last_copy]. *)
Theorem shed_after_answer n self rf cmap rc usage dials (d : daemon B (P * log)) r d' :
  blob_inv (blobs (store d)) →
  rebalanceCycle WalkBlobs BlobSizer logged scoreBits sort_cold n self rf cmap rc usage dials d = (r, d') →
  (∀ h c, blob_view (blobs (store d)) !! h = Some c → blob_view (blobs (store d')) !! h = Some c ∨
     ∃ l t p data, daemonSurvivors scoreBits cmap h self rf = Ok l ∧ t ∈ l.*1 ∧ peers d' !! t = Some p ∧ answered p h data ∧ (c ≠ [] → data = c)) ∧
  (∀ k, r = Ok k → Z.of_nat k <= Z.max 0 (MaxShedPerCycle rc)).
Proof.
  intros Hi Hc. destruct (shed_moves _ _ logged answered _ _ logged_keeps logged_told _ _ _ _ _ _ _ _ _ _ Hc) as [Hm Hk].
  destruct (Hm Hi) as (_ & _ & Hv). split; [|done]. intros h c Hx.
  destruct (Hv h c Hx) as [|(t & data & [Ho Ht] & (p & Hp & Ha) & Hd)]; [by left|right].
  destruct (daemonSurvivors scoreBits cmap h self rf) as [l|] eqn:El.
  - exists l, t, p, data. split_and!; [done| |done..]. apply (daemonSurvivors_spec _ _ _ _ _ _ _ El). by split.
  - destruct Ho as (pl & n0 & Hpl & _). unfold daemonSurvivors in El. by rewrite Hpl in El.
Qed.

(** Migration to a joining peer never drops a blob this node itself owns under the
    placement. *)
Theorem migrate_keeps_owned n self rf cmap rc alive dials (d : daemon B P) peerID r d' :
  blob_inv (blobs (store d)) →
  migrateToPeer WalkBlobs BlobSizer offer scoreBits sort_cold n self rf cmap rc alive dials d peerID = (r, d') →
  ∀ h c, owner scoreBits cmap rf h self → blob_view (blobs (store d)) !! h = Some c → blob_view (blobs (store d')) !! h = Some c.
Proof.
  intros Hi Hc h c Ho Hx.
  pose proof (migrate_moves WalkBlobs BlobSizer offer (λ _ _ _, True) _ _ (λ _ _ _ _ _ _ _, I) (λ _ _ _ _ _ _ _ _, I) _ _ _ _ _ _ _ _ _ _ _ Hc Hi) as (_ & _ & Hv).
  by destruct (Hv h c Hx) as [|(t & _ & (_ & _ & Hn) & _)].
Qed.
End Answers.

(** ** A throttled write is the data, in chunks the budget can cover *)
Lemma chunks_spec fuel chunk data :
  (length data <= fuel)%nat → (0 < chunk)%nat →
  concat (chunks_loop fuel chunk data) = data ∧ Forall (λ c, (0 < length c <= chunk)%nat) (chunks_loop fuel chunk data).
Proof.
  revert data. induction fuel as [|fuel IH]; intros [|b data] Hl Hc; cbn [chunks_loop concat]; cbn in Hl; try (split; [done|constructor]); [lia|].
  destruct (IH (drop chunk (b :: data))) as [H1 H2]; [rewrite length_drop; cbn; lia|done|].
  rewrite H1, take_drop. split; [done|]. constructor; [|done]. rewrite length_take. cbn [length]. lia.
Qed.

(** Every byte is written once and in order; with a limiter no write exceeds its burst as
    long as the burst covers one byte. *)
Theorem writeThrottled_exact limiter data :
  concat (writeThrottled limiter data) = data ∧
  ∀ burst, limiter = Some burst → 1 <= f64_trunc burst →
    Forall (λ c, Z.of_nat (length c) <= f64_trunc burst) (writeThrottled limiter data).
Proof.
  destruct limiter as [burst|]; cbn [writeThrottled]; [|split; [by rewrite concat_cons, app_nil_r|done]].
  assert (1 <= throttle_chunk burst ∧ (1 <= f64_trunc burst → throttle_chunk burst <= f64_trunc burst)) as [H1 H2].
  { unfold throttle_chunk, chunkSize. repeat case_match; zbool; lia. }
  destruct (chunks_spec (length data) (Z.to_nat (throttle_chunk burst)) data) as [Hc Hf]; [done|lia|].
  split; [done|]. intros b' [= <-] Hb. specialize (H2 Hb). apply (Forall_impl _ _ _ Hf). lia.
Qed.

(** A limit below eight bits per second gives a burst of less than the one byte a chunk
    has: the budget never suffices. *)
Example starved_limiter :
  let burst := limiter_rate (fdiv (f64 1) (f64 1000000)) in
  throttle_chunk burst = 1 ∧ SpecFloat.SFltb burst (f64 1) = true.
Proof. vm_compute. split; reflexivity. Qed.

(** ** Witnesses: three daemons, this one is 0 *)
Definition rb_offer (p : gset bytes) (h : bytes) (size : Z) (data : bytes) : exchange * gset bytes :=
  if decide (h ∈ p) then (Skipped, p) else (Acked, {[h]} ∪ p).
Definition rb_score (w m : Z) : Z := m.
Definition rb_cmap : list (option Node) := daemon_cmap [(bs "a", []); (bs "b", []); (bs "c", [])].
Definition rb_walk (b : gmap bytes bytes) : result (list BlobInfo) :=
  Ok ((λ kv, mkBlobInfo kv.1 (Z.of_nat (length kv.2)) 0) <$> cursor b).
Definition rb_store : CASStore (gmap bytes bytes) := newCASStore (<[bs "h1" := bs "x"]> (<[bs "h5" := bs "y"]> (<[bs "h7" := bs "z"]> ∅))).
Definition rb_d : daemon (gmap bytes bytes) (gset bytes) :=
  mkDaemon rb_store (<[1 := ∅]> (<[2 := ∅]> ∅)) ∅ ∅ 0 (mkCounters 0 0 0).
Definition rb_cfg : ConfigurationRebalance := mkRebalance true 60 (f64 80) (f64 50) 10 (f64 0).
Definition rb_cycle : result nat * daemon (gmap bytes bytes) (gset bytes) :=
  rebalanceCycle (Some rb_walk) None rb_offer rb_score id 3 0 2 rb_cmap rb_cfg (λ _, Ok (90, 10)) (λ _, Ok tt) rb_d.
Definition rb_migrate : result nat * daemon (gmap bytes bytes) (gset bytes) :=
  migrateToPeer (Some rb_walk) None rb_offer rb_score id 3 0 2 rb_cmap rb_cfg (λ _, true) (λ _, Ok tt) rb_d 1.

Definition rb_logged : daemon (gmap bytes bytes) (gset bytes * log) :=
  mkDaemon rb_store (<[1 := (∅, [])]> (<[2 := (∅, [])]> ∅)) ∅ ∅ 0 (mkCounters 0 0 0).
Definition rb_logcycle : result nat * daemon (gmap bytes bytes) (gset bytes * log) :=
  rebalanceCycle (Some rb_walk) None (logged rb_offer) rb_score id 3 0 2 rb_cmap rb_cfg (λ _, Ok (90, 10)) (λ _, Ok tt) rb_logged.

Lemma shed_after_answer_witness :
  rb_logcycle.1 = Ok 1%nat ∧ blobs (store rb_logcycle.2) !! bs "h1" = None ∧
  (∀ h c, blob_view (blobs (store rb_logged)) !! h = Some c → blob_view (blobs (store rb_logcycle.2)) !! h = Some c ∨
     ∃ l t p data, daemonSurvivors rb_score rb_cmap h 0 2 = Ok l ∧ t ∈ l.*1 ∧ peers rb_logcycle.2 !! t = Some p ∧ answered p h data ∧ (c ≠ [] → data = c)) ∧
  (∀ k, rb_logcycle.1 = Ok k → Z.of_nat k <= Z.max 0 10).
Proof.
  split; [vm_compute; reflexivity|]. split; [vm_compute; reflexivity|].
  apply (shed_after_answer (Some rb_walk) None rb_offer rb_score id 3 0 2 rb_cmap rb_cfg (λ _, Ok (90, 10)) (λ _, Ok tt) rb_logged rb_logcycle.1 rb_logcycle.2);
    [done|exact (surjective_pairing rb_logcycle)].
Defined.

Lemma migrate_keeps_owned_witness :
  rb_migrate.1 = Ok 1%nat ∧
  ∀ h c, owner rb_score rb_cmap 2 h 0 → blob_view (blobs (store rb_d)) !! h = Some c → blob_view (blobs (store rb_migrate.2)) !! h = Some c.
Proof.
  split; [vm_compute; reflexivity|].
  apply (migrate_keeps_owned (Some rb_walk) None rb_offer rb_score id 3 0 2 rb_cmap rb_cfg (λ _, true) (λ _, Ok tt) rb_d 1 rb_migrate.1 rb_migrate.2);
    [done|exact (surjective_pairing rb_migrate)].
Defined.

(** A daemon as the peer of another: the digest is known when it has a record and the name
    the pusher uses, the digest itself, maps to it; the bytes are not looked at. *)
Definition cas_offer (p : CASStore (gmap bytes bytes)) (h : bytes) (size : Z) (data : bytes) : exchange * CASStore (gmap bytes bytes) :=
  if match Has p h, GetHashForName p h with Ok known, Ok h' => known && bool_decide (h' = h) | _, _ => false end
  then (Skipped, (Put p h h size [] None 5).2)
  else match Put p h h size [] (Some (reader_of data)) 5 with (Ok _, p) => (Acked, p) | (Err _, p) => (AckFailed, p) end.
Definition rb_two : list (option Node) := daemon_cmap [(bs "a", []); (bs "b", [])].

(** Daemon [self] over its limit, just started, sheds to the other one of two; both stores after. *)
Definition shed_pair (self : Z) (st : CASStore (gmap bytes bytes) * CASStore (gmap bytes bytes)) : CASStore (gmap bytes bytes) * CASStore (gmap bytes bytes) :=
  let other := 1 - self in
  let mine := if self =? 0 then st.1 else st.2 in
  let d := mkDaemon mine {[other := if self =? 0 then st.2 else st.1]} ∅ ∅ 0 (mkCounters 0 0 0) in
  let d' := (rebalanceCycle (Some rb_walk) None cas_offer rb_score id 2 self 2 rb_two rb_cfg (λ _, Ok (90, 10)) (λ _, Ok tt) d).2 in
  let theirs := default mine (peers d' !! other) in
  if self =? 0 then (store d', theirs) else (theirs, store d').

(** A sheds a blob to B, B sheds it back to A, and A to B again: B still has the record and
    the name from the first time and answers that it knows the digest, A drops its copy, and
    no node has the bytes.  Both daemons report the moves as successful. *)
Example shed_loses_last_copy :
  let h := HashBytes (bs "x") in
  let start := ((Put (newCASStore (∅ : gmap bytes bytes)) (bs "f") h 1 [] (Some (reader_of (bs "x"))) 5).2, newCASStore ∅) in
  let one := shed_pair 0 start in let two := shed_pair 1 one in let three := shed_pair 0 two in
  blobs one.1 !! h = None ∧ blobs one.2 !! h = Some (bs "x") ∧ blobs two.1 !! h = Some (bs "x") ∧ blobs two.2 !! h = None
  ∧ blobs three.1 !! h = None ∧ blobs three.2 !! h = None ∧ GetHashForName three.1 (bs "f") = Ok h.
Proof. vm_compute. repeat split; reflexivity. Qed.

(** Shedding does lower replica counts: "h1" belongs on nodes 0 and 1, and after the cycle
    node 0 has dropped it. *)
Example shed_lowers_replicas :
  owner rb_score rb_cmap 2 (bs "h1") 0 ∧ blobs (store rb_d) !! bs "h1" = Some (bs "x") ∧ blobs (store rb_cycle.2) !! bs "h1" = None.
Proof.
  split; [|vm_compute; split; reflexivity].
  assert (∃ a b, Placement rb_score rb_cmap (bs "h1") 2 = Ok [a; b] ∧ ID a = 0) as (a & b & Hp & Ha)
    by (vm_compute; eexists _, _; split; reflexivity).
  exists [a; b], a. split_and!; [done|left|done].
Qed.

(** All three blobs were offered to node 1; the second and third push failed on
    the closed connection of the first. *)
Example second_push_fails : stats rb_cycle.2 = mkCounters 1 1 2 ∧ cache rb_cycle.2 !! 1 = Some 0%nat ∧ opened rb_cycle.2 = ∅.
Proof. split; [vm_compute; reflexivity|]. split; [vm_compute; reflexivity|]. apply (bool_decide_unpack _). vm_compute. exact I. Qed.
