(* ===== verification/CasRuns.v ===== *)
(** * Runs of the content-addressed store

    Everything that changes a store, as one step: puts with or without content
    (PutWithMetadata, whoever calls it), deletes, remote tombstones, garbage
    collection, scrub passes, reads of a name with the whole read policy
    (degraded read included), rebuild passes and the dropping of a shed blob.
    [spares] says which steps cannot harm a given digest; the guarantees hold
    for the digests that were spared, and the examples at the end show that the
    steps left out do harm. *)
From S2P Require Import Prelude GoText Hashes Paths ObjectMeta BlobStore CasStore CasDigest CasTheorems Repair RepairProps Rebalance.
Open Scope Z_scope.
#[local] Opaque HashBytes sha256.

Inductive cas_op :=
  | OpPut (name hash : bytes) (size : Z) (remotePath : bytes) (content : option reader)
      (vc : list Z) (sk : bytes) (mr : list Z) (now : Z)
  | OpDelete (name : bytes) (now : Z)
  | OpTombstone (name : bytes) (deletedAt : Z)
  | OpGC (retention now : Z)
  | OpScrub
  | OpRead (name : bytes)
  | OpRebuild (src : option RebuildSource) (target : Z)
  | OpDrop (hash : bytes).

Section Runs.
Context {B : Type} `{Hspec : BlobStoreSpec B}.
Implicit Types (s : RStore B) (h : bytes).

Notation view s := (blob_view (blobs (rcas s))).
Notation objs s := (objects (db (rcas s))).
Notation names s := (namespace (db (rcas s))).
Notation marks s := (quarantine (db (rcas s))).

Definition cas_run (o : cas_op) s : RStore B :=
  match o with
  | OpPut name hash size rp content vc sk mr now => with_rcas (PutWithMetadata (rcas s) name hash size rp content vc sk mr now).2 s
  | OpDelete name now => with_rcas (Delete (rcas s) name now).2 s
  | OpTombstone name at_ => with_rcas (ApplyTombstone (rcas s) name at_).2 s
  | OpGC retention now => with_rcas (runGC (rcas s) retention now).2 s
  | OpScrub => runScrub s
  | OpRead name => (read_name s name).2
  | OpRebuild src target => runRebuild s src target
  | OpDrop hash => with_rcas (DropBlob (rcas s) hash).2 s
  end.

(** The steps that cannot harm digest [h]: all but a put under [h] that does not fit its
    record or, while [h] is not recorded, brings no content or content of another digest,
    and the dropping of [h] itself. *)
Definition spares s h (o : cas_op) : Prop :=
  match o with
  | OpPut name hash size rp content vc sk mr now => put_spares (rcas s) h hash size content vc sk mr
  | OpDelete _ now | OpTombstone _ now => is_int64 now
  | OpDrop hash => hash ≠ h
  | _ => True
  end.

Inductive spared_run h : RStore B → RStore B → Prop :=
  | run_refl s : spared_run h s s
  | run_step s o s' : spares s h o → spared_run h (cas_run o s) s' → spared_run h s s'.

(** ** Scrubbing *)
Lemma scrub_intact s h : h ≠ HashBytes [] → intact (rcas s) h → intact (rcas (runScrub s)) h.
Proof.
  intros Hh Hi. unfold runScrub. destruct (scrub_fold (referencedBlobs s) s (in_blob _ _ Hi) (referenced_nodup s)) as [[S1 [o S2] S3 S4 S5 _] _].
  assert (view (foldl scrub_step s (referencedBlobs s)) !! h = view s !! h
    ∧ objs (foldl scrub_step s (referencedBlobs s)) !! h = objs s !! h) as [E1 E2].
  { destruct (decide (h ∈ referencedBlobs s)) as [Hin|Hout]; [|by apply S3].
    apply elem_of_referenced in Hin as (v & Hv & _). destruct (in_stored _ _ Hi) as [c Hc]; [eauto|].
    pose proof (in_match _ _ Hi c Hc) as Hm. apply (S4 h c Hc); [|exact Hm]. intros ->. exact (Hh (eq_sym Hm)). }
  eapply (intact_frame (rcas s)); [done|done|done|done|by rewrite S2|by rewrite S2].
Qed.

(** ** Healing touches one digest *)

(** [s'] differs from [s] at most in the bytes and the mark of [x]. *)
Record only s s' (x : bytes) : Prop := {
  on_inv : blob_inv (blobs (rcas s'));
  on_view : ∀ k, k ≠ x → view s' !! k = view s !! k;
  on_meta : ∃ q, db (rcas s') = set_quarantine q (db (rcas s)) ∧ ∀ k, k ≠ x → q !! k = marks s !! k
}.

Lemma only_refl s x : blob_inv (blobs (rcas s)) → only s s x.
Proof. intros Hi. split; auto. exists (marks s). by destruct (db (rcas s)). Qed.

Lemma only_trans s1 s2 s3 x : only s1 s2 x → only s2 s3 x → only s1 s3 x.
Proof.
  intros [I1 V1 (q1 & M1 & Q1)] [I2 V2 (q2 & M2 & Q2)]. split; [done|..].
  - intros k Hk. by rewrite V2, V1.
  - exists q2. split; [by rewrite M2, M1|]. intros k Hk. rewrite Q2, M1 by done. by apply Q1.
Qed.

Lemma only_intact s s' x h : only s s' x → x ≠ h → intact (rcas s) h → intact (rcas s') h.
Proof.
  intros [I V (q & M & Q)] Hx Hi. eapply (intact_frame (rcas s)); rewrite ?M; cbn; try done; [by apply V|by apply Q].
Qed.

Lemma mark_only s x : blob_inv (blobs (rcas s)) → only s (quarantineMark s x) x.
Proof.
  intros Hi. unfold quarantineMark. destruct (bput x _ _) as [q|] eqn:E; [|by apply only_refl].
  apply bput_Some in E as [-> _]. split; [done|done|]. eexists. split; [done|]. intros k Hk. by rewrite lookup_insert_ne.
Qed.

Lemma clear_only s x : blob_inv (blobs (rcas s)) → only s (quarantineClear s x) x.
Proof. intros Hi. split; [done|done|]. eexists. split; [done|]. intros k Hk. by rewrite lookup_delete_ne. Qed.

Lemma store_only s x src : blob_inv (blobs (rcas s)) → only s (storeVerified s x src).2 x.
Proof.
  intros Hi. unfold storeVerified. destruct (read_all src) as [c|]; [|by apply only_refl].
  destruct (decide (HashBytes c = x)); [|by apply only_refl].
  destruct (PutBlob (blobs (rcas s)) x (reader_of c)) as [r b] eqn:Ep. cbn [snd].
  pose proof (put_inv (blobs (rcas s)) x (reader_of c) Hi) as Hi'. rewrite Ep in Hi'. split; cbn; [done| |].
  - intros k Hk. destruct r as [[]|er].
    + destruct (put_ok _ _ _ _ Hi Ep) as [(d & _ & ->)|[-> _]]; [|done]. by rewrite lookup_insert_ne.
    + by rewrite (put_err _ _ _ _ _ Hi Ep).
  - exists (marks s). by destruct (db (rcas s)).
Qed.

Lemma fetch_loop_only src x peers s : blob_inv (blobs (rcas s)) → only s (fetch_loop src x peers s).2 x.
Proof.
  revert s. induction peers as [|p peers IH]; intros s Hi; cbn [fetch_loop]; [by apply only_refl|].
  destruct (Fetch src x p) as [rc|]; [|by apply IH].
  pose proof (store_only s x rc Hi) as H1. destruct (storeVerified s x rc) as [ok s1]. cbn [snd] in H1. destruct ok.
  - destruct (GetBlob _ x); cbn [snd]; [|done]. eapply only_trans; [exact H1|].
    eapply only_trans; [|apply clear_only, H1]. destruct (only_refl s1 x (on_inv _ _ _ H1)). by split.
  - eapply only_trans; [exact H1|]. eapply only_trans; [apply mark_only, H1|]. apply IH, mark_only, H1.
Qed.

Lemma fetch_only s x : blob_inv (blobs (rcas s)) → only s (fetchVerifiedToLocal s x).2 x.
Proof.
  intros Hi. unfold fetchVerifiedToLocal. destruct (rebuildSource s) as [src|]; [|by apply only_refl].
  destruct (Survivors src x); [|by apply only_refl]. by apply fetch_loop_only.
Qed.

Lemma openBlob_only s x : blob_inv (blobs (rcas s)) → only s (openBlob s x).2 x.
Proof.
  intros Hi. assert (only s (if degradedRead s && bool_decide (is_Some (rebuildSource s)) then
      let '(r, s') := fetchVerifiedToLocal s x in
      (match r with Ok c => Ok (mkStream (reader_of c) false) | Err e => Err e end, s')
    else (Err (Errno ENOENT), s)).2 x) as Hd.
  { destruct (_ && _); [|by apply only_refl]. pose proof (fetch_only s x Hi) as Hf.
    by destruct (fetchVerifiedToLocal s x). }
  unfold openBlob. destruct (GetBlob (blobs (rcas s)) x) as [c|e].
  - destruct (quarantined (rcas s) x); [exact Hd|]. destruct (VerifyOnRead (rcas s)); by apply only_refl.
  - destruct (decide (e = Errno ENOENT)); [exact Hd|by apply only_refl].
Qed.

Lemma drain_only s x st : blob_inv (blobs (rcas s)) → only s (drain s x st).2 x.
Proof.
  intros Hi. unfold drain. destruct (read_all _); [by apply only_refl|]. destruct (st_hold st); [by apply mark_only|by apply only_refl].
Qed.

(** A whole read touches the digest of its name at most. *)
Lemma read_only s name x : blob_inv (blobs (rcas s)) → GetHashForName (rcas s) name = Ok x → only s (read_name s name).2 x.
Proof.
  intros Hi Hx. unfold read_name, rGet. rewrite Hx. pose proof (openBlob_only s x Hi) as H1.
  destruct (openBlob s x) as [[st|e] s1]; cbn [snd] in *; [|done].
  destruct (read_meta (db (rcas s1)) name x) as [meta|] eqn:Em; [|done].
  destruct (read_meta_name _ _ _ _ Em) as [_ ->]. pose proof (drain_only s1 x st (on_inv _ _ _ H1)) as H2.
  destruct (drain s1 x st) as [r s2]. cbn [snd] in *. by eapply only_trans.
Qed.

(** ** Reading an intact digest *)
Lemma read_intact s h name :
  intact (rcas s) h → h ≠ HashBytes [] → GetHashForName (rcas s) name = Ok h →
  ∃ c meta, view s !! h = Some c ∧ HashBytes c = h ∧ GetMeta (rcas s) name = Ok meta ∧ Hash meta = h
  ∧ read_name s name = (Ok (c, meta), s).
Proof.
  intros Hi Hh Hg. destruct (intact_visible _ _ _ Hi Hh Hg) as (c & meta & C1 & C2 & C3 & C4 & C5 & _ & C7 & _).
  exists c, meta. split; [done|]. split; [done|]. split; [unfold GetMeta; by rewrite Hg|]. split; [done|].
  unfold read_name, rGet. rewrite Hg, openBlob_local by (right; by rewrite C3, C4).
  unfold openVerifiedBlob. rewrite C3, C4. assert (verifying_reader c h = Reader [c] None) as E
    by (unfold verifying_reader; by rewrite decide_True by exact C2).
  destruct (VerifyOnRead (rcas s)); rewrite ?E, C5; unfold drain, read_all; cbn; by rewrite app_nil_r.
Qed.

Lemma read_name_intact s h name : intact (rcas s) h → h ≠ HashBytes [] → intact (rcas (read_name s name).2) h.
Proof.
  intros Hi Hh. destruct (GetHashForName (rcas s) name) as [x|] eqn:Eg.
  - destruct (decide (x = h)) as [->|Hne].
    + destruct (read_intact s h name Hi Hh Eg) as (c & meta & _ & _ & _ & _ & ->). done.
    + eapply only_intact; [by apply read_only; [apply Hi|]|done|done].
  - unfold read_name, rGet. by rewrite Eg.
Qed.

(** ** Rebuild passes *)
Lemma repair_only s x src target : blob_inv (blobs (rcas s)) → only s (repairBlob s x src target) x.
Proof.
  intros Hi. unfold repairBlob. destruct src as [src|]; [|by apply only_refl]. destruct (target <=? 0); [by apply only_refl|].
  destruct (Survivors src x) as [peers|]; [|by apply only_refl]. destruct (negb _ && _); [by apply only_refl|].
  assert (only s (match (if localCopyVerified s x then GetBlob (blobs (rcas s)) x else Err (Errno ENOENT)) with
      | Ok f => (Ok f, s) | Err _ => fetchVerifiedToLocal s x end).2 x) as H1.
  { destruct (if localCopyVerified s x then _ else _); [by apply only_refl|by apply fetch_only]. }
  destruct (match (if localCopyVerified s x then GetBlob (blobs (rcas s)) x else Err (Errno ENOENT)) with
      | Ok f => (Ok f, s) | Err _ => fetchVerifiedToLocal s x end) as [[c|] s1]; cbn [snd] in H1; [|done]. unfold push. destruct (Restore src x c); cbn.
  - eapply only_trans; [exact H1|]. destruct (clear_only s1 x (on_inv _ _ _ H1)) as [I V M]. by split.
  - destruct H1 as [I V M]. by split.
Qed.

(** Repairing a digest that is recorded and intact reads its own copy. *)
Lemma repair_intact s h x src target :
  intact (rcas s) h → h ≠ HashBytes [] → (x = h → is_Some (objs s !! h)) →
  intact (rcas (repairBlob s x src target)) h.
Proof.
  intros Hi Hh Hrec. destruct (decide (x = h)) as [->|Hne].
  2:{ eapply only_intact; [apply repair_only, Hi|done|done]. }
  destruct (in_stored _ _ Hi (Hrec eq_refl)) as [c Hc]. pose proof (in_match _ _ Hi c Hc) as Hm.
  assert (GetBlob (blobs (rcas s)) h = Ok c) as Hg.
  { apply get_ok; [apply Hi|done|]. intros ->. exact (Hh (eq_sym Hm)). }
  unfold repairBlob. destruct src as [src|]; [|done]. destruct (target <=? 0); [done|].
  destruct (Survivors src h) as [peers|]; [|done]. unfold localCopyVerified. rewrite Hg, bool_decide_true by done.
  destruct (negb _ && _); [done|]. unfold push. destruct (Restore src h c); [|by destruct Hi].
  destruct Hi as [I1 I2 I3 I4 I5 I6]. split; cbn; try done. apply lookup_delete_eq.
Qed.

Lemma rebuild_intact s h src target : intact (rcas s) h → h ≠ HashBytes [] → intact (rcas (runRebuild s src target)) h.
Proof.
  intros Hi Hh. unfold runRebuild, run_repairs.
  assert (∀ x, x ∈ rebuildSet s → x = h → is_Some (objs s !! h)) as Hrec.
  { intros x Hx ->. apply elem_of_dedup in Hx as [[Hx|Hx]%elem_of_app _].
    - apply elem_of_referenced in Hx as (v & Hv & _). eauto.
    - unfold quarantinedHashes in Hx. apply list_elem_of_fmap in Hx as ([k v] & -> & Hx%elem_of_cursor).
      pose proof (in_mark _ _ Hi) as Hq. cbn [fst] in Hq. congruence. }
  revert Hrec. generalize (rebuildSet s) as l. intros l. revert s Hi. induction l as [|x l IH]; intros s Hi Hrec; [done|].
  cbn [foldl]. apply IH.
  - apply repair_intact; [done|done|]. apply Hrec. left.
  - intros y Hy ->. destruct (repair_only s x src target (in_blob _ _ Hi)) as [_ _ (q & Hq & _)]. rewrite Hq. cbn.
    apply (Hrec h); [by right|done].
Qed.

Lemma drop_intact s x h : intact (rcas s) h → x ≠ h → intact (rcas (cas_run (OpDrop x) s)) h.
Proof.
  intros Hi Hx. cbn [cas_run]. unfold DropBlob. destruct (DeleteBlob (blobs (rcas s)) x) as [r b] eqn:Ed.
  pose proof (delete_inv (blobs (rcas s)) x (in_blob _ _ Hi)) as Hb. rewrite Ed in Hb. cbn [snd] in Hb.
  eapply (intact_frame (rcas s)); cbn; try done. destruct r as [[]|e].
  - rewrite (delete_ok _ _ _ (in_blob _ _ Hi) Ed). by rewrite lookup_delete_ne.
  - by rewrite (delete_err _ _ _ _ (in_blob _ _ Hi) Ed).
Qed.

Lemma step_intact s h o : h ≠ HashBytes [] → intact (rcas s) h → spares s h o → intact (rcas (cas_run o s)) h.
Proof.
  intros Hh Hi Hs. destruct o; cbn [spares] in Hs.
  - by apply put_intact.
  - by apply Delete_intact.
  - by apply ApplyTombstone_intact.
  - by apply runGC_intact.
  - by apply scrub_intact.
  - by apply read_name_intact.
  - by apply rebuild_intact.
  - by apply drop_intact.
Qed.

Lemma run_intact s s' h : h ≠ HashBytes [] → intact (rcas s) h → spared_run h s s' → intact (rcas s') h.
Proof. intros Hh Hi Hr. induction Hr as [|s o s' Hs _ IH]; [done|]. by apply IH, step_intact. Qed.

(** ** Guarantees *)


(** C2: An acknowledged [Put] of content under its digest [h] is what the next [Get] of the
    name streams, to a clean end, under any read policy: if [h] is not the digest of the
    empty object and is intact (its record, if any, is readable, counts its names and has its
    bytes; stored bytes match it; it carries no quarantine mark), size and time are in range
    and the count has room for one more name, then the read returns
    content of digest [h], the recorded hash, the time of the put and the normalized path;
    when [h] was neither recorded nor stored before, the content is byte for byte what was
    uploaded, and the size is the one given. *)
Theorem Put_Get s name h size rp r now c' :
  intact (rcas s) h → h ≠ HashBytes [] → is_int64 size → 0 <= size → refcount (db (rcas s)) h < MaxInt64 → is_int64 now →
  (objs s !! h = None → ∀ c, read_all r = Ok c → HashBytes c = h) →
  Put (rcas s) name h size rp (Some r) now = (Ok tt, c') →
  ∃ c meta, read_name (with_rcas c' s) name = (Ok (c, meta), with_rcas c' s)
  ∧ HashBytes c = h ∧ Name meta = name ∧ Hash meta = h ∧ ModTime meta = now
  ∧ (rp ≠ [] → NormalizeVirtualPath rp = Ok (RemotePath meta))
  ∧ (objs s !! h = None → view s !! h = None → read_all r = Ok c ∧ FSize meta = size).
Proof.
  intros Hi Hh Hs H0 Hm Hn Hr Hp.
  destruct (put_read _ _ _ _ _ _ _ _ Hi Hh Hs H0 Hm Hn Hr Hp) as (c & meta & G1 & G2 & G3 & G4 & G5 & G6 & G7 & G8 & G9 & G10).
  exists c, meta. split; [|split_and!; assumption].
  unfold read_name, rGet. cbn [rcas with_rcas]. rewrite G1, openBlob_local by (right; cbn; by rewrite G2, G4).
  unfold openVerifiedBlob. cbn [rcas with_rcas]. rewrite G2, G4. assert (verifying_reader c h = Reader [c] None) as E
    by (unfold verifying_reader; by rewrite decide_True by exact G3).
  destruct (VerifyOnRead c'); rewrite ?E, G5; unfold drain, read_all; cbn; by rewrite app_nil_r.
Qed.

(** The backend returns, after an acknowledged put of content of digest [h] under [h],
    content of that digest. *)
Definition echoes h : Prop := ∀ (b b' : B) c c',
  HashBytes c = h → PutBlob b h (reader_of c) = (Ok tt, b') → GetBlob b' h = Ok c' → HashBytes c' = h.

Lemma fetch_echo src h peers s c s' : echoes h → fetch_loop src h peers s = (Ok c, s') → HashBytes c = h.
Proof.
  intros He. revert s. induction peers as [|p peers IH]; intros s; cbn [fetch_loop]; [done|].
  destruct (Fetch src h p) as [rc|]; [|apply IH]. unfold storeVerified.
  destruct (read_all rc) as [x|]; [|apply IH]. destruct (decide (HashBytes x = h)) as [Hx|]; [|apply IH].
  destruct (PutBlob (blobs (rcas s)) h (reader_of x)) as [[[]|] b] eqn:Ep; cbn [is_ok]; [|apply IH].
  cbn [rcas with_rcas with_blobs blobs]. destruct (GetBlob b h) as [y|] eqn:Eg; [|done]. intros [= <- _]. by eapply He.
Qed.

Lemma read_all_of (c : bytes) : read_all (reader_of c) = Ok c.
Proof. unfold read_all. cbn. by rewrite app_nil_r. Qed.

(** C3: With read verification on, a read that reaches a clean end delivered bytes of the
    digest recorded for the name, whatever the backend and the peers return, in both of
    these cases: the degraded read did not come into play (it is not armed, or the local copy
    is present and unmarked); or it did, and the backend echoes a put under this digest.  The
    second condition is needed, because the degraded read checks what it fetched but then
    hands out what the backend returns for the digest without checking it again. *)
Theorem verified_read s name c meta s' :
  VerifyOnRead (rcas s) = true → read_name s name = (Ok (c, meta), s') →
  let h := Hash meta in
  GetHashForName (rcas s) name = Ok h
  ∧ (armed s = false ∨ (is_ok (GetBlob (blobs (rcas s)) h) = true ∧ quarantined (rcas s) h = false) ∨ echoes h →
     HashBytes c = h).
Proof.
  intros Hv Hr. cbv zeta. unfold read_name, rGet in Hr. destruct (GetHashForName (rcas s) name) as [h|]; [|done].
  destruct (openBlob s h) as [[st|] s1] eqn:Eo; [|done].
  destruct (read_meta (db (rcas s1)) name h) as [m|] eqn:Em; [|done].
  destruct (read_meta_name _ _ _ _ Em) as [_ Eh]. rewrite Eh in Hr.
  assert (m = meta ∧ read_all (st_reader st) = Ok c) as [-> Hc].
  { unfold drain in Hr. destruct (read_all (st_reader st)); [|done]. by injection Hr as -> -> _. }
  rewrite Eh. clear Hr. split; [done|]. intros Hcase.
  assert (∀ x, st = mkStream (verifying_reader x h) (armed s) → HashBytes c = h) as Hver.
  { intros x ->. cbn [st_reader] in Hc. unfold verifying_reader in Hc. destruct (decide (HashBytes x = h)) as [E|]; [|done].
    change (Reader [x] None) with (reader_of x) in Hc. rewrite read_all_of in Hc. by injection Hc as <-. }
  unfold openBlob in Eo. rewrite Hv in Eo. fold (armed s) in Eo.
  assert (∀ e, (if armed s then let '(r, s2) := fetchVerifiedToLocal s h in
      (match r with Ok x => Ok (mkStream (reader_of x) false) | Err e => Err e end, s2) else (Err e, s)) = (Ok st, s1) →
    armed s = true ∧ (echoes h → HashBytes c = h)) as Hdeg.
  { intros e. destruct (armed s); [|done]. unfold fetchVerifiedToLocal. destruct (rebuildSource s) as [src|]; [|done].
    destruct (Survivors src h) as [peers|]; [|done]. destruct (fetch_loop src h peers s) as [[x|] s2] eqn:Ef; [|done].
    intros [= <- _]. split; [done|]. intros He. cbn [st_reader] in Hc. rewrite read_all_of in Hc. injection Hc as <-.
    by eapply fetch_echo. }
  destruct (GetBlob (blobs (rcas s)) h) as [x|e].
  - destruct (quarantined (rcas s) h).
    + apply Hdeg in Eo as [Ea He]. destruct Hcase as [?|[[_ ?]|?]]; [congruence|done|auto].
    + injection Eo as <- _. eauto.
  - destruct (decide (e = Errno ENOENT)); [|done]. apply Hdeg in Eo as [Ea He].
    destruct Hcase as [?|[[? _]|?]]; [congruence|done|auto].
Qed.

(** C4: [Delete] hides its name behind a tombstone carrying the deletion time, and no other
    name notices: every other visible, non-empty object whose digest carries no mark, or any
    mark when no degraded read is armed, is read exactly as before, by a read that changes
    nothing.  What this asks of the store is that the record of the deleted name's own
    digest, if there is one, can be read and counts at least the names that point at it;
    records of other digests may be in any state. *)
Theorem Delete_isolated s name now c' :
  blob_inv (blobs (rcas s)) → counted (rcas s) name → is_int64 now → Delete (rcas s) name now = (Ok tt, c') →
  let s' := with_rcas c' s in
  GetHashForName c' name = Err (Errno ENOENT) ∧ GetTombstones c' !! name = Some now
  ∧ ∀ n h c, n ≠ name → GetHashForName (rcas s) n = Ok h → view s !! h = Some c → c ≠ [] →
      armed s = false ∨ quarantined (rcas s) h = false → ∃ x, rGet s n = (x, s) ∧ rGet s' n = (x, s').
Proof.
  intros Hi Hcnt Hn Hd. unfold Delete in Hd. destruct (delete_tx _ _ _ _) as [[d o]|] eqn:E; [|discriminate].
  injection Hd as <-. pose proof E as E'. apply delete_tx_shape in E' as (_ & Ens & Ets & _).
  destruct (reap_shape true o (with_db d (rcas s)) Hi) as (Rb & (ob & Rd) & _). cbv zeta.
  assert (tombstones (db (reap_orphan true o (with_db d (rcas s)))) !! name = Some (put_be 8 (uint64 now))) as Ht.
  { rewrite Rd. cbn. rewrite Ets. apply lookup_insert_eq. }
  split_and!.
  - unfold GetHashForName. cbn [db invalidateCache with_cache]. by rewrite Ht.
  - unfold GetTombstones. rewrite lookup_omap. cbn [db invalidateCache with_cache]. rewrite Ht. by apply stamp_put.
  - intros n h c Hne Hg Hc Hcn Hl.
    pose proof (delete_tx_same_read _ _ name now d o true n h Hi Hcnt Hn E Hne Hg) as Hsr.
    destruct (same_read_Get _ _ n h c Hi Rb Hsr Hg Hc Hcn) as (Hg' & Hgb & HG).
    pose proof (get_ok _ _ _ Hi Hc Hcn) as Hget.
    assert (armed s = false ∨ (is_ok (GetBlob (blobs (rcas s)) h) = true ∧ quarantined (rcas s) h = false)) as Hl1
      by (rewrite Hget; destruct Hl; [left|right]; done).
    eexists. rewrite (rGet_local s n h Hg Hl1). split; [reflexivity|].
    set (s2 := with_rcas _ s). assert (armed s2 = armed s) as Ea by done.
    rewrite (rGet_local s2 n h).
    + rewrite Ea. unfold s2. cbn [rcas with_rcas]. change (Get (invalidateCache ?x name) n) with (Get x n). rewrite HG.
      change (VerifyOnRead (invalidateCache ?x name)) with (VerifyOnRead x). by rewrite (sr_ver _ _ _ _ Hsr).
    + exact Hg'.
    + rewrite Ea. unfold s2. cbn [rcas with_rcas blobs invalidateCache with_cache]. rewrite Hgb.
      change (quarantined (invalidateCache ?x name) h) with (quarantined x h). by rewrite (sr_quar _ _ _ _ Hsr).
Qed.
End Runs.

(** ** Witnesses and the steps left out *)
#[local] Transparent HashBytes sha256.
Definition cr_cfg (src : option RebuildSource) : RStore (gmap bytes bytes) := mkRS (newCASStore ∅) src (bool_decide (is_Some src)) ∅ 0 [].
Definition cr0 : RStore (gmap bytes bytes) := cr_cfg None.
Definition cr_put (name : bytes) (content : option reader) (now : Z) : cas_op := OpPut name hkey 2 [] content [] [] [] now.
Definition cr_runs (l : list cas_op) (s : RStore (gmap bytes bytes)) : RStore (gmap bytes bytes) := foldl (λ s o, cas_run o s) s l.
Definition cr_good : option reader := Some (reader_of hbody).
Definition cr_bad : option reader := Some (reader_of (bs "ho")).

Lemma hkey_nonempty : hkey ≠ HashBytes [].
Proof. vm_compute. discriminate. Qed.

Lemma cr_spares (s : RStore (gmap bytes bytes)) name now :
  refcount (db (rcas s)) hkey < MaxInt64 → spares s hkey (cr_put name cr_good now).
Proof.
  intros Hr _. split; [done|]. split; [done|]. split; [exact Hr|]. split; [by split_and!; try constructor|]. intros _.
  exists (reader_of hbody). split; [reflexivity|]. intros c Hc. unfold read_all in Hc. cbn in Hc. injection Hc as <-. exact hkey_eq.
Qed.



Lemma cr0_intact : intact (rcas cr0) hkey.
Proof.
  apply intact_new; [exact I|]. intros c Hc. change ((∅ : gmap bytes bytes) !! hkey = Some c) in Hc. apply lookup_empty_Some in Hc. destruct Hc.
Qed.

Definition cr_once : result unit * CASStore (gmap bytes bytes) := Put (rcas cr0) (bs "a") hkey 2 (bs "/d/a") cr_good 5.

Lemma Put_Get_witness :
  ∃ c meta, read_name (with_rcas cr_once.2 cr0) (bs "a") = (Ok (c, meta), with_rcas cr_once.2 cr0)
  ∧ c = hbody ∧ ModTime meta = 5 ∧ FSize meta = 2.
Proof.
  destruct (Put_Get cr0 (bs "a") hkey 2 (bs "/d/a") (reader_of hbody) 5 cr_once.2) as (c & meta & E1 & _ & _ & _ & E5 & _ & E7).
  - exact cr0_intact.
  - exact hkey_nonempty.
  - done.
  - done.
  - vm_compute. reflexivity.
  - done.
  - intros _ c Hc. unfold read_all in Hc. cbn in Hc. injection Hc as <-. exact hkey_eq.
  - apply run_ok. vm_compute. reflexivity.
  - destruct E7 as [E7 E8]; [vm_compute; reflexivity|vm_compute; reflexivity|]. exists c, meta.
    split; [exact E1|]. split; [|split; [exact E5|exact E8]]. unfold read_all in E7. cbn in E7. injection E7 as <-. reflexivity.
Defined.

(** A degraded read from a peer, over the in-memory backend. *)
Lemma verified_read_witness :
  ∃ c meta, (read_name hmarked (bs "a")).1 = Ok (c, meta) ∧ armed hmarked = true ∧ HashBytes c = Hash meta.
Proof.
  exists hbody, (mkFile (bs "a") hkey 2 [] 0). assert ((read_name hmarked (bs "a")).1 = Ok (hbody, mkFile (bs "a") hkey 2 [] 0)) as E
    by (vm_compute; reflexivity).
  split; [exact E|]. split; [reflexivity|].
  refine (proj2 (verified_read hmarked (bs "a") hbody (mkFile (bs "a") hkey 2 [] 0) (read_name hmarked (bs "a")).2 eq_refl _) _).
  - rewrite <- E. apply surjective_pairing.
  - right. right. intros b b' c c' Hc Hp Hg. cbn in Hp, Hg. rewrite app_nil_r in Hp. injection Hp as <-.
    rewrite lookup_insert_eq in Hg. injection Hg as <-. exact Hc.
Defined.

Definition cr_two : RStore (gmap bytes bytes) := cr_runs [cr_put (bs "a") cr_good 5; cr_put (bs "b") cr_good 6] cr0.
Definition cr_del : result unit * CASStore (gmap bytes bytes) := Delete (rcas cr_two) (bs "a") 9.

Lemma Delete_isolated_witness :
  GetHashForName cr_del.2 (bs "a") = Err (Errno ENOENT) ∧ GetTombstones cr_del.2 !! bs "a" = Some 9
  ∧ ∃ x, rGet cr_two (bs "b") = (x, cr_two) ∧ rGet (with_rcas cr_del.2 cr_two) (bs "b") = (x, with_rcas cr_del.2 cr_two).
Proof.
  destruct (Delete_isolated cr_two (bs "a") 9 cr_del.2) as (H1 & H2 & H3).
  - exact I.
  - intros k v Hk Hv. assert (k = hkey) as ->.
    { assert (namespace (db (rcas cr_two)) !! bs "a" = Some hkey) as E by (vm_compute; reflexivity). congruence. }
    assert (intact (rcas cr_two) hkey) as Hi.
    { eapply (run_intact cr0); [exact hkey_nonempty|exact cr0_intact|]. unfold cr_two, cr_runs. cbn [foldl].
      eapply (run_step _ _ (cr_put (bs "a") cr_good 5)); [apply cr_spares; vm_compute; reflexivity|].
    eapply (run_step _ _ (cr_put (bs "b") cr_good 6)); [apply cr_spares; vm_compute; reflexivity|]. apply run_refl. }
    split; [exact (in_rec _ _ Hi v Hv)|exact (in_ref _ _ Hi)].
  - done.
  - apply run_ok. vm_compute. reflexivity.
  - split; [exact H1|]. split; [exact H2|].
    apply (H3 (bs "b") hkey hbody); [discriminate|vm_compute; reflexivity|vm_compute; reflexivity|discriminate|left; reflexivity].
Defined.

(** A put without content under a digest the store does not know (a peer's PutMetadata, a
    rename of a file whose blob was lost) makes a visible name that cannot be read. *)
Example put_without_content_dangles :
  let s := cr_runs [cr_put (bs "a") None 5] cr0 in
  GetHashForName (rcas s) (bs "a") = Ok hkey ∧ (read_name s (bs "a")).1 = Err (Errno ENOENT).
Proof. vm_compute. split; reflexivity. Qed.

(** Dropping a shed blob leaves its names; without a source to read from they dangle. *)
Example drop_dangles :
  let s := cr_runs [cr_put (bs "a") cr_good 5; OpDrop hkey] cr0 in
  GetHashForName (rcas s) (bs "a") = Ok hkey ∧ (read_name s (bs "a")).1 = Err (Errno ENOENT).
Proof. vm_compute. split; reflexivity. Qed.

(** A scrub removes the record of a damaged blob but none of its names: uploading one of two
    names again starts a record with one reference, and deleting that name destroys the
    bytes the other name reads. *)
Example scrub_undercounts :
  let rot := cr_runs [cr_put (bs "a") cr_bad 5; cr_put (bs "b") cr_bad 6; OpScrub; cr_put (bs "a") cr_good 7] cr0 in
  let s := cr_runs [OpDelete (bs "a") 9] rot in
  refcount (db (rcas rot)) hkey = 1 ∧ names_in (namespace (db (rcas rot))) hkey = 2%nat
  ∧ is_ok (read_name rot (bs "b")).1 = true
  ∧ GetHashForName (rcas s) (bs "b") = Ok hkey ∧ (read_name s (bs "b")).1 = Err (Errno ENOENT).
Proof. vm_compute. repeat split; reflexivity. Qed.

(** A scrub leaves the quarantine mark of a blob it removes: a later upload of the right
    content is acknowledged, and reads still refuse it when no source is armed. *)
Example mark_outlives_scrub :
  let s := mkRS (rcas hmarked) None false ∅ 0 [] in
  let s := cr_runs [OpScrub; cr_put (bs "a") cr_good 7] s in
  blobs (rcas s) !! hkey = Some hbody ∧ quarantined (rcas s) hkey = true ∧ (read_name s (bs "a")).1 = Err (Errno ENOENT).
Proof. vm_compute. repeat split; reflexivity. Qed.
