(* ===== verification/Protocol.v ===== *)
(** * The native protocol
    (src/src/transport/momo_tcp.go, momo_quic.go, communicator.go, status_write.go,
    src/src/common/auth.go, log.go, src/src/client/client.go)

    Both ends of a connection.  An end reads the bytes that arrive and appends to the bytes
    it sends; [M S A] is a computation over a connection and a state [S] that may fail.
    A write to a connection succeeds (one that fails only ends the session); deadlines and
    metrics are left out.  Random nonces, clocks and the hooks of the server are fields of
    its environment. *)
From S2P Require Import Prelude GoText Hashes Json Paths ObjectMeta BlobStore RawStore CasStore CasTheorems AuditLog.
Open Scope Z_scope.

(** ** Connections *)
Record conn := mkConn { inp : bytes; outp : bytes }.

Definition M (S A : Type) : Type := conn * S → result A * (conn * S).

#[export] Instance M_ret S : MRet (M S) := λ A a st, (Ok a, st).
#[export] Instance M_bind S : MBind (M S) := λ A B f m st,
  match m st with
  | (Ok a, st) => f a st
  | (Err e, st) => (Err e, st)
  end.

Definition fail_with {S A} (e : error) : M S A := λ st, (Err e, st).
Definition lift {S A} (r : result A) : M S A := λ st, (r, st).
Definition get {S} : M S S := λ st, (Ok st.2, st).
Definition put {S} (s : S) : M S unit := λ st, (Ok tt, (st.1, s)).

(** [io.ReadFull] of [n] bytes; what is missing is an error of kind [e]. *)
Definition ReadFull {S} (n : nat) (e : error) : M S bytes := λ st,
  let '(c, s) := st in
  if (length (inp c) <? n)%nat then (Err e, (mkConn [] (outp c), s))
  else (Ok (take n (inp c)), (mkConn (drop n (inp c)) (outp c), s)).

Definition Write {S} (b : bytes) : M S unit := λ st,
  let '(c, s) := st in (Ok tt, (mkConn (inp c) (outp c ++ b), s)).

(** ** Text and constants *)
Definition TimestampLength : nat := 19.
Definition AuthTokenLength : nat := 64.
Definition hashLength : nat := 64.
Definition ModeList : Z := 76.
Definition ModeDelete : Z := 68.
Definition ModeGet : Z := 71.
Definition ModeOPRFEval : Z := 79.
Definition MetadataStatusSendPayload : Z := 1.
Definition MetadataStatusSkipPayload : Z := 2.
(** 15 minutes *)
Definition momoHandshakeMaxSkew : Z := 15 * 60 * 10 ^ 9.

Definition control (b : byte) : bool := (b2z b <? 32) && negb (b2z b =? 9).
Definition hasControlByte (s : bytes) : bool := existsb control s.
Definition SanitizeLog (s : bytes) : bytes :=
  if hasControlByte s then (λ b, if control b then Byte.x5f else b) <$> s else s.

(** [strings.Contains] *)
Definition contains_sub (s p : bytes) : bool := existsb (λ i, has_prefix (drop i s) p) (seq 0 (S (length s))).

Definition crlf (s : bytes) : bool := contains_byte ch_cr s || contains_byte ch_lf s.

(** [url.PathUnescape] *)
Fixpoint PathUnescape (s : bytes) : option bytes :=
  match s with
  | [] => Some []
  | c :: r =>
      if decide (c = Byte.x25) then
        match r with
        | a :: b :: r' => match hex_decode [a; b] with Some d => (λ t, d ++ t) <$> PathUnescape r' | None => None end
        | _ => None
        end
      else cons c <$> PathUnescape r
  end.

(** [PadString] at a caller that recovers from its panic. *)
Definition padded {S} (s : bytes) (n : nat) : M S bytes :=
  match PadString s (Z.of_nat n) with
  | Some b => mret b
  | None => fail_with (Errno EIO)
  end.

(** ** Tokens (auth.go) *)
Definition peerTokenSuffix : bytes := bs ":momo-peer:".
Definition challengeNonceSize : nat := 32.
Definition challengeResponseSize : nat := 32.

Definition padAuthToken (token : bytes) : bytes := token ++ replicate (AuthTokenLength - length token) ch_nul.

(** The hexadecimal digest has exactly the padded length. *)
Definition DerivePeerToken (authToken : bytes) : bytes := hex_encode (sha256 (authToken ++ peerTokenSuffix)).

Definition computeHMAC (key message : bytes) : bytes := hmacSHA256 key message.

Definition ChallengeResponseServer {S} (expected nonce : bytes) : M S bool :=
  let expected := padAuthToken expected in
  Write nonce;;
  response ← ReadFull challengeResponseSize ErrPlain;
  mret (bool_decide (response = computeHMAC expected nonce)).

Definition ChallengeResponseServerPeer {S} (expected nonce : bytes) : M S bool :=
  let expected := padAuthToken expected in
  Write nonce;;
  response ← ReadFull challengeResponseSize ErrPlain;
  if decide (response = computeHMAC expected nonce) then mret false
  else if decide (response = computeHMAC (DerivePeerToken expected) nonce) then mret true
  else fail_with (Errno EACCES).

Definition ChallengeResponseClient {S} (authToken : bytes) : M S unit :=
  nonce ← ReadFull challengeNonceSize (Errno EBADMSG);
  key ← padded authToken AuthTokenLength;
  Write (computeHMAC key nonce).

(** ** The client's side of the handshake *)
Definition encodeRequestedModeByte (requestedMode : Z) : result byte :=
  if decide (requestedMode = ModeList ∨ requestedMode = ModeDelete ∨ requestedMode = ModeGet ∨ requestedMode = ModeOPRFEval)
  then Ok (z2b requestedMode)
  else if (requestedMode <? 0) || (9 <? requestedMode) then Err (Errno EBADMSG)
  else Ok (z2b (requestedMode + 48)).

(** The timestamp field; [WritePaddedInt] refuses what does not fit. *)
Definition timestamp_field (timestamp : Z) : result bytes := WritePaddedInt (replicate TimestampLength ch_nul) timestamp TimestampLength.

(** The frame [HandshakeClient] and [SendOPRFEval] open with. *)
Definition send_hello {S} (challenge : bool) (authToken : bytes) (timestamp : Z) (modeByte : result byte) : M S unit :=
  if challenge then
    ts ← lift (timestamp_field timestamp);
    m ← lift modeByte;
    Write (ts ++ [m]);;
    ChallengeResponseClient authToken
  else
    token ← padded authToken AuthTokenLength;
    ts ← lift (timestamp_field timestamp);
    m ← lift modeByte;
    Write (token ++ ts ++ [m]).

Definition HandshakeClient {S} (challenge : bool) (authToken : bytes) (timestamp requestedMode : Z) : M S Z :=
  send_hello challenge authToken timestamp (encodeRequestedModeByte requestedMode);;
  b ← ReadFull 1 (Errno EBADMSG);
  match SafeParseInt b with Ok m => mret m | Err _ => fail_with (Errno EBADMSG) end.

(** ** Metadata *)
Definition meta_name (Name RemotePath : bytes) : result bytes :=
  if decide (RemotePath = []) then Ok Name
  else let! normalized := NormalizeVirtualPath RemotePath in Ok (normalized ++ [ch_slash] ++ Name).

(** The checks of [SendMetadata] on the name, in order. *)
Definition check_wire_name (wireName : bytes) : result unit :=
  if FileInfoLength <? Z.of_nat (length wireName) then Err (Errno ENAMETOOLONG)
  else if crlf wireName then Err (Errno EBADMSG)
  else match PathUnescape wireName with
       | None => Err (Errno EBADMSG)
       | Some decoded => if existsb HasPathTraversalChars (split_slash decoded) then Err (Errno EBADMSG) else Ok tt
       end.

(** A fixed field filled with [copy]: what is too long is cut. *)
Definition field (n : nat) (s : bytes) : bytes := take n s ++ replicate (n - length s) ch_nul.

Definition metadata_packet (hash wireName : bytes) (size : Z) : bytes :=
  field hashLength hash ++ field (Z.to_nat FileInfoLength) wireName ++ field (Z.to_nat FileInfoLength) (append_int size).

Definition SendMetadata {S} (meta : FileMetadata) : M S Z :=
  wireName ← lift (meta_name (Name meta) (RemotePath meta));
  lift (check_wire_name wireName);;
  Write (metadata_packet (Hash meta) wireName (FSize meta));;
  b ← ReadFull 1 (Errno EBADMSG);
  match b with c :: _ => mret (b2z c) | [] => fail_with (Errno EBADMSG) end.

Definition ReceiveMetadata {S} : M S FileMetadata :=
  buffer ← ReadFull 192 ErrPlain;
  let rawHash := TrimNullBytesString (take 64 buffer) in
  if crlf rawHash then fail_with (Errno EBADMSG)
  else if bool_decide (rawHash = []) || HasPathTraversalChars rawHash then fail_with (Errno EBADMSG)
  else
    let name := TrimNullBytesString (take 64 (drop 64 buffer)) in
    if crlf name then fail_with (Errno EBADMSG)
    else
      lift (ValidatePath name);;
      size ← lift (SafeParseInt (drop 128 buffer));
      mret (mkFile name (SanitizeLog rawHash) size [] 0).

Definition SendMetadataStatus {S} (status : Z) : M S unit := Write [z2b status].

Definition SendReplicationMode {S} (mode : Z) : M S unit :=
  if (mode <? 0) || (9 <? mode) then fail_with (Errno EBADMSG) else Write [z2b (mode + 48)].

Definition ack : bytes := bs "ACK".
Definition SendACK {S} (serverId : Z) : M S unit :=
  if (serverId <? 0) || (255 <? serverId) then fail_with (Errno EBADMSG) else Write (ack ++ [z2b serverId]).
Definition ReceiveACK {S} : M S unit :=
  b ← ReadFull 4 (Errno EBADMSG);
  if decide (take 3 b = ack) then mret tt else fail_with (Errno EBADMSG).

(** ** The server's side *)

(** [UnixNano] timestamps; the difference and its negation wrap. *)
Definition checkHandshakeTimestampFresh (ts now : Z) : bool :=
  let d := int64 (ts - now) in
  let d := if d <? 0 then int64 (- d) else d in
  d <=? momoHandshakeMaxSkew.

(** The mode byte: a letter, or a digit by byte subtraction. *)
Definition decode_mode (b : byte) : result Z :=
  if decide (b2z b = ModeList ∨ b2z b = ModeDelete ∨ b2z b = ModeGet ∨ b2z b = ModeOPRFEval) then Ok (b2z b)
  else let m := (b2z b - 48) mod 256 in if 9 <? m then Err (Errno EBADMSG) else Ok m.

Definition be32 (z : Z) : bytes := put_be 4 (uint32 z).

(** [writeStatusByte] *)
Definition writeStatusByte {S} (c : byte) : M S unit := Write [c].
Definition st_ok : byte := Byte.x30.
Definition st_missing : byte := Byte.x31.
Definition st_error : byte := Byte.x32.

(** The server end of a transport: its name in the audit log, the configuration, what the
    clock and the random source give, and the capabilities the daemon injects. *)
Record environment := mkEnv {
  identity : bytes;
  useChallengeResp : bool;
  expectedAuthToken : bytes;
  nonce : bytes;
  clock : Z;
  attached : bool;
  globalLister : option (result (list FileMetadata));
  leaseAcquirer : option (bytes → result unit);
  deletePropagator : bool;
  oprfService : option (bytes → result (list (Z * bytes)))
}.

Definition tcp_env : bool → bytes → bytes → Z → environment := λ cr tok nc now, mkEnv (bs "momo-tcp") cr tok nc now true None None false None.
Definition quic_env : bool → bytes → bytes → Z → environment := λ cr tok nc now, mkEnv (bs "momo-quic") cr tok nc now true None None false None.

(** Calls of a handler to the lease manager and to the delete propagation of the daemon. *)
Inductive hook_call := AcquireLease (name : bytes) | ReleaseLease (name : bytes) | PropagateDelete (name : bytes).

Section Server.
Context {B : Type} `{BlobStore B}.

(** What the handlers change: the store, the audit log, the connection's role, and the calls
    they made to the cluster, in order. *)
Record server := mkServer { sstore : CASStore B; saudit : audit_log; isPeer : bool; calls : list hook_call }.

Implicit Types (e : environment).

Definition set_peer (p : bool) : M server unit :=
  s ← get; put (mkServer (sstore s) (saudit s) p (calls s)).

Definition call (h : hook_call) : M server unit :=
  s ← get; put (mkServer (sstore s) (saudit s) (isPeer s) (calls s ++ [h])).

Definition writeAuditLog e (operation resource outcome : bytes) : M server unit :=
  if attached e then
    s ← get;
    put (mkServer (sstore s)
           (WriteAuditLog (saudit s) (mkAudit 0 [] (identity e) operation resource outcome (append_int (clock e)) [] []) (clock e))
           (isPeer s) (calls s))
  else mret tt.

(** The authentication part of [HandshakeServer]: the mode and the timestamp. *)
Definition authenticate e : M server (Z * Z) :=
  if useChallengeResp e then
    buf ← ReadFull (TimestampLength + 1) (Errno EBADMSG);
    p ← ChallengeResponseServerPeer (expectedAuthToken e) (nonce e);
    set_peer p;;
    match SafeParseInt (take TimestampLength buf) with
    | Err _ => fail_with (Errno EBADMSG)
    | Ok ts => m ← lift (decode_mode (default ch_nul (buf !! TimestampLength))); mret (m, ts)
    end
  else
    buf ← ReadFull (AuthTokenLength + TimestampLength + 1) (Errno EBADMSG);
    let token := take AuthTokenLength buf in
    (if decide (token = expectedAuthToken e) then set_peer false
     else if decide (token = DerivePeerToken (expectedAuthToken e)) then set_peer true
     else fail_with (Errno EACCES));;
    match SafeParseInt (take TimestampLength (drop AuthTokenLength buf)) with
    | Err _ => fail_with (Errno EBADMSG)
    | Ok ts =>
        if negb (checkHandshakeTimestampFresh ts (clock e)) then fail_with (Errno EACCES)
        else m ← lift (decode_mode (default ch_nul (buf !! (AuthTokenLength + TimestampLength)%nat))); mret (m, ts)
    end.

(** *** LIST *)
Definition list_packet (f : FileMetadata) : option bytes :=
  if 64 <? Z.of_nat (length (Hash f)) then None
  else
    let wireName := if decide (RemotePath f = []) then Name f else RemotePath f ++ [ch_slash] ++ Name f in
    if 64 <? Z.of_nat (length wireName) then None
    else Some (field 64 (Hash f) ++ field 64 wireName ++ field 64 (append_int (FSize f))).

Definition list_files e : M server (list FileMetadata) :=
  match globalLister e with
  | Some r => lift r
  | None => s ← get; lift (List (sstore s))
  end.

Definition handle_list e : M server unit :=
  s ← get;
  if negb (isPeer s) then Write (be32 0)
  else if negb (attached e) then fail_with ErrPlain
  else
    files ← list_files e;
    Write (be32 (Z.of_nat (length files)));;
    Write (concat (omap list_packet files));;
    writeAuditLog e (bs "ListObjects") (bs "*") (bs "success").

(** *** DELETE and GET: a name and the hash of its content, both padded *)
Definition read_target : M server (bytes * bytes) :=
  buf ← ReadFull 128 ErrPlain;
  mret (TrimNullBytesString (take 64 buf), TrimNullBytesString (drop 64 buf)).

Definition target_traverses (fileName : bytes) : bool := contains_sub fileName dotdot || contains_byte ch_backslash fileName.

(** The proof of knowledge: the name is mapped to the hash that was sent. *)
Definition knows s (fileName providedHash : bytes) : bool :=
  match GetHashForName (sstore s) fileName with
  | Ok expected => bool_decide (expected = providedHash)
  | Err _ => false
  end.

Definition delete_name (now : Z) (fileName : bytes) : M server unit :=
  s ← get;
  let '(r, c) := Delete (sstore s) fileName now in
  put (mkServer c (saudit s) (isPeer s) (calls s));;
  lift r.

Definition on_error {S A} (m : M S A) (h : error → M S A) : M S A := λ st,
  match m st with (Ok a, st) => (Ok a, st) | (Err e, st) => h e st end.

(** A deferred call *)
Definition finally {S A} (m : M S A) (f : M S unit) : M S A := λ st, let '(r, st) := m st in (r, (f st).2).

Definition with_lease e (fileName : bytes) (m : M server unit) : M server unit :=
  match leaseAcquirer e with
  | None => m
  | Some acquire =>
      match acquire fileName with
      | Err er => writeStatusByte st_missing;; fail_with er
      | Ok _ => call (AcquireLease fileName);; finally m (call (ReleaseLease fileName))
      end
  end.

Definition delete_known_name e (fileName : bytes) : M server unit :=
  on_error (delete_name (clock e) fileName) (λ er, writeStatusByte st_missing;; fail_with er);;
  (if deletePropagator e then call (PropagateDelete fileName) else mret tt);;
  writeStatusByte st_ok;;
  writeAuditLog e (bs "DeleteObject") fileName (bs "success").

Definition handle_delete e : M server unit :=
  if negb (attached e) then fail_with ErrPlain
  else
    t ← read_target;
    let '(fileName, providedHash) := t in
    if target_traverses fileName then writeStatusByte st_missing;; fail_with (Errno EBADMSG)
    else
      s ← get;
      if negb (knows s fileName providedHash) then writeStatusByte st_missing
      else with_lease e fileName (delete_known_name e fileName).

(** [io.Copy] of a reader to the connection *)
Definition send_reader (r : reader) : M server unit :=
  Write (concat (rd_chunks r));;
  match rd_err r with None => mret tt | Some er => fail_with er end.

Definition handle_get e : M server unit :=
  if negb (attached e) then fail_with ErrPlain
  else
    t ← read_target;
    let '(fileName, providedHash) := t in
    if target_traverses fileName then writeStatusByte st_missing;; fail_with (Errno EBADMSG)
    else
      s ← get;
      if negb (knows s fileName providedHash) then writeStatusByte st_missing
      else match Get (sstore s) fileName with
           | Err er => if decide (er = Errno ENOENT) then writeStatusByte st_missing
                       else writeStatusByte st_error;; fail_with er
           | Ok (rc, meta) =>
               size ← lift (WritePaddedInt (replicate 64 ch_nul) (FSize meta) 64);
               Write (st_ok :: size);;
               send_reader rc;;
               writeAuditLog e (bs "GetObject") fileName (bs "success")
           end.

(** *** OPRF evaluation *)
Definition oprf_record (r : Z * bytes) : bytes := be32 r.1 ++ be32 (Z.of_nat (length r.2)) ++ r.2.

Definition handle_oprf e : M server unit :=
  match oprfService e with
  | None => Write (be32 0);; fail_with (Errno ENOTSUP)
  | Some evaluate =>
      blinded ← ReadFull 32 (Errno EBADMSG);
      match evaluate blinded with
      | Err er => Write (be32 0);; fail_with er
      | Ok results => Write (be32 (Z.of_nat (length results)));; Write (concat (oprf_record <$> results))
      end
  end.

(** [HandshakeServer]: [None] is [ErrRequestHandled]. *)
Definition HandshakeServer e : M server (option (Z * Z)) :=
  a ← authenticate e;
  let '(mode, ts) := a in
  if mode =? ModeList then handle_list e;; mret None
  else if mode =? ModeDelete then handle_delete e;; mret None
  else if mode =? ModeGet then handle_get e;; mret None
  else if mode =? ModeOPRFEval then handle_oprf e;; mret None
  else mret (Some (mode, ts)).
End Server.
Arguments server : clear implicits.
Arguments mkServer {B}.
Arguments sstore {B}.
Arguments saudit {B}.
Arguments isPeer {B}.
Arguments calls {B}.

(** ** Client operations *)

(** One evaluation of the reply to [SendOPRFEval]. *)
Definition read_eval {S} : M S (Z * bytes) :=
  idx ← ReadFull 4 (Errno EBADMSG);
  len ← ReadFull 4 (Errno EBADMSG);
  if 32 <? get_be len then fail_with (Errno EBADMSG)
  else ev ← ReadFull (Z.to_nat (get_be len)) (Errno EBADMSG); mret (get_be idx, ev).

Fixpoint read_evals {S} (count : nat) : M S (list (Z * bytes)) :=
  match count with
  | O => mret []
  | Datatypes.S n => r ← read_eval; rest ← read_evals n; mret (r :: rest)
  end.

Definition read_evaluations {S} (threshold : Z) : M S (list (Z * bytes)) :=
  countBuf ← ReadFull 4 (Errno EBADMSG);
  let count := get_be countBuf in
  if count =? 0 then fail_with (Errno EAGAIN)
  else if 255 <? count then fail_with (Errno EBADMSG)
  else
    results ← read_evals (Z.to_nat count);
    if Z.of_nat (length results) <? threshold then fail_with (Errno EAGAIN) else mret results.

Definition SendOPRFEval {S} (challenge : bool) (authToken : bytes) (timestamp : Z) (blinded : bytes) (threshold : Z)
    : M S (list (Z * bytes)) :=
  if negb (length blinded =? 32)%nat then fail_with (Errno EINVAL)
  else
    send_hello challenge authToken timestamp (Ok (z2b ModeOPRFEval));;
    Write blinded;;
    read_evaluations threshold.

(** The request a reader of [name] sends: the same in [Download] and in the daemon's [Fetch]. *)
Definition get_request {S} (name hash : bytes) : M S unit :=
  n ← padded name 64;
  h ← padded hash 64;
  Write (n ++ h).

(** The reply to a GET: a status, a padded size and the content. *)
Definition read_reply {S} : M S bytes :=
  resp ← ReadFull 65 ErrPlain;
  match resp with
  | c :: sz =>
      if negb (bool_decide (c = st_ok)) then fail_with (Errno ENOENT)
      else
        size ← lift (SafeParseInt (TrimNullBytesString sz));
        if (size <? 0) || (MaxFileSize <? size) then fail_with (Errno EFBIG)
        else ReadFull (Z.to_nat size) ErrPlain
  | [] => fail_with ErrPlain
  end.

(** [client.Download] without encryption: the bytes written to the destination. *)
Definition Download {S} (authToken name contentHash : bytes) : M S bytes :=
  token ← padded authToken AuthTokenLength;
  zero ← padded (bs "0") TimestampLength;
  Write (token ++ zero ++ [z2b ModeGet]);;
  get_request name contentHash;;
  read_reply.

(** [OnStorageError]: the error number of a full store is sent as a byte. *)
Definition OnStorageError {S} (e : error) : M S unit :=
  (if decide (e = Errno ENOSPC) then Write [Byte.x1c] else mret tt);; fail_with e.

(** *** The QUIC communicator

    Its methods repeat those of the TCP one on a stream, and differ in the identity they
    record ([quic_env]). *)
Definition quic_SendOPRFEval {S} : bool → bytes → Z → bytes → Z → M S (list (Z * bytes)) := SendOPRFEval.
Definition quic_HandshakeClient {S} : bool → bytes → Z → Z → M S Z := HandshakeClient.
Definition quic_SendReplicationMode {S} : Z → M S unit := SendReplicationMode.
Definition quic_SendMetadata {S} : FileMetadata → M S Z := SendMetadata.
Definition quic_ReceiveMetadata {S} : M S FileMetadata := ReceiveMetadata.
Definition quic_SendMetadataStatus {S} : Z → M S unit := SendMetadataStatus.
Definition quic_SendACK {S} : Z → M S unit := SendACK.
Definition quic_ReceiveACK {S} : M S unit := ReceiveACK.
Definition quic_OnStorageError {S} : error → M S unit := OnStorageError.

Section Quic.
Context {B : Type} `{BlobStore B}.
Definition quic_authenticate : environment → M (server B) (Z * Z) := authenticate.
Definition quic_list : environment → M (server B) unit := handle_list.
Definition quic_delete : environment → M (server B) unit := handle_delete.
Definition quic_get : environment → M (server B) unit := handle_get.
Definition quic_oprf : environment → M (server B) unit := handle_oprf.
End Quic.

(** * Lemmas *)

(** ** Running computations *)
Lemma bind_ok {S A C} (m : M S A) (f : A → M S C) st a st' : m st = (Ok a, st') → (m ≫= f) st = f a st'.
Proof. intros E. unfold mbind, M_bind. by rewrite E. Qed.

Lemma bind_err {S A C} (m : M S A) (f : A → M S C) st e st' : m st = (Err e, st') → (m ≫= f) st = (Err e, st').
Proof. intros E. unfold mbind, M_bind. by rewrite E. Qed.

Lemma ReadFull_app {S} n e (b r o : bytes) (s : S) : length b = n → ReadFull n e (mkConn (b ++ r) o, s) = (Ok b, (mkConn r o, s)).
Proof.
  intros <-. unfold ReadFull. cbn [inp outp]. rewrite length_app, (proj2 (Nat.ltb_ge _ _)) by lia.
  by rewrite take_app_length, drop_app_length.
Qed.

Lemma ReadFull_short {S} n e c (s : S) : (length (inp c) < n)%nat → ReadFull n e (c, s) = (Err e, (mkConn [] (outp c), s)).
Proof. intros Hl. unfold ReadFull. by rewrite (proj2 (Nat.ltb_lt _ _)). Qed.

Lemma ReadFull_cases {S} n e c (s : S) :
  (length (inp c) < n)%nat ∧ ReadFull n e (c, s) = (Err e, (mkConn [] (outp c), s)) ∨
  ∃ b r, inp c = b ++ r ∧ length b = n ∧ ReadFull n e (c, s) = (Ok b, (mkConn r (outp c), s)).
Proof.
  destruct (decide (length (inp c) < n)%nat) as [Hl|Hl]; [left; split; [done|by apply ReadFull_short]|right].
  exists (take n (inp c)), (drop n (inp c)). rewrite take_drop. split; [done|].
  assert (length (take n (inp c)) = n) as Ht by (rewrite length_take; lia). split; [done|].
  rewrite <- (ReadFull_app n e _ (drop n (inp c)) (outp c) s Ht), take_drop. by destruct c.
Qed.

(** ** Fields *)
Lemma length_field n s : length (field n s) = n.
Proof. unfold field. rewrite length_app, length_take, length_replicate. lia. Qed.

Lemma field_pad n s : (length s <= n)%nat → field n s = s ++ replicate (n - length s) ch_nul.
Proof. intros Hl. unfold field. by rewrite take_ge. Qed.

Lemma PadString_field n s : (length s <= n)%nat → PadString s (Z.of_nat n) = Some (field n s).
Proof.
  intros Hl. unfold PadString. rewrite (proj2 (Z.ltb_ge _ _)), (proj2 (Z.ltb_ge _ _)) by lia.
  by rewrite field_pad, Nat2Z.id by done.
Qed.

Lemma trim_field n s : (length s <= n)%nat → ch_nul ∉ s → TrimNullBytesString (field n s) = s.
Proof.
  intros Hl Hn. rewrite field_pad by done. destruct (n - length s)%nat as [|k]; [by rewrite app_nil_r, TrimNull_id|].
  rewrite <- (app_nil_r (replicate (S k) _)). by rewrite TrimNull_app.
Qed.

Lemma parse_field n v : is_int64 v → (length (append_int v) <= n)%nat → SafeParseInt (field n (append_int v)) = Ok v.
Proof.
  intros Hv Hl. destruct (append_int_spec v Hv) as (Hn & _ & Hp). pose proof (SafeParseInt_spec (field n (append_int v))) as H.
  rewrite trim_field, Hp in H by done. by destruct (SafeParseInt _); [subst|].
Qed.

Lemma dec_digits_length fuel n acc : (length (dec_digits fuel n acc) <= fuel + length acc)%nat.
Proof.
  revert n acc. induction fuel as [|fuel IH]; intros n acc; cbn [dec_digits]; [lia|].
  case_match; cbn [length]; [lia|]. etrans; [apply IH|cbn; lia].
Qed.

Lemma append_int_length v : (length (append_int v) <= 21)%nat.
Proof.
  unfold append_int. case_match; cbn [length]; [pose proof (dec_digits_length 20 (- v) [])|pose proof (dec_digits_length 20 v [])]; cbn in *; lia.
Qed.

Lemma field_exact s : field (length s) s = s.
Proof. unfold field. by rewrite take_ge, Nat.sub_diag, app_nil_r. Qed.

Lemma WritePaddedInt_field n v :
  (length (append_int v) <= n)%nat → WritePaddedInt (replicate n ch_nul) v n = Ok (field n (append_int v)).
Proof.
  intros Hl. unfold WritePaddedInt. rewrite length_replicate.
  rewrite (proj2 (Nat.ltb_ge _ _)), (proj2 (Nat.ltb_ge _ _)) by lia.
  by rewrite drop_ge, app_nil_r, field_pad by (rewrite ?length_replicate; lia).
Qed.

Lemma timestamp_field_ok ts :
  (length (append_int ts) <= TimestampLength)%nat → timestamp_field ts = Ok (field TimestampLength (append_int ts)).
Proof. apply WritePaddedInt_field. Qed.

(** ** The handshake *)

(** The modes a client can ask for. *)
Definition mode_ok (m : Z) : Prop := 0 <= m <= 9 ∨ m = ModeList ∨ m = ModeDelete ∨ m = ModeGet ∨ m = ModeOPRFEval.

Lemma mode_roundtrip m b : encodeRequestedModeByte m = Ok b → decode_mode b = Ok m ∧ mode_ok m.
Proof.
  unfold encodeRequestedModeByte, mode_ok, ModeList, ModeDelete, ModeGet, ModeOPRFEval. case_decide as Hm.
  - intros [= <-]. split; [|tauto]. by destruct Hm as [->|[->|[->| ->]]].
  - destruct (_ || _) eqn:E; [done|]. intros [= <-]. zbool. split; [|lia].
    assert (m ∈ [0; 1; 2; 3; 4; 5; 6; 7; 8; 9]) as Hin by (rewrite !elem_of_cons; lia).
    rewrite !elem_of_cons, elem_of_nil in Hin. by destruct_or! Hin; subst.
Qed.

Lemma mode_encodes m : mode_ok m → ∃ b, encodeRequestedModeByte m = Ok b.
Proof. intros Hm. unfold encodeRequestedModeByte. case_decide; [by eexists|]. unfold mode_ok in Hm. rewrite (proj2 (orb_false_iff _ _)); [by eexists|]. lia. Qed.

(** Freshness is exact except where the difference wraps to the minimum. *)
Lemma fresh_spec ts now :
  is_int64 ts → is_int64 now → int64 (ts - now) ≠ - 2 ^ 63 → - 2 ^ 63 <= ts - now < 2 ^ 63 →
  checkHandshakeTimestampFresh ts now = true ↔ Z.abs (ts - now) <= momoHandshakeMaxSkew.
Proof.
  intros Hts Hnow Hne Hr. unfold checkHandshakeTimestampFresh. rewrite int64_id in * by done.
  destruct (Z.ltb_spec (ts - now) 0); [rewrite int64_id by (unfold is_int64; lia)|]; rewrite Z.leb_le; lia.
Qed.

(** The plaintext hello of a client. *)
Definition hello (token : bytes) (ts : Z) (m : byte) : bytes := field AuthTokenLength token ++ field TimestampLength (append_int ts) ++ [m].

Lemma length_hello token ts m : length (hello token ts m) = (AuthTokenLength + TimestampLength + 1)%nat.
Proof. unfold hello. rewrite !length_app, !length_field. cbn. lia. Qed.

Lemma hello_parts token ts m :
  take AuthTokenLength (hello token ts m) = field AuthTokenLength token ∧
  take TimestampLength (drop AuthTokenLength (hello token ts m)) = field TimestampLength (append_int ts) ∧
  hello token ts m !! (AuthTokenLength + TimestampLength)%nat = Some m.
Proof.
  unfold hello. split_and!.
  - by rewrite take_app_length' by (symmetry; apply length_field).
  - rewrite drop_app_length' by (symmetry; apply length_field). by rewrite take_app_length' by (symmetry; apply length_field).
  - rewrite app_assoc, lookup_app_r by (rewrite length_app, !length_field; lia). rewrite length_app, !length_field. by replace (_ - _)%nat with 0%nat by lia.
Qed.

Lemma send_hello_plain {S} token ts m c (s : S) :
  (length token <= AuthTokenLength)%nat → (length (append_int ts) <= TimestampLength)%nat →
  send_hello false token ts (Ok m) (c, s) = (Ok tt, (mkConn (inp c) (outp c ++ hello token ts m), s)).
Proof.
  intros Ht Hl. unfold send_hello, padded. rewrite PadString_field by done.
  rewrite timestamp_field_ok by done. reflexivity.
Qed.

Section Handshake.
Context {B : Type} `{BlobStore B}.
Implicit Types (s : server B) (e : environment).

(** The role a token gives. *)
Definition role (expected token : bytes) : option bool :=
  if decide (token = expected) then Some false else if decide (token = DerivePeerToken expected) then Some true else None.

(** The plaintext server on a whole hello. *)
Lemma authenticate_hello e s token ts m rest o :
  useChallengeResp e = false → is_int64 ts → (length (append_int ts) <= TimestampLength)%nat →
  authenticate e (mkConn (hello token ts m ++ rest) o, s) =
  match role (expectedAuthToken e) (field AuthTokenLength token) with
  | None => (Err (Errno EACCES), (mkConn rest o, s))
  | Some p =>
      let s' := mkServer (sstore s) (saudit s) p (calls s) in
      if checkHandshakeTimestampFresh ts (clock e) then
        match decode_mode m with
        | Ok mode => (Ok (mode, ts), (mkConn rest o, s'))
        | Err er => (Err er, (mkConn rest o, s'))
        end
      else (Err (Errno EACCES), (mkConn rest o, s'))
  end.
Proof.
  intros Hc Hts Hl. unfold authenticate. rewrite Hc.
  erewrite bind_ok; [|apply ReadFull_app, length_hello].
  destruct (hello_parts token ts m) as (-> & -> & ->). rewrite parse_field by done.
  change (default ch_nul (Some m)) with m. unfold role. repeat case_decide; [| |done];
    (erewrite bind_ok; [|reflexivity]; cbn [fst snd];
     destruct (checkHandshakeTimestampFresh _ _); [|done]; by destruct (decode_mode m)).
Qed.

(** The plaintext handshake admits exactly the holders of a token with a fresh clock: what
    a client sends is accepted if and only if its padded token is the configured one or the
    peer token derived from it and its timestamp is within fifteen minutes of the server's
    clock; then the server learns the mode and the timestamp that were sent, the connection
    has the role of the token, nothing was written and the next byte is the one after the
    hello. *)
Theorem handshake_exact e s token ts mode c rest o :
  useChallengeResp e = false → (length token <= AuthTokenLength)%nat → mode_ok mode → is_int64 ts →
  (length (append_int ts) <= TimestampLength)%nat → is_int64 (clock e) → - 2 ^ 63 < ts - clock e < 2 ^ 63 →
  ∃ h, send_hello false token ts (encodeRequestedModeByte mode) (c, tt) = (Ok tt, (mkConn (inp c) (outp c ++ h), tt)) ∧
  let '(r, (c', s')) := authenticate e (mkConn (h ++ rest) o, s) in
  (is_ok r = true ↔
     (field AuthTokenLength token = expectedAuthToken e ∨ field AuthTokenLength token = DerivePeerToken (expectedAuthToken e)) ∧
     Z.abs (ts - clock e) <= momoHandshakeMaxSkew) ∧
  (is_ok r = true → r = Ok (mode, ts) ∧ (isPeer s' = false ↔ field AuthTokenLength token = expectedAuthToken e)) ∧
  c' = mkConn rest o ∧ sstore s' = sstore s ∧ saudit s' = saudit s.
Proof.
  intros Hc Ht Hm Hts Hl Hclk Hd. destruct (mode_encodes _ Hm) as [m Em]. destruct (mode_roundtrip _ _ Em) as [Dm _].
  exists (hello token ts m). rewrite Em. split; [by apply send_hello_plain|]. rewrite authenticate_hello, Dm by done.
  pose proof (fresh_spec ts (clock e) Hts Hclk ltac:(rewrite int64_id; unfold is_int64; lia) ltac:(lia)) as Hf.
  unfold role. repeat case_decide; destruct (checkHandshakeTimestampFresh _ _) eqn:E; cbn [is_ok isPeer sstore saudit];
    intuition (try done; try congruence).
Qed.

(** ** Before authentication nothing happens *)

(** What an end of the connection must present: its token, or the answer to the challenge. *)
Definition presented e (input : bytes) : bytes :=
  if useChallengeResp e then take challengeResponseSize (drop (TimestampLength + 1) input) else take AuthTokenLength input.
Definition credentials e : list bytes :=
  if useChallengeResp e then
    [computeHMAC (padAuthToken (expectedAuthToken e)) (nonce e); computeHMAC (DerivePeerToken (padAuthToken (expectedAuthToken e))) (nonce e)]
  else [expectedAuthToken e; DerivePeerToken (expectedAuthToken e)].

Lemma authenticate_denied e s c :
  presented e (inp c) ∉ credentials e →
  ∃ er o, (authenticate e (c, s)).1 = Err er ∧ (authenticate e (c, s)).2.2 = s ∧ outp (authenticate e (c, s)).2.1 = outp c ++ o ∧
    (o = [] ∨ useChallengeResp e = true ∧ o = nonce e).
Proof.
  unfold presented, credentials, authenticate. destruct (useChallengeResp e) eqn:Ec; intros Hn.
  - destruct (ReadFull_cases (TimestampLength + 1) (Errno EBADMSG) c s) as [[_ E]|(b & r & Hi & Hb & E)].
    { erewrite bind_err by exact E. eexists _, []. cbn. rewrite app_nil_r. auto. }
    erewrite bind_ok by exact E. rewrite Hi, drop_app_length' in Hn by done.
    set (st := (mkConn r (outp c), s)).
    assert (∃ er c', ChallengeResponseServerPeer (expectedAuthToken e) (nonce e) st = (Err er, (c', s)) ∧ outp c' = outp c ++ nonce e)
      as (er & c' & Ech & Ho).
    { unfold ChallengeResponseServerPeer. erewrite bind_ok by reflexivity.
      destruct (ReadFull_cases challengeResponseSize ErrPlain (mkConn r (outp c ++ nonce e)) s) as [[_ E2]|(b2 & r2 & Hi2 & Hb2 & E2)].
      - erewrite bind_err by exact E2. by eexists _, _.
      - erewrite bind_ok by exact E2. cbn [inp] in Hi2. rewrite Hi2, take_app_length' in Hn by done.
        rewrite !not_elem_of_cons in Hn. rewrite !decide_False by tauto. by eexists _, _. }
    erewrite bind_err by exact Ech. exists er, (nonce e). cbn. rewrite Ho. split_and!; auto.
  - destruct (ReadFull_cases (AuthTokenLength + TimestampLength + 1) (Errno EBADMSG) c s) as [[_ E]|(b & r & Hi & Hb & E)].
    { erewrite bind_err by exact E. eexists _, []. cbn. rewrite app_nil_r. auto. }
    erewrite bind_ok by exact E. rewrite Hi, take_app_le in Hn by (rewrite Hb; unfold AuthTokenLength, TimestampLength; lia).
    rewrite !not_elem_of_cons in Hn. rewrite !decide_False by tauto. erewrite bind_err by reflexivity.
    eexists _, []. cbn. rewrite app_nil_r. auto.
Qed.

(** C23: An end that cannot present a credential gets nothing: whatever bytes arrive, without
    the token (or, with challenge and response, without an HMAC of the challenge under it)
    the handshake fails, no object, audit record or role changes, and nothing is sent but
    the challenge. *)
Theorem unauthenticated_inert e s c :
  presented e (inp c) ∉ credentials e →
  ∃ er o, (HandshakeServer e (c, s)).1 = Err er ∧ (HandshakeServer e (c, s)).2.2 = s ∧
    outp (HandshakeServer e (c, s)).2.1 = outp c ++ o ∧ (o = [] ∨ useChallengeResp e = true ∧ o = nonce e).
Proof.
  intros Hn. destruct (authenticate_denied e s c Hn) as (er & o & H1 & H2 & H3 & H4).
  destruct (authenticate e (c, s)) as [r st] eqn:E. cbn in H1, H2, H3. subst r.
  exists er, o. unfold HandshakeServer. rewrite (bind_err _ _ _ _ _ E). auto.
Qed.
End Handshake.

(** ** Metadata *)

(** A digest field both ends take as it is. *)
Definition hash_ok (h : bytes) : Prop :=
  h ≠ [] ∧ (length h <= 64)%nat ∧ ch_nul ∉ h ∧ hasControlByte h = false ∧ HasPathTraversalChars h = false.

Lemma control_crlf s : hasControlByte s = false → crlf s = false.
Proof.
  intros Hc. unfold crlf. rewrite orb_false_iff. unfold hasControlByte in Hc.
  assert (∀ c, control c = true → contains_byte c s = false) as H.
  { intros c Hcc. destruct (contains_byte c s) eqn:E; [|done]. exfalso. rewrite contains_byte_spec, bool_decide_eq_true in E.
    assert (existsb control s = true) as Hx by (apply existsb_exists; exists c; split; [by apply list_elem_of_In|done]). congruence. }
  split; by apply H.
Qed.

Lemma packet_parts hash wireName size :
  let b := metadata_packet hash wireName size in
  length b = 192%nat ∧ take 64 b = field 64 hash ∧ take 64 (drop 64 b) = field 64 wireName ∧ drop 128 b = field 64 (append_int size).
Proof.
  cbv zeta. unfold metadata_packet, hashLength, FileInfoLength. change (Z.to_nat 64) with 64%nat. split_and!.
  - by rewrite !length_app, !length_field.
  - by rewrite take_app_length' by (symmetry; apply length_field).
  - rewrite drop_app_length' by (symmetry; apply length_field). by rewrite take_app_length' by (symmetry; apply length_field).
  - rewrite app_assoc. by rewrite drop_app_length' by (rewrite length_app, !length_field; done).
Qed.

(** The receiver on a packet and what follows it. *)
Lemma received {S} name hash size rest o (s : S) :
  (length name <= 64)%nat → ch_nul ∉ name → crlf name = false → ValidatePath name = Ok tt → hash_ok hash → is_int64 size →
  ReceiveMetadata (mkConn (metadata_packet hash name size ++ rest) o, s) = (Ok (mkFile name hash size [] 0), (mkConn rest o, s)).
Proof.
  intros Hlw Hnul Hcr Hv (Hne & Hl & Hhn & Hctl & Htr) Hsz. destruct (packet_parts hash name size) as (P0 & P1 & P2 & P3).
  unfold ReceiveMetadata. erewrite bind_ok by (by apply ReadFull_app). rewrite P1, P2, P3, !trim_field by done.
  rewrite (control_crlf _ Hctl), Htr, (bool_decide_eq_false_2 _ Hne), Hcr, Hv. cbn [orb].
  pose proof (append_int_length size) as Hla. rewrite parse_field by (done || lia). unfold SanitizeLog. by rewrite Hctl.
Qed.

(** Metadata survives the wire: a description that the sender accepts and whose name and
    digest the receiver can accept is received with the same digest, the name under its
    remote path and the same size, whatever follows on the connection; the sender gets the
    status byte the receiver answers with. *)
Theorem metadata_roundtrip {S} meta wireName status rest o (s : S) c :
  meta_name (Name meta) (RemotePath meta) = Ok wireName → check_wire_name wireName = Ok tt →
  ch_nul ∉ wireName → ValidatePath wireName = Ok tt → hash_ok (Hash meta) → is_int64 (FSize meta) →
  inp c = [z2b status] → 0 <= status < 256 →
  ∃ p, SendMetadata meta (c, s) = (Ok status, (mkConn [] (outp c ++ p), s)) ∧
       ReceiveMetadata (mkConn (p ++ rest) o, s) = (Ok (mkFile wireName (Hash meta) (FSize meta) [] 0), (mkConn rest o, s)).
Proof.
  intros Hw Hck Hnul Hv Hh Hsz Hin Hst. exists (metadata_packet (Hash meta) wireName (FSize meta)).
  assert (length wireName <= 64)%nat as Hlw.
  { unfold check_wire_name, FileInfoLength in Hck. destruct (Z.ltb_spec 64 (Z.of_nat (length wireName))); [done|]. lia. }
  assert (crlf wireName = false) as Hcr by (unfold check_wire_name in Hck; destruct (_ <? _); [done|]; by destruct (crlf wireName)).
  split.
  - destruct c as [i oc]. cbn in Hin. subst i. unfold SendMetadata.
    erewrite bind_ok by (unfold lift; by rewrite Hw). erewrite bind_ok by (unfold lift; by rewrite Hck).
    erewrite bind_ok by reflexivity. erewrite bind_ok by reflexivity. cbn -[metadata_packet z2b]. rewrite b2z_z2b, Z.mod_small by lia. done.
  - by apply received.
Qed.

(** ** Requests *)

(** A name the request fields carry unchanged. *)
Definition name_ok (name : bytes) : Prop := (length name <= 64)%nat ∧ ch_nul ∉ name ∧ target_traverses name = false.

Definition request (name hash : bytes) : bytes := field 64 name ++ field 64 hash.

Lemma get_request_ok {S} name hash c (s : S) :
  (length name <= 64)%nat → (length hash <= 64)%nat →
  get_request name hash (c, s) = (Ok tt, (mkConn (inp c) (outp c ++ request name hash), s)).
Proof. intros Hn Hh. unfold get_request, padded. by rewrite !(PadString_field 64) by done. Qed.

Section Requests.
Context {B : Type} `{BlobStore B}.
Implicit Types (s : server B) (e : environment).

Lemma read_target_ok s name hash rest o :
  (length name <= 64)%nat → ch_nul ∉ name → (length hash <= 64)%nat → ch_nul ∉ hash →
  read_target (mkConn (request name hash ++ rest) o, s) = (Ok (name, hash), (mkConn rest o, s)).
Proof.
  intros Hn Hnn Hh Hhn. unfold read_target. erewrite bind_ok; [|apply ReadFull_app; unfold request; by rewrite length_app, !length_field].
  unfold request. rewrite take_app_length' by (symmetry; apply length_field).
  rewrite drop_app_length' by (symmetry; apply length_field). by rewrite !trim_field.
Qed.

(** The server's state after an operation is recorded. *)
Definition audited e (op name : bytes) s : server B :=
  mkServer (sstore s)
    (WriteAuditLog (saudit s) (mkAudit 0 [] (identity e) op name (bs "success") (append_int (clock e)) [] []) (clock e)) (isPeer s) (calls s).

(** Requests for a name whose hash was not sent. *)
Lemma knows_spec s name hash : knows s name hash = true ↔ GetHashForName (sstore s) name = Ok hash.
Proof.
  unfold knows. destruct (GetHashForName (sstore s) name) as [h|]; [|done].
  rewrite bool_decide_eq_true. naive_solver.
Qed.

(** A GET or a DELETE needs proof of knowledge: unless the name is mapped to the digest that
    was sent, the reply is the single byte of a missing object, the same for a name that
    does not exist and for a wrong digest, and neither the store nor the audit log
    changes. *)
Theorem request_needs_hash e s name hash rest o :
  attached e = true → name_ok name → (length hash <= 64)%nat → ch_nul ∉ hash →
  GetHashForName (sstore s) name ≠ Ok hash →
  handle_get e (mkConn (request name hash ++ rest) o, s) = (Ok tt, (mkConn rest (o ++ [st_missing]), s)) ∧
  handle_delete e (mkConn (request name hash ++ rest) o, s) = (Ok tt, (mkConn rest (o ++ [st_missing]), s)).
Proof.
  intros Ha (Hn & Hnn & Ht) Hh Hhn Hk.
  assert (knows s name hash = false) as Hkn by (apply not_true_iff_false; by rewrite knows_spec).
  unfold handle_get, handle_delete. rewrite Ha. cbn [negb].
  split; (erewrite bind_ok; [|by apply read_target_ok]); cbv beta iota; rewrite Ht; (erewrite bind_ok; [|reflexivity]); cbn [snd]; by rewrite Hkn.
Qed.

(** A GET carries the content over: when the name is mapped to the digest that was sent
    and the store opens it, the server answers in a form from which the reader recovers the
    content byte for byte, leaving what follows on the connection, and the access is
    recorded. *)
Theorem get_transfers e s name hash rc meta rest o tail o' :
  attached e = true → name_ok name → (length hash <= 64)%nat → ch_nul ∉ hash →
  GetHashForName (sstore s) name = Ok hash → Get (sstore s) name = Ok (rc, meta) → rd_err rc = None →
  Z.of_nat (length (concat (rd_chunks rc))) = FSize meta → FSize meta <= MaxFileSize →
  ∃ reply, handle_get e (mkConn (request name hash ++ rest) o, s) =
             (Ok tt, (mkConn rest (o ++ reply), audited e (bs "GetObject") name s)) ∧
           read_reply (mkConn (reply ++ tail) o', tt) = (Ok (concat (rd_chunks rc)), (mkConn tail o', tt)).
Proof.
  intros Ha (Hn & Hnn & Ht) Hh Hhn Hk Hg Hr Hsz Hmax. apply knows_spec in Hk.
  set (sz := field 64 (append_int (FSize meta))).
  assert (is_int64 (FSize meta)) as Hi by (unfold is_int64, MaxFileSize in *; lia).
  pose proof (append_int_length (FSize meta)) as Hla.
  exists ((st_ok :: sz) ++ concat (rd_chunks rc)). split.
  - unfold handle_get. rewrite Ha. cbn [negb]. erewrite bind_ok; [|by apply read_target_ok].
    cbv beta iota. rewrite Ht. erewrite bind_ok; [|reflexivity]. cbn [snd]. rewrite Hk, Hg. cbn [negb].
    erewrite bind_ok; [|unfold lift; by rewrite (WritePaddedInt_field 64) by lia].
    erewrite bind_ok by reflexivity. unfold send_reader, writeAuditLog. rewrite Hr, Ha.
    erewrite bind_ok; [|by erewrite bind_ok by reflexivity]. rewrite app_assoc. reflexivity.
  - unfold read_reply. rewrite <- app_assoc. erewrite bind_ok; [|apply ReadFull_app; unfold sz; cbn [length]; by rewrite length_field].
    cbv beta iota. rewrite bool_decide_eq_true_2 by done. cbn [negb]. destruct (append_int_spec (FSize meta) Hi) as (Hnul & _ & _).
    unfold sz. rewrite trim_field by (done || lia).
    erewrite bind_ok; [|unfold lift; rewrite <- (field_exact (append_int _)), parse_field by done; reflexivity].
    rewrite (proj2 (orb_false_iff _ _)) by (rewrite !Z.ltb_ge; lia).
    apply ReadFull_app. lia.
Qed.

Lemma delete_body e s name rest o c' :
  attached e = true → Delete (sstore s) name (clock e) = (Ok tt, c') →
  ∃ s', delete_known_name e name (mkConn rest o, s) = (Ok tt, (mkConn rest (o ++ [st_ok]), s')) ∧
    sstore s' = c' ∧ isPeer s' = isPeer s ∧ saudit s' = saudit (audited e (bs "DeleteObject") name s) ∧
    calls s' = calls s ++ (if deletePropagator e then [PropagateDelete name] else []).
Proof.
  intros Ha Hd. unfold delete_known_name.
  erewrite bind_ok; [|unfold on_error, delete_name; erewrite bind_ok by reflexivity; cbn [snd]; rewrite Hd; reflexivity].
  unfold writeAuditLog. rewrite Ha. destruct (deletePropagator e); eexists; (split; [reflexivity|]); rewrite ?app_nil_r; auto.
Qed.

(** The calls around a deletion that succeeds. *)
Definition delete_calls e (name : bytes) : list hook_call :=
  let p := if deletePropagator e then [PropagateDelete name] else [] in
  match leaseAcquirer e with None => p | Some _ => AcquireLease name :: p ++ [ReleaseLease name] end.

(** A DELETE by an end that knows the digest removes the name once: the lease is taken, the
    store's deletion is applied, the deletion is handed to the peers while the lease is
    held, the lease is given back, and the reply is the byte of success with a record in the
    audit log. *)
Theorem delete_known e s name hash rest o c' :
  attached e = true → name_ok name → (length hash <= 64)%nat → ch_nul ∉ hash →
  GetHashForName (sstore s) name = Ok hash →
  (∀ acquire, leaseAcquirer e = Some acquire → acquire name = Ok tt) →
  Delete (sstore s) name (clock e) = (Ok tt, c') →
  ∃ s', handle_delete e (mkConn (request name hash ++ rest) o, s) = (Ok tt, (mkConn rest (o ++ [st_ok]), s')) ∧
    sstore s' = c' ∧ calls s' = calls s ++ delete_calls e name ∧ isPeer s' = isPeer s ∧
    saudit s' = saudit (audited e (bs "DeleteObject") name s).
Proof.
  intros Ha (Hn & Hnn & Ht) Hh Hhn Hk Hl Hd. apply knows_spec in Hk.
  unfold handle_delete. rewrite Ha. cbn [negb]. erewrite bind_ok; [|by apply read_target_ok].
  cbv beta iota. rewrite Ht. erewrite bind_ok; [|reflexivity]. cbn [snd]. rewrite Hk. cbn [negb].
  unfold with_lease, delete_calls.
  destruct (leaseAcquirer e) as [acquire|].
  - rewrite (Hl _ eq_refl). erewrite bind_ok by reflexivity. unfold finally. cbn [fst snd].
    destruct (delete_body e (mkServer (sstore s) (saudit s) (isPeer s) (calls s ++ [AcquireLease name])) name rest o c' Ha Hd) as (s' & -> & H1 & H2 & H3 & H4). eexists. split; [reflexivity|].
    cbn in H2, H3, H4 |- *. rewrite H4, <- !app_assoc. split_and!; auto.
  - destruct (delete_body e s name rest o c' Ha Hd) as (s' & H0 & H1 & H2 & H3 & H4). exists s'.
    split_and!; auto.
Qed.

(** *** OPRF *)
Lemma get_be32 z : 0 <= z < 2 ^ 32 → get_be (be32 z) = z.
Proof. intros Hz. unfold be32. rewrite get_be_put_be4. unfold uint32. by rewrite !(Z.mod_small z) by lia. Qed.

Lemma length_be32 z : length (be32 z) = 4%nat.
Proof. apply length_put_be. Qed.

(** A share: the index of its server and at most 32 bytes. *)
Definition eval_ok (r : Z * bytes) : Prop := 0 <= r.1 < 2 ^ 32 ∧ (length r.2 <= 32)%nat.

Lemma read_eval_ok {S} r rest o (s : S) : eval_ok r → read_eval (mkConn (oprf_record r ++ rest) o, s) = (Ok r, (mkConn rest o, s)).
Proof.
  destruct r as [i b]. intros [Hi Hb]. cbn in Hi, Hb. unfold oprf_record, read_eval. cbn [fst snd]. rewrite <- !app_assoc.
  erewrite bind_ok; [|apply ReadFull_app, length_be32]. erewrite bind_ok; [|apply ReadFull_app, length_be32].
  rewrite !get_be32 by lia. rewrite (proj2 (Z.ltb_ge _ _)) by lia.
  erewrite bind_ok; [|apply ReadFull_app; lia]. done.
Qed.

Lemma read_evals_ok {S} rs rest o (s : S) :
  Forall eval_ok rs → read_evals (length rs) (mkConn (concat (oprf_record <$> rs) ++ rest) o, s) = (Ok rs, (mkConn rest o, s)).
Proof.
  induction 1 as [|r rs Hr _ IH]; [done|]. cbn [length read_evals fmap list_fmap concat]. rewrite <- app_assoc.
  erewrite bind_ok by (by apply read_eval_ok). by erewrite bind_ok by exact IH.
Qed.

(** The threshold evaluations survive the wire: what the server's hook returns for the
    blinded element is what the client reads, as long as it is a legal number of shares of
    at most 32 bytes and reaches the threshold; below the threshold the client fails closed. *)
Theorem oprf_roundtrip e s evaluate blinded results threshold rest o o' :
  oprfService e = Some evaluate → evaluate blinded = Ok results → length blinded = 32%nat → Forall eval_ok results →
  results ≠ [] → (length results <= 255)%nat →
  ∃ reply, handle_oprf e (mkConn (blinded ++ rest) o, s) = (Ok tt, (mkConn rest (o ++ reply), s)) ∧
    read_evaluations threshold (mkConn reply o', tt) =
      (if threshold <=? Z.of_nat (length results) then Ok results else Err (Errno EAGAIN), (mkConn [] o', tt)).
Proof.
  intros He Hev Hb Hok Hne Hl. exists (be32 (Z.of_nat (length results)) ++ concat (oprf_record <$> results)). split.
  - unfold handle_oprf. rewrite He. erewrite bind_ok; [|by apply ReadFull_app]. rewrite Hev.
    erewrite bind_ok by reflexivity. rewrite app_assoc. reflexivity.
  - assert (0 < length results)%nat by (destruct results; [done|cbn; lia]).
    unfold read_evaluations. erewrite bind_ok; [|apply ReadFull_app, length_be32]. rewrite get_be32 by lia.
    rewrite (proj2 (Z.eqb_neq _ _)), (proj2 (Z.ltb_ge _ _)), Nat2Z.id by lia.
    erewrite bind_ok; [|rewrite <- (app_nil_r (concat _)); by apply read_evals_ok].
    rewrite Z.leb_antisym. by destruct (_ <? threshold).
Qed.
End Requests.

(** ** Examples *)
Definition ex_token : bytes := bs "secret".
Definition ex_env : environment := tcp_env false (field AuthTokenLength ex_token) (replicate 32 ch_nul) (10 ^ 18).
Definition ex_server : server (gmap bytes bytes) := mkServer ex1 ∅ false [].

Lemma handshake_exact_witness :
  ∃ h, send_hello false ex_token (10 ^ 18 + 5) (encodeRequestedModeByte ModeGet) (mkConn [] [], tt) = (Ok tt, (mkConn [] h, tt)) ∧
  (authenticate ex_env (mkConn (h ++ bs "x") [], ex_server)).1 = Ok (ModeGet, 10 ^ 18 + 5).
Proof.
  destruct (handshake_exact ex_env ex_server ex_token (10 ^ 18 + 5) ModeGet (mkConn [] []) (bs "x") []) as (h & H1 & H2);
    [done|vm_compute; lia|right; right; right; by left|done|vm_compute; lia|done|done|].
  exists h. split; [exact H1|].
  destruct (authenticate ex_env (mkConn (h ++ bs "x") [], ex_server)) as [r [c' s']].
  destruct H2 as ([_ H2] & H3 & _). cbn [fst]. apply H3, H2. split; [left; reflexivity|vm_compute; discriminate].
Defined.

Lemma unauthenticated_inert_witness :
  ∃ er o, (HandshakeServer ex_env (mkConn (replicate 84 Byte.x41) [], ex_server)).1 = Err er ∧
    (HandshakeServer ex_env (mkConn (replicate 84 Byte.x41) [], ex_server)).2.2 = ex_server ∧
    outp (HandshakeServer ex_env (mkConn (replicate 84 Byte.x41) [], ex_server)).2.1 = [] ++ o ∧
    (o = [] ∨ useChallengeResp ex_env = true ∧ o = nonce ex_env).
Proof.
  apply (unauthenticated_inert ex_env ex_server (mkConn (replicate 84 Byte.x41) [])).
  apply (bool_decide_unpack _). vm_compute. exact I.
Defined.

Definition ex_meta : FileMetadata := mkFile (bs "f") (bs "0a1b") 3 (bs "dir") 0.

Lemma metadata_roundtrip_witness :
  ∃ p, SendMetadata ex_meta (mkConn [Byte.x01] [], tt) = (Ok 1, (mkConn [] p, tt)) ∧
       ReceiveMetadata (mkConn (p ++ bs "abc") [], tt) = (Ok (mkFile (bs "dir/f") (bs "0a1b") 3 [] 0), (mkConn (bs "abc") [], tt)).
Proof.
  apply (metadata_roundtrip ex_meta (bs "dir/f") 1 (bs "abc") [] tt (mkConn [Byte.x01] []));
    [vm_compute; reflexivity|vm_compute; reflexivity|apply (bool_decide_unpack _); vm_compute; exact I|vm_compute; reflexivity| |done|done|done].
  split_and!; [done|vm_compute; lia|apply (bool_decide_unpack _); vm_compute; exact I|vm_compute; reflexivity|vm_compute; reflexivity].
Defined.

Lemma name_ok_a : name_ok (bs "a").
Proof. split_and!; [vm_compute; lia|apply (bool_decide_unpack _); vm_compute; exact I|vm_compute; reflexivity]. Qed.

Lemma request_needs_hash_witness :
  handle_get ex_env (mkConn (request (bs "a") (bs "beef") ++ []) [], ex_server) = (Ok tt, (mkConn [] [st_missing], ex_server)) ∧
  handle_delete ex_env (mkConn (request (bs "a") (bs "beef") ++ []) [], ex_server) = (Ok tt, (mkConn [] [st_missing], ex_server)).
Proof.
  apply (request_needs_hash ex_env ex_server (bs "a") (bs "beef") [] []);
    [done|apply name_ok_a|vm_compute; lia|apply (bool_decide_unpack _); vm_compute; exact I|vm_compute; discriminate].
Defined.

Lemma get_transfers_witness :
  ∃ reply, handle_get ex_env (mkConn (request (bs "a") ex_hash ++ []) [], ex_server) =
             (Ok tt, (mkConn [] reply, audited ex_env (bs "GetObject") (bs "a") ex_server)) ∧
           read_reply (mkConn (reply ++ bs "z") [], tt) = (Ok (bs "hi"), (mkConn (bs "z") [], tt)).
Proof.
  apply (get_transfers ex_env ex_server (bs "a") ex_hash (Reader [ex_body] None) (mkFile (bs "a") ex_hash 2 (bs "d/a") 5) [] [] (bs "z") []);
    [done|apply name_ok_a|vm_compute; lia|apply (bool_decide_unpack _); vm_compute; exact I|vm_compute; reflexivity|vm_compute; reflexivity|done|done|done].
Defined.

Definition ex_leased : environment :=
  mkEnv (bs "momo-tcp") false [] [] 9 true None (Some (λ _, Ok tt)) true None.

Lemma delete_known_witness :
  ∃ s', handle_delete ex_leased (mkConn (request (bs "a") ex_hash ++ []) [], ex_server) = (Ok tt, (mkConn [] [st_ok], s')) ∧
    sstore s' = (Delete ex1 (bs "a") 9).2 ∧ calls s' = [AcquireLease (bs "a"); PropagateDelete (bs "a"); ReleaseLease (bs "a")] ∧
    isPeer s' = false ∧ saudit s' = saudit (audited ex_leased (bs "DeleteObject") (bs "a") ex_server).
Proof.
  apply (delete_known ex_leased ex_server (bs "a") ex_hash [] [] (Delete ex1 (bs "a") 9).2);
    [done|apply name_ok_a|vm_compute; lia|apply (bool_decide_unpack _); vm_compute; exact I|vm_compute; reflexivity| |].
  - intros acquire [= <-]. reflexivity.
  - apply run_ok. vm_compute. reflexivity.
Defined.

Definition ex_oprf : environment :=
  mkEnv (bs "momo-quic") false [] [] 0 true None None false (Some (λ b, Ok [(0, b); (2, b)])).

Lemma oprf_roundtrip_witness :
  ∃ reply, handle_oprf ex_oprf (mkConn (replicate 32 Byte.x07 ++ []) [], ex_server) = (Ok tt, (mkConn [] ([] ++ reply), ex_server)) ∧
    read_evaluations 2 (mkConn reply [], tt) = (Ok [(0, replicate 32 Byte.x07); (2, replicate 32 Byte.x07)], (mkConn [] [], tt)).
Proof.
  apply (oprf_roundtrip ex_oprf ex_server (λ b, Ok [(0, b); (2, b)]) (replicate 32 Byte.x07)
           [(0, replicate 32 Byte.x07); (2, replicate 32 Byte.x07)] 2 [] [] []); [done|done|done| |done|cbn; lia].
  repeat constructor; vm_compute; done || lia.
Defined.

(** *** What the two ends do not agree on *)

(** [Download] stamps its hello with 0, so a server that checks freshness refuses every
    download: the reply is an error before the request is read. *)
Theorem download_rejected {B} `{BlobStore B} e (s : server B) token name hash :
  useChallengeResp e = false → (length token <= AuthTokenLength)%nat → (length name <= 64)%nat → (length hash <= 64)%nat →
  momoHandshakeMaxSkew < clock e < 2 ^ 63 →
  ∃ h, (Download token name hash (mkConn [] [], tt)).2 = (mkConn [] h, tt) ∧
       (HandshakeServer e (mkConn h [], s)).1 = Err (Errno EACCES) ∧ outp (HandshakeServer e (mkConn h [], s)).2.1 = [].
Proof.
  intros Hc Ht Hn Hh Hclk. exists (hello token 0 (z2b ModeGet) ++ request name hash). split.
  { unfold Download, padded. rewrite (PadString_field AuthTokenLength token Ht).
    rewrite (PadString_field TimestampLength (bs "0")) by (vm_compute; lia).
    erewrite bind_ok by reflexivity. erewrite bind_ok by reflexivity. erewrite bind_ok by reflexivity.
    erewrite bind_ok by (by apply get_request_ok). unfold read_reply. erewrite bind_err by reflexivity. done. }
  assert (checkHandshakeTimestampFresh 0 (clock e) = false) as Hf.
  { unfold momoHandshakeMaxSkew in Hclk. apply not_true_iff_false.
    rewrite fresh_spec; unfold momoHandshakeMaxSkew; rewrite ?int64_id; unfold is_int64; lia. }
  pose proof (authenticate_hello e s token 0 (z2b ModeGet) (request name hash) [] Hc ltac:(done) ltac:(vm_compute; lia)) as Ha.
  rewrite Hf in Ha. unfold HandshakeServer. destruct (role _ _); erewrite bind_err by exact Ha; done.
Qed.

(** A daemon derives its peer token from the configured secret, the server from the padded
    one: with a secret shorter than 64 bytes a peer is refused, and only a secret of full
    length gives both ends the same token. *)
Example short_secret_refuses_peers :
  (authenticate ex_env (mkConn (hello (DerivePeerToken ex_token) (10 ^ 18) Byte.x30) [], ex_server)).1 = Err (Errno EACCES) ∧
  (authenticate ex_env (mkConn (hello (DerivePeerToken (field AuthTokenLength ex_token)) (10 ^ 18) Byte.x30) [], ex_server)).1
    = Ok (0, 10 ^ 18).
Proof. split; vm_compute; reflexivity. Qed.

(** A listing announces every object but leaves out those whose path does not fit: here it
    announces two and sends one record of 192 bytes. *)
Example listing_count_overstates :
  let f n := mkFile n (bs "0a") 1 [] 0 in
  let e := mkEnv (bs "momo-tcp") false [] [] 5 true (Some (Ok [f (bs "a"); f (replicate 65 Byte.x61)])) None false None in
  let o := outp (handle_list e (mkConn [] [], mkServer ex1 ∅ true [])).2.1 in
  get_be (take 4 o) = 2 ∧ length (drop 4 o) = 192%nat.
Proof. split; vm_compute; reflexivity. Qed.
