(* ===== verification/Notify.v ===== *)
(** * Bucket notifications (src/src/storage/notification.go)

    Rules stored as JSON per bucket, their matching against a key and an event, the S3
    event document and its delivery to a webhook with retries.  The webhook is the
    parameter [post]: the status it answers to a request at an attempt, [None] for a
    request that failed. *)
From S2P Require Import Prelude GoText Hashes Json Paths ObjectMeta BlobStore CasStore CasTheorems Versioning VersionTheorems Lifecycle.
Open Scope Z_scope.

(** ** Data *)
Inductive EventType :=
  | EventObjectCreatedPut | EventObjectCreatedPost | EventObjectCreatedCopy | EventObjectCreatedMultipart
  | EventObjectRemovedDelete | EventObjectRemovedDeleteMarker.

Definition event_name (e : EventType) : bytes :=
  match e with
  | EventObjectCreatedPut => bs "s3:ObjectCreated:Put"
  | EventObjectCreatedPost => bs "s3:ObjectCreated:Post"
  | EventObjectCreatedCopy => bs "s3:ObjectCreated:Copy"
  | EventObjectCreatedMultipart => bs "s3:ObjectCreated:CompleteMultipartUpload"
  | EventObjectRemovedDelete => bs "s3:ObjectRemoved:Delete"
  | EventObjectRemovedDeleteMarker => bs "s3:ObjectRemoved:DeleteMarkerCreated"
  end.

(** A rule; the events of a stored rule are any strings. *)
Record NotificationRule := mkNRule {
  NID : bytes;
  NStatus : bytes;
  NEvents : list bytes;
  NPrefix : bytes;
  NSuffix : bytes;
  QueueARN : bytes;
  TopicARN : bytes;
  LambdaARN : bytes;
  HTTPUrl : bytes
}.

Notation NotificationConfig := (list NotificationRule).

Record NotificationOutcome := mkDispatch { Dispatched : Z; Failed : Z }.

(** The store with its notification bucket. *)
Record NStore (B : Type) := mkNS { ls : LStore B; notifications : bucket (stored NotificationConfig) }.
Arguments mkNS {B}.
Arguments ls {B}.
Arguments notifications {B}.

(** [json.Unmarshal] of the marshalled rule *)
Definition notification_doc (r : NotificationRule) : NotificationRule :=
  mkNRule (json_valid (NID r)) (json_valid (NStatus r)) (json_valid <$> NEvents r) (json_valid (NPrefix r)) (json_valid (NSuffix r))
    (json_valid (QueueARN r)) (json_valid (TopicARN r)) (json_valid (LambdaARN r)) (json_valid (HTTPUrl r)).

(** ** Matching *)

(** [strings.HasSuffix] *)
Definition has_suffix (s p : bytes) : bool := has_prefix (rev s) (rev p).

Definition ruleMatches (rule : NotificationRule) (key : bytes) (eventType : EventType) : bool :=
  if negb (bool_decide (NStatus rule = bs "Enabled")) then false
  else if negb (existsb (λ et, bool_decide (et = event_name eventType)) (NEvents rule)) then false
  else if negb (bool_decide (NPrefix rule = [])) && negb (has_prefix key (NPrefix rule)) then false
  else if negb (bool_decide (NSuffix rule = [])) && negb (has_suffix key (NSuffix rule)) then false
  else true.

(** ** The event document *)

(** The decimal digits of [z] on at least [n] places. *)
Definition pad_dec (n : nat) (z : Z) : bytes := let d := append_int z in replicate (n - length d) Byte.x30 ++ d.

(** The civil date of a number of days since 1970-01-01. *)
Definition civil (days : Z) : Z * Z * Z :=
  let z := days + 719468 in
  let era := z / 146097 in
  let doe := z mod 146097 in
  let yoe := (doe - doe / 1460 + doe / 36524 - doe / 146096) / 365 in
  let doy := doe - (365 * yoe + yoe / 4 - yoe / 100) in
  let mp := (5 * doy + 2) / 153 in
  let d := doy - (153 * mp + 2) / 5 + 1 in
  let m := if mp <? 10 then mp + 3 else mp - 9 in
  (yoe + era * 400 + (if m <=? 2 then 1 else 0), m, d).

(** [t.UTC().Format(time.RFC3339)] of a time in nanoseconds *)
Definition RFC3339 (t : Z) : bytes :=
  let secs := t / 10 ^ 9 in
  let '(y, m, d) := civil (secs / 86400) in
  let s := secs mod 86400 in
  pad_dec 4 y ++ bs "-" ++ pad_dec 2 m ++ bs "-" ++ pad_dec 2 d ++ bs "T" ++
  pad_dec 2 (s / 3600) ++ bs ":" ++ pad_dec 2 (s / 60 mod 60) ++ bs ":" ++ pad_dec 2 (s mod 60) ++ bs "Z".

(** A member of a JSON object *)
Definition member (name : bytes) (value : bytes) : bytes := json_string name ++ bs ":" ++ value.
Definition object (members : list bytes) : bytes :=
  bs "{" ++ match members with [] => [] | m :: r => m ++ concat ((λ x, bs "," ++ x) <$> r) end ++ bs "}".

Definition buildS3EventPayload (bkt key versionID : bytes) (eventType : EventType) (now : Z) : bytes :=
  object [member (bs "Records") (bs "[" ++
    object [member (bs "eventVersion") (json_string (bs "2.1"));
            member (bs "eventSource") (json_string (bs "aws:s3"));
            member (bs "eventTime") (json_string (RFC3339 now));
            member (bs "eventName") (json_string (event_name eventType));
            member (bs "s3") (object [
              member (bs "bucket") (object [member (bs "name") (json_string bkt)]);
              member (bs "object") (object (member (bs "key") (json_string key) ::
                (if decide (versionID = []) then [] else [member (bs "versionId") (json_string versionID)])))])] ++ bs "]")].

(** ** Delivery *)

(** 100 ms, doubled by a shift of an int64 *)
Definition notificationRetryBackoff : Z := 10 ^ 8.
Definition retry_delay (attempt : nat) : Z := int64 (Z.shiftl notificationRetryBackoff (Z.of_nat attempt - 1)).

Section Delivery.
Context (post : bytes → bytes → nat → option Z).

(** What a delivery did: its result, the delays and the number of requests. *)
Fixpoint http_loop (tries attempt : nat) (url payload : bytes) : result unit * list Z * nat :=
  match tries with
  | O => (Err ErrPlain, [], O)
  | S tries =>
      let sleep := if (0 <? attempt)%nat then [retry_delay attempt] else [] in
      let again := let '(r, w, n) := http_loop tries (S attempt) url payload in (r, sleep ++ w, S n) in
      match post url payload attempt with
      | None => again
      | Some status =>
          if (200 <=? status) && (status <? 300) then (Ok tt, sleep, 1%nat)
          else if (400 <=? status) && (status <? 500) then (Err (Errno EIO), sleep, 1%nat)
          else again
      end
  end.

Definition dispatchHTTP (url payload : bytes) (retryMax : Z) : result unit * list Z * nat :=
  http_loop (Z.to_nat (if retryMax <? 1 then 1 else retryMax)) 0 url payload.

Definition dispatchToTarget (rule : NotificationRule) (bkt key versionID : bytes) (eventType : EventType) (now retryMax : Z)
    : result unit * list Z * nat :=
  if decide (HTTPUrl rule = []) then (Err (Errno ENOSYS), [], O)
  else dispatchHTTP (HTTPUrl rule) (buildS3EventPayload bkt key versionID eventType now) retryMax.

(** The requests a dispatch makes: the URL and the document, once per attempt. *)
Fixpoint dispatch_loop (rules : NotificationConfig) (bkt key versionID : bytes) (eventType : EventType) (now retryMax : Z)
    (out : NotificationOutcome) : NotificationOutcome * list (bytes * bytes) :=
  match rules with
  | [] => (out, [])
  | rule :: rest =>
      if negb (ruleMatches rule key eventType) then dispatch_loop rest bkt key versionID eventType now retryMax out
      else
        let '(r, _, n) := dispatchToTarget rule bkt key versionID eventType now retryMax in
        let sent := replicate n (HTTPUrl rule, buildS3EventPayload bkt key versionID eventType now) in
        let out := match r with
                   | Ok _ => mkDispatch (Dispatched out + 1) (Failed out)
                   | Err _ => mkDispatch (Dispatched out) (Failed out + 1)
                   end in
        let '(out, more) := dispatch_loop rest bkt key versionID eventType now retryMax out in
        (out, sent ++ more)
  end.

Section Ops.
Context {B : Type} `{BlobStore B}.
Implicit Types (s : NStore B).

Definition SetBucketNotification s (bkt : bytes) (cfg : NotificationConfig) : result unit * NStore B :=
  match bkt with
  | [] => (Err (Errno EINVAL), s)
  | _ => match bput bkt (Doc (notification_doc <$> cfg)) (notifications s) with
         | None => (Err ErrPlain, s)
         | Some l => (Ok tt, mkNS (ls s) l)
         end
  end.

Definition BucketNotification s (bkt : bytes) : result (option NotificationConfig) :=
  match notifications s !! bkt with
  | None => Ok None
  | Some Corrupt => Err (Errno EIO)
  | Some (Doc cfg) => Ok (Some cfg)
  end.

Definition DeleteBucketNotification s (bkt : bytes) : result unit * NStore B := (Ok tt, mkNS (ls s) (delete bkt (notifications s))).

Definition DispatchNotification s (bkt key versionID : bytes) (eventType : EventType) (now retryMax : Z)
    : result NotificationOutcome * list (bytes * bytes) :=
  match BucketNotification s bkt with
  | Err e => (Err e, [])
  | Ok None | Ok (Some []) => (Ok (mkDispatch 0 0), [])
  | Ok (Some cfg) =>
      let '(out, sent) := dispatch_loop cfg bkt key versionID eventType now retryMax (mkDispatch 0 0) in (Ok out, sent)
  end.
End Ops.
End Delivery.

(** * Theorems *)

(** ** Dates *)
Example rfc3339_epoch : RFC3339 0 = bs "1970-01-01T00:00:00Z".
Proof. vm_compute. reflexivity. Qed.
Example rfc3339_leap : RFC3339 (951827696 * 10 ^ 9 + 5) = bs "2000-02-29T12:34:56Z".
Proof. vm_compute. reflexivity. Qed.
Example rfc3339_before : RFC3339 (- 1) = bs "1969-12-31T23:59:59Z".
Proof. vm_compute. reflexivity. Qed.

(** ** Matching *)
Lemma has_suffix_spec s p : has_suffix s p = true ↔ ∃ t, s = t ++ p.
Proof.
  unfold has_suffix. rewrite has_prefix_spec. split; intros [t Ht].
  - exists (rev t). rewrite <- (rev_involutive s), Ht, rev_app_distr. by rewrite rev_involutive.
  - exists (rev t). by rewrite Ht, rev_app_distr.
Qed.

Lemma ruleMatches_spec rule key ev :
  ruleMatches rule key ev = true ↔
  NStatus rule = bs "Enabled" ∧ event_name ev ∈ NEvents rule ∧ NPrefix rule `prefix_of` key ∧ NSuffix rule `suffix_of` key.
Proof.
  unfold ruleMatches, prefix, suffix. destruct (bool_decide_reflect (NStatus rule = bs "Enabled")) as [Hs|Hs]; cbn [negb]; [|naive_solver].
  assert (existsb (λ et, bool_decide (et = event_name ev)) (NEvents rule) = true ↔ event_name ev ∈ NEvents rule) as He.
  { rewrite existsb_exists. setoid_rewrite bool_decide_eq_true. setoid_rewrite <- list_elem_of_In. naive_solver. }
  destruct (existsb _ _); cbn [negb]; [|naive_solver].
  pose proof (has_prefix_spec key (NPrefix rule)) as Hp. pose proof (has_suffix_spec key (NSuffix rule)) as Hq.
  assert (NPrefix rule = [] → ∃ a, key = NPrefix rule ++ a) as Hp0 by (intros ->; by exists key).
  assert (NSuffix rule = [] → ∃ b, key = b ++ NSuffix rule) as Hq0 by (intros ->; exists key; by rewrite app_nil_r).
  destruct (bool_decide_reflect (NPrefix rule = [])), (has_prefix key _), (bool_decide_reflect (NSuffix rule = [])), (has_suffix key _);
    cbn [negb andb]; naive_solver.
Qed.

(** ** Delivery *)
Definition success (o : option Z) : Prop := ∃ z, o = Some z ∧ 200 <= z < 300.
Definition rejected (o : option Z) : Prop := ∃ z, o = Some z ∧ 400 <= z < 500.
Definition final (o : option Z) : Prop := success o ∨ rejected o.

Section Props.
Context (post : bytes → bytes → nat → option Z).

Lemma http_loop_spec tries attempt url payload :
  let '(r, w, n) := http_loop post tries attempt url payload in
  (n <= tries)%nat ∧ (∀ j, (attempt <= j < attempt + n)%nat → final (post url payload j) → S j = (attempt + n)%nat) ∧
  (is_ok r = true ↔ (0 < n)%nat ∧ success (post url payload (attempt + n - 1)%nat)) ∧
  ((n < tries)%nat → (0 < n)%nat ∧ final (post url payload (attempt + n - 1)%nat)) ∧
  w = retry_delay <$> seq (Nat.max 1 attempt) (attempt + n - Nat.max 1 attempt).
Proof.
  revert attempt. induction tries as [|tries IH]; intros attempt.
  { cbn. split_and!; [done|lia|split; [done|lia]|lia|]. by replace (attempt + 0 - Nat.max 1 attempt)%nat with 0%nat by lia. }
  cbn [http_loop]. set (sleep := if (0 <? attempt)%nat then [retry_delay attempt] else []).
  assert (sleep = retry_delay <$> seq (Nat.max 1 attempt) (attempt + 1 - Nat.max 1 attempt)) as Hsl.
  { unfold sleep. destruct attempt as [|a]; [done|]. cbn [Nat.ltb Nat.leb]. replace (Nat.max 1 (S a)) with (S a) by lia.
    by replace (S a + 1 - S a)%nat with 1%nat by lia. }
  assert (∀ o, post url payload attempt = o → ¬ final o →
    let '(r, w, n) := (let '(r, w, n) := http_loop post tries (S attempt) url payload in (r, sleep ++ w, S n)) in
    (n <= S tries)%nat ∧ (∀ j, (attempt <= j < attempt + n)%nat → final (post url payload j) → S j = (attempt + n)%nat) ∧
    (is_ok r = true ↔ (0 < n)%nat ∧ success (post url payload (attempt + n - 1)%nat)) ∧
    ((n < S tries)%nat → (0 < n)%nat ∧ final (post url payload (attempt + n - 1)%nat)) ∧
    w = retry_delay <$> seq (Nat.max 1 attempt) (attempt + n - Nat.max 1 attempt)) as Hagain.
  { intros o Ho Hf. specialize (IH (S attempt)). destruct (http_loop post tries (S attempt) url payload) as [[r w] n].
    destruct IH as (I1 & I2 & I3 & I4 & I5). split_and!; [lia| | | |].
    - intros j Hj Hfj. destruct (decide (j = attempt)) as [->|]; [by rewrite Ho in Hfj|]. rewrite I2; [lia|lia|done].
    - rewrite I3. replace (S attempt + n - 1)%nat with (attempt + S n - 1)%nat by lia.
      destruct n as [|n]; [|naive_solver lia]. split; [lia|]. intros [_ Hs]. exfalso. apply Hf. left.
      by replace (attempt + 1 - 1)%nat with attempt in Hs by lia; rewrite Ho in Hs.
    - intros Hn. split; [lia|]. destruct (I4 ltac:(lia)) as [? Hfin]. by replace (attempt + S n - 1)%nat with (S attempt + n - 1)%nat by lia.
    - rewrite Hsl, I5, <- fmap_app. f_equal. replace (attempt + S n - Nat.max 1 attempt)%nat
        with ((attempt + 1 - Nat.max 1 attempt) + (S attempt + n - Nat.max 1 (S attempt)))%nat by lia.
      rewrite seq_app. by replace (Nat.max 1 attempt + (attempt + 1 - Nat.max 1 attempt))%nat with (Nat.max 1 (S attempt)) by lia. }
  destruct (post url payload attempt) as [status|] eqn:Hp; [|by apply (Hagain _ eq_refl); intros [(z & ? & _)|(z & ? & _)]].
  destruct ((200 <=? status) && (status <? 300)) eqn:E1; zbool.
  { replace (attempt + 1 - 1)%nat with attempt by lia. rewrite Hp.
    assert (success (Some status)) by (exists status; split; [done|lia]).
    split_and!; [lia|lia|naive_solver lia|intros; split; [lia|by left]|done]. }
  destruct ((400 <=? status) && (status <? 500)) eqn:E2; zbool.
  { replace (attempt + 1 - 1)%nat with attempt by lia. rewrite Hp. split_and!; [lia|lia| |intros _; split; [lia|right; exists status; split; [done|lia]]|done].
    split; [done|]. intros [_ (z & [= <-] & Hz)]. lia. }
  apply (Hagain _ eq_refl). intros [(z & [= <-] & Hz)|(z & [= <-] & Hz)]; lia.
Qed.

(** A webhook delivery stops at the first answer that settles it: it makes between one
    request and [retryMax] (at least one), none after a 2xx or a 4xx answer, waits a
    doubling delay before each retry, and succeeds exactly when the last answer is 2xx. *)
Theorem dispatchHTTP_exact url payload retryMax :
  let '(r, w, n) := dispatchHTTP post url payload retryMax in
  (1 <= n)%nat ∧ Z.of_nat n <= Z.max 1 retryMax ∧
  (∀ j, (S j < n)%nat → ¬ final (post url payload j)) ∧
  (Z.of_nat n < Z.max 1 retryMax → final (post url payload (n - 1)%nat)) ∧
  (is_ok r = true ↔ success (post url payload (n - 1)%nat)) ∧
  w = retry_delay <$> seq 1 (n - 1).
Proof.
  unfold dispatchHTTP. set (t := Z.to_nat (if retryMax <? 1 then 1 else retryMax)).
  assert (Z.of_nat t = Z.max 1 retryMax) as Ht by (unfold t; destruct (Z.ltb_spec retryMax 1); lia).
  pose proof (http_loop_spec t 0 url payload) as H. destruct (http_loop post t 0 url payload) as [[r w] n].
  destruct H as (H1 & H2 & H3 & H4 & H5). cbn [Nat.add Nat.max] in *.
  assert (1 <= n)%nat as Hn by (destruct (decide (n < t)%nat) as [Hl|]; [destruct (H4 Hl); lia|lia]).
  split_and!; [done|lia| | | |done].
  - intros j Hj Hf. specialize (H2 j ltac:(lia) Hf). lia.
  - intros Hl. apply H4. lia.
  - rewrite H3. naive_solver lia.
Qed.

(** The rules of a configuration that fire. *)
Definition firing (cfg : NotificationConfig) (key : bytes) (ev : EventType) : NotificationConfig :=
  filter (λ r, ruleMatches r key ev = true) cfg.

(** A rule whose webhook took the event. *)
Definition delivered (bkt key vid : bytes) (ev : EventType) (now retryMax : Z) (rule : NotificationRule) : bool :=
  is_ok (dispatchToTarget post rule bkt key vid ev now retryMax).1.1.

Lemma dispatch_loop_spec rules bkt key vid ev now retryMax out :
  let '(out', sent) := dispatch_loop post rules bkt key vid ev now retryMax out in
  Dispatched out' = Dispatched out + Z.of_nat (length (filter (λ r, delivered bkt key vid ev now retryMax r = true) (firing rules key ev))) ∧
  Dispatched out' + Failed out' = Dispatched out + Failed out + Z.of_nat (length (firing rules key ev)) ∧
  sent = concat ((λ r, replicate (dispatchToTarget post r bkt key vid ev now retryMax).2
                         (HTTPUrl r, buildS3EventPayload bkt key vid ev now)) <$> firing rules key ev).
Proof.
  revert out. induction rules as [|rule rules IH]; intros out; cbn [dispatch_loop]; [cbn; split_and!; [lia|lia|done]|].
  unfold firing. rewrite filter_cons. fold (firing rules key ev).
  destruct (ruleMatches rule key ev) eqn:Em; cbn [negb].
  2:{ rewrite decide_False by done. apply IH. }
  rewrite decide_True by done. rewrite filter_cons.
  destruct (dispatchToTarget post rule bkt key vid ev now retryMax) as [[r w] n] eqn:Ed.
  assert (delivered bkt key vid ev now retryMax rule = is_ok r) as Hd by (unfold delivered; by rewrite Ed).
  destruct r as [[]|e]; cbn [is_ok] in Hd; [rewrite decide_True by done|rewrite decide_False by (by rewrite Hd)];
    match goal with |- context [dispatch_loop post rules bkt key vid ev now retryMax ?o] => specialize (IH o) end;
    destruct (dispatch_loop post rules bkt key vid ev now retryMax _) as [out' more];
    destruct IH as (I1 & I2 & I3); cbn [Dispatched Failed length fmap list_fmap concat] in *; rewrite Ed; cbn [snd];
    (split_and!; [lia|lia|by rewrite I3]).
Qed.
End Props.

Section Store.
Context {B : Type} `{BlobStore B} (post : bytes → bytes → nat → option Z).
Implicit Types (s : NStore B).

(** An event reaches exactly the rules that ask for it: after a configuration is stored,
    an event on a key is posted, in the order of the rules, to the webhooks of the enabled
    rules that list the event and whose prefix and suffix fit the key, and nowhere else; a
    rule that fails does not stop the others; and each of these rules is counted once, as
    dispatched when its webhook took the document and as failed otherwise. *)
Theorem notification_exact s s' bkt cfg key vid ev now retryMax :
  SetBucketNotification s bkt cfg = (Ok tt, s') →
  let rules := filter (λ r, NStatus r = bs "Enabled" ∧ event_name ev ∈ NEvents r ∧ NPrefix r `prefix_of` key ∧ NSuffix r `suffix_of` key)
                 (notification_doc <$> cfg) in
  let doc := buildS3EventPayload bkt key vid ev now in
  ∃ out, DispatchNotification post s' bkt key vid ev now retryMax =
    (Ok out, concat ((λ r, if decide (HTTPUrl r = []) then []
                           else replicate (dispatchHTTP post (HTTPUrl r) doc retryMax).2 (HTTPUrl r, doc)) <$> rules)) ∧
    Dispatched out + Failed out = Z.of_nat (length rules) ∧
    Dispatched out = Z.of_nat (length (filter (λ r, HTTPUrl r ≠ [] ∧ is_ok (dispatchHTTP post (HTTPUrl r) doc retryMax).1.1 = true) rules)).
Proof.
  intros Hs rules doc.
  assert (rules = firing (notification_doc <$> cfg) key ev) as Hr.
  { unfold rules, firing. apply list_filter_iff. intros r. by rewrite ruleMatches_spec. }
  assert (notifications s' !! bkt = Some (Doc (notification_doc <$> cfg))) as Hl.
  { unfold SetBucketNotification, bput in Hs. destruct bkt; [done|]. destruct (_ || _); [done|].
    injection Hs as <-. apply lookup_insert_eq. }
  pose proof (dispatch_loop_spec post (notification_doc <$> cfg) bkt key vid ev now retryMax (mkDispatch 0 0)) as Hd.
  assert (DispatchNotification post s' bkt key vid ev now retryMax =
    let '(out, sent) := dispatch_loop post (notification_doc <$> cfg) bkt key vid ev now retryMax (mkDispatch 0 0) in (Ok out, sent)) as ->.
  { unfold DispatchNotification, BucketNotification. rewrite Hl. by destruct (notification_doc <$> cfg). }
  destruct (dispatch_loop post _ _ _ _ _ _ _ _) as [out sent]. destruct Hd as (H1 & H2 & H3). cbn [Dispatched Failed] in *.
  exists out. rewrite H3, Hr. split_and!; [|lia|].
  - do 2 f_equal. apply list_fmap_ext. intros _ r _. unfold dispatchToTarget. by case_decide.
  - rewrite H1, Z.add_0_l. do 2 f_equal. apply list_filter_iff. intros r. unfold delivered, dispatchToTarget. case_decide; naive_solver.
Qed.
End Store.

(** ** Examples *)
Definition ex_nrule (id st suf url : bytes) : NotificationRule :=
  mkNRule id st [bs "s3:ObjectCreated:Put"] (bs "img/") suf [] [] [] url.
Definition ex_ncfg : NotificationConfig :=
  [ex_nrule (bs "a") (bs "Enabled") (bs ".png") (bs "http://x"); ex_nrule (bs "b") (bs "Disabled") [] (bs "http://y");
   ex_nrule (bs "c") (bs "Enabled") [] []; ex_nrule (bs "d") (bs "Enabled") [] (bs "http://z")].
Definition ex_ns : NStore (gmap bytes bytes) := mkNS (mkLS (mkVS ex1 (mkVDB ∅ ∅ ∅ ∅) None) ∅ ∅) ∅.
(** The first webhook answers 500 and then 204, the others refuse. *)
Definition ex_post (url _ : bytes) (attempt : nat) : option Z :=
  if decide (url = bs "http://x") then Some (if (attempt =? 0)%nat then 500 else 204) else Some 403.

Lemma notification_exact_witness :
  ∃ out sent, DispatchNotification ex_post (SetBucketNotification ex_ns (bs "b") ex_ncfg).2 (bs "b") (bs "img/1.png") [] EventObjectCreatedPut 0 3
    = (Ok out, sent) ∧ Dispatched out + Failed out = 3.
Proof.
  destruct (notification_exact ex_post ex_ns (SetBucketNotification ex_ns (bs "b") ex_ncfg).2 (bs "b") ex_ncfg
              (bs "img/1.png") [] EventObjectCreatedPut 0 3) as (out & H1 & H2 & _); [apply run_ok; vm_compute; reflexivity|].
  exists out. eexists. split; [exact H1|]. rewrite H2. vm_compute. reflexivity.
Defined.

(** The retried webhook is posted to twice, the refusing one once, the rule without a URL
    fails without a request. *)
Example dispatch_example :
  let '(r, sent) := DispatchNotification ex_post (SetBucketNotification ex_ns (bs "b") ex_ncfg).2 (bs "b") (bs "img/1.png") [] EventObjectCreatedPut 0 3 in
  r = Ok (mkDispatch 1 2) ∧ fst <$> sent = [bs "http://x"; bs "http://x"; bs "http://z"].
Proof. vm_compute. split; reflexivity. Qed.

Example payload_example :
  buildS3EventPayload (bs "b") (bs "k") (bs "v1") EventObjectRemovedDelete 0 =
  bs "{" ++ [dquote] ++ bs "Records" ++ [dquote] ++ bs ":[{" ++ [dquote] ++ bs "eventVersion" ++ [dquote] ++ bs ":" ++ [dquote] ++ bs "2.1" ++ [dquote] ++ bs "," ++ [dquote] ++ bs "eventSource" ++ [dquote] ++ bs ":" ++ [dquote] ++ bs "aws:s3" ++ [dquote] ++ bs "," ++ [dquote] ++ bs "eventTime" ++ [dquote] ++ bs ":" ++ [dquote] ++ bs "1970-01-01T00:00:00Z" ++ [dquote] ++ bs "," ++ [dquote] ++ bs "eventName" ++ [dquote] ++ bs ":" ++ [dquote] ++ bs "s3:ObjectRemoved:Delete" ++ [dquote] ++ bs "," ++ [dquote] ++ bs "s3" ++ [dquote] ++ bs ":{" ++ [dquote] ++ bs "bucket" ++ [dquote] ++ bs ":{" ++ [dquote] ++ bs "name" ++ [dquote] ++ bs ":" ++ [dquote] ++ bs "b" ++ [dquote] ++ bs "}," ++ [dquote] ++ bs "object" ++ [dquote] ++ bs ":{" ++ [dquote] ++ bs "key" ++ [dquote] ++ bs ":" ++ [dquote] ++ bs "k" ++ [dquote] ++ bs "," ++ [dquote] ++ bs "versionId" ++ [dquote] ++ bs ":" ++ [dquote] ++ bs "v1" ++ [dquote] ++ bs "}}}]}".
Proof. vm_compute. reflexivity. Qed.
