(* ===== verification/Ingest.v ===== *)
(** * Uploads (src/src/server/server.go, file.go, replication.go)

    The connection handler of a daemon: the handshake, the choice of the replication mode,
    the metadata and its checks, the deduplication test, the transfer with its digest, the
    S3 side effects and the forwarding to the other nodes of the placement, up to the
    acknowledgement.  What the other nodes answer to a forwarded object is a field of the
    environment. *)
From S2P Require Import Prelude GoText Hashes Json Paths ObjectMeta BlobStore RawStore AuditLog CasStore CasDigest CasTheorems Versioning Lifecycle Notify Crush Protocol.
Open Scope Z_scope.

(** ** Replication modes *)
Definition ReplicationNone : Z := 0.
Definition ReplicationChain : Z := 1.
Definition ReplicationSplay : Z := 2.
Definition ReplicationPrimarySplay : Z := 3.

Record ReplicationData := mkReplication { RNew : Z; ROld : Z; RTimeStamp : Z }.

(** [SetReplicationState] on the current mode and the last change *)
Definition SetReplicationState (newMode timestamp : Z) (st : Z * ReplicationData) : Z * ReplicationData :=
  (newMode, mkReplication newMode st.1 timestamp).

Definition isClientSide (clientSideModes : list Z) (mode : Z) : bool := existsb (λ csm, mode =? csm) clientSideModes.

(** The index after the first occurrence of [mode], 0 when there is none. *)
Fixpoint after (mode : Z) (order : list Z) (i : nat) : nat :=
  match order with
  | [] => 0
  | m :: rest => if m =? mode then S i else after mode rest (S i)
  end.

Definition downgradeToServerSideMode (currentMode : Z) (replicationOrder clientSideModes : list Z) : Z :=
  if negb (isClientSide clientSideModes currentMode) then currentMode
  else
    let startIdx := after currentMode replicationOrder 0 in
    match List.find (λ m, negb (isClientSide clientSideModes m)) (drop startIdx replicationOrder) with
    | Some m => m
    | None => match List.find (λ m, negb (isClientSide clientSideModes m)) (take startIdx replicationOrder) with
              | Some m => m
              | None => ReplicationNone
              end
    end.

(** [filepath.Dir] *)
Definition last_slash (s : bytes) : nat :=
  match index_byte ch_slash (rev s) with Some i => (length s - i)%nat | None => 0 end.
Definition path_dir (s : bytes) : bytes := path_clean (take (last_slash s) s).

(** ** Backends and what they read

    [io.TeeReader] hashes what the backend reads, and a backend that already holds a hash
    may return without reading. *)
Class PutReads (B : Type) := put_reads : B → bytes → bool.

#[export] Instance gmap_reads : PutReads (gmap bytes bytes) := λ _ _, true.
#[export] Instance raw_reads : PutReads RawBlobStore := λ r h, negb (bool_decide (is_Some (allocDB r !! h))).

(** ** The node *)

(** An object handed to another node. *)
Record forward := mkForward {
  fw_name : bytes;
  fw_hash : bytes;
  fw_size : Z;
  fw_headers : option headers;
  fw_target : Z;
  fw_ts : Z;
  fw_mode : Z;
  fw_body : reader
}.

(** How a forwarding goroutine ends. *)
Inductive fw_outcome := FwOk | FwErr | FwPanic | FwTimeout.

(** What a handler needs of a connection: its methods reach the connection only.  The
    additive checksums come with what the communicator does when they do not match. *)
Record communicator := mkComm {
  IsExternalClient : bool;
  ConfiguredBucket : bytes;
  TenantID : bytes;
  c_SendReplicationMode : Z → M unit unit;
  c_ReceiveMetadata : M unit (FileMetadata * headers);
  c_SendMetadataStatus : Z → M unit unit;
  c_read : Z → M unit reader;
  c_OnStorageError : error → M unit unit;
  c_checksums : option ((bytes → bool) * M unit unit);
  c_SendACK : Z → M unit unit
}.

(** The bytes an [io.LimitReader] on a connection delivers. *)
Definition limit_read {S} (size : Z) : M S reader := λ st,
  let '(c, s) := st in
  let n := Z.to_nat size in (Ok (reader_of (take n (inp c))), (mkConn (drop n (inp c)) (outp c), s)).

(** The native communicators: no bucket, no tenant, no headers and no additive checksums. *)
Definition native : communicator :=
  mkComm false [] [] SendReplicationMode (m ← ReceiveMetadata; mret (m, ∅)) SendMetadataStatus limit_read OnStorageError None SendACK.

(** [file.go]'s reader of the same packet: the digest is kept as it is, and the size is
    checked at once. *)
Definition getMetadata {S} : M S FileMetadata :=
  buffer ← ReadFull 192 ErrPlain;
  let fileHash := TrimNullBytesString (take 64 buffer) in
  if crlf fileHash then fail_with (Errno EBADMSG)
  else if bool_decide (fileHash = []) || HasPathTraversalChars fileHash then fail_with (Errno EBADMSG)
  else
    let rawFileName := TrimNullBytesString (take 64 (drop 64 buffer)) in
    if crlf rawFileName then fail_with (Errno EBADMSG)
    else match ValidatePath rawFileName with
         | Err _ => fail_with ErrPlain
         | Ok _ =>
             fileSize ← lift (SafeParseInt (drop 128 buffer));
             if (fileSize <? 0) || (MaxFileSize <? fileSize) then fail_with ErrPlain
             else mret (mkFile rawFileName fileHash fileSize [] 0)
         end.

Section Handler.
Context {B : Type} `{BlobStore B} `{PutReads B}.
Context (scoreBits : Z → Z → Z).

Record upload_node := mkNodeState {
  nstore : NStore B;
  naudit : audit_log;
  npeer : bool;
  ncalls : list hook_call;
  forwards : list forward;
  posted : list (bytes * bytes)
}.

(** The daemon's configuration and its surroundings. *)
Record daemon_env := mkDaemon {
  henv : environment;
  serverId : Z;
  crush_nodes : list (option Node);
  ReplicationFactor : Z;
  ReplicationOrder : list Z;
  ClientSideReplicationModes : list Z;
  repState : ReplicationData;
  version_bytes : option bytes;
  NotificationRetryMax : Z;
  webhook : bytes → bytes → nat → option Z;
  peers : forward → fw_outcome
}.

Implicit Types (n : upload_node) (e : daemon_env) (cm : communicator).

Definition ncas n : CASStore B := cas (vs (ls (nstore n))).
Definition with_nstore (s : NStore B) n : upload_node := mkNodeState s (naudit n) (npeer n) (ncalls n) (forwards n) (posted n).
Definition with_ls (l : LStore B) n : upload_node := with_nstore (mkNS l (notifications (nstore n))) n.
Definition with_ncas (c : CASStore B) n : upload_node := with_ls (with_vs (with_cas c (vs (ls (nstore n)))) (ls (nstore n))) n.

(** Methods of the communicator, and the handshake on the server's part of the node. *)
Definition io {A} (m : M unit A) : M upload_node A := λ st,
  let '(r, (c, _)) := m (st.1, tt) in (r, (c, st.2)).
Definition on_server {A} (m : M (server B) A) : M upload_node A := λ st,
  let '(c, n) := st in
  let '(r, (c, s)) := m (c, mkServer (ncas n) (naudit n) (npeer n) (ncalls n)) in
  let n := with_ncas (sstore s) n in
  (r, (c, mkNodeState (nstore n) (saudit s) (isPeer s) (calls s) (forwards n) (posted n))).

(** *** One object *)
Definition cas_put (name hash : bytes) (size : Z) (remotePath : bytes) (content : option reader) (now : Z) : M upload_node unit :=
  n ← get;
  let '(r, c) := Put (ncas n) name hash size remotePath content now in
  put (with_ncas c n);; lift r.

Definition cas_delete (name : bytes) (now : Z) : M upload_node unit :=
  n ← get; put (with_ncas (Delete (ncas n) name now).2 n).

Definition auditPut cm (now : Z) (fileName : bytes) : M upload_node unit :=
  n ← get;
  put (mkNodeState (nstore n)
         (WriteAuditLog (naudit n) (mkAudit 0 (TenantID cm) (bs "put") (bs "PutObject") fileName (bs "success") (append_int now) [] []) now)
         (npeer n) (ncalls n) (forwards n) (posted n)).

(** What the hash of [getFile] has seen when the store returns: all of the payload, or
    nothing when the backend did not read it. *)
Definition hashed (s : CASStore B) (hash : bytes) (r : reader) : bytes :=
  let drained := hasInternal s hash && match BlobExists with
                                       | Some f => match f (blobs s) hash with Ok b => b | Err _ => false end
                                       | None => true
                                       end in
  if drained || put_reads (blobs s) hash then concat (rd_chunks r) else [].

(** A full store is reported to the client; the error is the result in any case. *)
Definition report_put_error cm (er : error) : M upload_node unit :=
  (if decide (er = Errno ENOSPC) then on_error (io (c_OnStorageError cm er)) (λ _, mret tt) else mret tt);; fail_with er.

Definition getFile e cm (fileName expectedHash : bytes) (fileSize : Z) (remotePath : bytes) : M upload_node unit :=
  let now := clock (henv e) in
  r ← io (c_read cm fileSize);
  n ← get;
  on_error (cas_put fileName expectedHash fileSize remotePath (Some r) now) (report_put_error cm);;
  let read := hashed (ncas n) expectedHash r in
  if negb (bool_decide (HashBytes read = expectedHash)) then cas_delete fileName now;; fail_with (Errno EBADMSG)
  else match c_checksums cm with
  | Some (ok, mismatch) =>
      if ok read then auditPut cm now fileName else cas_delete fileName now;; io mismatch;; fail_with (Errno EBADMSG)
  | None => auditPut cm now fileName
  end.

(** *** The S3 side effects of a write *)
Definition persistS3Meta (key : bytes) (h : headers) : M upload_node unit :=
  if decide (h = ∅) then mret tt
  else n ← get; put (with_ls (PutS3Meta (ls (nstore n)) key h).2 n).

Definition dispatchObjectEvent e (bkt key versionID : bytes) (ev : EventType) : M upload_node unit :=
  n ← get;
  let sent := (DispatchNotification (webhook e) (nstore n) bkt key versionID ev (clock (henv e)) (NotificationRetryMax e)).2 in
  put (mkNodeState (nstore n) (naudit n) (npeer n) (ncalls n) (forwards n) (posted n ++ sent)).

(** The version of the write, when the bucket is versioned and one could be recorded. *)
Definition record_write e (bkt key hash : bytes) (size : Z) (v : VStore B) : bytes * VStore B :=
  if IsVersioned v bkt then
    match RecordVersion v bkt key hash size (version_bytes e) (clock (henv e)) with
    | (Ok vid, v) => (vid, v)
    | (Err _, v) => ([], v)
    end
  else ([], v).

Definition afterS3ObjectWriteBucket e (bkt key hash : bytes) (size : Z) : M upload_node unit :=
  if decide (bkt = []) then mret tt
  else
    n ← get;
    let '(vid, v) := record_write e bkt key hash size (vs (ls (nstore n))) in
    put (with_ls (with_vs v (ls (nstore n))) n);;
    dispatchObjectEvent e bkt key vid EventObjectCreatedPut.

Definition afterS3ObjectWrite e cm (key hash : bytes) (size : Z) : M upload_node unit :=
  if negb (IsExternalClient cm) then mret tt else afterS3ObjectWriteBucket e (ConfiguredBucket cm) key hash size.

(** *** Forwarding *)

(** One forwarding goroutine: [false] when it marks the upload as failed.  A panic is
    recovered without the mark. *)
Definition forward_one e (key : bytes) (hash : bytes) (size ts mode target : Z) n : bool * upload_node :=
  match Get (ncas n) key with
  | Err _ => (false, n)
  | Ok (rc, _) =>
      let f := mkForward key hash size (GetS3Meta (ls (nstore n)) key) target ts mode rc in
      (match peers e f with FwOk | FwPanic => true | FwErr | FwTimeout => false end,
       mkNodeState (nstore n) (naudit n) (npeer n) (ncalls n) (forwards n ++ [f]) (posted n))
  end.

Fixpoint forward_all e (key hash : bytes) (size ts mode : Z) (targets : list Z) n : bool * upload_node :=
  match targets with
  | [] => (true, n)
  | t :: rest =>
      let '(ok, n) := forward_one e key hash size ts mode t n in
      let '(ok', n) := forward_all e key hash size ts mode rest n in (ok && ok', n)
  end.

(** The next node of the chain after this one. *)
Fixpoint next_hop (self : Z) (placement : list Node) : list Z :=
  match placement with
  | [] => []
  | a :: rest => if ID a =? self then match rest with b :: _ => [ID b] | [] => [] end else next_hop self rest
  end.

(** The nodes an upload is forwarded to; [None] for a mode the server does not know. *)
Definition forward_targets e cm (mode : Z) (placement : list Node) : option (list Z) :=
  if (mode =? ReplicationNone) || (mode =? ReplicationPrimarySplay) then Some []
  else if mode =? ReplicationChain then Some (next_hop (serverId e) placement)
  else if mode =? ReplicationSplay then
    match placement with
    | a :: _ => if (ID a =? serverId e) || IsExternalClient cm
                then Some (ID <$> filter (λ b, ID b ≠ serverId e) placement) else Some []
    | [] => Some []
    end
  else None.

(** *** The handler *)

(** The mode and the timestamp of the transaction. *)
Definition select_mode e cm (peer : bool) (requestedMode ts : Z) : Z * Z :=
  let '(mode, finalTs) := if negb peer then (RNew (repState e), clock (henv e)) else (requestedMode, ts) in
  let mode := if mode =? 0 then ReplicationNone else mode in
  let mode := if IsExternalClient cm && isClientSide (ClientSideReplicationModes e) mode
              then downgradeToServerSideMode mode (ReplicationOrder e) (ClientSideReplicationModes e) else mode in
  (mode, finalTs).

Definition check_metadata (m : FileMetadata) : result unit :=
  if bool_decide (Hash m = []) || contains_byte ch_dot (Hash m) || contains_byte ch_slash (Hash m) || contains_byte ch_backslash (Hash m)
  then Err (Errno EBADMSG)
  else if decide (Name m = []) then Err (Errno EBADMSG)
  else let! _ := ValidatePath (Name m) in
       if (FSize m <? 0) || (MaxFileSize <? FSize m) then Err (Errno EBADMSG) else Ok tt.

Definition canDedup n (m : FileMetadata) : result bool :=
  let! ex := Has (ncas n) (Hash m) in
  Ok (ex && match GetHashForName (ncas n) (Name m) with Ok h => bool_decide (h = Hash m) | Err _ => false end).

Definition remote_dir (rawFileName : bytes) : bytes :=
  if contains_byte ch_slash rawFileName then path_dir rawFileName else [].

(** The local half: the mapping of known content, or the transfer, then the side effects. *)
Definition store_object e cm (dedup : bool) (m : FileMetadata) (h : headers) : M upload_node unit :=
  (if dedup then cas_put (Name m) (Hash m) (FSize m) (remote_dir (Name m)) None (clock (henv e))
   else getFile e cm (Name m) (Hash m) (FSize m) (remote_dir (Name m)));;
  persistS3Meta (Name m) h;;
  afterS3ObjectWrite e cm (Name m) (Hash m) (FSize m).

(** An upload after the handshake; an error means that no acknowledgement is sent. *)
Definition upload e cm (requestedMode ts : Z) : M upload_node unit :=
  n ← get;
  let '(mode, finalTs) := select_mode e cm (npeer n) requestedMode ts in
  io (c_SendReplicationMode cm mode);;
  mh ← io (c_ReceiveMetadata cm);
  let '(m, h) := mh in
  lift (check_metadata m);;
  n ← get;
  dedup ← lift (canDedup n m);
  io (c_SendMetadataStatus cm (if dedup : bool then MetadataStatusSkipPayload else MetadataStatusSendPayload));;
  placement ← lift (Placement scoreBits (crush_nodes e) (Hash m) (if mode =? ReplicationNone then 1 else ReplicationFactor e));
  match forward_targets e cm mode placement with
  | None => fail_with (Errno EINVAL)
  | Some targets =>
      store_object e cm dedup m h;;
      n ← get;
      let '(ok, n) := forward_all e (Name m) (Hash m) (FSize m) finalTs mode targets n in
      put n;;
      if ok : bool then mret tt else fail_with (Errno EIO)
  end.

(** The deferred acknowledgement *)
Definition acknowledge e cm (m : M upload_node unit) : M upload_node bool := λ st,
  match m st with
  | (Ok _, st) => (Ok true, (io (c_SendACK cm (serverId e)) st).2)
  | (Err _, st) => (Ok false, st)
  end.

(** A connection: [true] when the upload was acknowledged. *)
Definition serve e cm : M upload_node bool :=
  a ← on_server (HandshakeServer (henv e));
  match a with
  | None => mret false
  | Some (mode, ts) => acknowledge e cm (upload e cm mode ts)
  end.
End Handler.
Arguments upload_node : clear implicits.
Arguments mkNodeState {B}.
Arguments nstore {B}.
Arguments naudit {B}.
Arguments npeer {B}.
Arguments ncalls {B}.
Arguments forwards {B}.
Arguments posted {B}.

(** * Theorems *)

(** ** The store under an upload *)
Class PutReadsSpec (B : Type) `{BlobStoreSpec B} `{PutReads B} := {
  reads_ok : ∀ b h r b', blob_inv b → PutBlob b h r = (Ok tt, b') → put_reads b h = true →
    ∃ c, read_all r = Ok c ∧ blob_view b' = <[h := c]> (blob_view b)
}.

(** The store keeps digest [h], and what it stores under a recorded [h] hashes to [h].
    Bytes that no record mentions are not covered: a transaction that fails after the blob
    was written leaves some behind ([failed_put_leaves_blob]). *)
Record clean {B} `{BlobStoreSpec B} (s : CASStore B) (h : bytes) : Prop := {
  cl_kept : kept s h;
  cl_match : is_Some (objects (db s) !! h) → ∀ c, blob_view (blobs s) !! h = Some c → HashBytes c = h
}.

Section StoreLemmas.
Context {B : Type} `{Hspec : BlobStoreSpec B} `{!PutReads B} `{!PutReadsSpec B}.
Implicit Types (s : CASStore B).

(** A backend whose deletions succeed. *)
Definition deletes_succeed : Prop := ∀ (b : B) h, blob_inv b → HasPathTraversalChars h = false → (DeleteBlob b h).1 = Ok tt.

Lemma intact_clean s h : intact s h → clean s h.
Proof. intros Hi. split; [by apply intact_kept|]. intros _. apply Hi. Qed.

Lemma read_all_ok r c : read_all r = Ok c → c = concat (rd_chunks r) ∧ rd_err r = None.
Proof. unfold read_all. destruct (rd_err r); [done|]. by intros [= <-]. Qed.

(** The physical half of a write, by what was hashed. *)
Lemma put_blob_phase_hashed s hash r s' :
  kept s hash → put_blob_phase s hash (Some r) = (Ok tt, s') → objects (db s) !! hash = None →
  blob_view (blobs s') !! hash = Some (hashed s hash r) ∨ hashed s hash r = [].
Proof.
  intros Hi Hp Hn. unfold put_blob_phase, hashed, hasInternal in *. rewrite Hn in *. rewrite bool_decide_eq_false_2 in * by (by intros []).
  cbn [andb orb]. destruct (PutBlob (blobs s) hash r) as [res b] eqn:Eb. destruct res as [[]|]; [|done].
  assert (blobs s' = b) as -> by (change (durability (with_blobs b s)) with (durability s) in Hp; destruct (durability s); by simplify_eq).
  destruct (put_reads (blobs s) hash) eqn:Er; [|by right].
  destruct (reads_ok _ _ _ _ (kp_blob s hash Hi) Eb Er) as (c & Hc & ->). apply read_all_ok in Hc as [-> _].
  left. by rewrite lookup_insert_eq.
Qed.

(** What a successful [Put] does to the maps. *)
Lemma Put_maps s name hash size rp content now s' :
  Put s name hash size rp content now = (Ok tt, s') →
  namespace (db s') !! name = Some hash ∧ tombstones (db s') !! name = None ∧
  (∃ v, objects (db s') = <[hash := v]> (objects (db s))) ∧ key_ok name ∧ key_ok hash ∧
  ∃ s1, put_blob_phase s hash content = (Ok tt, s1) ∧ blobs s' = blobs s1.
Proof.
  unfold Put, PutWithMetadata. destruct (HasPathTraversalChars hash); [done|].
  destruct (put_blob_phase s hash content) as [res s1] eqn:Ep. destruct res as [[]|]; [|done].
  assert (db s1 = db s) as Hdb.
  { unfold put_blob_phase in Ep. repeat (case_match; simplify_eq; try done). }
  destruct (put_tx _ _ _ _ _ _ _ _ _) as [d|] eqn:Et; [|done]. intros [= <-].
  pose proof (put_tx_keys _ _ _ _ _ _ _ Et) as [Hk1 Hk2]. rewrite Hdb in Et.
  apply put_tx_Ok in Et as (m' & p & _ & -> & _). cbn [db invalidateCache with_cache with_db namespace tombstones objects blobs].
  split_and!; [by rewrite lookup_insert_eq|by rewrite lookup_delete_eq|by eexists|done|done|by exists s1].
Qed.

Lemma Put_GetHash s name hash size rp content now s' :
  Put s name hash size rp content now = (Ok tt, s') → GetHashForName s' name = Ok hash.
Proof. intros Hp. apply Put_maps in Hp as (H1 & H2 & _). unfold GetHashForName. by rewrite H2, H1. Qed.

(** Removing a name keeps every digest. *)
Lemma Delete_clean s name now h : clean s h → is_int64 now → clean (Delete s name now).2 h.
Proof.
  intros [Hk Hm] Hn. unfold Delete. destruct (delete_tx _ name now (db s)) as [[d o]|] eqn:E; [|by split].
  destruct (delete_kept _ _ _ true _ _ _ _ Hk Hn E) as ([K1 K2 K3 K4] & _ & V & _). split; [by split|].
  intros Ho c Hc. destruct (V Ho) as [Ho' Ev]. apply Hm; [done|]. rewrite <- Ev. exact Hc.
Qed.

(** A write under another digest, whatever it brings and however it ends. *)
Lemma Put_clean_other s name hash size rp content now h :
  clean s h → hash ≠ h → clean (Put s name hash size rp content now).2 h.
Proof.
  intros [Hk Hm] Hne. destruct (put_other s name hash size rp content [] [] [] now h (kp_blob s h Hk) Hne) as (O1 & O2 & O3 & _ & O5).
  split; [by apply (kept_frame s)|]. unfold Put. rewrite O2, O3. exact Hm.
Qed.

(** A write that fails. *)
Lemma Put_clean_failed s name hash size rp content now e s' h :
  clean s h → Put s name hash size rp content now = (Err e, s') → clean s' h.
Proof.
  intros [Hk Hm] Hp. unfold Put, PutWithMetadata in Hp. destruct (HasPathTraversalChars hash); [injection Hp as _ <-; by split|].
  destruct (put_blob_phase s hash content) as [res s1] eqn:Ep. apply phase_spec in Ep as (Hd & _ & Hb & Hv & _); [|apply Hk].
  assert (clean s1 h) as Hgo; [|destruct res as [[]|]; [destruct (put_tx _ _ _ _ _ _ _ _ _); [discriminate|]|]; by injection Hp as _ <-].
  assert (is_Some (objects (db s) !! h) → blob_view (blobs s1) !! h = blob_view (blobs s) !! h) as Hsame.
  { intros Ho. destruct Hv as [->|(r & c & _ & _ & -> & Hnot)]; [done|]. apply lookup_insert_ne. intros ->.
    apply Hnot. split; [done|]. by apply Hk. }
  split.
  - destruct Hk as [K1 K2 K3 K4]. split; rewrite ?Hd; try done. intros Ho. rewrite Hsame by done. by apply K4.
  - rewrite Hd. intros Ho. rewrite Hsame by done. by apply Hm.
Qed.

Lemma plain_fits s h size content : is_int64 size → 0 <= size → refcount (db s) h < MaxInt64 →
  (objects (db s) !! h = None → is_Some content) → put_fits s h size content [] [] [].
Proof. intros H1 H2 H3 H4. split; [exact H1|]. split; [exact H2|]. split; [exact H3|]. split; [|exact H4]. by split_and!; try constructor. Qed.

(** A write whose digest was checked. *)
Lemma Put_clean_checked s name h size rp r now s' :
  clean s h → is_int64 size → 0 <= size → refcount (db s) h < MaxInt64 → h ≠ HashBytes [] →
  Put s name h size rp (Some r) now = (Ok tt, s') → HashBytes (hashed s h r) = h → clean s' h.
Proof.
  intros [Hk Hm] Hs H0 Hmax Hne Hp Hh.
  destruct (put_own s name h size rp (Some r) [] [] [] now Hk (plain_fits s h size (Some r) Hs H0 Hmax ltac:(eauto))) as (K & _ & V).
  unfold Put in Hp. rewrite Hp in K, V. cbn [snd] in K, V. split; [done|]. intros Ho c Hc.
  destruct (objects (db s) !! h) as [v|] eqn:Eo.
  { apply Hm; [eauto|]. destruct V as [<-|[? _]]; [done|discriminate]. }
  destruct (Put_maps s name h size rp (Some r) now s' Hp) as (_ & _ & _ & _ & _ & s1 & Ep & Eb).
  destruct (put_blob_phase_hashed s h r s1 Hk Ep Eo) as [E|E]; [rewrite Eb, E in Hc; by injection Hc as <-|].
  rewrite E in Hh. destruct (Hne (eq_sym Hh)).
Qed.

(** A repeated write of known content. *)
Lemma Put_clean_known s name h size rp now :
  clean s h → is_Some (objects (db s) !! h) → is_int64 size → 0 <= size → refcount (db s) h < MaxInt64 →
  clean (Put s name h size rp None now).2 h.
Proof.
  intros [Hk Hm] Ho Hs H0 Hmax.
  destruct (put_own s name h size rp None [] [] [] now Hk) as (K & _ & V).
  { apply plain_fits; try done. intros E. rewrite E in Ho. by destruct Ho. }
  split; [done|]. intros _ c Hc. apply Hm; [done|]. destruct V as [<-|[E _]]; [exact Hc|]. rewrite E in Ho. by destruct Ho.
Qed.

(** A write whose digest was wrong is undone. *)
Lemma Put_clean_undone s name h size rp r now s' :
  deletes_succeed → clean s h → is_int64 now → is_int64 size → 0 <= size → refcount (db s) h < MaxInt64 →
  Put s name h size rp (Some r) now = (Ok tt, s') → clean (Delete s' name now).2 h.
Proof.
  intros Hdel [Hk Hm] Hnow Hs H0 Hmax Hp.
  destruct (put_own s name h size rp (Some r) [] [] [] now Hk (plain_fits s h size (Some r) Hs H0 Hmax ltac:(eauto))) as (K & _ & V).
  pose proof Hp as Hp'. unfold Put in Hp'. rewrite Hp' in K, V. cbn [snd] in K, V.
  destruct (objects (db s) !! h) as [v|] eqn:Eo.
  { apply Delete_clean; [|done]. split; [done|]. intros _ c Hc. apply Hm; [eauto|]. destruct V as [<-|[? _]]; [done|discriminate]. }
  assert (HasPathTraversalChars h = false) as Htr by (unfold Put, PutWithMetadata in Hp; by destruct (HasPathTraversalChars h)).
  pose proof Hp as Hmaps. apply Put_maps in Hmaps as (Hname & _ & (w & Ho) & Kn & Kh & _).
  assert (∃ m, decodeObjectMeta w = Ok m ∧ RefCount m = 1) as (m & Hw & Hrc).
  { unfold Put, PutWithMetadata in Hp. rewrite Htr in Hp. destruct (put_blob_phase s h (Some r)) as [[[]|] s1] eqn:Ep; [|discriminate].
    apply phase_spec in Ep as (Hd & _); [|apply Hk]. rewrite Hd in Hp. destruct (put_tx _ _ _ _ _ _ _ _ _) as [d|] eqn:Et; [|discriminate].
    destruct (put_tx_record _ _ _ _ _ _ _ _ _ _ Et (kp_rec s h Hk) Hs H0 Hmax) as (v & m & Hv & Hd' & _ & Hc & _);
      [by split_and!; try constructor|]. injection Hp as <-. cbn [db invalidateCache with_cache with_db] in Ho. rewrite Ho, lookup_insert_eq in Hv.
    injection Hv as ->. exists m. split; [done|]. rewrite Hc. unfold refcount. by rewrite Eo. }
  assert (objects (db s') !! h = Some w) as Hw' by (by rewrite Ho, lookup_insert_eq).
  unfold Delete. destruct (delete_tx (Errno EIO) name now (db s')) as [[d o]|e] eqn:Et.
  2:{ exfalso. unfold delete_tx, drop_ref in Et. rewrite bput_ok in Et by done. rewrite Hname, Hw', Hw, bput_ok in Et by done. discriminate. }
  assert (o = h) as ->.
  { pose proof Et as Ed. apply delete_tx_shape in Ed as (Ed & _). apply drop_ref_shape in Ed as [(_ & _ & E)|(k & v & m' & E1 & E2 & E3 & _ & ->)].
    - rewrite (E h Hname) in Hw'. discriminate.
    - assert (k = h) as -> by congruence. assert (m' = m) as -> by congruence. by rewrite Hrc. }
  destruct (delete_kept _ _ _ true _ _ _ _ K Hnow Et) as ([K1 K2 K3 K4] & _ & V' & _). split; [by split|]. cbn [snd]. intros Hso. exfalso. revert Hso.
  cbn [db invalidateCache with_cache]. unfold reap_orphan. destruct h as [|x h']; [discriminate Kh|].
  destruct (DeleteBlob (blobs (with_db d s')) (x :: h')) as [res b] eqn:Edb. pose proof (Hdel (blobs s') (x :: h') (kp_blob _ _ K) Htr) as Hd2.
  change (blobs (with_db d s')) with (blobs s') in Edb. rewrite Edb in Hd2. cbn [fst] in Hd2. subst res.
  cbn [db with_db objects set_objects]. rewrite lookup_delete_eq. by intros [].
Qed.
End StoreLemmas.

Section UploadLemmas.
Context {B : Type} `{Hspec : BlobStoreSpec B} `{!PutReads B} `{!PutReadsSpec B}.
Context (scoreBits : Z → Z → Z).
Implicit Types (n : upload_node B) (e : daemon_env) (cm : communicator).

(** Computations that leave the objects and the forwarding log alone. *)
Definition quiet {A} (m : M (upload_node B) A) : Prop :=
  ∀ st, ncas (m st).2.2 = ncas st.2 ∧ forwards (m st).2.2 = forwards st.2.

Lemma quiet_bind {A C} (m : M (upload_node B) A) (f : A → M (upload_node B) C) : quiet m → (∀ a, quiet (f a)) → quiet (m ≫= f).
Proof.
  intros Hm Hf st. unfold mbind, M_bind. specialize (Hm st). destruct (m st) as [[a|] st']; [|done].
  destruct (Hf a st') as [-> ->]. apply Hm.
Qed.

Lemma quiet_ret {A} (a : A) : quiet (mret a).
Proof. done. Qed.
Lemma quiet_fail {A} er : quiet (fail_with er : M (upload_node B) A).
Proof. done. Qed.
Lemma quiet_lift {A} (r : result A) : quiet (lift r).
Proof. done. Qed.
Lemma quiet_get : quiet get.
Proof. done. Qed.
Lemma quiet_io {A} (m : M unit A) : quiet (io m).
Proof. intros [c n]. unfold io. cbn. by destruct (m (c, tt)) as [r [c' []]]. Qed.

Lemma update_get (f : upload_node B → upload_node B) :
  (∀ n, ncas (f n) = ncas n ∧ forwards (f n) = forwards n) → quiet (n ← get; put (f n)).
Proof. intros Hf [c n]. apply Hf. Qed.

Lemma persist_quiet key h : quiet (persistS3Meta key h).
Proof.
  unfold persistS3Meta. case_decide; [apply quiet_ret|]. apply update_get. intros n. unfold ncas, with_ls, with_nstore, PutS3Meta.
  cbn [nstore forwards ls]. split; [|done]. repeat case_match; done.
Qed.

Lemma record_version_cas (v : VStore B) bkt key rec : cas (record_version v bkt key rec).2 = cas v.
Proof. unfold record_version, update, notifyVersionRecorded. repeat (case_match; simplify_eq; try done). Qed.

Lemma record_write_cas e bkt key hash size (v : VStore B) : cas (record_write e bkt key hash size v).2 = cas v.
Proof.
  unfold record_write. destruct (IsVersioned _ _); [|done]. unfold RecordVersion. destruct (newVersionID _) as [vid|]; [|done].
  pose proof (record_version_cas v bkt key (mkVersion vid hash size (clock (henv e)) true false [])) as H'.
  destruct (record_version _ _ _ _) as [[] v']; exact H'.
Qed.

Lemma after_quiet e cm key hash size : quiet (afterS3ObjectWrite e cm key hash size).
Proof.
  unfold afterS3ObjectWrite, afterS3ObjectWriteBucket. destruct (negb _); [apply quiet_ret|]. case_decide; [apply quiet_ret|].
  intros [c n]. erewrite bind_ok by reflexivity. cbn [snd].
  pose proof (record_write_cas e (ConfiguredBucket cm) key hash size (vs (ls (nstore n)))) as Hx.
  destruct (record_write _ _ _ _ _ _) as [vid v]. cbn in Hx |- *. split; [exact Hx|done].
Qed.

Lemma report_quiet cm er : quiet (report_put_error (B := B) cm er).
Proof.
  unfold report_put_error. apply quiet_bind; [|intros; apply quiet_fail]. case_decide; [|apply quiet_ret].
  intros st. unfold on_error. pose proof (quiet_io (c_OnStorageError cm er) st) as Hio.
  destruct (io (c_OnStorageError cm er) st) as [[] st']; exact Hio.
Qed.

Lemma report_fails cm er st : ∃ er', (report_put_error (B := B) cm er st).1 = Err er'.
Proof.
  unfold report_put_error. set (m := if decide _ then _ else _). unfold mbind, M_bind, fail_with. destruct (m st) as [[] st']; by eexists.
Qed.

(** The digest under observation, and when an outcome keeps it clean: always if the backend
    carries out deletions, and in any case when the outcome is a success. *)
Context (k : bytes) (Hk0 : k ≠ HashBytes []).
Definition keeps (r : result unit) n n' : Prop :=
  clean (ncas n) k → r = Ok tt ∨ deletes_succeed (B := B) → clean (ncas n') k.

Lemma io_spec {A} (m : M unit A) c n : io m (c, n) = ((m (c, tt)).1, ((m (c, tt)).2.1, n)).
Proof. unfold io. cbn [fst snd]. by destruct (m (c, tt)) as [r [c' []]]. Qed.

Lemma cas_put_run name hash size rp content now c n :
  cas_put name hash size rp content now (c, n) =
  ((Put (ncas n) name hash size rp content now).1, (c, with_ncas (Put (ncas n) name hash size rp content now).2 n)).
Proof. unfold cas_put. erewrite bind_ok by reflexivity. cbn [snd]. by destruct (Put _ _ _ _ _ _ _). Qed.

Lemma getFile_spec e cm name hash size rp c n :
  refcount (db (ncas n)) hash < MaxInt64 → is_int64 (clock (henv e)) → is_int64 size → 0 <= size →
  let '(r, (c', n')) := getFile e cm name hash size rp (c, n) in
  keeps r n n' ∧ forwards n' = forwards n ∧
  (r = Ok tt → GetHashForName (ncas n') name = Ok hash ∧
     ∃ rd, (c_read cm size (c, tt)).1 = Ok rd ∧ HashBytes (hashed (ncas n) hash rd) = hash).
Proof.
  intros Hmax Hclk Hsz H0. unfold getFile. set (now := clock (henv e)) in *.
  destruct (c_read cm size (c, tt)) as [[rd|er] [c1 []]] eqn:Er.
  2:{ erewrite bind_err by (unfold io; cbn [fst snd]; by rewrite Er). split_and!; [by intros ??|done|discriminate]. }
  erewrite bind_ok by (unfold io; cbn [fst snd]; by rewrite Er). erewrite bind_ok by reflexivity. cbn [snd].
  pose proof (cas_put_run name hash size rp (Some rd) now c1 n) as Ecp.
  destruct (Put (ncas n) name hash size rp (Some rd) now) as [res s'] eqn:Ep. cbn [fst snd] in Ecp.
  destruct res as [[]|er].
  2:{ destruct (report_quiet cm er (c1, with_ncas s' n)) as [E1 E2].
      destruct (report_fails cm er (c1, with_ncas s' n)) as [er' Ee].
      destruct (report_put_error cm er (c1, with_ncas s' n)) as [r' [c' n']] eqn:Eo. cbn [fst snd] in Ee, E1, E2. subst r'.
      erewrite bind_err by (unfold on_error; by rewrite Ecp, Eo). unfold keeps. rewrite E1.
      split_and!; [|exact E2|discriminate]. intros Hc _. exact (Put_clean_failed _ _ _ _ _ _ _ _ _ _ Hc Ep). }
  erewrite bind_ok by (unfold on_error; by rewrite Ecp).
  assert (∀ er, keeps (Err er) n (with_ncas (Delete s' name now).2 (with_ncas s' n))) as Hundone.
  { intros er Hc [[=]|Hdel]. destruct (decide (hash = k)) as [->|Hne].
    - exact (Put_clean_undone _ _ _ _ _ _ _ _ Hdel Hc Hclk Hsz H0 Hmax Ep).
    - apply Delete_clean; [|done]. pose proof (Put_clean_other _ name _ size rp (Some rd) now _ Hc Hne) as H'. by rewrite Ep in H'. }
  destruct (bool_decide_reflect (HashBytes (hashed (ncas n) hash rd) = hash)) as [Hh|Hh]; cbn [negb].
  2:{ split_and!; [exact (Hundone _)|reflexivity|discriminate]. }
  assert (∀ mismatch : M unit unit,
    let '(r, (_, n')) := (cas_delete name now;; io mismatch;; fail_with (Errno EBADMSG) : M (upload_node B) unit) (c1, with_ncas s' n) in
    keeps r n n' ∧ forwards n' = forwards n ∧ r ≠ Ok tt) as Hmis.
  { intros mismatch. erewrite bind_ok by reflexivity. unfold mbind, M_bind. rewrite io_spec.
    cbn [fst snd]. destruct (mismatch (c1, tt)) as [[[]|er] [c2 []]]; (split_and!; [exact (Hundone _)|reflexivity|discriminate]). }
  assert (let '(r, (_, n')) := auditPut cm now name (c1, with_ncas s' n) in keeps r n n' ∧ forwards n' = forwards n ∧
    (r = Ok tt → GetHashForName (ncas n') name = Ok hash ∧
     ∃ rd', Ok rd = Ok rd' ∧ HashBytes (hashed (ncas n) hash rd') = hash)) as Hdone.
  { split_and!; [|reflexivity|].
    - intros Hc _. change (clean s' k). destruct (decide (hash = k)) as [->|Hne].
      + exact (Put_clean_checked _ _ _ _ _ _ _ _ Hc Hsz H0 Hmax Hk0 Ep Hh).
      + pose proof (Put_clean_other _ name _ size rp (Some rd) now _ Hc Hne) as H'. by rewrite Ep in H'.
    - intros _. split; [exact (Put_GetHash _ _ _ _ _ _ _ _ Ep)|]. exists rd. split; [reflexivity|exact Hh]. }
  destruct (c_checksums cm) as [[ok mismatch]|]; [|exact Hdone]. destruct (ok _) eqn:Eok; [exact Hdone|].
  specialize (Hmis mismatch).
  destruct ((cas_delete name now;; io mismatch;; fail_with (Errno EBADMSG)) (c1, with_ncas s' n)) as [r [c2 n2]]. destruct Hmis as (? & ? & ?). by split_and!.
Qed.

Lemma check_metadata_ok m :
  check_metadata m = Ok tt → Hash m ≠ [] ∧ Name m ≠ [] ∧ ValidatePath (Name m) = Ok tt ∧ 0 <= FSize m <= MaxFileSize.
Proof.
  unfold check_metadata. destruct (bool_decide_reflect (Hash m = [])); [done|]. cbn [orb].
  destruct (contains_byte ch_dot (Hash m) || contains_byte ch_slash (Hash m) || contains_byte ch_backslash (Hash m)); [done|].
  case_decide; [done|]. destruct (ValidatePath _) as [[]|]; [|done].
  destruct ((FSize m <? 0) || (MaxFileSize <? FSize m)) eqn:E; [discriminate|]. apply orb_false_iff in E as [E1 E2]. zbool.
  intros _. split_and!; (done || lia).
Qed.

Lemma store_object_spec e cm dedup m h c n :
  refcount (db (ncas n)) (Hash m) < MaxInt64 → is_int64 (clock (henv e)) → check_metadata m = Ok tt →
  (dedup = true → is_Some (objects (db (ncas n)) !! Hash m)) →
  let '(r, (c', n')) := store_object e cm dedup m h (c, n) in
  keeps r n n' ∧ forwards n' = forwards n ∧
  (r = Ok tt → GetHashForName (ncas n') (Name m) = Ok (Hash m) ∧
     (dedup = false → ∃ rd, (c_read cm (FSize m) (c, tt)).1 = Ok rd ∧ HashBytes (hashed (ncas n) (Hash m) rd) = Hash m)).
Proof.
  intros Hmax Hclk Hck Hd. apply check_metadata_ok in Hck as (_ & _ & _ & Hsz).
  assert (is_int64 (FSize m)) as Hi64 by (unfold is_int64, MaxFileSize in *; lia).
  unfold store_object. set (first := if dedup then _ else _).
  assert (let '(r, (c', n')) := first (c, n) in keeps r n n' ∧ forwards n' = forwards n ∧
    (r = Ok tt → GetHashForName (ncas n') (Name m) = Ok (Hash m) ∧
     (dedup = false → ∃ rd, (c_read cm (FSize m) (c, tt)).1 = Ok rd ∧ HashBytes (hashed (ncas n) (Hash m) rd) = Hash m))) as Hf.
  { unfold first. destruct dedup.
    - rewrite cas_put_run. set (rp := remote_dir _). set (now := clock _).
      assert (clean (ncas n) k → clean (Put (ncas n) (Name m) (Hash m) (FSize m) rp None now).2 k) as Hcl.
      { intros Hc. destruct (decide (Hash m = k)) as [<-|Hne]; [|by apply Put_clean_other].
        apply Put_clean_known; [done|by apply Hd|done|lia|done]. }
      destruct (Put (ncas n) _ _ _ _ _ _) as [r s'] eqn:Ep. cbn [fst snd] in *.
      split_and!; [by intros Hc _; apply Hcl|done|]. intros ->. split; [exact (Put_GetHash _ _ _ _ _ _ _ _ Ep)|done].
    - pose proof (getFile_spec e cm (Name m) (Hash m) (FSize m) (remote_dir (Name m)) c n Hmax Hclk Hi64 ltac:(lia)) as Hg.
      destruct (getFile _ _ _ _ _ _ _) as [r [c' n']]. destruct Hg as (H1 & H2 & H3). split_and!; [done|done|]. intros Hr.
      destruct (H3 Hr) as [H4 H5]. split; [done|]. intros _. exact H5. }
  destruct (first (c, n)) as [[[]|er] [c1 n1]] eqn:Ef.
  2:{ erewrite bind_err by exact Ef. destruct Hf as (H1 & H2 & _). split_and!; [done|done|discriminate]. }
  erewrite bind_ok by exact Ef. destruct Hf as (H1 & H2 & H3). specialize (H3 eq_refl).
  assert (quiet (persistS3Meta (Name m) h;; afterS3ObjectWrite e cm (Name m) (Hash m) (FSize m))) as Hq
    by (apply quiet_bind; [apply persist_quiet|intros; apply after_quiet]).
  specialize (Hq (c1, n1)). destruct ((persistS3Meta (Name m) h;; afterS3ObjectWrite e cm (Name m) (Hash m) (FSize m)) (c1, n1)) as [r [c2 n2]].
  cbn [snd] in Hq. destruct Hq as [E1 E2].
  unfold keeps. rewrite E1, E2. split_and!; [intros Hc _; apply H1; [done|by left]|exact H2|intros _; exact H3].
Qed.

(** Forwarding reads the store and calls the peers. *)
Lemma forward_all_spec e key hash size ts mode targets n :
  let '(ok, n') := forward_all e key hash size ts mode targets n in
  nstore n' = nstore n ∧
  ∃ fs, forwards n' = forwards n ++ fs ∧
    (ok = true → fw_target <$> fs = targets ∧
       ∀ f, f ∈ fs → fw_name f = key ∧ fw_hash f = hash ∧ fw_mode f = mode ∧ fw_ts f = ts ∧ (peers e f = FwOk ∨ peers e f = FwPanic)).
Proof.
  revert n. induction targets as [|t targets IH]; intros n; cbn [forward_all].
  { split; [done|]. exists []. rewrite app_nil_r. split; [done|]. intros _. split; [done|]. intros f Hf. by apply not_elem_of_nil in Hf. }
  unfold forward_one. destruct (Get (ncas n) key) as [[rc meta]|].
  - set (f := mkForward _ _ _ _ _ _ _ _). set (n1 := mkNodeState _ _ _ _ _ _). specialize (IH n1).
    destruct (forward_all e key hash size ts mode targets n1) as [ok' n']. destruct IH as (I1 & fs & I2 & I3).
    split; [done|]. exists (f :: fs). split; [rewrite I2; unfold n1; cbn [forwards]; by rewrite <- app_assoc|].
    intros [Hp Hok]%andb_true_iff. destruct (I3 Hok) as [<- Hfs]. split; [done|]. intros f' [->|Hf']%elem_of_cons; [|by apply Hfs].
    split_and!; [done..|]. destruct (peers e f); [by left|done|by right|done].
  - specialize (IH n). destruct (forward_all e key hash size ts mode targets n) as [ok' n']. destruct IH as (I1 & fs & I2 & _).
    split; [done|]. exists fs. split; [done|]. discriminate.
Qed.

(** The connection when the metadata and when the payload are read. *)
Definition meta_conn e cm (peer : bool) (requested ts : Z) (c : conn) : conn :=
  (c_SendReplicationMode cm (select_mode e cm peer requested ts).1 (c, tt)).2.1.
Definition body_conn cm (status : Z) (c : conn) : conn :=
  (c_SendMetadataStatus cm status ((c_ReceiveMetadata cm (c, tt)).2.1, tt)).2.1.

Lemma upload_spec e cm requested ts c n :
  (∀ h, refcount (db (ncas n)) h < MaxInt64) → is_int64 (clock (henv e)) →
  let '(r, (c', n')) := upload scoreBits e cm requested ts (c, n) in
  let '(mode, finalTs) := select_mode e cm (npeer n) requested ts in
  keeps r n n' ∧
  (r = Ok tt → ∃ m h placement targets fs,
     let c1 := meta_conn e cm (npeer n) requested ts c in
     (c_ReceiveMetadata cm (c1, tt)).1 = Ok (m, h) ∧ check_metadata m = Ok tt ∧
     GetHashForName (ncas n') (Name m) = Ok (Hash m) ∧
     (GetHashForName (ncas n) (Name m) = Ok (Hash m) ∨
      ∃ rd, (c_read cm (FSize m) (body_conn cm MetadataStatusSendPayload c1, tt)).1 = Ok rd ∧ HashBytes (hashed (ncas n) (Hash m) rd) = Hash m) ∧
     Placement scoreBits (crush_nodes e) (Hash m) (if mode =? ReplicationNone then 1 else ReplicationFactor e) = Ok placement ∧
     forward_targets e cm mode placement = Some targets ∧
     forwards n' = forwards n ++ fs ∧ fw_target <$> fs = targets ∧
     ∀ f, f ∈ fs → fw_name f = Name m ∧ fw_hash f = Hash m ∧ fw_mode f = mode ∧ fw_ts f = finalTs ∧ (peers e f = FwOk ∨ peers e f = FwPanic)).
Proof.
  intros Hmax Hclk. assert (∀ er, keeps (Err er) n n) as Hs by (by intros er ??). unfold upload, meta_conn. erewrite bind_ok by reflexivity. cbn [snd].
  destruct (select_mode e cm (npeer n) requested ts) as [mode finalTs] eqn:Esel. cbn [fst].
  destruct (c_SendReplicationMode cm mode (c, tt)) as [[[]|er] [c1 []]] eqn:E1.
  2:{ erewrite bind_err by (rewrite io_spec, E1; reflexivity). split; [exact (Hs _)|discriminate]. }
  erewrite bind_ok by (rewrite io_spec, E1; reflexivity). cbn [fst snd].
  destruct (c_ReceiveMetadata cm (c1, tt)) as [[[m h]|er] [c2 []]] eqn:E2.
  2:{ erewrite bind_err by (rewrite io_spec, E2; reflexivity). split; [exact (Hs _)|discriminate]. }
  erewrite bind_ok by (rewrite io_spec, E2; reflexivity). cbn [fst snd].
  destruct (check_metadata m) as [[]|er] eqn:Eck.
  2:{ erewrite bind_err by reflexivity. split; [exact (Hs _)|discriminate]. }
  erewrite bind_ok by reflexivity. erewrite bind_ok by reflexivity. cbn [snd].
  destruct (canDedup n m) as [dedup|er] eqn:Ed.
  2:{ erewrite bind_err by reflexivity. split; [exact (Hs _)|discriminate]. }
  erewrite bind_ok by reflexivity.
  assert (dedup = true → is_Some (objects (db (ncas n)) !! Hash m) ∧ GetHashForName (ncas n) (Name m) = Ok (Hash m)) as Hdd.
  { unfold canDedup, Has, hasInternal in Ed. destruct (HasPathTraversalChars _); [discriminate|]. cbn in Ed. injection Ed as <-.
    intros [H1 H2]%andb_true_iff. rewrite bool_decide_eq_true in H1. split; [done|].
    destruct (GetHashForName _ _); [|done]. rewrite bool_decide_eq_true in H2. by subst. }
  set (status := if dedup then MetadataStatusSkipPayload else MetadataStatusSendPayload).
  destruct (c_SendMetadataStatus cm status (c2, tt)) as [[[]|er] [c3 []]] eqn:E3.
  2:{ erewrite bind_err by (rewrite io_spec, E3; reflexivity). split; [exact (Hs _)|discriminate]. }
  erewrite bind_ok by (rewrite io_spec, E3; reflexivity). cbn [fst snd].
  destruct (Placement _ _ _ _) as [placement|er] eqn:Epl.
  2:{ erewrite bind_err by reflexivity. split; [exact (Hs _)|discriminate]. }
  erewrite bind_ok by reflexivity.
  destruct (forward_targets e cm mode placement) as [targets|] eqn:Et; [|split; [exact (Hs _)|discriminate]].
  pose proof (store_object_spec e cm dedup m h c3 n (Hmax _) Hclk Eck (λ Hx, proj1 (Hdd Hx))) as Hso.
  destruct (store_object e cm dedup m h (c3, n)) as [[[]|er] [c4 n4]] eqn:Eso; destruct Hso as (S1 & S2 & S3).
  2:{ erewrite bind_err by exact Eso. split; [exact S1|discriminate]. }
  erewrite bind_ok by exact Eso. erewrite bind_ok by reflexivity. cbn [snd]. destruct (S3 eq_refl) as [S4 S5].
  pose proof (forward_all_spec e (Name m) (Hash m) (FSize m) finalTs mode targets n4) as Hfw.
  destruct (forward_all _ _ _ _ _ _ _ _) as [ok n5]. destruct Hfw as (F1 & fs & F2 & F3).
  assert (ncas n5 = ncas n4) as F4 by (unfold ncas; by rewrite F1).
  erewrite bind_ok by reflexivity.
  destruct ok; (split; [intros Hc _; rewrite F4; apply S1; [exact Hc|by left]|]); [|discriminate].
  intros _. exists m, h, placement, targets, fs. destruct (F3 eq_refl) as [F5 F6]. rewrite F4. split_and!; try done; [|by rewrite F2, S2].
  unfold body_conn. rewrite E2. cbn [fst snd].
  destruct dedup; [left; by apply Hdd|right]. unfold status in E3. rewrite E3. exact (S5 eq_refl).
Qed.
End UploadLemmas.

(** ** Properties *)
Section Properties.
Context {B : Type} `{Hspec : BlobStoreSpec B} `{!PutReads B} `{!PutReadsSpec B}.
Context (scoreBits : Z → Z → Z).
Implicit Types (n : upload_node B) (e : daemon_env) (cm : communicator).

(** C5: Whatever an end of a connection sends, an upload damages no digest: for every digest
    other than that of the empty object whose record, if any, is readable, counts its names,
    has its bytes and whose bytes hash to it, the same holds after the upload, on every path,
    also when the transfer is cut short, the digest is wrong, the store is full or a peer
    fails; the digest the upload is about is included, and nothing is asked of the others.
    The backend must carry out deletions, since the cleanup after a wrong digest does not look
    at their result; the reference counts leave room for one more.  Bytes stored without a
    record are not covered. *)
Theorem upload_content_addressed e cm requested ts c n k :
  deletes_succeed (B := B) → (∀ h, refcount (db (ncas n)) h < MaxInt64) → is_int64 (clock (henv e)) →
  k ≠ HashBytes [] → clean (ncas n) k →
  clean (ncas (upload scoreBits e cm requested ts (c, n)).2.2) k.
Proof.
  intros Hdel Hmax Hclk Hk Hc. pose proof (upload_spec scoreBits k Hk e cm requested ts c n Hmax Hclk) as H'.
  destruct (upload scoreBits e cm requested ts (c, n)) as [r [c' n']].
  destruct (select_mode _ _ _ _ _) as [mode finalTs]. destruct H' as [H' _]. apply H'; [exact Hc|by right].
Qed.

Lemma ReceiveMetadata_inp c o {S} (s : S) :
  (ReceiveMetadata (mkConn (inp c) o, s)).1 = (ReceiveMetadata (mkConn (inp c) [], tt)).1 ∧
  (is_ok (ReceiveMetadata (mkConn (inp c) o, s)).1 = true → inp (ReceiveMetadata (mkConn (inp c) o, s)).2.1 = drop 192 (inp c)).
Proof.
  unfold ReceiveMetadata. destruct (decide (length (inp c) < 192)%nat) as [Hl|Hl].
  { erewrite !bind_err by (by apply ReadFull_short). done. }
  erewrite !bind_ok by (unfold ReadFull; cbn [inp outp]; rewrite (proj2 (Nat.ltb_ge _ _)) by lia; reflexivity).
  destruct (crlf _); [done|]. destruct (_ || _); [done|]. destruct (crlf _); [done|].
  unfold lift. destruct (ValidatePath _); [|done]. erewrite !bind_ok by reflexivity.
  destruct (SafeParseInt _); [|done]. by erewrite !bind_ok by reflexivity.
Qed.

(** A visible name of a clean digest. *)
Lemma mapped_blob (s : CASStore B) name h :
  clean s h → GetHashForName s name = Ok h → ∃ c, blob_view (blobs s) !! h = Some c ∧ HashBytes c = h.
Proof.
  intros [[K1 K2 K3 K4] Hm] Hg. unfold GetHashForName in Hg. destruct (tombstones (db s) !! name); [done|].
  destruct (namespace (db s) !! name) as [h'|] eqn:En; [|done]. injection Hg as ->.
  assert (is_Some (objects (db s) !! h)) as Ho.
  { pose proof (names_pos _ _ _ En) as Hp. unfold refcount in K3. destruct (objects (db s) !! h); [by eexists|lia]. }
  destruct (K4 Ho) as [c Hc]. exists c. split; [done|]. by apply Hm.
Qed.

(** Which nodes a server hands an object to: in chain mode the one that follows it in the
    placement; in splay mode every other node of the placement if it is the first of them,
    or if the upload came from an external client; in the other modes nobody. *)
Definition handed_to (external : bool) (mode self : Z) (placement : list Node) (t : Z) : Prop :=
  (mode = ReplicationChain ∧ ∃ pre a b post, placement = pre ++ a :: b :: post ∧ ID a = self ∧ self ∉ (ID <$> pre) ∧ t = ID b)
  ∨ (mode = ReplicationSplay ∧ t ≠ self ∧ t ∈ (ID <$> placement) ∧ ((ID <$> head placement) = Some self ∨ external = true)).

Lemma next_hop_elem self placement t :
  t ∈ next_hop self placement ↔ ∃ pre a b post, placement = pre ++ a :: b :: post ∧ ID a = self ∧ self ∉ (ID <$> pre) ∧ t = ID b.
Proof.
  induction placement as [|x rest IH]; cbn [next_hop].
  { rewrite elem_of_nil. split; [done|]. by intros ([|? ?] & ? & ? & ? & ? & _). }
  destruct (Z.eqb_spec (ID x) self) as [Hx|Hx].
  - split.
    + destruct rest as [|b post]; [by intros ?%elem_of_nil|]. intros ->%list_elem_of_singleton.
      exists [], x, b, post. split_and!; [done..|apply not_elem_of_nil|done].
    + intros ([|y pre] & a & b & post & E & Ha & Hn & ->); cbn [app] in E.
      * injection E as -> ->. by apply list_elem_of_singleton.
      * injection E as <- _. cbn in Hn. apply not_elem_of_cons in Hn as [Hn _]. by destruct Hn.
  - rewrite IH. split; intros (pre & a & b & post & E & Ha & Hn & ->).
    + exists (x :: pre), a, b, post. split_and!; [by rewrite E|done| |done]. cbn. apply not_elem_of_cons. done.
    + destruct pre as [|y pre]; cbn [app] in E; injection E as -> E; [done|].
      exists pre, a, b, post. cbn in Hn. apply not_elem_of_cons in Hn as [_ Hn]. done.
Qed.

Lemma forward_targets_exact e cm mode placement targets :
  forward_targets e cm mode placement = Some targets →
  ∀ t, t ∈ targets ↔ handed_to (IsExternalClient cm) mode (serverId e) placement t.
Proof.
  unfold forward_targets, handed_to. destruct (Z.eqb_spec mode ReplicationNone) as [->|H1]; cbn [orb].
  { intros [= <-] t. rewrite elem_of_nil. split; [done|]. by intros [[? _]|[? _]]. }
  destruct (Z.eqb_spec mode ReplicationPrimarySplay) as [->|H2].
  { intros [= <-] t. rewrite elem_of_nil. split; [done|]. by intros [[? _]|[? _]]. }
  destruct (Z.eqb_spec mode ReplicationChain) as [->|H3].
  { intros [= <-] t. rewrite next_hop_elem. split; [by left|]. by intros [[_ ?]|[? _]]. }
  destruct (Z.eqb_spec mode ReplicationSplay) as [->|H4]; [|done]. destruct placement as [|a rest].
  { intros [= <-] t. split; [by intros ?%elem_of_nil|]. intros [[? _]|(_ & _ & Ht & _)]; [done|]. by apply elem_of_nil in Ht. }
  assert (∀ t, t ∈ (ID <$> filter (λ b, ID b ≠ serverId e) (a :: rest)) ↔ t ≠ serverId e ∧ t ∈ (ID <$> a :: rest)) as Hf.
  { intros t. rewrite !list_elem_of_fmap. setoid_rewrite list_elem_of_filter. naive_solver. }
  destruct (Z.eqb_spec (ID a) (serverId e)) as [Ha|Ha]; cbn [orb].
  - intros [= <-] t. rewrite Hf. cbn [head fmap option_fmap option_map]. rewrite Ha. split; [naive_solver|]. intros [[? _]|(_ & ? & ? & _)]; done.
  - destruct (IsExternalClient cm).
    + intros [= <-] t. rewrite Hf. split; [naive_solver|]. intros [[? _]|(_ & ? & ? & _)]; done.
    + intros [= <-] t. rewrite elem_of_nil. split; [done|]. cbn. intros [[? _]|(_ & _ & _ & [E|?])]; [done| |done]. injection E as E. done.
Qed.

(** C6: A native upload is acknowledged only when it is safe.  Then the metadata packet that
    was sent is well-formed, its name is mapped to its digest, and the object was handed, in
    the transaction's mode, to exactly the nodes that mode and the placement ask for
    ([handed_to]), each of which took it or panicked, which the handler does not tell from
    success.  If moreover the digest is not that of the empty object, the sender sent content
    of that digest, unless the name already had it; and if the digest was clean before (its
    record, if any, readable, counting its names, with bytes that hash to it), its blob is
    stored and hashes to it.  The reference counts leave room for one more. *)
Theorem upload_acknowledged e requested ts c n c' n' :
  (∀ h, refcount (db (ncas n)) h < MaxInt64) → is_int64 (clock (henv e)) →
  upload scoreBits e native requested ts (c, n) = (Ok tt, (c', n')) →
  ∃ m fs placement,
    (ReceiveMetadata (mkConn (inp c) [], tt)).1 = Ok m ∧
    GetHashForName (ncas n') (Name m) = Ok (Hash m) ∧
    (Hash m ≠ HashBytes [] →
       (GetHashForName (ncas n) (Name m) = Ok (Hash m) ∨ HashBytes (take (Z.to_nat (FSize m)) (drop 192 (inp c))) = Hash m) ∧
       (clean (ncas n) (Hash m) → ∃ body, blob_view (blobs (ncas n')) !! Hash m = Some body ∧ HashBytes body = Hash m)) ∧
    let mode := (select_mode e native (npeer n) requested ts).1 in
    Placement scoreBits (crush_nodes e) (Hash m) (if mode =? ReplicationNone then 1 else ReplicationFactor e) = Ok placement ∧
    forwards n' = forwards n ++ fs ∧
    (∀ t, t ∈ (fw_target <$> fs) ↔ handed_to false mode (serverId e) placement t) ∧
    ∀ f, f ∈ fs → fw_name f = Name m ∧ fw_hash f = Hash m ∧ (peers e f = FwOk ∨ peers e f = FwPanic).
Proof.
  intros Hmax Hclk Hu.
  assert (∀ k, k ≠ HashBytes [] → let '(r, (c', n')) := upload scoreBits e native requested ts (c, n) in keeps k r n n') as Hkeep.
  { intros k Hk. pose proof (upload_spec scoreBits k Hk e native requested ts c n Hmax Hclk) as H'.
    destruct (upload _ _ _ _ _ _) as [r [c0 n0]]. destruct (select_mode _ _ _ _ _). apply H'. }
  rewrite Hu in Hkeep.
  assert (ch_nul :: [] ≠ HashBytes []) as Hany by (vm_compute; discriminate).
  pose proof (upload_spec scoreBits _ Hany e native requested ts c n Hmax Hclk) as H'. clear Hany.
  rewrite Hu in H'. destruct (select_mode e native (npeer n) requested ts) as [mode finalTs] eqn:Esel.
  destruct H' as [_ H']. destruct (H' eq_refl) as (m & h & placement & targets & fs & Hm & Hck & Hg & Hk & Hpl & Ht & Hf & Hft & Hfs).
  set (c1 := meta_conn e native (npeer n) requested ts c) in *.
  assert (inp c1 = inp c) as Hc1.
  { unfold c1, meta_conn. cbn. unfold SendReplicationMode. destruct (_ || _); [done|]. by destruct c. }
  assert (c1 = mkConn (inp c) (outp c1)) as Ec1 by (rewrite <- Hc1; clearbody c1; clear; by destruct c1).
  cbn [c_ReceiveMetadata native] in Hm.
  destruct (ReceiveMetadata_inp c (outp c1) tt) as [Hr1 Hr2]. rewrite <- Ec1 in Hr1, Hr2.
  destruct (ReceiveMetadata (c1, tt)) as [[m'|er] [c2 []]] eqn:Erm.
  2:{ erewrite bind_err in Hm by exact Erm. discriminate. }
  erewrite bind_ok in Hm by exact Erm. cbn [fst mret M_ret] in Hm. injection Hm as -> <-. cbn [fst snd inp] in Hr1, Hr2.
  exists m, fs, placement. cbn [fst].
  split; [by symmetry|]. split; [done|]. split; [|split; [done|]; split; [done|]; split; [|naive_solver]].
  - intros Hne. split.
    + destruct Hk as [Hk|(rd & Hrd & Hh)]; [by left|right].
      unfold body_conn in Hrd. cbn [c_ReceiveMetadata native] in Hrd. erewrite bind_ok in Hrd by exact Erm.
      cbn in Hrd. rewrite (Hr2 eq_refl) in Hrd. injection Hrd as <-. unfold hashed in Hh. cbn [rd_chunks concat reader_of] in Hh.
      rewrite app_nil_r in Hh. destruct (_ || _); [exact Hh|by destruct Hne].
    + intros Hcl. apply (mapped_blob _ (Name m)); [|done]. apply (Hkeep _ Hne Hcl). by left.
  - intros t. rewrite Hft. exact (forward_targets_exact _ _ _ _ _ Ht t).
Qed.
End Properties.

(** The two readers of a metadata packet accept the same packets, up to the size limit, and
    read the same name and size. *)
Lemma getMetadata_agrees c m :
  (getMetadata (c, tt)).1 = Ok m ↔
  (ReceiveMetadata (c, tt)).1 = Ok (mkFile (Name m) (SanitizeLog (Hash m)) (FSize m) [] 0) ∧ 0 <= FSize m <= MaxFileSize ∧
  m = mkFile (Name m) (TrimNullBytesString (take 64 (inp c))) (FSize m) [] 0.
Proof.
  unfold getMetadata, ReceiveMetadata. destruct (ReadFull_cases 192 ErrPlain c tt) as [[_ E]|(b & r & Hi & Hb & E)].
  { erewrite !bind_err by exact E. naive_solver. }
  erewrite !bind_ok by exact E. rewrite Hi, take_app_le by lia.
  destruct (crlf _); [naive_solver|]. destruct (_ || _); [naive_solver|]. destruct (crlf _); [naive_solver|].
  unfold mbind, M_bind, lift. destruct (ValidatePath _); [|naive_solver].
  destruct (SafeParseInt _) as [z|]; [|naive_solver].
  destruct (_ || _) eqn:Ez; [apply orb_true_iff in Ez|apply orb_false_iff in Ez as [? ?]]; zbool; destruct m as [nm h sz rp mt]; cbn.
  - split; [done|]. intros ([= <- _ <-] & Hs & _). zbool. lia.
  - split; [intros [= <- <- <- <- <-]; split_and!; (done || lia)|]. intros ([= <- _ <-] & _ & [= -> -> ->]). done.
Qed.

(** ** Replication *)

(** Following the chain from a node. *)
Fixpoint chain_from (fuel : nat) (self : Z) (placement : list Node) : list Z :=
  match fuel with
  | O => []
  | S fuel => match next_hop self placement with [] => [] | t :: _ => t :: chain_from fuel t placement end
  end.

Lemma next_hop_split a x rest pre : NoDup (ID <$> pre ++ a :: x) → rest = x →
  next_hop (ID a) (pre ++ a :: rest) = match rest with b :: _ => [ID b] | [] => [] end.
Proof.
  intros Hn ->. induction pre as [|p pre IH]; cbn [app next_hop]; [by rewrite Z.eqb_refl|].
  cbn in Hn. apply NoDup_cons in Hn as [Hp Hn]. rewrite (proj2 (Z.eqb_neq _ _)); [by apply IH|].
  intros Heq. apply Hp. rewrite Heq, fmap_app, elem_of_app. right. left.
Qed.

Lemma chain_from_suffix pre a rest fuel :
  NoDup (ID <$> pre ++ a :: rest) → (length rest <= fuel)%nat → chain_from fuel (ID a) (pre ++ a :: rest) = ID <$> rest.
Proof.
  revert pre a fuel. induction rest as [|b rest IH]; intros pre a fuel Hn Hl.
  - destruct fuel; [done|]. cbn [chain_from]. by rewrite (next_hop_split a [] [] pre Hn eq_refl).
  - destruct fuel as [|fuel]; [cbn in Hl; lia|]. cbn [chain_from]. rewrite (next_hop_split a _ _ pre Hn eq_refl).
    cbn [fmap list_fmap]. f_equal. replace (pre ++ a :: b :: rest) with ((pre ++ [a]) ++ b :: rest) in * by (by rewrite <- app_assoc).
    apply IH; [done|cbn in Hl; lia].
Qed.

(** From the first node of a placement both server-side modes reach every replica: the
    chain that the nodes hand on, one hop each, visits the rest of the placement in order,
    and the splay of the first node goes to each of the others; a node further down only
    reaches those behind it. *)
Theorem replication_covers e a rest pre :
  serverId e = ID a → NoDup (ID <$> pre ++ a :: rest) →
  forward_targets e native ReplicationChain (pre ++ a :: rest) = Some (next_hop (ID a) (pre ++ a :: rest)) ∧
  chain_from (length rest) (ID a) (pre ++ a :: rest) = ID <$> rest ∧
  forward_targets e native ReplicationSplay (pre ++ a :: rest) = Some (match pre with [] => ID <$> rest | _ => [] end).
Proof.
  intros Hid Hn. split_and!.
  - cbn. by rewrite Hid.
  - by apply chain_from_suffix.
  - unfold forward_targets. cbn [Z.eqb]. rewrite Hid. cbn -[filter]. destruct pre as [|p pre]; cbn [app] in Hn |- *.
    + rewrite Z.eqb_refl. cbn [orb]. f_equal. rewrite filter_cons, decide_False by (intros Hx; by apply Hx).
      cbn in Hn. apply NoDup_cons in Hn as [Ha _]. f_equal. clear -Ha.
      induction rest as [|b rest IH]; [done|]. cbn in Ha. apply not_elem_of_cons in Ha as [Hb Ha].
      rewrite filter_cons, decide_True by congruence. f_equal. by apply IH.
    + cbn in Hn. apply NoDup_cons in Hn as [Hp _]. rewrite (proj2 (Z.eqb_neq _ _)); [done|].
      intros Heq. apply Hp. rewrite Heq, fmap_app, elem_of_app. right. left.
Qed.

(** The mode for an external client is one the server carries out itself, the next of the
    configured order after the current one, wrapping around; without one, no replication. *)
Theorem downgrade_spec mode order client :
  let m := downgradeToServerSideMode mode order client in
  (mode ∉ client → m = mode) ∧
  (mode ∈ client → (m ∈ order ∧ m ∉ client) ∨ (m = ReplicationNone ∧ ∀ x, x ∈ order → x ∈ client)) ∧
  (∀ pre post, mode ∈ client → order = pre ++ mode :: post → mode ∉ pre →
     ∀ x mid tl, post = mid ++ x :: tl → (∀ y, y ∈ mid → y ∈ client) → x ∉ client → m = x).
Proof.
  assert (∀ x, isClientSide client x = true ↔ x ∈ client) as Hcs.
  { intros x. unfold isClientSide. rewrite existsb_exists. setoid_rewrite <- list_elem_of_In. setoid_rewrite Z.eqb_eq. naive_solver. }
  assert (∀ x, negb (isClientSide client x) = true ↔ x ∉ client) as Hncs.
  { intros x. rewrite <- Hcs. destruct (isClientSide client x); naive_solver. }
  assert (∀ l x, List.find (λ m, negb (isClientSide client m)) l = Some x → x ∈ l ∧ x ∉ client) as Hfs.
  { intros l x [Hin Hx]%find_some. by rewrite list_elem_of_In, <- Hncs. }
  assert (∀ l, List.find (λ m, negb (isClientSide client m)) l = None → ∀ x, x ∈ l → x ∈ client) as Hfn.
  { intros l Hn x Hx. apply list_elem_of_In in Hx. pose proof (find_none _ _ Hn x Hx) as Hb. apply negb_false_iff in Hb. by apply Hcs. }
  intros m. unfold m, downgradeToServerSideMode. split_and!.
  - intros Hm%Hncs. by rewrite Hm.
  - intros Hm%Hcs. rewrite Hm. cbn [negb]. set (i := after mode order 0).
    destruct (List.find _ (drop i order)) as [x|] eqn:E1.
    { left. destruct (Hfs _ _ E1). split; [|done]. rewrite <- (take_drop i order). apply elem_of_app. by right. }
    destruct (List.find _ (take i order)) as [x|] eqn:E2.
    { left. destruct (Hfs _ _ E2). split; [|done]. rewrite <- (take_drop i order). apply elem_of_app. by left. }
    right. split; [done|]. intros x. rewrite <- (take_drop i order) at 1. rewrite elem_of_app. intros [Hx|Hx]; eauto.
  - intros pre post Hm%Hcs -> Hpre x mid tl -> Hmid Hx. rewrite Hm. cbn [negb].
    assert (∀ k, after mode (pre ++ mode :: mid ++ x :: tl) k = S (k + length pre)) as ->.
    { clear -Hpre. induction pre as [|p pre IH]; intros k; cbn [app after length].
      - rewrite Z.eqb_refl. lia.
      - apply not_elem_of_cons in Hpre as [Hne Hpre]. rewrite (proj2 (Z.eqb_neq p mode)) by congruence. rewrite IH by done. lia. }
    replace (S (0 + length pre)) with (length (pre ++ [mode])) by (rewrite length_app; cbn; lia).
    replace (pre ++ mode :: mid ++ x :: tl) with ((pre ++ [mode]) ++ mid ++ x :: tl) by (by rewrite <- app_assoc).
    rewrite drop_app_length. assert (List.find (λ m0, negb (isClientSide client m0)) (mid ++ x :: tl) = Some x) as ->; [|done].
    clear -Hmid Hx Hcs Hncs. induction mid as [|y mid IH]; cbn [app List.find].
    + by rewrite (proj2 (Hncs x) Hx).
    + rewrite (proj2 (Hcs y)) by (apply Hmid; left). cbn [negb]. apply IH. intros z Hz. apply Hmid. by right.
Qed.

(** ** Backends *)
#[export] Instance gmap_reads_spec : PutReadsSpec (gmap bytes bytes).
Proof.
  split. intros b h r b' _ Hp _. cbn in Hp. destruct (read_all r) as [c|]; [|done]. injection Hp as <-. by exists c.
Qed.

#[export] Instance raw_reads_spec : PutReadsSpec RawBlobStore.
Proof.
  split. intros b h r b' Hi Hp Hr. apply raw_put_spec in Hp as (_ & [(c & Hc & Hv & _)|[_ Hs]]); [by exists c| |done].
  unfold put_reads, raw_reads in Hr. by rewrite bool_decide_eq_true_2 in Hr.
Qed.

Lemma gmap_deletes : deletes_succeed (B := gmap bytes bytes).
Proof. done. Qed.
Lemma raw_deletes : deletes_succeed (B := RawBlobStore).
Proof. intros b h _ Ht. cbn. unfold raw_delete. by rewrite Ht. Qed.

(** ** Examples *)
Definition ex_score (w m : Z) : Z := m.
Definition ex_crush (k : Z) : list (option Node) :=
  (λ i, Some (mkNode (Z.to_nat i) i 1 [] [])) <$> seqZ 0 k.
Definition ex_daemon (self nodes mode : Z) (p : forward → fw_outcome) : daemon_env :=
  mkDaemon ex_env self (ex_crush nodes) 3 [1; 3; 2] [3] (mkReplication mode 0 0) None 1 (λ _ _ _, None) p.
Definition ex_node : upload_node (gmap bytes bytes) := mkNodeState (mkNS (mkLS (mkVS ex1 (mkVDB ∅ ∅ ∅ ∅) None) ∅ ∅) ∅) ∅ false [] [] [].
Definition ex_body2 : bytes := bs "new content".
Definition ex_upload (payload : bytes) : conn :=
  mkConn (metadata_packet (HashBytes ex_body2) (bs "a") 11 ++ payload) [].

Lemma ex_node_clean k : clean (ncas ex_node) k.
Proof.
  split; [apply cas_kept, ex1_inv|]. intros _ c Hv. change (blob_view (blobs (ncas ex_node))) with (blobs ex1) in Hv.
  assert (blobs ex1 = {[ex_hash := ex_body]}) as E by (apply (bool_decide_unpack _); vm_compute; exact I).
  rewrite E in Hv. apply lookup_singleton_Some in Hv as [<- <-]. unfold ex_hash. reflexivity.
Qed.

Lemma ex_node_refs h : refcount (db (ncas ex_node)) h < MaxInt64.
Proof.
  change (db (ncas ex_node)) with (db ex1). unfold refcount.
  assert (∃ v, objects (db ex1) = {[ex_hash := v]} ∧ decodeObjectMeta v = Ok (mkObjectMeta 2 1 0 [] [] [])) as (v & -> & Hd).
  { exists (default [] (objects (db ex1) !! ex_hash)). split; [apply (bool_decide_unpack _); vm_compute; exact I|vm_compute; reflexivity]. }
  rewrite lookup_singleton. case_decide; [rewrite Hd; done|done].
Qed.

(** The wrong content, under the digest of the right one. *)
Lemma upload_content_addressed_witness :
  clean (ncas (upload ex_score (ex_daemon 0 1 0 (λ _, FwOk)) native 0 0 (ex_upload (bs "other stuff"), ex_node)).2.2) (HashBytes ex_body2).
Proof.
  apply (upload_content_addressed ex_score (ex_daemon 0 1 0 (λ _, FwOk)) native 0 0 (ex_upload (bs "other stuff")) ex_node);
    [exact gmap_deletes|exact ex_node_refs|done|vm_compute; discriminate|apply ex_node_clean].
Defined.

Definition ex_splay := upload ex_score (ex_daemon 2 3 2 (λ _, FwOk)) native 0 0 (ex_upload ex_body2, ex_node).

Lemma upload_acknowledged_witness :
  ∃ m fs placement,
    (ReceiveMetadata (mkConn (inp (ex_upload ex_body2)) [], tt)).1 = Ok m ∧
    GetHashForName (ncas ex_splay.2.2) (Name m) = Ok (Hash m) ∧
    (Hash m ≠ HashBytes [] →
       (GetHashForName (ncas ex_node) (Name m) = Ok (Hash m) ∨
        HashBytes (take (Z.to_nat (FSize m)) (drop 192 (inp (ex_upload ex_body2)))) = Hash m) ∧
       (clean (ncas ex_node) (Hash m) → ∃ body, blob_view (blobs (ncas ex_splay.2.2)) !! Hash m = Some body ∧ HashBytes body = Hash m)) ∧
    let mode := (select_mode (ex_daemon 2 3 2 (λ _, FwOk)) native (npeer ex_node) 0 0).1 in
    Placement ex_score (ex_crush 3) (Hash m) (if mode =? ReplicationNone then 1 else 3) = Ok placement ∧
    forwards ex_splay.2.2 = [] ++ fs ∧
    (∀ t, t ∈ (fw_target <$> fs) ↔ handed_to false mode 2 placement t) ∧
    ∀ f, f ∈ fs → fw_name f = Name m ∧ fw_hash f = Hash m ∧ (FwOk = FwOk ∨ FwOk = FwPanic).
Proof.
  apply (upload_acknowledged ex_score (ex_daemon 2 3 2 (λ _, FwOk)) 0 0 (ex_upload ex_body2) ex_node ex_splay.2.1 ex_splay.2.2);
    [exact ex_node_refs|done|].
  assert (ex_splay.1 = Ok tt) as E by (vm_compute; reflexivity).
  change (upload ex_score (ex_daemon 2 3 2 (λ _, FwOk)) native 0 0 (ex_upload ex_body2, ex_node)) with ex_splay.
  revert E. generalize ex_splay. intros [r [c' n']]. cbn [fst snd]. by intros ->.
Defined.

Lemma replication_covers_witness :
  let e := ex_daemon 2 3 2 (λ _, FwOk) in
  let nd i := mkNode (Z.to_nat i) i 1 [] [] in
  forward_targets e native ReplicationChain ([] ++ nd 2 :: [nd 0; nd 1]) = Some (next_hop 2 ([] ++ nd 2 :: [nd 0; nd 1])) ∧
  chain_from 2 2 ([] ++ nd 2 :: [nd 0; nd 1]) = [0; 1] ∧
  forward_targets e native ReplicationSplay ([] ++ nd 2 :: [nd 0; nd 1]) = Some [0; 1].
Proof.
  apply (replication_covers (ex_daemon 2 3 2 (λ _, FwOk)) (mkNode 2 2 1 [] []) [mkNode 0 0 1 [] []; mkNode 1 1 1 [] []] []); [done|].
  cbn. repeat constructor; set_solver.
Defined.

(** *** What the handler does not promise *)

(** The name is mapped to the new digest before the payload is checked, and the cleanup
    removes the name: an upload whose content is damaged on the way also loses the object
    that had the name. *)
Example corrupt_upload_destroys :
  let run := upload ex_score (ex_daemon 0 1 0 (λ _, FwOk)) native 0 0 (ex_upload (bs "damaged..!!"), ex_node) in
  GetHashForName (ncas ex_node) (bs "a") = Ok ex_hash ∧
  run.1 = Err (Errno EBADMSG) ∧ GetHashForName (ncas run.2.2) (bs "a") = Err (Errno ENOENT).
Proof. split_and!; vm_compute; reflexivity. Qed.

(** The blob is written before the transaction: a put that then fails, here because the name
    is too long, leaves the bytes it was given under the digest, whatever they are, and no
    record.  The next upload of the digest replaces them, or, on a backend that does not
    read, is refused. *)
Example failed_put_leaves_blob :
  let s := Put (newCASStore (∅ : gmap bytes bytes)) (replicate 65 ch_slash) (HashBytes ex_body2) 11 [] (Some (reader_of (bs "wrong bytes"))) 5 in
  s.1 = Err (Errno ENAMETOOLONG) ∧ objects (db s.2) !! HashBytes ex_body2 = None ∧ blobs s.2 !! HashBytes ex_body2 = Some (bs "wrong bytes").
Proof. vm_compute. repeat split; reflexivity. Qed.

(** Without working deletions the cleanup keeps the wrong blob and its record, and the next
    upload of that digest is acknowledged over it. *)
#[local] Instance stuck_store : BlobStore (gmap bytes bytes * unit) := {|
  PutBlob b h r := let '(x, m) := PutBlob b.1 h r in (x, (m, tt));
  GetBlob b := GetBlob b.1;
  DeleteBlob b h := (Err (Errno EIO), b);
  BlobExists := Some (λ b h, Ok (bool_decide (is_Some (b.1 !! h))))
|}.
#[local] Instance stuck_reads : PutReads (gmap bytes bytes * unit) := λ b h, true.
Definition ex_stuck : upload_node (gmap bytes bytes * unit) :=
  mkNodeState (mkNS (mkLS (mkVS (newCASStore (∅, tt)) (mkVDB ∅ ∅ ∅ ∅) None) ∅ ∅) ∅) ∅ false [] [] [].
Example failed_delete_keeps_wrong_blob :
  let first := upload ex_score (ex_daemon 0 1 0 (λ _, FwOk)) native 0 0 (ex_upload (bs "wrong bytes"), ex_stuck) in
  let second := upload ex_score (ex_daemon 0 1 0 (λ _, FwOk)) native 0 0 (ex_upload ex_body2, first.2.2) in
  first.1 = Err (Errno EBADMSG) ∧ second.1 = Ok tt ∧ (blobs (ncas second.2.2)).1 !! HashBytes ex_body2 = Some (bs "wrong bytes").
Proof. vm_compute. repeat split; reflexivity. Qed.

(** With three replicas configured, a chain that enters at the last node of the placement
    and a splay that enters at a node other than the first are acknowledged with one copy. *)
Example acknowledged_single_copy :
  let chain := upload ex_score (ex_daemon 1 3 1 (λ _, FwOk)) native 0 0 (ex_upload ex_body2, ex_node) in
  let splay := upload ex_score (ex_daemon 0 3 2 (λ _, FwOk)) native 0 0 (ex_upload ex_body2, ex_node) in
  chain.1 = Ok tt ∧ forwards chain.2.2 = [] ∧ splay.1 = Ok tt ∧ forwards splay.2.2 = [].
Proof. split_and!; vm_compute; reflexivity. Qed.

(** A forwarder that panics does not mark the upload. *)
Example panic_acknowledged :
  (upload ex_score (ex_daemon 2 3 2 (λ _, FwPanic)) native 0 0 (ex_upload ex_body2, ex_node)).1 = Ok tt ∧
  (upload ex_score (ex_daemon 2 3 2 (λ _, FwErr)) native 0 0 (ex_upload ex_body2, ex_node)).1 = Err (Errno EIO).
Proof. split; vm_compute; reflexivity. Qed.

(** The raw store returns without reading when it holds the blob: a blob left behind by an
    interrupted write makes the next upload of the same content fail its digest check, and
    the cleanup of that failure removes the blob. *)
Definition ex_orphan : upload_node RawBlobStore :=
  mkNodeState (mkNS (mkLS (mkVS (newCASStore (raw_put raw_empty (HashBytes ex_body2) (reader_of ex_body2)).2) (mkVDB ∅ ∅ ∅ ∅) None) ∅ ∅) ∅)
    ∅ false [] [] [].
Example orphan_blob_rejects_upload :
  let first := upload ex_score (ex_daemon 0 1 0 (λ _, FwOk)) native 0 0 (ex_upload ex_body2, ex_orphan) in
  let second := upload ex_score (ex_daemon 0 1 0 (λ _, FwOk)) native 0 0 (ex_upload ex_body2, first.2.2) in
  first.1 = Err (Errno EBADMSG) ∧ second.1 = Ok tt.
Proof. split; vm_compute; reflexivity. Qed.
