(* ===== verification/Client.v ===== *)
(** * The client (src/src/client/client.go, pheromone.go)

    Uploads without encryption, downloads with fallback over the replicas of an object, and
    the router that orders the replicas by reputation (binary64 arithmetic).  The network
    is a function from a daemon to the bytes it sends, [None] when it cannot be reached;
    random numbers and clock readings are arguments. *)
From S2P Require Import Prelude GoText Float64 Hashes Json Paths ObjectMeta BlobStore RawStore AuditLog CasStore CasTheorems Versioning Lifecycle Notify Crush Protocol Ingest.
Open Scope Z_scope.

(** ** Reputation of replicas (pheromone.go) *)
Definition InitialPheromone : float64 := f64 1.
Definition MinPheromone : float64 := fdiv (f64 1) (f64 20).
Definition MaxPheromone : float64 := f64 10.
Definition EvaporationFactor : float64 := fdiv (f64 19) (f64 20).
Definition FailurePenaltyFactor : float64 := fdiv (f64 1) (f64 5).
Definition EvaporationInterval : Z := 10 ^ 9.

Record antColonyRouter := mkRouter { pheromones : gmap Z float64; lastEvaporate : Z }.

Definition NewPheromoneRouter (now : Z) : antColonyRouter := mkRouter ∅ now.

Definition GetPheromone (r : antColonyRouter) (nodeID : Z) : float64 := default InitialPheromone (pheromones r !! nodeID).

(** The reward of a completed download; [rtt] in nanoseconds. *)
Definition reward (rtt : Z) : float64 :=
  if 0 <? rtt then
    let x := fdiv (f64 100) (f64 (Z.quot rtt (10 ^ 6) + 1)) in
    if SpecFloat.SFltb (f64 2) x then f64 2
    else if SpecFloat.SFltb x (fdiv (f64 1) (f64 10)) then fdiv (f64 1) (f64 10) else x
  else fdiv (f64 1) (f64 2).

Definition router_success (r : antColonyRouter) (nodeID rtt : Z) : antColonyRouter :=
  let cur := fadd (GetPheromone r nodeID) (reward rtt) in
  let cur := if SpecFloat.SFltb MaxPheromone cur then MaxPheromone else cur in
  mkRouter (<[nodeID := cur]> (pheromones r)) (lastEvaporate r).

Definition floor_pheromone (p : float64) : float64 := if SpecFloat.SFltb p MinPheromone then MinPheromone else p.

Definition router_failure (r : antColonyRouter) (nodeID : Z) : antColonyRouter :=
  mkRouter (<[nodeID := floor_pheromone (fmul (GetPheromone r nodeID) FailurePenaltyFactor)]> (pheromones r)) (lastEvaporate r).

Definition evaporateLocked (r : antColonyRouter) (now : Z) : antColonyRouter :=
  mkRouter ((λ p, floor_pheromone (fmul p EvaporationFactor)) <$> pheromones r) now.

(** The sum of the reputations; an unknown node is entered with the initial one. *)
Fixpoint sumPheromonesLocked (r : antColonyRouter) (replicas : list (option Node)) (total : float64) : float64 * antColonyRouter :=
  match replicas with
  | [] => (total, r)
  | None :: rest => sumPheromonesLocked r rest total
  | Some n :: rest =>
      let p := GetPheromone r (ID n) in
      sumPheromonesLocked (mkRouter (<[ID n := p]> (pheromones r)) (lastEvaporate r)) rest (fadd total p)
  end.

Fixpoint sample_loop (r : antColonyRouter) (replicas : list (option Node)) (pick running : float64) : option Node :=
  match replicas with
  | [] => None
  | None :: rest => sample_loop r rest pick running
  | Some n :: rest =>
      let running := fadd running (GetPheromone r (ID n)) in
      if SpecFloat.SFleb pick running then Some n else sample_loop r rest pick running
  end.

Definition sampleReplicaLocked (r : antColonyRouter) (replicas : list (option Node)) (pick : float64) : option Node :=
  match sample_loop r replicas pick (f64 0) with
  | Some n => Some n
  | None => match replicas with x :: _ => x | [] => None end
  end.

(** One draw: the clock and a random number. *)
Notation draw := (Z * SpecFloat.spec_float)%type.

Definition SelectReplica (r : antColonyRouter) (replicas : list (option Node)) (d : draw) : result (option Node) * antColonyRouter :=
  match replicas with
  | [] => (Err (Errno EINVAL), r)
  | [x] => (Ok x, r)
  | first :: _ =>
      let r := if EvaporationInterval <=? d.1 - lastEvaporate r then evaporateLocked r d.1 else r in
      let '(total, r) := sumPheromonesLocked r replicas (f64 0) in
      if SpecFloat.SFleb total (f64 0) then (Ok first, r)
      else (Ok (sampleReplicaLocked r replicas (fmul d.2 total)), r)
  end.

(** The first node with the ID is taken out. *)
Fixpoint remove_id (id : Z) (l : list Node) : list Node :=
  match l with
  | [] => []
  | n :: rest => if ID n =? id then rest else n :: remove_id id rest
  end.

(** The sampling loop; a chosen nil would be a panic. *)
Fixpoint prioritize_loop (fuel : nat) (r : antColonyRouter) (remaining : list Node) (draws : nat → draw) (ordered : list Node)
    : option (list Node) * antColonyRouter :=
  match fuel with
  | O => (Some ordered, r)
  | S fuel =>
      match remaining with
      | [] => (Some ordered, r)
      | _ =>
          match SelectReplica r (Some <$> remaining) (draws (length ordered)) with
          | (Err _, r) => (Some (ordered ++ remaining), r)
          | (Ok None, r) => (None, r)
          | (Ok (Some chosen), r) => prioritize_loop fuel r (remove_id (ID chosen) remaining) draws (ordered ++ [chosen])
          end
      end
  end.

Definition PrioritizeReplicas (r : antColonyRouter) (replicas : list (option Node)) (draws : nat → draw)
    : result (list (option Node)) * antColonyRouter :=
  match replicas with
  | [] => (Err (Errno EINVAL), r)
  | [x] => (Ok [x], r)
  | _ =>
      let remaining := omap id replicas in
      match remaining with
      | [] => (Err (Errno EINVAL), r)
      | _ => match prioritize_loop (length remaining) r remaining draws [] with
             | (Some l, r) => (Ok (Some <$> l), r)
             | (None, r) => (Err (Errno EIO), r)
             end
      end
  end.

(** ** Downloads with fallback *)

(** A destination: its bytes, the position, whether it can seek. *)
Record writer := mkWriter { data : bytes; pos : nat; seekable : bool }.

Definition write_to (w : writer) (b : bytes) : writer :=
  mkWriter (take (pos w) (data w) ++ b ++ drop (pos w + length b) (data w)) (pos w + length b) (seekable w).
Definition seek_to (w : writer) (p : nat) : writer := mkWriter (data w) p (seekable w).

(** What [Download] writes when the daemon sends [reply]: the content, or what arrived of it. *)
Definition download_from (authToken name hash : bytes) (reply : option bytes) : result unit * bytes :=
  match reply with
  | None => (Err ErrPlain, [])
  | Some input =>
      match Download authToken name hash (mkConn input [], tt) with
      | (Ok content, _) => (Ok tt, content)
      | (Err e, _) =>
          match take 65 input with
          | c :: sz =>
              if (65 <=? length input)%nat && bool_decide (c = st_ok) then
                match SafeParseInt (TrimNullBytesString sz) with
                | Ok size => if (size <? 0) || (MaxFileSize <? size) then (Err e, []) else (Err e, take (Z.to_nat size) (drop 65 input))
                | Err _ => (Err e, [])
                end
              else (Err e, [])
          | [] => (Err e, [])
          end
      end
  end.

Record client_cfg := mkClient {
  AuthToken : bytes;
  Daemons : list (bytes * bytes);
  CReplicationFactor : Z
}.

Definition client_nodes (cfg : client_cfg) : list (option Node) :=
  (λ id, Some (mkNode (fst id) (Z.of_nat (fst id)) 1 (snd id).1 (snd id).2)) <$> imap pair (Daemons cfg).

Section Client.
Context (scoreBits : Z → Z → Z).

Definition resolveCRUSHCandidates (cfg : client_cfg) (contentHash : bytes) (serverId : Z) : result (list (option Node)) :=
  if decide (Daemons cfg = []) then Err (Errno EINVAL)
  else
    let factor := if CReplicationFactor cfg <=? 0 then 1 else CReplicationFactor cfg in
    let nodes := client_nodes cfg in
    let fallback := if (0 <=? serverId) && (serverId <? Z.of_nat (length (Daemons cfg)))
                    then match nodes !! Z.to_nat serverId with Some n => Ok [n] | None => Err (Errno EINVAL) end
                    else Err (Errno EINVAL) in
    if decide (contentHash = []) then fallback
    else match Placement scoreBits nodes contentHash factor with
         | Ok (n :: p) => Ok (Some <$> n :: p)
         | _ => fallback
         end.

(** What a client keeps: its destination, its router, and the daemons it has asked. *)
Record dl_state := mkDl { dst : writer; router : antColonyRouter; asked : list Z }.

Fixpoint try_loop (cfg : client_cfg) (net : Z → option bytes) (rtt : Z → Z) (name hash : bytes) (start : nat)
    (candidates : list Node) (s : dl_state) : result unit * dl_state :=
  match candidates with
  | [] => (Err (Errno EHOSTUNREACH), s)
  | c :: rest =>
      let w := if seekable (dst s) then seek_to (dst s) start else dst s in
      let '(r, b) := download_from (AuthToken cfg) name hash (net (ID c)) in
      let w := write_to w b in
      match r with
      | Ok _ => (Ok tt, mkDl w (router_success (router s) (ID c) (rtt (ID c))) (asked s ++ [ID c]))
      | Err _ => try_loop cfg net rtt name hash start rest (mkDl w (router_failure (router s) (ID c)) (asked s ++ [ID c]))
      end
  end.

(** Candidates that are nil panic, which the caller recovers. *)
Definition tryReplicaDownloads (cfg : client_cfg) (net : Z → option bytes) (rtt : Z → Z) (name hash : bytes)
    (candidates : list (option Node)) (s : dl_state) : result unit * dl_state :=
  if forallb (λ x, match x with Some _ => true | None => false end) candidates
  then try_loop cfg net rtt name hash (pos (dst s)) (omap id candidates) s
  else (Err (Errno EIO), s).

Definition DownloadWithFallbackRouter (cfg : client_cfg) (net : Z → option bytes) (rtt : Z → Z) (draws : nat → draw)
    (name hash : bytes) (serverId : Z) (s : dl_state) : result unit * dl_state :=
  match resolveCRUSHCandidates cfg hash serverId with
  | Err e => (Err e, s)
  | Ok candidates =>
      let '(p, r) := PrioritizeReplicas (router s) candidates draws in
      let ordered := match p with Ok (n :: l) => n :: l | _ => candidates end in
      tryReplicaDownloads cfg net rtt name hash ordered (mkDl (dst s) r (asked s))
  end.

(** ** Uploads without encryption *)

(** [sendFile], and [sendFileStream] with its error. *)
Definition sendFileStream {S} (meta : FileMetadata) (content : bytes) : M S unit :=
  status ← SendMetadata meta;
  (if status =? MetadataStatusSkipPayload then mret tt else Write content);;
  ReceiveACK.

(** One connection of an upload: the daemon, what was sent, and whether it acknowledged. *)
Record transfer := mkTransfer { t_daemon : Z; t_sent : bytes; t_acked : bool }.

(** The connections that are open after the handshakes. *)
Definition open_conn (challenge : bool) (cfg : client_cfg) (net : Z → option bytes) (timestamp mode target : Z) : option (Z * conn * Z) :=
  match net target with
  | None => None
  | Some input => match HandshakeClient challenge (AuthToken cfg) timestamp mode (mkConn input [], tt) with
                  | (Ok m, (c, _)) => Some (target, c, m)
                  | (Err _, _) => None
                  end
  end.

Definition send_one (meta : FileMetadata) (content : bytes) (tc : Z * conn) : transfer :=
  match sendFileStream meta content (tc.2, tt) with
  | (Ok _, (c, _)) => mkTransfer tc.1 (outp c) true
  | (Err _, (c, _)) => mkTransfer tc.1 (outp c) false
  end.

(** [Connect] of a file: the error it returns and the transfers it made. *)
Definition client_Connect (challenge : bool) (cfg : client_cfg) (net : Z → option bytes) (fileName content remotePath : bytes)
    (serverId timestamp requestedMode replicationFactor : Z) : result unit * list transfer :=
  if (serverId <? 0) || (Z.of_nat (length (Daemons cfg)) <=? serverId) then (Ok tt, [])
  else match open_conn challenge cfg net timestamp requestedMode serverId with
  | None => (Err ErrPlain, [])
  | Some (_, c0, mode) =>
      let fileHash := HashBytes content in
      let others :=
        if mode =? ReplicationPrimarySplay then
          match Placement scoreBits (client_nodes cfg) fileHash replicationFactor with
          | Ok placement =>
              omap (λ n, if ID n =? serverId then None
                         else (λ x, (x.1.1, x.1.2)) <$> open_conn challenge cfg net timestamp mode (ID n)) placement
          | Err _ => []
          end
        else [] in
      let meta := mkFile fileName fileHash (Z.of_nat (length content)) remotePath 0 in
      match meta_name fileName remotePath with
      | Err e => (Err e, [])
      | Ok wireName =>
          if FileInfoLength <? Z.of_nat (length wireName) then (Ok tt, [])
          else (Ok tt, send_one meta content <$> (serverId, c0) :: others)
      end
  end.

(** [ConnectStream]: the forwarding of a stored object to another daemon with the peer token. *)
Definition ConnectStream (challenge : bool) (cfg : client_cfg) (net : Z → option bytes) (content name hash : bytes) (size : Z)
    (remotePath : bytes) (serverId timestamp requestedMode : Z) : result unit :=
  if (serverId <? 0) || (Z.of_nat (length (Daemons cfg)) <=? serverId) then Err (Errno EINVAL)
  else match net serverId with
  | None => Err ErrPlain
  | Some input =>
      match HandshakeClient challenge (DerivePeerToken (AuthToken cfg)) timestamp requestedMode (mkConn input [], tt) with
      | (Err e, _) => Err e
      | (Ok _, (c, _)) =>
          let! wireName := meta_name name remotePath in
          if FileInfoLength <? Z.of_nat (length wireName) then Err (Errno ENAMETOOLONG)
          else (sendFileStream (mkFile name hash size remotePath 0) content (c, tt)).1
      end
  end.
End Client.

(** * Theorems *)

(** ** Ordering *)
Lemma sample_loop_elem r l pick running n : sample_loop r (Some <$> l) pick running = Some n → n ∈ l.
Proof.
  revert running. induction l as [|x l IH]; intros running; cbn [fmap list_fmap sample_loop]; [done|].
  case_match; [intros [= ->]; left|]. intros Hs. right. by eapply IH.
Qed.

Lemma SelectReplica_some r l d : l ≠ [] → ∃ n r', SelectReplica r (Some <$> l) d = (Ok (Some n), r') ∧ n ∈ l.
Proof.
  intros Hl. destruct l as [|a [|b l]]; [done|by exists a, r; split; [|left]|].
  unfold SelectReplica. cbn [fmap list_fmap].
  destruct (sumPheromonesLocked _ (Some a :: _) (f64 0)) as [total r'].
  case_match; [exists a, r'; split; [done|left]|].
  unfold sampleReplicaLocked. destruct (sample_loop r' _ _ _) as [n|] eqn:E.
  - exists n, r'. split; [done|]. apply (sample_loop_elem r' (a :: b :: l) _ _ _ E).
  - exists a, r'. split; [done|left].
Qed.

Lemma remove_id_perm n l : NoDup (ID <$> l) → n ∈ l → n :: remove_id (ID n) l ≡ₚ l.
Proof.
  induction l as [|x l IH]; [by intros _ ?%not_elem_of_nil|]. cbn. intros [Hx Hn]%NoDup_cons [->|Hin]%elem_of_cons.
  - by rewrite Z.eqb_refl.
  - assert (ID x ≠ ID n) as Hne by (intros E; apply Hx; rewrite E; by apply list_elem_of_fmap_2).
    rewrite (proj2 (Z.eqb_neq _ _) Hne). rewrite <- (IH Hn Hin) at 2. constructor.
Qed.

Lemma prioritize_loop_perm fuel r remaining draws ordered :
  NoDup (ID <$> remaining) → (length remaining <= fuel)%nat →
  ∃ l r', prioritize_loop fuel r remaining draws ordered = (Some l, r') ∧ l ≡ₚ ordered ++ remaining.
Proof.
  revert r remaining ordered. induction fuel as [|fuel IH]; intros r remaining ordered Hn Hl; cbn [prioritize_loop].
  { destruct remaining; [|cbn in Hl; lia]. exists ordered, r. by rewrite app_nil_r. }
  destruct remaining as [|x remaining]; [exists ordered, r; by rewrite app_nil_r|]. set (rem := x :: remaining) in *.
  destruct (SelectReplica_some r rem (draws (length ordered)) ltac:(done)) as (n & r' & -> & Hin).
  pose proof (remove_id_perm n rem Hn Hin) as Hp.
  destruct (IH r' (remove_id (ID n) rem) (ordered ++ [n])) as (l & r'' & -> & Hl').
  - rewrite <- Hp in Hn. cbn in Hn. by apply NoDup_cons in Hn as [_ Hn].
  - apply Permutation_length in Hp. cbn [length] in Hp. lia.
  - exists l, r''. split; [done|]. rewrite Hl', <- app_assoc. by rewrite Hp.
Qed.

(** Ordering never loses a replica, whatever the reputations and the random draws. *)
Lemma PrioritizeReplicas_perm r l draws :
  NoDup (ID <$> l) → l ≠ [] → ∃ l' r', PrioritizeReplicas r (Some <$> l) draws = (Ok (Some <$> l'), r') ∧ l' ≡ₚ l.
Proof.
  intros Hn Hl. destruct l as [|a [|b l]]; [done|by exists [a], r|].
  assert (omap id (Some <$> a :: b :: l) = a :: b :: l) as Ho.
  { generalize (a :: b :: l). intros k. induction k as [|x k IH]; [done|]. cbn. f_equal. exact IH. }
  unfold PrioritizeReplicas. rewrite Ho. cbn [fmap list_fmap].
  destruct (prioritize_loop_perm (length (a :: b :: l)) r (a :: b :: l) draws [] Hn ltac:(lia)) as (l' & r' & -> & Hp).
  by exists l', r'.
Qed.

(** ** Fallback *)
Definition serves (cfg : client_cfg) (net : Z → option bytes) (name hash : bytes) (n : Node) : Prop :=
  (download_from (AuthToken cfg) name hash (net (ID n))).1 = Ok tt.

Lemma write_to_take w b : (pos w <= length (data w))%nat → take (pos w + length b) (data (write_to w b)) = take (pos w) (data w) ++ b.
Proof.
  intros Hp. unfold write_to. cbn [data]. rewrite app_assoc. apply take_app_length'.
  rewrite length_app, length_take. lia.
Qed.

Lemma write_to_prefix w b k : (k <= pos w)%nat → (pos w <= length (data w))%nat → take k (data (write_to w b)) = take k (data w).
Proof.
  intros Hk Hp. unfold write_to. cbn [data]. rewrite take_app_le by (rewrite length_take; lia). rewrite take_take. f_equal. lia.
Qed.

Lemma write_to_length w b : (length (data w) <= length (data (write_to w b)))%nat.
Proof. unfold write_to. cbn [data]. rewrite !length_app, length_take, length_drop. lia. Qed.

(** The loop asks the candidates in order until one serves; a destination that can seek
    then holds the content at its starting position. *)
Lemma try_loop_spec cfg net rtt name hash start l s :
  let '(r, s') := try_loop cfg net rtt name hash start l s in
  (r = Ok tt ∧ ∃ pre c post content, l = pre ++ c :: post ∧ Forall (λ n, ¬ serves cfg net name hash n) pre ∧
     download_from (AuthToken cfg) name hash (net (ID c)) = (Ok tt, content) ∧ asked s' = asked s ++ (ID <$> pre ++ [c]) ∧
     (seekable (dst s) = true → (start <= length (data (dst s)))%nat →
        take (start + length content) (data (dst s')) = take start (data (dst s)) ++ content)) ∨
  (r = Err (Errno EHOSTUNREACH) ∧ Forall (λ n, ¬ serves cfg net name hash n) l ∧ asked s' = asked s ++ (ID <$> l)).
Proof.
  revert s. induction l as [|c l IH]; intros s; cbn [try_loop].
  { right. split_and!; [done|constructor|]. by rewrite app_nil_r. }
  set (w := if seekable (dst s) then seek_to (dst s) start else dst s).
  destruct (download_from (AuthToken cfg) name hash (net (ID c))) as [[[]|er] b] eqn:Ed.
  - left. split; [done|]. exists [], c, l, b. split_and!; [done|constructor|done|done|].
    cbn [dst]. intros Hs Hst. unfold w. rewrite Hs. by apply (write_to_take (seek_to (dst s) start)).
  - assert (¬ serves cfg net name hash c) as Hc by (unfold serves; by rewrite Ed).
    set (s1 := mkDl (write_to w b) (router_failure (router s) (ID c)) (asked s ++ [ID c])). specialize (IH s1).
    destruct (try_loop cfg net rtt name hash start l s1) as [r s'].
    destruct IH as [(-> & pre & c' & post & content & -> & Hpre & Hd & Ha & Hdst)|(-> & Hl & Ha)].
    + left. split; [done|]. exists (c :: pre), c', post, content. split_and!; [done|by constructor|done| |].
      { rewrite Ha. unfold s1. cbn [asked]. by rewrite <- app_assoc. }
      intros Hs Hst. assert (w = seek_to (dst s) start) as Hw by (unfold w; by rewrite Hs).
      rewrite Hdst; [|unfold s1; cbn [dst]; by rewrite Hw|].
      * unfold s1. cbn [dst]. rewrite Hw. f_equal. apply (write_to_prefix (seek_to (dst s) start)); [done|exact Hst].
      * unfold s1. cbn [dst]. rewrite Hw. etrans; [exact Hst|]. apply (write_to_length (seek_to (dst s) start)).
    + right. split_and!; [done|by constructor|]. rewrite Ha. unfold s1. cbn [asked]. by rewrite <- app_assoc.
Qed.

Lemma client_nodes_ids cfg : ID <$> omap id (client_nodes cfg) = Z.of_nat <$> seq 0 (length (Daemons cfg)) ∧ distinct_nodes (client_nodes cfg).
Proof.
  assert (∀ (l : list (bytes * bytes)) k,
    let ns := omap id ((λ i, Some (mkNode (fst i) (Z.of_nat (fst i)) 1 (snd i).1 (snd i).2)) <$> imap (λ j x, pair (k + j)%nat x) l) in
    ID <$> ns = Z.of_nat <$> seq k (length l) ∧ ptr <$> ns = seq k (length l)) as H'.
  { induction l as [|x l IH]; intros k; [done|]. cbn. destruct (IH (S k)) as [I1 I2]. rewrite Nat.add_0_r.
    rewrite (imap_ext _ (λ j x, pair (S k + j)%nat x)) by (intros; cbn; f_equal; lia). by rewrite I1, I2. }
  destruct (H' (Daemons cfg) 0%nat) as [H1 H2]. split; [exact H1|]. unfold distinct_nodes. unfold client_nodes.
  change (ptr <$> omap id ((λ i, Some (mkNode (fst i) (Z.of_nat (fst i)) 1 (snd i).1 (snd i).2)) <$> imap (λ j x, pair (0 + j)%nat x) (Daemons cfg)))
    with (ptr <$> omap id (client_nodes cfg)) in H2. fold (client_nodes cfg). rewrite H2. apply NoDup_ListNoDup, seq_NoDup.
Qed.

Section Fallback.
Context (scoreBits : Z → Z → Z).

Lemma resolve_spec cfg hash serverId :
  Daemons cfg ≠ [] → hash ≠ [] →
  ∃ ns, resolveCRUSHCandidates scoreBits cfg hash serverId = Ok (Some <$> ns) ∧ NoDup (ID <$> ns) ∧ ns ≠ [] ∧
    Z.of_nat (length ns) = Z.min (Z.max 1 (CReplicationFactor cfg)) (Z.of_nat (length (Daemons cfg))).
Proof.
  intros Hd Hh. destruct (client_nodes_ids cfg) as [Hids Hdist]. set (factor := if CReplicationFactor cfg <=? 0 then 1 else CReplicationFactor cfg).
  assert (factor = Z.max 1 (CReplicationFactor cfg)) as Hf by (unfold factor; destruct (Z.leb_spec (CReplicationFactor cfg) 0); lia).
  assert (eligible_nodes (client_nodes cfg) = omap id (client_nodes cfg)) as He.
  { unfold eligible_nodes, client_nodes. generalize (imap pair (Daemons cfg)). intros l. induction l as [|x l IH]; [done|].
    cbn [fmap list_fmap omap list_omap id]. rewrite filter_cons, decide_True by (cbn; lia). f_equal. exact IH. }
  assert (length (omap id (client_nodes cfg)) = length (Daemons cfg)) as Hlen.
  { rewrite <- (length_fmap ID), Hids, length_fmap, length_seq. done. }
  assert (length (Daemons cfg) ≠ 0)%nat as Hl0 by (by destruct (Daemons cfg)).
  destruct (Placement_valid scoreBits (client_nodes cfg) hash factor Hdist Hh ltac:(lia)) as (l & Hp & Hll & Hnd & Hin).
  { rewrite He. intros E. rewrite E in Hlen. cbn in Hlen. lia. }
  rewrite He, Hlen in Hll. exists l. unfold resolveCRUSHCandidates. rewrite !decide_False by done. fold factor. rewrite Hp.
  assert (l ≠ []) as Hne by (intros ->; cbn in Hll; lia). split_and!; [by destruct l| |done|lia].
  assert (ID <$> l = Z.of_nat <$> (ptr <$> l)) as ->.
  { rewrite <- list_fmap_compose. apply list_fmap_ext. intros i n Hi. apply list_elem_of_lookup_2, Hin in Hi as [Hi _].
    unfold client_nodes in Hi. apply list_elem_of_fmap in Hi as (x & [= ->] & _). done. }
  by apply (NoDup_fmap_2 Z.of_nat).
Qed.

(** C8: A download with fallback is as available as the replicas.  For a client with
    daemons, a named digest and no client-side encryption, whatever the reputations and
    the random draws: it succeeds exactly when some replica of the placement serves the
    object; it asks each replica at most once and no other daemon, and all of them before
    it fails; and after a success a destination that can seek (its position within its
    data) holds, from its starting position, the content of one replica that served it.
    What follows that content is not determined: the destination is never truncated, so
    a failed attempt that sent more leaves its tail ([fallback_leaves_tail]), and one
    that cannot seek keeps the parts of both ([fallback_leaves_garbage]). *)
Theorem fallback_complete cfg net rtt draws name hash serverId s :
  Daemons cfg ≠ [] → hash ≠ [] →
  ∃ ns, resolveCRUSHCandidates scoreBits cfg hash serverId = Ok (Some <$> ns) ∧ NoDup (ID <$> ns) ∧
    Z.of_nat (length ns) = Z.min (Z.max 1 (CReplicationFactor cfg)) (Z.of_nat (length (Daemons cfg))) ∧
    let '(r, s') := DownloadWithFallbackRouter scoreBits cfg net rtt draws name hash serverId s in
    (r = Ok tt ↔ ∃ n, n ∈ ns ∧ serves cfg net name hash n) ∧
    ∃ ids, asked s' = asked s ++ ids ∧ NoDup ids ∧ (∀ i, i ∈ ids → i ∈ ID <$> ns) ∧ (r ≠ Ok tt → ids ≡ₚ ID <$> ns) ∧
    (r = Ok tt → ∃ n content, n ∈ ns ∧ download_from (AuthToken cfg) name hash (net (ID n)) = (Ok tt, content) ∧
       (seekable (dst s) = true → (pos (dst s) <= length (data (dst s)))%nat →
          take (pos (dst s) + length content) (data (dst s')) = take (pos (dst s)) (data (dst s)) ++ content)).
Proof.
  intros Hd Hh. destruct (resolve_spec cfg hash serverId Hd Hh) as (ns & Hr & Hnd & Hne & Hlen). exists ns. split_and!; [done..|].
  unfold DownloadWithFallbackRouter. rewrite Hr.
  destruct (PrioritizeReplicas_perm (router s) ns draws Hnd Hne) as (l & rt & -> & Hp).
  assert (match Some <$> l with n :: l0 => n :: l0 | [] => Some <$> ns end = Some <$> l) as ->.
  { destruct l; [|done]. apply Permutation_nil_l in Hp. by subst. }
  unfold tryReplicaDownloads. assert (forallb (λ x : option Node, match x with Some _ => true | None => false end) (Some <$> l) = true
    ∧ omap id (Some <$> l) = l) as [-> ->] by (clear; split; induction l as [|x l IH]; cbn; [done|exact IH|done|f_equal; exact IH]).
  cbn [dst]. pose proof (try_loop_spec cfg net rtt name hash (pos (dst s)) l (mkDl (dst s) rt (asked s))) as Ht.
  destruct (try_loop _ _ _ _ _ _ _ _) as [r s']. cbn [asked dst] in Ht.
  assert (NoDup (ID <$> l)) as Hndl by (by rewrite Hp).
  destruct Ht as [(-> & pre & c & post & content & El & Hpre & Hdl & Ha & Hdst)|(-> & Hl & Ha)].
  - assert (c ∈ ns) as Hc by (rewrite <- Hp, El, elem_of_app; right; left).
    split; [split; [intros _; exists c; split; [done|unfold serves; by rewrite Hdl]|done]|].
    exists (ID <$> pre ++ [c]). split_and!; [done| | |done|].
    + rewrite El in Hndl. replace (pre ++ c :: post) with ((pre ++ [c]) ++ post) in Hndl by (by rewrite <- app_assoc).
      rewrite fmap_app in Hndl. by apply NoDup_app in Hndl as [Hndl _].
    + intros i Hi. rewrite <- Hp, El. replace (pre ++ c :: post) with ((pre ++ [c]) ++ post) by (by rewrite <- app_assoc).
      rewrite fmap_app, elem_of_app. by left.
    + intros _. by exists c, content.
  - split; [split; [done|]|].
    + intros (n & Hn & Hs). exfalso. rewrite <- Hp in Hn. by apply (proj1 (Forall_forall _ _) Hl n Hn).
    + exists (ID <$> l). split_and!; [done|done| |by intros _; rewrite Hp|done]. intros i. by rewrite Hp.
Qed.
End Fallback.

(** ** Examples *)
Definition ex_client : client_cfg := mkClient ex_token [(bs "h0", []); (bs "h1", []); (bs "h2", [])] 2.

(** A daemon's reply to a GET. *)
Definition get_reply (announced : Z) (body : bytes) : bytes := st_ok :: field 64 (append_int announced) ++ body.
Definition ex_net (id : Z) : option bytes :=
  if id =? 0 then Some (get_reply 5 (bs "hel")) else if id =? 1 then Some (get_reply 5 (bs "hello")) else None.
Definition ex_draws (_ : nat) : Z * SpecFloat.spec_float := (0, f64 0).
Definition ex_dl (seek : bool) : dl_state := mkDl (mkWriter [] 0 seek) (NewPheromoneRouter 0) [].

Lemma fallback_complete_witness :
  ∃ ns, resolveCRUSHCandidates ex_score ex_client (bs "ab") 0 = Ok (Some <$> ns) ∧ NoDup (ID <$> ns) ∧ Z.of_nat (length ns) = 2 ∧
    let '(r, s') := DownloadWithFallbackRouter ex_score ex_client ex_net (λ _, 1) ex_draws (bs "f") (bs "ab") 0 (ex_dl true) in
    (r = Ok tt ↔ ∃ n, n ∈ ns ∧ serves ex_client ex_net (bs "f") (bs "ab") n) ∧
    ∃ ids, asked s' = [] ++ ids ∧ NoDup ids ∧ (∀ i, i ∈ ids → i ∈ ID <$> ns) ∧ (r ≠ Ok tt → ids ≡ₚ ID <$> ns) ∧
    (r = Ok tt → ∃ n content, n ∈ ns ∧ download_from (AuthToken ex_client) (bs "f") (bs "ab") (ex_net (ID n)) = (Ok tt, content) ∧
       (true = true → (0 <= 0)%nat → take (0 + length content) (data (dst s')) = [] ++ content)).
Proof.
  exact (fallback_complete ex_score ex_client ex_net (λ _, 1) ex_draws (bs "f") (bs "ab") 0 (ex_dl true) ltac:(discriminate) ltac:(discriminate)).
Defined.

(** The bytes of a replica that fails half way stay in a destination that cannot seek: the
    download succeeds with the parts of both attempts. *)
Example fallback_leaves_garbage :
  let run seek := try_loop ex_client ex_net (λ _, 1) (bs "f") (bs "ab") 0 [mkNode 0 0 1 [] []; mkNode 1 1 1 [] []] (ex_dl seek) in
  (run false).1 = Ok tt ∧ data (dst (run false).2) = bs "helhello" ∧ data (dst (run true).2) = bs "hello".
Proof. split_and!; vm_compute; reflexivity. Qed.

(** A failed attempt that sent more than the content leaves its tail behind it. *)
Definition ex_net_long (id : Z) : option bytes :=
  if id =? 0 then Some (get_reply 9 (bs "longtail")) else if id =? 1 then Some (get_reply 5 (bs "hello")) else None.
Example fallback_leaves_tail :
  let run := try_loop ex_client ex_net_long (λ _, 1) (bs "f") (bs "ab") 0 [mkNode 0 0 1 [] []; mkNode 1 1 1 [] []] (ex_dl true) in
  run.1 = Ok tt ∧ data (dst run.2) = bs "helloail".
Proof. split; vm_compute; reflexivity. Qed.
