(* ===== verification/EndToEnd.v ===== *)
(** * Client and server together

    An upload seen from both ends: the bytes the client sends are the bytes the server
    reads, and the other way round. *)
From S2P Require Import Prelude GoText Float64 Hashes Json Paths ObjectMeta BlobStore RawStore AuditLog CasStore CasTheorems Versioning Lifecycle Notify Crush Protocol Ingest Client.
Open Scope Z_scope.

(** ** Digests are plain text *)
Definition is_hex (c : byte) : bool := (48 <=? b2z c) && (b2z c <=? 57) || (97 <=? b2z c) && (b2z c <=? 102).

Lemma hex_digit_hex n : 0 <= n < 16 → is_hex (hex_digit n) = true.
Proof.
  intros Hn. unfold is_hex, hex_digit. destruct (Z.ltb_spec n 10); rewrite b2z_z2b, Z.mod_small by lia; lia.
Qed.

Lemma hex_encode_hex b : Forall (λ c, is_hex c = true) (hex_encode b).
Proof.
  unfold hex_encode. induction b as [|x b IH]; cbn [map concat]; [constructor|].
  pose proof (b2z_range x) as Hx. repeat constructor; [| |exact IH]; apply hex_digit_hex; [split; [|apply Z.div_lt_upper_bound]|apply Z.mod_pos_bound]; try lia.
  apply Z.div_pos; lia.
Qed.

Lemma is_hex_plain c : is_hex c = true →
  c ≠ ch_nul ∧ c ≠ ch_slash ∧ c ≠ ch_backslash ∧ c ≠ ch_dot ∧ control c = false.
Proof. destruct c; vm_compute; (discriminate || (intros _; repeat split; discriminate)). Qed.

Lemma length_HashBytes c : length (HashBytes c) = 64%nat.
Proof.
  unfold HashBytes, hex_encode. assert (∀ l : bytes, length (concat (map (λ x, [hex_digit (b2z x / 16); hex_digit (b2z x mod 16)]) l)) = (2 * length l)%nat) as Hl.
  { induction l as [|x l IH]; [done|]. cbn. rewrite IH. lia. }
  rewrite Hl, length_sha256. done.
Qed.

Lemma digest_lacks x c : is_hex x = false → x ∉ HashBytes c.
Proof.
  intros Hx Hin. pose proof (hex_encode_hex (sha256 c)) as Hf. rewrite Forall_forall in Hf. specialize (Hf x Hin). congruence.
Qed.

Lemma digest_ok c : hash_ok (HashBytes c).
Proof.
  unfold hash_ok. split_and!; [apply HashBytes_ne|rewrite length_HashBytes; lia|by apply digest_lacks| |].
  - unfold hasControlByte. apply not_true_iff_false. intros (x & Hin & Hx)%existsb_exists. apply list_elem_of_In in Hin.
    destruct (is_hex x) eqn:Eh; [apply is_hex_plain in Eh; naive_solver congruence|by apply (digest_lacks x c)].
  - unfold HasPathTraversalChars. apply orb_false_iff. split.
    + apply not_true_iff_false. intros (x & Hin & Hx)%existsb_exists. apply list_elem_of_In in Hin. rewrite bool_decide_eq_true in Hx.
      destruct Hx as [-> | ->]; by apply (digest_lacks _ c) in Hin.
    + apply bool_decide_eq_false. intros E. pose proof (length_HashBytes c) as Hl. rewrite E in Hl. discriminate.
Qed.

(** ** The two runs *)
Section Runs.
Context {B : Type} `{BlobStore B} `{PutReads B}.
Context (scoreBits : Z → Z → Z).
Implicit Types (n : upload_node B) (e : daemon_env).

(** The node after it stored a new object. *)
Definition stored_node e (name : bytes) (c' : CASStore B) n : upload_node B :=
  let n := with_ncas c' n in
  let now := clock (henv e) in
  mkNodeState (nstore n)
    (WriteAuditLog (naudit n) (mkAudit 0 [] (bs "put") (bs "PutObject") name (bs "success") (append_int now) [] []) now)
    (npeer n) (ncalls n) (forwards n) (posted n).

Lemma getFile_new e n name content rp c' rest o :
  hasInternal (ncas n) (HashBytes content) = false → put_reads (blobs (ncas n)) (HashBytes content) = true →
  Put (ncas n) name (HashBytes content) (Z.of_nat (length content)) rp (Some (reader_of content)) (clock (henv e)) = (Ok tt, c') →
  getFile e native name (HashBytes content) (Z.of_nat (length content)) rp (mkConn (content ++ rest) o, n) =
    (Ok tt, (mkConn rest o, stored_node e name c' n)).
Proof.
  intros Hn Hr Hp. unfold getFile. set (h := HashBytes content) in *.
  erewrite bind_ok.
  2:{ rewrite io_spec. cbn [c_read native]. unfold limit_read. cbn [inp outp fst snd]. rewrite Nat2Z.id, take_app_length, drop_app_length. reflexivity. }
  erewrite bind_ok by reflexivity. cbn [snd].
  erewrite bind_ok by (unfold on_error, cas_put; erewrite bind_ok by reflexivity; cbn [snd]; rewrite Hp; reflexivity).
  assert (hashed (ncas n) h (reader_of content) = content) as ->.
  { unfold hashed. rewrite Hn, Hr. cbn. apply app_nil_r. }
  rewrite bool_decide_eq_true_2 by (unfold h; reflexivity). reflexivity.
Qed.

(** A server that stores a new object without replication: what it reads, writes and keeps. *)
Lemma upload_new e n requested ts fts name content c' p rest o :
  select_mode e native (npeer n) requested ts = (ReplicationNone, fts) →
  name ≠ [] → (length name <= 64)%nat → ch_nul ∉ name → crlf name = false → ValidatePath name = Ok tt →
  Z.of_nat (length content) <= MaxFileSize →
  hasInternal (ncas n) (HashBytes content) = false → put_reads (blobs (ncas n)) (HashBytes content) = true →
  Placement scoreBits (crush_nodes e) (HashBytes content) 1 = Ok p →
  Put (ncas n) name (HashBytes content) (Z.of_nat (length content)) (remote_dir name) (Some (reader_of content)) (clock (henv e)) = (Ok tt, c') →
  upload scoreBits e native requested ts
    (mkConn (metadata_packet (HashBytes content) name (Z.of_nat (length content)) ++ content ++ rest) o, n) =
    (Ok tt, (mkConn rest (o ++ [Byte.x30; Byte.x01]), stored_node e name c' n)).
Proof.
  intros Hsel Hne Hl Hnul Hcr Hv Hmax Hnew Hreads Hpl Hput.
  set (size := Z.of_nat (length content)) in *. set (m := mkFile name (HashBytes content) size [] 0).
  pose proof (digest_ok content) as (D1 & D2 & D3 & D4 & D5).
  assert (ReceiveMetadata (mkConn (metadata_packet (HashBytes content) name size ++ content ++ rest) (o ++ [Byte.x30]), tt)
    = (Ok m, (mkConn (content ++ rest) (o ++ [Byte.x30]), tt))) as Hrm.
  { apply received; [done|done|done|done|apply digest_ok|unfold is_int64, MaxFileSize, size in *; lia]. }
  assert (check_metadata m = Ok tt) as Hck.
  { unfold check_metadata, m. cbn [Hash Name FSize]. rewrite bool_decide_eq_false_2 by done.
    rewrite !contains_byte_spec, !bool_decide_eq_false_2 by (by apply digest_lacks). cbn [orb].
    rewrite decide_False, Hv by done. rewrite (proj2 (orb_false_iff _ _)); [done|]. rewrite !Z.ltb_ge. unfold size in *. lia. }
  assert (canDedup n m = Ok false) as Hcd.
  { unfold canDedup, Has, m. cbn [Hash Name]. by rewrite D5, Hnew. }
  unfold upload. erewrite bind_ok by reflexivity. cbn [snd]. rewrite Hsel. cbv beta iota.
  erewrite bind_ok by (rewrite io_spec; reflexivity). cbn [fst snd].
  erewrite bind_ok. 2:{ rewrite io_spec. cbn [c_ReceiveMetadata native]. erewrite bind_ok by exact Hrm. reflexivity. }
  cbv beta iota. rewrite Hck. erewrite bind_ok by reflexivity. erewrite bind_ok by reflexivity. cbn [snd].
  rewrite Hcd. erewrite bind_ok by reflexivity.
  erewrite bind_ok by (rewrite io_spec; reflexivity). cbn [fst snd]. change (ReplicationNone =? ReplicationNone) with true.
  cbv iota. change (Hash m) with (HashBytes content). rewrite Hpl. erewrite bind_ok by reflexivity.
  change (forward_targets e native ReplicationNone p) with (Some (@nil Z)). cbv iota.
  erewrite bind_ok.
  2:{ unfold store_object. change (Name m) with name. change (FSize m) with size. change (Hash m) with (HashBytes content).
      cbv iota. erewrite bind_ok by (by apply getFile_new). reflexivity. }
  replace (o ++ [Byte.x30; Byte.x01]) with ((o ++ [Byte.x30]) ++ [Byte.x01]) by (by rewrite <- app_assoc). reflexivity.
Qed.

(** The handshake of a client that holds the token. *)
Lemma handshake_run e n token ts requested m rest :
  useChallengeResp (henv e) = false → expectedAuthToken (henv e) = field AuthTokenLength token →
  is_int64 ts → (length (append_int ts) <= TimestampLength)%nat → checkHandshakeTimestampFresh ts (clock (henv e)) = true →
  encodeRequestedModeByte requested = Ok m → 0 <= requested <= 9 →
  on_server (HandshakeServer (henv e)) (mkConn (hello token ts m ++ rest) [], n) =
    (Ok (Some (requested, ts)), (mkConn rest [], mkNodeState (nstore n) (naudit n) false (ncalls n) (forwards n) (posted n))).
Proof.
  intros Hc He Hts Hl Hf Hm Hr. destruct (mode_roundtrip _ _ Hm) as [Dm _]. unfold on_server, HandshakeServer.
  erewrite bind_ok. 2:{ rewrite authenticate_hello by done. unfold role. rewrite He, decide_True, Hf, Dm by done. reflexivity. }
  unfold ModeList, ModeDelete, ModeGet, ModeOPRFEval.
  rewrite (proj2 (Z.eqb_neq _ 76)), (proj2 (Z.eqb_neq _ 68)), (proj2 (Z.eqb_neq _ 71)), (proj2 (Z.eqb_neq _ 79)) by lia.
  cbn [sstore saudit isPeer calls]. by destruct n as [[[[c v h] lf sm] nt] a pr cl fw po].
Qed.

(** The client that is answered with the mode 0, a request for the payload and an
    acknowledgement. *)
Lemma client_run cfg fileName content remotePath wireName target ts requested rf m id :
  (0 <= target < Z.of_nat (length (Daemons cfg))) → (length (AuthToken cfg) <= AuthTokenLength)%nat →
  (length (append_int ts) <= TimestampLength)%nat → encodeRequestedModeByte requested = Ok m →
  meta_name fileName remotePath = Ok wireName → check_wire_name wireName = Ok tt →
  client_Connect scoreBits false cfg (λ i, if i =? target then Some ([Byte.x30; Byte.x01] ++ ack ++ [id]) else None) fileName content remotePath target ts requested rf =
    (Ok tt, [mkTransfer target (hello (AuthToken cfg) ts m ++ metadata_packet (HashBytes content) wireName (Z.of_nat (length content)) ++ content) true]).
Proof.
  intros Ht Hl Hts Hm Hn Hck. unfold client_Connect. rewrite (proj2 (orb_false_iff _ _)) by (rewrite Z.ltb_ge, Z.leb_gt; lia).
  unfold open_conn. rewrite Z.eqb_refl. unfold HandshakeClient. rewrite Hm.
  erewrite bind_ok by (by apply send_hello_plain). cbn [inp outp app].
  erewrite bind_ok by (apply (ReadFull_app 1 (Errno EBADMSG) [Byte.x30]); reflexivity).
  assert (SafeParseInt [Byte.x30] = Ok 0) as E0 by (vm_compute; reflexivity). rewrite E0.
  cbv [mret M_ret]. change (0 =? ReplicationPrimarySplay) with false. cbv iota. rewrite Hn.
  assert (length wireName <= 64)%nat as Hw.
  { unfold check_wire_name, FileInfoLength in Hck. destruct (Z.ltb_spec 64 (Z.of_nat (length wireName))); [done|]. lia. }
  rewrite (proj2 (Z.ltb_ge _ _)) by (unfold FileInfoLength; lia). cbn [fmap list_fmap]. do 2 f_equal.
  unfold send_one, sendFileStream. cbn [fst snd].
  set (h := hello (AuthToken cfg) ts m). set (pk := metadata_packet _ _ _).
  erewrite bind_ok.
  2:{ unfold SendMetadata. cbn [Name RemotePath Hash FSize].
      erewrite bind_ok by (unfold lift; by rewrite Hn). erewrite bind_ok by (unfold lift; by rewrite Hck).
      fold pk. erewrite bind_ok by reflexivity. erewrite bind_ok by reflexivity. reflexivity. }
  cbn [take drop inp outp]. change (b2z Byte.x01 =? MetadataStatusSkipPayload) with false. cbv iota.
  erewrite bind_ok by reflexivity. cbn [drop inp outp]. unfold ReceiveACK. erewrite bind_ok by reflexivity.
  rewrite decide_True by done. cbv [mret M_ret]. cbn [outp]. by rewrite <- app_assoc.
Qed.

(** C7: An upload works from end to end: let a client that holds the token of a daemon, with a
    clock close to the daemon's, upload a file under a legal name to a daemon that does not
    replicate, and let the backend take content it does not have.  Then the bytes the client
    sends make the daemon store the content under the name and answer, and these answers
    make the client send exactly those bytes and count the upload as acknowledged. *)
Theorem upload_end_to_end e n cfg fileName content remotePath wireName target ts requested rf p c' :
  useChallengeResp (henv e) = false → expectedAuthToken (henv e) = field AuthTokenLength (AuthToken cfg) →
  (length (AuthToken cfg) <= AuthTokenLength)%nat → 0 <= target < Z.of_nat (length (Daemons cfg)) →
  is_int64 ts → (length (append_int ts) <= TimestampLength)%nat → checkHandshakeTimestampFresh ts (clock (henv e)) = true →
  0 <= requested <= 9 → RNew (repState e) = ReplicationNone → 0 <= serverId e <= 255 →
  meta_name fileName remotePath = Ok wireName → check_wire_name wireName = Ok tt → wireName ≠ [] → ch_nul ∉ wireName →
  ValidatePath wireName = Ok tt → Z.of_nat (length content) <= MaxFileSize →
  hasInternal (ncas n) (HashBytes content) = false → put_reads (blobs (ncas n)) (HashBytes content) = true →
  Placement scoreBits (crush_nodes e) (HashBytes content) 1 = Ok p →
  Put (ncas n) wireName (HashBytes content) (Z.of_nat (length content)) (remote_dir wireName) (Some (reader_of content)) (clock (henv e)) = (Ok tt, c') →
  ∃ sent reply n',
    serve scoreBits e native (mkConn sent [], n) = (Ok true, (mkConn [] reply, n')) ∧ ncas n' = c' ∧
    GetHashForName c' wireName = Ok (HashBytes content) ∧
    client_Connect scoreBits false cfg (λ i, if i =? target then Some reply else None) fileName content remotePath target ts requested rf =
      (Ok tt, [mkTransfer target sent true]).
Proof.
  intros Hc He Hl Ht Hts Htl Hf Hr Hrep Hid Hn Hck Hne Hnul Hv Hmax Hnew Hreads Hpl Hput.
  destruct (mode_encodes requested ltac:(by left)) as [m Hm].
  set (pk := metadata_packet (HashBytes content) wireName (Z.of_nat (length content))).
  set (n1 := mkNodeState (nstore n) (naudit n) false (ncalls n) (forwards n) (posted n)).
  exists (hello (AuthToken cfg) ts m ++ pk ++ content), ([Byte.x30; Byte.x01] ++ ack ++ [z2b (serverId e)]), (stored_node e wireName c' n1).
  assert (length wireName <= 64)%nat as Hw.
  { unfold check_wire_name, FileInfoLength in Hck. destruct (Z.ltb_spec 64 (Z.of_nat (length wireName))); [done|]. lia. }
  assert (crlf wireName = false) as Hcr by (unfold check_wire_name in Hck; destruct (_ <? _); [done|]; by destruct (crlf wireName)).
  split_and!; [|done|exact (Put_GetHash _ _ _ _ _ _ _ _ Hput)|by apply client_run].
  unfold serve. erewrite bind_ok by (by apply handshake_run). cbv beta iota. fold n1. unfold acknowledge, pk.
  replace content with (content ++ []) at 3 by apply app_nil_r.
  erewrite upload_new; [|unfold select_mode; cbn [n1 npeer negb]; rewrite Hrep; reflexivity|done|done|done|done|done|done|done|done|exact Hpl|exact Hput].
  rewrite io_spec. cbn [c_SendACK native]. unfold SendACK. rewrite (proj2 (orb_false_iff _ _)) by (rewrite !Z.ltb_ge; lia). reflexivity.
Qed.
End Runs.

(** ** Examples *)
Lemma upload_end_to_end_witness :
  ∃ sent reply n',
    serve ex_score (ex_daemon 0 1 0 (λ _, FwOk)) native (mkConn sent [], ex_node) = (Ok true, (mkConn [] reply, n')) ∧
    ncas n' = (Put ex1 (bs "dir/f") (HashBytes ex_body2) 11 (remote_dir (bs "dir/f")) (Some (reader_of ex_body2)) (10 ^ 18)).2 ∧
    GetHashForName (Put ex1 (bs "dir/f") (HashBytes ex_body2) 11 (remote_dir (bs "dir/f")) (Some (reader_of ex_body2)) (10 ^ 18)).2 (bs "dir/f") = Ok (HashBytes ex_body2) ∧
    client_Connect ex_score false ex_client (λ i, if i =? 1 then Some reply else None) (bs "f") ex_body2 (bs "dir") 1 (10 ^ 18) 0 1 =
      (Ok tt, [mkTransfer 1 sent true]).
Proof.
  apply (upload_end_to_end ex_score (ex_daemon 0 1 0 (λ _, FwOk)) ex_node ex_client (bs "f") ex_body2 (bs "dir") (bs "dir/f") 1 (10 ^ 18) 0 1
           [mkNode 0 0 1 [] []]);
    [done|reflexivity|vm_compute; lia|done|done|vm_compute; lia|vm_compute; reflexivity|done|done|done|vm_compute; reflexivity|vm_compute; reflexivity
    |done|apply (bool_decide_unpack _); vm_compute; exact I|vm_compute; reflexivity|vm_compute; discriminate|vm_compute; reflexivity|done
    |vm_compute; reflexivity|apply run_ok; vm_compute; reflexivity].
Defined.

(** [Connect] reports no error for a transfer that was not acknowledged, for a name that is
    too long to send, nor for a daemon that does not exist. *)
Example upload_errors_hidden :
  let net i := if i =? 1 then Some [Byte.x30; Byte.x01] else None in
  let up name target := client_Connect ex_score false ex_client net name ex_body2 [] target (10 ^ 18) 0 1 in
  (λ x, (x.1, t_acked <$> x.2)) (up (bs "f") 1) = (Ok tt, [false]) ∧
  up (replicate 65 Byte.x61) 1 = (Ok tt, []) ∧ up (bs "f") 7 = (Ok tt, []).
Proof. split_and!; vm_compute; reflexivity. Qed.
