(* ===== verification/Crypto.v ===== *)
(** * Encryption (src/src/crypto: crypto.go, streaming.go, envelope.go)

    [Cipher] with its one-shot and streaming operations, the stream formats 2,
    3 and 4, the self-describing envelope, and the key derivation and wrapping
    of tenants.  AES-256-GCM and HKDF are the executable functions of [Aes];
    random bytes are arguments, [Err] where the random source fails.  A reader
    is its bytes and how it ends, a writer is what was written so far and,
    optionally, the write that fails. *)
From S2P Require Import Prelude GoText Hashes Aes.
Open Scope Z_scope.

(** ** io.Reader, io.ReadFull, io.Writer *)
Record source := Source { sdata : bytes; sterm : option error }.

(** A [reader] seen by [io.ReadFull]: how it cuts its chunks does not matter. *)
Definition source_of (r : reader) : source := Source (concat (rd_chunks r)) (rd_err r).

Inductive read_full :=
  | RdFull (b : bytes) (rest : source)   (* err == nil *)
  | RdShort (b : bytes)                  (* io.ErrUnexpectedEOF after [b] *)
  | RdEOF                                (* io.EOF *)
  | RdErr (e : error).

(** [io.ReadFull] into a buffer of [n] bytes.  The end of the data before the
    buffer is full is [io.EOF] or [io.ErrUnexpectedEOF]; an error of the reader
    is passed on as it is, [io.ErrUnexpectedEOF] included. *)
Definition readFull (n : nat) (s : source) : read_full :=
  if (n <=? length (sdata s))%nat then RdFull (take n (sdata s)) (Source (drop n (sdata s)) (sterm s))
  else match sterm s with
       | None => match sdata s with [] => RdEOF | b => RdShort b end
       | Some ErrUnexpectedEOF => RdShort (sdata s)
       | Some e => RdErr e
       end.

(** The error a caller wraps that treats every short read alike. *)
Definition needFull (n : nat) (s : source) : result (bytes * source) :=
  match readFull n s with
  | RdFull b rest => Ok (b, rest)
  | RdShort _ => Err ErrUnexpectedEOF
  | RdEOF => Err ErrEOF
  | RdErr e => Err e
  end.

(** [fault = Some (n, e)]: the [n]-th write from now fails with [e]. *)
Record sink := Sink { written : bytes; fault : option (nat * error) }.

Definition Write (b : bytes) (k : sink) : result unit * sink :=
  match fault k with
  | None => (Ok tt, Sink (written k ++ b) None)
  | Some (O, e) => (Err e, k)
  | Some (S n, e) => (Ok tt, Sink (written k ++ b) (Some (n, e)))
  end.

(** Sequencing of operations that may fail and write to a sink. *)
Definition andThen {A B} (m : result A * sink) (f : A → sink → result B * sink) : result B * sink :=
  match m with (Ok a, k) => f a k | (Err e, k) => (Err e, k) end.
Notation "'do!' ( a , k ) ':=' m 'in' f" := (andThen m (λ a k, f))
  (at level 200, a name, k name, m at level 100, f at level 200) : momo_scope.

(** ** Cipher *)
Definition KeySize : Z := 32.
Definition NonceSize : Z := 12.
Definition TagSize : Z := 16.
Definition MaxKeyHexSize : Z := 64.

Definition ChunkSize : Z := 4096.
Definition MinChunkSize : Z := 512.
Definition ChunkHeader : Z := 4.
Definition MaxChunkSize : Z := ChunkSize + ChunkHeader + NonceSize + TagSize.
Definition streamSeedSize : nat := 8.

Record Cipher := mkCipher { ckey : bytes; chunkSize : Z }.

Definition NewCipher (key : bytes) : result Cipher :=
  if negb (Z.of_nat (length key) =? KeySize) then Err ErrPlain
  else Ok (mkCipher key ChunkSize).

Definition SetStreamChunkSize (c : Cipher) (n : Z) : result unit * Cipher :=
  if (n <? MinChunkSize) || (n >? MaxChunkSize) then (Err (Errno EINVAL), c)
  else (Ok tt, mkCipher (ckey c) n).

Definition NewCipherFromHex (hexKey : bytes) : result Cipher :=
  if negb (Z.of_nat (length hexKey) =? MaxKeyHexSize) then Err ErrPlain
  else match hex_decode hexKey with
       | None => Err ErrPlain
       | Some key => NewCipher key
       end.

(** [nonce] is what the random source gave. *)
Definition Encrypt (c : Cipher) (nonce : result bytes) (plaintext : bytes) : result bytes :=
  let! nonce := nonce in
  Ok (nonce ++ Seal (ckey c) nonce plaintext []).

Definition Decrypt (c : Cipher) (ciphertext : bytes) : result bytes :=
  if Z.of_nat (length ciphertext) <? NonceSize + TagSize then Err ErrPlain
  else
    let nonce := take (Z.to_nat NonceSize) ciphertext in
    let sealed := drop (Z.to_nat NonceSize) ciphertext in
    match Open (ckey c) nonce sealed [] with
    | None => Err ErrTampered
    | Some plaintext => Ok plaintext
    end.

Definition GenerateKey (random : result bytes) : result bytes := random.

(** ** Key derivation *)
Definition appendUint32 (dst : bytes) (v : Z) : bytes :=
  dst ++ [z2b (Z.shiftr v 24); z2b (Z.shiftr v 16); z2b (Z.shiftr v 8); z2b v].

(** The domain-separated HKDF info of [DeriveKey]. *)
Definition derive_info (tenant context : bytes) : bytes :=
  let buf := appendUint32 [] (uint32 (Z.of_nat (length tenant))) in
  let buf := buf ++ tenant in
  let buf := appendUint32 buf (uint32 (Z.of_nat (length context))) in
  buf ++ context.

Definition DeriveKey (masterKey tenant context : bytes) : result bytes :=
  if negb (Z.of_nat (length masterKey) =? KeySize) then Err ErrPlain
  else Ok (hkdf_Key masterKey (derive_info tenant context)).

Definition DomainToken : bytes := bs "momo/token".
Definition DomainContent : bytes := bs "momo/content".
Definition DomainAtRest : bytes := bs "momo/atrest".
Definition DomainOPRF : bytes := bs "momo/oprf".

Definition TenantKEKSize : Z := 32.
Definition TenantOPRFShareSize : Z := 32.

Definition DomainTenantKEK : bytes := bs "momo/tenant/kek".
Definition DomainTenantOPRFShare : bytes := bs "momo/tenant/oprf".
Definition DomainTenantAuthToken : bytes := bs "momo/tenant/auth".

Record TenantKeys := mkTenantKeys { KEK : bytes; OPRFShare : bytes; AuthToken : bytes }.

Definition appendDomainTenantLabel (domain tenantID : bytes) : bytes :=
  appendUint32 domain (uint32 (Z.of_nat (length tenantID))) ++ tenantID.

Definition DeriveTenantKeys (rootKEK tenantID : bytes) : result TenantKeys :=
  if negb (Z.of_nat (length rootKEK) =? KeySize) then Err ErrPlain
  else Ok (mkTenantKeys
             (hkdf_Key rootKEK (appendDomainTenantLabel DomainTenantKEK tenantID))
             (hkdf_Key rootKEK (appendDomainTenantLabel DomainTenantOPRFShare tenantID))
             (hkdf_Key rootKEK (appendDomainTenantLabel DomainTenantAuthToken tenantID))).

Definition DeriveTenantOPRFShare (rootShare tenantID : bytes) : result bytes :=
  if negb (Z.of_nat (length rootShare) =? TenantOPRFShareSize) then Err ErrPlain
  else Ok (hkdf_Key rootShare (appendDomainTenantLabel DomainTenantOPRFShare tenantID)).

(** ** Wrapping of tenant keys *)

(** [copy(nonce, []byte("momo-wrap"))] into twelve zero bytes. *)
Definition wrap_nonce : bytes := bs "momo-wrap" ++ replicate 3 Byte.x00.

Definition wrap_aad (tenantID : bytes) : bytes := bs "tenant-wrap" ++ tenantID.

Definition WrapTenantKEK (rootKEK tenantKEK tenantID : bytes) : result bytes :=
  if negb (Z.of_nat (length rootKEK) =? KeySize) || negb (Z.of_nat (length tenantKEK) =? TenantKEKSize)
  then Err ErrPlain
  else Ok (Seal rootKEK wrap_nonce tenantKEK (wrap_aad tenantID)).

Definition UnwrapTenantKEK (rootKEK wrappedKEK tenantID : bytes) : result bytes :=
  if negb (Z.of_nat (length rootKEK) =? KeySize) then Err ErrPlain
  else match Open rootKEK wrap_nonce wrappedKEK (wrap_aad tenantID) with
       | None => Err ErrTampered
       | Some plaintext =>
           if negb (Z.of_nat (length plaintext) =? TenantKEKSize) then Err ErrPlain else Ok plaintext
       end.

Definition RotateTenantKEK (oldRootKEK newRootKEK wrappedTenantKEK tenantID : bytes) : result bytes :=
  let! tenantKEK := UnwrapTenantKEK oldRootKEK wrappedTenantKEK tenantID in
  WrapTenantKEK newRootKEK tenantKEK tenantID.

(** ** EncryptStream *)
Definition StreamVersion : byte := Byte.x04.
Definition StreamVersionLegacy3 : byte := Byte.x03.
Definition StreamVersionLegacy2 : byte := Byte.x02.
Definition footerNonceIndex : Z := 4294967295.
Definition streamFooterAAD : bytes := bs "momo:stream-footer:v1".

Definition ErrStreamFormat : error := Errno EBADMSG.
Definition ErrStreamTruncated : error := Errno EIO.

(** The nonce of a chunk: the seed, then the chunk index. *)
Definition chunk_nonce (seed : bytes) (index : Z) : bytes := seed ++ put_be 4 index.

Definition footerNonce (seed : bytes) : bytes := chunk_nonce seed footerNonceIndex.

(** A sealed chunk with its length prefix, in two writes. *)
Definition write_chunk (sealed : bytes) (k : sink) : result unit * sink :=
  do! (_u, k) := Write (put_be 4 (uint32 (Z.of_nat (length sealed)))) k in
  Write sealed k.

Definition writeStreamFooter (c : Cipher) (seed : bytes) (chunkCount : Z) (k : sink) : result unit * sink :=
  write_chunk (Seal (ckey c) (footerNonce seed) (put_be 4 chunkCount) streamFooterAAD) k.

(** The chunk loop; it returns the chunk count. *)
Fixpoint encrypt_loop (fuel : nat) (c : Cipher) (seed : bytes) (chunk : nat) (chunkIndex : Z)
    (plaintext : source) (k : sink) : result Z * sink :=
  match fuel with
  | O => (Err ErrPlain, k)
  | S fuel' =>
      match readFull chunk plaintext with
      | RdEOF => (Ok chunkIndex, k)
      | RdErr e => (Err e, k)
      | RdShort b =>
          do! (_u, k) := write_chunk (Seal (ckey c) (chunk_nonce seed chunkIndex) b []) k in
          (Ok (uint32 (chunkIndex + 1)), k)
      | RdFull b rest =>
          do! (_u, k) := write_chunk (Seal (ckey c) (chunk_nonce seed chunkIndex) b []) k in
          encrypt_loop fuel' c seed chunk (uint32 (chunkIndex + 1)) rest k
      end
  end.

Definition stream_header (chunk : Z) : bytes := [StreamVersion; z2b (Z.shiftr chunk 8); z2b chunk].

Definition effective_chunk (c : Cipher) : Z :=
  if (chunkSize c <? MinChunkSize) || (chunkSize c >? MaxChunkSize) then ChunkSize else chunkSize c.

Definition EncryptStream (c : Cipher) (seed : result bytes) (plaintext : source) (k : sink) : result unit * sink :=
  let chunk := effective_chunk c in
  do! (_u, k) := Write (stream_header chunk) k in
  match seed with
  | Err e => (Err e, k)
  | Ok seed =>
      do! (_u, k) := Write seed k in
      do! (chunkIndex, k) :=
        encrypt_loop (S (length (sdata plaintext))) c seed (Z.to_nat chunk) 0 plaintext k in
      writeStreamFooter c seed chunkIndex k
  end.

(** ** DecryptStream *)
Definition readChunkLen (r : source) : result (Z * source) :=
  let! (lenBuf, rest) := needFull (Z.to_nat ChunkHeader) r in
  Ok (get_be lenBuf, rest).

(** The footer: it must hold the number of chunks decoded. *)
Definition check_footer (key seed sealed : bytes) (chunkIndex : Z) : result unit :=
  match Open key (footerNonce seed) sealed streamFooterAAD with
  | None => Err ErrTampered
  | Some plaintext =>
      if negb (length plaintext =? 4)%nat then Err ErrStreamFormat
      else if negb (get_be plaintext =? chunkIndex) then Err ErrStreamFormat
      else Ok tt
  end.

(** The loop of [decryptStreamV4] and [decryptStreamV3]. *)
Fixpoint decrypt_loop (fuel : nat) (key seed : bytes) (chunkIndex : Z) (ciphertext : source) (k : sink)
    : result unit * sink :=
  match fuel with
  | O => (Err ErrPlain, k)
  | S fuel' =>
      match readChunkLen ciphertext with
      | Err ErrEOF => (Err ErrStreamTruncated, k)
      | Err e => (Err e, k)
      | Ok (sealedLen, rest) =>
          if sealedLen >? MaxChunkSize then (Err ErrStreamFormat, k)
          else if sealedLen =? 0 then (Err ErrStreamFormat, k)
          else match needFull (Z.to_nat sealedLen) rest with
               | Err e => (Err e, k)
               | Ok (sealed, rest) =>
                   match Open key (chunk_nonce seed chunkIndex) sealed [] with
                   | None => (check_footer key seed sealed chunkIndex, k)
                   | Some plaintext =>
                       do! (_u, k) := Write plaintext k in
                       decrypt_loop fuel' key seed (uint32 (chunkIndex + 1)) rest k
                   end
               end
      end
  end.

(** The loop of [decryptStreamLegacy]: the end of the data ends the stream. *)
Fixpoint legacy_loop (fuel : nat) (key seed : bytes) (chunkIndex : Z) (ciphertext : source) (k : sink)
    : result unit * sink :=
  match fuel with
  | O => (Err ErrPlain, k)
  | S fuel' =>
      match readChunkLen ciphertext with
      | Err ErrEOF => (Ok tt, k)
      | Err e => (Err e, k)
      | Ok (sealedLen, rest) =>
          if (sealedLen =? 0) || (sealedLen >? MaxChunkSize) then (Err ErrStreamFormat, k)
          else match needFull (Z.to_nat sealedLen) rest with
               | Err e => (Err e, k)
               | Ok (sealed, rest) =>
                   match Open key (chunk_nonce seed chunkIndex) sealed [] with
                   | None => (Err ErrTampered, k)
                   | Some plaintext =>
                       do! (_u, k) := Write plaintext k in
                       legacy_loop fuel' key seed (uint32 (chunkIndex + 1)) rest k
                   end
               end
      end
  end.

Definition decryptStreamV4 (c : Cipher) (ciphertext : source) (k : sink) : result unit * sink :=
  match needFull (streamSeedSize + 2) ciphertext with
  | Err e => (Err e, k)
  | Ok (head, rest) =>
      let declared := get_be (take 2 head) in
      if (declared <? MinChunkSize) || (declared >? MaxChunkSize) then (Err ErrStreamFormat, k)
      else decrypt_loop (S (length (sdata rest))) (ckey c) (drop 2 head) 0 rest k
  end.

Definition decryptStreamV3 (c : Cipher) (ciphertext : source) (k : sink) : result unit * sink :=
  match needFull streamSeedSize ciphertext with
  | Err e => (Err e, k)
  | Ok (seed, rest) => decrypt_loop (S (length (sdata rest))) (ckey c) seed 0 rest k
  end.

Definition decryptStreamLegacy (c : Cipher) (ciphertext : source) (k : sink) : result unit * sink :=
  match needFull streamSeedSize ciphertext with
  | Err e => (Err e, k)
  | Ok (seed, rest) => legacy_loop (S (length (sdata rest))) (ckey c) seed 0 rest k
  end.

Definition DecryptStream (c : Cipher) (ciphertext : source) (k : sink) : result unit * sink :=
  match needFull 1 ciphertext with
  | Err e => (Err e, k)
  | Ok (versionBuf, rest) =>
      let v := hd Byte.x00 versionBuf in
      if decide (v = StreamVersion) then decryptStreamV4 c rest k
      else if decide (v = StreamVersionLegacy3) then decryptStreamV3 c rest k
      else if decide (v = StreamVersionLegacy2) then decryptStreamLegacy c rest k
      else (Err ErrStreamFormat, k)
  end.

(** ** Envelopes *)
Definition EnvelopeMagic : bytes := bs "MOMOENV1".
Definition EnvelopeVersion : byte := Byte.x01.
Definition EnvelopeAlgoAES256GCM : byte := Byte.x01.
Definition envelopeMaxKeyIDLen : Z := 256.
Definition envelopeMaxWrappedKeyLen : Z := 1024.
Definition envelopeMagicLen : nat := 8.
Definition envelopeFixedLen : nat := 6.

Record EnvelopeMeta := mkEnvelopeMeta { env_version : byte; env_algorithm : byte; env_keyID : bytes }.

Definition uint16 (z : Z) : Z := z mod 2 ^ 16.

Definition writeEnvelopeHeader (version algorithm : byte) (keyID wrappedKey : bytes) (k : sink) : result unit * sink :=
  do! (_u, k) := Write EnvelopeMagic k in
  if Z.of_nat (length wrappedKey) >? envelopeMaxWrappedKeyLen then (Err (Errno EINVAL), k)
  else Write ([version; algorithm] ++ put_be 2 (uint16 (Z.of_nat (length keyID)))
              ++ put_be 2 (uint16 (Z.of_nat (length wrappedKey))) ++ keyID ++ wrappedKey) k.

(** The random bytes in the order they are drawn: the data key, the nonce of
    its wrapping, the stream seed. *)
Definition EncryptEnvelope (dataKey nonce seed : result bytes) (plaintext : source) (masterKey keyID : bytes)
    (k : sink) : result unit * sink :=
  if negb (Z.of_nat (length masterKey) =? KeySize) then (Err ErrPlain, k)
  else if Z.of_nat (length keyID) >? envelopeMaxKeyIDLen then (Err (Errno EINVAL), k)
  else match GenerateKey dataKey with
  | Err e => (Err e, k)
  | Ok dataKey =>
  match NewCipher masterKey with
  | Err e => (Err e, k)
  | Ok wrapCipher =>
  match Encrypt wrapCipher nonce dataKey with
  | Err e => (Err e, k)
  | Ok wrappedKey =>
      do! (_u, k) := writeEnvelopeHeader EnvelopeVersion EnvelopeAlgoAES256GCM keyID wrappedKey k in
      match NewCipher dataKey with
      | Err e => (Err e, k)
      | Ok dataCipher => EncryptStream dataCipher seed plaintext k
      end
  end end end.

Definition env_zero : EnvelopeMeta := mkEnvelopeMeta Byte.x00 Byte.x00 [].

Definition DecryptEnvelope (src : source) (masterKey : bytes) (k : sink) : (EnvelopeMeta * result unit) * sink :=
  if negb (Z.of_nat (length masterKey) =? KeySize) then ((env_zero, Err ErrPlain), k)
  else match needFull (envelopeMagicLen + envelopeFixedLen) src with
  | Err e => ((env_zero, Err e), k)
  | Ok (prefix, src) =>
      if decide (take envelopeMagicLen prefix ≠ EnvelopeMagic) then ((env_zero, Err ErrPlain), k)
      else
        let version := nth envelopeMagicLen prefix Byte.x00 in
        let algorithm := nth (envelopeMagicLen + 1) prefix Byte.x00 in
        let meta := mkEnvelopeMeta version algorithm [] in
        if decide (version ≠ EnvelopeVersion) then ((meta, Err (Errno EBADMSG)), k)
        else if decide (algorithm ≠ EnvelopeAlgoAES256GCM) then ((meta, Err (Errno EBADMSG)), k)
        else
          let keyIDLen := get_be (slice (envelopeMagicLen + 2) (envelopeMagicLen + 4) prefix) in
          let wrappedLen := get_be (slice (envelopeMagicLen + 4) (envelopeMagicLen + 6) prefix) in
          if (keyIDLen >? envelopeMaxKeyIDLen) || (wrappedLen >? envelopeMaxWrappedKeyLen)
          then ((meta, Err (Errno EBADMSG)), k)
          else match needFull (Z.to_nat (keyIDLen + wrappedLen)) src with
          | Err e => ((meta, Err e), k)
          | Ok (body, src) =>
              let meta := mkEnvelopeMeta version algorithm (take (Z.to_nat keyIDLen) body) in
              let wrappedKey := drop (Z.to_nat keyIDLen) body in
              match NewCipher masterKey with
              | Err e => ((meta, Err e), k)
              | Ok wrapCipher =>
              match Decrypt wrapCipher wrappedKey with
              | Err e => ((meta, Err e), k)
              | Ok dataKey =>
              match NewCipher dataKey with
              | Err e => ((meta, Err e), k)
              | Ok dataCipher => let '(r, k) := DecryptStream dataCipher src k in ((meta, r), k)
              end end end
          end
  end.

Definition IsEnvelope (r : source) : result bool :=
  match readFull envelopeMagicLen r with
  | RdErr e => Err e
  | RdEOF => Err ErrEOF
  | RdShort b | RdFull b _ =>
      match b with
      | [] => Ok false
      | _ => Ok (bool_decide (b = EnvelopeMagic))
      end
  end.

(** ** The stream format, as a reference definition *)
Fixpoint split_chunks (fuel n : nat) (p : bytes) : list bytes :=
  match fuel, p with
  | O, _ | _, [] => []
  | S fuel', _ => take n p :: split_chunks fuel' n (drop n p)
  end.

(** The plaintext chunks of a stream. *)
Definition chunked (n : nat) (p : bytes) : list bytes := split_chunks (length p) n p.

Definition frame (sealed : bytes) : bytes := put_be 4 (uint32 (Z.of_nat (length sealed))) ++ sealed.

Fixpoint frames (key seed : bytes) (i : Z) (ps : list bytes) : bytes :=
  match ps with
  | [] => []
  | p :: ps' => frame (Seal key (chunk_nonce seed i) p []) ++ frames key seed (uint32 (i + 1)) ps'
  end.

Definition next_index (i : Z) (ps : list bytes) : Z := foldl (λ i _, uint32 (i + 1)) i ps.

Definition footer_seal (key seed : bytes) (count : Z) : bytes :=
  Seal key (footerNonce seed) (put_be 4 count) streamFooterAAD.

(** Chunks and footer, after the header and the seed. *)
Definition stream_body (key seed : bytes) (ps : list bytes) : bytes :=
  frames key seed 0 ps ++ frame (footer_seal key seed (next_index 0 ps)).

Definition stream_v4 (c : Cipher) (seed p : bytes) : bytes :=
  stream_header (effective_chunk c) ++ seed ++ stream_body (ckey c) seed (chunked (Z.to_nat (effective_chunk c)) p).

(** ** Reading and writing: lemmas *)
Lemma readFull_app n b r t : length b = n → readFull n (Source (b ++ r) t) = RdFull b (Source r t).
Proof.
  intros <-. unfold readFull. cbn [sdata sterm]. rewrite length_app, (proj2 (Nat.leb_le _ _)) by lia.
  by rewrite take_app_length, drop_app_length.
Qed.

Lemma needFull_app n b r t : length b = n → needFull n (Source (b ++ r) t) = Ok (b, Source r t).
Proof. intros H. unfold needFull. by rewrite readFull_app. Qed.

Lemma needFull_short n d : (length d < n)%nat → ∃ e, needFull n (Source d None) = Err e.
Proof.
  intros H. unfold needFull, readFull. cbn [sdata sterm]. rewrite (proj2 (Nat.leb_gt _ _)) by done.
  destruct d; by eexists.
Qed.

Lemma needFull_Ok n s b s' : needFull n s = Ok (b, s') →
  sdata s = b ++ sdata s' ∧ length b = n ∧ sterm s' = sterm s.
Proof.
  unfold needFull, readFull. destruct (n <=? length (sdata s))%nat eqn:E; zbool.
  - intros [= <- <-]. cbn [sdata sterm]. rewrite take_drop, length_take. split_and!; [done|lia|done].
  - destruct (sterm s) as [[]|]; try done. by destruct (sdata s).
Qed.

Lemma Write_ok b w : Write b (Sink w None) = (Ok tt, Sink (w ++ b) None).
Proof. done. Qed.

Lemma write_chunk_ok s w : write_chunk s (Sink w None) = (Ok tt, Sink (w ++ frame s) None).
Proof. unfold write_chunk, frame. rewrite Write_ok. cbn [andThen]. by rewrite Write_ok, <- app_assoc. Qed.

Lemma uint32_uint32 a b : uint32 (uint32 a + b) = uint32 (a + b).
Proof. unfold uint32. by rewrite Zplus_mod_idemp_l. Qed.

Lemma next_index_eq i ps : next_index (uint32 i) ps = uint32 (i + Z.of_nat (length ps)).
Proof.
  revert i. induction ps as [|p ps IH]; intros i.
  - cbn. f_equal. lia.
  - change (next_index (uint32 i) (p :: ps)) with (next_index (uint32 (uint32 i + 1)) ps).
    rewrite uint32_uint32, IH. f_equal. cbn [length]. lia.
Qed.

Lemma effective_chunk_range c : MinChunkSize <= effective_chunk c <= MaxChunkSize.
Proof.
  unfold effective_chunk. destruct (_ || _) eqn:E; [done|].
  apply orb_false_iff in E as [E1 E2]. zbool. lia.
Qed.

Lemma split_chunks_fuel f1 f2 n p : (0 < n)%nat → (length p <= f1)%nat → (length p <= f2)%nat →
  split_chunks f1 n p = split_chunks f2 n p.
Proof.
  intros Hn. revert f2 p. induction f1 as [|f1 IH]; intros f2 [|x p] H1 H2; cbn [length] in *; try lia.
  1, 2: by destruct f2.
  destruct f2 as [|f2]; [lia|]. cbn [split_chunks]. f_equal.
  apply IH; rewrite length_drop; cbn [length]; lia.
Qed.

Lemma chunked_step n x p : (0 < n)%nat → chunked n (x :: p) = take n (x :: p) :: chunked n (drop n (x :: p)).
Proof.
  intros Hn. unfold chunked at 1. cbn [length split_chunks]. f_equal.
  apply split_chunks_fuel; [done| |done]. rewrite length_drop. cbn [length]. lia.
Qed.

Lemma chunked_short n p : p ≠ [] → (length p < n)%nat → chunked n p = [p].
Proof.
  intros Hp Hl. destruct p as [|x p]; [done|]. rewrite chunked_step, take_ge, drop_ge by lia. done.
Qed.

Lemma concat_chunked n p : (0 < n)%nat → concat (chunked n p) = p.
Proof.
  intros Hn. induction p as [p IH] using (induction_ltof1 _ length). destruct p as [|x p]; [done|].
  rewrite chunked_step by done. cbn [concat]. rewrite IH; [apply take_drop|].
  unfold ltof. rewrite length_drop. cbn [length]. lia.
Qed.

Lemma chunked_bound n p : (0 < n)%nat → Forall (λ b, (length b <= n)%nat) (chunked n p).
Proof.
  intros Hn. induction p as [p IH] using (induction_ltof1 _ length). destruct p as [|x p]; [constructor|].
  rewrite chunked_step by done. constructor; [rewrite length_take; lia|].
  apply IH. unfold ltof. rewrite length_drop. cbn [length]. lia.
Qed.

(** ** EncryptStream writes the reference format *)
Lemma encrypt_loop_format fuel c seed n i p w : (0 < n)%nat → (length p < fuel)%nat →
  encrypt_loop fuel c seed n i (Source p None) (Sink w None)
  = (Ok (next_index i (chunked n p)), Sink (w ++ frames (ckey c) seed i (chunked n p)) None).
Proof.
  intros Hn. revert i p w. induction fuel as [|fuel IH]; intros i p w Hf; [lia|]. cbn [encrypt_loop].
  unfold readFull. cbn [sdata sterm]. destruct (n <=? length p)%nat eqn:E; zbool.
  - destruct p as [|x p]; [cbn in E; lia|]. rewrite write_chunk_ok. cbn [andThen].
    rewrite IH by (rewrite length_drop; cbn [length] in *; lia).
    rewrite chunked_step by done. cbn [frames next_index foldl]. by rewrite <- app_assoc.
  - destruct p as [|x p]; [cbn; by rewrite app_nil_r|].
    rewrite write_chunk_ok, chunked_short by done. cbn [andThen frames next_index foldl]. by rewrite app_nil_r.
Qed.

Lemma EncryptStream_format c seed p w :
  EncryptStream c (Ok seed) (Source p None) (Sink w None) = (Ok tt, Sink (w ++ stream_v4 c seed p) None).
Proof.
  unfold EncryptStream. rewrite !Write_ok. cbn [andThen sdata]. rewrite Write_ok. cbn [andThen].
  pose proof (effective_chunk_range c) as Hc. unfold MinChunkSize in Hc.
  rewrite encrypt_loop_format by lia. cbn [andThen]. unfold writeStreamFooter. rewrite write_chunk_ok.
  unfold stream_v4, stream_body, footer_seal. by rewrite !app_assoc.
Qed.

(** ** DecryptStream on the reference format *)
#[local] Opaque Seal Open.

Lemma frame_len (x : bytes) : Z.of_nat (length x) < 2 ^ 32 →
  get_be (put_be 4 (uint32 (Z.of_nat (length x)))) = Z.of_nat (length x).
Proof. intros H. assert (is_uint32 (Z.of_nat (length x))) by (unfold is_uint32; lia). by rewrite get_be_put_be4, (uint32_id (Z.of_nat _)), uint32_id. Qed.

Lemma length_frame x : length (frame x) = (4 + length x)%nat.
Proof. unfold frame. by rewrite length_app, length_put_be. Qed.

Lemma readChunkLen_frame x rest t : Z.of_nat (length x) < 2 ^ 32 →
  readChunkLen (Source (frame x ++ rest) t) = Ok (Z.of_nat (length x), Source (x ++ rest) t).
Proof.
  intros H. unfold readChunkLen, frame. rewrite <- app_assoc, needFull_app by apply length_put_be.
  by rewrite frame_len.
Qed.

Lemma decrypt_step f key seed i x rest t k : x ≠ [] → Z.of_nat (length x) <= MaxChunkSize →
  decrypt_loop (S f) key seed i (Source (frame x ++ rest) t) k
  = match Open key (chunk_nonce seed i) x [] with
    | None => (check_footer key seed x i, k)
    | Some p => do! (_u, k) := Write p k in decrypt_loop f key seed (uint32 (i + 1)) (Source rest t) k
    end.
Proof.
  intros Hx Hl. assert (0 < length x)%nat by (destruct x; [done|cbn; lia]).
  assert (MaxChunkSize = 4128) as Hm by done. cbn [decrypt_loop].
  rewrite readChunkLen_frame, Z.gtb_ltb, (proj2 (Z.ltb_ge _ _)), (proj2 (Z.eqb_neq _ _)) by lia.
  rewrite Nat2Z.id, needFull_app by done. done.
Qed.

Lemma Seal_ne key nonce p aad : Seal key nonce p aad ≠ [].
Proof. intros E. apply (f_equal length) in E. rewrite length_Seal in E. cbn in E. lia. Qed.

Lemma decrypt_frames key seed ps (rest : bytes) t fuel i w : (length (frames key seed i ps ++ rest) < fuel)%nat →
  Forall (λ p : bytes, Z.of_nat (length p) + TagSize <= MaxChunkSize) ps →
  ∃ fuel', (length rest < fuel')%nat ∧
    decrypt_loop fuel key seed i (Source (frames key seed i ps ++ rest) t) (Sink w None)
    = decrypt_loop fuel' key seed (next_index i ps) (Source rest t) (Sink (w ++ concat ps) None).
Proof.
  revert fuel i w. induction ps as [|p ps IH]; intros fuel i w Hf Hps.
  - exists fuel. cbn. by rewrite app_nil_r.
  - inversion Hps as [|? ? Hp Hps']; subst. destruct fuel as [|fuel]; [cbn in Hf; lia|].
    cbn [frames] in Hf |- *. rewrite <- app_assoc in Hf |- *.
    rewrite decrypt_step; [|apply Seal_ne|rewrite length_Seal; unfold TagSize in Hp; lia].
    rewrite Open_Seal, Write_ok. cbn [andThen].
    destruct (IH fuel (uint32 (i + 1)) (w ++ p)) as (f' & Hf' & ->); [|done|].
    { rewrite length_app, length_frame in Hf. lia. }
    exists f'. split; [done|]. cbn [concat next_index foldl]. by rewrite <- app_assoc.
Qed.

(** The footer is told apart from a further chunk: its tag does not happen to
    be the tag of a chunk at that index (a collision of 128-bit tags). *)
Definition footer_distinct (key seed : bytes) (count : Z) : Prop :=
  Open key (chunk_nonce seed count) (footer_seal key seed count) [] = None.

Lemma length_footer_seal key seed n : length (footer_seal key seed n) = 20%nat.
Proof. unfold footer_seal. by rewrite length_Seal, length_put_be. Qed.

Lemma decrypt_body key seed ps (rest : bytes) t w fuel : (length (stream_body key seed ps ++ rest) < fuel)%nat →
  Forall (λ p : bytes, Z.of_nat (length p) + TagSize <= MaxChunkSize) ps →
  footer_distinct key seed (next_index 0 ps) →
  decrypt_loop fuel key seed 0 (Source (stream_body key seed ps ++ rest) t) (Sink w None)
  = (Ok tt, Sink (w ++ concat ps) None).
Proof.
  intros Hf Hps Hd. unfold stream_body in *. rewrite <- app_assoc in Hf |- *.
  destruct (decrypt_frames key seed ps _ t fuel 0 w Hf Hps) as ([|f'] & Hf' & ->); [lia|].
  rewrite decrypt_step; [|apply Seal_ne|by rewrite length_footer_seal]. rewrite Hd.
  unfold check_footer, footer_seal. rewrite Open_Seal, length_put_be. cbn [Nat.eqb negb].
  change 0 with (uint32 0). rewrite next_index_eq, get_be_put_be4. cbn [Z.add].
  rewrite (uint32_id (uint32 _)) by apply Z.mod_pos_bound, eq_refl. by rewrite Z.eqb_refl.
Qed.

Lemma get_be_header chunk : 0 <= chunk < 65536 → get_be [z2b (Z.shiftr chunk 8); z2b chunk] = chunk.
Proof.
  intros H. unfold get_be. cbn [get_be_acc]. rewrite !b2z_z2b, Z.shiftr_div_pow2 by lia.
  rewrite (Z.mod_small (chunk / _)) by (split; [apply Z.div_pos; lia|apply Z.div_lt_upper_bound; lia]).
  change (2 ^ 8) with 256. pose proof (Z.div_mod chunk 256). lia.
Qed.

(** The decoder on a version-4 stream goes straight to the chunks. *)
Lemma DecryptStream_v4 c chunk seed body t k : length seed = streamSeedSize →
  MinChunkSize <= chunk <= MaxChunkSize →
  DecryptStream c (Source (stream_header chunk ++ seed ++ body) t) k
  = decrypt_loop (S (length body)) (ckey c) seed 0 (Source body t) k.
Proof.
  intros Hs Hc. assert (MinChunkSize = 512 ∧ MaxChunkSize = 4128) as [Hmin Hmax] by done.
  unfold DecryptStream, stream_header.
  change ([StreamVersion; ?a; ?b] ++ seed ++ body) with ([StreamVersion] ++ ([a; b] ++ seed ++ body)).
  rewrite needFull_app by done. cbn [hd]. rewrite decide_True by done. unfold decryptStreamV4.
  rewrite app_assoc, needFull_app by (rewrite length_app, Hs; done).
  rewrite take_app_eq, drop_app_eq by done. rewrite get_be_header by lia.
  rewrite (proj2 (Z.ltb_ge _ _)), Z.gtb_ltb, (proj2 (Z.ltb_ge _ _)) by lia. done.
Qed.

Lemma DecryptStream_format c seed p trailing t :
  length seed = streamSeedSize → effective_chunk c <= MaxChunkSize - TagSize →
  footer_distinct (ckey c) seed (uint32 (Z.of_nat (length (chunked (Z.to_nat (effective_chunk c)) p)))) →
  DecryptStream c (Source (stream_v4 c seed p ++ trailing) t) (Sink [] None) = (Ok tt, Sink p None).
Proof.
  intros Hs Hc Hd. pose proof (effective_chunk_range c) as Hr. assert (MinChunkSize = 512) as Hmin by done.
  unfold stream_v4. rewrite <- !app_assoc, DecryptStream_v4 by done.
  rewrite decrypt_body; [|lia| |].
  - cbn [app]. by rewrite concat_chunked by lia.
  - eapply Forall_impl; [apply chunked_bound; lia|]. cbn beta. intros b Hb. unfold MaxChunkSize in *. lia.
  - change 0 with (uint32 0). by rewrite next_index_eq.
Qed.

(** What [EncryptStream] writes, [DecryptStream] turns back into the
    plaintext, whatever its length and however the bytes after the stream go
    on: for every key, seed and chunk size up to 4112 bytes (the largest whose
    sealed form fits the decoder's bound), if the footer's tag does not collide
    with a chunk's. *)
Theorem stream_roundtrip c seed p trailing t :
  length seed = streamSeedSize → effective_chunk c <= MaxChunkSize - TagSize →
  footer_distinct (ckey c) seed (uint32 (Z.of_nat (length (chunked (Z.to_nat (effective_chunk c)) p)))) →
  ∃ s, EncryptStream c (Ok seed) (Source p None) (Sink [] None) = (Ok tt, Sink s None)
    ∧ DecryptStream c (Source (s ++ trailing) t) (Sink [] None) = (Ok tt, Sink p None).
Proof.
  intros Hs Hc Hd. exists (stream_v4 c seed p). split; [apply EncryptStream_format|by apply DecryptStream_format].
Qed.

(** A reader that fails makes the encryption fail, with one exception. *)
Lemma encrypt_loop_read_error fuel c seed n i p er k : (0 < n)%nat → (length p < fuel)%nat → er ≠ ErrUnexpectedEOF →
  ∃ e k', encrypt_loop fuel c seed n i (Source p (Some er)) k = (Err e, k').
Proof.
  intros Hn. revert i p k. induction fuel as [|fuel IH]; intros i p k Hf Hne; [lia|]. cbn [encrypt_loop].
  unfold readFull. cbn [sdata sterm]. destruct (n <=? length p)%nat eqn:E; zbool.
  - destruct (write_chunk _ k) as [[[]|e] k']; cbn [andThen]; [|by eexists _, _].
    apply IH; [|done]. rewrite length_drop. lia.
  - destruct er; try done; by eexists _, _.
Qed.

Lemma EncryptStream_read_error c rnd p er k : er ≠ ErrUnexpectedEOF →
  ∃ e k', EncryptStream c rnd (Source p (Some er)) k = (Err e, k').
Proof.
  intros Hne. unfold EncryptStream. destruct (Write _ k) as [[[]|e] k1]; cbn [andThen]; [|by eexists _, _].
  destruct rnd as [seed|e]; [|by eexists _, _]. destruct (Write _ k1) as [[[]|e] k2]; cbn [andThen]; [|by eexists _, _].
  pose proof (effective_chunk_range c) as Hc. unfold MinChunkSize in Hc. cbn [sdata].
  destruct (encrypt_loop_read_error (S (length p)) c seed (Z.to_nat (effective_chunk c)) 0 p er k2) as (e & k' & ->);
    [lia|lia|done|]. by eexists _, _.
Qed.

(** ** Truncation *)
Lemma short_frame f key seed i x d k : (length d < length (frame x))%nat → d `prefix_of` frame x →
  Z.of_nat (length x) < 2 ^ 32 →
  ∃ e, decrypt_loop (S f) key seed i (Source d None) k = (Err e, k).
Proof.
  intros Hl [r Hd] Hx. cbn [decrypt_loop]. destruct (decide (length d < 4)%nat) as [H4|H4].
  - unfold readChunkLen. destruct (needFull_short (Z.to_nat ChunkHeader) d) as [e ->]; [done|].
    destruct e; by eexists.
  - assert (∃ d', d = put_be 4 (uint32 (Z.of_nat (length x))) ++ d') as [d' ->].
    { exists (drop 4 d). unfold frame in Hd.
      rewrite <- (take_drop 4 d) in Hd at 1. rewrite <- app_assoc in Hd.
      apply app_inj_1 in Hd as [-> _]; [by rewrite take_drop|]. rewrite length_put_be, length_take. lia. }
    unfold readChunkLen. rewrite needFull_app by apply length_put_be. rewrite frame_len by done.
    destruct (_ >? _); [by eexists|]. destruct (_ =? 0); [by eexists|].
    rewrite length_frame, length_app, length_put_be in Hl.
    destruct (needFull_short (Z.to_nat (Z.of_nat (length x))) d') as [e ->]; [lia|by eexists].
Qed.

(** A strict prefix of [a ++ b] stops inside [a] or is [a] and a strict prefix
    of [b]. *)
Lemma strict_prefix_app {A} (d a b : list A) : d `prefix_of` a ++ b → (length d < length (a ++ b))%nat →
  (d `prefix_of` a ∧ (length d < length a)%nat)
  ∨ ∃ d', d = a ++ d' ∧ d' `prefix_of` b ∧ (length d' < length b)%nat.
Proof.
  intros Hp Hl. destruct (decide (length d < length a)%nat) as [Ha|Ha].
  - left. split; [|done]. destruct Hp as [r Hr].
    exists (take (length a - length d) r). apply (f_equal (take (length a))) in Hr.
    rewrite take_app_length, take_app_ge in Hr by lia. done.
  - right. destruct Hp as [r Hr]. exists (drop (length a) d).
    assert (d = a ++ drop (length a) d) as E.
    { rewrite <- (take_drop (length a) d) at 1. f_equal.
      apply (f_equal (take (length a))) in Hr. rewrite take_app_length, take_app_le in Hr by lia. done. }
    revert E. generalize (drop (length a) d). intros d' ->. rewrite <- app_assoc in Hr. apply app_inv_head in Hr.
    split_and!; [done|by exists r|]. rewrite !length_app in Hl. lia.
Qed.

Lemma truncated_body key seed tail ps fuel i d w :
  (length d < fuel)%nat → d `prefix_of` frames key seed i ps ++ frame tail →
  (length d < length (frames key seed i ps ++ frame tail))%nat →
  Z.of_nat (length tail) < 2 ^ 32 → Forall (λ p : bytes, Z.of_nat (length p) <= MaxChunkSize) ps →
  ∃ e w', decrypt_loop fuel key seed i (Source d None) (Sink w None) = (Err e, Sink (w ++ w') None)
        ∧ w' `prefix_of` concat ps.
Proof.
  intros Hf Hd Hl Ht Hps. assert (MaxChunkSize = 4128) as Hm by done.
  revert fuel i d w Hf Hd Hl. induction Hps as [|p ps Hp Hps IH]; intros [|fuel] i d w Hf Hd Hl; try lia.
  - destruct (short_frame fuel key seed i tail d (Sink w None)) as [e ->]; [done..|].
    exists e, []. by rewrite app_nil_r.
  - cbn [frames] in Hd, Hl. rewrite <- app_assoc in Hd, Hl.
    set (x := Seal key (chunk_nonce seed i) p []) in *.
    assert (length x = (length p + 16)%nat) as Hx by apply length_Seal.
    destruct (strict_prefix_app _ _ _ Hd Hl) as [[Hd' Hl']|(d' & -> & Hd' & Hl')].
    + destruct (short_frame fuel key seed i x d (Sink w None)) as [e ->]; [done|done|lia|].
      exists e, []. rewrite app_nil_r. split; [done|apply prefix_nil].
    + destruct (decide (Z.of_nat (length x) <= MaxChunkSize)) as [Hb|Hb].
      * rewrite decrypt_step by (done || apply Seal_ne). unfold x. rewrite Open_Seal, Write_ok. cbn [andThen].
        destruct (IH fuel (uint32 (i + 1)) d' (w ++ p)) as (e & w' & -> & Hw); [|done|done|].
        { rewrite length_app, length_frame in Hf. lia. }
        exists e, (p ++ w'). rewrite <- app_assoc. split; [done|]. cbn [concat]. by apply prefix_app.
      * cbn [decrypt_loop]. rewrite readChunkLen_frame by lia. rewrite Z.gtb_ltb, (proj2 (Z.ltb_lt _ _)) by lia.
        exists ErrStreamFormat, []. rewrite app_nil_r. split; [done|apply prefix_nil].
Qed.

Lemma DecryptStream_truncated c seed p d :
  length seed = streamSeedSize → d `prefix_of` stream_v4 c seed p →
  (length d < length (stream_v4 c seed p))%nat →
  ∃ e w, DecryptStream c (Source d None) (Sink [] None) = (Err e, Sink w None) ∧ w `prefix_of` p.
Proof.
  intros Hs Hd Hl. pose proof (effective_chunk_range c) as Hr.
  assert (MinChunkSize = 512 ∧ MaxChunkSize = 4128) as [Hmin Hmax] by done.
  unfold stream_v4 in Hd, Hl. rewrite app_assoc in Hd, Hl.
  destruct (strict_prefix_app _ _ _ Hd Hl) as [[Hd' Hl']|(d' & -> & Hd' & Hl')].
  - rewrite length_app, Hs in Hl'. change (length (stream_header _)) with 3%nat in Hl'. unfold streamSeedSize in Hl'.
    unfold DecryptStream. destruct d as [|v d]; [by exists ErrEOF, []; split; [|apply prefix_nil]|].
    destruct Hd' as [r [= <- Hd']]. change (StreamVersion :: d) with ([StreamVersion] ++ d).
    rewrite needFull_app by done. cbn [hd]. rewrite decide_True by done. unfold decryptStreamV4.
    destruct (needFull_short (streamSeedSize + 2) d) as [e ->]; [cbn in *; lia|].
    exists e, []. split; [done|apply prefix_nil].
  - rewrite <- app_assoc, DecryptStream_v4 by done.
    assert (Forall (λ p : bytes, Z.of_nat (length p) <= MaxChunkSize) (chunked (Z.to_nat (effective_chunk c)) p)) as Hb.
    { eapply Forall_impl; [apply chunked_bound; lia|]. cbn beta. intros b Hb. lia. }
    edestruct truncated_body as (e & w' & -> & Hw); [..|exact Hb|]; [|exact Hd'|exact Hl'|by rewrite length_footer_seal|].
    { lia. }
    exists e, w'. split; [done|]. by rewrite concat_chunked in Hw by lia.
Qed.

(** C18: A stream cut anywhere, at a chunk boundary or inside a field, is never
    accepted: [DecryptStream] on any strict prefix of what [EncryptStream]
    wrote returns an error, and what it wrote before failing is a prefix of the
    plaintext.  No assumption on the cipher is needed. *)
Theorem stream_truncation_detected c seed p d :
  length seed = streamSeedSize → d `prefix_of` stream_v4 c seed p →
  (length d < length (stream_v4 c seed p))%nat →
  ∃ e w, DecryptStream c (Source d None) (Sink [] None) = (Err e, Sink w None) ∧ w `prefix_of` p.
Proof. apply DecryptStream_truncated. Qed.

(** ** What is accepted *)
Lemma read_frame src n rest sealed rest' :
  readChunkLen src = Ok (n, rest) → needFull (Z.to_nat n) rest = Ok (sealed, rest') →
  sdata src = frame sealed ++ sdata rest'.
Proof.
  unfold readChunkLen. destruct (needFull _ src) as [[b s]|] eqn:E; [|done]. intros [= <- <-] E'.
  apply needFull_Ok in E as (-> & Hb & _). apply needFull_Ok in E' as (-> & Hl & _).
  pose proof (get_be_bound b) as Hr. rewrite Hb in Hr. change (256 ^ Z.of_nat (Z.to_nat ChunkHeader)) with (2 ^ 32) in Hr.
  unfold frame. rewrite Hl, Z2Nat.id, uint32_id, put_be_get_be by (done || lia). by rewrite <- app_assoc.
Qed.

Lemma check_footer_ok key seed sealed i : check_footer key seed sealed i = Ok tt → sealed = footer_seal key seed i.
Proof.
  unfold check_footer. destruct (Open _ _ _ _) as [p|] eqn:E; [|done].
  destruct (length p =? 4)%nat eqn:El; [|done]. destruct (get_be p =? i) eqn:Ei; [|done]. intros _. zbool.
  apply Open_Some in E as ->. unfold footer_seal. by rewrite <- Ei, put_be_get_be.
Qed.

Lemma decrypt_loop_accepts fuel key seed i src w k :
  decrypt_loop fuel key seed i src (Sink w None) = (Ok tt, k) →
  ∃ ps rest, sdata src = frames key seed i ps ++ frame (footer_seal key seed (next_index i ps)) ++ rest
    ∧ k = Sink (w ++ concat ps) None.
Proof.
  revert i src w. induction fuel as [|fuel IH]; intros i src w; [done|]. cbn [decrypt_loop].
  destruct (readChunkLen src) as [[n rest]|[]] eqn:E1; try done.
  destruct (n >? MaxChunkSize); [done|]. destruct (n =? 0); [done|].
  destruct (needFull _ rest) as [[sealed rest']|] eqn:E2; [|done].
  pose proof (read_frame _ _ _ _ _ E1 E2) as Hd. destruct (Open _ _ _ _) as [p|] eqn:Eo.
  - rewrite Write_ok. cbn [andThen]. intros (ps & rest2 & Hr & ->)%IH.
    apply Open_Some in Eo as ->. exists (p :: ps), rest2. rewrite Hd, Hr. cbn [frames next_index foldl concat].
    by rewrite <- !app_assoc.
  - intros [= Hc <-]. apply check_footer_ok in Hc as ->. exists [], (sdata rest'). cbn. by rewrite app_nil_r.
Qed.

Lemma header_get_be b : length b = 2%nat → [z2b (Z.shiftr (get_be b) 8); z2b (get_be b)] = b.
Proof.
  intros H. rewrite <- (put_be_get_be b 2) at 3 by done. cbn [put_be Z.of_nat].
  by rewrite Z.shiftr_div_pow2, Z.pow_0_r, Z.div_1_r by lia.
Qed.

(** C19: A version-4 stream is accepted only if it is, byte for byte, what
    sealing the returned chunks in order under the key and the stream's own
    seed gives, with the footer for exactly that number of chunks: reordering,
    dropping, duplicating or splicing in chunks of another stream is an error
    unless the bytes are the same.  What follows the footer is not looked at. *)
Theorem stream_accepted_form c s t w k :
  DecryptStream c (Source (StreamVersion :: s) t) (Sink w None) = (Ok tt, k) →
  ∃ chunk seed ps rest, MinChunkSize <= chunk <= MaxChunkSize ∧ length seed = streamSeedSize
    ∧ StreamVersion :: s = stream_header chunk ++ seed ++ stream_body (ckey c) seed ps ++ rest
    ∧ k = Sink (w ++ concat ps) None.
Proof.
  unfold DecryptStream. change (StreamVersion :: s) with ([StreamVersion] ++ s).
  rewrite needFull_app by done. cbn [hd]. rewrite decide_True by done. unfold decryptStreamV4.
  destruct (needFull _ _) as [[head rest]|] eqn:E; [|done]. apply needFull_Ok in E as (Hs & Hl & _).
  cbn [sdata] in Hs. set (chunk := get_be (take 2 head)). destruct (_ || _) eqn:Ec; [done|].
  apply orb_false_iff in Ec as [E1 E2]. zbool. intros (ps & rest' & Hd & ->)%decrypt_loop_accepts.
  exists chunk, (drop 2 head), ps, rest'. split_and!; [done|lia|by rewrite length_drop, Hl| |done].
  rewrite Hs, Hd. unfold stream_header, chunk, stream_body.
  change ([StreamVersion; ?a; ?b] ++ ?l) with ([StreamVersion] ++ [a; b] ++ l).
  rewrite header_get_be by (rewrite length_take, Hl; done). f_equal.
  rewrite (app_assoc (take 2 head)), take_drop, <- app_assoc. done.
Qed.

(** ** Nonces *)

(** The nonces a stream of [n] chunks uses, its footer's last. *)
Definition stream_nonces (seed : bytes) (n : nat) : list bytes :=
  map (λ i, chunk_nonce seed (Z.of_nat i)) (seq 0 n) ++ [footerNonce seed].

Lemma chunk_nonce_inj seed i j : 0 <= i < 2 ^ 32 → 0 <= j < 2 ^ 32 → chunk_nonce seed i = chunk_nonce seed j → i = j.
Proof.
  intros Hi Hj [_ E]%app_inj_1; [|done]. apply (f_equal get_be) in E. rewrite !get_be_put_be4, !uint32_id in E; done.
Qed.

(** Within a stream of fewer than 2^32 chunks (16 TiB at the default size) no
    nonce is used twice, the footer's included. *)
Lemma stream_nonces_distinct seed n : Z.of_nat n < 2 ^ 32 → NoDup (stream_nonces seed n).
Proof.
  intros Hn. unfold stream_nonces. apply NoDup_app. split_and!.
  - apply NoDup_fmap_2_strong; [|apply NoDup_seq]. intros i j Hi%elem_of_seq Hj%elem_of_seq E.
    apply chunk_nonce_inj in E; lia.
  - intros x (i & -> & Hi%elem_of_seq)%list_elem_of_fmap E%list_elem_of_singleton.
    unfold footerNonce, footerNonceIndex in E. apply chunk_nonce_inj in E; lia.
  - apply NoDup_singleton.
Qed.

(** ** Bounds: chunk sizes the encoder takes and the decoder refuses *)

(** The encoder accepts plaintext chunks up to [MaxChunkSize], the decoder
    compares the sealed length with the same constant: with a chunk size above
    4112 every stream whose first chunk is longer than that is unreadable. *)
Lemma oversized_chunk_unreadable c seed p :
  length seed = streamSeedSize → MaxChunkSize - TagSize < effective_chunk c →
  MaxChunkSize - TagSize < Z.of_nat (length p) →
  EncryptStream c (Ok seed) (Source p None) (Sink [] None) = (Ok tt, Sink (stream_v4 c seed p) None)
  ∧ DecryptStream c (Source (stream_v4 c seed p) None) (Sink [] None) = (Err ErrStreamFormat, Sink [] None).
Proof.
  intros Hs Hc Hp. assert (MaxChunkSize = 4128 ∧ TagSize = 16) as [Hmax Ht] by done.
  split; [apply EncryptStream_format|]. pose proof (effective_chunk_range c) as Hr.
  unfold stream_v4. rewrite DecryptStream_v4 by done. destruct p as [|x p]; [cbn in Hp; lia|].
  rewrite chunked_step by lia. unfold stream_body. cbn [frames]. rewrite <- app_assoc. cbn [decrypt_loop].
  assert (length (take (Z.to_nat (effective_chunk c)) (x :: p)) = (Z.to_nat (effective_chunk c)) `min` length (x :: p))%nat as Hl
    by apply length_take.
  rewrite readChunkLen_frame by (rewrite length_Seal, Hl; lia).
  by rewrite Z.gtb_ltb, (proj2 (Z.ltb_lt _ _)) by (rewrite length_Seal, Hl; lia).
Qed.

Example chunk_4128_accepted : SetStreamChunkSize (mkCipher [] ChunkSize) 4128 = (Ok tt, mkCipher [] 4128).
Proof. reflexivity. Qed.

(** [SetStreamChunkSize] keeps the cipher's chunk size within its bounds, so the
    fallback of [EncryptStream] is never taken after it. *)
Lemma chunk_size_invariant c n : effective_chunk c = chunkSize c →
  effective_chunk (SetStreamChunkSize c n).2 = chunkSize (SetStreamChunkSize c n).2.
Proof.
  intros H. unfold SetStreamChunkSize. destruct (_ || _) eqn:E; [done|].
  unfold effective_chunk. cbn [snd chunkSize]. by rewrite E.
Qed.

(** ** The legacy format *)
Lemma legacy_frames key seed ps fuel i w : (length (frames key seed i ps) < fuel)%nat →
  Forall (λ p : bytes, Z.of_nat (length p) + TagSize <= MaxChunkSize) ps →
  legacy_loop fuel key seed i (Source (frames key seed i ps) None) (Sink w None) = (Ok tt, Sink (w ++ concat ps) None).
Proof.
  assert (MaxChunkSize = 4128 ∧ TagSize = 16) as [Hmax Ht] by done.
  revert fuel i w. induction ps as [|p ps IH]; intros [|fuel] i w Hf Hps; try (cbn in Hf; lia).
  - cbn. by rewrite app_nil_r.
  - inversion Hps as [|? ? Hp Hps']; subst. cbn [frames legacy_loop] in Hf |- *.
    set (x := Seal key (chunk_nonce seed i) p []) in *.
    assert (length x = (length p + 16)%nat) as Hx by apply length_Seal.
    rewrite readChunkLen_frame by lia.
    rewrite (proj2 (Z.eqb_neq _ _)), Z.gtb_ltb, (proj2 (Z.ltb_ge _ _)) by lia. cbn [orb].
    rewrite Nat2Z.id, needFull_app by done. unfold x. rewrite Open_Seal, Write_ok. cbn [andThen].
    rewrite IH; [|rewrite length_app, length_frame in Hf; lia|done]. cbn [concat]. by rewrite <- app_assoc.
Qed.

(** A version-2 stream cut after any number of chunks is accepted as a shorter
    plaintext: the format has no footer. *)
Lemma legacy_truncation_accepted c seed ps n : length seed = streamSeedSize →
  Forall (λ p : bytes, Z.of_nat (length p) + TagSize <= MaxChunkSize) ps →
  DecryptStream c (Source (StreamVersionLegacy2 :: seed ++ frames (ckey c) seed 0 (take n ps)) None) (Sink [] None)
  = (Ok tt, Sink (concat (take n ps)) None).
Proof.
  intros Hs Hps. unfold DecryptStream.
  change (StreamVersionLegacy2 :: ?l) with ([StreamVersionLegacy2] ++ l). rewrite needFull_app by done.
  cbn [hd]. rewrite decide_False, decide_False, decide_True by done. unfold decryptStreamLegacy.
  rewrite needFull_app by done. cbn [sdata]. rewrite legacy_frames; [done|lia|by apply Forall_take].
Qed.

(** ** Tenant keys *)
Lemma xor_byte_cancel a b s : xor_byte (xor_byte a s) (xor_byte b s) = xor_byte a b.
Proof.
  apply b2z_inj. rewrite !b2z_xor_byte.
  rewrite (Z.lxor_comm (b2z b)), Z.lxor_assoc, <- (Z.lxor_assoc (b2z s)), Z.lxor_nilpotent. by rewrite Z.lxor_0_l.
Qed.

Lemma xor_bytes_cancel a b s : length a = length b → (length a <= length s)%nat →
  xor_bytes (xor_bytes a s) (xor_bytes b s) = xor_bytes a b.
Proof.
  revert b s. induction a as [|x a IH]; intros [|y b] [|z s] H1 H2; cbn in *; try done; try lia.
  f_equal; [apply xor_byte_cancel|]. apply IH; lia.
Qed.

Lemma Unwrap_Wrap root kek tenant w : WrapTenantKEK root kek tenant = Ok w → UnwrapTenantKEK root w tenant = Ok kek.
Proof.
  unfold WrapTenantKEK, UnwrapTenantKEK.
  destruct (Z.of_nat (length root) =? KeySize); [|done]. destruct (_ =? TenantKEKSize) eqn:E; [|done].
  intros [= <-]. cbn [negb]. by rewrite Open_Seal, E.
Qed.

(** Rotation moves a wrapped key to the new root, and only for its tenant's
    own wrapping. *)
Lemma Rotate_spec old new w tenant w' : RotateTenantKEK old new w tenant = Ok w' →
  ∃ kek, UnwrapTenantKEK old w tenant = Ok kek ∧ UnwrapTenantKEK new w' tenant = Ok kek.
Proof.
  unfold RotateTenantKEK. destruct (UnwrapTenantKEK old w tenant) as [kek|] eqn:E; [|done].
  intros H. exists kek. split; [done|by apply Unwrap_Wrap].
Qed.

#[local] Transparent Seal.
Lemma Seal_body key nonce p aad : take (length p) (Seal key nonce p aad) = ctr (round_keys key) nonce p.
Proof. unfold Seal. apply take_app_eq, length_ctr. Qed.
#[local] Opaque Seal.

(** Every tenant key is wrapped with the same nonce, so two wrapped keys
    under one root are encrypted with the same keystream: the exclusive or of
    the stored bytes is the exclusive or of the keys, and whoever knows one
    tenant's key reads the other's. *)
Theorem wrap_reuses_keystream root k1 k2 t1 t2 w1 w2 :
  WrapTenantKEK root k1 t1 = Ok w1 → WrapTenantKEK root k2 t2 = Ok w2 →
  xor_bytes (take 32 w1) (take 32 w2) = xor_bytes k1 k2 ∧ xor_bytes (xor_bytes (take 32 w1) (take 32 w2)) k2 = k1.
Proof.
  unfold WrapTenantKEK. destruct (_ =? KeySize); [|done].
  destruct (Z.of_nat (length k1) =? _) eqn:E1; [|done]. destruct (Z.of_nat (length k2) =? _) eqn:E2; [|done].
  intros [= <-] [= <-]. zbool. unfold TenantKEKSize in *.
  assert (length k1 = 32%nat ∧ length k2 = 32%nat) as [H1 H2] by lia.
  assert (xor_bytes (take 32 (Seal root wrap_nonce k1 (wrap_aad t1))) (take 32 (Seal root wrap_nonce k2 (wrap_aad t2)))
          = xor_bytes k1 k2) as ->.
  { rewrite <- H1 at 1. rewrite <- H2 at 1. rewrite !Seal_body. unfold ctr. rewrite H2, H1.
    apply xor_bytes_cancel; [lia|]. rewrite length_keystream_eq, H1. cbn. lia. }
  split; [done|]. apply xor_bytes_invol. lia.
Qed.

Lemma appendUint32_be dst v : appendUint32 dst v = dst ++ put_be 4 v.
Proof.
  unfold appendUint32. rewrite !Z.shiftr_div_pow2 by lia. cbn [put_be Z.of_nat Pos.of_succ_nat Pos.succ].
  by rewrite Z.pow_0_r, Z.div_1_r.
Qed.

Lemma length_prefixed_inj (a b r s : bytes) :
  Z.of_nat (length a) < 2 ^ 32 → Z.of_nat (length b) < 2 ^ 32 →
  put_be 4 (uint32 (Z.of_nat (length a))) ++ a ++ r = put_be 4 (uint32 (Z.of_nat (length b))) ++ b ++ s → a = b ∧ r = s.
Proof.
  intros Ha Hb [E1 E2]%app_inj_1; [|by rewrite !length_put_be].
  apply (f_equal get_be) in E1. rewrite !frame_len in E1 by done. by apply app_inj_1 in E2; [|lia].
Qed.

Lemma length_prefixed_inj0 (a b : bytes) :
  Z.of_nat (length a) < 2 ^ 32 → Z.of_nat (length b) < 2 ^ 32 →
  put_be 4 (uint32 (Z.of_nat (length a))) ++ a = put_be 4 (uint32 (Z.of_nat (length b))) ++ b → a = b.
Proof. intros Ha Hb E. apply app_inj_1 in E as [_ E]; [done|by rewrite !length_put_be]. Qed.

(** The input of a key derivation determines its tenant and context: two
    different pairs are never expanded from the same bytes, also when their
    concatenations agree. *)
Theorem derive_info_injective t1 c1 t2 c2 :
  Z.of_nat (length t1) < 2 ^ 32 → Z.of_nat (length t2) < 2 ^ 32 →
  Z.of_nat (length c1) < 2 ^ 32 → Z.of_nat (length c2) < 2 ^ 32 →
  derive_info t1 c1 = derive_info t2 c2 → t1 = t2 ∧ c1 = c2.
Proof.
  intros Ht1 Ht2 Hc1 Hc2. unfold derive_info. rewrite !appendUint32_be. cbn [app]. rewrite <- !app_assoc.
  intros [-> E]%length_prefixed_inj; [|done..]. split; [done|by apply length_prefixed_inj0].
Qed.

(** The three labels of a tenant, and those of different tenants, differ. *)
Lemma tenant_labels_injective d1 d2 t1 t2 :
  d1 ∈ [DomainTenantKEK; DomainTenantOPRFShare; DomainTenantAuthToken] →
  d2 ∈ [DomainTenantKEK; DomainTenantOPRFShare; DomainTenantAuthToken] →
  Z.of_nat (length t1) < 2 ^ 32 → Z.of_nat (length t2) < 2 ^ 32 →
  appendDomainTenantLabel d1 t1 = appendDomainTenantLabel d2 t2 → d1 = d2 ∧ t1 = t2.
Proof.
  intros H1 H2 Ht1 Ht2. unfold appendDomainTenantLabel. rewrite !appendUint32_be, <- !app_assoc. intros E.
  assert (take 13 d1 = take 13 d2) as Hd.
  { apply (f_equal (take 13)) in E. rewrite !take_app_le in E; [done|..].
    - repeat (apply elem_of_cons in H2 as [->|H2]; [vm_compute; lia|]). by apply elem_of_nil in H2.
    - repeat (apply elem_of_cons in H1 as [->|H1]; [vm_compute; lia|]). by apply elem_of_nil in H1. }
  assert (d1 = d2) as ->.
  { repeat (apply elem_of_cons in H1 as [->|H1]); repeat (apply elem_of_cons in H2 as [->|H2]);
      (done || by apply elem_of_nil in H1 || by apply elem_of_nil in H2). }
  split; [done|]. apply app_inv_head in E. by apply length_prefixed_inj0.
Qed.

(** ** Envelopes *)
Definition envelope_prefix (keyID wrappedKey : bytes) : bytes :=
  EnvelopeMagic ++ [EnvelopeVersion; EnvelopeAlgoAES256GCM]
  ++ put_be 2 (uint16 (Z.of_nat (length keyID))) ++ put_be 2 (uint16 (Z.of_nat (length wrappedKey))).

Lemma writeEnvelopeHeader_ok keyID wrapped w : Z.of_nat (length wrapped) <= envelopeMaxWrappedKeyLen →
  writeEnvelopeHeader EnvelopeVersion EnvelopeAlgoAES256GCM keyID wrapped (Sink w None)
  = (Ok tt, Sink (w ++ envelope_prefix keyID wrapped ++ keyID ++ wrapped) None).
Proof.
  intros H. unfold writeEnvelopeHeader. rewrite Write_ok. cbn [andThen].
  rewrite Z.gtb_ltb, (proj2 (Z.ltb_ge _ _)), Write_ok by done. unfold envelope_prefix. by rewrite <- !app_assoc.
Qed.

Lemma uint16_be n : 0 <= n < 2 ^ 16 → get_be (put_be 2 (uint16 n)) = n.
Proof. intros H. rewrite get_be_put_be. change (256 ^ Z.of_nat 2) with (2 ^ 16). unfold uint16. rewrite Z.mod_mod by lia. by apply Z.mod_small. Qed.

Lemma NewCipher_ok key : length key = 32%nat → NewCipher key = Ok (mkCipher key ChunkSize).
Proof. intros H. unfold NewCipher. by rewrite H. Qed.

(** The decoder reads back the header's fields. *)
Lemma DecryptEnvelope_header keyID wrapped body t master k :
  length master = 32%nat → Z.of_nat (length keyID) <= envelopeMaxKeyIDLen →
  Z.of_nat (length wrapped) <= envelopeMaxWrappedKeyLen →
  let meta := mkEnvelopeMeta EnvelopeVersion EnvelopeAlgoAES256GCM keyID in
  DecryptEnvelope (Source (envelope_prefix keyID wrapped ++ keyID ++ wrapped ++ body) t) master k
  = match Decrypt (mkCipher master ChunkSize) wrapped with
    | Err e => ((meta, Err e), k)
    | Ok dataKey =>
        match NewCipher dataKey with
        | Err e => ((meta, Err e), k)
        | Ok dc => let '(r, k) := DecryptStream dc (Source body t) k in ((meta, r), k)
        end
    end.
Proof.
  intros Hm Hk Hw. unfold envelopeMaxKeyIDLen, envelopeMaxWrappedKeyLen in *. unfold DecryptEnvelope.
  rewrite (NewCipher_ok master), Hm by done. cbn [Z.of_nat Pos.of_succ_nat Z.eqb Pos.eqb KeySize Pos.succ negb].
  rewrite needFull_app by done.
  rewrite decide_False by (intros H; apply H; by apply take_app_eq).
  set (a := put_be 2 (uint16 (Z.of_nat (length keyID)))) in *. set (b := put_be 2 (uint16 (Z.of_nat (length wrapped)))) in *.
  assert (slice (envelopeMagicLen + 2) (envelopeMagicLen + 4) (envelope_prefix keyID wrapped) = a
        ∧ slice (envelopeMagicLen + 4) (envelopeMagicLen + 6) (envelope_prefix keyID wrapped) = b) as [-> ->] by done.
  change (nth envelopeMagicLen (envelope_prefix keyID wrapped) Byte.x00) with EnvelopeVersion.
  change (nth (envelopeMagicLen + 1) (envelope_prefix keyID wrapped) Byte.x00) with EnvelopeAlgoAES256GCM.
  rewrite !decide_False by (intros H; by apply H). subst a b. rewrite !uint16_be by lia.
  rewrite !Z.gtb_ltb, !(proj2 (Z.ltb_ge _ _)) by (unfold envelopeMaxKeyIDLen, envelopeMaxWrappedKeyLen; lia). cbn [orb].
  rewrite app_assoc, needFull_app by (rewrite length_app; lia).
  rewrite Nat2Z.id, take_app_length, drop_app_length. done.
Qed.

Lemma Decrypt_Encrypt c nonce p : length nonce = 12%nat →
  Decrypt c (nonce ++ Seal (ckey c) nonce p []) = Ok p.
Proof.
  intros Hn. unfold Decrypt. rewrite length_app, length_Seal, Hn, (proj2 (Z.ltb_ge _ _)) by (unfold NonceSize, TagSize; lia).
  by rewrite take_app_eq, drop_app_eq, Open_Seal by done.
Qed.

(** The bytes of an envelope. *)
Definition envelope_bytes (dataKey nonce seed p master keyID : bytes) : bytes :=
  let wrapped := nonce ++ Seal master nonce dataKey [] in
  envelope_prefix keyID wrapped ++ keyID ++ wrapped ++ stream_v4 (mkCipher dataKey ChunkSize) seed p.

Lemma length_wrapped dataKey nonce master : length nonce = 12%nat → length dataKey = 32%nat →
  length (nonce ++ Seal master nonce dataKey []) = 60%nat.
Proof. intros Hn Hd. by rewrite length_app, length_Seal, Hn, Hd. Qed.

Lemma EncryptEnvelope_format dataKey nonce seed p master keyID w :
  length master = 32%nat → length dataKey = 32%nat → length nonce = 12%nat → Z.of_nat (length keyID) <= envelopeMaxKeyIDLen →
  EncryptEnvelope (Ok dataKey) (Ok nonce) (Ok seed) (Source p None) master keyID (Sink w None)
  = (Ok tt, Sink (w ++ envelope_bytes dataKey nonce seed p master keyID) None).
Proof.
  intros Hm Hd Hn Hk. pose proof (length_wrapped dataKey nonce master Hn Hd) as Hw.
  unfold EncryptEnvelope. rewrite Hm, Z.gtb_ltb, (proj2 (Z.ltb_ge _ _)), (NewCipher_ok master) by done. cbn [GenerateKey Encrypt].
  rewrite NewCipher_ok by done. rewrite writeEnvelopeHeader_ok by (cbn [ckey]; by rewrite Hw). cbn [andThen]. rewrite EncryptStream_format.
  change (negb (Z.of_nat 32 =? KeySize)) with false. unfold envelope_bytes. cbn [app ckey]. by rewrite <- !app_assoc.
Qed.

Lemma DecryptEnvelope_format dataKey nonce seed p master keyID :
  length master = 32%nat → length dataKey = 32%nat → length nonce = 12%nat → length seed = streamSeedSize →
  Z.of_nat (length keyID) <= envelopeMaxKeyIDLen →
  footer_distinct dataKey seed (uint32 (Z.of_nat (length (chunked 4096 p)))) →
  DecryptEnvelope (Source (envelope_bytes dataKey nonce seed p master keyID) None) master (Sink [] None)
  = ((mkEnvelopeMeta EnvelopeVersion EnvelopeAlgoAES256GCM keyID, Ok tt), Sink p None).
Proof.
  intros Hm Hd Hn Hs Hk Hf. unfold envelope_bytes. rewrite DecryptEnvelope_header by (done || by rewrite length_wrapped).
  change master with (ckey (mkCipher master ChunkSize)) at 2.
  rewrite Decrypt_Encrypt, NewCipher_ok by done. rewrite <- (app_nil_r (stream_v4 _ _ _)).
  by rewrite (DecryptStream_format (mkCipher dataKey ChunkSize)) by (done || lia).
Qed.

(** An envelope written for a master key and a key id opens under that
    master key to the same plaintext and reports the key id; it is recognised
    by its first bytes. *)
Theorem envelope_roundtrip dataKey nonce seed p master keyID :
  length master = 32%nat → length dataKey = 32%nat → length nonce = 12%nat → length seed = streamSeedSize →
  Z.of_nat (length keyID) <= envelopeMaxKeyIDLen →
  footer_distinct dataKey seed (uint32 (Z.of_nat (length (chunked 4096 p)))) →
  ∃ s, EncryptEnvelope (Ok dataKey) (Ok nonce) (Ok seed) (Source p None) master keyID (Sink [] None) = (Ok tt, Sink s None)
    ∧ DecryptEnvelope (Source s None) master (Sink [] None)
      = ((mkEnvelopeMeta EnvelopeVersion EnvelopeAlgoAES256GCM keyID, Ok tt), Sink p None)
    ∧ IsEnvelope (Source s None) = Ok true.
Proof.
  intros Hm Hd Hn Hs Hk Hf. exists (envelope_bytes dataKey nonce seed p master keyID). split_and!.
  - by apply (EncryptEnvelope_format _ _ _ _ _ _ []).
  - by apply DecryptEnvelope_format.
  - unfold IsEnvelope, envelope_bytes, envelope_prefix. rewrite <- !app_assoc, readFull_app by done. done.
Qed.

(** An empty object is not classified but reported as [io.EOF]: the test for
    zero bytes read comes after the error return. *)
Example IsEnvelope_empty : IsEnvelope (Source [] None) = Err ErrEOF.
Proof. reflexivity. Qed.

(** A reader that fails with [io.ErrUnexpectedEOF] (a body cut short by the
    peer) is taken for the last, short chunk: the cut content is sealed with a
    valid footer. *)
Lemma cut_source_sealed c seed p w : (length p < Z.to_nat (effective_chunk c))%nat → p ≠ [] →
  EncryptStream c (Ok seed) (Source p (Some ErrUnexpectedEOF)) (Sink w None)
  = EncryptStream c (Ok seed) (Source p None) (Sink w None).
Proof.
  intros Hl Hp. unfold EncryptStream. cbn [sdata].
  assert (∀ f k, encrypt_loop (S f) c seed (Z.to_nat (effective_chunk c)) 0 (Source p (Some ErrUnexpectedEOF)) k
               = encrypt_loop (S f) c seed (Z.to_nat (effective_chunk c)) 0 (Source p None) k) as E.
  { intros f k. cbn [encrypt_loop]. unfold readFull. cbn [sdata sterm]. rewrite (proj2 (Nat.leb_gt _ _)) by done.
    by destruct p. }
  rewrite !Write_ok. cbn [andThen]. rewrite !Write_ok. cbn [andThen]. by rewrite E.
Qed.

(** ** Concrete runs *)
#[local] Transparent Seal Open.

Definition ex_key : bytes := map (λ i, z2b (Z.of_nat i)) (seq 0 32).
Definition ex_key2 : bytes := map (λ i, z2b (Z.of_nat i)) (seq 64 32).
Definition ex_seed : bytes := bs "seed0001".
Definition ex_nonce : bytes := bs "nonce0000001".
Definition ex_cipher : Cipher := (SetStreamChunkSize (mkCipher ex_key ChunkSize) 512).2.

(** 600 bytes: a full chunk and a short one. *)
Definition ex_plain : bytes := map (λ i, z2b (Z.of_nat i)) (seq 0 600).

Lemma stream_roundtrip_witness :
  ∃ s, EncryptStream ex_cipher (Ok ex_seed) (Source ex_plain None) (Sink [] None) = (Ok tt, Sink s None)
    ∧ DecryptStream ex_cipher (Source (s ++ bs "tail") None) (Sink [] None) = (Ok tt, Sink ex_plain None).
Proof.
  apply (stream_roundtrip ex_cipher ex_seed ex_plain (bs "tail") None); [reflexivity|vm_compute; discriminate|].
  vm_compute. reflexivity.
Defined.

Lemma stream_truncation_detected_witness :
  ∃ e w, DecryptStream ex_cipher (Source (take 543 (stream_v4 ex_cipher ex_seed ex_plain)) None) (Sink [] None)
         = (Err e, Sink w None) ∧ w `prefix_of` ex_plain.
Proof.
  apply (stream_truncation_detected ex_cipher ex_seed ex_plain); [reflexivity|apply prefix_take|].
  vm_compute. lia.
Defined.

Definition ex_stream : bytes := stream_v4 ex_cipher ex_seed (bs "hello").

Lemma stream_accepted_form_witness :
  ∃ chunk seed ps rest, MinChunkSize <= chunk <= MaxChunkSize ∧ length seed = streamSeedSize
    ∧ StreamVersion :: drop 1 ex_stream = stream_header chunk ++ seed ++ stream_body ex_key seed ps ++ rest
    ∧ Sink (bs "hello") None = Sink ([] ++ concat ps) None.
Proof.
  apply (stream_accepted_form ex_cipher (drop 1 ex_stream) None []). vm_compute. reflexivity.
Defined.

Lemma wrap_reuses_keystream_witness :
  let w1 := Seal ex_key wrap_nonce ex_key2 (wrap_aad (bs "t1")) in
  let w2 := Seal ex_key wrap_nonce ex_key (wrap_aad (bs "t2")) in
  xor_bytes (take 32 w1) (take 32 w2) = xor_bytes ex_key2 ex_key
  ∧ xor_bytes (xor_bytes (take 32 w1) (take 32 w2)) ex_key = ex_key2.
Proof. apply (wrap_reuses_keystream ex_key ex_key2 ex_key (bs "t1") (bs "t2")); vm_compute; reflexivity. Defined.

Lemma derive_info_injective_witness : derive_info (bs "ab") (bs "c") = derive_info (bs "ab") (bs "c") ∧ bs "ab" = bs "ab".
Proof.
  split; [reflexivity|].
  apply (derive_info_injective (bs "ab") (bs "c") (bs "ab") (bs "c")); [reflexivity..|].
  reflexivity.
Defined.

Lemma envelope_roundtrip_witness :
  ∃ s, EncryptEnvelope (Ok ex_key2) (Ok ex_nonce) (Ok ex_seed) (Source ex_plain None) ex_key (bs "k1") (Sink [] None)
       = (Ok tt, Sink s None)
    ∧ DecryptEnvelope (Source s None) ex_key (Sink [] None)
      = ((mkEnvelopeMeta EnvelopeVersion EnvelopeAlgoAES256GCM (bs "k1"), Ok tt), Sink ex_plain None)
    ∧ IsEnvelope (Source s None) = Ok true.
Proof.
  apply (envelope_roundtrip ex_key2 ex_nonce ex_seed ex_plain ex_key (bs "k1"));
    [reflexivity..|vm_compute; discriminate|vm_compute; reflexivity].
Defined.

(** The wrong master key is refused before anything is written. *)
Example envelope_wrong_key :
  let '(_, k) := EncryptEnvelope (Ok ex_key2) (Ok ex_nonce) (Ok ex_seed) (Source (bs "hello") None) ex_key (bs "k1") (Sink [] None) in
  DecryptEnvelope (Source (written k) None) ex_key2 (Sink [] None)
  = ((mkEnvelopeMeta EnvelopeVersion EnvelopeAlgoAES256GCM (bs "k1"), Err ErrTampered), Sink [] None).
Proof. vm_compute. reflexivity. Qed.

(** Chunks of a stream in another order, and a stream without its footer. *)
Example stream_reordered :
  let s := stream_v4 ex_cipher ex_seed ex_plain in
  DecryptStream ex_cipher (Source (take 11 s ++ drop 543 s) None) (Sink [] None) = (Err ErrTampered, Sink [] None).
Proof. vm_compute. reflexivity. Qed.

Example stream_no_footer :
  let s := stream_v4 ex_cipher ex_seed (bs "hello") in
  DecryptStream ex_cipher (Source (take 36 s) None) (Sink [] None) = (Err (Errno EIO), Sink (bs "hello") None).
Proof. vm_compute. reflexivity. Qed.
