(* ===== verification/Adaptive.v ===== *)
(** * The adaptive blob store (src/src/storage/adaptive_blobstore.go)

    Blobs up to a size threshold go to the volume store, larger ones to a
    fallback backend; either side may be missing.  The volume store's
    environment (its failing write, whether the file system punches holes, the
    clock) is fixed for an operation, so that it is a backend like any other
    ([vol_store]). *)
From S2P Require Import Prelude GoText Hashes Paths BlobStore Volume VolumeTheorems VolumeProps Crypto.
Open Scope Z_scope.

Record vol_env := mkVE { ve_fault : io_fault; ve_punch : bool; ve_now : Z }.

(** [VolumeBlobStore] as a backend. *)
Definition vol_store (v : vol_env) : BlobStore VolumeBlobStore := {|
  PutBlob s h r := vol_put s h r (ve_fault v) (ve_now v);
  GetBlob := vol_get;
  DeleteBlob s h := vol_delete s h (ve_punch v);
  BlobExists := Some vol_exists
|}.

Definition DefaultAdaptiveThreshold : Z := Z.shiftl 1 20.

Record AdaptiveBlobStore (B : Type) := mkAd {
  avolume : option VolumeBlobStore;
  fallback : option B;
  threshold : Z
}.
Arguments mkAd {B}.
Arguments avolume {B}.
Arguments fallback {B}.
Arguments threshold {B}.

Definition NewAdaptiveBlobStore {B} (v : option VolumeBlobStore) (f : option B) (t : Z) : AdaptiveBlobStore B :=
  mkAd v f (if t <=? 0 then DefaultAdaptiveThreshold else t).

Section Operations.
Context {B : Type} `{BlobStore B} (env : vol_env).
Implicit Types a : AdaptiveBlobStore B.

Definition with_volume (v : VolumeBlobStore) a : AdaptiveBlobStore B := mkAd (Some v) (fallback a) (threshold a).
Definition with_fallback (f : B) a : AdaptiveBlobStore B := mkAd (avolume a) (Some f) (threshold a).

(** [io.MultiReader(bytes.NewReader(buf), content)]: what was read, then the
    rest of the content; a reader at its end stays there. *)
Definition replay (buf : bytes) (rest : source) : reader := Reader [buf; sdata rest] (sterm rest).

Definition route a (hash buf : bytes) (rd : reader) : result unit * AdaptiveBlobStore B :=
  if Z.of_nat (length buf) <=? threshold a then
    match avolume a with
    | None => (Err (Errno ENOSYS), a)
    | Some v => let '(r, v) := @PutBlob _ (vol_store env) v hash rd in (r, with_volume v a)
    end
  else
    match fallback a with
    | None => (Err (Errno ENOSYS), a)
    | Some f => let '(r, f) := PutBlob f hash rd in (r, with_fallback f a)
    end.

Definition adaptive_put a (hash : bytes) (content : reader) : result unit * AdaptiveBlobStore B :=
  if HasPathTraversalChars hash then (Err (Errno EINVAL), a)
  else if bool_decide (avolume a = None) && bool_decide (fallback a = None) then (Err (Errno EINVAL), a)
  else
    let src := source_of content in
    match readFull (Z.to_nat (threshold a + 1)) src with
    | RdErr e => (Err e, a)
    | RdEOF => route a hash [] (replay [] (Source [] (sterm src)))
    | RdShort b => route a hash b (replay b (Source [] (sterm src)))
    | RdFull b rest => route a hash b (replay b rest)
    end.

Definition adaptive_exists a (hash : bytes) : result bool :=
  let probe_fallback :=
    match fallback a, BlobExists with
    | Some f, Some ex => ex f hash
    | _, _ => Ok false
    end in
  match avolume a with
  | Some v => match vol_exists v hash with Ok true => Ok true | _ => probe_fallback end
  | None => probe_fallback
  end.

Definition adaptive_get a (hash : bytes) : result bytes :=
  if HasPathTraversalChars hash then Err (Errno EINVAL)
  else
    let from_fallback :=
      match fallback a with
      | None => Err (Errno ENOENT)
      | Some f => GetBlob f hash
      end in
    match avolume a with
    | None => from_fallback
    | Some v => match vol_get v hash with
                | Ok c => Ok c
                | Err e => if decide (e = Errno ENOENT) then from_fallback else Err e
                end
    end.

(** The error kept so far, after a backend's delete. *)
Definition keep_err (last : option error) (r : result unit) : option error :=
  match r with
  | Ok _ => last
  | Err e => if decide (e = Errno ENOENT) then last else Some e
  end.

Definition adaptive_delete a (hash : bytes) : result unit * AdaptiveBlobStore B :=
  if HasPathTraversalChars hash then (Err (Errno EINVAL), a)
  else
    let '(lastErr, a) :=
      match avolume a with
      | None => (None, a)
      | Some v => let '(r, v) := vol_delete v hash (ve_punch env) in (keep_err None r, with_volume v a)
      end in
    let '(lastErr, a) :=
      match fallback a with
      | None => (lastErr, a)
      | Some f => let '(r, f) := DeleteBlob f hash in (keep_err lastErr r, with_fallback f a)
      end in
    (match lastErr with None => Ok tt | Some e => Err e end, a).
End Operations.

(** ** Lemmas *)
Lemma replay_all r b : read_all r = Ok b → ∀ n,
  (∃ rest, readFull n (source_of r) = RdFull (take n b) rest ∧ read_all (replay (take n b) rest) = Ok b ∧ (n <= length b)%nat)
  ∨ ((length b < n)%nat ∧ readFull n (source_of r) = match b with [] => RdEOF | _ => RdShort b end
     ∧ sterm (source_of r) = None).
Proof.
  unfold read_all at 1. destruct r as [cs [e|]]; [done|]. cbn. intros [= <-] n. unfold readFull, source_of. cbn [sdata sterm rd_chunks rd_err].
  destruct (n <=? length (concat cs))%nat eqn:E; zbool.
  - left. eexists. split_and!; [done| |done]. unfold read_all, replay. cbn. by rewrite app_nil_r, take_drop.
  - right. split_and!; [done| |done]. by destruct (concat cs).
Qed.

Lemma vol_get_absent v h : is_ok (decodeContentHash h) = true → needles v !! h = None → vol_get v h = Err (Errno ENOENT).
Proof.
  intros Hd Hn. unfold vol_get, getNeedleMetadata. destruct (decodeContentHash h); [|done]. by rewrite Hn.
Qed.

Lemma decode_traversal h : is_ok (decodeContentHash h) = true → HasPathTraversalChars h = false.
Proof. unfold decodeContentHash. by destruct (HasPathTraversalChars h). Qed.

(** A delete of the volume store that is not an error leaves the blob absent. *)
Lemma vol_delete_gone v h r v' : vol_inv v → vol_delete v h true = (r, v') → keep_err None r = None →
  vol_get v' h = Err (Errno ENOENT).
Proof.
  intros Hi E Hk. destruct r as [[]|e].
  - by apply (vol_delete_spec v h v' Hi) in E as (_ & ? & _).
  - unfold keep_err in Hk. case_decide as He; [subst e|done]. revert E. unfold vol_delete, vol_get, getNeedleMetadata.
    destruct (decodeContentHash h) as [hb|e] eqn:Ed.
    + destruct (needles v !! h) eqn:En.
      * unfold volume_of. destruct (activeVolume v) as [a|]; [|by intros [= ?]].
        destruct (_ =? _); [destruct (vsealed a); by intros [= ?]|].
        destruct (sealedVolumes v !! _) as [x|]; [|by intros [= ?]]. destruct (vsealed x); by intros [= ?].
      * intros [= <-]. by rewrite En.
    + intros [= -> <-]. unfold decodeContentHash in Ed. destruct (HasPathTraversalChars h); [done|].
      destruct (hex_decode h); [|done]. by case_decide.
Qed.

(** ** The contract of the decorator *)
Section Contract.
Context {B : Type} `{Hspec : BlobStoreSpec B} (env : vol_env).
Implicit Types a : AdaptiveBlobStore B.

(** What an acknowledged put of [c] under [h] leaves behind. *)
Definition adaptive_stored v (f : B) t h c a' : Prop :=
  ∃ v' f', a' = mkAd (Some v') (Some f') t ∧ vol_inv v' ∧ blob_inv f'
    ∧ adaptive_get a' h = Ok c
    ∧ (if Z.of_nat (length c) <=? t then f' = f ∧ vol_get v' h = Ok c else v' = v ∧ blob_view f' = <[h := c]> (blob_view f))
    ∧ ∀ h', h' ≠ h → vol_get v' h' = vol_get v h' ∧ blob_view f' !! h' = blob_view f !! h'.

Lemma route_stored v f t h b rd c a' :
  vol_inv v → volumeIDCounter v + 1 < 2 ^ 32 → blob_inv f → ve_fault env = NoFault → 0 <= t →
  is_ok (decodeContentHash h) = true → needles v !! h = None → blob_view f !! h = None →
  read_all rd = Ok c → (Z.of_nat (length b) <=? t) = (Z.of_nat (length c) <=? t) →
  route env (mkAd (Some v) (Some f) t) h b rd = (Ok tt, a') → adaptive_stored v f t h c a'.
Proof.
  intros Hv Hcnt Hf Hfault Ht Hd Hn Hfn Hrd Hb. unfold route, adaptive_stored.
  cbn [threshold avolume fallback PutBlob vol_store]. rewrite Hb, Hfault.
  destruct (Z.of_nat (length c) <=? t) eqn:Et; zbool.
  - destruct (vol_put v h rd NoFault (ve_now env)) as [res v'] eqn:Ep. intros [= -> <-].
    destruct (vol_put_spec _ _ _ _ _ _ Hv Hcnt Ep) as (Hv' & Ho & Hok & _).
    destruct (Hok eq_refl) as (c' & Hc' & _ & Hg). rewrite Hrd in Hc'. injection Hc' as <-.
    exists v', f. split_and!; try done; [|by intros h' Hh'; rewrite Ho].
    unfold adaptive_get. cbn [avolume with_volume]. by rewrite decode_traversal, Hg.
  - destruct (PutBlob f h rd) as [res f'] eqn:Ep. intros [= -> <-].
    destruct (put_ok _ _ _ _ Hf Ep) as [(c' & Hc' & Hview)|[_ [x Hx]]]; [|by rewrite Hfn in Hx].
    rewrite Hrd in Hc'. injection Hc' as <-. pose proof (put_inv f h rd Hf) as Hf'. rewrite Ep in Hf'.
    exists v, f'. split_and!; try done; [|intros h' Hh'; by rewrite Hview, lookup_insert_ne].
    unfold adaptive_get. rewrite decode_traversal by done. cbn [avolume with_fallback fallback]. rewrite vol_get_absent by done. cbn.
    apply get_ok; [done|rewrite Hview; apply lookup_insert_eq|]. intros ->. cbn in Et. lia.
Qed.

(** An acknowledged put of new content reads back byte for byte; it went to
    the volume exactly when it is no longer than the threshold, and to the
    fallback otherwise; the other backend and every other blob are
    untouched. *)
Theorem adaptive_put_get v f t h r c a' :
  vol_inv v → volumeIDCounter v + 1 < 2 ^ 32 → blob_inv f → ve_fault env = NoFault → 0 <= t →
  is_ok (decodeContentHash h) = true → needles v !! h = None → blob_view f !! h = None →
  read_all r = Ok c → adaptive_put env (mkAd (Some v) (Some f) t) h r = (Ok tt, a') → adaptive_stored v f t h c a'.
Proof.
  intros Hv Hcnt Hf Hfault Ht Hd Hn Hfn Hr. unfold adaptive_put. cbn [avolume fallback threshold].
  rewrite decode_traversal, !bool_decide_eq_false_2 by done. cbn [andb].
  destruct (replay_all r c Hr (Z.to_nat (t + 1))) as [(rest & -> & Hrd & Hl)|(Hl & -> & ->)].
  - apply route_stored; try done. rewrite length_take, (proj2 (Z.leb_gt _ _)), (proj2 (Z.leb_gt _ _)) by lia. done.
  - assert (read_all (replay c (Source [] None)) = Ok c) as Hrd by (unfold read_all, replay; cbn; by rewrite !app_nil_r).
    destruct c; by apply route_stored.
Qed.

(** An acknowledged delete leaves the blob in neither backend. *)
Lemma adaptive_delete_gone v f t h a' :
  vol_inv v → blob_inv f → ve_punch env = true → (DeleteBlob f h).1 ≠ Err (Errno ENOENT) →
  adaptive_delete env (mkAd (Some v) (Some f) t) h = (Ok tt, a') →
  is_ok (adaptive_get a' h) = false ∧ (∀ h', h' ≠ h → ∃ f', fallback a' = Some f' ∧ blob_view f' !! h' = blob_view f !! h').
Proof.
  intros Hv Hf Hp Hne. unfold adaptive_delete. destruct (HasPathTraversalChars h) eqn:Eh; [done|].
  cbn [avolume]. rewrite Hp. destruct (vol_delete v h true) as [r1 v'] eqn:E1. cbn [fallback with_volume].
  destruct (DeleteBlob f h) as [r2 f'] eqn:E2. cbn [fst] in Hne.
  destruct r2 as [[]|e2].
  - cbn [keep_err]. destruct (keep_err None r1) as [|] eqn:Ek; [done|]. intros [= <-].
    pose proof (delete_ok _ _ _ Hf E2) as Hview. pose proof (delete_inv f h Hf) as Hf'. rewrite E2 in Hf'.
    split.
    + unfold adaptive_get. rewrite Eh. cbn [avolume fallback with_fallback with_volume].
      rewrite (vol_delete_gone _ _ _ _ Hv E1 Ek). cbn. apply get_none; [done|]. rewrite Hview. apply lookup_delete_eq.
    + intros h' Hh'. exists f'. split; [done|]. by rewrite Hview, lookup_delete_ne.
  - cbn [keep_err]. rewrite decide_False by congruence. done.
Qed.
End Contract.

(** ** Concrete runs: threshold 4, the fallback a map *)
Definition ad_env : vol_env := mkVE NoFault true 1.
Definition ad_store : AdaptiveBlobStore (gmap bytes bytes) := mkAd (Some wv0) (Some ∅) 4.

(** "hello" is over the threshold, "hi" is not. *)
Definition ad_large := adaptive_put ad_env ad_store wh1 (reader_of wb1).
Definition ad_small := adaptive_put ad_env ad_store wh2 (reader_of wb2).

Lemma run_pair {A C} (p : A * C) a : p.1 = a → p = (a, p.2).
Proof. destruct p. by intros <-. Qed.

Lemma adaptive_put_get_witness :
  adaptive_stored wv0 (∅ : gmap bytes bytes) 4 wh1 wb1 ad_large.2 ∧ avolume ad_large.2 = Some wv0.
Proof.
  split; [|vm_compute; reflexivity].
  apply (adaptive_put_get ad_env wv0 ∅ 4 wh1 (reader_of wb1) wb1);
    [exact wv0_inv|vm_compute; reflexivity|exact I|reflexivity|discriminate|vm_compute; reflexivity..|].
  apply run_pair. vm_compute. reflexivity.
Defined.

Example adaptive_small_in_volume : ad_small.1 = Ok tt ∧ fallback ad_small.2 = Some ∅ ∧ adaptive_get ad_small.2 wh2 = Ok wb2.
Proof. vm_compute. done. Qed.

(** Without the volume a small blob is refused, whatever the fallback could
    hold. *)
Example adaptive_no_volume :
  (adaptive_put ad_env (mkAd None (Some (∅ : gmap bytes bytes)) 4) wh2 (reader_of wb2)).1 = Err (Errno ENOSYS).
Proof. reflexivity. Qed.
