(* ===== verification/Encrypted.v ===== *)
(** * Encryption at rest (src/src/storage/encrypted_blobstore.go)

    [EncryptedBlobStore] stores the stream format of [Crypto] in any backend
    that meets the blob contract, under the digest of the plaintext.  The pipe
    between [EncryptStream] and the inner store is the reader the inner store
    sees: what was written, then the error the pipe was closed with.  The random
    source is an argument, [random n] its answer to the [n]-th stream. *)
From S2P Require Import Prelude GoText Hashes Paths Aes BlobStore Volume VolumeTheorems VolumeProps Crypto Adaptive.
Open Scope Z_scope.

Record EncryptedBlobStore (B : Type) := mkEnc {
  inner : B;
  cipher : Cipher;
  random : nat → result bytes;
  drawn : nat
}.
Arguments mkEnc {B}.
Arguments inner {B}.
Arguments cipher {B}.
Arguments random {B}.
Arguments drawn {B}.

Definition NewEncryptedBlobStore {B} (b : B) (encKeyHex : bytes) (rnd : nat → result bytes)
    : result (EncryptedBlobStore B) :=
  let! c := NewCipherFromHex encKeyHex in Ok (mkEnc b c rnd 0).

(** What the inner store reads from the pipe. *)
Definition pipe_reader (m : result unit * sink) : reader :=
  Reader [written m.2] (match m.1 with Ok _ => None | Err e => Some e end).

Section Operations.
Context {B : Type} `{BlobStore B}.
Implicit Types e : EncryptedBlobStore B.

Definition with_inner (b : B) (n : nat) e : EncryptedBlobStore B := mkEnc b (cipher e) (random e) n.

Definition enc_put e (hash : bytes) (content : reader) : result unit * EncryptedBlobStore B :=
  let pr := pipe_reader (EncryptStream (cipher e) (random e (drawn e)) (source_of content) (Sink [] None)) in
  let '(res, b) := PutBlob (inner e) hash pr in
  (res, with_inner b (S (drawn e)) e).

Definition enc_get e (hash : bytes) : result bytes :=
  let! ciphertext := GetBlob (inner e) hash in
  match DecryptStream (cipher e) (Source ciphertext None) (Sink [] None) with
  | (Ok _, k) => Ok (written k)
  | (Err er, _) => Err er
  end.

Definition enc_delete e (hash : bytes) : result unit * EncryptedBlobStore B :=
  let '(res, b) := DeleteBlob (inner e) hash in (res, with_inner b (drawn e) e).

Definition enc_exists e (hash : bytes) : result bool :=
  match BlobExists with Some f => f (inner e) hash | None => Ok true end.
End Operations.

#[export] Instance encrypted_store {B} `{BlobStore B} : BlobStore (EncryptedBlobStore B) := {|
  PutBlob := enc_put;
  GetBlob := enc_get;
  DeleteBlob := enc_delete;
  BlobExists := Some enc_exists
|}.

(** ** Over a backend that meets the contract *)
Section Contract.
Context {B : Type} `{Hspec : BlobStoreSpec B}.
Implicit Types e : EncryptedBlobStore B.

Lemma pipe_format e seed r c : random e (drawn e) = Ok seed → read_all r = Ok c →
  pipe_reader (EncryptStream (cipher e) (random e (drawn e)) (source_of r) (Sink [] None))
  = Reader [stream_v4 (cipher e) seed c] None.
Proof.
  intros -> Hr. unfold read_all in Hr. destruct r as [cs [er|]]; [done|]. cbn in Hr. injection Hr as <-.
  unfold source_of. cbn [rd_chunks rd_err]. rewrite EncryptStream_format. done.
Qed.

Lemma stream_v4_ne c seed p : stream_v4 c seed p ≠ [].
Proof. done. Qed.

(** A stored stream reads back as its plaintext. *)
Lemma enc_get_stored e h seed p : blob_inv (inner e) → blob_view (inner e) !! h = Some (stream_v4 (cipher e) seed p) →
  length seed = streamSeedSize → effective_chunk (cipher e) <= MaxChunkSize - TagSize →
  footer_distinct (ckey (cipher e)) seed (uint32 (Z.of_nat (length (chunked (Z.to_nat (effective_chunk (cipher e))) p)))) →
  enc_get e h = Ok p.
Proof.
  intros Hi Hv Hs Hc Hd. unfold enc_get. rewrite (get_ok _ _ _ Hi Hv (stream_v4_ne _ _ _)).
  rewrite <- (app_nil_r (stream_v4 _ _ _)), (DecryptStream_format _ _ _ _ None) by done. done.
Qed.

(** An acknowledged put of new content stores only its encrypted stream,
    under the digest of the plaintext, leaves every other blob alone, and the
    blob then reads back byte for byte, in any backend that meets the
    contract. *)
Theorem encrypted_put_get e h r c seed e' :
  blob_inv (inner e) → read_all r = Ok c → random e (drawn e) = Ok seed → length seed = streamSeedSize →
  effective_chunk (cipher e) <= MaxChunkSize - TagSize →
  footer_distinct (ckey (cipher e)) seed (uint32 (Z.of_nat (length (chunked (Z.to_nat (effective_chunk (cipher e))) c)))) →
  blob_view (inner e) !! h = None → PutBlob e h r = (Ok tt, e') →
  blob_inv (inner e') ∧ blob_view (inner e') = <[h := stream_v4 (cipher e) seed c]> (blob_view (inner e))
  ∧ GetBlob e' h = Ok c.
Proof.
  intros Hi Hr Hrnd Hs Hc Hd Hn. cbn [PutBlob encrypted_store]. unfold enc_put. rewrite (pipe_format _ seed _ c) by done.
  set (pr := Reader _ None). pose proof (put_inv (inner e) h pr Hi) as Hi'.
  destruct (PutBlob (inner e) h pr) as [res b] eqn:Ep. intros [= -> <-]. cbn [snd inner with_inner] in *.
  destruct (put_ok _ _ _ _ Hi Ep) as [(c' & Hc' & Hv)|[_ [x Hx]]]; [|by rewrite Hn in Hx].
  cbn [read_all rd_err rd_chunks pr concat] in Hc'. rewrite app_nil_r in Hc'. injection Hc' as <-.
  split_and!; [done|done|]. apply (enc_get_stored _ _ seed); try done. cbn [inner cipher with_inner].
  rewrite Hv. apply lookup_insert_eq.
Qed.

(** A put whose content cannot be read to its end changes no stored blob, and is
    acknowledged only when the backend held the digest already; the one reader
    error that does not count is [io.ErrUnexpectedEOF]. *)
Lemma enc_put_read_error e h r er res e' :
  blob_inv (inner e) → rd_err r = Some er → er ≠ ErrUnexpectedEOF → enc_put e h r = (res, e') →
  blob_view (inner e') = blob_view (inner e) ∧ (res = Ok tt → is_Some (blob_view (inner e) !! h)).
Proof.
  intros Hi Hr Hne. unfold enc_put.
  assert (∃ er' cs, pipe_reader (EncryptStream (cipher e) (random e (drawn e)) (source_of r) (Sink [] None)) = Reader cs (Some er'))
    as (er' & cs & ->).
  { unfold source_of. rewrite Hr.
    destruct (EncryptStream_read_error (cipher e) (random e (drawn e)) (concat (rd_chunks r)) er (Sink [] None) Hne) as (er' & k & ->).
    by exists er', [written k]. }
  destruct (PutBlob _ _ _) as [res' b] eqn:Ep. intros [= <- <-]. cbn [inner with_inner].
  destruct res' as [[]|er2].
  - destruct (put_ok _ _ _ _ Hi Ep) as [(c' & [=] & _)|[-> Hx]]. by split.
  - rewrite (put_err _ _ _ _ _ Hi Ep). by split.
Qed.

(** What is left of a stored stream after a cut is never served. *)
Lemma enc_get_truncated e h d seed p : blob_inv (inner e) → length seed = streamSeedSize →
  blob_view (inner e) !! h = Some d → d ≠ [] → d `prefix_of` stream_v4 (cipher e) seed p →
  (length d < length (stream_v4 (cipher e) seed p))%nat → is_ok (enc_get e h) = false.
Proof.
  intros Hi Hs Hv Hne Hp Hl. unfold enc_get. rewrite (get_ok _ _ _ Hi Hv Hne).
  destruct (DecryptStream_truncated _ _ _ _ Hs Hp Hl) as (er & w & -> & _). done.
Qed.
End Contract.

(** ** Over the volume store *)
Lemma stream_longer c seed p : (length p < length (stream_v4 c seed p))%nat.
Proof.
  unfold stream_v4, stream_body. rewrite !length_app.
  assert (∀ ps key i, (length (concat ps) <= length (frames key seed i ps))%nat) as H.
  { induction ps as [|x ps IH]; intros key i; [done|]. cbn [concat frames].
    rewrite !length_app, length_frame, length_Seal. specialize (IH key (uint32 (i + 1))). lia. }
  pose proof (effective_chunk_range c) as Hc. unfold MinChunkSize in Hc.
  specialize (H (chunked (Z.to_nat (effective_chunk c)) p) (ckey c) 0). rewrite concat_chunked in H by lia.
  change (length (stream_header _)) with 3%nat. lia.
Qed.

(** Encryption at rest over the volume backend refuses every upload: the
    volume store checks that the bytes it receives hash to the blob's key, and
    it receives the encrypted stream under the digest of the plaintext.  Unless
    the two byte strings, of different length, have the same SHA-256, the put
    is an error and the volume is unchanged. *)
Theorem encrypted_volume_rejects (env : vol_env) (e : EncryptedBlobStore VolumeBlobStore) c seed :
  random e (drawn e) = Ok seed → sha256 (stream_v4 (cipher e) seed c) ≠ sha256 c →
  let '(res, e') := @PutBlob _ (@encrypted_store _ (vol_store env)) e (HashBytes c) (reader_of c) in
  is_ok res = false ∧ inner e' = inner e ∧ (length c < length (stream_v4 (cipher e) seed c))%nat.
Proof.
  intros Hr Hne. cbn [PutBlob encrypted_store]. unfold enc_put.
  rewrite (pipe_format e seed (reader_of c) c) by (done || (unfold read_all, reader_of; cbn; by rewrite app_nil_r)).
  cbn [PutBlob vol_store]. destruct (vol_put _ _ _ _ _) as [res v] eqn:Ep.
  apply vol_put_inv in Ep as [(er & -> & ->)|(hb & p & Hh & Hp & Hs & _)]; [split_and!; [done..|apply stream_longer]|].
  destruct Hne. unfold read_all in Hp. cbn [rd_err rd_chunks concat] in Hp. rewrite app_nil_r in Hp. injection Hp as <-.
  unfold decodeContentHash, HashBytes in Hh. rewrite hex_roundtrip in Hh.
  destruct (HasPathTraversalChars _); [done|]. case_decide; [|done]. congruence.
Qed.

(** ** Concrete runs *)
Definition en_random (n : nat) : result bytes := Ok (bs "seed" ++ put_be 4 (Z.of_nat n)).
Definition en_store : EncryptedBlobStore (gmap bytes bytes) := mkEnc ∅ (mkCipher ex_key ChunkSize) en_random 0.
Definition en_put := PutBlob en_store wh1 (reader_of wb1).

Lemma encrypted_put_get_witness :
  blob_inv (inner en_put.2)
  ∧ blob_view (inner en_put.2) = <[wh1 := stream_v4 (cipher en_store) (bs "seed" ++ put_be 4 0) wb1]> (blob_view (inner en_store))
  ∧ GetBlob en_put.2 wh1 = Ok wb1.
Proof.
  apply (encrypted_put_get en_store wh1 (reader_of wb1) wb1 (bs "seed" ++ put_be 4 0));
    [exact I|reflexivity|reflexivity|reflexivity|vm_compute; discriminate|vm_compute; reflexivity|vm_compute; reflexivity|].
  apply run_pair. vm_compute. reflexivity.
Defined.

Definition en_volume : EncryptedBlobStore VolumeBlobStore := mkEnc wv0 (mkCipher ex_key ChunkSize) en_random 0.

Lemma encrypted_volume_rejects_witness :
  let '(res, e') := @PutBlob _ (@encrypted_store _ (vol_store ad_env)) en_volume (HashBytes wb1) (reader_of wb1) in
  is_ok res = false ∧ inner e' = inner en_volume
  ∧ (length wb1 < length (stream_v4 (cipher en_volume) (bs "seed" ++ put_be 4 0) wb1))%nat.
Proof.
  apply (encrypted_volume_rejects ad_env en_volume wb1 (bs "seed" ++ put_be 4 0)); [reflexivity|].
  vm_compute. discriminate.
Defined.

(** The same content is accepted by the volume and refused when encrypted. *)
Example encrypted_volume_refused :
  (vol_put wv0 wh1 (reader_of wb1) NoFault 1).1 = Ok tt
  ∧ (@PutBlob _ (@encrypted_store _ (vol_store ad_env)) en_volume wh1 (reader_of wb1)).1 = Err ErrPlain.
Proof. vm_compute. done. Qed.

(** A body cut short by the peer is stored as if it were whole. *)
Example encrypted_cut_stored :
  (enc_put en_store wh1 (Reader [bs "hel"] (Some ErrUnexpectedEOF))).1 = Ok tt
  ∧ (PutBlob (∅ : gmap bytes bytes) wh1 (Reader [bs "hel"] (Some ErrUnexpectedEOF))).1 = Err ErrUnexpectedEOF.
Proof. vm_compute. done. Qed.
