(* ===== verification/Confidential.v ===== *)
(** * Confidential uploads and downloads (src/src/client/client.go)

    The client's end-to-end encryption around the plain transfers of [Client]:
    the choice of keys, the encrypted spool and its digest, the opaque name, and
    the decryption of a download.  The content key of the threshold OPRF is an
    argument ([oprf], the result of [deriveOPRFContentKey] for a tag), as are
    the random bytes. *)
From S2P Require Import Prelude GoText Float64 Hashes Json Paths Aes Crypto ObjectMeta BlobStore RawStore AuditLog CasStore CasTheorems Versioning Lifecycle Notify Crush Protocol Ingest Client EndToEnd.
Open Scope Z_scope.

(** ** Keys *)
Record crypto_cfg := mkCrypto {
  E2EEKey : bytes;
  E2EEKeyID : bytes;
  EncryptionEnabled : bool;
  EncryptionKey : bytes;
  EncryptionTenant : bytes;
  OPRFEnabled : bool
}.

Definition envelopeMode (cfg : crypto_cfg) : bool := negb (bool_decide (E2EEKey cfg = [])).

Record upload_keys := mkKeys {
  e2eeMasterKey : bytes;
  tenantKey : bytes;
  encCipher : option Cipher
}.

Definition decode_key_hex (s : bytes) : result bytes :=
  match hex_decode s with Some k => Ok k | None => Err (Errno EINVAL) end.

(** The keys [Connect] loads before it dials. *)
Definition load_keys (cfg : crypto_cfg) : result upload_keys :=
  if envelopeMode cfg then
    if negb (Z.of_nat (length (E2EEKey cfg)) =? MaxKeyHexSize) then Err (Errno EINVAL)
    else
      let! master := decode_key_hex (E2EEKey cfg) in
      let! tk := DeriveKey master (EncryptionTenant cfg) DomainContent in
      if OPRFEnabled cfg then Err (Errno EINVAL) else Ok (mkKeys master tk None)
  else if EncryptionEnabled cfg then
    let! master := decode_key_hex (EncryptionKey cfg) in
    let! tk := DeriveKey master (EncryptionTenant cfg) DomainContent in
    if OPRFEnabled cfg then Ok (mkKeys [] tk None)
    else let! c := NewCipher tk in Ok (mkKeys [] tk (Some c))
  else Ok (mkKeys [] [] None).

(** ** The spool *)

(** The random bytes of one upload. *)
Record draws := mkDraws { d_key : result bytes; d_nonce : result bytes; d_seed : result bytes }.

(** A step of [Connect]: it goes on, or it returns with this error. *)
Inductive step_result (A : Type) :=
  | Go (a : A)
  | Stop (r : result unit).
Arguments Go {A} a.
Arguments Stop {A} r.

(** What is sent: the digest the object is stored under, the payload, and the
    cipher in use afterwards. *)
Record spooled := mkSpooled { sp_hash : bytes; sp_payload : bytes; sp_cipher : option Cipher }.

(** The content cipher of an upload: with the OPRF it is derived from the
    digest of the plaintext; a failure there is only logged. *)
Definition spool_cipher (cfg : crypto_cfg) (k : upload_keys) (oprf : bytes → result bytes) (content : bytes)
    : step_result (option Cipher) :=
  if OPRFEnabled cfg then
    match oprf (HashBytes content) with
    | Err _ => Stop (Ok tt)
    | Ok contentKey => match NewCipher contentKey with Err _ => Stop (Ok tt) | Ok c => Go (Some c) end
    end
  else Go (encCipher k).

Definition spool (cfg : crypto_cfg) (k : upload_keys) (oprf : bytes → result bytes) (d : draws) (content : bytes)
    : step_result spooled :=
  if EncryptionEnabled cfg || envelopeMode cfg then
    if MaxFileSize <? Z.of_nat (length content) then Stop (Ok tt)
    else match spool_cipher cfg k oprf content with
    | Stop r => Stop r
    | Go c =>
        if envelopeMode cfg then
          match EncryptEnvelope (d_key d) (d_nonce d) (d_seed d) (Source content None) (e2eeMasterKey k) (E2EEKeyID cfg) (Sink [] None) with
          | (Err e, _) => Stop (Err e)
          | (Ok _, s) => Go (mkSpooled (HashBytes (written s)) (written s) c)
          end
        else match c with
        | None => Stop (Err (Errno EIO))    (* a nil cipher panics *)
        | Some ci =>
            match EncryptStream ci (d_seed d) (Source content None) (Sink [] None) with
            | (Err e, _) => Stop (Err e)
            | (Ok _, s) => Go (mkSpooled (if OPRFEnabled cfg then HashBytes content else HashBytes (written s)) (written s) c)
            end
        end
    end
  else Go (mkSpooled (HashBytes content) content None).

(** The opaque name: an HMAC of the wire name under the tenant key, in
    hexadecimal. *)
Definition opaque_name (k : upload_keys) (wireName : bytes) : bytes := hex_encode (hmacSHA256 (tenantKey k) wireName).

Definition upload_meta (cfg : crypto_cfg) (k : upload_keys) (s : spooled) (fileName content remotePath wireName : bytes)
    : bytes * FileMetadata :=
  if negb (bool_decide (sp_cipher s = None)) || envelopeMode cfg then
    let w := opaque_name k wireName in
    (w, mkFile w (sp_hash s) (Z.of_nat (length (sp_payload s))) remotePath 0)
  else (wireName, mkFile fileName (sp_hash s) (Z.of_nat (length content)) remotePath 0).

Section Upload.
Context (scoreBits : Z → Z → Z).

(** [Connect], with its encryption. *)
Definition conf_Connect (challenge : bool) (cfg : client_cfg) (cc : crypto_cfg) (oprf : bytes → result bytes) (d : draws)
    (net : Z → option bytes) (fileName content remotePath : bytes)
    (serverId timestamp requestedMode replicationFactor : Z) : result unit * list transfer :=
  if (serverId <? 0) || (Z.of_nat (length (Daemons cfg)) <=? serverId) then (Ok tt, [])
  else match load_keys cc with
  | Err e => (Err e, [])
  | Ok k =>
  match open_conn challenge cfg net timestamp requestedMode serverId with
  | None => (Err ErrPlain, [])
  | Some (_, c0, mode) =>
  match spool cc k oprf d content with
  | Stop r => (r, [])
  | Go s =>
      let others :=
        if mode =? ReplicationPrimarySplay then
          match Placement scoreBits (client_nodes cfg) (sp_hash s) replicationFactor with
          | Ok placement =>
              omap (λ n, if ID n =? serverId then None
                         else (λ x, (x.1.1, x.1.2)) <$> open_conn challenge cfg net timestamp mode (ID n)) placement
          | Err _ => []
          end
        else [] in
      match meta_name fileName remotePath with
      | Err e => (Err e, [])
      | Ok wireName =>
          let '(wireName, meta) := upload_meta cc k s fileName content remotePath wireName in
          if FileInfoLength <? Z.of_nat (length wireName) then (Ok tt, [])
          else (Ok tt, send_one meta (sp_payload s) <$> (serverId, c0) :: others)
      end
  end end end.
End Upload.

(** ** Downloads *)
Definition createContentCipher (cfg : crypto_cfg) (oprf : bytes → result bytes) (contentHash : bytes) : result Cipher :=
  if OPRFEnabled cfg then
    let! key := oprf contentHash in NewCipher key
  else
    let! master := match hex_decode (EncryptionKey cfg) with Some k => Ok k | None => Err ErrPlain end in
    let! tk := DeriveKey master (EncryptionTenant cfg) DomainContent in
    NewCipher tk.

(** The payload of a reply: [size] bytes at most of what the server sends.
    [io.CopyN] past the end of the data is an error. *)
Definition decryptAndStreamPayload (cfg : crypto_cfg) (oprf : bytes → result bytes) (r : bytes) (size : Z) (contentHash : bytes)
    (dst : sink) : result unit * sink :=
  let limited := Source (take (Z.to_nat size) r) None in
  if negb (bool_decide (E2EEKey cfg = [])) then
    if OPRFEnabled cfg then (Err (Errno EINVAL), dst)
    else match hex_decode (E2EEKey cfg) with
         | None => (Err ErrPlain, dst)
         | Some master => let '((_, res), k) := DecryptEnvelope limited master dst in (res, k)
         end
  else if EncryptionEnabled cfg then
    match createContentCipher cfg oprf contentHash with
    | Err e => (Err e, dst)
    | Ok c => DecryptStream c limited dst
    end
  else
    match (if bool_decide (sdata limited = []) then (Ok tt, dst) else Crypto.Write (sdata limited) dst) with
    | (Err e, k) => (Err e, k)
    | (Ok _, k) => if (length r <? Z.to_nat size)%nat then (Err ErrEOF, k) else (Ok tt, k)
    end.

(** [Download] from the bytes the daemon answers. *)
Definition conf_download (cfg : crypto_cfg) (oprf : bytes → result bytes) (contentHash : bytes) (reply : option bytes) (dst : sink)
    : result unit * sink :=
  match reply with
  | None => (Err ErrPlain, dst)
  | Some input =>
      match take 65 input with
      | c :: sz =>
          if (length input <? 65)%nat then (Err ErrPlain, dst)
          else if negb (bool_decide (c = st_ok)) then (Err (Errno ENOENT), dst)
          else match SafeParseInt (TrimNullBytesString sz) with
               | Err e => (Err e, dst)
               | Ok size =>
                   if (size <? 0) || (MaxFileSize <? size) then (Err (Errno EFBIG), dst)
                   else decryptAndStreamPayload cfg oprf (drop 65 input) size contentHash dst
               end
      | [] => (Err ErrPlain, dst)
      end
  end.

(** * Theorems *)

(** Without encryption configured, this is the plain upload. *)
Lemma conf_Connect_plain scoreBits challenge cfg cc oprf d net fileName content remotePath serverId ts mode rf :
  E2EEKey cc = [] → EncryptionEnabled cc = false →
  conf_Connect scoreBits challenge cfg cc oprf d net fileName content remotePath serverId ts mode rf
  = client_Connect scoreBits challenge cfg net fileName content remotePath serverId ts mode rf.
Proof.
  intros H1 H2. assert (envelopeMode cc = false) as He by (unfold envelopeMode; by rewrite H1).
  unfold conf_Connect, client_Connect, load_keys, spool, upload_meta. rewrite He, H2.
  destruct (_ || _); [reflexivity|]. destruct (open_conn _ _ _ _ _ _) as [[[x c0] m]|]; [|reflexivity].
  cbn [orb sp_hash sp_cipher sp_payload]. rewrite bool_decide_eq_true_2 by reflexivity. cbn [negb orb].
  destruct (meta_name fileName remotePath); reflexivity.
Qed.

(** ** What the server sees *)
Definition draws_ok (d : draws) (dataKey nonce seed : bytes) : Prop :=
  d = mkDraws (Ok dataKey) (Ok nonce) (Ok seed)
  ∧ length dataKey = 32%nat ∧ length nonce = 12%nat ∧ length seed = streamSeedSize.

Definition confidential (cc : crypto_cfg) : bool := EncryptionEnabled cc || envelopeMode cc.

Lemma NewCipher_inv key c : NewCipher key = Ok c → c = mkCipher key ChunkSize ∧ length key = 32%nat.
Proof.
  unfold NewCipher. destruct (_ =? _) eqn:E; [|done]. zbool. unfold KeySize in E. intros [= <-]. split; [done|lia].
Qed.

Lemma load_keys_envelope cc k : envelopeMode cc = true → load_keys cc = Ok k →
  OPRFEnabled cc = false ∧ encCipher k = None ∧ length (e2eeMasterKey k) = 32%nat
  ∧ hex_decode (E2EEKey cc) = Some (e2eeMasterKey k).
Proof.
  intros He. unfold load_keys, decode_key_hex. rewrite He. destruct (_ =? _); [|done]. cbn [negb].
  destruct (hex_decode (E2EEKey cc)) as [m|]; [|done]. unfold DeriveKey. destruct (_ =? _) eqn:El; [|done]. cbn [negb].
  destruct (OPRFEnabled cc); [done|]. intros [= <-]. zbool. unfold KeySize in El. split_and!; try done. cbn. lia.
Qed.

(** The cipher an upload uses is the one a download derives from the digest. *)
Lemma spool_cipher_download cc k oprf content c : envelopeMode cc = false → EncryptionEnabled cc = true → load_keys cc = Ok k →
  spool_cipher cc k oprf content = Go (Some c) →
  ∀ hash, (OPRFEnabled cc = true → hash = HashBytes content) →
  createContentCipher cc oprf hash = Ok c ∧ chunkSize c = ChunkSize.
Proof.
  intros He Hen Hk Hs hash Hh. unfold load_keys, decode_key_hex in Hk. rewrite He, Hen in Hk. unfold spool_cipher in Hs. unfold createContentCipher.
  destruct (hex_decode (EncryptionKey cc)) as [m|]; [|done].
  destruct (DeriveKey m _ _) as [tk|]; [|done]. destruct (OPRFEnabled cc).
  - rewrite (Hh eq_refl). destruct (oprf (HashBytes content)) as [ck|]; [|done].
    destruct (NewCipher ck) as [c'|] eqn:En; [|done]. injection Hs as <-. by apply NewCipher_inv in En as [-> _].
  - destruct (NewCipher tk) as [c'|] eqn:En; [|done]. injection Hk as <-. injection Hs as <-. by apply NewCipher_inv in En as [-> _].
Qed.

(** The key the payload is encrypted with. *)
Definition payload_key (s : spooled) (dataKey : bytes) : bytes :=
  match sp_cipher s with Some c => ckey c | None => dataKey end.

(** C20: What a confidential upload spools, a download with the same
    configuration turns back into the file: in envelope mode, with the tenant's
    content key, and with the key of the threshold OPRF, whatever the server
    sends after the payload; the destination receives exactly the
    plaintext. *)
Theorem confidential_roundtrip cc oprf d dataKey nonce seed k content s rest :
  draws_ok d dataKey nonce seed → load_keys cc = Ok k → confidential cc = true → spool cc k oprf d content = Go s →
  footer_distinct (payload_key s dataKey) seed (uint32 (Z.of_nat (length (chunked 4096 content)))) →
  decryptAndStreamPayload cc oprf (sp_payload s ++ rest) (Z.of_nat (length (sp_payload s))) (sp_hash s) (Sink [] None)
  = (Ok tt, Sink content None).
Proof.
  intros (-> & Hd & Hn & Hs) Hk Hc Hsp Hf. unfold spool in Hsp. unfold confidential in Hc. rewrite Hc in Hsp. cbn [d_key d_nonce d_seed] in Hsp.
  destruct (_ <? _); [done|]. unfold decryptAndStreamPayload. rewrite Nat2Z.id, take_app_length.
  destruct (spool_cipher cc k oprf content) as [c|] eqn:Ec; [|done]. destruct (envelopeMode cc) eqn:Em.
  - destruct (load_keys_envelope cc k Em Hk) as (Ho & Hc0 & Hl & Hx). unfold spool_cipher in Ec. rewrite Ho in Ec. injection Ec as <-.
    destruct (decide (Z.of_nat (length (E2EEKeyID cc)) <= envelopeMaxKeyIDLen)) as [Hid|Hid].
    2:{ unfold EncryptEnvelope in Hsp. rewrite Hl, Z.gtb_ltb, (proj2 (Z.ltb_lt _ _)) in Hsp by lia. done. }
    rewrite EncryptEnvelope_format in Hsp by done. injection Hsp as <-. cbn [sp_payload sp_hash payload_key sp_cipher written app] in *.
    rewrite Hc0 in Hf. unfold envelopeMode in Em. rewrite Em, Ho, Hx. by rewrite DecryptEnvelope_format.
  - rewrite orb_false_r in Hc. destruct c as [c|]; [|done]. rewrite EncryptStream_format in Hsp. injection Hsp as <-.
    cbn [sp_payload sp_hash payload_key sp_cipher written app] in *.
    unfold envelopeMode in Em. rewrite Em, Hc.
    destruct (spool_cipher_download cc k oprf content c Em Hc Hk Ec (if OPRFEnabled cc then HashBytes content else HashBytes (stream_v4 c seed content)))
      as [-> Hch]; [by intros ->|].
    assert (effective_chunk c = 4096) as Hec by (unfold effective_chunk; by rewrite Hch).
    rewrite <- (app_nil_r (stream_v4 _ _ _)). by rewrite (DecryptStream_format c) by (rewrite ?Hec; done || lia).
Qed.

(** Without the OPRF the object is stored under the digest of what is sent. *)
Lemma spool_opaque cc k oprf d content s : confidential cc = true → spool cc k oprf d content = Go s →
  negb (bool_decide (sp_cipher s = None)) || envelopeMode cc = true
  ∧ sp_hash s = (if OPRFEnabled cc && negb (envelopeMode cc) then HashBytes content else HashBytes (sp_payload s)).
Proof.
  intros Hc. unfold spool. unfold confidential in Hc. rewrite Hc. destruct (_ <? _); [done|].
  destruct (spool_cipher cc k oprf content) as [c|] eqn:Ec; [|done]. destruct (envelopeMode cc).
  - destruct (EncryptEnvelope _ _ _ _ _ _ _) as [[u|e] sk]; [|done]. intros [= <-]. rewrite orb_true_r, andb_false_r. split; reflexivity.
  - destruct c as [c|]; [|done]. destruct (EncryptStream _ _ _ _) as [[u|e] sk]; [|done]. intros [= <-].
    rewrite andb_true_r. cbn [sp_cipher sp_hash sp_payload]. split; [by rewrite bool_decide_eq_false_2|reflexivity].
Qed.

Lemma length_opaque_name k w : length (opaque_name k w) = 64%nat.
Proof.
  unfold opaque_name, hmacSHA256. set (m := _ ++ sha256 _). exact (length_HashBytes m).
Qed.

(** To the server a confidential upload is the plain upload of the
    encrypted spool under the opaque name: the same connections, the same bytes
    on each of them, the same placement and the same acknowledgements, so what
    is proved of plain uploads holds of it and neither the file's name nor its
    content is sent. *)
Theorem confidential_is_plain_upload scoreBits challenge cfg cc oprf d net fileName content k s serverId ts mode rf :
  confidential cc = true → OPRFEnabled cc = false → load_keys cc = Ok k → spool cc k oprf d content = Go s →
  conf_Connect scoreBits challenge cfg cc oprf d net fileName content [] serverId ts mode rf
  = client_Connect scoreBits challenge cfg net (opaque_name k fileName) (sp_payload s) [] serverId ts mode rf.
Proof.
  intros Hc Ho Hk Hs. destruct (spool_opaque _ _ _ _ _ _ Hc Hs) as [Hop Hh]. rewrite Ho in Hh. cbn [andb] in Hh.
  unfold conf_Connect, client_Connect, upload_meta. rewrite Hk. destruct ((serverId <? 0) || _); [reflexivity|].
  destruct (open_conn _ _ _ _ _ _) as [[[x c0] m]|]; [|reflexivity]. rewrite Hs. cbv beta iota zeta.
  rewrite Hop, Hh. unfold meta_name. rewrite !decide_True by reflexivity. reflexivity.
Qed.

(** ** Findings *)

(** With a remote path the opaque name is put below the path again when it is
    sent, and does not fit: no daemon receives the object. *)
Lemma confidential_path_unsendable k fileName hash size remotePath p c :
  remotePath ≠ [] → NormalizeVirtualPath remotePath = Ok p →
  (SendMetadata (mkFile (opaque_name k fileName) hash size remotePath 0) (c, tt)) = (Err (Errno ENAMETOOLONG), (c, tt)).
Proof.
  intros Hr Hp. unfold SendMetadata. cbn [Name RemotePath]. unfold meta_name. rewrite decide_False, Hp by done.
  erewrite bind_ok by reflexivity. unfold check_wire_name. rewrite !length_app, length_opaque_name.
  rewrite (proj2 (Z.ltb_lt _ _)) by (unfold FileInfoLength; cbn [length]; lia). reflexivity.
Qed.

(** With the OPRF the object is announced under the digest of the plaintext
    while the encrypted bytes are sent. *)
Lemma oprf_digest_of_plaintext cc k oprf d content s : envelopeMode cc = false → EncryptionEnabled cc = true → OPRFEnabled cc = true →
  spool cc k oprf d content = Go s → sp_hash s = HashBytes content.
Proof.
  intros He Hen Ho Hs. assert (confidential cc = true) as Hc by (unfold confidential; by rewrite Hen).
  destruct (spool_opaque _ _ _ _ _ _ Hc Hs) as [_ Hh]. by rewrite Ho, He in Hh.
Qed.

(** ** Concrete runs *)
Definition cf_envelope : crypto_cfg := mkCrypto (hex_encode ex_key) (bs "k1") false [] (bs "default") false.
Definition cf_tenant : crypto_cfg := mkCrypto [] [] true (hex_encode ex_key) (bs "default") false.
Definition cf_oprf : crypto_cfg := mkCrypto [] [] true (hex_encode ex_key) (bs "default") true.
Definition cf_draws : draws := mkDraws (Ok ex_key2) (Ok ex_nonce) (Ok ex_seed).
Definition cf_eval (tag : bytes) : result bytes := Ok (sha256 tag).
Definition cf_body : bytes := bs "hello".

Definition cf_keys (cc : crypto_cfg) : upload_keys := match load_keys cc with Ok k => k | Err _ => mkKeys [] [] None end.
Definition cf_spool (cc : crypto_cfg) : spooled :=
  match spool cc (cf_keys cc) cf_eval cf_draws cf_body with Go s => s | Stop _ => mkSpooled [] [] None end.

Lemma confidential_roundtrip_witness :
  decryptAndStreamPayload cf_oprf cf_eval (sp_payload (cf_spool cf_oprf) ++ bs "rest") (Z.of_nat (length (sp_payload (cf_spool cf_oprf))))
    (sp_hash (cf_spool cf_oprf)) (Sink [] None) = (Ok tt, Sink cf_body None).
Proof.
  apply (confidential_roundtrip cf_oprf cf_eval cf_draws ex_key2 ex_nonce ex_seed (cf_keys cf_oprf) cf_body (cf_spool cf_oprf) (bs "rest"));
    [split_and!; reflexivity|vm_compute; reflexivity..].
Defined.

Lemma confidential_is_plain_upload_witness :
  let net i := if i =? 1 then Some [Byte.x30; Byte.x01; Byte.x41; Byte.x43; Byte.x4b; Byte.x01] else None in
  conf_Connect ex_score false ex_client cf_envelope cf_eval cf_draws net (bs "f") cf_body [] 1 (10 ^ 18) 0 1
  = client_Connect ex_score false ex_client net (opaque_name (cf_keys cf_envelope) (bs "f")) (sp_payload (cf_spool cf_envelope)) [] 1 (10 ^ 18) 0 1.
Proof.
  cbv zeta. apply (confidential_is_plain_upload ex_score false ex_client cf_envelope cf_eval cf_draws); vm_compute; reflexivity.
Defined.

(** The three modes agree with their downloads. *)
Definition cf_back (cc : crypto_cfg) : result unit * sink :=
  decryptAndStreamPayload cc cf_eval (sp_payload (cf_spool cc)) (Z.of_nat (length (sp_payload (cf_spool cc))))
    (sp_hash (cf_spool cc)) (Sink [] None).

Example confidential_modes :
  cf_back cf_envelope = (Ok tt, Sink cf_body None) ∧ cf_back cf_tenant = (Ok tt, Sink cf_body None)
  ∧ cf_back cf_oprf = (Ok tt, Sink cf_body None).
Proof. split_and!; vm_compute; reflexivity. Qed.

(** A daemon that receives what [s] announces and sends. *)
Definition cf_sent (s : spooled) : conn :=
  mkConn (metadata_packet (sp_hash s) (bs "f") (Z.of_nat (length (sp_payload s))) ++ sp_payload s) [].

(** The daemon stores the first and refuses the second: it hashes the encrypted
    bytes and compares with the digest of the plaintext. *)
Example oprf_upload_refused :
  let run s := upload ex_score (ex_daemon 0 1 0 (λ _, FwOk)) native 0 0 (cf_sent s, ex_node) in
  (run (cf_spool cf_tenant)).1 = Ok tt ∧ (run (cf_spool cf_oprf)).1 = Err (Errno EBADMSG).
Proof. split; vm_compute; reflexivity. Qed.

(** With a remote path [Connect] reports success and no daemon has the file. *)
Example confidential_path_lost :
  let net i := if i =? 1 then Some [Byte.x30; Byte.x01; Byte.x41; Byte.x43; Byte.x4b; Byte.x01] else None in
  let up path := conf_Connect ex_score false ex_client cf_tenant cf_eval cf_draws net (bs "f") cf_body path 1 (10 ^ 18) 0 1 in
  (λ x, (x.1, t_acked <$> x.2)) (up []) = (Ok tt, [true])
  ∧ (λ x, (x.1, t_acked <$> x.2)) (up (bs "dir")) = (Ok tt, [false]).
Proof. split; vm_compute; reflexivity. Qed.
