(* ===== verification/S3List.v ===== *)
(** * Object listings of the S3 gateway (src/src/transport/s3_communicator.go)

    [FormatListObjectsV2XML] with its continuation tokens, delimiter grouping
    and XML text, and the helpers it uses. *)
From S2P Require Import Prelude GoText Hashes Json Paths CasStore Versioning Lifecycle Notify.
Open Scope Z_scope.

(** ** Base64 ([encoding/base64], standard alphabet) *)
Definition b64_char (n : Z) : byte :=
  if n <? 26 then z2b (65 + n) else if n <? 52 then z2b (71 + n) else if n <? 62 then z2b (n - 4)
  else if n =? 62 then Byte.x2b else Byte.x2f.

Definition b64_val (c : byte) : option Z :=
  let z := b2z c in
  if (65 <=? z) && (z <=? 90) then Some (z - 65)
  else if (97 <=? z) && (z <=? 122) then Some (z - 71)
  else if (48 <=? z) && (z <=? 57) then Some (z + 4)
  else if z =? 43 then Some 62 else if z =? 47 then Some 63 else None.

Definition ch_pad : byte := Byte.x3d.

Definition sextets (n : Z) : bytes :=
  [b64_char (n / 262144); b64_char (n / 4096 mod 64); b64_char (n / 64 mod 64); b64_char (n mod 64)].

Fixpoint b64_encode (s : bytes) : bytes :=
  match s with
  | [] => []
  | [a] => take 2 (sextets (b2z a * 65536)) ++ [ch_pad; ch_pad]
  | [a; b] => take 3 (sextets (b2z a * 65536 + b2z b * 256)) ++ [ch_pad]
  | a :: b :: c :: s' => sextets (b2z a * 65536 + b2z b * 256 + b2z c) ++ b64_encode s'
  end.

(** Groups of four; the last one may be padded. *)
Fixpoint b64_groups (s : bytes) : option bytes :=
  match s with
  | [] => Some []
  | a :: b :: c :: d :: s' =>
      match b64_val a, b64_val b with
      | Some x, Some y =>
          if decide (d = ch_pad) then
            if decide (s' = []) then
              if decide (c = ch_pad) then Some [z2b ((x * 64 + y) / 16)]
              else match b64_val c with
                   | Some z => Some [z2b ((x * 64 + y) / 16); z2b ((x * 4096 + y * 64 + z) / 4)]
                   | None => None
                   end
            else None
          else match b64_val c, b64_val d, b64_groups s' with
               | Some z, Some w, Some r =>
                   let n := x * 262144 + y * 4096 + z * 64 + w in
                   Some (z2b (n / 65536) :: z2b (n / 256) :: z2b n :: r)
               | _, _, _ => None
               end
      | _, _ => None
      end
  | _ => None
  end.

(** [DecodeString] skips line breaks. *)
Definition b64_decode (s : bytes) : option bytes :=
  b64_groups (filter (λ c, c ≠ ch_cr ∧ c ≠ ch_lf) s).

(** ** Continuation tokens *)
Definition continuationKindKey : byte := Byte.x4b.
Definition continuationKindPrefix : byte := Byte.x50.

Definition encodeContinuationToken (kind : byte) (key : bytes) : bytes := b64_encode (kind :: key).

Definition decodeContinuationToken (token : bytes) : option (byte * bytes) :=
  match b64_decode token with Some (k :: key) => Some (k, key) | _ => None end.

(** ** XML *)
Definition dq : bytes := [Byte.x22].
Definition xml_char (c : byte) : bytes :=
  if decide (c = Byte.x26) then bs "&amp;"
  else if decide (c = Byte.x3c) then bs "&lt;"
  else if decide (c = Byte.x3e) then bs "&gt;"
  else if decide (c = Byte.x22) then bs "&quot;"
  else if decide (c = Byte.x27) then bs "&apos;"
  else [c].
Definition xmlEscape (s : bytes) : bytes := concat (map xml_char s).

Definition xml_header : bytes := bs "<?xml version=" ++ dq ++ bs "1.0" ++ dq ++ bs " encoding=" ++ dq ++ bs "UTF-8" ++ dq ++ bs "?>".
Definition s3_xmlns : bytes := bs " xmlns=" ++ dq ++ bs "http://s3.amazonaws.com/doc/2006-03-01/" ++ dq ++ bs ">".

Definition FormatListBucketsXML (configuredBucket : bytes) : bytes :=
  xml_header ++ bs "<ListAllMyBucketsResult" ++ s3_xmlns
  ++ bs "<Owner><ID>momo</ID><DisplayName>momo</DisplayName></Owner><Buckets>"
  ++ (if decide (configuredBucket = []) then []
      else bs "<Bucket><Name>" ++ xmlEscape configuredBucket
           ++ bs "</Name><CreationDate>2024-01-01T00:00:00.000Z</CreationDate></Bucket>")
  ++ bs "</Buckets></ListAllMyBucketsResult>".

Definition FormatGetBucketLocationXML (region : bytes) : bytes :=
  xml_header ++ bs "<LocationConstraint" ++ s3_xmlns ++ xmlEscape region ++ bs "</LocationConstraint>".

(** ** The page *)

(** Where a listing resumes: at the start, after a key, or after a whole group. *)
Inductive resume :=
  | FromStart
  | AfterKey (k : bytes)
  | AfterPrefix (p : bytes).

Definition resume_of (startAfter : bytes) : resume :=
  if decide (startAfter = []) then FromStart
  else match decodeContinuationToken startAfter with
       | Some (kind, key) =>
           if decide (key = []) then FromStart
           else if decide (kind = continuationKindPrefix) then AfterPrefix key else AfterKey key
       | None => AfterKey startAfter
       end.

Definition skipped (r : resume) (key : bytes) : bool :=
  match r with
  | FromStart => false
  | AfterKey k => negb (bytes_ltb k key)
  | AfterPrefix p => has_prefix key p || bytes_ltb key p
  end.

(** [strings.Index] *)
Fixpoint str_index (s sub : bytes) : option nat :=
  if has_prefix s sub then Some 0%nat
  else match s with [] => None | _ :: s' => S <$> str_index s' sub end.

(** What a file contributes: itself, or the group it belongs to. *)
Inductive item :=
  | IKey (f : FileMetadata)
  | IPrefix (p : bytes).

Definition item_of (prefix delimiter : bytes) (f : FileMetadata) : item :=
  if decide (delimiter = []) then IKey f
  else let rel := drop (length prefix) (Name f) in
       match str_index rel delimiter with
       | Some i => IPrefix (prefix ++ take (S i) rel)
       | None => IKey f
       end.

Record page := mkPage { contents : list FileMetadata; prefixes : list bytes; truncated : bool; lastItem : option item }.

Definition with_item (it : item) (p : page) : page :=
  match it with
  | IKey f => mkPage (contents p ++ [f]) (prefixes p) (truncated p) (Some it)
  | IPrefix x => mkPage (contents p) (prefixes p ++ [x]) (truncated p) (Some it)
  end.

Definition keyCount (p : page) : Z := Z.of_nat (length (contents p)) + Z.of_nat (length (prefixes p)).

(** A group that is already on the page. *)
Definition emitted (it : item) (p : page) : bool :=
  match it with IKey _ => false | IPrefix x => bool_decide (x ∈ prefixes p) end.

Definition listed (prefix : bytes) (r : resume) (f : FileMetadata) : bool :=
  negb ((64 <? Z.of_nat (length (Name f))) || (64 <? Z.of_nat (length (Hash f))))
  && negb (skipped r (Name f))
  && (bool_decide (prefix = []) || has_prefix (Name f) prefix).

Fixpoint listing_loop (prefix delimiter : bytes) (maxKeys : Z) (r : resume) (files : list FileMetadata) (p : page) : page :=
  match files with
  | [] => p
  | f :: files' =>
      if negb (listed prefix r f) then listing_loop prefix delimiter maxKeys r files' p
      else
        let it := item_of prefix delimiter f in
        if emitted it p then listing_loop prefix delimiter maxKeys r files' p
        else if (0 <? maxKeys) && (maxKeys <=? keyCount p) then mkPage (contents p) (prefixes p) true (lastItem p)
        else listing_loop prefix delimiter maxKeys r files' (with_item it p)
  end.

Definition file_less (a b : FileMetadata) : bool := bytes_ltb (Name a) (Name b).

Definition list_page (prefix delimiter : bytes) (maxKeys : Z) (r : resume) (files : list FileMetadata) : page :=
  listing_loop prefix delimiter maxKeys r (stable_sort file_less files) (mkPage [] [] false None).

Definition item_token (it : item) : byte * bytes :=
  match it with IKey f => (continuationKindKey, Name f) | IPrefix p => (continuationKindPrefix, p) end.

Definition next_token (p : page) : bytes :=
  match truncated p, lastItem p with
  | true, Some it => let '(kind, key) := item_token it in if decide (key = []) then [] else encodeContinuationToken kind key
  | _, _ => []
  end.

(** [t.UTC().Format("2006-01-02T15:04:05.000Z")] *)
Definition format_millis (t : Z) : bytes :=
  let secs := t / 10 ^ 9 in
  let '(y, m, d) := civil (secs / 86400) in
  let s := secs mod 86400 in
  pad_dec 4 y ++ bs "-" ++ pad_dec 2 m ++ bs "-" ++ pad_dec 2 d ++ bs "T" ++ pad_dec 2 (s / 3600) ++ bs ":"
  ++ pad_dec 2 (s / 60 mod 60) ++ bs ":" ++ pad_dec 2 (s mod 60) ++ bs "." ++ pad_dec 3 (t mod 10 ^ 9 / 10 ^ 6) ++ bs "Z".

Definition emitContents (fetchOwner : bool) (f : FileMetadata) : bytes :=
  bs "<Contents><Key>" ++ xmlEscape (Name f) ++ bs "</Key><LastModified>" ++ format_millis (ModTime f)
  ++ bs "</LastModified><ETag>" ++ dq ++ xmlEscape (Hash f) ++ dq ++ bs "</ETag>"
  ++ (if fetchOwner then bs "<Owner><ID>momo</ID><DisplayName>momo</DisplayName></Owner>" else [])
  ++ bs "<Size>" ++ append_int (FSize f) ++ bs "</Size><StorageClass>STANDARD</StorageClass></Contents>".

Definition page_xml (bucketName prefix delimiter : bytes) (maxKeys : Z) (fetchOwner : bool) (p : page) : bytes :=
  xml_header ++ bs "<ListBucketResult" ++ s3_xmlns
  ++ bs "<Name>" ++ xmlEscape bucketName ++ bs "</Name><Prefix>" ++ xmlEscape prefix ++ bs "</Prefix>"
  ++ (if decide (delimiter = []) then [] else bs "<Delimiter>" ++ xmlEscape delimiter ++ bs "</Delimiter>")
  ++ bs "<MaxKeys>" ++ append_int maxKeys ++ bs "</MaxKeys>"
  ++ concat (map (emitContents fetchOwner) (contents p))
  ++ concat (map (λ x, bs "<CommonPrefixes><Prefix>" ++ xmlEscape x ++ bs "</Prefix></CommonPrefixes>")
               (stable_sort bytes_ltb (prefixes p)))
  ++ bs "<IsTruncated>" ++ (if truncated p then bs "true" else bs "false") ++ bs "</IsTruncated><KeyCount>"
  ++ append_int (keyCount p) ++ bs "</KeyCount>"
  ++ (if decide (next_token p = []) then []
      else bs "<NextContinuationToken>" ++ xmlEscape (next_token p) ++ bs "</NextContinuationToken>")
  ++ bs "</ListBucketResult>".

Definition FormatListObjectsV2XML (bucketName prefix delimiter : bytes) (maxKeys : Z) (startAfter : bytes) (fetchOwner : bool)
    (files : list FileMetadata) : result (bytes * bytes) :=
  if (64 <? Z.of_nat (length bucketName)) || (64 <? Z.of_nat (length prefix)) || (64 <? Z.of_nat (length delimiter))
     || (1024 <? Z.of_nat (length startAfter)) then Err (Errno EINVAL)
  else
    let p := list_page prefix delimiter maxKeys (resume_of startAfter) files in
    Ok (page_xml bucketName prefix delimiter maxKeys fetchOwner p, next_token p).

(** ** Base64 round trip *)
Definition b64_ok (n : Z) : bool :=
  bool_decide (b64_val (b64_char n) = Some n)
  && bool_decide (b64_char n ≠ ch_pad ∧ b64_char n ≠ ch_cr ∧ b64_char n ≠ ch_lf).

Lemma b64_char_spec n : 0 <= n < 64 →
  b64_val (b64_char n) = Some n ∧ b64_char n ≠ ch_pad ∧ b64_char n ≠ ch_cr ∧ b64_char n ≠ ch_lf.
Proof.
  intros Hn.
  assert (H : forallb (λ i, b64_ok (Z.of_nat i)) (seq 0 64) = true) by (vm_compute; reflexivity).
  rewrite forallb_forall in H. specialize (H (Z.to_nat n)). rewrite Z2Nat.id in H by lia.
  specialize (H ltac:(apply in_seq; lia)). apply andb_true_iff in H as [H1 H2].
  apply bool_decide_eq_true in H1, H2. tauto.
Qed.

Definition not_break (c : byte) : Prop := c ≠ ch_cr ∧ c ≠ ch_lf.

Lemma b64_char_line n : 0 <= n < 64 → not_break (b64_char n).
Proof. intros H. apply b64_char_spec in H. unfold not_break. tauto. Qed.

Lemma pad_line : not_break ch_pad.
Proof. by split. Qed.

Lemma sextet_range n : 0 <= n < 16777216 →
  0 <= n / 262144 < 64 ∧ 0 <= n / 4096 mod 64 < 64 ∧ 0 <= n / 64 mod 64 < 64 ∧ 0 <= n mod 64 < 64.
Proof.
  intros Hn. split_and!; try (apply Z.mod_pos_bound; lia);
    [apply Z.div_pos; lia|apply Z.div_lt_upper_bound; lia].
Qed.

Lemma b64_encode_lines s : Forall not_break (b64_encode s).
Proof.
  assert (forall n s, (length s <= n)%nat → Forall not_break (b64_encode s)) as H; [|by eapply H].
  induction n as [|n IH]; intros [|a [|b [|c s']]] Hl; cbn [length] in Hl; try lia; cbn [b64_encode];
    try (constructor; fail); pose proof (b2z_range a); try pose proof (b2z_range b); try pose proof (b2z_range c);
    unfold sextets; cbn [take app];
    match goal with |- context [b64_char (?x / 262144)] => destruct (sextet_range x) as (?&?&?&?); [lia|] end;
    repeat (constructor; [first [apply b64_char_line; assumption|apply pad_line]|]); [constructor..|].
  apply IH. lia.
Qed.

Lemma sextets_join n : 0 <= n < 16777216 →
  n / 262144 * 262144 + n / 4096 mod 64 * 4096 + n / 64 mod 64 * 64 + n mod 64 = n.
Proof. intros Hn. Z.div_mod_to_equations. lia. Qed.

Lemma b64_groups_encode s : b64_groups (b64_encode s) = Some s.
Proof.
  assert (forall n s, (length s <= n)%nat → b64_groups (b64_encode s) = Some s) as H; [|by eapply H].
  induction n as [|n IH]; intros [|a [|b [|c s']]] Hl; cbn [length] in Hl; try lia; try reflexivity; cbn [b64_encode];
    pose proof (b2z_range a); try pose proof (b2z_range b); try pose proof (b2z_range c);
    unfold sextets; cbn [take app b64_groups];
    match goal with |- context [b64_char (?x / 262144)] =>
      destruct (sextet_range x) as (R1&R2&R3&R4); [lia|]; pose proof (sextets_join x ltac:(lia)) as Hj end;
    destruct (b64_char_spec _ R1) as (->&_), (b64_char_spec _ R2) as (->&_).
  - rewrite !decide_True by done. do 2 f_equal. apply b2z_inj. rewrite b2z_z2b. Z.div_mod_to_equations. lia.
  - destruct (b64_char_spec _ R3) as (E3&N3&_). rewrite !decide_True by done. rewrite decide_False by done. rewrite E3.
    f_equal. f_equal; [|f_equal]; apply b2z_inj; rewrite b2z_z2b; clear IH; Z.div_mod_to_equations; lia.
  - destruct (b64_char_spec _ R3) as (E3&_), (b64_char_spec _ R4) as (E4&N4&_).
    rewrite decide_False by done. rewrite E3, E4, IH by lia. rewrite Hj. cbv zeta. f_equal.
    f_equal; [|f_equal; [|f_equal]]; apply b2z_inj; rewrite b2z_z2b; Z.div_mod_to_equations; lia.
Qed.

Lemma b64_roundtrip s : b64_decode (b64_encode s) = Some s.
Proof.
  unfold b64_decode. rewrite (filter_all _ _ (b64_encode_lines s)). apply b64_groups_encode.
Qed.

Lemma token_roundtrip kind key : decodeContinuationToken (encodeContinuationToken kind key) = Some (kind, key).
Proof. unfold decodeContinuationToken, encodeContinuationToken. by rewrite b64_roundtrip. Qed.

(** ** The order of keys *)
Lemma key_le_trans a b c : bytes_ltb b a = false → bytes_ltb c b = false → bytes_ltb c a = false.
Proof. intros. by eapply (sw_ntrans (less:=bytes_ltb)). Qed.

Lemma key_lt_le a b : bytes_ltb a b = true → bytes_ltb b a = false.
Proof. apply sw_asym. Qed.

Lemma key_le_lt a b c : bytes_ltb b a = false → bytes_ltb b c = true → bytes_ltb a c = true.
Proof.
  intros Hab Hbc. destruct (bytes_ltb a c) eqn:E; [done|]. rewrite (key_le_trans c a b) in Hbc by done. done.
Qed.

Lemma prefix_below k p : has_prefix k p = true → bytes_ltb k p = false.
Proof.
  intros [t ->]%has_prefix_spec. induction p as [|x p IH]; cbn [app bytes_ltb]; [by destruct t|].
  by rewrite Z.ltb_irrefl.
Qed.

(** Every key between a prefix and a key under it is under it. *)
Lemma prefix_interval p k b :
  has_prefix b p = true → bytes_ltb k p = false → bytes_ltb b k = false → has_prefix k p = true.
Proof.
  revert k b. induction p as [|x p IH]; intros k b Hb Hk Hkb; [done|].
  destruct b as [|y b]; [done|]. cbn [has_prefix] in Hb. case_decide as Ey; [subst y|done].
  destruct k as [|z k]; [done|]. cbn [has_prefix bytes_ltb] in *.
  destruct (Z.ltb_spec (b2z z) (b2z x)), (Z.ltb_spec (b2z x) (b2z z)); try done.
  rewrite decide_True by (apply b2z_inj; lia). by eapply IH.
Qed.

Lemma has_prefix_app_inv p s t : has_prefix (p ++ s) (p ++ t) = has_prefix s t.
Proof. induction p as [|x p IH]; cbn [app has_prefix]; [done|]. by rewrite decide_True. Qed.

Lemma has_prefix_take n s : has_prefix s (take n s) = true.
Proof. apply has_prefix_spec. exists (drop n s). by rewrite take_drop. Qed.

(** ** Groups *)
Section Groups.
Context (prefix delimiter : bytes) (one_byte : (length delimiter <= 1)%nat).
Implicit Types (f g x : FileMetadata) (P : bytes).
Local Notation item_of := (item_of prefix delimiter).
Local Notation listed := (listed prefix).

Definition eligible f : bool :=
  negb ((64 <? Z.of_nat (length (Name f))) || (64 <? Z.of_nat (length (Hash f)))) && has_prefix (Name f) prefix.

Lemma listed_eligible r f : listed r f = eligible f && negb (skipped r (Name f)).
Proof.
  unfold S3List.listed, eligible.
  replace (bool_decide (prefix = []) || has_prefix (Name f) prefix) with (has_prefix (Name f) prefix).
  - destruct (negb (_ || _)), (skipped _ _), (has_prefix _ _); done.
  - case_bool_decide as E; [by rewrite E|done].
Qed.

Lemma listed_spec r f : listed r f = true ↔ eligible f = true ∧ skipped r (Name f) = false.
Proof. rewrite listed_eligible, andb_true_iff, negb_true_iff. done. Qed.

Lemma eligible_rel f : eligible f = true → ∃ t, Name f = prefix ++ t.
Proof. intros [_ H]%andb_true_iff. by apply has_prefix_spec. Qed.

Lemma str_index_closed (d : byte) (s t : bytes) i :
  str_index s [d] = Some i → has_prefix t (take (S i) s) = true →
  str_index t [d] = Some i ∧ take (S i) t = take (S i) s.
Proof.
  revert t i. induction s as [|x s IH]; intros t i; [done|]. cbn [str_index].
  destruct (has_prefix (x :: s) [d]) eqn:E.
  - intros [= <-] Ht. cbn in Ht, E. destruct t as [|y t]; [done|]. repeat case_decide; try done. subst.
    split; [|done]. cbn. by rewrite decide_True.
  - destruct (str_index s [d]) as [j|] eqn:Ej; [|done]. intros [= <-] Ht.
    destruct t as [|y t]; [done|]. change (take (S (S j)) (x :: s)) with (x :: take (S j) s) in *.
    cbn [has_prefix] in Ht. case_decide as Eyx; [subst y|done].
    destruct (IH t j eq_refl Ht) as [H1 H2]. cbn [str_index].
    change (has_prefix (x :: t) [d]) with (has_prefix (x :: s) [d]). rewrite E, H1.
    split; [done|]. cbn [take]. by rewrite <- H2.
Qed.

Lemma item_group f P : eligible f = true → item_of f = IPrefix P → has_prefix (Name f) P = true ∧ P ≠ [].
Proof.
  intros [t Ht]%eligible_rel. unfold S3List.item_of. rewrite Ht, drop_app_length. case_decide as Ed; [done|].
  destruct (str_index t delimiter) as [i|] eqn:Ei; [|done]. intros [= <-]. split.
  - by rewrite has_prefix_app_inv, has_prefix_take.
  - destruct t as [|c t]; [|intros [_ [=]]%app_eq_nil].
    exfalso. destruct delimiter; [done|]. cbn in Ei. done.
Qed.

Lemma group_closed f g P :
  eligible f = true → eligible g = true → item_of g = IPrefix P → has_prefix (Name f) P = true → item_of f = IPrefix P.
Proof using one_byte.
  intros [t Ht]%eligible_rel [s Hs]%eligible_rel. unfold S3List.item_of. rewrite Ht, Hs, !drop_app_length.
  case_decide as Ed; [done|]. destruct delimiter as [|d [|? ?]]; [done| |cbn in one_byte; lia].
  destruct (str_index s [d]) as [i|] eqn:Ei; [|done]. intros [= <-]. rewrite has_prefix_app_inv. intros Hp.
  destruct (str_index_closed d s t i Ei Hp) as [-> ->]. done.
Qed.

(** A file between two of a group is of the group. *)
Lemma group_between g h x P :
  eligible g = true → eligible h = true → item_of g = IPrefix P → has_prefix (Name x) P = true →
  bytes_ltb (Name h) (Name g) = false → bytes_ltb (Name x) (Name h) = false → item_of h = IPrefix P.
Proof using one_byte.
  intros Hg Hh Hi Hx Hgh Hhx. eapply group_closed; [done|exact Hg|exact Hi|].
  eapply prefix_interval; [exact Hx| |exact Hhx].
  eapply key_le_trans; [|exact Hgh]. by apply prefix_below, item_group.
Qed.

Lemma skip_mono r (k x : bytes) : skipped r k = false → bytes_ltb x k = false → skipped r x = false.
Proof.
  destruct r as [|k0|p]; cbn [skipped]; [done| |].
  - rewrite !negb_false_iff. intros H1 H2. destruct (bytes_ltb k0 x) eqn:E; [done|].
    rewrite (key_le_trans k x k0) in H1 by done. done.
  - rewrite !orb_false_iff. intros [H1 H2] H3. split.
    + destruct (has_prefix x p) eqn:E; [|done]. by rewrite (prefix_interval p k x) in H1.
    + by eapply key_le_trans.
Qed.
(** ** The loop *)
Definition add_file (r : resume) (p : page) f : page :=
  if negb (listed r f) then p else if emitted (item_of f) p then p else with_item (item_of f) p.

Definition run_loop (r : resume) (p : page) (fs : list FileMetadata) : page := foldl (add_file r) p fs.

Definition empty_page : page := mkPage [] [] false None.

Lemma list_loop_unlimited r fs p : listing_loop prefix delimiter 0 r fs p = run_loop r p fs.
Proof.
  unfold run_loop. revert p. induction fs as [|f fs IH]; intros p; [done|]. cbn [listing_loop foldl].
  unfold add_file at 2. destruct (negb _); [apply IH|]. destruct (emitted _ _); [apply IH|]. cbn [Z.ltb andb]. apply IH.
Qed.

Lemma run_loop_truncated r fs p : truncated (run_loop r p fs) = truncated p.
Proof.
  unfold run_loop. revert p. induction fs as [|f fs IH]; intros p; [done|]. cbn [foldl]. rewrite IH. unfold add_file.
  destruct (negb _); [done|]. destruct (emitted _ _); [done|]. by destruct (item_of f).
Qed.

Definition cut (q : page) : page := mkPage (contents q) (prefixes q) true (lastItem q).

Lemma keyCount_with it p : keyCount (with_item it p) = keyCount p + 1.
Proof. unfold keyCount. destruct it; cbn; rewrite length_app; cbn; lia. Qed.

(** A page is the whole listing, or the listing of the files before the first
    one that would exceed the limit. *)
Lemma page_cut maxKeys r fs p :
  0 < maxKeys → keyCount p <= maxKeys →
  let q := listing_loop prefix delimiter maxKeys r fs p in
  (q = run_loop r p fs ∧ keyCount q <= maxKeys)
  ∨ ∃ pre f rest, fs = pre ++ f :: rest ∧ listed r f = true ∧ emitted (item_of f) (run_loop r p pre) = false
      ∧ keyCount (run_loop r p pre) = maxKeys ∧ q = cut (run_loop r p pre).
Proof.
  intros Hm. cbv zeta. revert p. induction fs as [|f fs IH]; intros p Hp; [by left|]. cbn [listing_loop].
  assert (Hstep : ∀ p', add_file r p f = p' → keyCount p' <= maxKeys →
    listing_loop prefix delimiter maxKeys r fs p' = run_loop r p (f :: fs)
      ∧ keyCount (listing_loop prefix delimiter maxKeys r fs p') <= maxKeys
    ∨ ∃ pre f0 rest, f :: fs = pre ++ f0 :: rest ∧ listed r f0 = true ∧ emitted (item_of f0) (run_loop r p pre) = false
      ∧ keyCount (run_loop r p pre) = maxKeys ∧ listing_loop prefix delimiter maxKeys r fs p' = cut (run_loop r p pre)).
  { intros p' <- Hp'. destruct (IH _ Hp') as [?|(pre & f0 & rest & -> & H)]; [by left|].
    right. by exists (f :: pre), f0, rest. }
  destruct (negb (listed r f)) eqn:El; [apply Hstep; [unfold add_file; by rewrite El|done]|].
  destruct (emitted (item_of f) p) eqn:Ee; [apply Hstep; [unfold add_file; by rewrite El, Ee|done]|].
  rewrite (proj2 (Z.ltb_lt _ _)) by done. cbn [andb]. destruct (Z.leb_spec maxKeys (keyCount p)).
  - right. exists [], f, fs. apply negb_false_iff in El. split_and!; try done. cbn. lia.
  - apply Hstep; [unfold add_file; by rewrite El, Ee|]. rewrite keyCount_with. lia.
Qed.

(** What the page holds after a run of files. *)
Record run_ok (r : resume) (fs : list FileMetadata) (q : page) : Prop := {
  ok_prefixes P : P ∈ prefixes q → ∃ g, g ∈ fs ∧ listed r g = true ∧ item_of g = IPrefix P;
  ok_none : lastItem q = None → keyCount q = 0;
  ok_last it : lastItem q = Some it → ∃ a g b, fs = a ++ g :: b ∧ listed r g = true ∧ item_of g = it
    ∧ emitted it (run_loop r empty_page a) = false
    ∧ prefixes q = prefixes (with_item it (run_loop r empty_page a))
    ∧ ∀ x, x ∈ b → listed r x = true → emitted (item_of x) q = true
}.

Lemma emitted_prefixes it p q : prefixes p = prefixes q → emitted it p = emitted it q.
Proof. destruct it; cbn; [done|]. by intros ->. Qed.

Lemma run_loop_ok r fs : run_ok r fs (run_loop r empty_page fs).
Proof.
  induction fs as [|x fs IH] using rev_ind.
  { split; cbn; [by intros P ?%elem_of_nil|done|done]. }
  unfold run_loop. rewrite foldl_app. cbn [foldl]. fold (run_loop r empty_page fs).
  set (q := run_loop r empty_page fs) in *. destruct IH as [H1 H2 H3].
  assert (Hkeep : (listed r x = true → emitted (item_of x) q = true) → run_ok r (fs ++ [x]) q).
  { intros Hx. split; [|done|].
    - intros P (g & Hg & ?)%H1. exists g. split; [set_solver|done].
    - intros it (a & g & b & -> & Hg & Hi & He & Hq & Hb)%H3. exists a, g, (b ++ [x]). rewrite <- app_assoc.
      split_and!; try done. intros y [Hy| ->%list_elem_of_singleton]%elem_of_app; [by apply Hb|apply Hx]. }
  unfold add_file. destruct (listed r x) eqn:El; cbn [negb]; [|by apply Hkeep].
  destruct (emitted (item_of x) q) eqn:Ee; [by apply Hkeep|]. split.
  - intros P HP. assert (P ∈ prefixes q ∨ item_of x = IPrefix P) as [(g & Hg & ?)%H1|Hi].
    { destruct (item_of x); cbn in HP; [by left|]. apply elem_of_app in HP as [?|?]; set_solver. }
    + exists g. split; [set_solver|done].
    + exists x. split; [set_solver|done].
  - destruct (item_of x); done.
  - intros it Hit. assert (item_of x = it) as <- by (destruct (item_of x); cbn in Hit; congruence).
    exists fs, x, []. split_and!; try done. by intros y ?%elem_of_nil.
Qed.

(** ** The next page *)
Definition name_lt f g : Prop := bytes_ltb (Name f) (Name g) = true.

Definition resume_at (it : item) : resume :=
  match it with IKey f => AfterKey (Name f) | IPrefix p => AfterPrefix p end.

Lemma item_key g k : item_of g = IKey k → k = g.
Proof. unfold S3List.item_of. repeat case_match; congruence. Qed.

Lemma sorted_prefix (R : FileMetadata → FileMetadata → Prop) (a b : list FileMetadata) :
  StronglySorted R (a ++ b) → StronglySorted R a.
Proof.
  induction a as [|y a IH]; cbn [app]; [constructor|]. intros [H1 H2]%StronglySorted_inv.
  constructor; [by apply IH|]. by apply Forall_app in H2 as [? _].
Qed.

Lemma sorted_app_lt (a b : list FileMetadata) x y :
  StronglySorted name_lt (a ++ b) → x ∈ a → y ∈ b → name_lt x y.
Proof.
  induction a as [|z a IH]; cbn [app]; [by intros _ ?%elem_of_nil|].
  intros [Hs Hz]%StronglySorted_inv [->|Hx]%elem_of_cons Hy; [|by apply IH].
  rewrite Forall_forall in Hz. apply Hz. set_solver.
Qed.

Section NextPage.
Context (r : resume) (pre : list FileMetadata) (f : FileMetadata) (rest : list FileMetadata) (it : item).
Local Notation q := (run_loop r empty_page pre).
Context (Hsorted : StronglySorted name_lt (pre ++ f :: rest)) (Hf : listed r f = true)
  (Hnew : emitted (item_of f) q = false) (Hlast : lastItem q = Some it).

Lemma from_f x : x ∈ f :: rest → bytes_ltb (Name x) (Name f) = false.
Proof using one_byte Hsorted.
  intros [->|Hx]%elem_of_cons; [apply bytes_ltb_irrefl|]. apply key_lt_le.
  eapply (sorted_app_lt (pre ++ [f]) rest); [|apply elem_of_app; right; apply list_elem_of_here|done]. rewrite <- app_assoc. exact Hsorted.
Qed.

Lemma before_f x y : x ∈ pre → y ∈ f :: rest → name_lt x y.
Proof using one_byte Hsorted. apply sorted_app_lt, Hsorted. Qed.

(** The groups of the page are closed before [f]. *)
Lemma group_of_page x P :
  x ∈ f :: rest → P ∈ prefixes q → has_prefix (Name x) P = true → False.
Proof using one_byte Hsorted Hf Hnew.
  intros Hx HP Hp. destruct (ok_prefixes _ _ _ (run_loop_ok r pre) P HP) as (g & Hg & [Eg _]%listed_spec & Hi).
  destruct (proj1 (listed_spec r f) Hf) as [Ef _].
  assert (item_of f = IPrefix P) as E.
  { eapply (group_between g f x); try done; [apply key_lt_le, before_f; [done|apply list_elem_of_here]|by apply from_f]. }
  pose proof Hnew as Hn. rewrite E in Hn. cbn [emitted] in Hn. by apply bool_decide_eq_false in Hn.
Qed.

Lemma not_yet x : x ∈ f :: rest → listed r x = true → emitted (item_of x) q = false.
Proof using one_byte Hsorted Hf Hnew.
  intros Hx [Ex _]%listed_spec. destruct (item_of x) as [|P] eqn:E; [done|]. cbn [emitted].
  apply bool_decide_eq_false. intros HP. apply (group_of_page x P); try done. by apply (item_group x P).
Qed.

Lemma rest_kept x : x ∈ f :: rest → listed (resume_at it) x = listed r x.
Proof using All.
  intros Hx. rewrite !listed_eligible. f_equal. f_equal.
  assert (skipped r (Name x) = false) as ->.
  { destruct (proj1 (listed_spec r f) Hf) as [_ Hs]. eapply skip_mono; [exact Hs|by apply from_f]. }
  destruct (ok_last _ _ _ (run_loop_ok r pre) it Hlast) as (a & g & b & Epre & [Eg _]%listed_spec & Hi & _ & Hq & _).
  assert (name_lt g x) as Hgx by (apply before_f; [rewrite Epre; set_solver|done]).
  destruct it as [k|P]; cbn [resume_at skipped].
  - apply item_key in Hi as ->.
    by rewrite Hgx.
  - apply orb_false_iff. split.
    + destruct (has_prefix (Name x) P) eqn:E; [exfalso|done]. apply (group_of_page x P); try done.
      rewrite Hq. cbn. set_solver.
    + eapply key_le_trans; [|by apply key_lt_le, Hgx]. by apply prefix_below, (item_group g P).
Qed.

Lemma page_skipped x : x ∈ pre → listed (resume_at it) x = false.
Proof using All.
  intros Hx. rewrite listed_eligible. destruct (eligible x) eqn:Ex; [|done]. cbn [andb]. apply negb_false_iff.
  destruct (ok_last _ _ _ (run_loop_ok r pre) it Hlast) as (a & g & b & Epre & [Eg Sg]%listed_spec & Hi & Hnot & Hq & Hb).
  assert (Hs : StronglySorted name_lt (a ++ [g] ++ b)).
  { cbn [app]. rewrite <- Epre. eapply sorted_prefix, Hsorted. }
  rewrite Epre in Hx. apply elem_of_app in Hx as [Hx|[->|Hx]%elem_of_cons].
  - assert (name_lt x g) as Hxg by (eapply sorted_app_lt; [exact Hs|done|set_solver]).
    destruct it as [k|P]; cbn [resume_at skipped].
    + apply item_key in Hi as ->.
      by apply negb_true_iff, key_lt_le.
    + destruct (bytes_ltb (Name x) P) eqn:E; [by rewrite orb_true_r|]. rewrite orb_false_r.
      eapply prefix_interval; [by apply (item_group g P)|exact E|by apply key_lt_le].
  - destruct it as [k|P]; cbn [resume_at skipped].
    + apply item_key in Hi as ->.
      by rewrite bytes_ltb_irrefl.
    + by rewrite (proj1 (item_group g P Eg Hi)).
  - assert (name_lt g x) as Hgx.
    { rewrite app_assoc in Hs. eapply sorted_app_lt; [exact Hs|set_solver|done]. }
    assert (listed r x = true) as Hlx by (apply listed_spec; split; [done|eapply skip_mono; [exact Sg|by apply key_lt_le]]).
    specialize (Hb x Hx Hlx). destruct (item_of x) as [|Q] eqn:Ei; [done|]. cbn [emitted] in Hb.
    apply bool_decide_eq_true in Hb. rewrite Hq in Hb.
    assert (Hold : Q ∈ prefixes (run_loop r empty_page a) → it = IPrefix Q).
    { intros HQ. destruct (ok_prefixes _ _ _ (run_loop_ok r a) Q HQ) as (h & Hh & [Eh _]%listed_spec & Hih).
      rewrite <- Hi. eapply (group_between h g x); try done; [by apply (item_group x Q)| |by apply key_lt_le].
      apply key_lt_le. eapply sorted_app_lt; [exact Hs|done|set_solver]. }
    assert (it = IPrefix Q) as ->.
    { destruct it as [k|P]; cbn in Hb; [by apply Hold|]. apply elem_of_app in Hb as [?| ->%list_elem_of_singleton]; [by apply Hold|done]. }
    cbn [resume_at skipped]. by rewrite (proj1 (item_group x Q Ex Ei)).
Qed.
End NextPage.

(** ** All pages together *)
Lemma run_loop_over r l q p p' :
  (∀ x, x ∈ l → listed r x = true → emitted (item_of x) q = false) →
  contents p' = contents q ++ contents p → prefixes p' = prefixes q ++ prefixes p →
  contents (run_loop r p' l) = contents q ++ contents (run_loop r p l)
  ∧ prefixes (run_loop r p' l) = prefixes q ++ prefixes (run_loop r p l).
Proof.
  unfold run_loop. revert p p'. induction l as [|x l IH]; intros p p' Hx Hc Hp; [done|]. cbn [foldl].
  apply IH; [intros y Hy; apply Hx; by right| |]; unfold add_file;
    (destruct (listed r x) eqn:El; cbn [negb]; [|done]);
    (assert (emitted (item_of x) p' = emitted (item_of x) p) as Ee;
      [specialize (Hx x (list_elem_of_here _ _) El); destruct (item_of x); [done|]; cbn [emitted] in Hx |- *;
       apply bool_decide_eq_false in Hx; apply bool_decide_ext; rewrite Hp, elem_of_app; tauto|]);
    rewrite Ee; destruct (emitted _ p); try done;
    destruct (item_of x); cbn [with_item contents prefixes]; rewrite ?Hc, ?Hp, ?app_assoc; done.
Qed.

Lemma run_loop_app r p a b : run_loop r p (a ++ b) = run_loop r (run_loop r p a) b.
Proof. apply foldl_app. Qed.

Lemma run_loop_skip r l p : (∀ x, x ∈ l → listed r x = false) → run_loop r p l = p.
Proof.
  unfold run_loop. induction l as [|x l IH]; intros H; [done|]. cbn [foldl]. unfold add_file at 2.
  rewrite H by (by left). cbn [negb]. apply IH. intros y Hy. apply H. by right.
Qed.

Lemma run_loop_ext r r' l p : (∀ x, x ∈ l → listed r x = listed r' x) → run_loop r p l = run_loop r' p l.
Proof.
  unfold run_loop. revert p. induction l as [|x l IH]; intros p H; [done|]. cbn [foldl].
  unfold add_file at 2 4. rewrite H by (by left). apply IH. intros y Hy. apply H. by right.
Qed.

Lemma next_page r pre f rest it :
  let q := run_loop r empty_page pre in
  StronglySorted name_lt (pre ++ f :: rest) → listed r f = true → emitted (item_of f) q = false → lastItem q = Some it →
  contents (run_loop r empty_page (pre ++ f :: rest))
    = contents q ++ contents (run_loop (resume_at it) empty_page (pre ++ f :: rest))
  ∧ prefixes (run_loop r empty_page (pre ++ f :: rest))
    = prefixes q ++ prefixes (run_loop (resume_at it) empty_page (pre ++ f :: rest)).
Proof using one_byte.
  cbv zeta. intros Hs Hf Hn Hl. rewrite !run_loop_app.
  rewrite (run_loop_skip (resume_at it) pre) by (intros x Hx; by eapply page_skipped).
  rewrite (run_loop_ext (resume_at it) r (f :: rest)) by (intros x Hx; by eapply rest_kept).
  apply run_loop_over; [|by cbn; rewrite app_nil_r..]. intros x Hx. by eapply not_yet.
Qed.

Lemma filter_agree (P Q : FileMetadata → Prop) `{∀ x, Decision (P x), ∀ x, Decision (Q x)} l :
  Forall (λ x, P x ↔ Q x) l → filter P l = filter Q l.
Proof.
  induction 1 as [|x l Hx Hl IH]; [done|]. rewrite !filter_cons, IH. repeat case_decide; tauto.
Qed.

Definition remaining r (L : list FileMetadata) : nat := length (filter (λ f, listed r f = true) L).

Lemma next_page_remaining r pre f rest it :
  let q := run_loop r empty_page pre in
  StronglySorted name_lt (pre ++ f :: rest) → listed r f = true → emitted (item_of f) q = false → lastItem q = Some it →
  (remaining (resume_at it) (pre ++ f :: rest) < remaining r (pre ++ f :: rest))%nat.
Proof using one_byte.
  cbv zeta. intros Hs Hf Hn Hl. unfold remaining. rewrite !filter_app, !length_app.
  rewrite (filter_none _ pre) by (apply Forall_forall; intros x Hx; erewrite page_skipped; done).
  rewrite (filter_agree (λ x, listed (resume_at it) x = true) (λ x, listed r x = true) (f :: rest)).
  - destruct (ok_last _ _ _ (run_loop_ok r pre) it Hl) as (a & g & b & -> & Hg & _).
    rewrite filter_app, length_app, (filter_cons_True _ g) by done. cbn [length]. lia.
  - apply Forall_forall. intros x Hx. erewrite rest_kept; done.
Qed.

Lemma length_b64_encode (s : bytes) : (length (b64_encode s) <= 4 * length s)%nat.
Proof.
  assert (forall n (s : bytes), (length s <= n)%nat → (length (b64_encode s) <= 4 * length s)%nat) as H; [|by eapply H].
  induction n as [|n IH]; intros [|a [|b [|c s']]] Hl; cbn [length] in Hl; try lia; cbn [b64_encode]; unfold sextets;
    cbn [take app length]; try lia.
  specialize (IH s' ltac:(lia)). lia.
Qed.

Lemma token_bounds g it :
  eligible g = true → item_of g = it → Name g ≠ [] →
  (item_token it).2 ≠ [] ∧ (length (item_token it).2 <= 64)%nat.
Proof.
  intros Eg Hi Hn. assert (length (Name g) <= 64)%nat as Hl.
  { unfold eligible in Eg. apply andb_true_iff in Eg as [E _]. apply negb_true_iff, orb_false_iff in E as [E _].
    apply Z.ltb_ge in E. lia. }
  destruct it as [k|P]; cbn [item_token snd].
  - apply item_key in Hi as ->. done.
  - destruct (item_group g P Eg Hi) as [[t Ht]%has_prefix_spec HP]. split; [done|]. rewrite Ht, length_app in Hl. lia.
Qed.

(** The token of a cut page leads back to where it was cut. *)
Lemma next_token_resumes q it :
  lastItem q = Some it → (item_token it).2 ≠ [] → (length (item_token it).2 <= 64)%nat →
  resume_of (next_token (cut q)) = resume_at it ∧ next_token (cut q) ≠ []
  ∧ (length (next_token (cut q)) <= 1024)%nat.
Proof.
  intros Hl Hne Hlen. unfold next_token, cut. cbn [truncated lastItem]. rewrite Hl.
  destruct (item_token it) as [kind key] eqn:Ei. cbn [snd] in *. rewrite decide_False by done.
  assert (encodeContinuationToken kind key ≠ []) as Henc.
  { intros E. pose proof (token_roundtrip kind key) as Hr. rewrite E in Hr. done. }
  split_and!; [|done|].
  - unfold resume_of. rewrite decide_False by done. rewrite token_roundtrip, decide_False by done.
    destruct it; cbn in Ei |- *; injection Ei as <- <-; done.
  - unfold encodeContinuationToken. pose proof (length_b64_encode (kind :: key)) as H. cbn [length] in H. lia.
Qed.

(** *** A client that follows the tokens *)
Fixpoint follow (fuel : nat) (bucketName : bytes) (maxKeys : Z) (fetchOwner : bool) (startAfter : bytes)
    (files : list FileMetadata) : result (list bytes) :=
  match fuel with
  | O => Err (Errno EIO)
  | S n =>
      let! r := FormatListObjectsV2XML bucketName prefix delimiter maxKeys startAfter fetchOwner files in
      if decide (r.2 = []) then Ok [r.1]
      else let! more := follow n bucketName maxKeys fetchOwner r.2 files in Ok (r.1 :: more)
  end.

Lemma file_sort_strict files :
  NoDup (map Name files) → StronglySorted name_lt (stable_sort file_less files).
Proof.
  intros Hnd.
  assert (StrictWeak file_less) as Hsw.
  { split; unfold file_less; [intros x y; apply sw_asym|intros x y z; apply sw_ntrans]. }
  pose proof (stable_sort_sorted file_less files) as Hs.
  assert (Hnd' : NoDup (map Name (stable_sort file_less files))) by (by rewrite stable_sort_perm).
  revert Hs Hnd'. generalize (stable_sort file_less files). intros L Hs. induction Hs as [|x L Hs IH Hx]; [constructor|].
  cbn [map]. intros [Hnx Hnd']%NoDup_cons. constructor; [by apply IH|]. rewrite Forall_forall in Hx |- *.
  intros y Hy. specialize (Hx y Hy). unfold notafter, file_less in Hx. unfold name_lt.
  destruct (bytes_ltb (Name x) (Name y)) eqn:E; [done|]. destruct Hnx. rewrite (bytes_ltb_total _ _ E Hx).
  by apply list_elem_of_fmap_2.
Qed.

Section Follow.
Context (bucketName : bytes) (maxKeys : Z) (fetchOwner : bool) (files : list FileMetadata).
Context (Hmax : 0 < maxKeys) (Hlen : (length bucketName <= 64 ∧ length prefix <= 64)%nat)
  (Hnd : NoDup (map Name files)) (Hne : Forall (λ f, Name f ≠ []) files).
Local Notation L := (stable_sort file_less files).
Local Notation page_xml := (page_xml bucketName prefix delimiter maxKeys fetchOwner).

Lemma follow_run fuel startAfter :
  (length startAfter <= 1024)%nat → (remaining (resume_of startAfter) L < fuel)%nat →
  ∃ ps, follow fuel bucketName maxKeys fetchOwner startAfter files = Ok (map page_xml ps)
    ∧ concat (map contents ps) = contents (run_loop (resume_of startAfter) empty_page L)
    ∧ concat (map prefixes ps) = prefixes (run_loop (resume_of startAfter) empty_page L)
    ∧ Forall (λ p, keyCount p <= maxKeys) ps.
Proof using All.
  revert startAfter. induction fuel as [|n IH]; intros sa Hsa Hfuel; [lia|]. cbn [follow].
  unfold FormatListObjectsV2XML.
  replace (_ || _ || _ || _) with false by (symmetry; rewrite !orb_false_iff, !Z.ltb_ge; lia).
  cbv beta iota zeta. set (p := list_page prefix delimiter maxKeys (resume_of sa) files). cbn [fst snd].
  destruct (page_cut maxKeys (resume_of sa) L empty_page Hmax ltac:(change (0 <= maxKeys); lia))
    as [[Hp Hk]|(pre & f & rest & HL & Hf & Hn & Hc & Hp)];
    change (listing_loop prefix delimiter maxKeys (resume_of sa) L empty_page) with p in *.
  - exists [p]. unfold next_token. rewrite Hp, run_loop_truncated. cbn. rewrite !app_nil_r.
    split_and!; try done. constructor; [by rewrite <- Hp|done].
  - set (q := run_loop (resume_of sa) empty_page pre) in *.
    destruct (lastItem q) as [it|] eqn:El; [|pose proof (ok_none _ _ _ (run_loop_ok (resume_of sa) pre) El) as H0; fold q in H0; lia].
    destruct (ok_last _ _ _ (run_loop_ok (resume_of sa) pre) it El) as (a & g & b & Epre & [Eg _]%listed_spec & Hi & _).
    assert (Name g ≠ []) as Hg.
    { rewrite Forall_forall in Hne. apply Hne. rewrite <- (stable_sort_perm file_less files), HL, Epre. set_solver. }
    destruct (token_bounds g it Eg Hi Hg) as [T1 T2].
    destruct (next_token_resumes q it El T1 T2) as (R1 & R2 & R3). rewrite Hp. rewrite decide_False by done.
    pose proof (file_sort_strict files Hnd) as Hs. rewrite HL in Hs.
    destruct (IH (next_token (cut q)) R3) as (ps & HF & C1 & C2 & C3).
    { rewrite R1, HL. pose proof (next_page_remaining (resume_of sa) pre f rest it Hs Hf Hn El). rewrite HL in Hfuel. lia. }
    rewrite HF. exists (cut q :: ps). cbn [map concat]. rewrite C1, C2, R1, HL.
    destruct (next_page (resume_of sa) pre f rest it Hs Hf Hn El) as [N1 N2]. rewrite N1, N2.
    split_and!; try done. constructor; [|done]. change (keyCount (cut q)) with (keyCount q). lia.
Qed.
End Follow.

(** *** What all pages hold *)
Definition is_key (it : item) : bool := match it with IKey _ => true | IPrefix _ => false end.

Lemma run_contents r L p :
  contents (run_loop r p L) = contents p ++ filter (λ f, listed r f && is_key (item_of f) = true) L.
Proof.
  unfold run_loop. revert p. induction L as [|f L IH]; intros p; [cbn; by rewrite app_nil_r|]. cbn [foldl].
  rewrite IH, filter_cons. unfold add_file. destruct (listed r f); cbn [negb andb]; [|by rewrite decide_False].
  destruct (item_of f) as [k|P] eqn:Ei; cbn [is_key emitted].
  - rewrite decide_True by done. apply item_key in Ei as ->. cbn [with_item contents]. by rewrite <- app_assoc.
  - rewrite decide_False by done. case_bool_decide; done.
Qed.

Lemma run_prefixes r L p :
  NoDup (prefixes p) →
  NoDup (prefixes (run_loop r p L))
  ∧ ∀ P, P ∈ prefixes (run_loop r p L) ↔ P ∈ prefixes p ∨ ∃ f, f ∈ L ∧ listed r f = true ∧ item_of f = IPrefix P.
Proof.
  unfold run_loop. revert p. induction L as [|f L IH]; intros p Hp; cbn [foldl].
  { split; [done|]. intros P. split; [by left|]. intros [?|(f & []%elem_of_nil & _)]. done. }
  assert (Hstep : NoDup (prefixes (add_file r p f))
    ∧ ∀ P, P ∈ prefixes (add_file r p f) ↔ P ∈ prefixes p ∨ listed r f = true ∧ item_of f = IPrefix P).
  { unfold add_file. destruct (listed r f); cbn [negb]; [|naive_solver].
    destruct (item_of f) as [k|Q]; cbn [emitted with_item prefixes]; [naive_solver|].
    case_bool_decide as HQ; [naive_solver|]. cbn [with_item prefixes]. split.
    - apply NoDup_app. split_and!; [done| |apply NoDup_singleton]. intros x Hx ->%list_elem_of_singleton. done.
    - intros P. rewrite elem_of_app, list_elem_of_singleton. naive_solver. }
  destruct Hstep as [Hnd' Hel]. destruct (IH _ Hnd') as [H1 H2]. split; [done|]. intros P. rewrite H2, Hel.
  setoid_rewrite elem_of_cons. naive_solver.
Qed.
End Groups.

(** C29: A client that lists a bucket page by page, passing each
    NextContinuationToken back, stops after at most one request per object
    and receives no error; its pages hold at most [maxKeys] entries each and
    together hold every matching object without the delimiter exactly once,
    in key order, and every common prefix exactly once — nothing is repeated
    or lost at a page boundary, whether the page ended on a key or in the
    middle of a group. Object names are distinct and non-empty, and the
    delimiter is at most one byte. *)
Theorem pagination_complete prefix delimiter bucketName maxKeys fetchOwner files fuel :
  (length delimiter <= 1)%nat → (length bucketName <= 64 ∧ length prefix <= 64)%nat → 0 < maxKeys →
  NoDup (map Name files) → Forall (λ f, Name f ≠ []) files → (length files < fuel)%nat →
  ∃ ps, follow prefix delimiter fuel bucketName maxKeys fetchOwner [] files
      = Ok (map (page_xml bucketName prefix delimiter maxKeys fetchOwner) ps)
    ∧ concat (map contents ps)
      = filter (λ f, listed prefix FromStart f && is_key (item_of prefix delimiter f) = true) (stable_sort file_less files)
    ∧ NoDup (concat (map prefixes ps))
    ∧ (∀ P, P ∈ concat (map prefixes ps) ↔
         ∃ f, f ∈ files ∧ listed prefix FromStart f = true ∧ item_of prefix delimiter f = IPrefix P)
    ∧ Forall (λ p, keyCount p <= maxKeys) ps.
Proof.
  intros Hd Hl Hm Hnd Hne Hfuel.
  destruct (follow_run prefix delimiter Hd bucketName maxKeys fetchOwner files Hm Hl Hnd Hne fuel [])
    as (ps & HF & HC & HP & HK); [cbn; lia| |].
  { unfold remaining. pose proof (length_filter (λ f, listed prefix (resume_of []) f = true) (stable_sort file_less files)) as H.
    rewrite stable_sort_perm in H at 2. lia. }
  destruct (run_prefixes prefix delimiter FromStart (stable_sort file_less files) empty_page (NoDup_nil_2)) as [H1 H2].
  exists ps. rewrite HP, HC, run_contents. cbn [app contents empty_page]. split_and!; try done.
  intros P. change (resume_of []) with FromStart. rewrite H2. setoid_rewrite (stable_sort_perm file_less files).
  split; [intros [[]%elem_of_nil|?]; done|by right].
Qed.

Definition ex_file (n : bytes) : FileMetadata := mkFile n (bs "h") 1 [] 0.

(** Three objects, one of them in a group of two, one entry per page. *)
Lemma pagination_complete_witness :
  ∃ ps, follow [] (bs "/") 5 (bs "b") 1 false [] (map ex_file [bs "c"; bs "a/2"; bs "a/1"; bs "b"])
      = Ok (map (page_xml (bs "b") [] (bs "/") 1 false) ps)
    ∧ concat (map contents ps) = map ex_file [bs "b"; bs "c"]
    ∧ Forall (λ p, keyCount p <= 1) ps.
Proof.
  edestruct (pagination_complete [] (bs "/") (bs "b") 1 false (map ex_file [bs "c"; bs "a/2"; bs "a/1"; bs "b"]) 5)
    as (ps & H1 & H2 & _ & _ & H3).
  - cbn. lia.
  - cbn. lia.
  - lia.
  - apply (bool_decide_unpack _). vm_compute. exact I.
  - repeat constructor; discriminate.
  - cbn. lia.
  - exists ps. split; [exact H1|]. split; [rewrite H2; vm_compute; reflexivity|exact H3].
Defined.

(** A start-after key that happens to be valid base64 is taken for a token:
    the listing starts over before the key. *)
Example start_after_decoded :
  map Name (contents (list_page [] [] 10 (resume_of (bs "file")) (map ex_file [bs "file"; bs "zzz"])))
  = [bs "file"; bs "zzz"].
Proof. vm_compute. reflexivity. Qed.

(** With a delimiter of two bytes the common prefix keeps the first one only,
    and the key after the page boundary is lost. *)
Example long_delimiter_loses :
  let fs := map ex_file [bs "a--b"; bs "a-c"] in
  let p1 := list_page [] (bs "--") 1 FromStart fs in
  let p2 := list_page [] (bs "--") 1 (resume_of (next_token p1)) fs in
  prefixes p1 = [bs "a-"] ∧ truncated p1 = true ∧ contents p2 = [] ∧ truncated p2 = false.
Proof. vm_compute. done. Qed.

(** ** Markup *)
Definition markup : list byte := [Byte.x3c; Byte.x3e; Byte.x22; Byte.x27].

Lemma xml_char_safe c : Forall (λ x, x ∉ markup) (xml_char c).
Proof.
  unfold xml_char. repeat case_decide; [apply (bool_decide_unpack _); vm_compute; exact I..|].
  constructor; [|constructor]. unfold markup. set_solver.
Qed.

(** The text of a value closes no element and no attribute. *)
Lemma xmlEscape_safe s : Forall (λ x, x ∉ markup) (xmlEscape s).
Proof.
  unfold xmlEscape. induction s as [|c s IH]; cbn [map concat]; [constructor|].
  apply Forall_app. split; [apply xml_char_safe|exact IH].
Qed.
