(* ===== verification/S3Http.v ===== *)
(** * Requests and responses of the S3 gateway
    (src/src/transport/s3_communicator.go, s3_versioning.go, common/checksum.go)

    What the handlers read of a request and the text they answer with.  A
    request is what [http.ReadRequest] returned; what Go's library parses of
    dates and of XML documents, and how it quotes a string in a message, are
    fields of [golib]. *)
From S2P Require Import Prelude GoText Hashes Json Paths BlobStore CasStore Versioning Lifecycle Notify Protocol Chunked SigV4 S3List.
Open Scope Z_scope.

(** [Body] is the entity [net/http] delimits, [Raw] what follows the header on the connection. *)
Record s3_request := mkS3 { http : http_request; Body : reader; Raw : reader; ContentLength : Z }.

(** [io.ReadAll(io.LimitReader(r, n))] *)
Definition read_limited (n : Z) (r : reader) : result bytes :=
  let c := concat (rd_chunks r) in
  if Z.of_nat (length c) <? n then read_all r else Ok (take (Z.to_nat n) c).

Definition q_has (r : http_request) (k : bytes) : bool := bool_decide (is_Some (Query r !! k)).

(** ** Text *)
Definition upper_byte (c : byte) : byte := if (97 <=? b2z c) && (b2z c <=? 122) then z2b (b2z c - 32) else c.
(** [strings.ToLower] and [strings.ToUpper] of ASCII text *)
Definition ToLower (s : bytes) : bytes := map fold_byte s.
Definition ToUpper (s : bytes) : bytes := map upper_byte s.

Fixpoint trim_quotes_left (s : bytes) : bytes :=
  match s with c :: s' => if decide (c = dquote) then trim_quotes_left s' else s | [] => [] end.
(** [strings.Trim] of double quotes *)
Definition trim_quotes (s : bytes) : bytes := rev (trim_quotes_left (rev (trim_quotes_left s))).

Definition crlf2 : bytes := [ch_cr; ch_lf].

(** ** Addresses *)

(** [net.SplitHostPort]: the host, when there is a port. *)
Definition split_host_port (hp : bytes) : option bytes :=
  match index_byte ch_colon (rev hp) with
  | None => None
  | Some back =>
      let i := (length hp - 1 - back)%nat in
      match hp with
      | c :: _ =>
          if decide (c = Byte.x5b) then
            match index_byte Byte.x5d hp with
            | None => None
            | Some e =>
                if negb (S e =? i)%nat then None
                else if contains_byte Byte.x5b (drop 1 hp) || contains_byte Byte.x5d (drop (S e) hp) then None
                else Some (slice 1 e hp)
            end
          else
            let host := take i hp in
            if contains_byte ch_colon host || contains_byte Byte.x5b hp || contains_byte Byte.x5d hp then None else Some host
      | [] => None
      end
  end.

Definition bucketFromVirtualHost (host : bytes) : bytes :=
  if negb (contains_byte ch_dot host) then []
  else if has_suffix host (bs "localhost") then match index_byte ch_dot host with Some i => take i host | None => [] end
  else match str_index host (bs ".s3") with Some i => take i host | None => [] end.

Definition splitPathBucketKey (cleanPath : bytes) : bytes * bytes :=
  if decide (cleanPath = [] ∨ cleanPath = [ch_dot]) then ([], [])
  else match index_byte ch_slash cleanPath with
       | Some i => (take i cleanPath, drop (S i) cleanPath)
       | None => (cleanPath, [])
       end.

Definition extractS3BucketAndKey (r : http_request) : bytes * bytes :=
  let host := default (Host r) (split_host_port (Host r)) in
  let bucket := bucketFromVirtualHost host in
  let cleanPath := trim_prefix (path_clean (Path r)) [ch_slash] in
  let '(bucket, key) := if decide (bucket = []) then splitPathBucketKey cleanPath else (bucket, cleanPath) in
  (bucket, if decide (key = [ch_dot]) then [] else key).

Definition unsupportedBucketConfigSubresources : list (bytes * bytes) :=
  [(bs "acl", bs "bucket access-control lists"); (bs "policy", bs "bucket policies"); (bs "cors", bs "CORS configuration");
   (bs "website", bs "static website hosting"); (bs "tagging", bs "bucket tagging"); (bs "encryption", bs "bucket encryption");
   (bs "publicAccessBlock", bs "public access block"); (bs "accelerate", bs "transfer acceleration");
   (bs "replication", bs "replication configuration"); (bs "requestPayment", bs "request-payer configuration");
   (bs "logging", bs "logging configuration"); (bs "notification", bs "notification configuration");
   (bs "analytics", bs "bucket analytics configuration"); (bs "inventory", bs "bucket inventory configuration");
   (bs "metrics", bs "bucket metrics configuration"); (bs "intelligent-tiering", bs "S3 Intelligent-Tiering configuration")].

Definition unsupportedObjectSubresources : list (bytes * bytes) :=
  [(bs "tagging", bs "object tagging"); (bs "acl", bs "object access-control lists"); (bs "select", bs "SelectObjectContent")].

(** The range over the query is a range over a map: which name comes first is
    not specified; here it is the first in key order. *)
Definition unsupported_in (table : list (bytes * bytes)) (r : http_request) : option bytes :=
  snd <$> List.find (λ kv, q_has r kv.1) (stable_sort (λ a b, bytes_ltb a.1 b.1) table).
Definition unsupportedBucketConfigSubresource := unsupported_in unsupportedBucketConfigSubresources.
Definition unsupportedObjectSubresource := unsupported_in unsupportedObjectSubresources.

(** ** Ranges and conditions *)
Inductive range_answer := Whole | Span (start end_ : Z) | Unsatisfiable.

(** [strconv.ParseInt(s, 10, 63)] of a position: not negative, below 2^62. *)
Definition parse_position (s : bytes) : option Z :=
  if decide (s = []) then None
  else match parse_int64 s with
       | Some v => if (v <? 0) || (2 ^ 62 - 1 <? v) then None else Some v
       | None => None
       end.

Definition parseS3Range (rangeHeader : bytes) (size : Z) : range_answer :=
  let hv := trim_space rangeHeader in
  if negb (has_prefix hv (bs "bytes=")) then Whole
  else
    let spec := drop 6 hv in
    if contains_byte ch_comma spec then Whole
    else match index_byte ch_minus spec with
         | None => Whole
         | Some i =>
             let startStr := trim_space (take i spec) in
             let endStr := trim_space (drop (S i) spec) in
             if decide (startStr = []) then
               if decide (endStr = []) then Unsatisfiable
               else match parse_position endStr with
                    | None => Unsatisfiable
                    | Some n => if (n =? 0) || (size =? 0) then Unsatisfiable
                                else let n := Z.min n size in Span (size - n) (size - 1)
                    end
             else if decide (endStr = []) then
               match parse_position startStr with
               | None => Unsatisfiable
               | Some s => if (size =? 0) || (size <=? s) then Unsatisfiable else Span s (size - 1)
               end
             else match parse_position startStr, parse_position endStr with
                  | Some s, Some e => if (size <=? s) || (e <? s) then Unsatisfiable else Span s (Z.min e (size - 1))
                  | _, _ => Unsatisfiable
                  end
         end.

(** The comma-separated items; an empty last one is not visited. *)
Fixpoint etag_items (fuel : nat) (header : bytes) : list bytes :=
  match fuel, header with
  | S fuel, _ :: _ =>
      match index_byte ch_comma header with
      | None => [header]
      | Some i => take i header :: etag_items fuel (drop (S i) header)
      end
  | _, _ => []
  end.

Definition etag_item (etag item : bytes) : bool :=
  let item := trim_space item in
  bool_decide (item = bs "*")
  || bool_decide (trim_quotes (trim_space (trim_prefix item (bs "W/"))) = etag).

Definition etagMatches (header etag : bytes) : bool := existsb (etag_item etag) (etag_items (length header) header).

(** What the code uses of Go's library for text it does not build itself. *)
Record lifecycleRuleXML := mkLifecycleXML {
  LX_ID : bytes; LX_Status : bytes; LX_Filter : option bytes; LX_Prefix : bytes;
  LX_Expiration : option Z; LX_Transition : option (Z * bytes)
}.

Record s3Version := mkS3Version {
  SV_Name : bytes; SV_Key : bytes; SV_VersionID : bytes; SV_IsLatest : bool; SV_LastModified : Z; SV_ETag : bytes; SV_Size : Z
}.
Record ListVersionsResult := mkListVersions {
  LV_Name : bytes; LV_Prefix : bytes; LV_KeyMarker : bytes; LV_VersionIDMarker : bytes; LV_NextKeyMarker : bytes;
  LV_NextVersionID : bytes; LV_MaxKeys : Z; LV_IsTruncated : bool; LV_Entries : list s3Version
}.
Record notificationRuleXML := mkNotificationXML {
  NX_ID : bytes; NX_Status : bytes; NX_Event : list bytes; NX_Filter : list (bytes * bytes); NX_Prefix : bytes; NX_Suffix : bytes;
  NX_QueueARN : bytes; NX_TopicARN : bytes; NX_LambdaARN : bytes; NX_HTTPUrl : bytes
}.

Record golib := mkGo {
  quote : bytes → bytes;                            (* strconv.Quote *)
  errorText : error → bytes;                        (* Error() *)
  ParseTime : bytes → option Z;                     (* http.ParseTime, in nanoseconds *)
  ParseRFC3339 : bytes → option Z;                  (* time.Parse(time.RFC3339, _), in seconds *)
  xml_versioning : bytes → option bytes;            (* xml.Unmarshal into VersioningConfiguration *)
  xml_retention : bytes → option (bytes * bytes);   (* into retentionXML *)
  xml_legal_hold : bytes → option bytes;            (* into legalHoldXML *)
  xml_delete : bytes → option (list bytes);         (* into s3DeletePayload *)
  xml_lifecycle : bytes → option (list lifecycleRuleXML);
  xml_notification : bytes → option (list notificationRuleXML);
  xml_notification_out : list notificationRuleXML → option bytes;   (* xml.MarshalIndent *)
  xml_versions : ListVersionsResult → option bytes;
  json_headers : bytes → option headers             (* json.Unmarshal into a map of strings *)
}.

Section Lib.
Context (go : golib).

Definition ifRangeMatches (ifRange etag : bytes) (modTime : Z) : bool :=
  let val := trim_space ifRange in
  if has_prefix val dq || has_prefix val (bs "W/") then etagMatches val etag
  else match ParseTime go val with Some t => modTime <=? t | None => false end.
End Lib.

(** ** Dates *)
Definition day_name (days : Z) : bytes :=
  nth (Z.to_nat ((days + 4) mod 7)) [bs "Sun"; bs "Mon"; bs "Tue"; bs "Wed"; bs "Thu"; bs "Fri"; bs "Sat"] [].
Definition month_name (m : Z) : bytes :=
  nth (Z.to_nat (m - 1)) [bs "Jan"; bs "Feb"; bs "Mar"; bs "Apr"; bs "May"; bs "Jun"; bs "Jul"; bs "Aug"; bs "Sep"; bs "Oct"; bs "Nov"; bs "Dec"] [].
(** [http.TimeFormat] of a Unix time in nanoseconds *)
Definition http_time (t : Z) : bytes :=
  let secs := t / 10 ^ 9 in
  let '(y, m, d) := civil (secs / 86400) in
  let s := secs mod 86400 in
  day_name (secs / 86400) ++ bs ", " ++ pad_dec 2 d ++ bs " " ++ month_name m ++ bs " " ++ pad_dec 4 y ++ bs " "
  ++ pad_dec 2 (s / 3600) ++ bs ":" ++ pad_dec 2 (s / 60 mod 60) ++ bs ":" ++ pad_dec 2 (s mod 60) ++ bs " GMT".

(** ** Responses *)
Definition status_text (status : Z) : bytes :=
  match status with
  | 200 => bs "OK" | 204 => bs "No Content" | 400 => bs "Bad Request" | 403 => bs "Forbidden" | 404 => bs "Not Found"
  | 409 => bs "Conflict" | 412 => bs "Precondition Failed" | 413 => bs "Request Entity Too Large"
  | 500 => bs "Internal Server Error" | 501 => bs "Not Implemented" | 503 => bs "Service Unavailable"
  | 507 => bs "Insufficient Storage" | _ => []
  end.

Definition s3ConnClose : bytes := crlf2 ++ bs "Connection: close" ++ crlf2 ++ crlf2.

Definition error_xml (code message resource : bytes) : bytes :=
  xml_header ++ bs "<Error><Code>" ++ xmlEscape code ++ bs "</Code><Message>" ++ xmlEscape message ++ bs "</Message>"
  ++ (if decide (resource = []) then [] else bs "<Resource>" ++ xmlEscape resource ++ bs "</Resource>") ++ bs "</Error>".

(** The text [writeS3Error] sends. *)
Definition s3_error (status : Z) (code message resource : bytes) : bytes :=
  let message := ReplaceCRLF (take 512 message) in
  let body := error_xml code message (take 1024 resource) in
  bs "HTTP/1.1 " ++ append_int status ++ bs " " ++ status_text status ++ crlf2 ++ bs "Content-Type: application/xml" ++ crlf2
  ++ bs "Content-Length: " ++ append_int (Z.of_nat (length body)) ++ s3ConnClose ++ body.

Definition range_error (size : Z) (key : bytes) : bytes :=
  let body := xml_header ++ bs "<Error><Code>InvalidRange</Code><Message>The requested range cannot be satisfied.</Message><Resource>"
              ++ xmlEscape key ++ bs "</Resource></Error>" in
  bs "HTTP/1.1 416 Range Not Satisfiable" ++ crlf2 ++ bs "Content-Type: application/xml" ++ crlf2 ++ bs "Content-Length: "
  ++ append_int (Z.of_nat (length body)) ++ crlf2 ++ bs "Content-Range: bytes */" ++ append_int size ++ s3ConnClose ++ body.

Definition xmlResponseHeaders (contentLength : Z) : bytes :=
  bs "HTTP/1.1 200 OK" ++ crlf2 ++ bs "Content-Type: application/xml" ++ crlf2 ++ bs "Content-Length: " ++ append_int contentLength ++ s3ConnClose.

Definition xml_response (body : bytes) : bytes := xmlResponseHeaders (Z.of_nat (length body)) ++ body.

Definition writeXMLString (name value : bytes) : bytes :=
  bs "<" ++ name ++ bs ">" ++ xmlEscape value ++ bs "</" ++ name ++ bs ">".

(** ** Preserved headers *)
Definition headerKeysWithout (h : headers) (exclude : bytes) : list bytes :=
  filter (λ k, k ≠ exclude) (map fst (cursor h)).

Definition header_line (h : headers) (k : bytes) : bytes :=
  let v := default [] (h !! k) in if decide (v = []) then [] else k ++ bs ": " ++ v ++ crlf2.

(** What [appendS3MetaHeaders] appends. *)
Definition appendS3MetaHeaders (h : headers) (contentType : bytes) : bytes :=
  bs "Content-Type: " ++ (if decide (contentType = []) then bs "application/octet-stream" else contentType) ++ crlf2
  ++ concat (map (header_line h) (headerKeysWithout h (bs "content-type"))).

(** ** Checksums *)
Definition checksumAlgos : list bytes := [bs "crc32c"; bs "crc32"; bs "sha1"; bs "sha256"].
Definition isSupportedChecksum (algo : bytes) : bool := bool_decide (algo ∈ checksumAlgos).
Definition checksumHeaderFor (algo : bytes) : bytes := bs "x-amz-checksum-" ++ algo.
Definition normalizeChecksumAlgorithm (algo : bytes) : bytes :=
  let a := ToLower (trim_space algo) in if isSupportedChecksum a then a else [].

(** [http.CanonicalHeaderKey] of these names *)
Definition checksum_key (algo : bytes) : bytes :=
  bs "X-Amz-Checksum-" ++ match algo with c :: t => upper_byte c :: t | [] => [] end.

Definition supplied_checksum (r : http_request) (algo : bytes) : option (bytes * bytes) :=
  let v := h_get r (checksum_key algo) in if decide (v = []) then None else Some (algo, v).

(** The algorithm and the expected value, both empty when none was requested; or
    the text of the error. *)
Definition parseChecksum (go : golib) (r : http_request) : bytes + bytes * bytes :=
  let '(matched, expected) := default ([], []) (head (omap (supplied_checksum r) checksumAlgos)) in
  let explicit := h_get r (bs "X-Amz-Checksum-Algorithm") in
  if decide (explicit = []) then inr (matched, expected)
  else
    let e := normalizeChecksumAlgorithm explicit in
    if decide (e = []) then inl (bs "unsupported checksum algorithm " ++ quote go explicit)
    else if negb (bool_decide (matched = [])) && negb (bool_decide (matched = e))
    then inl (bs "conflicting checksum algorithm " ++ quote go explicit ++ bs " vs " ++ quote go matched)
    else inr (e, expected).

(** CRC-32 (IEEE) and SHA-1 *)
Definition crc_ieee_step (c : Z) : Z := if Z.odd c then Z.lxor (Z.shiftr c 1) 3988292384 else Z.shiftr c 1.
Definition crc_ieee_byte (c : Z) (b : byte) : Z := Nat.iter 8 crc_ieee_step (Z.lxor c (b2z b)).
Definition crc32_ieee (b : bytes) : Z := Z.lxor (foldl crc_ieee_byte 4294967295 b) 4294967295.

Definition rotl (n x : Z) : Z := w32 (Z.lor (Z.shiftl x n) (Z.shiftr x (32 - n))).
(** The eighty words of the schedule, most recent first. *)
Fixpoint sha1_sched (n : nat) (w : list Z) : list Z :=
  match n with
  | O => w
  | S n => sha1_sched n (rotl 1 (Z.lxor (Z.lxor (nthz 2 w) (nthz 7 w)) (Z.lxor (nthz 13 w) (nthz 15 w))) :: w)
  end.
Definition sha1_round (st : Z * Z * Z * Z * Z) (tw : nat * Z) : Z * Z * Z * Z * Z :=
  let '(a, b, c, d, e) := st in
  let '(t, w) := tw in
  let '(f, k) :=
    if (t <? 20)%nat then (Z.lor (Z.land b c) (Z.land (Z.lxor b 4294967295) d), 1518500249)
    else if (t <? 40)%nat then (Z.lxor (Z.lxor b c) d, 1859775393)
    else if (t <? 60)%nat then (Z.lor (Z.lor (Z.land b c) (Z.land b d)) (Z.land c d), 2400959708)
    else (Z.lxor (Z.lxor b c) d, 3395469782) in
  (w32 (rotl 5 a + f + e + k + w), a, rotl 30 b, c, d).
Definition sha1_block (st : Z * Z * Z * Z * Z) (blk : bytes) : Z * Z * Z * Z * Z :=
  let '(a, b, c, d, e) := st in
  let w := rev (sha1_sched 64 (rev (words_of 16 blk))) in
  let '(a', b', c', d', e') := foldl sha1_round st (zip (seq 0 80) w) in
  (w32 (a + a'), w32 (b + b'), w32 (c + c'), w32 (d + d'), w32 (e + e')).
Fixpoint sha1_blocks (fuel : nat) (st : Z * Z * Z * Z * Z) (b : bytes) : Z * Z * Z * Z * Z :=
  match fuel with O => st | S fuel => match b with [] => st | _ => sha1_blocks fuel (sha1_block st (take 64 b)) (drop 64 b) end end.
Definition sha1 (b : bytes) : bytes :=
  let p := sha_pad b in
  let '(a, b, c, d, e) := sha1_blocks (length p) (1732584193, 4023233417, 2562383102, 271733878, 3285377520) p in
  put_be 4 a ++ put_be 4 b ++ put_be 4 c ++ put_be 4 d ++ put_be 4 e.

(** [ChecksumHasher] over the whole input *)
Definition ChecksumHasher (algo data : bytes) : bytes :=
  if decide (algo = bs "crc32c") then put_be 4 (crc32c data)
  else if decide (algo = bs "crc32") then put_be 4 (crc32_ieee data)
  else if decide (algo = bs "sha1") then sha1 data
  else if decide (algo = bs "sha256") then sha256 data
  else [].

(** ** Metadata of a PUT *)
Definition sanitizeS3HeaderValue (v : bytes) : bytes := trim_space (ReplaceCRLF (take 1024 v)).

Definition s3standardHeaders : list bytes :=
  [bs "Content-Type"; bs "Cache-Control"; bs "Content-Disposition"; bs "Content-Encoding"; bs "Expires"; bs "X-Amz-Server-Side-Encryption"].

Definition addHeader (key value : bytes) (h : headers) : headers :=
  let value := sanitizeS3HeaderValue value in if decide (value = []) then h else <[key := value]> h.

Definition add_standard (r : http_request) (h : headers) (name : bytes) : headers :=
  let v := h_get r name in if decide (v = []) then h else addHeader (ToLower name) v h.
Definition add_checksum (r : http_request) (acc : headers * bytes) (algo : bytes) : headers * bytes :=
  let '(h, seen) := acc in
  match supplied_checksum r algo with
  | Some (_, v) => (addHeader (checksumHeaderFor algo) v h, if decide (seen = []) then algo else seen)
  | None => acc
  end.
Definition meta_prefix : bytes := bs "X-Amz-Meta-".
Definition add_user (h : headers) (kv : bytes * list bytes) : headers :=
  if has_prefix kv.1 meta_prefix
  then foldl (λ h v, addHeader (bs "x-amz-meta-" ++ ToLower (drop (length meta_prefix) kv.1)) v h) h kv.2
  else h.

Definition collectS3Headers (r : http_request) : headers :=
  let h := foldl (add_standard r) ∅ s3standardHeaders in
  let '(h, seen) := foldl (add_checksum r) (h, []) checksumAlgos in
  let explicit := h_get r (bs "X-Amz-Checksum-Algorithm") in
  let norm := if decide (explicit = []) then [] else normalizeChecksumAlgorithm explicit in
  let seen := if decide (norm = []) then seen else norm in
  let h := if decide (seen = []) then h else addHeader (bs "x-amz-checksum-algorithm") seen h in
  foldl add_user h (Header r).

(** ** Examples *)
Example crc32_check : crc32_ieee (bs "123456789") = 3421780262.
Proof. vm_compute. reflexivity. Qed.
Example sha1_abc : hex_encode (sha1 (bs "abc")) = bs "a9993e364706816aba3e25717850c26c9cd0d89d".
Proof. vm_compute. reflexivity. Qed.
Example sha1_two_blocks :
  hex_encode (sha1 (bs "abcdbcdecdefdefgefghfghighijhijkijkljklmklmnlmnomnopnopq")) = bs "84983e441c3bd26ebaae4aa1f95129e5e54670f1".
Proof. vm_compute. reflexivity. Qed.
Example http_time_epoch : http_time 784111777000000000 = bs "Sun, 06 Nov 1994 08:49:37 GMT".
Proof. vm_compute. reflexivity. Qed.
Example range_suffix : parseS3Range (bs "bytes=-5") 100 = Span 95 99.
Proof. vm_compute. reflexivity. Qed.
