(* ===== verification/S3Gateway.v ===== *)
(** * Handlers of the S3 gateway
    (src/src/transport/s3_communicator.go, s3_versioning.go, s3_objectlock.go,
    s3_lifecycle.go, s3_notification.go)

    A handler is a computation over the connection and the node's state.  The
    result [None] is [ErrRequestHandled]; [Some (mode, timestamp)] is a request
    that the upload handler goes on with.  Deadlines, metrics and log lines are
    left out; writes to the connection succeed. *)
From S2P Require Import Prelude GoText Hashes Json Paths BlobStore RawStore CasStore AuditLog Versioning Access Lifecycle Notify Protocol Chunked SigV4 S3List S3Http.
Open Scope Z_scope.

(** ** State *)
Record multipartPart := mkPart { partNumber : Z; part_etag : bytes; part_data : bytes }.
Record multipartUpload := mkUpload { up_bucket : bytes; up_key : bytes; createdAt : Z; parts : list multipartPart }.

(** What [NewS3Communicator] and the setters of the daemon give the gateway, the
    clock and the random bytes it draws. *)
Record gateway_env := mkGateEnv {
  gtoken : bytes;
  sigV4AccessKey : bytes;
  sigV4SecretKey : bytes;
  configuredBucket : bytes;
  tenantID : bytes;
  hasStore : bool;
  gclock : Z;
  uploadRandom : bytes;
  versionRandom : option bytes;
  gLister : option (result (list FileMetadata));
  gLease : option (bytes → result unit);
  gPropagator : bool;
  gOPRF : option (bytes → result (list (Z * bytes)));
  notificationRetryMax : Z;
  gpost : bytes → bytes → nat → option Z
}.

(** Nothing in the program assigns [tenantID]. *)
Definition NewS3Communicator (token : bytes) (now : Z) : gateway_env :=
  mkGateEnv token [] [] [] [] false now [] None None None false None 0 (λ _ _ _, None).

Section Gateway.
Context {B : Type} `{BlobStore B} (go : golib).

Record gateway := mkGateway {
  gstore : NStore B;
  gaccess : AccessDB;
  gaudit : audit_log;
  uploads : gmap bytes multipartUpload;
  gcalls : list hook_call;
  gposted : list (bytes * bytes);
  gpeer : bool;
  isExternalClient : bool;
  gmeta : FileMetadata;
  gheaders : headers;
  gsigV4 : option streamingSigningCtx;
  streamingSpill : option bytes
}.

Implicit Types (g : gateway) (e : gateway_env) (r : s3_request).
Local Notation answer := (M gateway (option (Z * Z))).

Definition set_store (s : NStore B) g : gateway :=
  mkGateway s (gaccess g) (gaudit g) (uploads g) (gcalls g) (gposted g) (gpeer g) (isExternalClient g) (gmeta g) (gheaders g) (gsigV4 g) (streamingSpill g).
Definition set_uploads (u : gmap bytes multipartUpload) g : gateway :=
  mkGateway (gstore g) (gaccess g) (gaudit g) u (gcalls g) (gposted g) (gpeer g) (isExternalClient g) (gmeta g) (gheaders g) (gsigV4 g) (streamingSpill g).
Definition set_meta (m : FileMetadata) (h : headers) g : gateway :=
  mkGateway (gstore g) (gaccess g) (gaudit g) (uploads g) (gcalls g) (gposted g) (gpeer g) (isExternalClient g) m h (gsigV4 g) (streamingSpill g).

Definition gls g : LStore B := ls (gstore g).
Definition gvs g : VStore B := vs (gls g).
Definition gcas g : CASStore B := cas (gvs g).
Definition set_ls (l : LStore B) g : gateway := set_store (mkNS l (notifications (gstore g))) g.
Definition set_vs (v : VStore B) g : gateway := set_ls (with_vs v (gls g)) g.
Definition set_cas (c : CASStore B) g : gateway := set_vs (with_cas c (gvs g)) g.

Definition modify (f : gateway → gateway) : M gateway unit := s ← get; put (f s).

(** Operations of the store that the handlers call. *)
Definition on_cas {A} (op : CASStore B → result A * CASStore B) : M gateway A :=
  s ← get; let '(x, c) := op (gcas s) in put (set_cas c s);; lift x.
Definition on_vs {A} (op : VStore B → result A * VStore B) : M gateway A :=
  s ← get; let '(x, v) := op (gvs s) in put (set_vs v s);; lift x.
Definition on_ls {A} (op : LStore B → result A * LStore B) : M gateway A :=
  s ← get; let '(x, l) := op (gls s) in put (set_ls l s);; lift x.
Definition on_ns {A} (op : NStore B → result A * NStore B) : M gateway A :=
  s ← get; let '(x, n) := op (gstore s) in put (set_store n s);; lift x.

(** The result of a computation as a value. *)
Definition attempt {A} (m : M gateway A) : M gateway (result A) := λ st, let '(x, st) := m st in (Ok x, st).

Definition gcall (h : hook_call) : M gateway unit := modify (λ g,
  mkGateway (gstore g) (gaccess g) (gaudit g) (uploads g) (gcalls g ++ [h]) (gposted g) (gpeer g) (isExternalClient g) (gmeta g) (gheaders g) (gsigV4 g) (streamingSpill g)).
Definition set_gpeer (p : bool) : M gateway unit := modify (λ g,
  mkGateway (gstore g) (gaccess g) (gaudit g) (uploads g) (gcalls g) (gposted g) p (isExternalClient g) (gmeta g) (gheaders g) (gsigV4 g) (streamingSpill g)).
Definition set_external : M gateway unit := modify (λ g,
  mkGateway (gstore g) (gaccess g) (gaudit g) (uploads g) (gcalls g) (gposted g) (gpeer g) true (gmeta g) (gheaders g) (gsigV4 g) (streamingSpill g)).
Definition set_ctx (c : option streamingSigningCtx) : M gateway unit := modify (λ g,
  mkGateway (gstore g) (gaccess g) (gaudit g) (uploads g) (gcalls g) (gposted g) (gpeer g) (isExternalClient g) (gmeta g) (gheaders g) c (streamingSpill g)).
Definition set_spill (d : bytes) : M gateway unit := modify (λ g,
  mkGateway (gstore g) (gaccess g) (gaudit g) (uploads g) (gcalls g) (gposted g) (gpeer g) (isExternalClient g) (gmeta g) (gheaders g) (gsigV4 g) (Some d)).

Definition s3_writeAuditLog e (operation resource outcome : bytes) : M gateway unit :=
  if bool_decide (tenantID e = []) || negb (hasStore e) then mret tt
  else modify (λ g,
    mkGateway (gstore g) (gaccess g)
      (WriteAuditLog (gaudit g) (mkAudit 0 (tenantID e) (bs "s3-client") operation resource outcome (append_int (gclock e)) [] []) (gclock e))
      (uploads g) (gcalls g) (gposted g) (gpeer g) (isExternalClient g) (gmeta g) (gheaders g) (gsigV4 g) (streamingSpill g)).

Definition defaultNotificationRetryMax : Z := 3.

Definition dispatchNotification e (bucket key versionID : bytes) (ev : EventType) : M gateway unit :=
  if negb (hasStore e) then mret tt
  else modify (λ g,
    let retryMax := if notificationRetryMax e <? 1 then defaultNotificationRetryMax else notificationRetryMax e in
    let sent := (DispatchNotification (gpost e) (gstore g) bucket key versionID ev (gclock e) retryMax).2 in
    mkGateway (gstore g) (gaccess g) (gaudit g) (uploads g) (gcalls g) (gposted g ++ sent) (gpeer g) (isExternalClient g) (gmeta g) (gheaders g) (gsigV4 g) (streamingSpill g)).

(** ** Answers *)
Definition writeS3Error (status : Z) (code message resource : bytes) : M gateway unit := Write (s3_error status code message resource).
Definition handled_with (status : Z) (code message resource : bytes) : answer := writeS3Error status code message resource;; mret None.
Definition refuse {A} (status : Z) (code message resource : bytes) (er : error) : M gateway A :=
  writeS3Error status code message resource;; fail_with er.

Definition NoSuchBucket {A} (bucket : bytes) : M gateway A :=
  refuse 404 (bs "NoSuchBucket") (bs "The specified bucket does not exist.") bucket (Errno ENOENT).
Definition no_store {A} : M gateway A :=
  refuse 500 (bs "InternalError") (bs "The storage store is not initialized.") [] ErrPlain.
Definition internal {A} (message resource : bytes) (er : error) : M gateway A := refuse 500 (bs "InternalError") message resource er.
Definition msg_internal : bytes := bs "The request failed due to an internal error.".
Definition msgMalformedXML : bytes := bs "The XML you provided was not well-formed or did not validate against our published schema.".

Definition not_implemented {A} (message resource : bytes) : M gateway A := refuse 501 (bs "NotImplemented") message resource (Errno ENOTSUP).
Definition rejectVersioningUnsupported (resource : bytes) : answer := not_implemented (bs "Versioning is not supported by this storage backend.") resource.
Definition rejectLifecycleUnsupported (resource : bytes) : answer := not_implemented (bs "Lifecycle configuration is not supported by this storage backend.") resource.
Definition rejectNotificationUnsupported (resource : bytes) : answer := not_implemented (bs "Notification configuration is not supported by this storage backend.") resource.
Definition rejectObjectLockUnsupported {A} (resource : bytes) : M gateway A := not_implemented (bs "Object Lock is not supported.") resource.

(** [writeRawResponse]: its callers return its nil error, not [ErrRequestHandled]. *)
Definition writeRawResponse (hdrs body : bytes) : answer := Write (hdrs ++ body);; mret (Some (0, 0)).
Definition no_content_200 : bytes := bs "HTTP/1.1 200 OK" ++ crlf2 ++ bs "Content-Length: 0" ++ s3ConnClose.

Definition validBucket e (bucket : bytes) : bool := bool_decide (configuredBucket e = []) || bool_decide (bucket = configuredBucket e).

Definition listFiles e : M gateway (list FileMetadata) :=
  match gLister e with
  | Some l => lift l
  | None => s ← get; lift (List (gcas s))
  end.

Definition storedS3Meta (key : bytes) : M gateway headers := s ← get; mret (default ∅ (GetS3Meta (gls s) key)).

(** ** Streaming out *)
Definition copy_out (rc : reader) : M gateway unit :=
  Write (concat (rd_chunks rc));;
  match rd_err rc with None => mret tt | Some _ => fail_with (Errno EPIPE) end.

(** [io.CopyN] stops before it sees how the reader ends. *)
Definition copy_span (start n : Z) (rc : reader) : M gateway unit :=
  let c := concat (rd_chunks rc) in
  if Z.of_nat (length c) <? start then fail_with (Errno EPIPE)
  else
    let rest := drop (Z.to_nat start) c in
    Write (take (Z.to_nat n) rest);;
    if Z.of_nat (length rest) <? n then fail_with (Errno EPIPE) else mret tt.

(** ** GetObject and HeadObject *)
Definition responseBuffer : Z := 16384.

Definition object_text (status : bytes) (meta : FileMetadata) (h : headers) (extra : bytes) : bytes :=
  status ++ bs "ETag: " ++ dq ++ Hash meta ++ dq ++ crlf2 ++ bs "Last-Modified: " ++ http_time (ModTime meta) ++ crlf2
  ++ appendS3MetaHeaders h (default [] (h !! bs "content-type")) ++ extra ++ bs "Connection: close" ++ crlf2 ++ crlf2.

Definition write304 (meta : FileMetadata) (h : headers) : M gateway unit :=
  let b := bs "HTTP/1.1 304 Not Modified" ++ crlf2 ++ bs "ETag: " ++ dq ++ Hash meta ++ dq ++ crlf2 ++ bs "Last-Modified: "
           ++ http_time (ModTime meta) ++ crlf2 ++ bs "Content-Length: 0" ++ crlf2
           ++ appendS3MetaHeaders h (default [] (h !! bs "content-type")) ++ bs "Connection: close" ++ crlf2 ++ crlf2 in
  if responseBuffer <? Z.of_nat (length b) then mret tt else Write b.

(** With [X-Amz-Checksum-Mode: ENABLED]: the header to add and the reader to
    serve, which is then the buffered copy. *)
Definition checksum_mode (r : http_request) (h : headers) (rc : reader) : M gateway (bytes * reader) :=
  if negb (EqualFold (h_get r (bs "X-Amz-Checksum-Mode")) (bs "ENABLED")) then mret ([], rc)
  else
    let alg := normalizeChecksumAlgorithm (default [] (h !! bs "x-amz-checksum-algorithm")) in
    let alg := if decide (alg = []) then bs "crc32" else alg in
    let hdr := checksumHeaderFor alg in
    if negb (bool_decide (default [] (h !! hdr) = [])) then mret ([], rc)
    else
      content ← lift (read_all rc);
      mret (hdr ++ bs ": " ++ b64_encode (ChecksumHasher alg content) ++ crlf2, reader_of content).

Definition not_modified (r : http_request) (meta : FileMetadata) : bool :=
  let inm := h_get r (bs "If-None-Match") in
  let ims := h_get r (bs "If-Modified-Since") in
  if negb (bool_decide (inm = [])) then etagMatches inm (Hash meta)
  else if negb (bool_decide (ims = [])) then
    match ParseTime go ims with Some t => ModTime meta <=? t / 10 ^ 9 * 10 ^ 9 | None => false end
  else false.

Definition requested_range (r : http_request) (meta : FileMetadata) : range_answer :=
  let rangeHeader := h_get r (bs "Range") in
  let ir := h_get r (bs "If-Range") in
  if bool_decide (rangeHeader = []) then Whole
  else if negb (bool_decide (ir = [])) && negb (ifRangeMatches go ir (Hash meta) (ModTime meta)) then Whole
  else parseS3Range rangeHeader (FSize meta).

Definition get_status (a : range_answer) (size : Z) : bytes :=
  match a with
  | Span start end_ =>
      bs "HTTP/1.1 206 Partial Content" ++ crlf2 ++ bs "Content-Range: bytes " ++ append_int start ++ bs "-" ++ append_int end_ ++ bs "/"
      ++ append_int size ++ crlf2 ++ bs "Content-Length: " ++ append_int (end_ - start + 1) ++ crlf2
  | _ => bs "HTTP/1.1 200 OK" ++ crlf2 ++ bs "Content-Length: " ++ append_int size ++ crlf2
  end.

(** The rest of a download, once the object is open. *)
Definition serve_object e (r : http_request) (bucket key : bytes) (rc : reader) (meta : FileMetadata) : answer :=
  h ← storedS3Meta key;
  forced ← checksum_mode r h rc;
  let '(extra, rc) := forced in
  let im := h_get r (bs "If-Match") in
  if negb (bool_decide (im = [])) && negb (etagMatches im (Hash meta))
  then handled_with 412 (bs "PreconditionFailed") (bs "At least one of the pre-conditions you specified did not hold.") key
  else if not_modified r meta then write304 meta h;; mret None
  else
    let a := requested_range r meta in
    match a with
    | Unsatisfiable => Write (range_error (FSize meta) key);; mret None
    | _ =>
        let b := object_text (get_status a (FSize meta)) meta h extra in
        if responseBuffer <? Z.of_nat (length b) then fail_with (Errno ENOBUFS)
        else
          Write b;;
          (match a with Span start end_ => copy_span start (end_ - start + 1) rc | _ => copy_out rc end);;
          s3_writeAuditLog e (bs "GetObject") (bucket ++ [ch_slash] ++ key) (bs "success");;
          mret None
    end.

Definition open_object (key : bytes) : M gateway (option (reader * FileMetadata)) :=
  s ← get;
  match Get (gcas s) key with
  | Ok x => mret (Some x)
  | Err er =>
      if decide (er = Errno ENOENT) then writeS3Error 404 (bs "NoSuchKey") (bs "The specified key does not exist.") key;; mret None
      else internal msg_internal key er
  end.

Definition handle_get_object e r (bucket key : bytes) : answer :=
  o ← open_object key;
  match o with
  | None => mret None
  | Some (rc, meta) => serve_object e (http r) bucket key rc meta
  end.

Definition handle_head_object e (bucket key : bytes) : answer :=
  o ← open_object key;
  match o with
  | None => mret None
  | Some (_, meta) =>
      h ← storedS3Meta key;
      let b := bs "HTTP/1.1 200 OK" ++ crlf2 ++ bs "ETag: " ++ dq ++ Hash meta ++ dq ++ crlf2 ++ bs "Content-Length: "
               ++ append_int (FSize meta) ++ crlf2 ++ bs "Last-Modified: " ++ http_time (ModTime meta) ++ crlf2
               ++ appendS3MetaHeaders h (default [] (h !! bs "content-type")) ++ bs "Connection: close" ++ crlf2 ++ crlf2 in
      if responseBuffer <? Z.of_nat (length b) then fail_with (Errno ENOBUFS)
      else
        Write b;;
        s3_writeAuditLog e (bs "HeadObject") (bucket ++ [ch_slash] ++ key) (bs "success");;
        mret None
  end.

(** ** DeleteObject *)
Definition plain_delete e (key : bytes) : M gateway unit :=
  on_cas (λ c, Delete c key (gclock e)).

Definition propagate e (key : bytes) : M gateway unit := if gPropagator e then gcall (PropagateDelete key) else mret tt.

Definition delete_leased e (bucket key : bytes) : answer :=
  on_error (plain_delete e key) (λ er, internal msg_internal key er);;
  propagate e key;;
  Write (bs "HTTP/1.1 204 No Content" ++ s3ConnClose);;
  s3_writeAuditLog e (bs "DeleteObject") (bucket ++ [ch_slash] ++ key) (bs "success");;
  dispatchNotification e bucket key [] EventObjectRemovedDelete;;
  mret None.

Definition handle_delete_object e (bucket key : bytes) : answer :=
  match gLease e with
  | None => delete_leased e bucket key
  | Some acquire =>
      match acquire key with
      | Err er => refuse 503 (bs "ServiceUnavailable") (bs "The request could not be completed because the resource is locked by another request.") key er
      | Ok _ => gcall (AcquireLease key);; finally (delete_leased e bucket key) (gcall (ReleaseLease key))
      end
  end.

(** ** DeleteObjects *)
Record s3DeleteError := mkDeleteError { de_key : bytes; de_code : bytes; de_message : bytes }.
Definition maxDeleteBodyBytes : Z := 1048576.
Definition maxDeleteKeys : Z := 1000.

Definition parseDeleteObjectsBody (body : bytes) : result (list bytes) :=
  match xml_delete go body with
  | None => Err ErrPlain
  | Some objects =>
      if maxDeleteKeys <? Z.of_nat (length objects) then Err (Errno E2BIG)
      else Ok (filter (λ k, k ≠ []) (map trim_space objects))
  end.

Definition FormatDeleteObjectsResultXML (deleted : list bytes) (errs : list s3DeleteError) : bytes :=
  xml_header ++ bs "<DeleteResult" ++ s3_xmlns
  ++ concat (map (λ k, bs "<Deleted><Key>" ++ xmlEscape k ++ bs "</Key></Deleted>") deleted)
  ++ concat (map (λ d, bs "<Error><Key>" ++ xmlEscape (de_key d) ++ bs "</Key><Code>" ++ xmlEscape (de_code d)
                       ++ bs "</Code><Message>" ++ xmlEscape (de_message d) ++ bs "</Message></Error>") errs)
  ++ bs "</DeleteResult>".

Definition traverses (k : bytes) : bool := contains k dotdot || contains_byte ch_backslash k.

(** One key: an error to report, or [None].  The lease is released when the whole
    batch ends. *)
Definition batch_delete_one e (bucket k : bytes) : M gateway (option s3DeleteError) :=
  if traverses k then mret (Some (mkDeleteError k (bs "InvalidArgument") (bs "Invalid key.")))
  else
    let go_on :=
      on_error (plain_delete e k;; propagate e k;; dispatchNotification e bucket k [] EventObjectRemovedDelete;; mret None)
        (λ _, mret (Some (mkDeleteError k (bs "InternalError") msg_internal))) in
    match gLease e with
    | None => go_on
    | Some acquire =>
        match acquire k with
        | Err _ => mret (Some (mkDeleteError k (bs "ServiceUnavailable")
                     (bs "The request could not be completed because the resource is locked by another request.")))
        | Ok _ => gcall (AcquireLease k);; go_on
        end
    end.

Fixpoint batch_delete_loop e (bucket : bytes) (keys : list bytes) : M gateway (list bytes * list s3DeleteError) :=
  match keys with
  | [] => mret ([], [])
  | k :: keys =>
      o ← batch_delete_one e bucket k;
      rest ← batch_delete_loop e bucket keys;
      mret (match o with None => (k :: rest.1, rest.2) | Some d => (rest.1, d :: rest.2) end)
  end.

(** The deferred releases, last acquired first. *)
Definition release_all (before : nat) : M gateway unit :=
  s ← get;
  let acquired := omap (λ h, match h with AcquireLease k => Some k | _ => None end) (drop before (gcalls s)) in
  foldr (λ k m, m;; gcall (ReleaseLease k)) (mret tt) acquired.

Definition handleBatchDelete e (bucket : bytes) r : answer :=
  if negb (validBucket e bucket) then handled_with 404 (bs "NoSuchBucket") (bs "The specified bucket does not exist.") bucket
  else match read_limited (maxDeleteBodyBytes + 1) (Body r) with
  | Err _ => handled_with 400 (bs "InvalidRequest") (bs "Error parsing request body:") []
  | Ok body =>
      if maxDeleteBodyBytes <? Z.of_nat (length body) then handled_with 400 (bs "MalformedXML") (bs "The request body is too large.") []
      else match parseDeleteObjectsBody body with
      | Err _ => handled_with 400 (bs "MalformedXML") msgMalformedXML []
      | Ok keys =>
          s ← get;
          finally
            (out ← batch_delete_loop e bucket keys;
             Write (xml_response (FormatDeleteObjectsResultXML out.1 out.2));; mret None)
            (release_all (length (gcalls s)))
      end
  end.

(** ** CopyObject *)
Definition FormatCopyObjectResultXML (etag : bytes) (modTime : Z) : bytes :=
  xml_header ++ bs "<CopyObjectResult" ++ s3_xmlns ++ bs "<ETag>" ++ dq ++ xmlEscape etag ++ dq ++ bs "</ETag><LastModified>"
  ++ format_millis modTime ++ bs "</LastModified></CopyObjectResult>".

Definition put_error (key msg_full : bytes) (er : error) : M gateway unit :=
  if decide (er = Errno ENOSPC)
  then refuse 507 (bs "InsufficientStorage") (bs "There is insufficient storage space to complete the request.") key er
  else internal msg_full key er.

(** The source bucket and key of a decoded copy source. *)
Definition copy_source e (srcPath : bytes) : bytes * bytes :=
  match index_byte ch_slash srcPath with
  | Some i => (take i srcPath, drop (S i) srcPath)
  | None => (srcPath, if decide (configuredBucket e = []) then srcPath else [])
  end.

Definition handleCopyObject e (bucket key copySource : bytes) : answer :=
  if negb (validBucket e bucket) then handled_with 404 (bs "NoSuchBucket") (bs "The specified bucket does not exist.") bucket
  else if decide (key = []) then handled_with 400 (bs "InvalidArgument") (bs "Copy source must have a destination object key.") []
  else
    let srcPath := trim_prefix (default copySource (PathUnescape copySource)) [ch_slash] in
    if bool_decide (srcPath = []) || traverses srcPath then handled_with 400 (bs "InvalidArgument") (bs "Invalid copy source.") copySource
    else
      let '(srcBucket, srcKey) := copy_source e srcPath in
      if negb (bool_decide (configuredBucket e = [])) && negb (validBucket e srcBucket)
      then handled_with 404 (bs "NoSuchBucket") (bs "The specified bucket does not exist.") srcBucket
      else if decide (srcKey = []) then handled_with 400 (bs "InvalidArgument") (bs "Invalid copy source.") copySource
      else
        s ← get;
        match Get (gcas s) srcKey with
        | Err er =>
            if decide (er = Errno ENOENT) then handled_with 404 (bs "NoSuchKey") (bs "The specified source key does not exist.") srcKey
            else internal msg_internal srcKey er
        | Ok (rc, srcMeta) =>
            on_error (on_cas (λ c, Put c key (Hash srcMeta) (FSize srcMeta) [] (Some rc) (gclock e))) (put_error key msg_internal);;
            srcHeaders ← storedS3Meta srcKey;
            (if decide (srcHeaders = ∅) then mret tt else on_error (on_ls (λ l, PutS3Meta l key srcHeaders)) (λ _, mret tt));;
            Write (xml_response (FormatCopyObjectResultXML (Hash srcMeta) (ModTime srcMeta)));; mret None
        end.

(** ** Versions *)
Definition FormatVersioningConfigurationXML (status : bytes) : bytes :=
  xml_header ++ [ch_lf] ++ bs "<VersioningConfiguration" ++ s3_xmlns
  ++ (if decide (status = []) then [] else bs "<Status>" ++ status ++ bs "</Status>") ++ bs "</VersioningConfiguration>".

Definition handleGetVersioning (bucket : bytes) : answer :=
  s ← get;
  let body := FormatVersioningConfigurationXML (default [] (BucketVersioning (gvs s) bucket)) in
  writeRawResponse (xmlResponseHeaders (Z.of_nat (length body))) body.

Definition handlePutVersioning e r (bucket : bytes) : answer :=
  match read_limited 65536 (Body r) with
  | Err er => refuse 400 (bs "MalformedXML") (bs "Failed to read request body.") bucket er
  | Ok body =>
      let status := trim_space <$> xml_versioning go body in
      if bool_decide (status = Some VersioningEnabled) || bool_decide (status = Some VersioningSuspended) then
        on_error (on_vs (λ v, SetBucketVersioning v bucket (default [] status)))
          (λ er, internal (bs "Failed to store versioning configuration.") bucket er);;
        s3_writeAuditLog e (bs "PutVersioning") bucket (bs "success");;
        writeRawResponse no_content_200 []
      else refuse 400 (bs "MalformedXML") msgMalformedXML bucket (Errno EINVAL)
  end.

(** [max-keys]: at most 1000, which is also the default. *)
Definition max_keys (s : bytes) : Z :=
  match parse_int64 s with
  | Some mk => if negb (bool_decide (s = [])) && (0 <? mk) then Z.min mk 1000 else 1000
  | None => 1000
  end.

Definition version_entry (rec : VersionRecord) : s3Version :=
  mkS3Version (if IsDeleteMarker rec then bs "DeleteMarker" else bs "Version") (VKey rec) (VersionID rec) (IsLatest rec)
    (Timestamp rec) (if IsDeleteMarker rec then [] else dq ++ VHash rec ++ dq)
    (if IsDeleteMarker rec then 0 else uint64 (VSize rec)).

Definition FormatListVersionsXML (bucket prefix keyMarker versionIDMarker : bytes) (maxKeys : Z) (p : VersionPage) : bytes :=
  match xml_versions go (mkListVersions bucket prefix keyMarker versionIDMarker (NextKeyMarker p) (NextVersionID p) maxKeys (IsTruncated p)
                           (map version_entry (Records p))) with
  | Some out => xml_header ++ [ch_lf] ++ out ++ [ch_lf]
  | None => xml_header ++ [ch_lf] ++ bs "<Error><Code>InternalError</Code></Error>"
  end.

Definition handleGetVersions r (bucket : bytes) : answer :=
  let q := q_get (http r) in
  let maxKeys := max_keys (q (bs "max-keys")) in
  s ← get;
  match ListVersions (gvs s) bucket (q (bs "prefix")) (q (bs "key-marker")) (q (bs "version-id-marker")) maxKeys with
  | Err er => internal (bs "Failed to list object versions.") bucket er
  | Ok p =>
      let body := FormatListVersionsXML bucket (q (bs "prefix")) (q (bs "key-marker")) (q (bs "version-id-marker")) maxKeys p in
      writeRawResponse (xmlResponseHeaders (Z.of_nat (length body))) body
  end.

Definition xmlIso8601 (secs : Z) : bytes := RFC3339 (secs * 10 ^ 9).

Definition injectObjectLockHeaders (st : ObjectLockState) : bytes :=
  (if decide (Mode st = []) then [] else bs "x-amz-object-lock-mode: " ++ Mode st ++ crlf2)
  ++ (if 0 <? RetainUntil st then bs "x-amz-object-lock-retain-until-date: " ++ xmlIso8601 (RetainUntil st) ++ crlf2 else [])
  ++ (if LegalHoldOn st then bs "x-amz-object-lock-legal-hold-status: ON" ++ crlf2 else []).

Definition handleGetObjectVersion (bucket key versionID : bytes) (isHead : bool) : answer :=
  s ← get;
  match GetVersionContent (gvs s) bucket key versionID with
  | Err er =>
      if decide (er = Errno ENOENT) then handled_with 404 (bs "NoSuchVersion") (bs "The specified version does not exist.") key
      else internal (bs "Failed to read the specified version.") key er
  | Ok (content, rec) =>
      let lock := match VersionLock (gvs s) bucket key versionID with Ok (Some st) => injectObjectLockHeaders st | _ => [] end in
      let b := bs "HTTP/1.1 200 OK" ++ crlf2 ++ bs "ETag: " ++ dq ++ VHash rec ++ dq ++ crlf2 ++ bs "x-amz-version-id: " ++ VersionID rec ++ crlf2
               ++ lock ++ bs "Content-Length: " ++ append_int (VSize rec) ++ crlf2 ++ bs "Connection: close" ++ crlf2 in
      if isHead then Write (b ++ crlf2);; mret None
      else Write (b ++ bs "Content-Type: application/octet-stream" ++ crlf2 ++ crlf2);; Write content;; mret None
  end.

Definition isGovernanceBypass (r : http_request) : bool := bool_decide (h_get r (bs "X-Amz-Bypass-Governance-Retention") = bs "true").

Definition marker_response (marker : bool) (versionID : bytes) : bytes :=
  bs "HTTP/1.1 204 No Content" ++ crlf2 ++ bs "x-amz-delete-marker: " ++ (if marker then bs "true" else bs "false") ++ crlf2
  ++ bs "x-amz-version-id: " ++ versionID ++ s3ConnClose.

(** The flat name follows the latest version that is left. *)
Definition align_namespace (bucket key : bytes) : M gateway unit :=
  s ← get;
  match LatestVersion (gvs s) bucket key with
  | Ok (Some latest) =>
      on_error (on_vs (λ v, RepointNamespace v key (if IsDeleteMarker latest then [] else VHash latest))) (λ _, mret tt)
  | _ => mret tt
  end.

Definition handleVersionedDelete e (bucket key versionID : bytes) (now : Z) (bypass : bool) : answer :=
  if decide (versionID = []) then
    on_error (on_vs (λ v, RepointNamespace v key [])) (λ er, internal (bs "Failed to delete object.") key er);;
    marker ← on_error (on_vs (λ v, RecordDeleteMarker v bucket key (versionRandom e) (gclock e)))
               (λ er, internal (bs "Failed to create delete marker.") key er);
    s3_writeAuditLog e (bs "DeleteObject") (bucket ++ [ch_slash] ++ key) (bs "success");;
    writeRawResponse (marker_response true marker) []
  else
    d ← attempt (on_vs (λ v, DeleteVersion v bucket key versionID now bypass));
    match d with
    | Err er =>
        if decide (er = Errno ENOENT) then handled_with 404 (bs "NoSuchVersion") (bs "The specified version does not exist.") key
        else if decide (er = Errno EACCES) then handled_with 403 (bs "AccessDenied") (bs "The specified version is protected by an object lock.") key
        else internal (bs "Failed to delete the specified version.") key er
    | Ok deleted =>
        align_namespace bucket key;;
        s3_writeAuditLog e (bs "DeleteObjectVersion") (bucket ++ [ch_slash] ++ key) (bs "success");;
        writeRawResponse (marker_response (IsDeleteMarker deleted) (VersionID deleted)) []
    end.

(** ** Object lock *)
Definition FormatObjectLockConfigurationXML : bytes :=
  bs "<ObjectLockConfiguration" ++ s3_xmlns ++ bs "<ObjectLockEnabled>Enabled</ObjectLockEnabled></ObjectLockConfiguration>".

Definition handleGetBucketObjectLock (bucket : bytes) : answer :=
  s ← get;
  match BucketObjectLockEnabled (gvs s) bucket with
  | Err er => internal (bs "Failed to read object lock configuration.") bucket er
  | Ok false => handled_with 404 (bs "NoSuchObjectLockConfiguration") (bs "Object Lock configuration does not exist for this bucket.") bucket
  | Ok true => writeRawResponse (xmlResponseHeaders (Z.of_nat (length FormatObjectLockConfigurationXML))) FormatObjectLockConfigurationXML
  end.

Definition ParseObjectLockConfiguration (body : bytes) : bool := contains body (bs "<ObjectLockEnabled>Enabled</ObjectLockEnabled>").

Definition handlePutBucketObjectLock e r (bucket : bytes) : answer :=
  match read_limited 65536 (Body r) with
  | Err er => refuse 400 (bs "MalformedXML") (bs "Failed to read request body.") bucket er
  | Ok body =>
      if negb (ParseObjectLockConfiguration body) then refuse 400 (bs "MalformedXML") msgMalformedXML bucket (Errno EINVAL)
      else
        writeS3Error 409 (bs "InvalidBucketState") (bs "Object Lock can only be enabled at bucket creation and cannot be disabled.") bucket;;
        s3_writeAuditLog e (bs "PutObjectLock") bucket (bs "refused");;
        mret None
  end.

(** The object-lock headers of a request. *)
Definition ParseS3LockHeaders (r : http_request) : result ObjectLockState :=
  let mode := ToUpper (h_get r (bs "X-Amz-Object-Lock-Mode")) in
  let until := h_get r (bs "X-Amz-Object-Lock-Retain-Until-Date") in
  let hold := ToUpper (h_get r (bs "X-Amz-Object-Lock-Legal-Hold")) in
  if negb (bool_decide (mode = []) || bool_decide (mode = LockModeCompliance) || bool_decide (mode = LockModeGovernance)) then Err (Errno EINVAL)
  else
    let! retain := if decide (until = []) then Ok 0
                   else match ParseRFC3339 go (trim_space until) with Some t => Ok t | None => Err (Errno EINVAL) end in
    if decide (hold = bs "ON") then Ok (mkLock mode retain true)
    else if decide (hold = [] ∨ hold = bs "OFF") then Ok (mkLock mode retain false)
    else Err (Errno EINVAL).

Definition lock_requested (st : ObjectLockState) : bool := negb (bool_decide (Mode st = [])) || (0 <? RetainUntil st) || LegalHoldOn st.

(** [None] when no lock is requested. *)
Definition multipartLockHeaders e r (bucket key : bytes) : M gateway (option ObjectLockState) :=
  match ParseS3LockHeaders (http r) with
  | Err er => refuse 400 (bs "InvalidArgument") (bs "Invalid object lock header values.") key er
  | Ok st =>
      if negb (lock_requested st) then mret None
      else
        s ← get;
        if hasStore e && IsVersioned (gvs s) bucket then mret (Some st)
        else refuse 400 (bs "InvalidRequest") (bs "Object Lock headers require a versioned bucket.") key (Errno EINVAL)
  end.

(** [false] is [ErrRequestHandled]. *)
Definition LockVersion e (bucket key versionID : bytes) (st : ObjectLockState) : M gateway bool :=
  if negb (hasStore e) then
    if lock_requested st then
      writeS3Error 501 (bs "NotImplemented") (bs "Object Lock headers were supplied but object lock is not available.") bucket;; mret false
    else mret true
  else
    on_error (on_vs (λ v, PutVersionLock v bucket key versionID st false (gclock e / 10 ^ 9));; mret true)
      (λ er,
         if decide (er = Errno ENOENT) then writeS3Error 404 (bs "NoSuchVersion") (bs "The version to lock does not exist.") key;; mret false
         else if decide (er = Errno EPERM) then
           writeS3Error 403 (bs "AccessDenied") (bs "The requested object lock state change is not permitted.") key;; mret false
         else if decide (er = Errno EINVAL) then writeS3Error 400 (bs "InvalidArgument") (bs "Invalid object lock header values.") key;; mret false
         else internal (bs "Failed to store object lock state.") key er).

Definition ParseRetentionXML (body : bytes) : result ObjectLockState :=
  match xml_retention go body with
  | None => Err (Errno EINVAL)
  | Some (mode, until) =>
      let mode := ToUpper (trim_space mode) in
      if negb (bool_decide (mode = LockModeCompliance) || bool_decide (mode = LockModeGovernance)) then Err (Errno EINVAL)
      else match ParseRFC3339 go (trim_space until) with
           | None => Err (Errno EINVAL)
           | Some t => Ok (mkLock mode t false)
           end
  end.

Definition FormatRetentionXML (st : ObjectLockState) : bytes :=
  if bool_decide (Mode st = []) || (RetainUntil st <=? 0) then bs "<Retention" ++ s3_xmlns ++ bs "</Retention>"
  else bs "<Retention" ++ s3_xmlns ++ bs "<Mode>" ++ Mode st ++ bs "</Mode><RetainUntilDate>" ++ xmlIso8601 (RetainUntil st)
       ++ bs "</RetainUntilDate></Retention>".

Definition ParseLegalHoldXML (body : bytes) : result bool :=
  match xml_legal_hold go body with
  | None => Err (Errno EINVAL)
  | Some status =>
      let status := ToUpper (trim_space status) in
      if decide (status = bs "ON") then Ok true else if decide (status = bs "OFF") then Ok false else Err (Errno EINVAL)
  end.

Definition FormatLegalHoldXML (on : bool) : bytes :=
  bs "<LegalHold" ++ s3_xmlns ++ bs "<Status>" ++ (if on then bs "ON" else bs "OFF") ++ bs "</Status></LegalHold>".

(** The targeted version; [None] when an error was answered. *)
Definition lockTargetVersion (bucket key versionID : bytes) : M gateway (option bytes) :=
  if negb (bool_decide (versionID = [])) then mret (Some versionID)
  else
    s ← get;
    match LatestVersion (gvs s) bucket key with
    | Err er => internal (bs "Failed to resolve the current version.") key er
    | Ok (Some rec) =>
        if IsDeleteMarker rec then writeS3Error 404 (bs "NoSuchKey") (bs "The specified key does not exist.") key;; mret None
        else mret (Some (VersionID rec))
    | Ok None => writeS3Error 404 (bs "NoSuchKey") (bs "The specified key does not exist.") key;; mret None
    end.

Definition lockTarget r (bucket key : bytes) : M gateway (option bytes) :=
  s ← get;
  match BucketObjectLockEnabled (gvs s) bucket with
  | Err er => internal (bs "Failed to read object lock configuration.") key er
  | Ok false => writeS3Error 400 (bs "InvalidRequest") (bs "Bucket is missing Object Lock Configuration.") key;; mret None
  | Ok true => lockTargetVersion bucket key (q_get (http r) (bs "versionId"))
  end.

Definition handleGetObjectLockDoc r (bucket key : bytes) (format : ObjectLockState → bytes) (describe : bytes) : answer :=
  t ← lockTarget r bucket key;
  match t with
  | None => mret None
  | Some versionID =>
      s ← get;
      match VersionLock (gvs s) bucket key versionID with
      | Err er => internal (bs "Failed to read object " ++ describe ++ bs ".") key er
      | Ok st =>
          let body := format (default (mkLock [] 0 false) st) in
          writeRawResponse (xmlResponseHeaders (Z.of_nat (length body))) body
      end
  end.

Definition writeLockMutationError (er : error) (key : bytes) : answer :=
  if decide (er = Errno ENOENT) then handled_with 404 (bs "NoSuchVersion") (bs "The specified version does not exist.") key
  else if decide (er = Errno EPERM) then handled_with 403 (bs "AccessDenied") (bs "The requested object lock state change is not permitted.") key
  else if decide (er = Errno EINVAL) then handled_with 400 (bs "InvalidArgument") (bs "Invalid object lock values.") key
  else internal (bs "Failed to store object lock state.") key er.

Definition handlePutObjectLockDoc e r (bucket key op : bytes) (parse : bytes → result (bytes → VStore B → result unit * VStore B)) : answer :=
  t ← lockTarget r bucket key;
  match t with
  | None => mret None
  | Some versionID =>
      match read_limited 65536 (Body r) with
      | Err er => refuse 400 (bs "MalformedXML") (bs "Failed to read request body.") key er
      | Ok body =>
          match parse body with
          | Err _ => handled_with 400 (bs "MalformedXML") msgMalformedXML key
          | Ok apply =>
              on_error
                (on_vs (apply versionID);;
                 s3_writeAuditLog e op key (bs "success");;
                 writeRawResponse no_content_200 [])
                (λ er, writeLockMutationError er key)
          end
      end
  end.

Definition handlePutObjectRetention e r (bucket key : bytes) : answer :=
  handlePutObjectLockDoc e r bucket key (bs "PutObjectRetention") (λ body,
    let! next := ParseRetentionXML body in
    Ok (λ versionID v, PutVersionRetention v bucket key versionID (Mode next) (RetainUntil next) (isGovernanceBypass (http r)) (gclock e / 10 ^ 9))).

Definition handlePutObjectLegalHold e r (bucket key : bytes) : answer :=
  handlePutObjectLockDoc e r bucket key (bs "PutObjectLegalHold") (λ body,
    let! on := ParseLegalHoldXML body in
    Ok (λ versionID v, PutVersionLegalHold v bucket key versionID on (gclock e / 10 ^ 9))).

(** [None] when neither subresource is present. *)
Definition objectLockSubresourceRoute e r (bucket key : bytes) : option answer :=
  let retention := q_has (http r) (bs "retention") in
  if negb retention && negb (q_has (http r) (bs "legal-hold")) then None
  else Some (
    if negb (hasStore e) then rejectObjectLockUnsupported key
    else if negb (bool_decide (Method (http r) = bs "PUT")) then
      if retention then handleGetObjectLockDoc r bucket key FormatRetentionXML (bs "retention")
      else handleGetObjectLockDoc r bucket key (λ st, FormatLegalHoldXML (LegalHoldOn st)) (bs "legal hold")
    else if retention then handlePutObjectRetention e r bucket key
    else handlePutObjectLegalHold e r bucket key).

(** ** Multipart uploads *)
Definition generateUploadID e : bytes := hex_encode (rev (put_be 8 (uint64 (gclock e))) ++ uploadRandom e).

Definition handleCreateMultipartUpload e (bucket key : bytes) : answer :=
  let uploadID := generateUploadID e in
  modify (λ g, set_uploads (<[uploadID := mkUpload bucket key (gclock e) []]> (uploads g)) g);;
  Write (xml_response
    (xml_header ++ bs "<InitiateMultipartUploadResult" ++ s3_xmlns ++ writeXMLString (bs "Bucket") bucket ++ writeXMLString (bs "Key") key
     ++ writeXMLString (bs "UploadId") uploadID ++ bs "</InitiateMultipartUploadResult>"));;
  mret None.

(** The session a request names, when it is the bucket's and the key's. *)
Definition find_upload (uploadID bucket key : bytes) : M gateway (option multipartUpload) :=
  s ← get;
  mret (match uploads s !! uploadID with
        | Some up => if decide (up_bucket up = bucket ∧ up_key up = key) then Some up else None
        | None => None
        end).

Definition msg_no_upload : bytes := bs "The specified upload does not exist.".
Definition part_limit : Z := 5 * 2 ^ 30.

Definition handleUploadPart r (bucket key : bytes) : answer :=
  let uploadID := q_get (http r) (bs "uploadId") in
  match parse_int64 (q_get (http r) (bs "partNumber")) with
  | None => refuse 400 (bs "InvalidArgument") (bs "Part number must be a positive integer.") [] (Errno EINVAL)
  | Some number =>
      if number <? 1 then refuse 400 (bs "InvalidArgument") (bs "Part number must be a positive integer.") [] (Errno EINVAL)
      else match read_limited part_limit (Body r) with
      | Err er => internal (bs "Failed to read part body.") [] er
      | Ok body =>
          let etag := HashBytes body in
          o ← find_upload uploadID bucket key;
          match o with
          | None => handled_with 404 (bs "NoSuchUpload") msg_no_upload []
          | Some up =>
              modify (λ g, set_uploads (<[uploadID := mkUpload (up_bucket up) (up_key up) (createdAt up) (parts up ++ [mkPart number etag body])]> (uploads g)) g);;
              Write (bs "HTTP/1.1 200 OK" ++ crlf2 ++ bs "ETag: " ++ dq ++ etag ++ dq ++ crlf2 ++ bs "Content-Length: 0" ++ s3ConnClose);;
              mret None
          end
      end
  end.

Definition part_less (a b : multipartPart) : bool := partNumber a <? partNumber b.

(** The assembled object.  [sort.Slice] is not stable: the order of two parts
    with one number is not specified; here they keep their order. *)
Definition assembled (ps : list multipartPart) : bytes := concat (map part_data (stable_sort part_less ps)).

Definition persistS3Checksum (key hdr value algo : bytes) : M gateway unit :=
  existing ← storedS3Meta key;
  on_error (on_ls (λ l, PutS3Meta l key ({[hdr := value; bs "x-amz-checksum-algorithm" := algo]} ∪ existing))) (λ _, mret tt).

Definition verifyMultipartChecksum e r (data key : bytes) : M gateway unit :=
  match parseChecksum go (http r) with
  | inl text => refuse 400 (bs "InvalidRequest") (bs "Unsupported checksum algorithm: " ++ text) [] ErrPlain
  | inr (algo, expected) =>
      if decide (algo = []) then mret tt
      else
        let computed := b64_encode (ChecksumHasher algo data) in
        if negb (bool_decide (expected = [])) && negb (bool_decide (computed = expected))
        then refuse 400 (bs "BadDigest") (bs "The x-amz-checksum-* value you specified did not match the checksum we calculated.") key (Errno EBADMSG)
        else if hasStore e then persistS3Checksum key (checksumHeaderFor algo) computed algo else mret tt
  end.

(** The id of the recorded version, empty when none was. *)
Definition recordMultipartVersion e (bucket key hash : bytes) (size : Z) : M gateway bytes :=
  s ← get;
  if negb (IsVersioned (gvs s) bucket) then mret []
  else on_error (on_vs (λ v, RecordVersion v bucket key hash size (versionRandom e) (gclock e))) (λ _, mret []).

Definition complete_xml (bucket key hash versionID : bytes) : bytes :=
  xml_header ++ bs "<CompleteMultipartUploadResult" ++ s3_xmlns ++ writeXMLString (bs "Bucket") bucket ++ writeXMLString (bs "Key") key
  ++ bs "<ETag>" ++ dq ++ xmlEscape hash ++ dq ++ bs "</ETag>"
  ++ (if decide (versionID = []) then [] else writeXMLString (bs "VersionId") versionID) ++ bs "</CompleteMultipartUploadResult>".

Definition store_assembled e r (bucket key data : bytes) : answer :=
  let hash := HashBytes data in
  let size := Z.of_nat (length data) in
  lock ← multipartLockHeaders e r bucket key;
  verifyMultipartChecksum e r data key;;
  if negb (hasStore e) then no_store
  else
    modify (λ g, set_meta (mkFile key hash size (RemotePath (gmeta g)) (ModTime (gmeta g))) (gheaders g) g);;
    on_error (on_cas (λ c, Put c key hash size [] (Some (reader_of data)) (gclock e))) (put_error [] (bs "Failed to store assembled object."));;
    versionID ← recordMultipartVersion e bucket key hash size;
    locked ← match lock with
             | None => mret true
             | Some st => ok ← LockVersion e bucket key versionID st;
                          (if ok : bool then s3_writeAuditLog e (bs "PutObjectRetention") (bucket ++ [ch_slash] ++ key) (bs "success") else mret tt);;
                          mret ok
             end;
    if negb locked then mret None
    else
      dispatchNotification e bucket key versionID EventObjectCreatedMultipart;;
      Write (xml_response (complete_xml bucket key hash versionID));;
      mret None.

Definition handleCompleteMultipartUpload e r (bucket key : bytes) : answer :=
  let uploadID := q_get (http r) (bs "uploadId") in
  o ← find_upload uploadID bucket key;
  match o with
  | None => refuse 404 (bs "NoSuchUpload") msg_no_upload [] (Errno ENOENT)
  | Some up =>
      modify (λ g, set_uploads (delete uploadID (uploads g)) g);;
      store_assembled e r bucket key (assembled (parts up))
  end.

Definition handleAbortMultipartUpload (uploadID : bytes) : answer :=
  modify (λ g, set_uploads (delete uploadID (uploads g)) g);;
  Write (bs "HTTP/1.1 204 No Content" ++ crlf2 ++ bs "Content-Length: 0" ++ s3ConnClose);;
  mret None.

Definition part_xml (now : bytes) (p : multipartPart) : bytes :=
  bs "<Part><PartNumber>" ++ append_int (partNumber p) ++ bs "</PartNumber><ETag>" ++ dq ++ xmlEscape (part_etag p) ++ dq
  ++ bs "</ETag><Size>" ++ append_int (Z.of_nat (length (part_data p))) ++ bs "</Size><LastModified>" ++ now ++ bs "</LastModified></Part>".

Definition handleListParts e (bucket key uploadID : bytes) : answer :=
  o ← find_upload uploadID bucket key;
  match o with
  | None => handled_with 404 (bs "NoSuchUpload") msg_no_upload []
  | Some up =>
      if (64 <? Z.of_nat (length bucket)) || (1024 <? Z.of_nat (length key)) || (128 <? Z.of_nat (length uploadID))
      then refuse 400 (bs "InvalidArgument") (bs "Invalid upload parameter length.") [] (Errno EINVAL)
      else
        Write (xml_response
          (xml_header ++ bs "<ListPartsResult" ++ s3_xmlns ++ writeXMLString (bs "Bucket") bucket ++ writeXMLString (bs "Key") key
           ++ writeXMLString (bs "UploadId") uploadID ++ writeXMLString (bs "StorageClass") (bs "STANDARD")
           ++ bs "<IsTruncated>false</IsTruncated><PartNumberMarker>0</PartNumberMarker><NextPartNumberMarker>0</NextPartNumberMarker><MaxParts>1000</MaxParts>"
           ++ concat (map (part_xml (RFC3339 (gclock e))) (stable_sort part_less (parts up))) ++ bs "</ListPartsResult>"));;
        mret None
  end.

Definition upload_xml (x : bytes * multipartUpload) : bytes :=
  bs "<Upload>" ++ writeXMLString (bs "Key") (up_key x.2) ++ bs "<UploadId>" ++ xmlEscape x.1 ++ bs "</UploadId></Upload>".

(** Sessions that were created at the same time come in an unspecified order. *)
Definition handleListMultipartUploads (bucket : bytes) : answer :=
  s ← get;
  let entries := filter (λ x : bytes * multipartUpload, up_bucket x.2 = bucket) (cursor (uploads s)) in
  Write (xml_response
    (xml_header ++ bs "<ListMultipartUploadsResult" ++ s3_xmlns ++ writeXMLString (bs "Bucket") bucket ++ bs "<IsTruncated>false</IsTruncated>"
     ++ concat (map upload_xml (stable_sort (λ a b : bytes * multipartUpload, createdAt a.2 <? createdAt b.2) entries))
     ++ bs "</ListMultipartUploadsResult>"));;
  mret None.

(** ** Lifecycle *)
Definition convertLifecycleRule (r : lifecycleRuleXML) : result LifecycleRule :=
  let status := trim_space (LX_Status r) in
  if negb (bool_decide (status = LifecycleEnabled) || bool_decide (status = LifecycleDisabled)) then Err (Errno EINVAL)
  else
    let! exp := match LX_Expiration r with
                | Some d => if d <=? 0 then Err (Errno EINVAL) else Ok d
                | None => Ok 0
                end in
    let! tr := match LX_Transition r with
               | Some (d, class) => if (d <=? 0) || bool_decide (trim_space class = []) then Err (Errno EINVAL) else Ok (d, trim_space class)
               | None => Ok (0, [])
               end in
    if (exp =? 0) && (tr.1 =? 0) then Err (Errno EINVAL)
    else Ok (mkRule (trim_space (LX_ID r)) status (default (LX_Prefix r) (LX_Filter r)) exp tr.1 tr.2).

Fixpoint convert_rules {A C} (convert : A → result C) (rules : list A) : result (list C) :=
  match rules with
  | [] => Ok []
  | x :: rules => let! y := convert x in let! ys := convert_rules convert rules in Ok (y :: ys)
  end.

Definition ParseLifecycleConfiguration (body : bytes) : result LifecycleConfig :=
  match xml_lifecycle go body with
  | None => Err (Errno EBADMSG)
  | Some [] => Err (Errno EINVAL)
  | Some rules => convert_rules convertLifecycleRule rules
  end.

Definition lifecycle_rule_xml (r : LifecycleRule) : bytes :=
  bs "<Rule><ID>" ++ xmlEscape (RuleID r) ++ bs "</ID><Status>" ++ xmlEscape (RuleStatus r) ++ bs "</Status>"
  ++ (if decide (RulePrefix r = []) then [] else bs "<Filter><Prefix>" ++ xmlEscape (RulePrefix r) ++ bs "</Prefix></Filter>")
  ++ (if 0 <? ExpirationDays r then bs "<Expiration><Days>" ++ append_int (ExpirationDays r) ++ bs "</Days></Expiration>" else [])
  ++ (if 0 <? TransitionDays r
      then bs "<Transition><Days>" ++ append_int (TransitionDays r) ++ bs "</Days><StorageClass>" ++ xmlEscape (StorageClass r)
           ++ bs "</StorageClass></Transition>"
      else [])
  ++ bs "</Rule>".

Definition FormatLifecycleConfigurationXML (cfg : LifecycleConfig) : bytes :=
  xml_header ++ [ch_lf] ++ bs "<LifecycleConfiguration" ++ s3_xmlns ++ concat (map lifecycle_rule_xml cfg) ++ bs "</LifecycleConfiguration>".

Definition handleGetLifecycle (bucket : bytes) : answer :=
  s ← get;
  match BucketLifecycle (gls s) bucket with
  | Err er => internal (bs "Failed to read lifecycle configuration.") bucket er
  | Ok None => refuse 404 (bs "NoSuchLifecycleConfiguration") (bs "The lifecycle configuration does not exist.") bucket (Errno ENOENT)
  | Ok (Some cfg) =>
      let body := FormatLifecycleConfigurationXML cfg in
      writeRawResponse (xmlResponseHeaders (Z.of_nat (length body))) body
  end.

Definition handlePutLifecycle e r (bucket : bytes) : answer :=
  match read_limited 131072 (Body r) with
  | Err er => refuse 400 (bs "MalformedXML") (bs "Failed to read request body.") bucket er
  | Ok body =>
      match ParseLifecycleConfiguration body with
      | Err er => refuse 400 (bs "MalformedXML") msgMalformedXML bucket er
      | Ok cfg =>
          on_error (on_ls (λ l, SetBucketLifecycle l bucket cfg)) (λ er, internal (bs "Failed to store lifecycle configuration.") bucket er);;
          s3_writeAuditLog e (bs "PutLifecycle") bucket (bs "success");;
          writeRawResponse no_content_200 []
      end
  end.

Definition no_content_204 : bytes := bs "HTTP/1.1 204 No Content" ++ s3ConnClose.

Definition handleDeleteLifecycle e (bucket : bytes) : answer :=
  on_error (on_ls (λ l, DeleteBucketLifecycle l bucket)) (λ er, internal (bs "Failed to delete lifecycle configuration.") bucket er);;
  s3_writeAuditLog e (bs "DeleteLifecycle") bucket (bs "success");;
  writeRawResponse no_content_204 [].

(** ** Notifications *)
Definition validateNotificationRule (r : notificationRuleXML) : result unit :=
  if decide (NX_ID r = []) then Err (Errno EINVAL)
  else if negb (bool_decide (NX_Status r = bs "Enabled") || bool_decide (NX_Status r = bs "Disabled")) then Err (Errno EINVAL)
  else if decide (NX_Event r = []) then Err (Errno EINVAL)
  else if decide (NX_QueueARN r = [] ∧ NX_TopicARN r = [] ∧ NX_LambdaARN r = [] ∧ NX_HTTPUrl r = []) then Err (Errno EINVAL)
  else Ok tt.

Definition known_events : list bytes :=
  [bs "s3:ObjectCreated:Put"; bs "s3:ObjectCreated:Post"; bs "s3:ObjectCreated:Copy"; bs "s3:ObjectCreated:CompleteMultipartUpload";
   bs "s3:ObjectRemoved:Delete"; bs "s3:ObjectRemoved:DeleteMarkerCreated"].

Definition convertNotificationEvents (events : list bytes) : result (list bytes) :=
  let! evs := convert_rules (λ ev, if decide (ev ∈ known_events) then Ok ev else Err (Errno EINVAL)) events in
  match evs with [] => Err (Errno EINVAL) | _ => Ok evs end.

Definition extractPrefixSuffix (r : notificationRuleXML) : bytes * bytes :=
  foldl (λ '(p, s) '(name, value), if decide (name = bs "Prefix") then (value, s) else if decide (name = bs "Suffix") then (p, value) else (p, s))
    (NX_Prefix r, NX_Suffix r) (NX_Filter r).

Definition parseNotificationRule (r : notificationRuleXML) : result NotificationRule :=
  let! _ := validateNotificationRule r in
  let! events := convertNotificationEvents (NX_Event r) in
  let '(prefix, suffix) := extractPrefixSuffix r in
  Ok (mkNRule (NX_ID r) (NX_Status r) events prefix suffix (NX_QueueARN r) (NX_TopicARN r) (NX_LambdaARN r) (NX_HTTPUrl r)).

Definition ParseNotificationConfiguration (body : bytes) : result NotificationConfig :=
  match xml_notification go body with
  | None => Err (Errno EBADMSG)
  | Some [] => Err (Errno EINVAL)
  | Some rules => convert_rules parseNotificationRule rules
  end.

Definition FormatNotificationConfiguration (cfg : NotificationConfig) : option bytes :=
  xml_notification_out go (map (λ r : NotificationRule, mkNotificationXML (NID r) (NStatus r) (NEvents r) [] (NPrefix r) (NSuffix r) (QueueARN r) (TopicARN r)
                                       (LambdaARN r) (HTTPUrl r)) cfg).

Definition handleGetNotification (bucket : bytes) : answer :=
  s ← get;
  match BucketNotification (gstore s) bucket with
  | Err er => internal (bs "Failed to read notification configuration.") bucket er
  | Ok None => refuse 404 (bs "NoSuchNotificationConfiguration") (bs "The notification configuration does not exist.") bucket (Errno ENOENT)
  | Ok (Some cfg) =>
      match FormatNotificationConfiguration cfg with
      | None => internal (bs "Failed to format notification configuration.") bucket ErrPlain
      | Some body => writeRawResponse (xmlResponseHeaders (Z.of_nat (length body))) body
      end
  end.

Definition handlePutNotification e r (bucket : bytes) : answer :=
  match read_limited 131072 (Body r) with
  | Err er => refuse 400 (bs "MalformedXML") (bs "Failed to read request body.") bucket er
  | Ok body =>
      match ParseNotificationConfiguration body with
      | Err er => refuse 400 (bs "MalformedXML") msgMalformedXML bucket er
      | Ok cfg =>
          on_error (on_ns (λ n, SetBucketNotification n bucket cfg)) (λ er, internal (bs "Failed to store notification configuration.") bucket er);;
          s3_writeAuditLog e (bs "PutNotification") bucket (bs "success");;
          writeRawResponse no_content_200 []
      end
  end.

Definition handleDeleteNotification e (bucket : bytes) : answer :=
  on_error (on_ns (λ n, DeleteBucketNotification n bucket)) (λ er, internal (bs "Failed to delete notification configuration.") bucket er);;
  s3_writeAuditLog e (bs "DeleteNotification") bucket (bs "success");;
  writeRawResponse no_content_204 [].

(** ** OPRF evaluation *)
Definition s3_handleOPRFEval (evaluate : bytes → result (list (Z * bytes))) r : answer :=
  let body := concat (rd_chunks (Body r)) in
  if (length body <? 32)%nat
  then refuse 400 (bs "InvalidRequest") (bs "OPRF evaluation requires a 32-byte blinded tag.") [] (Errno EBADMSG)
  else match evaluate (take 32 body) with
  | Err er => internal (bs "OPRF evaluation failed.") [] er
  | Ok results =>
      let b := be32 (Z.of_nat (length results)) ++ concat (oprf_record <$> results) in
      if 1024 <? Z.of_nat (length b) then fail_with (Errno ENOBUFS)
      else
        Write (bs "HTTP/1.1 200 OK" ++ crlf2 ++ bs "Content-Type: application/octet-stream" ++ crlf2 ++ bs "Content-Length: "
               ++ append_int (Z.of_nat (length b)) ++ s3ConnClose);;
        Write b;;
        mret None
  end.

(** ** Streaming uploads *)
Definition decoded_length (r : http_request) : result Z :=
  let v := h_get r (bs "X-Amz-Decoded-Content-Length") in
  if decide (v = []) then Ok (-1)
  else match parse_int64 v with
       | Some ev => if ev <? 0 then Err (Errno EBADMSG) else Ok ev
       | None => Err (Errno EBADMSG)
       end.

Definition entity_too_large : M gateway unit :=
  refuse 413 (bs "EntityTooLarge") (bs "Your proposed upload exceeds the maximum allowed object size.") [] (Errno EOVERFLOW).

(** The signing context a mode needs. *)
Definition streaming_ctx (mode : streamingMode) (ctx : option streamingSigningCtx) : option (option streamingSigningCtx) :=
  match mode with
  | streamingSigned | streamingSignedTrailer =>
      match ctx with Some c => if decide (ctx_key c = []) then None else Some (Some c) | None => None end
  | _ => Some None
  end.

(** De-frame the body: one turn of [io.Copy] per byte left and one more suffices. *)
Definition decode_body r (ctx : option streamingSigningCtx) (trailers : bool) : result (bytes * awsChunkedReader) :=
  match read_to_end (S (length (concat (rd_chunks (Raw r))))) (newAWSChunkedReader (Raw r) ctx trailers MaxFileSize) 32768 with
  | Some (data, Ok _, d) => Ok (data, d)
  | Some (_, Err er, _) => Err er
  | None => Err ErrPlain
  end.

Definition decodeStreamingPayload r : M gateway unit :=
  let q := http r in
  let mode := streamingModeOf (h_get q (bs "X-Amz-Content-Sha256")) (h_get q (bs "Content-Encoding")) in
  match mode with
  | streamingNone => mret tt
  | _ =>
      match decoded_length q with
      | Err er => refuse 400 (bs "InvalidArgument") (bs "Invalid X-Amz-Decoded-Content-Length.") [] er
      | Ok expected =>
          if MaxFileSize <? expected then entity_too_large
          else
            (if EqualFold (h_get q (bs "Expect")) (bs "100-continue") then Write (bs "HTTP/1.1 100 Continue" ++ crlf2 ++ crlf2) else mret tt);;
            s ← get;
            match streaming_ctx mode (gsigV4 s) with
            | None => refuse 400 (bs "InvalidRequest") (bs "Signed aws-chunked streaming requires SigV4 authentication.") [] (Errno EACCES)
            | Some ctx =>
                let trailers := match mode with streamingSignedTrailer | streamingUnsignedTrailer => true | _ => false end
                                || negb (bool_decide (h_get q (bs "X-Amz-Trailer") = [])) in
                match decode_body r ctx trailers with
                | Err er =>
                    if decide (er = Errno EACCES) then
                      refuse 403 (bs "SignatureDoesNotMatch") (bs "The chunk signature we calculated does not match the signature you provided.") [] (Errno EACCES)
                    else if decide (er = Errno EOVERFLOW) then entity_too_large
                    else refuse 400 (bs "InvalidArgument") (bs "Malformed aws-chunked body.") [] (Errno EBADMSG)
                | Ok (data, d) =>
                    if (0 <=? expected) && negb (DecodedSize d =? expected) then
                      refuse 400 (bs "InvalidArgument") (bs "The decoded content length does not match X-Amz-Decoded-Content-Length.") [] (Errno EBADMSG)
                    else
                      modify (λ g, set_meta (mkFile (Name (gmeta g)) (ContentHash d) (DecodedSize d) (RemotePath (gmeta g)) (ModTime (gmeta g))) (gheaders g) g);;
                      set_spill data
                end
            end
      end
  end.

(** ** Authentication *)
Definition access_denied {A} (message : bytes) : M gateway A := refuse 403 (bs "AccessDenied") message [] (Errno EACCES).

(** The token of the request and whether it is signed. *)
Definition request_token (q : http_request) : M gateway (bytes * bool) :=
  let authHeader := h_get q (bs "Authorization") in
  if has_prefix authHeader (bs "Bearer ") then mret (drop 7 authHeader, false)
  else if has_prefix authHeader auth_prefix then
    match parseSigV4AuthHeader authHeader with
    | Err _ => refuse 403 (bs "AuthorizationHeaderMalformed") (bs "The authorization header is malformed.") [] (Errno EACCES)
    | Ok c => mret (AccessKey c, true)
    end
  else match parseSigV4QueryAuth q with
  | Some c => mret (AccessKey c, true)
  | None =>
      if isPresignedSigV4 q then
        refuse 400 (bs "AuthorizationQueryParametersError") (bs "Query-string authentication parameters are missing or malformed.") [] (Errno EBADMSG)
      else mret ([], false)
  end.

Definition check_token e (token : bytes) (gatewayCreds : bool) : M gateway unit :=
  if gatewayCreds then
    want ← padded (TrimNullBytesString (sigV4AccessKey e)) AuthTokenLength;
    got ← padded token AuthTokenLength;
    if decide (got = want) then set_gpeer false else access_denied (bs "Access Denied.")
  else
    tokenBuf ← padded token AuthTokenLength;
    if decide (tokenBuf = gtoken e) then set_gpeer false
    else if decide (tokenBuf = DerivePeerToken (gtoken e)) then set_gpeer true
    else access_denied (bs "Access Denied.").

(** The context of the chunk signatures of a signed streaming PUT. *)
Definition chunk_context (q : http_request) (secretKey : bytes) : option streamingSigningCtx :=
  let ctx c date := mkCtx (deriveSigningKey secretKey (DateStamp c) (Region c)) date
                      (DateStamp c ++ bs "/" ++ Region c ++ bs "/s3/aws4_request") (Signature c) in
  match parseSigV4AuthHeader (h_get q (bs "Authorization")) with
  | Ok c => let amzDate := h_get q (bs "X-Amz-Date") in Some (ctx c (if decide (amzDate = []) then AmzDate c else amzDate))
  | Err _ => match parseSigV4QueryAuth q with Some c => Some (ctx c (AmzDate c)) | None => None end
  end.

Definition check_signature e (q : http_request) (gatewayCreds : bool) : M gateway unit :=
  let secretKey := TrimNullBytesString (if gatewayCreds then sigV4SecretKey e else gtoken e) in
  if negb (verifySigV4Signature (gclock e) q (h_get q (bs "Authorization")) secretKey) then
    if isPresignedSigV4 q && negb (verifySigV4Expiry (gclock e) q) then access_denied (bs "Request has expired.")
    else refuse 403 (bs "SignatureDoesNotMatch")
           (bs "The request signature we calculated does not match the signature you provided. Check your AWS secret access key and signing method.") [] (Errno EACCES)
  else if bool_decide (Method q = bs "PUT") && isStreamingLiteral (h_get q (bs "X-Amz-Content-Sha256")) then
    match chunk_context q secretKey with Some c => set_ctx (Some c) | None => mret tt end
  else mret tt.

Definition s3_authenticate e (q : http_request) : M gateway unit :=
  t ← request_token q;
  let '(token, isSigV4) := t in
  let gatewayCreds := isSigV4 && negb (bool_decide (sigV4AccessKey e = [])) in
  check_token e token gatewayCreds;;
  if isSigV4 then check_signature e q gatewayCreds else mret tt.

(** ** Authorisation *)
Definition needed_permission (method : bytes) : bytes :=
  if decide (method = bs "PUT" ∨ method = bs "POST") then PermWrite
  else if decide (method = bs "DELETE") then PermDelete else PermRead.

Definition s3_authorize e (q : http_request) (bucket key : bytes) : M gateway unit :=
  if bool_decide (tenantID e = []) || negb (hasStore e) then mret tt
  else
    let resource := if decide (key = []) then bs "bucket/" ++ bucket else bs "object/" ++ bucket ++ [ch_slash] ++ key in
    s ← get;
    match Authorize (gaccess s) (tenantID e) (needed_permission (Method q)) resource with
    | Ok _ => mret tt
    | Err er => refuse 403 (bs "AccessDenied") (errorText go er) [] er
    end.

(** ** Routing *)
Definition in_bucket {A} e (bucket : bytes) (k : M gateway A) : M gateway A := if validBucket e bucket then k else NoSuchBucket bucket.
Definition needs_store {A} e (k : M gateway A) : M gateway A := if hasStore e then k else no_store.

(** [None]: the request goes on to the next stage. *)
Definition route_post e r (bucket key : bytes) : option answer :=
  let q := http r in
  if q_has q (bs "uploads") && negb (bool_decide (key = [])) then Some (in_bucket e bucket (handleCreateMultipartUpload e bucket key))
  else if q_has q (bs "uploadId") && negb (bool_decide (key = [])) then
    Some (in_bucket e bucket (needs_store e (handleCompleteMultipartUpload e r bucket key)))
  else if q_has q (bs "delete") then Some (needs_store e (handleBatchDelete e bucket r))
  else None.

Definition list_objects e r (bucket : bytes) : answer :=
  let q := q_get (http r) in
  in_bucket e bucket (
    files ← on_error (listFiles e) (λ er, internal (bs "Failed to list files.") [] er);
    let token := q (bs "continuation-token") in
    let startAfter := if decide (token = []) then q (bs "start-after") else token in
    match FormatListObjectsV2XML bucket (q (bs "prefix")) (q (bs "delimiter")) (max_keys (q (bs "max-keys"))) startAfter
            (EqualFold (q (bs "fetch-owner")) (bs "true")) files with
    | Err er => refuse 400 (bs "InvalidArgument") (bs "Invalid list request parameters.") [] er
    | Ok (xml, _) =>
        Write (xml_response xml);;
        s3_writeAuditLog e (bs "ListObjects") bucket (bs "success");;
        mret None
    end).

(** A subresource of the bucket that a GET names, in the order of the tests. *)
Definition bucket_subresource e r (bucket : bytes) : option answer :=
  let q := http r in
  if q_has q (bs "location") then
    Some (in_bucket e bucket (Write (xml_response (FormatGetBucketLocationXML []));; mret None))
  else if q_has q (bs "versioning") then Some (handleGetVersioning bucket)
  else if q_has q (bs "versions") then Some (handleGetVersions r bucket)
  else if q_has q (bs "lifecycle") then Some (handleGetLifecycle bucket)
  else if q_has q (bs "notification") then Some (handleGetNotification bucket)
  else if q_has q (bs "object-lock") then Some (handleGetBucketObjectLock bucket)
  else None.

Definition route_get_object e r (bucket key : bytes) : answer :=
  let q := http r in
  if q_has q (bs "uploadId") && negb (bool_decide (key = [])) then
    in_bucket e bucket (handleListParts e bucket key (q_get q (bs "uploadId")))
  else if bool_decide (key = []) && bool_decide (q_get q (bs "list-type") = []) && q_has q (bs "uploads") then
    in_bucket e bucket (handleListMultipartUploads bucket)
  else in_bucket e bucket
    match objectLockSubresourceRoute e r bucket key with
    | Some a => a
    | None =>
        let versionID := q_get q (bs "versionId") in
        if decide (versionID = []) then handle_get_object e r bucket key
        else handleGetObjectVersion bucket key versionID false
    end.

Definition route_get e r (bucket key : bytes) : answer :=
  let q := http r in
  needs_store e
    (if bool_decide (bucket = []) && bool_decide (q_get q (bs "list-type") = []) then
       Write (xml_response (FormatListBucketsXML (configuredBucket e)));; mret None
     else match (if decide (key = []) then bucket_subresource e r bucket else None) with
     | Some a => a
     | None =>
         if bool_decide (key = []) || bool_decide (q_get q (bs "list-type") = bs "2") then list_objects e r bucket
         else route_get_object e r bucket key
     end).

Definition route_head e r (bucket key : bytes) : answer :=
  needs_store e
    (if decide (key = []) then
       if negb (bool_decide (bucket = [])) && negb (validBucket e bucket) then NoSuchBucket bucket
       else Write no_content_200;; mret None
     else in_bucket e bucket
       (let versionID := q_get (http r) (bs "versionId") in
        if decide (versionID = []) then handle_head_object e bucket key
        else handleGetObjectVersion bucket key versionID true)).

Definition delete_bucket e r (bucket : bytes) : answer :=
  let q := http r in
  if decide (configuredBucket e = []) then refuse 400 (bs "InvalidArgument") (bs "Missing key in DELETE request.") [] ErrPlain
  else in_bucket e bucket
    (if q_has q (bs "lifecycle") then handleDeleteLifecycle e bucket
     else if q_has q (bs "notification") then handleDeleteNotification e bucket
     else
       files ← on_error (listFiles e) (λ er, internal (bs "Failed to list files.") [] er);
       match files with
       | _ :: _ => refuse 409 (bs "BucketNotEmpty") (bs "The bucket you tried to delete is not empty.") bucket (Errno ENOTEMPTY)
       | [] => Write no_content_204;; mret None
       end).

Definition route_delete e r (bucket key : bytes) : answer :=
  let q := http r in
  let uploadID := q_get q (bs "uploadId") in
  if negb (bool_decide (uploadID = [])) && negb (bool_decide (key = [])) then handleAbortMultipartUpload uploadID
  else needs_store e
    (if decide (key = []) then delete_bucket e r bucket
     else in_bucket e bucket
       (s ← get;
        if IsVersioned (gvs s) bucket
        then handleVersionedDelete e bucket key (q_get q (bs "versionId")) (gclock e / 10 ^ 9) (isGovernanceBypass q)
        else handle_delete_object e bucket key)).

(** ** Uploads *)
Definition DummyEpoch : Z := 1557906926566451195.

Definition request_timestamp (q : http_request) : result Z :=
  let ts := h_get q (bs "X-Momo-Timestamp") in
  let ts := if decide (ts = []) then h_get q (bs "X-Amz-Date") else ts in
  if decide (ts = []) then Ok 0
  else match parse_int64 ts with
       | Some t => Ok t
       | None => match parse_amz_date ts with Some t => Ok (int64 t) | None => Err (Errno EBADMSG) end
       end.

Definition sse_boundary : bytes :=
  bs " Objects ARE encrypted at rest with momo AES-256-GCM when encryption_enabled; use SSE-S3 (x-amz-server-side-encryption: AES256) or client-side encryption.".

Definition validateSSEHeaders (q : http_request) : M gateway unit :=
  let customer := [bs "X-Amz-Server-Side-Encryption-Customer-Algorithm"; bs "X-Amz-Server-Side-Encryption-Customer-Key";
                   bs "X-Amz-Server-Side-Encryption-Customer-Key-MD5"] in
  if existsb (λ h, negb (bool_decide (h_get q h = []))) customer then
    refuse 400 (bs "InvalidRequest") (bs "Server-side encryption with customer-provided keys (SSE-C) is not supported." ++ sse_boundary) [] (Errno EINVAL)
  else
    let sse := h_get q (bs "X-Amz-Server-Side-Encryption") in
    let kms := h_get q (bs "X-Amz-Server-Side-Encryption-Aws-Kms-Key-Id") in
    if decide (sse = [] ∧ kms = []) then mret tt
    else if EqualFold sse (bs "aws:kms") || negb (bool_decide (kms = [])) then
      not_implemented (bs "Server-side encryption with AWS KMS (aws:kms) is not supported — momo has no AWS KMS integration." ++ sse_boundary) []
    else if EqualFold sse (bs "AES256") then mret tt
    else refuse 400 (bs "InvalidArgument") (bs "Unsupported server-side encryption algorithm " ++ quote go sse ++ bs "." ++ sse_boundary) [] (Errno EINVAL).

Definition create_bucket e (q : http_request) (bucket : bytes) : answer :=
  in_bucket e bucket (
    ok ← (if EqualFold (h_get q (bs "X-Amz-Bucket-Object-Lock-Enabled")) (bs "true") then
            if negb (hasStore e) then rejectObjectLockUnsupported bucket
            else on_error (on_vs (λ v, SetBucketObjectLock v bucket);; s3_writeAuditLog e (bs "PutObjectLock") bucket (bs "success");; mret true)
                   (λ er, if decide (er = Errno EPERM) then
                            writeS3Error 409 (bs "InvalidBucketState") (bs "Object Lock cannot be enabled on a bucket with suspended versioning.") bucket;; mret false
                          else internal (bs "Failed to enable object lock.") bucket er)
          else mret true);
    if negb ok then mret None
    else
      let body := FormatGetBucketLocationXML [] in
      Write (bs "HTTP/1.1 200 OK" ++ crlf2 ++ bs "Location: /" ++ configuredBucket e ++ crlf2 ++ bs "Content-Type: application/xml" ++ crlf2
             ++ bs "Content-Length: " ++ append_int (Z.of_nat (length body)) ++ s3ConnClose ++ body);;
      mret None).

(** The PUT requests that are answered here; [None] is an object upload. *)
Definition route_put e r (bucket key : bytes) : option answer :=
  let q := http r in
  let keyed := negb (bool_decide (key = [])) in
  let copySource := h_get q (bs "X-Amz-Copy-Source") in
  let part := q_has q (bs "uploadId") && q_has q (bs "partNumber") && keyed in
  if negb (bool_decide (copySource = [])) && part then
    Some (not_implemented (bs "UploadPartCopy is not supported by this server.") key)
  else if part then Some (in_bucket e bucket (handleUploadPart r bucket key))
  else if negb (bool_decide (copySource = [])) then Some (needs_store e (handleCopyObject e bucket key copySource))
  else if q_has q (bs "versioning") && negb keyed then
    Some (if hasStore e then handlePutVersioning e r bucket else rejectVersioningUnsupported bucket)
  else if q_has q (bs "lifecycle") && negb keyed then
    Some (if hasStore e then handlePutLifecycle e r bucket else rejectLifecycleUnsupported bucket)
  else if q_has q (bs "notification") && negb keyed then
    Some (if hasStore e then handlePutNotification e r bucket else rejectNotificationUnsupported bucket)
  else if q_has q (bs "object-lock") && negb keyed then
    Some (if hasStore e then handlePutBucketObjectLock e r bucket else rejectObjectLockUnsupported bucket)
  else match (if keyed then objectLockSubresourceRoute e r bucket key else None) with
  | Some a => Some a
  | None => if negb (bool_decide (configuredBucket e = [])) && negb keyed then Some (create_bucket e q bucket) else None
  end.

(** [UnmarshalS3MetaJSON] of the text of a header. *)
Definition unmarshal_s3_meta (data : bytes) : option headers :=
  if decide (data = []) then Some ∅
  else if MaxS3MetaJSONBytes <? Z.of_nat (length data) then None
  else json_headers go data.

(** The headers of a forwarded PUT override those of the request. *)
Definition forwarded_headers (q : http_request) : headers :=
  let direct := collectS3Headers q in
  match b64_decode (h_get q (bs "X-Momo-S3-Meta")) ≫= unmarshal_s3_meta with
  | Some h => if decide (h = ∅) then direct else h
  | None => direct
  end.

(** The metadata of an object upload. *)
Definition accept_upload e r (bucket key : bytes) : M gateway unit :=
  let q := http r in
  in_bucket e bucket (
    let cleanPath := path_clean (Path q) in
    if bool_decide (cleanPath = [ch_dot]) || bool_decide (cleanPath = dotdot) || has_prefix cleanPath (dotdot ++ [ch_slash])
       || bool_decide (cleanPath = [ch_slash])
    then refuse 400 (bs "InvalidArgument") (bs "Invalid S3 path.") (Path q) (Errno EBADMSG)
    else
      let name := if decide (configuredBucket e = []) then trim_prefix cleanPath [ch_slash] else key in
      let sha := h_get q (bs "X-Amz-Content-Sha256") in
      let hash := if decide (sha = []) then h_get q (bs "Content-Sha256") else sha in
      modify (λ g, set_meta (mkFile name hash (ContentLength r) (RemotePath (gmeta g)) (ModTime (gmeta g))) (forwarded_headers q) g);;
      match parseChecksum go q with
      | inl text => refuse 400 (bs "InvalidRequest") (bs "Unsupported checksum algorithm: " ++ text) [] ErrPlain
      | inr _ =>
          if negb (bool_decide (hash = [])) && HasPathTraversalChars hash then
            refuse 400 (bs "InvalidArgument") (bs "Invalid hash value.") [] (Errno EBADMSG)
          else if isStreamingLiteral sha || contains (h_get q (bs "Content-Encoding")) s3StreamingContentEncoding then decodeStreamingPayload r
          else mret tt
      end).

(** What is left when no interceptor answered: the mode and the timestamp. *)
Definition handshake e r (bucket key : bytes) : answer :=
  let q := http r in
  timestamp ← lift (request_timestamp q);
  let requested := h_get q (bs "X-Momo-Requested-Mode") in
  mt ← (if decide (requested = []) then set_external;; mret (0, DummyEpoch)
        else match parse_int64 requested with Some m => mret (m, timestamp) | None => fail_with (Errno EBADMSG) end);
  if negb (bool_decide (Method q = bs "PUT")) then mret (Some mt)
  else
    validateSSEHeaders q;;
    match route_put e r bucket key with
    | Some a => a
    | None => accept_upload e r bucket key;; mret (Some mt)
    end.

(** The 501 answers of the bucket root and of an object key. *)
Definition unsupported (q : http_request) (bucket key : bytes) : option (bytes * bytes) :=
  if decide (key = []) then (λ op, (op, bucket)) <$> unsupportedBucketConfigSubresource q
  else (λ op, (op, key)) <$> unsupportedObjectSubresource q.

Definition s3_route e r (bucket key : bytes) : answer :=
  let q := http r in
  let method := Method q in
  match (if decide (method = bs "POST") then route_post e r bucket key else None) with
  | Some a => a
  | None =>
      if decide (method = bs "GET") then route_get e r bucket key
      else if decide (method = bs "HEAD") then route_head e r bucket key
      else if decide (method = bs "DELETE") then route_delete e r bucket key
      else handshake e r bucket key
  end.

(** [HandshakeServer]; [None] is a request that [http.ReadRequest] refused. *)
Definition s3_HandshakeServer e (request : option s3_request) : answer :=
  match request with
  | None => fail_with (Errno EBADMSG)
  | Some r =>
      let q := http r in
      s3_authenticate e q;;
      if traverses (Path q) then refuse 400 (bs "InvalidArgument") (bs "Invalid key path.") (Path q) (Errno EBADMSG)
      else if bool_decide (Method q = bs "POST") && q_has q (bs "momo-oprf-eval") then
        match gOPRF e with
        | None => not_implemented (bs "Threshold-OPRF confidential dedup is not enabled on this node.") []
        | Some evaluate => s3_handleOPRFEval evaluate r
        end
      else
        let '(bucket, key) := extractS3BucketAndKey q in
        match unsupported q bucket key with
        | Some (op, resource) => not_implemented (bs "The specified " ++ op ++ bs " operation is not supported by this server.") resource
        | None => s3_authorize e q bucket key;; s3_route e r bucket key
        end
  end.
End Gateway.
Arguments gateway : clear implicits.
Arguments mkGateway {B}.
Arguments gstore {B}.
Arguments gaccess {B}.
Arguments gaudit {B}.
Arguments uploads {B}.
Arguments gcalls {B}.
Arguments gposted {B}.
Arguments gpeer {B}.
Arguments isExternalClient {B}.
Arguments gmeta {B}.
Arguments gheaders {B}.
Arguments gsigV4 {B}.
Arguments streamingSpill {B}.
