(* ===== verification/S3Theorems.v ===== *)
(** * Properties of the S3 gateway

    What authentication, the range header and a multipart upload guarantee, and
    what the tenants' access rules do not. *)
From S2P Require Import Prelude GoText Hashes Json Paths BlobStore RawStore CasStore CasDigest CasTheorems AuditLog Versioning Access Lifecycle Notify Protocol Chunked SigV4 S3List S3Http S3Gateway.
Open Scope Z_scope.

(** ** What the handlers neither read nor write *)
Section Blind.
Context {B : Type} `{BlobStore B} (go : golib).
Implicit Types (g : gateway B) (e : gateway_env) (r : s3_request).

(** Other access rules and another audit log. *)
Definition swap (a : AccessDB) (l : audit_log) g : gateway B :=
  mkGateway (gstore g) a l (uploads g) (gcalls g) (gposted g) (gpeer g) (isExternalClient g) (gmeta g) (gheaders g) (gsigV4 g) (streamingSpill g).

Definition swap_after {A : Type} (a : AccessDB) (l : audit_log) (o : result A * (conn * gateway B)) : result A * (conn * gateway B) :=
  (o.1, (o.2.1, swap a l o.2.2)).

Class Blind {A : Type} (m : M (gateway B) A) : Prop :=
  blind_run : ∀ c g a l, m (c, swap a l g) = swap_after a l (m (c, g)).

#[local] Instance blind_ret {A : Type} (x : A) : Blind (mret x).
Proof. done. Qed.
#[local] Instance blind_fail {A : Type} er : Blind (fail_with (A:=A) er).
Proof. done. Qed.
#[local] Instance blind_lift {A : Type} (x : result A) : Blind (lift x).
Proof. done. Qed.
#[local] Instance blind_Write b : Blind (Write b).
Proof. done. Qed.

#[local] Instance blind_bind {A C : Type} (m : M (gateway B) A) (f : A → M (gateway B) C) : Blind m → (∀ x, Blind (f x)) → Blind (m ≫= f).
Proof.
  intros Hm Hf c g a l. unfold mbind, M_bind. rewrite Hm. unfold swap_after.
  destruct (m (c, g)) as [[x|er] [c' g']]; cbn [fst snd]; [apply Hf|done].
Qed.

#[local] Instance blind_get {A : Type} (f : gateway B → M (gateway B) A) :
  (∀ g a l, f (swap a l g) = f g) → (∀ g, Blind (f g)) → Blind (get ≫= f).
Proof. intros Hf Hb c g a l. unfold mbind, M_bind, get. cbn [snd]. rewrite Hf. apply Hb. Qed.

#[local] Instance blind_modify (f : gateway B → gateway B) : (∀ g a l, f (swap a l g) = swap a l (f g)) → Blind (modify f).
Proof. intros Hf c g a l. unfold modify, mbind, M_bind, get, put, swap_after. cbn [fst snd]. by rewrite Hf. Qed.

#[local] Instance blind_on_error {A : Type} (m : M (gateway B) A) h : Blind m → (∀ er, Blind (h er)) → Blind (on_error m h).
Proof.
  intros Hm Hh c g a l. unfold on_error. rewrite Hm. unfold swap_after.
  destruct (m (c, g)) as [[x|er] [c' g']]; cbn [fst snd]; [done|apply Hh].
Qed.

#[local] Instance blind_finally {A : Type} (m : M (gateway B) A) f : Blind m → Blind f → Blind (finally m f).
Proof.
  intros Hm Hf c g a l. unfold finally. rewrite Hm. unfold swap_after.
  destruct (m (c, g)) as [x [c' g']]; cbn [fst snd]. rewrite Hf. unfold swap_after. done.
Qed.

#[local] Instance blind_attempt {A : Type} (m : M (gateway B) A) : Blind m → Blind (attempt m).
Proof. intros Hm c g a l. unfold attempt. rewrite Hm. unfold swap_after. by destruct (m (c, g)) as [x [c' g']]. Qed.

#[local] Instance blind_on_cas {A : Type} (op : CASStore B → result A * CASStore B) : Blind (on_cas op).
Proof. intros c g a l. unfold on_cas, mbind, M_bind, get, put, lift, swap_after. cbn [snd]. change (gcas (swap a l g)) with (gcas g). by destruct (op (gcas g)). Qed.
#[local] Instance blind_on_vs {A : Type} (op : VStore B → result A * VStore B) : Blind (on_vs op).
Proof. intros c g a l. unfold on_vs, mbind, M_bind, get, put, lift, swap_after. cbn [snd]. change (gvs (swap a l g)) with (gvs g). by destruct (op (gvs g)). Qed.
#[local] Instance blind_on_ls {A : Type} (op : LStore B → result A * LStore B) : Blind (on_ls op).
Proof. intros c g a l. unfold on_ls, mbind, M_bind, get, put, lift, swap_after. cbn [snd]. change (gls (swap a l g)) with (gls g). by destruct (op (gls g)). Qed.
#[local] Instance blind_on_ns {A : Type} (op : NStore B → result A * NStore B) : Blind (on_ns op).
Proof. intros c g a l. unfold on_ns, mbind, M_bind, get, put, lift, swap_after. cbn [snd]. change (gstore (swap a l g)) with (gstore g). by destruct (op (gstore g)). Qed.

#[local] Hint Constants Opaque : typeclass_instances.

(** Descend through a handler: its reads of the state, its branches, its steps. *)
Ltac blind :=
  repeat first
    [ progress intros
    | lazymatch goal with |- Blind (get ≫= _) => apply blind_get; [intros; reflexivity|] end
    | solve [apply _]
    | lazymatch goal with
      | |- Blind (_ ≫= _) => apply blind_bind
      | |- Blind (on_error _ _) => apply blind_on_error
      | |- Blind (finally _ _) => apply blind_finally
      | |- Blind (attempt _) => apply blind_attempt
      | |- Blind (modify _) => apply blind_modify; intros; reflexivity
      | |- Blind (in_bucket _ _ _) => unfold in_bucket
      | |- Blind (needs_store _ _) => unfold needs_store
      | |- Blind (let _ := _ in _) => cbv zeta
      | |- Blind (match ?x with _ => _ end) => destruct x
      | |- Blind (if ?x then _ else _) => destruct x
      end ].

#[local] Instance blind_padded s n : Blind (padded s n).
Proof. unfold padded. blind. Qed.

#[local] Instance blind_gcall h : Blind (gcall h).
Proof. unfold gcall. blind. Qed.
#[local] Instance blind_set_gpeer p : Blind (set_gpeer p).
Proof. unfold set_gpeer. blind. Qed.
#[local] Instance blind_set_external : Blind set_external.
Proof. unfold set_external. blind. Qed.
#[local] Instance blind_set_ctx x : Blind (set_ctx x).
Proof. unfold set_ctx. blind. Qed.
#[local] Instance blind_set_spill x : Blind (set_spill x).
Proof. unfold set_spill. blind. Qed.
#[local] Instance blind_dispatch e b k v ev : Blind (dispatchNotification e b k v ev).
Proof. unfold dispatchNotification. blind. Qed.
#[local] Instance blind_writeS3Error s c m x : Blind (writeS3Error s c m x).
Proof. unfold writeS3Error. blind. Qed.
#[local] Instance blind_handled s c m x : Blind (handled_with s c m x).
Proof. unfold handled_with. blind. Qed.
#[local] Instance blind_refuse {A : Type} s c m x er : Blind (refuse (A:=A) s c m x er).
Proof. unfold refuse. blind. Qed.

Context (e : gateway_env) (no_tenant : tenantID e = []).

#[local] Instance blind_NoSuchBucket {A : Type} b : Blind (NoSuchBucket (A:=A) b).
Proof. unfold NoSuchBucket. blind. Qed.
#[local] Instance blind_no_store {A : Type} : Blind (no_store (A:=A)).
Proof. unfold no_store. blind. Qed.
#[local] Instance blind_internal {A : Type} m x er : Blind (internal (A:=A) m x er).
Proof. unfold internal. blind. Qed.
#[local] Instance blind_not_implemented {A : Type} m x : Blind (not_implemented (A:=A) m x).
Proof. unfold not_implemented. blind. Qed.
#[local] Instance blind_rejectVersioningUnsupported x : Blind (rejectVersioningUnsupported x).
Proof. unfold rejectVersioningUnsupported. blind. Qed.
#[local] Instance blind_rejectLifecycleUnsupported x : Blind (rejectLifecycleUnsupported x).
Proof. unfold rejectLifecycleUnsupported. blind. Qed.
#[local] Instance blind_rejectNotificationUnsupported x : Blind (rejectNotificationUnsupported x).
Proof. unfold rejectNotificationUnsupported. blind. Qed.
#[local] Instance blind_rejectObjectLockUnsupported {A : Type} x : Blind (rejectObjectLockUnsupported (A:=A) x).
Proof. unfold rejectObjectLockUnsupported. blind. Qed.
#[local] Instance blind_writeRawResponse h b : Blind (writeRawResponse h b).
Proof. unfold writeRawResponse. blind. Qed.
#[local] Instance blind_s3_writeAuditLog o x y : Blind (s3_writeAuditLog e o x y).
Proof. unfold s3_writeAuditLog. rewrite no_tenant, bool_decide_eq_true_2 by done. cbn [orb]. blind. Qed.
#[local] Instance blind_listFiles : Blind (listFiles e).
Proof. unfold listFiles. blind. Qed.
#[local] Instance blind_storedS3Meta k : Blind (storedS3Meta k).
Proof. unfold storedS3Meta. blind. Qed.
#[local] Instance blind_copy_out rc : Blind (copy_out rc).
Proof. unfold copy_out. blind. Qed.
#[local] Instance blind_copy_span s n rc : Blind (copy_span s n rc).
Proof. unfold copy_span. blind. Qed.
#[local] Instance blind_write304 m h : Blind (write304 m h).
Proof. unfold write304. blind. Qed.
#[local] Instance blind_checksum_mode q h rc : Blind (checksum_mode q h rc).
Proof. unfold checksum_mode. blind. Qed.
#[local] Instance blind_serve_object q b k rc m : Blind (serve_object go e q b k rc m).
Proof. unfold serve_object. blind. Qed.
#[local] Instance blind_open_object k : Blind (open_object k).
Proof. unfold open_object. blind. Qed.
#[local] Instance blind_handle_get_object r b k : Blind (handle_get_object go e r b k).
Proof. unfold handle_get_object. blind. Qed.
#[local] Instance blind_handle_head_object b k : Blind (handle_head_object e b k).
Proof. unfold handle_head_object. blind. Qed.
#[local] Instance blind_plain_delete k : Blind (plain_delete e k).
Proof. unfold plain_delete. blind. Qed.
#[local] Instance blind_propagate k : Blind (propagate e k).
Proof. unfold propagate. blind. Qed.
#[local] Instance blind_delete_leased b k : Blind (delete_leased e b k).
Proof. unfold delete_leased. blind. Qed.
#[local] Instance blind_handle_delete_object b k : Blind (handle_delete_object e b k).
Proof. unfold handle_delete_object. blind. Qed.
#[local] Instance blind_batch_delete_one b k : Blind (batch_delete_one e b k).
Proof. unfold batch_delete_one. blind. Qed.
#[local] Instance blind_release_all n : Blind (release_all n).
Proof.
  unfold release_all. apply blind_get; [reflexivity|]. intros g.
  generalize (omap (λ h, match h with AcquireLease k => Some k | _ => None end) (drop n (gcalls g))). intros ks.
  induction ks as [|k ks IH]; cbn [foldr]; blind.
Qed.
#[local] Instance blind_batch_delete_loop b ks : Blind (batch_delete_loop e b ks).
Proof. induction ks as [|k ks IH]; cbn [batch_delete_loop]; blind. Qed.
#[local] Instance blind_handleBatchDelete b r : Blind (handleBatchDelete go e b r).
Proof. unfold handleBatchDelete. blind. Qed.
#[local] Instance blind_put_error k m er : Blind (put_error k m er).
Proof. unfold put_error. blind. Qed.
#[local] Instance blind_handleCopyObject b k s : Blind (handleCopyObject e b k s).
Proof. unfold handleCopyObject. blind. Qed.
#[local] Instance blind_handleGetVersioning b : Blind (handleGetVersioning b).
Proof. unfold handleGetVersioning. blind. Qed.
#[local] Instance blind_handlePutVersioning r b : Blind (handlePutVersioning go e r b).
Proof. unfold handlePutVersioning. blind. Qed.
#[local] Instance blind_handleGetVersions r b : Blind (handleGetVersions go r b).
Proof. unfold handleGetVersions. blind. Qed.
#[local] Instance blind_handleGetObjectVersion b k v h : Blind (handleGetObjectVersion b k v h).
Proof. unfold handleGetObjectVersion. blind. Qed.
#[local] Instance blind_align_namespace b k : Blind (align_namespace b k).
Proof. unfold align_namespace. blind. Qed.
#[local] Instance blind_handleVersionedDelete b k v n y : Blind (handleVersionedDelete e b k v n y).
Proof. unfold handleVersionedDelete. blind. Qed.
#[local] Instance blind_handleGetBucketObjectLock b : Blind (handleGetBucketObjectLock b).
Proof. unfold handleGetBucketObjectLock. blind. Qed.
#[local] Instance blind_handlePutBucketObjectLock r b : Blind (handlePutBucketObjectLock e r b).
Proof. unfold handlePutBucketObjectLock. blind. Qed.
#[local] Instance blind_multipartLockHeaders r b k : Blind (multipartLockHeaders go e r b k).
Proof. unfold multipartLockHeaders. blind. Qed.
#[local] Instance blind_LockVersion b k v st : Blind (LockVersion e b k v st).
Proof. unfold LockVersion. blind. Qed.
#[local] Instance blind_lockTargetVersion b k v : Blind (lockTargetVersion b k v).
Proof. unfold lockTargetVersion. blind. Qed.
#[local] Instance blind_lockTarget r b k : Blind (lockTarget r b k).
Proof. unfold lockTarget. blind. Qed.
#[local] Instance blind_handleGetObjectLockDoc r b k f d : Blind (handleGetObjectLockDoc r b k f d).
Proof. unfold handleGetObjectLockDoc. blind. Qed.
#[local] Instance blind_writeLockMutationError er k : Blind (writeLockMutationError er k).
Proof. unfold writeLockMutationError. blind. Qed.
#[local] Instance blind_handlePutObjectLockDoc r b k op p : Blind (handlePutObjectLockDoc e r b k op p).
Proof. unfold handlePutObjectLockDoc. blind. Qed.
#[local] Instance blind_handlePutObjectRetention r b k : Blind (handlePutObjectRetention go e r b k).
Proof. unfold handlePutObjectRetention. blind. Qed.
#[local] Instance blind_handlePutObjectLegalHold r b k : Blind (handlePutObjectLegalHold go e r b k).
Proof. unfold handlePutObjectLegalHold. blind. Qed.
#[local] Instance blind_handleCreateMultipartUpload b k : Blind (handleCreateMultipartUpload e b k).
Proof. unfold handleCreateMultipartUpload. blind. Qed.
#[local] Instance blind_find_upload u b k : Blind (find_upload u b k).
Proof. unfold find_upload. blind. Qed.
#[local] Instance blind_handleUploadPart r b k : Blind (handleUploadPart r b k).
Proof. unfold handleUploadPart. blind. Qed.
#[local] Instance blind_persistS3Checksum k h v a : Blind (persistS3Checksum k h v a).
Proof. unfold persistS3Checksum. blind. Qed.
#[local] Instance blind_verifyMultipartChecksum r d k : Blind (verifyMultipartChecksum go e r d k).
Proof. unfold verifyMultipartChecksum. blind. Qed.
#[local] Instance blind_recordMultipartVersion b k h s : Blind (recordMultipartVersion e b k h s).
Proof. unfold recordMultipartVersion. blind. Qed.
#[local] Instance blind_store_assembled r b k d : Blind (store_assembled go e r b k d).
Proof. unfold store_assembled. blind. Qed.
#[local] Instance blind_handleCompleteMultipartUpload r b k : Blind (handleCompleteMultipartUpload go e r b k).
Proof. unfold handleCompleteMultipartUpload. blind. Qed.
#[local] Instance blind_handleAbortMultipartUpload u : Blind (handleAbortMultipartUpload u).
Proof. unfold handleAbortMultipartUpload. blind. Qed.
#[local] Instance blind_handleListParts b k u : Blind (handleListParts e b k u).
Proof. unfold handleListParts. blind. Qed.
#[local] Instance blind_handleListMultipartUploads b : Blind (handleListMultipartUploads b).
Proof. unfold handleListMultipartUploads. blind. Qed.
#[local] Instance blind_handleGetLifecycle b : Blind (handleGetLifecycle b).
Proof. unfold handleGetLifecycle. blind. Qed.
#[local] Instance blind_handlePutLifecycle r b : Blind (handlePutLifecycle go e r b).
Proof. unfold handlePutLifecycle. blind. Qed.
#[local] Instance blind_handleDeleteLifecycle b : Blind (handleDeleteLifecycle e b).
Proof. unfold handleDeleteLifecycle. blind. Qed.
#[local] Instance blind_handleGetNotification b : Blind (handleGetNotification go b).
Proof. unfold handleGetNotification. blind. Qed.
#[local] Instance blind_handlePutNotification r b : Blind (handlePutNotification go e r b).
Proof. unfold handlePutNotification. blind. Qed.
#[local] Instance blind_handleDeleteNotification b : Blind (handleDeleteNotification e b).
Proof. unfold handleDeleteNotification. blind. Qed.
#[local] Instance blind_s3_handleOPRFEval ev r : Blind (s3_handleOPRFEval ev r).
Proof. unfold s3_handleOPRFEval. blind. Qed.
#[local] Instance blind_entity_too_large : Blind entity_too_large.
Proof. unfold entity_too_large. blind. Qed.
#[local] Instance blind_decodeStreamingPayload r : Blind (decodeStreamingPayload r).
Proof. unfold decodeStreamingPayload. blind. Qed.
#[local] Instance blind_access_denied {A : Type} m : Blind (access_denied (A:=A) m).
Proof. unfold access_denied. blind. Qed.
#[local] Instance blind_request_token q : Blind (request_token q).
Proof. unfold request_token. blind. Qed.
#[local] Instance blind_check_token t y : Blind (check_token e t y).
Proof. unfold check_token. blind. Qed.
#[local] Instance blind_check_signature q y : Blind (check_signature e q y).
Proof. unfold check_signature. blind. Qed.
#[local] Instance blind_s3_authenticate q : Blind (s3_authenticate e q).
Proof. unfold s3_authenticate. blind. Qed.
#[local] Instance blind_s3_authorize q b k : Blind (s3_authorize go e q b k).
Proof. unfold s3_authorize. rewrite no_tenant, bool_decide_eq_true_2 by done. cbn [orb]. blind. Qed.
Lemma blind_objectLockSubresourceRoute r b k a : objectLockSubresourceRoute go e r b k = Some a → Blind a.
Proof. unfold objectLockSubresourceRoute. case_match; [done|]. intros [= <-]. blind. Qed.
#[local] Instance blind_list_objects r b : Blind (list_objects e r b).
Proof. unfold list_objects. blind. Qed.
Lemma blind_bucket_subresource r b a : bucket_subresource go e r b = Some a → Blind a.
Proof. unfold bucket_subresource. repeat (case_match; [intros [= <-]; blind|]). done. Qed.
#[local] Instance blind_route_get_object r b k : Blind (route_get_object go e r b k).
Proof.
  unfold route_get_object.
  destruct (objectLockSubresourceRoute go e r b k) as [a|] eqn:E; [apply blind_objectLockSubresourceRoute in E|]; blind.
Qed.
#[local] Instance blind_route_get r b k : Blind (route_get go e r b k).
Proof.
  unfold route_get.
  destruct (if decide (k = []) then bucket_subresource go e r b else None) as [a|] eqn:E; [|blind].
  case_decide; [|done]. apply blind_bucket_subresource in E. blind.
Qed.
#[local] Instance blind_route_head r b k : Blind (route_head e r b k).
Proof. unfold route_head. blind. Qed.
#[local] Instance blind_delete_bucket r b : Blind (delete_bucket e r b).
Proof. unfold delete_bucket. blind. Qed.
#[local] Instance blind_route_delete r b k : Blind (route_delete e r b k).
Proof. unfold route_delete. blind. Qed.
#[local] Instance blind_validateSSEHeaders q : Blind (validateSSEHeaders go q).
Proof. unfold validateSSEHeaders. blind. Qed.
#[local] Instance blind_create_bucket q b : Blind (create_bucket e q b).
Proof. unfold create_bucket. blind. Qed.
#[local] Instance blind_accept_upload r b k : Blind (accept_upload go e r b k).
Proof. unfold accept_upload. blind. Qed.
Lemma blind_route_put r b k a : route_put go e r b k = Some a → Blind a.
Proof.
  unfold route_put. cbv zeta.
  do 7 (match goal with |- (if ?b then _ else _) = _ → _ => destruct b end; [intros [= <-]; blind|]).
  destruct (if negb (bool_decide (k = [])) then objectLockSubresourceRoute go e r b k else None) as [a'|] eqn:E.
  - intros [= <-]. case_match; [|done]. by eapply blind_objectLockSubresourceRoute.
  - match goal with |- (if ?b then _ else _) = _ → _ => destruct b end; [intros [= <-]; blind|done].
Qed.
#[local] Instance blind_handshake r b k : Blind (handshake go e r b k).
Proof.
  unfold handshake. destruct (route_put go e r b k) as [a|] eqn:E; [apply blind_route_put in E|]; blind.
Qed.
Lemma blind_route_post r b k a : route_post go e r b k = Some a → Blind a.
Proof. unfold route_post. repeat (case_match; [intros [= <-]; blind|]). done. Qed.
#[local] Instance blind_route r b k : Blind (s3_route go e r b k).
Proof.
  unfold s3_route.
  destruct (if decide (Method (http r) = bs "POST") then route_post go e r b k else None) as [a|] eqn:E; [|blind].
  case_decide; [|done]. by eapply blind_route_post.
Qed.
#[local] Instance blind_s3_HandshakeServer x : Blind (s3_HandshakeServer go e x).
Proof. unfold s3_HandshakeServer. blind. Qed.
End Blind.

(** ** Access rules and the audit log *)

(** C27: Tenants' access rules do not decide S3 requests.  For a connection without a
    tenant (the only kind there is: no code assigns the tenant of a connection, and a
    new one has none), the handshake, in which every request but the transfer of an
    upload's body is carried out, gives the same answer, bytes and new state under any
    access rules and any audit log, and leaves both as they were: nothing it does is
    authorised or recorded, reads, deletes and bucket operations included.  The body
    of an upload is taken in after it and recorded there, without a tenant
    (auditPut in server/file.go). *)
Theorem s3_ignores_access_rules {B : Type} `{BlobStore B} (go : golib) e request c (g : gateway B) a l :
  tenantID e = [] →
  s3_HandshakeServer go e request (c, swap a l g) = swap_after a l (s3_HandshakeServer go e request (c, g)).
Proof. intros He. exact (blind_s3_HandshakeServer go e He request c g a l). Qed.

(** With a tenant the same code would refuse what the rules do not grant. *)
Lemma s3_authorize_denies {B : Type} `{BlobStore B} (go : golib) e q bucket key er (g : gateway B) c :
  tenantID e ≠ [] → hasStore e = true →
  Authorize (gaccess g) (tenantID e) (needed_permission (Method q))
    (if decide (key = []) then bs "bucket/" ++ bucket else bs "object/" ++ bucket ++ [ch_slash] ++ key) = Err er →
  (s3_authorize go e q bucket key (c, g)).1 = Err er ∧ (s3_authorize go e q bucket key (c, g)).2.2 = g.
Proof.
  intros Ht Hs Ha. unfold s3_authorize. rewrite bool_decide_eq_false_2, Hs by done. cbn [negb orb].
  unfold mbind, M_bind, get. cbn [snd]. rewrite Ha. done.
Qed.

(** ** Authentication *)
Section Authentication.
Context {B : Type} `{BlobStore B} (go : golib) (e : gateway_env).
Implicit Types (g : gateway B) (q : http_request).

(** The token of the node or the one derived for peers. *)
Definition own_token (t : bytes) : bool :=
  match PadString t (Z.of_nat AuthTokenLength) with
  | Some b => bool_decide (b = gtoken e) || bool_decide (b = DerivePeerToken (gtoken e))
  | None => false
  end.

Definition gateway_key (t : bytes) : bool :=
  match PadString (TrimNullBytesString (sigV4AccessKey e)) (Z.of_nat AuthTokenLength), PadString t (Z.of_nat AuthTokenLength) with
  | Some want, Some got => bool_decide (got = want)
  | _, _ => false
  end.

(** Signed with the secret of the gateway, or with the token where no gateway
    credentials are configured. *)
Definition signed_by q (accessKey : bytes) : bool :=
  let configured := negb (bool_decide (sigV4AccessKey e = [])) in
  (if configured then gateway_key accessKey else own_token accessKey)
  && verifySigV4Signature (gclock e) q (h_get q (bs "Authorization"))
       (TrimNullBytesString (if configured then sigV4SecretKey e else gtoken e)).

Definition authentic q : bool :=
  let hdr := h_get q (bs "Authorization") in
  if has_prefix hdr (bs "Bearer ") then own_token (drop 7 hdr)
  else if has_prefix hdr auth_prefix then match parseSigV4AuthHeader hdr with Ok c => signed_by q (AccessKey c) | Err _ => false end
  else match parseSigV4QueryAuth q with
       | Some c => signed_by q (AccessKey c)
       | None => negb (isPresignedSigV4 q) && own_token []
       end.

(** The gateway with another role of the connection, and with another chunk-signing
    context. *)
Definition with_role (p : bool) g : gateway B :=
  mkGateway (gstore g) (gaccess g) (gaudit g) (uploads g) (gcalls g) (gposted g) p (isExternalClient g) (gmeta g) (gheaders g) (gsigV4 g) (streamingSpill g).
Definition with_ctx (x : option streamingSigningCtx) g : gateway B :=
  mkGateway (gstore g) (gaccess g) (gaudit g) (uploads g) (gcalls g) (gposted g) (gpeer g) (isExternalClient g) (gmeta g) (gheaders g) x (streamingSpill g).

(** Nothing, or one S3 error response with a client-error status. *)
Definition error_answer (out : bytes) : Prop :=
  out = [] ∨ ∃ status code message resource, 400 <= status < 500 ∧ out = s3_error status code message resource.

(** [m] succeeds without output, changing at most the role and the context, or is
    refused with an error, changing at most the role. *)
Definition outcome_of {A : Type} (ok : bool) (m : M (gateway B) A) : Prop := ∀ c g,
  if ok then ∃ x p cx, m (c, g) = (Ok x, (c, with_role p (with_ctx cx g)))
  else ∃ er p out, m (c, g) = (Err er, (mkConn (inp c) (outp c ++ out), with_role p g)) ∧ error_answer out.

(** The success of [m] leaves the context alone. *)
Definition role_only {A : Type} (m : M (gateway B) A) : Prop := ∀ c g x s', m (c, g) = (Ok x, s') → ∃ p, s' = (c, with_role p g).

Lemma with_role_id g : g = with_role (gpeer g) g.
Proof. by destruct g. Qed.

Lemma outcome_refuse {A : Type} s code m x er : 400 <= s < 500 → outcome_of false (refuse (A:=A) s code m x er).
Proof.
  intros Hs [i o] g. exists er, (gpeer g), (s3_error s code m x). rewrite <- with_role_id. split; [done|]. right. by exists s, code, m, x.
Qed.

Lemma outcome_bind {A C : Type} ok1 ok2 (m : M (gateway B) A) (f : A → M (gateway B) C) :
  outcome_of ok1 m → role_only m → (∀ x, outcome_of ok2 (f x)) → outcome_of (ok1 && ok2) (m ≫= f).
Proof.
  intros H1 Hr H2 c g. unfold mbind, M_bind. specialize (H1 c g). destruct ok1; cbn [andb].
  - destruct H1 as (x & p & cx & H1). destruct (Hr _ _ _ _ H1) as [p' E]. rewrite H1, E.
    specialize (H2 x c (with_role p' g)). destruct ok2.
    + destruct H2 as (y & p2 & cx2 & ->). by exists y, p2, cx2.
    + destruct H2 as (er & p2 & out & -> & Ho). by exists er, p2, out.
  - destruct H1 as (er & p & out & -> & Ho). by exists er, p, out.
Qed.

Lemma outcome_stop {A C : Type} (m : M (gateway B) A) (f : A → M (gateway B) C) : outcome_of false m → outcome_of false (m ≫= f).
Proof.
  intros H1 c g. unfold mbind, M_bind. destruct (H1 c g) as (er & p & out & -> & Ho). by exists er, p, out.
Qed.

Lemma outcome_ret {A : Type} (x : A) : outcome_of true (mret x).
Proof. intros c g. exists x, (gpeer g), (gsigV4 g). by destruct g. Qed.

Lemma outcome_fail {A : Type} er : outcome_of false (fail_with (A:=A) er).
Proof. intros [i o] g. exists er, (gpeer g), []. rewrite <- with_role_id. cbn. rewrite app_nil_r. split; [done|by left]. Qed.

Lemma outcome_set_gpeer p : outcome_of true (set_gpeer p).
Proof. intros c g. exists tt, p, (gsigV4 g). by destruct g. Qed.

Lemma outcome_set_ctx x : outcome_of true (set_ctx x).
Proof. intros c g. exists tt, (gpeer g), x. by destruct g. Qed.

Lemma padded_run {A : Type} s (k : bytes → M (gateway B) A) c g :
  (padded s AuthTokenLength ≫= k) (c, g)
  = match PadString s (Z.of_nat AuthTokenLength) with Some b => k b (c, g) | None => (Err (Errno EIO), (c, g)) end.
Proof. unfold padded, mbind, M_bind. by destruct (PadString s (Z.of_nat AuthTokenLength)). Qed.

Lemma outcome_check_token t (gw : bool) : outcome_of (if gw then gateway_key t else own_token t) (check_token e t gw).
Proof.
  unfold check_token, gateway_key, own_token, access_denied. destruct gw; intros c g.
  - rewrite padded_run. destruct (PadString (TrimNullBytesString (sigV4AccessKey e)) _); [|apply outcome_fail].
    rewrite padded_run. destruct (PadString t _); [|apply outcome_fail].
    case_decide; [rewrite bool_decide_eq_true_2 by done; apply outcome_set_gpeer|].
    rewrite bool_decide_eq_false_2 by done. by apply outcome_refuse.
  - rewrite padded_run. destruct (PadString t _) as [b|]; [|apply outcome_fail].
    case_decide; [rewrite bool_decide_eq_true_2 by done; apply outcome_set_gpeer|].
    rewrite (bool_decide_eq_false_2 (b = gtoken e)) by done. cbn [orb].
    case_decide; [rewrite bool_decide_eq_true_2 by done; apply outcome_set_gpeer|].
    rewrite bool_decide_eq_false_2 by done. by apply outcome_refuse.
Qed.

Lemma check_token_role t (gw : bool) : role_only (check_token e t gw).
Proof.
  unfold check_token, access_denied. intros c g x s'. destruct gw; rewrite padded_run; destruct (PadString _ _); try discriminate;
    [rewrite padded_run; destruct (PadString t _); [|discriminate]|]; repeat case_decide; try discriminate; intros [= _ <-]; by eexists.
Qed.

Lemma outcome_check_signature q (gw : bool) :
  outcome_of (verifySigV4Signature (gclock e) q (h_get q (bs "Authorization")) (TrimNullBytesString (if gw then sigV4SecretKey e else gtoken e)))
    (check_signature e q gw).
Proof.
  unfold check_signature. cbv zeta. destruct (verifySigV4Signature _ _ _ _); cbn [negb].
  - destruct (bool_decide (Method q = bs "PUT") && _); [|apply outcome_ret].
    destruct (chunk_context _ _); [apply outcome_set_ctx|apply outcome_ret].
  - destruct (isPresignedSigV4 q && _); by apply outcome_refuse.
Qed.

Lemma outcome_token (t : bytes) (signed : bool) q :
  let gw := signed && negb (bool_decide (sigV4AccessKey e = [])) in
  outcome_of (if signed then signed_by q t else own_token t)
    (check_token e t gw;; if signed then check_signature e q gw else mret tt).
Proof.
  cbv zeta. unfold signed_by. destruct signed; cbn [andb].
  - apply outcome_bind; [apply outcome_check_token|apply check_token_role|intros _; apply outcome_check_signature].
  - rewrite <- (andb_true_r (own_token t)). apply outcome_bind; [apply (outcome_check_token t false)|apply check_token_role|intros _; apply outcome_ret].
Qed.

Lemma outcome_authenticate q : outcome_of (authentic q) (s3_authenticate e q).
Proof.
  unfold s3_authenticate, authentic, request_token. cbv zeta.
  destruct (has_prefix (h_get q (bs "Authorization")) (bs "Bearer ")); [exact (outcome_token _ false q)|].
  destruct (has_prefix (h_get q (bs "Authorization")) auth_prefix).
  - destruct (parseSigV4AuthHeader (h_get q (bs "Authorization"))) as [cp|er]; [exact (outcome_token _ true q)|].
    by apply outcome_stop, outcome_refuse.
  - destruct (parseSigV4QueryAuth q) as [cp|]; [exact (outcome_token _ true q)|].
    destruct (isPresignedSigV4 q); cbn [negb andb]; [|exact (outcome_token [] false q)].
    by apply outcome_stop, outcome_refuse.
Qed.
End Authentication.

(** C26: A request that presents neither the node's token, nor the token of its
    peers, nor a valid signature under the credentials in force is refused with an
    error whatever the method, the path or the query ask for: the connection gets
    one S3 error response with a client-error status, or nothing, and the store, the
    multipart sessions, the calls to the cluster, the chunk-signing context and all
    other state of the gateway stay as they were, except possibly the role of the
    connection, which is set before the signature is checked ([bad_signature_is_peer])
    and on which the refused connection acts no more. *)
Theorem s3_unauthenticated_inert {B : Type} `{BlobStore B} (go : golib) e r c (g : gateway B) :
  authentic e (http r) = false →
  ∃ er role out, s3_HandshakeServer go e (Some r) (c, g) = (Err er, (mkConn (inp c) (outp c ++ out), with_role role g)) ∧ error_answer out.
Proof.
  intros Ha. pose proof (outcome_authenticate e (http r) c g) as Hm. rewrite Ha in Hm.
  destruct Hm as (er & p & out & Hm & Ho). exists er, p, out. split; [|done].
  unfold s3_HandshakeServer. unfold mbind, M_bind. by rewrite Hm.
Qed.

(** ** Ranges *)

(** A span that is served lies within the object. *)
Lemma range_in_bounds hdr size a b : 0 <= size → parseS3Range hdr size = Span a b → 0 <= a <= b ∧ b < size.
Proof.
  intros Hs. unfold parseS3Range. repeat (case_match; try discriminate); intros [= <- <-];
    repeat match goal with
           | H : _ || _ = false |- _ => apply orb_false_iff in H as [? ?]
           | H : parse_position _ = Some _ |- _ => unfold parse_position in H; repeat case_match; try discriminate; injection H as <-
           end; zbool; lia.
Qed.

Definition range_text (a b : Z) : bytes := bs "bytes=" ++ append_int a ++ [ch_minus] ++ append_int b.

Lemma append_int_digits v : 0 <= v < 2 ^ 63 → Forall (λ c, is_digit c = true) (append_int v) ∧ append_int v ≠ [].
Proof.
  intros Hv. unfold append_int. rewrite (proj2 (Z.ltb_ge v 0)) by lia.
  destruct (dec_digits_spec 20 v []) as (ds & -> & Hne & Hf & _); [lia|]. rewrite app_nil_r.
  split; [done|]. apply Hne. lia.
Qed.

Lemma digits_visible ds : Forall (λ c, is_digit c = true) ds → Forall (λ c, 32 < b2z c < 127) ds.
Proof. intros H. eapply Forall_impl; [exact H|]. unfold is_digit. intros c Hc. lia. Qed.

Lemma digits_notin c ds : Forall (λ c, is_digit c = true) ds → is_digit c = false → c ∉ ds.
Proof. intros HF Hc Hin. rewrite Forall_forall in HF. apply HF in Hin. congruence. Qed.

Lemma parse_position_text v : 0 <= v < 2 ^ 62 → parse_position (append_int v) = Some v.
Proof.
  intros Hv. destruct (append_int_digits v) as [_ Hne]; [lia|].
  destruct (append_int_spec v) as (_ & _ & Hp); [unfold is_int64; lia|].
  unfold parse_position. rewrite decide_False, Hp by done.
  by replace ((v <? 0) || (2 ^ 62 - 1 <? v)) with false by lia.
Qed.

Lemma parse_range_text a b size :
  0 <= a <= b → b < 2 ^ 62 → a < size → parseS3Range (range_text a b) size = Span a (Z.min b (size - 1)).
Proof.
  intros Hab Hb Has.
  destruct (append_int_digits a) as [Fa Na]; [lia|]. destruct (append_int_digits b) as [Fb Nb]; [lia|].
  unfold parseS3Range. rewrite trim_space_visible.
  2:{ unfold range_text. repeat (apply Forall_app; split); try (by apply digits_visible);
        apply (bool_decide_unpack _); vm_compute; exact I. }
  rewrite (proj2 (has_prefix_spec _ _)) by (by eexists). cbn [negb].
  change (drop 6 (range_text a b)) with (append_int a ++ ch_minus :: append_int b).
  rewrite contains_byte_spec, bool_decide_eq_false_2.
  2:{ rewrite elem_of_app, elem_of_cons. intros [H|[H|H]]; [|done|]; revert H; by apply digits_notin. }
  rewrite index_byte_first by (by apply digits_notin).
  rewrite take_app_length. replace (drop (S (length (append_int a))) (append_int a ++ ch_minus :: append_int b)) with (append_int b).
  2:{ rewrite (app_assoc _ [ch_minus] (append_int b)). by rewrite drop_app_eq by (rewrite length_app; cbn; lia). }
  rewrite !trim_space_visible by (by apply digits_visible). rewrite !decide_False by done.
  rewrite !parse_position_text by lia. by replace ((size <=? a) || (b <? a)) with false by lia.
Qed.

Section Download.
Context {B : Type} `{BlobStore B} (go : golib).
Implicit Types (g : gateway B) (e : gateway_env).

(** A download without conditions. *)
Record unconditional (q : http_request) : Prop := {
  uc_match : h_get q (bs "If-Match") = []; uc_none : h_get q (bs "If-None-Match") = []; uc_since : h_get q (bs "If-Modified-Since") = [];
  uc_range : h_get q (bs "If-Range") = []; uc_mode : h_get q (bs "X-Amz-Checksum-Mode") = []
}.

Lemma audit_run e o x y (k : M (gateway B) (option (Z * Z))) c g :
  ∃ g', (s3_writeAuditLog e o x y;; k) (c, g) = k (c, g').
Proof. unfold s3_writeAuditLog. destruct (_ || _); by eexists. Qed.

Lemma get_object_run e r bucket key c g rc meta :
  unconditional (http r) → Get (gcas g) key = Ok (rc, meta) →
  let a := if bool_decide (h_get (http r) (bs "Range") = []) then Whole else parseS3Range (h_get (http r) (bs "Range")) (FSize meta) in
  let text := object_text (get_status a (FSize meta)) meta (default ∅ (GetS3Meta (gls g) key)) [] in
  Z.of_nat (length text) <= responseBuffer → a ≠ Unsatisfiable →
  handle_get_object go e r bucket key (c, g)
  = (Write text;; (match a with Span s e_ => copy_span s (e_ - s + 1) rc | _ => copy_out rc end);;
     s3_writeAuditLog e (bs "GetObject") (bucket ++ [ch_slash] ++ key) (bs "success");; mret None) (c, g).
Proof.
  intros [U1 U2 U3 U4 U5] Hg. cbv zeta. intros Hl Ha. unfold handle_get_object, open_object. unfold mbind at 1 2, M_bind at 1 2, get. cbn [snd].
  rewrite Hg. unfold mret at 1, M_ret at 1. unfold serve_object, storedS3Meta, checksum_mode. unfold mbind at 1 2, M_bind at 1 2, get. cbn [snd].
  unfold mret at 1, M_ret at 1. rewrite U5. change (EqualFold [] (bs "ENABLED")) with false. cbn [negb].
  unfold mbind at 1, M_bind at 1, mret at 1, M_ret at 1. rewrite U1. unfold not_modified, requested_range. rewrite U2, U3, U4.
  cbv zeta. change (bool_decide ([] = [] :> bytes)) with true. cbn [negb andb].
  destruct (if bool_decide (h_get (http r) (bs "Range") = []) then Whole else parseS3Range (h_get (http r) (bs "Range")) (FSize meta)) eqn:E;
    try done; rewrite (proj2 (Z.ltb_ge _ _)) by done; done.
Qed.
End Download.

(** The bytes of a span. *)
Definition span_of (content : bytes) (a b : Z) : bytes := take (Z.to_nat (b - a + 1)) (drop (Z.to_nat a) content).

Lemma span_length content a b :
  0 <= a <= b → b < Z.of_nat (length content) → Z.of_nat (length (span_of content a b)) = b - a + 1.
Proof. intros ? ?. unfold span_of. rewrite length_take, length_drop. lia. Qed.

(** A download with [Range: bytes=a-b] that starts within the object and
    carries no other condition is answered with 206, a [Content-Range] and a
    [Content-Length] for the bytes from [a] to [b], cut at the last byte of the
    object, followed by exactly those bytes and nothing more, also where the
    reader ends in an error after them. *)
Theorem s3_range_exact {B : Type} `{BlobStore B} (go : golib) e r bucket key c (g : gateway B) rc meta a b :
  unconditional (http r) → Get (gcas g) key = Ok (rc, meta) → Z.of_nat (length (concat (rd_chunks rc))) = FSize meta →
  h_get (http r) (bs "Range") = range_text a b → 0 <= a <= b → b < 2 ^ 62 → a < FSize meta →
  let last := Z.min b (FSize meta - 1) in
  let text := object_text (get_status (Span a last) (FSize meta)) meta (default ∅ (GetS3Meta (gls g) key)) [] in
  let body := span_of (concat (rd_chunks rc)) a last in
  Z.of_nat (length text) <= responseBuffer →
  Z.of_nat (length body) = last - a + 1
  ∧ ∃ g', handle_get_object go e r bucket key (c, g) = (Ok None, (mkConn (inp c) (outp c ++ text ++ body), g')) ∧ gstore g' = gstore g.
Proof.
  intros Hu Hg Hlen Hr Hab Hb Ha last text body Ht.
  split; [apply span_length; lia|].
  assert (h_get (http r) (bs "Range") ≠ []) as Hne by (by rewrite Hr).
  pose proof (get_object_run go e r bucket key c g rc meta Hu Hg) as Hrun. cbv zeta in Hrun.
  rewrite (bool_decide_eq_false_2 _ Hne), Hr, parse_range_text in Hrun by done.
  rewrite (Hrun Ht) by done.
  unfold copy_span. rewrite (proj2 (Z.ltb_ge _ _)) by lia.
  fold last. unfold mbind at 1 2 3, M_bind at 1 2 3, Write. cbn [fst snd inp outp].
  rewrite (proj2 (Z.ltb_ge _ _)) by (rewrite length_drop; lia).
  unfold mret at 1, M_ret at 1. unfold mbind, M_bind. cbn [inp outp].
  unfold s3_writeAuditLog. rewrite <- app_assoc.
  destruct (_ || _); eexists; (split; [reflexivity|done]).
Qed.

(** ** Multipart uploads *)
#[export] Instance part_less_strict : StrictWeak part_less.
Proof. split; unfold part_less; intros; lia. Qed.

Lemma increasing_inj (l : list multipartPart) x y :
  StronglySorted (λ a b, partNumber a < partNumber b) l → x ∈ l → y ∈ l → partNumber x = partNumber y → x = y.
Proof.
  induction 1 as [|z l Hs IH Hz]; [by rewrite elem_of_nil|]. rewrite Forall_forall in Hz.
  intros [->|Hx]%elem_of_cons [->|Hy]%elem_of_cons E; [done|apply Hz in Hy; lia|apply Hz in Hx; lia|by apply IH].
Qed.

(** With distinct part numbers the assembled object does not depend on the order
    of the uploads. *)
Lemma assembled_sorted (ps sorted : list multipartPart) :
  sorted ≡ₚ ps → StronglySorted (λ a b, partNumber a < partNumber b) sorted → assembled ps = concat (map part_data sorted).
Proof.
  intros Hp Hs. unfold assembled. do 2 f_equal.
  refine (StronglySorted_unique_strong (notafter part_less) _ _ _ (stable_sort_sorted part_less ps) _ _).
  - intros x y Hx Hy H1 H2. rewrite (stable_sort_perm part_less), <- Hp in Hx.
    unfold notafter, part_less in H1, H2. apply (increasing_inj sorted); [done..|lia].
  - clear Hp. induction Hs as [|x l Hs IH Hx]; constructor; [done|]. eapply Forall_impl; [exact Hx|].
    unfold notafter, part_less. intros y Hxy. lia.
  - by rewrite (stable_sort_perm part_less).
Qed.

Section Multipart.
Context {B : Type} `{BlobStore B} (go : golib).
Implicit Types (g : gateway B) (e : gateway_env) (r : s3_request) (p : multipartPart).

(** A request that uploads the part [p] of the session [id]. *)
Record uploads_part (id : bytes) r p : Prop := {
  up_id : q_get (http r) (bs "uploadId") = id;
  up_number : parse_int64 (q_get (http r) (bs "partNumber")) = Some (partNumber p);
  up_positive : 1 <= partNumber p;
  up_body : read_limited part_limit (Body r) = Ok (part_data p);
  up_etag : part_etag p = HashBytes (part_data p)
}.

(** Requests served one after the other. *)
Fixpoint upload_all (bucket key : bytes) (rs : list s3_request) : M (gateway B) unit :=
  match rs with
  | [] => mret tt
  | r :: rs => handleUploadPart r bucket key;; upload_all bucket key rs
  end.

Lemma upload_part_run id r p bucket key c g up :
  uploads_part id r p → uploads g !! id = Some up → up_bucket up = bucket → up_key up = key →
  ∃ out, handleUploadPart r bucket key (c, g)
    = (Ok None, (mkConn (inp c) (outp c ++ out),
        set_uploads (<[id := mkUpload bucket key (createdAt up) (parts up ++ [p])]> (uploads g)) g)).
Proof.
  intros [Hid Hnum Hpos Hbody Het] Hup Hb Hk. destruct p as [n et d]. cbn [partNumber part_etag part_data] in *.
  unfold handleUploadPart. rewrite Hid, Hnum, Hbody. rewrite (proj2 (Z.ltb_ge _ _)) by done.
  unfold find_upload, mbind, M_bind, get. cbn [snd]. rewrite Hup, decide_True by done.
  unfold mret, M_ret, modify, mbind, M_bind, get, put. cbn [snd fst]. subst et bucket key.
  eexists. unfold Write. reflexivity.
Qed.

Lemma upload_all_run id bucket key t rs ps : ∀ done c g,
  Forall2 (uploads_part id) rs ps → uploads g !! id = Some (mkUpload bucket key t done) →
  ∃ out g', upload_all bucket key rs (c, g) = (Ok tt, (mkConn (inp c) (outp c ++ out), g'))
    ∧ uploads g' !! id = Some (mkUpload bucket key t (done ++ ps)) ∧ gstore g' = gstore g.
Proof.
  intros done c g Hrs. revert done c g. induction Hrs as [|r p rs ps Hr Hrs IH]; intros done [i o] g Hup; cbn [upload_all].
  - exists [], g. rewrite !app_nil_r. by split_and!.
  - destruct (upload_part_run id r p bucket key (mkConn i o) g _ Hr Hup eq_refl eq_refl) as [out1 E1].
    unfold mbind, M_bind. rewrite E1. cbn [createdAt parts inp outp].
    destruct (IH (done ++ [p]) (mkConn i (o ++ out1)) (set_uploads (<[id:=mkUpload bucket key t (done ++ [p])]> (uploads g)) g)) as (out2 & g' & E2 & U & S).
    { cbn. by rewrite lookup_insert_eq. }
    rewrite E2. exists (out1 ++ out2), g'. cbn [inp outp]. rewrite <- !app_assoc. rewrite <- app_assoc in U. by split_and!.
Qed.

(** A completion that asks for no lock and states no checksum. *)
Record plain_completion (id : bytes) r : Prop := {
  pc_id : q_get (http r) (bs "uploadId") = id;
  pc_lock : ParseS3LockHeaders go (http r) = Ok (mkLock [] 0 false);
  pc_sum : parseChecksum go (http r) = inr ([], [])
}.

Lemma RecordVersion_cas (v : VStore B) bkt key hash size rnd now : cas (RecordVersion v bkt key hash size rnd now).2 = cas v.
Proof.
  unfold RecordVersion, record_version, update. destruct (newVersionID rnd); [|done].
  destruct (put_version_tx _ _ _ _); [|done]. unfold notifyVersionRecorded. cbn. by repeat case_match.
Qed.

Lemma record_version_run e bucket key hash size c g :
  ∃ vid g', recordMultipartVersion e bucket key hash size (c, g) = (Ok vid, (c, g')) ∧ gcas g' = gcas g ∧ uploads g' = uploads g.
Proof.
  unfold recordMultipartVersion, mbind, M_bind, get. cbn [snd]. destruct (IsVersioned _ _); cbn [negb]; [|by exists [], g].
  unfold on_error, on_vs, mbind, M_bind, get, put. cbn [snd fst].
  pose proof (RecordVersion_cas (gvs g) bucket key hash size (versionRandom e) (gclock e)) as Hc.
  destruct (RecordVersion _ _ _ _ _ _ _) as [[vid|er] v]; cbn [snd] in Hc; unfold lift, mret, M_ret; (eexists _, _; split; [reflexivity|done]).
Qed.

Lemma store_assembled_run e r id bucket key data c g s' :
  plain_completion id r → hasStore e = true →
  Put (gcas g) key (HashBytes data) (Z.of_nat (length data)) [] (Some (reader_of data)) (gclock e) = (Ok tt, s') →
  ∃ out g', store_assembled go e r bucket key data (c, g) = (Ok None, (mkConn (inp c) (outp c ++ out), g'))
    ∧ gcas g' = s' ∧ uploads g' = uploads g.
Proof.
  intros [_ Hl Hs] He Hp. unfold store_assembled. cbv zeta. unfold multipartLockHeaders. rewrite Hl.
  change (negb (lock_requested (mkLock [] 0 false))) with true. cbv iota.
  unfold mbind at 1, M_bind at 1, mret at 1, M_ret at 1.
  unfold verifyMultipartChecksum. rewrite Hs, decide_True by done.
  unfold mbind at 1, M_bind at 1, mret at 1, M_ret at 1. rewrite He. cbn [negb].
  unfold mbind at 1, M_bind at 1, modify. unfold mbind at 1, M_bind at 1, get, put. cbn [fst snd].
  unfold mbind at 1, M_bind at 1, on_error, on_cas. unfold mbind at 1, M_bind at 1, get, put. cbn [fst snd].
  change (gcas (set_meta _ _ g)) with (gcas g). rewrite Hp. unfold mbind at 1, M_bind at 1, lift.
  set (g0 := set_cas s' (set_meta (mkFile key (HashBytes data) (Z.of_nat (length data)) (RemotePath (gmeta g)) (ModTime (gmeta g))) (gheaders g) g)).
  destruct (record_version_run e bucket key (HashBytes data) (Z.of_nat (length data)) c g0) as (vid & g1 & E1 & C1 & U1).
  unfold mbind at 1, M_bind at 1.
  unfold mbind at 1, M_bind at 1. cbn [fst]. rewrite E1. unfold mbind at 1, M_bind at 1, mret at 1, M_ret at 1. cbn [negb].
  unfold dispatchNotification. rewrite He. cbn [negb]. unfold modify, mbind, M_bind, get, put, Write, mret, M_ret.
  eexists _, _. split; [reflexivity|]. cbn [snd]. by split.
Qed.
End Multipart.

(** C28: However the parts of a multipart upload arrive, completing it stores their contents
    in the order of their numbers.  For parts with distinct numbers uploaded in any order, a
    completion without lock or checksum headers, and assembled bytes that are not empty: if
    the digest of these bytes is intact in the store (its record, if any, is readable, counts
    its names and has its bytes; stored bytes match; it carries no quarantine mark) and the
    store accepts the assembled bytes, then the session is gone and the next read of the key
    streams, to a clean end, content of exactly that digest with that hash and time, and when
    the digest was neither recorded nor stored before, exactly the assembled bytes with their
    size.  The read is that of a local copy that is present and unmarked, the same whether
    or not the degraded read is armed. *)
Theorem multipart_any_order {B : Type} `{BlobStoreSpec B} (go : golib) e id bucket key t (rs : list s3_request) (ps sorted : list multipartPart) r c
    (g : gateway B) s' :
  uploads g !! id = Some (mkUpload bucket key t []) → Forall2 (uploads_part id) rs ps →
  sorted ≡ₚ ps → StronglySorted (λ a b, partNumber a < partNumber b) sorted →
  plain_completion go id r → hasStore e = true → is_int64 (gclock e) →
  let data := concat (map part_data sorted) in
  let h := HashBytes data in
  h ≠ HashBytes [] → is_int64 (Z.of_nat (length data)) →
  intact (gcas g) h → refcount (db (gcas g)) h < MaxInt64 →
  Put (gcas g) key h (Z.of_nat (length data)) [] (Some (reader_of data)) (gclock e) = (Ok tt, s') →
  ∃ out g' d meta, (upload_all bucket key rs;; handleCompleteMultipartUpload go e r bucket key) (c, g)
      = (Ok None, (mkConn (inp c) (outp c ++ out), g'))
    ∧ uploads g' !! id = None
    ∧ Get (gcas g') key = Ok (Reader [d] None, meta) ∧ HashBytes d = h ∧ Hash meta = h ∧ ModTime meta = gclock e
    ∧ (objects (db (gcas g)) !! h = None → blob_view (blobs (gcas g)) !! h = None →
       d = data ∧ FSize meta = Z.of_nat (length data)).
Proof.
  intros Hup Hrs Hp Hs Hr He Hn data h Hne Hl Hi Hrc Hput.
  destruct (upload_all_run id bucket key t rs ps [] c g Hrs Hup) as (o1 & g1 & E1 & U1 & S1).
  assert (gcas g1 = gcas g) as C1 by (unfold gcas, gvs, gls; by rewrite S1).
  pose proof (assembled_sorted ps sorted Hp Hs) as Ha. fold data in Ha.
  set (g2 := set_uploads (delete id (uploads g1)) g1).
  destruct (store_assembled_run go e r id bucket key data (mkConn (inp c) (outp c ++ o1)) g2 s' Hr He) as (o2 & g3 & E3 & C3 & U3).
  { change (gcas g2) with (gcas g1). rewrite C1. exact Hput. }
  assert (read_all (reader_of data) = Ok data) as Hrd by (unfold read_all; cbn; by rewrite app_nil_r).
  destruct (put_get (gcas g) key h (Z.of_nat (length data)) [] (reader_of data) (gclock e) s') as (d & meta & Hget & G1 & G2 & G3 & G4);
    [exact Hi|exact Hne|exact Hl|lia|exact Hrc|exact Hn|intros _ x Hx; rewrite Hrd in Hx; injection Hx as <-; reflexivity|exact Hput|].
  exists (o1 ++ o2), g3, d, meta. split_and!; [| | |exact G1|exact G2|exact G3|].
  - unfold mbind, M_bind. rewrite E1. unfold handleCompleteMultipartUpload. rewrite (pc_id _ _ _ Hr).
    unfold find_upload, mbind, M_bind, get. cbn [snd]. rewrite U1, decide_True by done.
    unfold mret, M_ret, modify, mbind, M_bind, get, put. cbn [snd fst app parts]. fold g2. rewrite Ha, E3.
    cbn [inp outp]. by rewrite <- app_assoc.
  - rewrite U3. cbn. apply lookup_delete_eq.
  - rewrite C3. exact Hget.
  - intros Ho Hb. destruct (G4 Ho Hb) as [Hx Hy]. rewrite Hrd in Hx. injection Hx as <-. split; [reflexivity|exact Hy].
Qed.

(** ** Requests that no handler serves *)

(** [?notification] is in the table of unsupported subresources, which is
    consulted before the routes of the notification configuration. *)
Lemma notification_unsupported (q : http_request) bucket :
  q_has q (bs "notification") = true → ∃ op, unsupported q bucket [] = Some (op, bucket).
Proof.
  intros Hq. unfold unsupported. rewrite decide_True by done. unfold unsupportedBucketConfigSubresource, unsupported_in.
  destruct (List.find _ _) as [[k op]|] eqn:E; [by exists op|exfalso].
  pose proof (List.find_none _ _ E (bs "notification", bs "notification configuration")) as Hn. cbn [fst] in Hn.
  rewrite Hq in Hn. discriminate Hn. apply list_elem_of_In. rewrite stable_sort_perm.
  apply (bool_decide_unpack _). vm_compute. exact I.
Qed.

(** The sessions of a bucket are never listed: without a key the objects are. *)
Lemma uploads_listing_unreachable {B : Type} `{BlobStore B} (go : golib) e r bucket :
  bucket ≠ [] → bucket_subresource (B:=B) go e r bucket = None → route_get (B:=B) go e r bucket [] = needs_store e (list_objects e r bucket).
Proof.
  intros Hb Hs. unfold route_get. rewrite bool_decide_eq_false_2 by done. cbn [andb].
  by rewrite decide_True, Hs, bool_decide_eq_true_2 by done.
Qed.

(** Once the metadata of a bucket's versioning is on the wire, the daemon is told
    to go on with an upload. *)
Lemma versioning_answer_goes_on {B : Type} `{BlobStore B} bucket c (g : gateway B) :
  ∃ out, handleGetVersioning bucket (c, g) = (Ok (Some (0, 0)), (mkConn (inp c) (outp c ++ out), g)).
Proof. eexists. unfold handleGetVersioning, writeRawResponse, mbind, M_bind, get, Write. reflexivity. Qed.

(** A part that is sent again is kept twice. *)
Example reuploaded_part_twice :
  let p d := mkPart 1 (HashBytes d) d in assembled [p (bs "old"); p (bs "new")] = bs "oldnew".
Proof. reflexivity. Qed.

(** Positions of 2^62 and more are taken for malformed. *)
Example large_range_end : parseS3Range (bs "bytes=0-9223372036854775807") 10 = Unsatisfiable ∧ parseS3Range (bs "bytes=0-99") 10 = Span 0 9.
Proof. by split; vm_compute. Qed.

(** ** Witnesses: a gateway over the reference backend *)
Definition x_go : golib :=
  mkGo id (λ _, bs "denied") (λ _, None) (λ _, None) (λ _, None) (λ _, None) (λ _, None) (λ _, None) (λ _, None) (λ _, None) (λ _, None) (λ _, None) (λ _, None).
Definition x_token : bytes := bs "0123456789abcdef0123456789abcdef0123456789abcdef0123456789abcdef".
Definition x_env : gateway_env := mkGateEnv x_token [] [] [] [] true 5 [] None None None false None 0 (λ _ _ _, None).
Definition x_gateway (s : CASStore (gmap bytes bytes)) (u : gmap bytes multipartUpload) : gateway (gmap bytes bytes) :=
  mkGateway (mkNS (mkLS (mkVS s (mkVDB ∅ ∅ ∅ ∅) None) ∅ ∅) ∅) (mkAccess ∅ ∅) ∅ u [] [] false false (mkFile [] [] 0 [] 0) ∅ None None.
Definition x_request (method path : bytes) (query : gmap bytes (list bytes)) (hdrs : list (bytes * list bytes)) (body : bytes) : s3_request :=
  mkS3 (mkReq method (bs "h") path query hdrs) (reader_of body) (reader_of body) (Z.of_nat (length body)).
Definition x_get : s3_request := x_request (bs "GET") (bs "/b/a") ∅ [(bs "Authorization", [bs "Bearer " ++ x_token])] [].
Definition x_conn : conn := mkConn [] [].

(** Rules that cannot even be read do not stop a download. *)
Lemma s3_ignores_access_rules_witness :
  s3_HandshakeServer x_go x_env (Some x_get) (x_conn, swap (mkAccess {[bs "bucket/b" := Corrupt]} ∅) ∅ (x_gateway ex1 ∅))
  = swap_after (mkAccess {[bs "bucket/b" := Corrupt]} ∅) ∅ (s3_HandshakeServer x_go x_env (Some x_get) (x_conn, x_gateway ex1 ∅))
  ∧ (s3_HandshakeServer x_go x_env (Some x_get) (x_conn, x_gateway ex1 ∅)).1 = Ok None.
Proof. split; [by apply s3_ignores_access_rules|vm_compute; reflexivity]. Defined.

Lemma s3_unauthenticated_inert_witness :
  let r := x_request (bs "DELETE") (bs "/b/a") ∅ [(bs "Authorization", [bs "Bearer guess"])] [] in
  ∃ er role out, s3_HandshakeServer x_go x_env (Some r) (x_conn, x_gateway ex1 ∅)
    = (Err er, (mkConn (inp x_conn) (outp x_conn ++ out), with_role role (x_gateway ex1 ∅))) ∧ error_answer out.
Proof. apply s3_unauthenticated_inert. vm_compute. reflexivity. Defined.

(** A signature that does not verify, under the token of the peers as its access key,
    marks the connection as a peer's before it is refused. *)
Example bad_signature_is_peer :
  let scope := bs "/20130524/us-east-1/s3/aws4_request, SignedHeaders=host, Signature=00" in
  let auth := bs "AWS4-HMAC-SHA256 Credential=" ++ DerivePeerToken x_token ++ scope in
  let r := x_request (bs "GET") (bs "/b/a") ∅ [(bs "Authorization", [auth])] [] in
  let run := s3_HandshakeServer x_go x_env (Some r) (x_conn, x_gateway ex1 ∅) in
  is_ok run.1 = false ∧ gpeer run.2.2 = true.
Proof. vm_compute. done. Qed.

Definition x_range : s3_request := x_request (bs "GET") (bs "/b/a") ∅ [(bs "Range", [bs "bytes=1-7"])] [].
Definition x_stored : FileMetadata := mkFile (bs "a") ex_hash 2 (bs "d/a") 5.

Lemma s3_range_exact_witness :
  let text := object_text (get_status (Span 1 1) 2) x_stored ∅ [] in
  Z.of_nat (length (span_of ex_body 1 1)) = 1
  ∧ ∃ g', handle_get_object x_go x_env x_range (bs "b") (bs "a") (x_conn, x_gateway ex1 ∅)
      = (Ok None, (mkConn [] ([] ++ text ++ span_of ex_body 1 1), g')) ∧ gstore g' = gstore (x_gateway ex1 ∅).
Proof.
  apply (s3_range_exact x_go x_env x_range (bs "b") (bs "a") x_conn (x_gateway ex1 ∅) (reader_of ex_body) x_stored 1 7).
  - by split; vm_compute.
  - vm_compute. reflexivity.
  - vm_compute. reflexivity.
  - vm_compute. reflexivity.
  - lia.
  - lia.
  - vm_compute. reflexivity.
  - vm_compute. discriminate.
Defined.

Definition x_part (n : Z) (d : bytes) : multipartPart := mkPart n (HashBytes d) d.
Definition x_upload (n : Z) (d : bytes) : s3_request :=
  x_request (bs "PUT") (bs "/b/m") {[bs "uploadId" := [bs "id"]; bs "partNumber" := [append_int n]]} [] d.
Definition x_complete : s3_request := x_request (bs "POST") (bs "/b/m") {[bs "uploadId" := [bs "id"]]} [] [].
Definition x_open : gateway (gmap bytes bytes) := x_gateway ex0 {[bs "id" := mkUpload (bs "b") (bs "m") 1 []]}.
Definition x_done : CASStore (gmap bytes bytes) :=
  (Put ex0 (bs "m") (HashBytes (bs "one two")) 7 [] (Some (reader_of (bs "one two"))) 5).2.

Lemma x_intact : intact ex0 (HashBytes (bs "one two")).
Proof. apply intact_new; [exact I|]. intros d Hd. change ((∅ : gmap bytes bytes) !! HashBytes (bs "one two") = Some d) in Hd.
  apply lookup_empty_Some in Hd. destruct Hd. Qed.

Lemma multipart_any_order_witness :
  ∃ out g' meta, (upload_all (bs "b") (bs "m") [x_upload 2 (bs "two"); x_upload 1 (bs "one ")];;
               handleCompleteMultipartUpload x_go x_env x_complete (bs "b") (bs "m")) (x_conn, x_open)
      = (Ok None, (mkConn [] ([] ++ out), g'))
    ∧ uploads g' !! bs "id" = None
    ∧ Get (gcas g') (bs "m") = Ok (Reader [bs "one two"] None, meta) ∧ FSize meta = 7.
Proof.
  destruct (multipart_any_order x_go x_env (bs "id") (bs "b") (bs "m") 1 [x_upload 2 (bs "two"); x_upload 1 (bs "one ")]
           [x_part 2 (bs "two"); x_part 1 (bs "one ")] [x_part 1 (bs "one "); x_part 2 (bs "two")] x_complete x_conn x_open x_done)
    as (out & g' & d & meta & E1 & E2 & E3 & _ & _ & _ & E7).
  - vm_compute. reflexivity.
  - repeat constructor; by vm_compute.
  - apply Permutation_swap.
  - repeat constructor.
  - by split; vm_compute.
  - reflexivity.
  - done.
  - vm_compute. discriminate.
  - done.
  - exact x_intact.
  - vm_compute. reflexivity.
  - refine (CasTheorems.run_ok (Put ex0 (bs "m") (HashBytes (bs "one two")) 7 [] (Some (reader_of (bs "one two"))) 5) (Ok tt) _). vm_compute. reflexivity.
  - destruct E7 as [-> E7]; [vm_compute; reflexivity|vm_compute; reflexivity|].
    exists out, g', meta. split; [exact E1|]. split; [exact E2|]. split; [exact E3|exact E7].
Defined.
