(* ===== verification/S3Wire.v ===== *)
(** * The S3 communicator on the wire and uploads through it
    (src/src/transport/s3_communicator.go, src/src/common/checksum.go)

    The methods of [S3Communicator] that the upload handler and the client use:
    the bounded reader of the request head, the client's requests, the answers of
    the server, the additive checksums, and the connection handler of the daemon
    over an S3 connection.  Requests and responses are parsed by net/http: a
    response is an argument, [None] when it could not be read. *)
From S2P Require Import Prelude GoText Hashes Json Paths ObjectMeta BlobStore RawStore CasStore CasDigest CasTheorems AuditLog Versioning Access Lifecycle Notify Crush Protocol Ingest Chunked SigV4 S3List S3Http S3Gateway S3Theorems.
Open Scope Z_scope.

(** ** The bounded reader *)
Record LimitedConnReader := mkLimited { limit : Z; read_count : Z; wire : bytes }.

Definition SetLimit (n : Z) (l : LimitedConnReader) : LimitedConnReader := mkLimited n 0 (wire l).
Definition ClearLimit (l : LimitedConnReader) : LimitedConnReader := mkLimited 0 0 (wire l).

(** One [Read] into [size] bytes; [avail] is how many the connection has ready. *)
Definition limited_Read (size avail : nat) (l : LimitedConnReader) : result bytes * LimitedConnReader :=
  if (0 <? limit l) && (limit l <=? read_count l) then (Err (Errno ENOBUFS), l)
  else
    let size := if (0 <? limit l) && (limit l - read_count l <? Z.of_nat size) then Z.to_nat (limit l - read_count l) else size in
    let n := Nat.min size (Nat.min avail (length (wire l))) in
    (Ok (take n (wire l)), mkLimited (limit l) (read_count l + Z.of_nat n) (drop n (wire l))).

(** ** Requests of the client *)
Record http_response := mkResponse { StatusCode : Z; resp_get : bytes → bytes; resp_body : reader }.

(** The address of the peer, when it is known. *)
Definition host_of (remoteAddr : option bytes) : bytes := default (bs "127.0.0.1") remoteAddr.

Definition options_text (host authToken : bytes) (timestamp requestedMode : Z) : bytes :=
  bs "OPTIONS / HTTP/1.1" ++ crlf2 ++ bs "Host: " ++ host ++ crlf2 ++ bs "Authorization: Bearer " ++ authToken ++ crlf2
  ++ bs "X-Momo-Timestamp: " ++ append_int timestamp ++ crlf2 ++ bs "X-Momo-Requested-Mode: " ++ append_int requestedMode ++ crlf2 ++ crlf2.

Definition s3_HandshakeClient {S : Type} (remoteAddr : option bytes) (authToken : bytes) (timestamp requestedMode : Z) (response : option http_response) : M S Z :=
  let host := host_of remoteAddr in
  if crlf authToken then fail_with (Errno EINVAL)
  else if crlf host then fail_with (Errno EINVAL)
  else
    let b := options_text host authToken timestamp requestedMode in
    if 256 <? Z.of_nat (length b) then fail_with (Errno ENOBUFS)
    else
      Write b;;
      match response with
      | None => fail_with (Errno EBADMSG)
      | Some resp =>
          let modeStr := resp_get resp (bs "X-Momo-Replication-Mode") in
          if decide (modeStr = []) then fail_with (Errno EBADMSG)
          else match parse_int64 modeStr with Some m => mret m | None => fail_with (Errno EBADMSG) end
      end.

Definition validatedWireName (meta : FileMetadata) : result bytes :=
  let! wireName := (if decide (RemotePath meta = []) then Ok (TrimNullBytesFromString (Name meta))
                    else let! norm := NormalizeVirtualPath (RemotePath meta) in Ok (norm ++ [ch_slash] ++ Name meta)) in
  let! _ := check_wire_name wireName in Ok wireName.

Definition put_text (host authToken : bytes) (timestamp : Z) (wireName hash : bytes) (size : Z) (meta : option bytes) : bytes :=
  bs "PUT /" ++ wireName ++ bs " HTTP/1.1" ++ crlf2 ++ bs "Host: " ++ host ++ crlf2 ++ bs "Authorization: Bearer " ++ authToken ++ crlf2
  ++ bs "X-Momo-Timestamp: " ++ append_int timestamp ++ crlf2 ++ bs "X-Amz-Content-Sha256: " ++ hash ++ crlf2
  ++ bs "Content-Length: " ++ append_int size
  ++ match meta with Some enc => crlf2 ++ bs "X-Momo-S3-Meta: " ++ enc | None => [] end ++ crlf2 ++ crlf2.

(** The text of the forwarded headers, [None] when there are none. *)
Definition encoded_headers (h : headers) : result (option bytes) :=
  let! data := MarshalS3MetaJSON h in
  Ok (match data with Some _ => Some (b64_encode (marshal_headers h)) | None => None end).

Definition put_request (remoteAddr : option bytes) (clientAuthToken : bytes) (clientTimestamp : Z) (meta : FileMetadata) (h : headers) : result bytes :=
  let host := host_of remoteAddr in
  let! wireName := validatedWireName meta in
  if crlf (Hash meta) then Err (Errno EBADMSG)
  else if crlf clientAuthToken then Err (Errno EBADMSG)
  else if crlf host then Err (Errno EBADMSG)
  else
    let! enc := encoded_headers h in
    let b := put_text host clientAuthToken clientTimestamp wireName (TrimNullBytesFromString (Hash meta)) (FSize meta) enc in
    if 16384 <? Z.of_nat (length b) then Err (Errno ENOBUFS) else Ok b.

(** [strconv.Atoi] with its error ignored: what is out of range is clamped. *)
Definition atoi (s : bytes) : Z :=
  let '(neg, ds) := split_sign s in
  if negb (bool_decide (ds = [])) && forallb is_digit ds
  then Z.max (- 2 ^ 63) (Z.min (2 ^ 63 - 1) (if neg : bool then - dec_value 0 ds else dec_value 0 ds))
  else 0.

Definition s3_SendMetadata {S : Type} (remoteAddr : option bytes) (clientAuthToken : bytes) (clientTimestamp : Z) (meta : FileMetadata) (h : headers)
    (response : option http_response) : M S Z :=
  b ← lift (put_request remoteAddr clientAuthToken clientTimestamp meta h);
  Write b;;
  match response with
  | None => fail_with (Errno EBADMSG)
  | Some resp =>
      let statusStr := resp_get resp (bs "X-Momo-Metadata-Status") in
      if decide (statusStr = []) then mret MetadataStatusSendPayload
      else mret (atoi statusStr)
  end.

Definition s3_ReceiveACK {S : Type} (response : option http_response) : M S unit :=
  match response with
  | None => fail_with (Errno EBADMSG)
  | Some resp =>
      body ← lift (read_limited 1024 (resp_body resp));
      if has_prefix body (bs "ACK") then mret tt else fail_with (Errno EBADMSG)
  end.

Definition s3_SendOPRFEval {S : Type} (remoteAddr : option bytes) (authToken : bytes) (timestamp : Z) (blinded : bytes) (threshold : Z)
    (response : option http_response) : M S (list (Z * bytes)) :=
  if negb (length blinded =? 32)%nat then fail_with (Errno EINVAL)
  else if crlf authToken then fail_with (Errno EINVAL)
  else
    let host := host_of remoteAddr in
    if crlf host then fail_with (Errno EINVAL)
    else
      let b := bs "POST /?momo-oprf-eval HTTP/1.1" ++ crlf2 ++ bs "Host: " ++ host ++ crlf2 ++ bs "Authorization: Bearer " ++ authToken ++ crlf2
               ++ bs "X-Momo-Timestamp: " ++ append_int timestamp ++ crlf2 ++ bs "Content-Length: 32" ++ s3ConnClose in
      if 384 <? Z.of_nat (length b) then fail_with (Errno ENOBUFS)
      else
        Write b;;
        Write blinded;;
        match response with
        | None => fail_with (Errno EBADMSG)
        | Some resp =>
            if negb (StatusCode resp =? 200) then fail_with (Errno EBADMSG)
            else lift (read_evaluations threshold (mkConn (concat (rd_chunks (resp_body resp))) [], tt)).1
        end.

(** ** Additive checksums *)
Record ChecksumRef := mkRef { Algorithm : bytes; Value : bytes }.

(** [ChecksumSet]: the algorithms in the order they were named, each with what its
    hasher has been fed.  An algorithm that is named twice shares one hasher, which
    every [Write] then feeds twice. *)
Record ChecksumSet := mkSet { hashers : gmap bytes bytes; order : list bytes }.

Definition checksum_supported (a : bytes) : bool :=
  bool_decide (a = bs "crc32c" ∨ a = bs "crc32" ∨ a = bs "sha1" ∨ a = bs "sha256").

Definition NewChecksumSet (algos : list bytes) : ChecksumSet :=
  foldl (λ s a, if checksum_supported a then mkSet (<[a := []]> (hashers s)) (order s ++ [a]) else s) (mkSet ∅ []) algos.

Definition NewChecksumSetFromRefs (refs : list ChecksumRef) : ChecksumSet := NewChecksumSet (Algorithm <$> refs).

Definition feed (p : bytes) (hs : gmap bytes bytes) (a : bytes) : gmap bytes bytes := alter (λ d, d ++ p) a hs.
Definition set_Write (p : bytes) (s : ChecksumSet) : ChecksumSet := mkSet (foldl (feed p) (hashers s) (order s)) (order s).

Definition Results (s : ChecksumSet) : gmap bytes bytes :=
  list_to_map (rev ((λ a, (a, b64_encode (ChecksumHasher a (default [] (hashers s !! a))))) <$> order s)).

Definition Verified (s : ChecksumSet) (expected : list ChecksumRef) : bool :=
  forallb (λ cs, bool_decide (Results s !! Algorithm cs = Some (Value cs))) expected.

Definition VerifyStream (r : reader) (expected : list ChecksumRef) : result unit :=
  if decide (expected = []) then Ok tt
  else
    let s := NewChecksumSetFromRefs expected in
    if decide (order s = []) then Ok tt
    else let! _ := read_all r in
         if Verified (foldl (λ s p, set_Write p s) s (rd_chunks r)) expected then Ok tt else Err ErrPlain.

Definition ChecksumExpectations (S3Headers : headers) : list ChecksumRef :=
  let algo := normalizeChecksumAlgorithm (default [] (S3Headers !! bs "x-amz-checksum-algorithm")) in
  if decide (algo = []) then []
  else
    let val := default [] (S3Headers !! checksumHeaderFor algo) in
    if decide (val = []) then [] else [mkRef algo val].

(** ** Answers of the server *)
Definition mode_text (mode : Z) : bytes :=
  bs "HTTP/1.1 200 OK" ++ crlf2 ++ bs "X-Momo-Replication-Mode: " ++ append_int mode ++ crlf2 ++ bs "Content-Length: 0" ++ crlf2
  ++ bs "Connection: keep-alive" ++ crlf2 ++ crlf2.
Definition status_answer (status : Z) : bytes :=
  bs "HTTP/1.1 200 OK" ++ crlf2 ++ bs "X-Momo-Metadata-Status: " ++ append_int status ++ crlf2 ++ bs "Content-Length: 0" ++ crlf2
  ++ bs "Connection: keep-alive" ++ crlf2 ++ crlf2.
Definition ack_text (serverId : Z) : bytes :=
  bs "HTTP/1.1 200 OK" ++ crlf2 ++ bs "Content-Length: " ++ append_int (3 + Z.of_nat (length (append_int serverId))) ++ crlf2
  ++ bs "Connection: keep-alive" ++ crlf2 ++ crlf2 ++ bs "ACK" ++ append_int serverId.

Definition bounded_write {S : Type} (b : bytes) : M S unit := if 256 <? Z.of_nat (length b) then fail_with (Errno ENOBUFS) else Write b.
Definition s3_SendReplicationMode {S : Type} (mode : Z) : M S unit := bounded_write (mode_text mode).
Definition s3_SendMetadataStatus {S : Type} (status : Z) : M S unit := bounded_write (status_answer status).
Definition s3_SendACK {S : Type} (serverId : Z) : M S unit := bounded_write (ack_text serverId).

Definition s3_OnStorageError {S : Type} (name : bytes) (er : error) : M S unit :=
  (if decide (er = Errno ENOSPC)
   then Write (s3_error 507 (bs "InsufficientStorage") (bs "There is insufficient storage space to complete the request.") name) else mret tt);;
  fail_with er.

Definition OnIntegrityChecksumMismatch {S : Type} (name : bytes) : M S unit :=
  Write (s3_error 400 (bs "BadDigest") (bs "The x-amz-checksum-* value you specified did not match the checksum we calculated.") name);;
  fail_with (Errno EBADMSG).

(** The metadata of the request that follows an OPTIONS handshake. *)
Definition next_metadata {S : Type} (go : golib) (next : option s3_request) : M S (FileMetadata * headers) :=
  match next with
  | None => fail_with (Errno EBADMSG)
  | Some r =>
      let q := http r in
      let cleanPath := path_clean (Path q) in
      if bool_decide (cleanPath = [ch_dot]) || bool_decide (cleanPath = dotdot) || has_prefix cleanPath (dotdot ++ [ch_slash])
         || bool_decide (cleanPath = [ch_slash])
      then fail_with (Errno EBADMSG)
      else
        let sha := h_get q (bs "X-Amz-Content-Sha256") in
        let hash := if decide (sha = []) then h_get q (bs "Content-Sha256") else sha in
        if negb (bool_decide (hash = [])) && HasPathTraversalChars hash then fail_with (Errno EBADMSG)
        else if isStreamingLiteral sha || contains (h_get q (bs "Content-Encoding")) s3StreamingContentEncoding then
          Write (s3_error 400 (bs "InvalidRequest") (bs "aws-chunked streaming uploads require the metadata handshake.") []);;
          fail_with (Errno EBADMSG)
        else mret (mkFile (trim_prefix cleanPath [ch_slash]) hash (ContentLength r) [] 0, forwarded_headers go q)
  end.

(** ** The communicator the upload handler sees *)

(** [io.LimitReader] *)
Definition limited (n : Z) (r : reader) : reader :=
  let c := concat (rd_chunks r) in
  if Z.of_nat (length c) <? n then r else reader_of (take (Z.to_nat n) c).

Section Upload.
Context {B : Type} `{BlobStore B} `{PutReads B} (go : golib) (scoreBits : Z → Z → Z).
Implicit Types (g : gateway B) (ge : gateway_env) (de : daemon_env) (r : s3_request).

(** The headers and the payload of the upload: of the request itself, of its
    decoded chunks, or of the request that follows an OPTIONS handshake. *)
Definition upload_headers g (next : option s3_request) : headers :=
  if decide (Name (gmeta g) = []) then match next with Some r => forwarded_headers go (http r) | None => ∅ end else gheaders g.
Definition upload_payload g r (next : option s3_request) : reader :=
  match streamingSpill g with
  | Some d => reader_of d
  | None => if decide (Name (gmeta g) = []) then match next with Some r' => Raw r' | None => reader_of [] end else Raw r
  end.
Definition upload_name g (next : option s3_request) : bytes :=
  if decide (Name (gmeta g) = []) then match next with Some r => trim_prefix (path_clean (Path (http r))) [ch_slash] | None => [] end
  else Name (gmeta g).

Definition s3_checksums (name : bytes) (h : headers) : option ((bytes → bool) * M unit unit) :=
  let refs := ChecksumExpectations h in
  if decide (refs = []) then None
  else Some (λ read, Verified (set_Write read (NewChecksumSetFromRefs refs)) refs, OnIntegrityChecksumMismatch name).

Definition s3_comm ge g r (next : option s3_request) : communicator :=
  mkComm (isExternalClient g) (configuredBucket ge) (tenantID ge)
    s3_SendReplicationMode
    (if decide (Name (gmeta g) = []) then next_metadata go next else mret (gmeta g, gheaders g))
    s3_SendMetadataStatus
    (λ size, mret (limited size (upload_payload g r next)))
    (s3_OnStorageError (upload_name g next))
    (s3_checksums (upload_name g next) (upload_headers g next))
    s3_SendACK.

(** *** A connection *)
Definition node_of g : upload_node B := mkNodeState (gstore g) (gaudit g) (gpeer g) (gcalls g) [] (gposted g).
Definition gateway_of (n : upload_node B) g : gateway B :=
  mkGateway (nstore n) (gaccess g) (naudit n) (uploads g) (ncalls n) (posted n) (npeer n) (isExternalClient g) (gmeta g) (gheaders g)
    (gsigV4 g) (streamingSpill g).

(** The upload after the handshake: [true] when it was acknowledged, with the
    objects handed to other nodes. *)
Definition run_upload ge de r (next : option s3_request) (mode ts : Z) : M (gateway B) (bool * list forward) := λ st,
  let '(c, g) := st in
  let cm := s3_comm ge g r next in
  let '(ok, (c, n)) := acknowledge de cm (upload scoreBits de cm mode ts) (c, node_of g) in
  (match ok with Ok b => Ok (b, forwards n) | Err er => Err er end, (c, gateway_of n g)).

(** The handler of the daemon; a request that the gateway answered or refused is
    not acknowledged. *)
Definition s3_serve ge de (request next : option s3_request) : M (gateway B) (bool * list forward) :=
  a ← attempt (s3_HandshakeServer go ge request);
  match a, request with
  | Ok (Some (mode, ts)), Some r => run_upload ge de r next mode ts
  | _, _ => mret (false, [])
  end.
End Upload.

(** * Theorems *)

(** ** The bounded reader *)
Fixpoint limited_reads (l : LimitedConnReader) (steps : list (nat * nat)) : bytes * LimitedConnReader :=
  match steps with
  | [] => ([], l)
  | (size, avail) :: steps =>
      match limited_Read size avail l with
      | (Ok b, l) => let '(rest, l) := limited_reads l steps in (b ++ rest, l)
      | (Err _, l) => ([], l)
      end
  end.

Lemma limited_reads_bounded l steps :
  0 < limit l → 0 <= read_count l <= limit l → Z.of_nat (length (limited_reads l steps).1) <= limit l - read_count l.
Proof.
  revert l. induction steps as [|[size avail] steps IH]; intros l Hl Hr; cbn [limited_reads]; [cbn; lia|].
  unfold limited_Read. rewrite (proj2 (Z.ltb_lt 0 (limit l))) by done. cbn [andb].
  destruct (limit l <=? read_count l) eqn:E; [cbn; lia|]. zbool.
  set (size' := if limit l - read_count l <? Z.of_nat size then _ else _).
  assert (Z.of_nat size' <= limit l - read_count l) as Hs by (unfold size'; destruct (_ <? _) eqn:E'; zbool; lia).
  set (n := Nat.min size' _). set (l' := mkLimited _ _ _).
  assert (n <= size')%nat by (unfold n; lia).
  specialize (IH l'). destruct (limited_reads l' steps) as [rest l'']. cbn [fst limit read_count l'] in *.
  rewrite length_app. pose proof (length_take_le (wire l) n ltac:(unfold n; lia)) as Ht. rewrite Ht.
  specialize (IH Hl ltac:(lia)). lia.
Qed.

(** ** The request of a forwarded upload *)
Definition strip_cr (l : bytes) : bytes := match rev l with c :: r => if decide (c = ch_cr) then rev r else l | [] => l end.

(** The lines of a request head as net/textproto reads them. *)
Fixpoint text_lines (cur b : bytes) : list bytes :=
  match b with
  | [] => []
  | c :: b => if decide (c = ch_lf) then strip_cr cur :: text_lines [] b else text_lines (cur ++ [c]) b
  end.

Lemma strip_cr_snoc l : strip_cr (l ++ [ch_cr]) = l.
Proof. unfold strip_cr. rewrite rev_app_distr. cbn [rev app]. rewrite decide_True by done. apply rev_involutive. Qed.

Lemma text_lines_line cur l b : ch_lf ∉ l → text_lines cur (l ++ crlf2 ++ b) = (cur ++ l) :: text_lines [] b.
Proof.
  revert cur. induction l as [|c l IH]; intros cur Hl.
  - change ([] ++ crlf2 ++ b) with (ch_cr :: ch_lf :: b). cbn [text_lines]. rewrite decide_False by done. rewrite decide_True by done.
    by rewrite strip_cr_snoc, app_nil_r.
  - cbn [app text_lines]. rewrite decide_False by set_solver. rewrite IH by set_solver. by rewrite <- app_assoc.
Qed.

Lemma text_lines_all ls : Forall (λ l, ch_lf ∉ l) ls → text_lines [] (concat (map (λ l, l ++ crlf2) ls)) = ls.
Proof. induction 1 as [|l ls Hl _ IH]; [done|]. cbn [map concat]. rewrite <- app_assoc, text_lines_line by done. by rewrite IH. Qed.

(** The lines of [put_text]. *)
Definition put_lines (host authToken : bytes) (timestamp : Z) (wireName hash : bytes) (size : Z) (meta : option bytes) : list bytes :=
  [bs "PUT /" ++ wireName ++ bs " HTTP/1.1"; bs "Host: " ++ host; bs "Authorization: Bearer " ++ authToken;
   bs "X-Momo-Timestamp: " ++ append_int timestamp; bs "X-Amz-Content-Sha256: " ++ hash; bs "Content-Length: " ++ append_int size]
  ++ match meta with Some enc => [bs "X-Momo-S3-Meta: " ++ enc] | None => [] end ++ [[]].

Lemma put_text_lines host token ts w hash size meta :
  put_text host token ts w hash size meta = concat (map (λ l, l ++ crlf2) (put_lines host token ts w hash size meta)).
Proof.
  unfold put_text, put_lines. generalize crlf2. intros nl.
  destruct meta; cbn [app map concat]; rewrite <- !app_assoc, ?app_nil_r; reflexivity.
Qed.

Lemma append_int_line v : is_int64 v → ch_lf ∉ append_int v.
Proof.
  intros Hv. assert (∀ ds, Forall (λ c, is_digit c = true) ds → ch_lf ∉ ds) as Hd.
  { intros ds Hf Hi. rewrite Forall_forall in Hf. by apply Hf in Hi. }
  unfold append_int, is_int64 in *. destruct (v <? 0) eqn:E; zbool.
  - destruct (dec_digits_spec 20 (- v) []) as (ds & -> & _ & Hf & _); [lia|]. rewrite app_nil_r, elem_of_cons.
    intros [?|Hin]; [done|]. by apply (Hd ds).
  - destruct (dec_digits_spec 20 v []) as (ds & -> & _ & Hf & _); [lia|]. rewrite app_nil_r. by apply Hd.
Qed.

Lemma put_lines_safe host token ts w hash size meta :
  ch_lf ∉ host → ch_lf ∉ token → ch_lf ∉ w → ch_lf ∉ hash → is_int64 ts → is_int64 size → (∀ enc, meta = Some enc → ch_lf ∉ enc) →
  Forall (λ l, ch_lf ∉ l) (put_lines host token ts w hash size meta).
Proof.
  intros H1 H2 H3 H4 H5%append_int_line H6%append_int_line H7.
  assert (∀ a b : bytes, ch_lf ∉ a → ch_lf ∉ b → ch_lf ∉ a ++ b) as Happ by (intros; rewrite elem_of_app; tauto).
  unfold put_lines. repeat (apply Forall_app; split); repeat constructor;
    try (destruct meta; repeat constructor);
    repeat (apply Happ); auto; apply (bool_decide_unpack _); vm_compute; exact I.
Qed.

Lemma crlf_line s : crlf s = false → ch_lf ∉ s.
Proof. unfold crlf. rewrite !contains_byte_spec. intros [_ H]%orb_false_iff. by apply bool_decide_eq_false in H. Qed.

Lemma trim_null_line s : ch_lf ∉ s → ch_lf ∉ TrimNullBytesFromString s.
Proof.
  intros H. unfold TrimNullBytesFromString. destruct (index_byte ch_nul s) as [i|]; [|done].
  intros Hin. apply H. rewrite <- (take_drop i s). apply elem_of_app. by left.
Qed.

Lemma b64_line s : ch_lf ∉ b64_encode s.
Proof. pose proof (b64_encode_lines s) as HF. rewrite Forall_forall in HF. intros Hin. apply HF in Hin as [_ ?]. done. Qed.

(** A forwarded upload cannot smuggle anything into its request head: whatever
    the name, the path, the digest, the token, the peer's address and the S3
    headers contain, a request that is sent at all consists of exactly the
    request line, the six header lines (the last one only when there are S3
    headers) and the empty line that ends the head. *)
Theorem put_request_framed remoteAddr token ts meta h b :
  is_int64 ts → is_int64 (FSize meta) → put_request remoteAddr token ts meta h = Ok b →
  ∃ w, validatedWireName meta = Ok w ∧
  text_lines [] b =
    [bs "PUT /" ++ w ++ bs " HTTP/1.1"; bs "Host: " ++ host_of remoteAddr; bs "Authorization: Bearer " ++ token;
     bs "X-Momo-Timestamp: " ++ append_int ts; bs "X-Amz-Content-Sha256: " ++ TrimNullBytesFromString (Hash meta);
     bs "Content-Length: " ++ append_int (FSize meta)]
    ++ (if decide (h = ∅) then [] else [bs "X-Momo-S3-Meta: " ++ b64_encode (marshal_headers h)]) ++ [[]].
Proof.
  intros Hts Hsz. unfold put_request. destruct (validatedWireName meta) as [w|] eqn:Ew; [|discriminate].
  destruct (crlf (Hash meta)) eqn:Eh; [discriminate|]. destruct (crlf token) eqn:Et; [discriminate|].
  destruct (crlf (host_of remoteAddr)) eqn:Eo; [discriminate|].
  assert (ch_lf ∉ w) as Hw.
  { unfold validatedWireName in Ew. destruct (if decide (RemotePath meta = []) then _ else _) as [w'|]; [|discriminate]. cbn in Ew.
    unfold check_wire_name in Ew. destruct (FileInfoLength <? _); [discriminate|]. destruct (crlf w') eqn:Ec; [discriminate|].
    destruct (PathUnescape w'); [|discriminate]. destruct (existsb _ _); [discriminate|]. injection Ew as <-. by apply crlf_line. }
  unfold encoded_headers. destruct (MarshalS3MetaJSON h) as [data|] eqn:Em; [|discriminate].
  assert (is_Some data ↔ h ≠ ∅) as Hd.
  { unfold MarshalS3MetaJSON in Em. case_decide; [injection Em as <-; split; [by intros []|done]|].
    destruct (_ <? _); [discriminate|]. injection Em as <-. split; [done|by eexists]. }
  set (t := put_text _ _ _ _ _ _ _). destruct (16384 <? Z.of_nat (length t)); [discriminate|]. intros [= <-]. exists w. split; [done|].
  unfold t. rewrite put_text_lines, text_lines_all.
  - unfold put_lines. destruct data as [d|]; case_decide as Hh; try done; exfalso; [by apply Hd in Hh; [|eexists]|].
    apply Hd in Hh as [? ?]. done.
  - apply put_lines_safe; [by apply crlf_line|by apply crlf_line|done|by apply trim_null_line, crlf_line|done|done|].
    pose proof (b64_line (marshal_headers h)) as Hb. generalize dependent (b64_encode (marshal_headers h)). intros enc _ Hb.
    destruct data; [|done]. by intros ? [= <-].
Qed.

(** ** Uploads *)
Lemma length_dec_digits fuel v acc : (length (dec_digits fuel v acc) <= fuel + length acc)%nat.
Proof.
  revert v acc. induction fuel as [|fuel IH]; intros v acc; cbn [dec_digits]; [lia|].
  repeat case_match; cbn [length]; try lia; etransitivity; try apply IH; cbn [length]; lia.
Qed.

Lemma length_append_int v : (length (append_int v) <= 21)%nat.
Proof.
  unfold append_int. pose proof (length_dec_digits 20 (- v) []) as H1. pose proof (length_dec_digits 20 v []) as H2.
  change (length (@nil byte)) with 0%nat in H1, H2. destruct (v <? 0); cbn [length]; lia.
Qed.

Ltac literal_lengths :=
  rewrite ?length_app; change (length crlf2) with 2%nat;
  repeat match goal with |- context [length (bs ?s)] => let n := eval vm_compute in (length (bs s)) in change (length (bs s)) with n end.

Lemma mode_text_fits v : Z.of_nat (length (mode_text v)) <= 256.
Proof. unfold mode_text. literal_lengths. pose proof (length_append_int v). lia. Qed.

Lemma status_answer_fits v : Z.of_nat (length (status_answer v)) <= 256.
Proof. unfold status_answer. literal_lengths. pose proof (length_append_int v). lia. Qed.

Lemma bounded_write_ok {S : Type} b c (s : S) : Z.of_nat (length b) <= 256 → bounded_write b (c, s) = (Ok tt, (mkConn (inp c) (outp c ++ b), s)).
Proof. intros Hb. unfold bounded_write. by rewrite (proj2 (Z.ltb_ge _ _)) by done. Qed.

Section UploadTheorems.
Context {B : Type} `{Hspec : BlobStoreSpec B} `{!PutReads B} `{!PutReadsSpec B} (go : golib) (scoreBits : Z → Z → Z).
Implicit Types (g : gateway B) (ge : gateway_env) (de : daemon_env) (r : s3_request).

(** The metadata the handler works with. *)
Definition received g (next : option s3_request) (c : conn) : result (FileMetadata * headers) :=
  if decide (Name (gmeta g) = []) then (next_metadata go next (c, tt)).1 else Ok (gmeta g, gheaders g).

Lemma s3_comm_received ge g r next c : (c_ReceiveMetadata (s3_comm go ge g r next) (c, tt)).1 = received g next c.
Proof. unfold s3_comm, received. cbn [c_ReceiveMetadata]. by case_decide. Qed.

(** C25: The S3 gateway sends its final acknowledgement (the "ACK" response a forwarding node
    waits for) only when the upload is safe.  It says nothing about the 200 responses that
    carry the mode and the status, which are written before the body is read and are all an
    ordinary S3 client looks at (see [s3_unsigned_put_lost]).  With the acknowledgement, the
    name of the request is mapped to the digest the request announced, and the object was
    handed to exactly the nodes that the mode and the placement ask for ([handed_to]), each
    of which took it or panicked, which the handler does not tell from success.  If the digest
    is not that of the empty object, the payload has it, unless the name already had it; and
    if it was clean before, its blob is stored and hashes to it.  The reference counts leave
    room for one more. *)
Theorem s3_upload_acknowledged ge de r next mode ts c g fs c' g' :
  (∀ h, refcount (db (gcas g)) h < MaxInt64) → is_int64 (clock (henv de)) →
  run_upload go scoreBits ge de r next mode ts (c, g) = (Ok (true, fs), (c', g')) →
  ∃ m h placement c1,
    received g next c1 = Ok (m, h) ∧
    GetHashForName (gcas g') (Name m) = Ok (Hash m) ∧
    (Hash m ≠ HashBytes [] →
       (GetHashForName (gcas g) (Name m) = Ok (Hash m) ∨
        HashBytes (concat (rd_chunks (limited (FSize m) (upload_payload g r next)))) = Hash m) ∧
       (clean (gcas g) (Hash m) → ∃ body, blob_view (blobs (gcas g')) !! Hash m = Some body ∧ HashBytes body = Hash m)) ∧
    let cm := s3_comm go ge g r next in
    let eff := (select_mode de cm (gpeer g) mode ts).1 in
    Placement scoreBits (crush_nodes de) (Hash m) (if eff =? ReplicationNone then 1 else ReplicationFactor de) = Ok placement ∧
    (∀ t, t ∈ (fw_target <$> fs) ↔ handed_to (IsExternalClient cm) eff (serverId de) placement t) ∧
    ∀ f, f ∈ fs → fw_name f = Name m ∧ fw_hash f = Hash m ∧ (peers de f = FwOk ∨ peers de f = FwPanic).
Proof.
  intros Hmax Hclk. unfold run_upload, acknowledge. set (cm := s3_comm go ge g r next).
  assert (∀ k, k ≠ HashBytes [] → let '(r, (c', n')) := upload scoreBits de cm mode ts (c, node_of g) in keeps k r (node_of g) n') as Hkeep.
  { intros k Hk. pose proof (upload_spec scoreBits k Hk de cm mode ts c (node_of g) Hmax Hclk) as H'.
    destruct (upload _ _ _ _ _ _) as [rr [c0 n0]]. destruct (select_mode _ _ _ _ _). apply H'. }
  assert (ch_nul :: [] ≠ HashBytes []) as Hany by (vm_compute; discriminate).
  pose proof (upload_spec scoreBits _ Hany de cm mode ts c (node_of g) Hmax Hclk) as H'. clear Hany.
  destruct (upload scoreBits de cm mode ts (c, node_of g)) as [[[]|er] [c0 n0]]; [|discriminate].
  assert ((io (c_SendACK cm (serverId de)) (c0, n0)).2.2 = n0) as Hack by (rewrite io_spec; reflexivity).
  destruct (io (c_SendACK cm (serverId de)) (c0, n0)) as [ra [ca na]]. cbn [snd] in Hack |- *. subst na.
  intros E. injection E as Ef Ec Eg. subst fs c' g'.
  change (npeer (node_of g)) with (gpeer g) in H'. destruct (select_mode de cm (gpeer g) mode ts) as [eff finalTs].
  destruct H' as [_ H']. destruct (H' eq_refl) as (m & h & placement & targets & fs & Hm & _ & Hg & Hk & Hpl & Ht & Hf & Hft & Hfs).
  unfold cm in Hm. rewrite s3_comm_received in Hm. cbn [forwards node_of app] in Hf. subst fs.
  exists m, h, placement. eexists. change (gcas (gateway_of n0 g)) with (ncas n0).
  split; [exact Hm|]. split; [exact Hg|]. split; [|split; [exact Hpl|split; [|naive_solver]]].
  - intros Hne. split.
    + destruct Hk as [Hk|(rd & Hrd & Hh)]; [left; exact Hk|right].
      cbn in Hrd. injection Hrd as <-. unfold hashed in Hh. destruct (_ || _); [exact Hh|by destruct Hne].
    + intros Hcl. apply (mapped_blob _ (Name m)); [|exact Hg]. apply (Hkeep _ Hne Hcl). by left.
  - intros t. rewrite Hft. exact (forward_targets_exact scoreBits de cm eff placement targets Ht t).
Qed.

(** Deleting a name that is mapped leaves nothing under it. *)
Lemma Delete_mapped (s : CASStore B) name hash now :
  kept s hash → is_int64 now → namespace (db s) !! name = Some hash → key_ok name → key_ok hash →
  GetHashForName (Delete s name now).2 name = Err (Errno ENOENT).
Proof.
  intros Hk Hn En Kn Kh. unfold Delete.
  assert (∃ x, delete_tx (Errno EIO) name now (db s) = Ok x) as [[d o] E].
  { unfold delete_tx, drop_ref. rewrite bput_ok, En by done. destruct (objects (db s) !! hash) as [v|] eqn:Ev; [|by eexists].
    destruct (kp_rec s hash Hk v Ev) as (m & -> & _). rewrite bput_ok by done. by eexists. }
  rewrite E. cbn [snd]. apply delete_tx_shape in E as (_ & _ & Ets & _).
  destruct (reap_shape true o (with_db d s) (kp_blob s hash Hk)) as (_ & (ob & Rd) & _).
  unfold GetHashForName. cbn [db invalidateCache with_cache]. rewrite Rd. cbn. by rewrite Ets, lookup_insert_eq.
Qed.

Lemma unsigned_not_digest c : HashBytes c ≠ s3UnsignedPayload.
Proof.
  intros E. apply (f_equal length) in E. unfold HashBytes in E. rewrite length_hex_encode, length_sha256 in E. vm_compute in E. discriminate.
Qed.

(** The transfer of a payload whose digest is announced as [UNSIGNED-PAYLOAD]. *)
Lemma unsigned_getFile de cm name size rp rd s' c n :
  kept (ncas n) s3UnsignedPayload → is_int64 size → 0 <= size → refcount (db (ncas n)) s3UnsignedPayload < MaxInt64 → is_int64 (clock (henv de)) →
  c_read cm size (c, tt) = (Ok rd, (c, tt)) →
  Put (ncas n) name s3UnsignedPayload size rp (Some rd) (clock (henv de)) = (Ok tt, s') →
  getFile de cm name s3UnsignedPayload size rp (c, n) = (Err (Errno EBADMSG), (c, with_ncas (Delete s' name (clock (henv de))).2 n))
  ∧ GetHashForName (Delete s' name (clock (henv de))).2 name = Err (Errno ENOENT).
Proof.
  intros Hi Hs H0 Hm Hn Hr Hp. split.
  - unfold getFile. set (now := clock (henv de)) in *. erewrite bind_ok by (rewrite io_spec, Hr; reflexivity). cbn [fst snd].
    erewrite bind_ok by reflexivity. cbn [snd].
    assert (cas_put name s3UnsignedPayload size rp (Some rd) now (c, n) = (Ok tt, (c, with_ncas s' n))) as Ecp.
    { unfold cas_put. erewrite bind_ok by reflexivity. cbn [snd]. by rewrite Hp. }
    erewrite bind_ok by (unfold on_error; by rewrite Ecp).
    rewrite (bool_decide_eq_false_2 (HashBytes _ = _)) by apply unsigned_not_digest. reflexivity.
  - destruct (put_own (ncas n) name s3UnsignedPayload size rp (Some rd) [] [] [] (clock (henv de)) Hi) as (K & _).
    { by apply plain_fits. }
    pose proof Hp as Hp'. unfold Put in Hp'. rewrite Hp' in K. cbn [snd] in K.
    apply Put_maps in Hp as (En & _ & _ & Kn & Kh & _). by eapply Delete_mapped.
Qed.

Lemma unsigned_unknown (s : CASStore B) : clean s s3UnsignedPayload → objects (db s) !! s3UnsignedPayload = None.
Proof.
  intros [Hk Hc]. apply eq_None_not_Some. intros Ho. destruct (kp_stored _ _ Hk Ho) as [b Hb].
  exact (unsigned_not_digest b (Hc Ho b Hb)).
Qed.

(** A PUT that announces [X-Amz-Content-Sha256: UNSIGNED-PAYLOAD], as presigned
    and TLS clients do, is answered with two 200 responses and never stored: the
    first response is sent before the body is read, the literal is then taken for
    the digest of the body, and the cleanup after the mismatch removes the name,
    also where an object was stored under it before. *)
Theorem s3_unsigned_put_lost ge de r next mode ts c g placement targets s' :
  clean (gcas g) s3UnsignedPayload → is_int64 (clock (henv de)) →
  Hash (gmeta g) = s3UnsignedPayload → check_metadata (gmeta g) = Ok tt →
  let cm := s3_comm go ge g r next in
  let eff := (select_mode de cm (gpeer g) mode ts).1 in
  Placement scoreBits (crush_nodes de) s3UnsignedPayload (if eff =? ReplicationNone then 1 else ReplicationFactor de) = Ok placement →
  forward_targets de cm eff placement = Some targets →
  Put (gcas g) (Name (gmeta g)) s3UnsignedPayload (FSize (gmeta g)) (remote_dir (Name (gmeta g)))
    (Some (limited (FSize (gmeta g)) (upload_payload g r next))) (clock (henv de)) = (Ok tt, s') →
  ∃ g', run_upload go scoreBits ge de r next mode ts (c, g)
      = (Ok (false, []), (mkConn (inp c) ((outp c ++ mode_text eff) ++ status_answer MetadataStatusSendPayload), g'))
    ∧ GetHashForName (gcas g') (Name (gmeta g)) = Err (Errno ENOENT).
Proof.
  intros Hc Hclk Hh Hck cm eff Hpl Ht Hp.
  pose proof (unsigned_unknown _ Hc) as Ho.
  destruct (check_metadata_ok _ Hck) as (_ & Hne & _ & Hsz).
  assert (is_int64 (FSize (gmeta g))) as Hi64 by (unfold is_int64, MaxFileSize in *; lia).
  set (c1 := mkConn (inp c) (outp c ++ mode_text eff)).
  set (c2 := mkConn (inp c) ((outp c ++ mode_text eff) ++ status_answer MetadataStatusSendPayload)).
  destruct (unsigned_getFile de cm (Name (gmeta g)) (FSize (gmeta g)) (remote_dir (Name (gmeta g)))
              (limited (FSize (gmeta g)) (upload_payload g r next)) s' c2 (node_of g)) as [Eg Egone];
    [apply Hc|exact Hi64|lia|unfold refcount; change (ncas (node_of g)) with (gcas g); rewrite Ho; done|exact Hclk|reflexivity|exact Hp|].
  assert (upload scoreBits de cm mode ts (c, node_of g)
    = (Err (Errno EBADMSG), (c2, with_ncas (Delete s' (Name (gmeta g)) (clock (henv de))).2 (node_of g)))) as Eu.
  { unfold upload. erewrite bind_ok by reflexivity. cbn [snd].
    change (npeer (node_of g)) with (gpeer g). unfold eff in *. destruct (select_mode de cm (gpeer g) mode ts) as [m finalTs]. cbn [fst] in *.
    assert (c_SendReplicationMode cm m (c, tt) = (Ok tt, (c1, tt))) as E1 by (apply bounded_write_ok, mode_text_fits).
    erewrite bind_ok by (rewrite io_spec, E1; reflexivity). cbn [fst snd].
    assert (c_ReceiveMetadata cm (c1, tt) = (Ok (gmeta g, gheaders g), (c1, tt))) as E2
      by (unfold cm, s3_comm; cbn [c_ReceiveMetadata]; by rewrite decide_False by done).
    erewrite bind_ok by (rewrite io_spec, E2; reflexivity). cbn [fst snd]. rewrite Hck.
    erewrite bind_ok by reflexivity. erewrite bind_ok by reflexivity. cbn [snd].
    assert (canDedup (node_of g) (gmeta g) = Ok false) as ->.
    { unfold canDedup, Has, hasInternal. rewrite Hh. change (ncas (node_of g)) with (gcas g). by rewrite Ho. }
    erewrite bind_ok by reflexivity.
    assert (c_SendMetadataStatus cm MetadataStatusSendPayload (c1, tt) = (Ok tt, (c2, tt))) as E3
      by (apply bounded_write_ok, status_answer_fits).
    erewrite bind_ok by (rewrite io_spec, E3; reflexivity). cbn [fst snd]. rewrite Hh, Hpl.
    erewrite bind_ok by reflexivity. rewrite Ht. unfold store_object. rewrite Hh.
    apply bind_err, bind_err. exact Eg. }
  exists (gateway_of (with_ncas (Delete s' (Name (gmeta g)) (clock (henv de))).2 (node_of g)) g).
  split; [|exact Egone]. unfold run_upload, acknowledge. fold cm. by rewrite Eu.
Qed.
End UploadTheorems.

(** An algorithm that is named twice is fed every byte twice: its digest is never
    the one that was announced. *)
Example repeated_algorithm_fails :
  let ok := mkRef (bs "crc32") (b64_encode (ChecksumHasher (bs "crc32") (bs "data"))) in
  VerifyStream (reader_of (bs "data")) [ok] = Ok tt ∧ VerifyStream (reader_of (bs "data")) [ok; ok] = Err ErrPlain.
Proof. by split; vm_compute. Qed.

(** The name is not escaped: a name with a question mark reaches the peer as a
    path and a query, and one with a space as a malformed request line. *)
Example wire_name_unescaped :
  validatedWireName (mkFile (bs "a?b c") (HashBytes []) 0 [] 0) = Ok (bs "a?b c").
Proof. vm_compute. reflexivity. Qed.

(** ** Witnesses *)
Lemma put_request_framed_witness :
  let meta := mkFile (bs "f") ex_hash 2 (bs "/d") 0 in
  let h : headers := {[bs "content-type" := bs "text/plain"]} in
  ∃ w, validatedWireName meta = Ok w ∧
  text_lines [] (put_text (bs "127.0.0.1") x_token 7 (bs "d/f") ex_hash 2 (Some (b64_encode (marshal_headers h)))) =
    [bs "PUT /" ++ w ++ bs " HTTP/1.1"; bs "Host: " ++ host_of None; bs "Authorization: Bearer " ++ x_token;
     bs "X-Momo-Timestamp: " ++ append_int 7; bs "X-Amz-Content-Sha256: " ++ TrimNullBytesFromString (Hash meta);
     bs "Content-Length: " ++ append_int 2]
    ++ (if decide (h = ∅) then [] else [bs "X-Momo-S3-Meta: " ++ b64_encode (marshal_headers h)]) ++ [[]].
Proof.
  apply (put_request_framed None x_token 7 (mkFile (bs "f") ex_hash 2 (bs "/d") 0) {[bs "content-type" := bs "text/plain"]}); [done|done|].
  vm_compute. reflexivity.
Defined.

(** A PUT of [body] over the name [a], which holds another object. *)
Definition x_put_hdrs (sha : bytes) : list (bytes * list bytes) := [(bs "X-Amz-Content-Sha256", [sha])].
Definition x_put (sha body : bytes) : s3_request := x_request (bs "PUT") (bs "/a") ∅ (x_put_hdrs sha) body.
Definition x_accepted (sha body : bytes) : gateway (gmap bytes bytes) :=
  ((set_external;; accept_upload x_go x_env (x_put sha body) [] (bs "a")) (x_conn, x_gateway ex1 ∅)).2.2.
Definition x_lost := Put ex1 (bs "a") s3UnsignedPayload 3 [] (Some (reader_of (bs "new"))) (clock ex_env).

Lemma s3_unsigned_put_lost_witness :
  let g := x_accepted s3UnsignedPayload (bs "new") in
  ∃ g', run_upload x_go ex_score x_env (ex_daemon 0 1 0 (λ _, FwOk)) (x_put s3UnsignedPayload (bs "new")) None 0 0 (x_conn, g)
      = (Ok (false, []), (mkConn [] (([] ++ mode_text 0) ++ status_answer 1), g'))
    ∧ GetHashForName (gcas g') (bs "a") = Err (Errno ENOENT).
Proof.
  apply (s3_unsigned_put_lost x_go ex_score x_env (ex_daemon 0 1 0 (λ _, FwOk)) (x_put s3UnsignedPayload (bs "new")) None 0 0 x_conn
           (x_accepted s3UnsignedPayload (bs "new")) (match Placement ex_score (ex_crush 1) s3UnsignedPayload 1 with Ok p => p | Err _ => [] end) [] x_lost.2).
  - apply ex_node_clean.
  - done.
  - vm_compute. reflexivity.
  - vm_compute. reflexivity.
  - vm_compute. reflexivity.
  - vm_compute. reflexivity.
  - refine (CasTheorems.run_ok x_lost (Ok tt) _). vm_compute. reflexivity.
Defined.

Definition x_new : bytes := HashBytes (bs "new").
Definition x_stores := run_upload x_go ex_score x_env (ex_daemon 2 3 2 (λ _, FwOk)) (x_put x_new (bs "new")) None 0 0 (x_conn, x_accepted x_new (bs "new")).
Definition x_forwards : list forward := match x_stores.1 with Ok (_, fs) => fs | Err _ => [] end.

Lemma s3_upload_acknowledged_witness :
  let g := x_accepted x_new (bs "new") in
  let g' := x_stores.2.2 in
  let cm := s3_comm x_go x_env g (x_put x_new (bs "new")) None in
  ∃ m h placement c1,
    received x_go g None c1 = Ok (m, h) ∧
    GetHashForName (gcas g') (Name m) = Ok (Hash m) ∧
    (Hash m ≠ HashBytes [] →
       (GetHashForName (gcas g) (Name m) = Ok (Hash m) ∨
        HashBytes (concat (rd_chunks (limited (FSize m) (upload_payload g (x_put x_new (bs "new")) None)))) = Hash m) ∧
       (clean (gcas g) (Hash m) → ∃ body, blob_view (blobs (gcas g')) !! Hash m = Some body ∧ HashBytes body = Hash m)) ∧
    let eff := (select_mode (ex_daemon 2 3 2 (λ _, FwOk)) cm (gpeer g) 0 0).1 in
    Placement ex_score (ex_crush 3) (Hash m) (if eff =? ReplicationNone then 1 else 3) = Ok placement ∧
    (∀ t, t ∈ (fw_target <$> x_forwards) ↔ handed_to (IsExternalClient cm) eff 2 placement t) ∧
    ∀ f, f ∈ x_forwards → fw_name f = Name m ∧ fw_hash f = Hash m ∧ (FwOk = FwOk ∨ FwOk = FwPanic).
Proof.
  cbv zeta. apply (s3_upload_acknowledged x_go ex_score x_env (ex_daemon 2 3 2 (λ _, FwOk)) (x_put x_new (bs "new")) None 0 0 x_conn
           (x_accepted x_new (bs "new")) x_forwards x_stores.2.1 x_stores.2.2);
    [exact ex_node_refs|done|].
  assert (is_ok x_stores.1 = true ∧ match x_stores.1 with Ok (b, _) => b = true | Err _ => False end) as [E1 E2] by (by split; vm_compute).
  unfold x_forwards. change (run_upload x_go ex_score x_env (ex_daemon 2 3 2 (λ _, FwOk)) (x_put x_new (bs "new")) None 0 0
    (x_conn, x_accepted x_new (bs "new"))) with x_stores.
  revert E1 E2. generalize x_stores. intros [[[b fs]|er] [c' g']]; cbn [fst snd]; [|done]. by intros _ ->.
Defined.
