(* ===== verification/MomoFs.v ===== *)
(** * The file system over the store (src/src/momofs/momofs.go)

    Directories are manifests stored as objects under a digest of their path,
    files are objects under a digest of theirs.  An operation is a computation over
    the file system; [None] means that the recursion of a directory move ran out
    of fuel.  The decoder of [encoding/json] is an argument, its encoder is
    written out.  The lock of the file system makes each operation one step. *)
From S2P Require Import Prelude GoText Hashes Json Paths ObjectMeta BlobStore RawStore CasStore CasDigest CasTheorems Ingest S3Http.
Open Scope Z_scope.

Definition dirPrefix : bytes := bs "d-".
Definition filePrefix : bytes := bs "f-".
Definition manifestVersion : Z := 1.
Definition keyLen : nat := 48.
Definition DefaultMode : Z := 420.
Definition DefaultDirMode : Z := 493.

Inductive EntryType := EntryFile | EntryDir.
#[export] Instance EntryType_eq : EqDecision EntryType.
Proof. solve_decision. Defined.

Record Entry := mkEntry {
  EName : bytes; EType : EntryType; EMode : Z; EUID : Z; EGID : Z; ESize : Z; EMTime : Z; EHash : bytes; ObjName : bytes
}.

Record dirManifest := mkManifest { MVersion : Z; Entries : list Entry }.

(** ** Paths *)
Fixpoint bad_segment (segs : list bytes) : bool :=
  match segs with
  | [] => false
  | seg :: segs =>
      (negb (bool_decide (seg = [])) && negb (bool_decide (seg = [ch_dot]))
       && (bool_decide (seg = dotdot) || bool_decide (seg = [ch_space]) || contains_byte ch_backslash seg))
      || bad_segment segs
  end.

(** The loop over the slashes visits the segments in order. *)
Definition validateSegments (cleaned : bytes) : result unit :=
  if bad_segment (split_slash cleaned) then Err (Errno EINVAL) else Ok tt.

Definition normalizePath (p : bytes) : result bytes :=
  match p with
  | x :: _ =>
      if negb (bool_decide (x = ch_slash)) then Err (Errno EINVAL)
      else if contains_byte ch_nul p then Err (Errno EINVAL)
      else
        let cleaned := path_clean p in
        if decide (cleaned = [ch_dot]) then Err (Errno EINVAL)
        else let! _ := validateSegments cleaned in Ok cleaned
  | [] => Err (Errno EINVAL)
  end.

(** [path.Base] *)
Fixpoint drop_slashes (r : bytes) : bytes := match r with c :: r' => if decide (c = ch_slash) then drop_slashes r' else r | [] => [] end.
Definition path_base (p : bytes) : bytes :=
  match p with
  | [] => [ch_dot]
  | _ => let q := rev (drop_slashes (rev p)) in
         match drop (last_slash q) q with [] => [ch_slash] | b => b end
  end.
Definition parentBase (p : bytes) : bytes * bytes := (path_dir p, path_base p).

(** [path.Join] of two elements *)
Definition path_join (a b : bytes) : bytes :=
  match filter (λ x : bytes, x ≠ []) [a; b] with
  | [] => []
  | xs => path_clean (join_slash xs)
  end.

Definition objKey (p : bytes) : bytes := filePrefix ++ take keyLen (HashBytes p).
Definition dirKey (dirPath : bytes) : bytes := dirPrefix ++ take keyLen (HashBytes dirPath).
Definition isDirKey (name : bytes) : bool := has_prefix name dirPrefix.

(** ** Manifests as text *)
Definition type_code (t : EntryType) : Z := match t with EntryFile => 1 | EntryDir => 2 end.

Definition json_field (name : bytes) (value : bytes) : bytes := json_string name ++ bs ":" ++ value.

Definition marshal_entry (e : Entry) : bytes :=
  bs "{" ++ json_field (bs "n") (json_string (EName e)) ++ bs "," ++ json_field (bs "t") (append_int (type_code (EType e))) ++ bs ","
  ++ json_field (bs "m") (append_int (EMode e)) ++ bs "," ++ json_field (bs "u") (append_int (EUID e)) ++ bs ","
  ++ json_field (bs "g") (append_int (EGID e)) ++ bs "," ++ json_field (bs "s") (append_int (ESize e)) ++ bs ","
  ++ json_field (bs "mt") (append_int (EMTime e))
  ++ (if decide (EHash e = []) then [] else bs "," ++ json_field (bs "h") (json_string (EHash e))) ++ bs "}".

Fixpoint marshal_entries (es : list Entry) : bytes :=
  match es with
  | [] => []
  | [e] => marshal_entry e
  | e :: es => marshal_entry e ++ bs "," ++ marshal_entries es
  end.

Definition marshal (m : dirManifest) : bytes :=
  bs "{" ++ json_field (bs "v") (append_int (MVersion m)) ++ bs "," ++ json_field (bs "entries") (bs "[" ++ marshal_entries (Entries m) ++ bs "]") ++ bs "}".

Definition findEntry (m : dirManifest) (base : bytes) : option Entry := List.find (λ e, bool_decide (EName e = base)) (Entries m).
Definition removeEntry (es : list Entry) (base : bytes) : list Entry := filter (λ e, EName e ≠ base) es.

(** The first entry with the name is replaced, or the entry is added. *)
Fixpoint replace_entry (base : bytes) (mk : Entry → Entry) (es : list Entry) : option (list Entry) :=
  match es with
  | [] => None
  | e :: es => if decide (EName e = base) then Some (mk e :: es) else cons e <$> replace_entry base mk es
  end.

Definition metaToEntry (base : bytes) (m : FileMetadata) : Entry :=
  mkEntry base EntryFile DefaultMode 0 0 (FSize m) (ModTime m) (Hash m) (Name m).

Definition remoteForm (p : bytes) : bytes := trim_prefix p [ch_slash].

Definition mask (mode : Z) : Z := Z.land mode 4095.

Section FileSystem.
Context {B : Type} `{BlobStore B} (unmarshal : bytes → option dirManifest).

Record FS := mkFS {
  fstore : CASStore B;
  rootMode : Z;
  cached : gmap bytes (Entry * Z);
  ttl : Z;
  maxEntry : Z;
  idxTTL : Z;
  idxList : list FileMetadata;
  idxAt : option Z
}.

Definition New (store : CASStore B) : FS := mkFS store DefaultDirMode ∅ 0 (2 ^ 20) (10 ^ 9) [] None.

(** ** Computations *)
Definition F (A : Type) : Type := FS → option (result A * FS).
#[global] Instance F_ret : MRet F := λ A a f, Some (Ok a, f).
#[global] Instance F_bind : MBind F := λ A C k m f,
  match m f with
  | Some (Ok a, f) => k a f
  | Some (Err e, f) => Some (Err e, f)
  | None => None
  end.
Definition ffail {A} (e : error) : F A := λ f, Some (Err e, f).
Definition flift {A} (r : result A) : F A := λ f, Some (r, f).
Definition fget : F FS := λ f, Some (Ok f, f).
Definition fput (f : FS) : F unit := λ _, Some (Ok tt, f).
Definition catch {A} (m : F A) : F (result A) := λ f, match m f with Some (r, f) => Some (Ok r, f) | None => None end.

Definition with_fstore (s : CASStore B) (f : FS) : FS := mkFS s (rootMode f) (cached f) (ttl f) (maxEntry f) (idxTTL f) (idxList f) (idxAt f).
Definition with_cached (c : gmap bytes (Entry * Z)) (f : FS) : FS := mkFS (fstore f) (rootMode f) c (ttl f) (maxEntry f) (idxTTL f) (idxList f) (idxAt f).

Definition fs_put (name hash : bytes) (size : Z) (rp : bytes) (content : option reader) (now : Z) : F unit := λ f,
  let '(r, s) := Put (fstore f) name hash size rp content now in Some (r, with_fstore s f).
Definition fs_delete (name : bytes) (now : Z) : F unit := λ f,
  let '(r, s) := Delete (fstore f) name now in Some (r, with_fstore s f).
Definition fs_get (name : bytes) : F (reader * FileMetadata) := λ f, Some (Get (fstore f) name, f).
Definition uncache (p : bytes) : F unit := f ← fget; fput (with_cached (delete p (cached f)) f).

(** ** Manifests in the store *)
Definition decodeManifest (r : reader) : result dirManifest :=
  let! data := read_limited (2 ^ 20) r in
  match unmarshal data with
  | None => Err ErrPlain
  | Some m => if decide (MVersion m = manifestVersion) then Ok m else Err (Errno EINVAL)
  end.

Definition manifestFromEntry (dirPath : bytes) : F dirManifest :=
  x ← fs_get (dirKey dirPath); flift (decodeManifest x.1).

(** A cached entry is used only when it is a directory. *)
Definition cached_dir (f : FS) (dirPath : bytes) (now : Z) : bool :=
  (0 <? ttl f) && match cached f !! dirPath with Some (e, at_) => (now - at_ <? ttl f) && bool_decide (EType e = EntryDir) | None => false end.

Definition readManifest (dirPath : bytes) (now : Z) : F dirManifest :=
  f ← fget;
  if cached_dir f dirPath now then manifestFromEntry dirPath
  else
    o ← catch (fs_get (dirKey dirPath));
    match o with
    | Ok (rc, _) => flift (decodeManifest rc)
    | Err er =>
        if decide (dirPath = [ch_slash] ∧ er = Errno ENOENT) then mret (mkManifest manifestVersion []) else ffail er
    end.

Definition writeManifest (dirPath : bytes) (m : dirManifest) (now : Z) : F unit :=
  let data := marshal m in
  f ← fget;
  if maxEntry f <? Z.of_nat (length data) then ffail (Errno EFBIG)
  else fs_put (dirKey dirPath) (HashBytes data) (Z.of_nat (length data)) [] (Some (reader_of data)) now.

Definition entryIn (dirPath base : bytes) (now : Z) : F Entry :=
  m ← readManifest dirPath now;
  match findEntry m base with Some e => mret e | None => ffail (Errno ENOENT) end.

Definition cacheEntry (p : bytes) (e : Entry) (now : Z) : F unit :=
  f ← fget;
  if ttl f <=? 0 then mret tt else fput (with_cached (<[p := (e, now)]> (cached f)) f).

(** ** The index of the store *)
Definition native_object (m : FileMetadata) : bool := negb (isDirKey (Name m) || has_prefix (Name m) filePrefix).

Definition storeObjects (now : Z) : F (list FileMetadata) :=
  f ← fget;
  if (0 <? idxTTL f) && match idxAt f with Some at_ => now - at_ <? idxTTL f | None => false end then mret (idxList f)
  else match List (fstore f) with
       | Err er => ffail er
       | Ok ms =>
           let out := filter (λ m, native_object m = true) ms in
           fput (mkFS (fstore f) (rootMode f) (cached f) (ttl f) (maxEntry f) (idxTTL f) out (Some now));;
           mret out
       end.

(** The index, empty when it cannot be read. *)
Definition index (now : Z) : F (list FileMetadata) := o ← catch (storeObjects now); mret (match o with Ok l => l | Err _ => [] end).

Definition storeMetaByPath (p : bytes) (now : Z) : F (option FileMetadata) :=
  objs ← index now; mret (List.find (λ m, bool_decide (RemotePath m = remoteForm p)) objs).

Definition storePathIsAncestorOfObject (p : bytes) (now : Z) : F bool :=
  objs ← index now; mret (existsb (λ m, has_prefix (RemotePath m) (remoteForm p ++ [ch_slash])) objs).

(** The part of an object's path below [prefix]: its first segment and whether
    more follows. *)
Definition child_of (prefix rp : bytes) : option (bytes * bool) :=
  if bool_decide (rp = []) || (negb (bool_decide (prefix = [])) && negb (has_prefix rp prefix)) then None
  else
    let rest := if decide (prefix = []) then rp else trim_prefix rp prefix in
    match index_byte ch_slash rest with
    | Some i => if decide (take i rest = []) then None else Some (take i rest, true)
    | None => if decide (rest = []) then None else Some (rest, false)
    end.

Definition add_child (prefix : bytes) (children : gmap bytes Entry) (m : FileMetadata) : gmap bytes Entry :=
  match child_of prefix (RemotePath m) with
  | None => children
  | Some (seg, isSub) =>
      match children !! seg with
      | Some existing =>
          if decide (EType existing = EntryFile) then children
          else if isSub : bool then children else <[seg := metaToEntry seg m]> children
      | None => <[seg := if isSub : bool then mkEntry seg EntryDir DefaultDirMode 0 0 0 0 [] [] else metaToEntry seg m]> children
      end
  end.

Definition children_prefix (p : bytes) : bytes := match remoteForm p with [] => [] | canon => canon ++ [ch_slash] end.
Definition storeChildren (p : bytes) (now : Z) : F (gmap bytes Entry) :=
  objs ← index now; mret (foldl (add_child (children_prefix p)) ∅ objs).

(** ** Operations *)
Definition lookupLocked (p : bytes) (now : Z) : F Entry :=
  p ← flift (normalizePath p);
  f ← fget;
  if decide (p = [ch_slash]) then mret (mkEntry [ch_slash] EntryDir (rootMode f) 0 0 0 now [] [])
  else
    let '(parent, base) := parentBase p in
    o ← catch (entryIn parent base now);
    match o with
    | Ok e => mret e
    | Err _ =>
        o ← storeMetaByPath p now;
        match o with
        | Some meta => cacheEntry p (metaToEntry base meta) now;; mret (metaToEntry base meta)
        | None =>
            anc ← storePathIsAncestorOfObject p now;
            if anc : bool then mret (mkEntry base EntryDir DefaultDirMode 0 0 0 0 [] []) else ffail (Errno ENOENT)
        end
    end.

Definition Lookup := lookupLocked.
Definition GetAttr := Lookup.

Definition set_root (mode : Z) : F unit :=
  f ← fget; fput (mkFS (fstore f) mode (cached f) (ttl f) (maxEntry f) (idxTTL f) (idxList f) (idxAt f)).

Definition set_attrs (mode uid gid mtime : option Z) (e : Entry) : Entry :=
  mkEntry (EName e) (EType e) (match mode with Some m => mask m | None => EMode e end) (default (EUID e) uid) (default (EGID e) gid)
    (ESize e) (default (EMTime e) mtime) (EHash e) (ObjName e).

Definition SetAttr (p : bytes) (mode uid gid mtime : option Z) (now : Z) : F Entry :=
  p ← flift (normalizePath p);
  if decide (p = [ch_slash]) then
    f ← fget;
    let newMode := match mode with Some m => mask m | None => rootMode f end in
    set_root newMode;; mret (mkEntry [ch_slash] EntryDir newMode 0 0 0 now [] [])
  else
    let '(parent, base) := parentBase p in
    m ← readManifest parent now;
    match findEntry m base with
    | None => ffail (Errno ENOENT)
    | Some e =>
        let es := default (Entries m) (replace_entry base (set_attrs mode uid gid mtime) (Entries m)) in
        writeManifest parent (mkManifest (MVersion m) es) now;;
        uncache p;;
        mret (set_attrs mode uid gid mtime e)
    end.

Definition name_less (a b : Entry) : bool := bytes_ltb (EName a) (EName b).

Definition ReadDir (p : bytes) (now : Z) : F (list Entry) :=
  p ← flift (normalizePath p);
  o ← catch (readManifest p now);
  match o with
  | Err er => if decide (er = Errno ENOENT) then
                children ← storeChildren p now;
                mret (stable_sort name_less (snd <$> cursor children))
              else ffail er
  | Ok m =>
      children ← storeChildren p now;
      let extra := filter (λ kv : bytes * Entry, kv.1 ∉ map EName (Entries m)) (cursor children) in
      mret (stable_sort name_less (Entries m ++ (snd <$> extra)))
  end.

Definition mkdirLocked (p : bytes) (mode now : Z) : F unit :=
  p ← flift (normalizePath p);
  if decide (p = [ch_slash]) then ffail (Errno EEXIST)
  else
    let '(parent, base) := parentBase p in
    pm ← readManifest parent now;
    match findEntry pm base with
    | Some _ => ffail (Errno EEXIST)
    | None =>
        writeManifest parent (mkManifest (MVersion pm) (Entries pm ++ [mkEntry base EntryDir (mask mode) 0 0 0 now [] []])) now;;
        writeManifest p (mkManifest manifestVersion []) now;;
        uncache p
    end.
Definition Mkdir := mkdirLocked.

(** The entries of the parent after a file of [size] and [hash] was written. *)
Definition created (es : list Entry) (base : bytes) (mode size now : Z) (hash : bytes) : list Entry :=
  default (es ++ [mkEntry base EntryFile mode 0 0 size now hash []])
    (replace_entry base (λ e, mkEntry base EntryFile mode (EUID e) (EGID e) size now hash []) es).

Definition Create (p : bytes) (mode : Z) (content : reader) (now : Z) : F (Z * bytes) :=
  p ← flift (normalizePath p);
  let '(parent, base) := parentBase p in
  pm ← readManifest parent now;
  match findEntry pm base with
  | Some (mkEntry _ EntryDir _ _ _ _ _ _ _) => ffail (Errno EISDIR)
  | _ =>
      data ← flift (read_limited (MaxFileSize + 1) content);
      if MaxFileSize <? Z.of_nat (length data) then ffail (Errno EFBIG)
      else
        let hash := HashBytes data in
        let size := Z.of_nat (length data) in
        fs_put (objKey p) hash size p (Some (reader_of data)) now;;
        writeManifest parent (mkManifest (MVersion pm) (created (Entries pm) base (mask mode) size now hash)) now;;
        uncache p;;
        mret (size, hash)
  end.

(** The key of the object is computed from the path as it was given. *)
Definition Open (p : bytes) (now : Z) : F (reader * Entry) :=
  e ← lookupLocked p now;
  if negb (bool_decide (EType e = EntryFile)) then ffail (Errno EISDIR)
  else
    x ← fs_get (if decide (ObjName e = []) then objKey p else ObjName e);
    mret (x.1, mkEntry (EName e) EntryFile (EMode e) (EUID e) (EGID e) (ESize e) (EMTime e) (Hash x.2) []).

(** The bytes read and whether the end was reported. *)
Definition ReadAt (p : bytes) (off : Z) (n : nat) (now : Z) : F (bytes * bool) :=
  if off <? 0 then ffail (Errno EINVAL)
  else
    x ← Open p now;
    let '(rc, e) := x in
    if ESize e <=? off then mret ([], true)
    else
      let c := concat (rd_chunks rc) in
      let rest := drop (Z.to_nat off) c in
      if (length c <? Z.to_nat off)%nat
      then match rd_err rc with Some er => ffail er | None => mret ([], false) end
      else if (length rest <? n)%nat
           then match rd_err rc with Some er => ffail er | None => mret (rest, false) end
           else mret (take n rest, false).

Definition Remove (p : bytes) (now : Z) : F unit :=
  p ← flift (normalizePath p);
  if decide (p = [ch_slash]) then ffail (Errno EBUSY)
  else
    let '(parent, base) := parentBase p in
    m ← readManifest parent now;
    match findEntry m base with
    | None => ffail (Errno ENOENT)
    | Some e =>
        (if decide (EType e = EntryDir) then
           cm ← readManifest p now;
           if negb (bool_decide (Entries cm = [])) then ffail (Errno ENOTEMPTY) else fs_delete (dirKey p) now
         else fs_delete (objKey p) now);;
        writeManifest parent (mkManifest (MVersion m) (removeEntry (Entries m) base)) now;;
        uncache p
    end.

(** The file object of a path moves to another key. *)
Definition move_object (src dst : bytes) (e : Entry) (now : Z) : F unit :=
  fs_put (objKey dst) (EHash e) (ESize e) dst None now;; fs_delete (objKey src) now.

Fixpoint rewriteSubtree (fuel : nat) (oldRoot newRoot : bytes) (now : Z) : F unit :=
  match fuel with
  | O => λ _, None
  | S fuel =>
      srcMan ← readManifest oldRoot now;
      let data := marshal srcMan in
      fs_put (dirKey newRoot) (HashBytes data) (Z.of_nat (length data)) [] (Some (reader_of data)) now;;
      fs_delete (dirKey oldRoot) now;;
      (fix children (es : list Entry) : F unit :=
         match es with
         | [] => mret tt
         | e :: es =>
             let oldChild := path_join oldRoot (EName e) in
             let newChild := path_join newRoot (EName e) in
             (match EType e with
              | EntryFile => move_object oldChild newChild e now
              | EntryDir => rewriteSubtree fuel oldChild newChild now
              end);;
             children es
         end) (Entries srcMan)
  end.

(** The object of an existing target of a move is dropped. *)
Definition drop_target (dParent dBase dst : bytes) (t : EntryType) (now : Z) : F unit :=
  o ← catch (readManifest dParent now);
  match o with
  | Err _ => mret tt
  | Ok dm =>
      match findEntry dm dBase with
      | None => mret tt
      | Some existing =>
          if negb (bool_decide (EType existing = t)) then ffail (Errno EINVAL)
          else match EType existing with EntryFile => fs_delete (objKey dst) now | EntryDir => fs_delete (dirKey dst) now end
      end
  end.

Definition Rename (fuel : nat) (src dst : bytes) (now : Z) : F unit :=
  src ← flift (normalizePath src);
  dst ← flift (normalizePath dst);
  if decide (src = [ch_slash] ∨ dst = [ch_slash]) then ffail (Errno EINVAL)
  else
    let '(sParent, sBase) := parentBase src in
    let '(dParent, dBase) := parentBase dst in
    sm ← readManifest sParent now;
    match findEntry sm sBase with
    | None => ffail (Errno ENOENT)
    | Some e =>
        let moved := mkEntry dBase (EType e) (EMode e) (EUID e) (EGID e) (ESize e) (EMTime e) (EHash e) (ObjName e) in
        (if decide (EType e = EntryDir) then rewriteSubtree fuel src dst now else mret tt);;
        drop_target dParent dBase dst (EType e) now;;
        (if decide (EType e = EntryFile) then move_object src dst e now else mret tt);;
        (if decide (dParent = sParent) then
           m ← readManifest sParent now;
           writeManifest sParent (mkManifest (MVersion m) (removeEntry (removeEntry (Entries m) sBase) dBase ++ [moved])) now
         else
           dm ← readManifest dParent now;
           writeManifest dParent (mkManifest (MVersion dm) (removeEntry (Entries dm) dBase ++ [moved])) now;;
           writeManifest sParent (mkManifest (MVersion sm) (removeEntry (Entries sm) sBase)) now);;
        uncache src;; uncache dst
    end.

Definition Link (src dst : bytes) (now : Z) : F unit :=
  src ← flift (normalizePath src);
  dst ← flift (normalizePath dst);
  let '(sParent, sBase) := parentBase src in
  sm ← readManifest sParent now;
  match findEntry sm sBase with
  | None => ffail (Errno ENOENT)
  | Some e =>
      if negb (bool_decide (EType e = EntryFile)) then ffail (Errno EPERM)
      else
        let '(dParent, dBase) := parentBase dst in
        dm ← readManifest dParent now;
        match findEntry dm dBase with
        | Some _ => ffail (Errno EEXIST)
        | None =>
            fs_put (objKey dst) (EHash e) (ESize e) dst None now;;
            writeManifest dParent (mkManifest (MVersion dm)
              (Entries dm ++ [mkEntry dBase EntryFile (EMode e) (EUID e) (EGID e) (ESize e) (EMTime e) (EHash e) []])) now;;
            uncache dst
        end
  end.
End FileSystem.

(** * Theorems *)

(** ** Paths *)
Lemma clean_step_rooted (P : bytes → Prop) segs : ∀ stack, Forall real_seg stack → Forall P stack → Forall P segs →
  Forall real_seg (foldl (clean_step true) stack segs) ∧ Forall P (foldl (clean_step true) stack segs).
Proof.
  induction segs as [|s segs IH]; intros stack H1 H2 H3; [done|]. cbn [foldl]. inversion H3 as [|? ? Hs Hsegs]; subst.
  unfold clean_step at 2 4. case_decide as E1; [by apply IH|]. case_decide as E2.
  - destruct stack as [|top stack]; [by apply IH|]. inversion H1 as [|? ? Ht H1']; inversion H2 as [|? ? Hs' H2']; subst.
    rewrite decide_False by apply Ht. by apply IH.
  - apply IH; [|by constructor|done]. constructor; [|done]. split_and!; [intros ->; tauto|intros ->; tauto|done].
Qed.

(** A rooted path is cleaned to real segments, whose bytes are those of the path. *)
Lemma clean_rooted p : ∃ segs, path_clean (ch_slash :: p) = ch_slash :: join_slash segs ∧ Forall real_seg segs
  ∧ Forall (λ seg, ch_slash ∉ seg) segs ∧ ∀ b, b ∈ ch_slash :: join_slash segs → b ∈ ch_slash :: p.
Proof.
  unfold path_clean. rewrite bool_decide_eq_true_2 by done.
  destruct (clean_step_rooted (λ seg, ch_slash ∉ seg ∧ ∀ b, b ∈ seg → b ∈ ch_slash :: p) (split_slash (ch_slash :: p)) []) as [H1 H2]; [done|done| |].
  { apply Forall_and. split; [apply split_slash_no_slash|]. apply Forall_forall. intros seg Hseg b Hb. by eapply split_slash_elem. }
  apply Forall_rev in H1, H2. eexists. split; [reflexivity|]. apply Forall_and in H2 as [H2 H3]. split_and!; [done|done|].
  intros b [->|Hb]%elem_of_cons; [by left|]. apply join_slash_elem in Hb as [->|(seg & Hin & Hb)]; [by left|].
  rewrite Forall_forall in H3. by eapply H3.
Qed.

Lemma split_rooted segs : Forall (λ seg, ch_slash ∉ seg) segs → split_slash (ch_slash :: join_slash segs) = [] :: match segs with [] => [[]] | _ => segs end.
Proof.
  intros Hs. cbn [split_slash]. rewrite decide_True by done. f_equal. destruct segs as [|s segs]; [done|]. by apply split_join.
Qed.

Lemma clean_join segs : Forall real_seg segs → Forall (λ seg, ch_slash ∉ seg) segs → path_clean (ch_slash :: join_slash segs) = ch_slash :: join_slash segs.
Proof.
  intros Hr Hs. rewrite path_clean_no_dotdot.
  - rewrite decide_True by done. do 2 f_equal. rewrite split_rooted by done. rewrite filter_cons_False by (by intros [? _]).
    destruct segs as [|s segs]; [done|]. by apply filter_all.
  - rewrite split_rooted by done. constructor; [done|]. destruct segs; [by repeat constructor|]. eapply Forall_impl; [exact Hr|]. by intros x (_ & _ & ?).
Qed.

(** An accepted path is clean: it is rooted, has no empty, dot or dot-dot segment
    and no backslash, and normalising it again changes nothing. *)
Theorem normalizePath_clean p q :
  normalizePath p = Ok q →
  ∃ segs, q = ch_slash :: join_slash segs ∧ Forall real_seg segs ∧ Forall (λ seg, ch_slash ∉ seg ∧ ch_backslash ∉ seg) segs ∧ normalizePath q = Ok q.
Proof.
  unfold normalizePath at 1. destruct p as [|x p]; [discriminate|]. case_bool_decide as Hx; [subst x|discriminate]. cbn [negb].
  destruct (contains_byte ch_nul _) eqn:En; [discriminate|].
  destruct (clean_rooted p) as (segs & Ec & Hr & Hs & Hbytes). rewrite Ec. rewrite decide_False by done.
  unfold validateSegments. destruct (bad_segment _) eqn:Eb; [discriminate|]. intros [= <-]. exists segs.
  assert (∀ l, bad_segment l = false → Forall real_seg l → Forall (λ seg, ch_backslash ∉ seg) l) as Hb.
  { induction l as [|seg l IH]; [constructor|]. cbn [bad_segment]. intros [H1 H2]%orb_false_iff Hl. inversion Hl as [|? ? (R1 & R2 & R3)]; subst.
    constructor; [|by apply IH]. rewrite !bool_decide_eq_false_2 in H1 by done. cbn [negb andb orb] in H1.
    destruct (bool_decide (seg = [ch_space])); [discriminate|]. cbn [orb] in H1. rewrite contains_byte_spec in H1. by apply bool_decide_eq_false in H1. }
  split_and!; [done|done| |].
  - rewrite split_rooted in Eb by done. cbn [bad_segment] in Eb. rewrite bool_decide_eq_true_2 in Eb by done. cbn [negb andb orb] in Eb.
    destruct segs as [|s segs]; [constructor|]. specialize (Hb _ Eb Hr). apply Forall_and. by split.
  - unfold normalizePath. rewrite bool_decide_eq_true_2 by done. cbn [negb].
    rewrite contains_byte_spec, bool_decide_eq_false_2, clean_join by (done || (intros Hnul%Hbytes; by rewrite contains_byte_spec, bool_decide_eq_true_2 in En)).
    rewrite decide_False by done. unfold validateSegments. by rewrite Eb.
Qed.

(** ** A file that was written is read back *)
Lemma created_find es base mode size now hash :
  ∃ e, findEntry (mkManifest manifestVersion (created es base mode size now hash)) base = Some e
    ∧ EName e = base ∧ EType e = EntryFile ∧ EMode e = mode ∧ ESize e = size ∧ EHash e = hash ∧ ObjName e = [].
Proof.
  unfold created. set (mk := λ e, mkEntry base EntryFile mode (EUID e) (EGID e) size now hash []). unfold findEntry. cbn [Entries].
  assert (∀ es', replace_entry base mk es = Some es' → ∃ e0, List.find (λ e, bool_decide (EName e = base)) es' = Some (mk e0)) as Hs.
  { induction es as [|e es IH]; [done|]. cbn [replace_entry]. case_decide as E.
    - intros es' [= <-]. exists e. cbn. by rewrite bool_decide_eq_true_2.
    - intros es'. destruct (replace_entry base mk es) as [l|]; [|done]. cbn. intros [= <-]. cbn. rewrite bool_decide_eq_false_2 by done. by apply IH. }
  assert (replace_entry base mk es = None → ∀ x, EName x = base → List.find (λ e, bool_decide (EName e = base)) (es ++ [x]) = Some x) as Hn.
  { intros Hr x Hx. clear Hs. induction es as [|e es IH]; [cbn; by rewrite bool_decide_eq_true_2|]. cbn [replace_entry] in Hr.
    case_decide as E; [done|]. cbn. rewrite bool_decide_eq_false_2 by done. apply IH. by destruct (replace_entry base mk es). }
  destruct (replace_entry base mk es) as [es'|]; cbn [default].
  - destruct (Hs es' eq_refl) as [e0 He]. exists (mk e0). by split_and!.
  - eexists. split; [by apply Hn|]. by split_and!.
Qed.

Section FileTheorems.
Context {B : Type} `{Hspec : BlobStoreSpec B} (unmarshal : bytes → option dirManifest).
Implicit Types (s : CASStore B) (f : FS (B := B)).

(** The store is intact at the digest of [x], holds nothing but [x] under it, if
    anything, and [k] references can still be counted. *)
Record holds_only s (x : bytes) (k : Z) : Prop := {
  ho_intact : intact s (HashBytes x);
  ho_only : ∀ y, blob_view (blobs s) !! HashBytes x = Some y → y = x;
  ho_refs : refcount (db s) (HashBytes x) < MaxInt64 - k
}.

Lemma Put_refcount s name hash size rp content now h :
  intact s h → is_int64 size → 0 <= size → refcount (db s) h < MaxInt64 →
  refcount (db (Put s name hash size rp content now).2) h <= refcount (db s) h + 1.
Proof.
  intros Hi Hs H0 Hm. unfold Put, PutWithMetadata. destruct (HasPathTraversalChars hash); [cbn; lia|].
  destruct (put_blob_phase s hash content) as [res s0] eqn:Ep. apply phase_spec in Ep as (Hd & _); [|apply Hi].
  destruct res; [|cbn; rewrite Hd; lia]. rewrite Hd. destruct (put_tx _ _ _ _ _ _ _ _ _) as [d|] eqn:Et; [|cbn; rewrite Hd; lia].
  cbn [snd db invalidateCache with_cache with_db]. destruct (decide (hash = h)) as [->|Hne].
  - destruct (put_tx_record _ _ _ _ _ _ _ _ _ _ Et (in_rec s h Hi) Hs H0 Hm) as (v & m & Ho & Hdec & _ & Hrc & _); [by split_and!|].
    unfold refcount at 1. rewrite Ho, Hdec. lia.
  - apply put_tx_shape in Et as (v & p & -> & _). unfold refcount at 1. cbn [objects]. rewrite lookup_insert_ne by done. fold (refcount (db s) h). lia.
Qed.

Lemma Put_holds s name c size rp now s' res x k :
  holds_only s x (k + 1) → (HashBytes c = HashBytes x → c = x) → 0 <= k → is_int64 size → 0 <= size →
  Put s name (HashBytes c) size rp (Some (reader_of c)) now = (res, s') → holds_only s' x k.
Proof.
  intros [Hi Ho Hr] Hc Hk Hs H0 Hp.
  assert (read_all (reader_of c) = Ok c) as Hread by (unfold read_all; cbn; by rewrite app_nil_r).
  assert (s' = (Put s name (HashBytes c) size rp (Some (reader_of c)) now).2) as -> by (by rewrite Hp). clear Hp. split.
  - apply put_intact; [done|]. intros E. split_and!; [done|done|lia|by split_and!|]. intros _. exists (reader_of c). split; [done|].
    intros c'. rewrite Hread. intros [= <-]. exact E.
  - intros y Hy. destruct (decide (HashBytes c = HashBytes x)) as [E|Hne].
    + unfold Put in Hy. rewrite E in Hy.
      destruct (put_own s name (HashBytes x) size rp (Some (reader_of c)) [] [] [] now (intact_kept _ _ Hi)) as (_ & _ & V).
      { split_and!; [done|done|lia|by split_and!|eauto]. }
      destruct V as [V|(_ & r & c' & [= <-] & Hr' & V)]; rewrite V in Hy; [by apply Ho|].
      rewrite Hread in Hr'. injection Hr' as <-. injection Hy as <-. exact (Hc E).
    + destruct (put_other s name (HashBytes c) size rp (Some (reader_of c)) [] [] [] now (HashBytes x) (in_blob _ _ Hi) Hne) as (_ & _ & V & _).
      unfold Put in Hy. rewrite V in Hy. by apply Ho.
  - pose proof (Put_refcount s name (HashBytes c) size rp (Some (reader_of c)) now (HashBytes x) Hi Hs H0 ltac:(lia)). lia.
Qed.

Lemma Put_names s name hash size rp content now s' n :
  blob_inv (blobs s) → Put s name hash size rp content now = (Ok tt, s') → n ≠ name → GetHashForName s' n = GetHashForName s n.
Proof.
  intros Hb Hp Hn. unfold Put, PutWithMetadata in Hp. destruct (HasPathTraversalChars _); [discriminate|].
  destruct (put_blob_phase s hash content) as [res s0] eqn:Ep. apply phase_spec in Ep as (Hd & _); [|done].
  destruct res; [|discriminate]. rewrite Hd in Hp. destruct (put_tx _ _ _ _ _ _ _ _ _) as [d|] eqn:Et; [|discriminate]. injection Hp as <-.
  apply put_tx_shape in Et as (v & p & -> & _). unfold GetHashForName. cbn [db invalidateCache with_cache with_db tombstones namespace].
  by rewrite lookup_delete_ne, lookup_insert_ne by done.
Qed.

Lemma holds_Get s k name c :
  holds_only s c k → c ≠ [] → GetHashForName s name = Ok (HashBytes c) →
  ∃ meta, Get s name = Ok (Reader [c] None, meta) ∧ Hash meta = HashBytes c.
Proof.
  intros [Hi Ho _] Hne Hg. destruct (intact_mapped s _ name Hi Hg) as (c' & meta & Hv & Hh & Hb & Hq & Hm & _ & Hmh & _).
  pose proof (Ho c' Hv) as ->. exists meta. split; [|exact Hmh].
  unfold Get, openVerifiedBlob. rewrite Hg, (Hb Hne), Hq, Hm. unfold verifying_reader. rewrite (decide_True _ _ Hh). by destruct (VerifyOnRead s).
Qed.

Lemma readManifest_stored f d now rc meta :
  Get (fstore f) (dirKey d) = Ok (rc, meta) → readManifest unmarshal d now f = Some (decodeManifest unmarshal rc, f).
Proof.
  intros Hg. unfold readManifest, manifestFromEntry, mbind, F_bind, fget, catch, fs_get.
  destruct (cached_dir f d now); cbv beta; rewrite Hg; reflexivity.
Qed.

Lemma readManifest_version f d now m f' : readManifest unmarshal d now f = Some (Ok m, f') → MVersion m = manifestVersion.
Proof.
  assert (∀ rc, decodeManifest unmarshal rc = Ok m → MVersion m = manifestVersion) as Hd.
  { intros rc. unfold decodeManifest. destruct (read_limited _ rc); [|done]. destruct (unmarshal _); [|done]. case_decide; [|done]. by intros [= <-]. }
  unfold readManifest, manifestFromEntry, mbind, F_bind, fget, catch, fs_get, flift.
  destruct (cached_dir f d now); cbv beta; destruct (Get (fstore f) (dirKey d)) as [[rc meta]|er].
  - intros [= E _]. by apply (Hd rc).
  - discriminate.
  - intros [= E _]. by apply (Hd rc).
  - case_decide; [|discriminate]. by intros [= <- _].
Qed.
Lemma marshal_ne m : marshal m ≠ [].
Proof. done. Qed.

Lemma key_ne p d : objKey p ≠ dirKey d.
Proof. unfold objKey, dirKey. discriminate. Qed.

Lemma decode_stored m : unmarshal (marshal m) = Some m → MVersion m = manifestVersion → Z.of_nat (length (marshal m)) <= 2 ^ 20 →
  decodeManifest unmarshal (Reader [marshal m] None) = Ok m.
Proof.
  intros Hu Hv Hl. unfold decodeManifest, read_limited, read_all. cbn [rd_chunks rd_err concat]. rewrite app_nil_r.
  assert (take (Z.to_nat (2 ^ 20)) (marshal m) = marshal m) as Ht by (apply take_ge; lia).
  destruct (Z.of_nat (length (marshal m)) <? 2 ^ 20); rewrite ?Ht, Hu, decide_True by exact Hv; reflexivity.
Qed.

(** The entries of the parent after [Create]. *)
Definition parent_after (pm : dirManifest) (base : bytes) (mode now : Z) (data : bytes) : dirManifest :=
  mkManifest (MVersion pm) (created (Entries pm) base (mask mode) (Z.of_nat (length data)) now (HashBytes data)).

Lemma Create_run p data mode now f pm s1 s2 :
  normalizePath p = Ok p → readManifest unmarshal (path_dir p) now f = Some (Ok pm, f) →
  (∀ e, findEntry pm (path_base p) = Some e → EType e = EntryFile) → Z.of_nat (length data) <= MaxFileSize →
  let pm' := parent_after pm (path_base p) mode now data in
  Z.of_nat (length (marshal pm')) <= maxEntry f →
  Put (fstore f) (objKey p) (HashBytes data) (Z.of_nat (length data)) p (Some (reader_of data)) now = (Ok tt, s1) →
  Put s1 (dirKey (path_dir p)) (HashBytes (marshal pm')) (Z.of_nat (length (marshal pm'))) [] (Some (reader_of (marshal pm'))) now = (Ok tt, s2) →
  Create unmarshal p mode (reader_of data) now f
  = Some (Ok (Z.of_nat (length data), HashBytes data), with_cached (delete p (cached f)) (with_fstore s2 f)).
Proof.
  intros Hp Hm Hd Hl pm' Hml H1 H2. unfold Create, parentBase.
  unfold mbind at 1, F_bind at 1, flift at 1. rewrite Hp. cbv beta iota zeta.
  unfold mbind at 1, F_bind at 1. rewrite Hm. cbv beta iota.
  set (k := flift (read_limited _ _) ≫= _).
  assert (k f = Some (Ok (Z.of_nat (length data), HashBytes data), with_cached (delete p (cached f)) (with_fstore s2 f))) as Hk.
  { unfold k. unfold mbind at 1, F_bind at 1, flift at 1.
    assert (read_limited (MaxFileSize + 1) (reader_of data) = Ok data) as ->.
    { unfold read_limited, read_all. cbn [reader_of rd_chunks rd_err concat]. rewrite app_nil_r. by rewrite (proj2 (Z.ltb_lt _ _)) by lia. }
    cbv beta iota zeta. rewrite (proj2 (Z.ltb_ge _ _)) by exact Hl.
    unfold mbind at 1, F_bind at 1, fs_put at 1. rewrite H1. cbv beta iota.
    unfold mbind at 1, F_bind at 1, writeManifest, fget, mbind at 1, F_bind at 1. cbv beta iota zeta.
    fold (parent_after pm (path_base p) mode now data). fold pm'. change (maxEntry (with_fstore s1 f)) with (maxEntry f).
    rewrite (proj2 (Z.ltb_ge _ _)) by exact Hml. unfold fs_put. change (fstore (with_fstore s1 f)) with s1. rewrite H2. reflexivity. }
  destruct (findEntry pm (path_base p)) as [[? t ? ? ? ? ? ? ?]|]; [|exact Hk]. specialize (Hd _ eq_refl). cbn in Hd. subst t. exact Hk.
Qed.

(** C16: A file is read back as it was written.  For a clean path whose parent
    directory can be read and where no directory stands in the way, once the store
    has accepted the content and the parent's new manifest, [Create] succeeds and
    [Open] at any later time streams exactly the content to a clean end, with its
    size, digest, name and mode.  Conditions: the content is at most MaxFileSize,
    the manifest at most the manifest limit, which is at most 1 MiB (the default),
    the JSON decoder reads the manifest's own encoding back, the content is not
    empty (a backend need not serve an empty blob), and for the digests of the
    content and of the manifest the store is intact (its names are counted, what is
    recorded is stored, there is no quarantine mark), holds no other content and
    has room for two more references; content and manifest do not collide with each
    other.  The read is the store's own, without the repair from other nodes. *)
Theorem create_open p data mode now f pm s1 s2 :
  normalizePath p = Ok p → p ≠ [ch_slash] → is_int64 now →
  readManifest unmarshal (path_dir p) now f = Some (Ok pm, f) →
  (∀ e, findEntry pm (path_base p) = Some e → EType e = EntryFile) → Z.of_nat (length data) <= MaxFileSize →
  let pm' := parent_after pm (path_base p) mode now data in
  Z.of_nat (length (marshal pm')) <= maxEntry f → maxEntry f <= 2 ^ 20 → unmarshal (marshal pm') = Some pm' →
  data ≠ [] →
  holds_only (fstore f) data 2 → holds_only (fstore f) (marshal pm') 2 →
  (HashBytes data = HashBytes (marshal pm') → data = marshal pm') →
  Put (fstore f) (objKey p) (HashBytes data) (Z.of_nat (length data)) p (Some (reader_of data)) now = (Ok tt, s1) →
  Put s1 (dirKey (path_dir p)) (HashBytes (marshal pm')) (Z.of_nat (length (marshal pm'))) [] (Some (reader_of (marshal pm'))) now = (Ok tt, s2) →
  ∃ f', Create unmarshal p mode (reader_of data) now f = Some (Ok (Z.of_nat (length data), HashBytes data), f') ∧
  ∀ later, ∃ e, Open unmarshal p later f' = Some (Ok (Reader [data] None, e), f')
     ∧ EName e = path_base p ∧ ESize e = Z.of_nat (length data) ∧ EHash e = HashBytes data ∧ EMode e = mask mode.
Proof.
  intros Hp Hroot Hnow Hm Hd Hl pm' Hml Hmax Hu Hne Hr Hr' Hcol H1 H2. set (f' := with_cached (delete p (cached f)) (with_fstore s2 f)).
  exists f'. split; [by apply (Create_run p data mode now f pm s1 s2)|]. intros later.
  assert (is_int64 (Z.of_nat (length data))) as I1 by (unfold is_int64, MaxFileSize in *; lia).
  assert (is_int64 (Z.of_nat (length (marshal pm')))) as I2 by (unfold is_int64; lia).
  pose proof (Put_holds _ _ _ _ _ _ _ _ data 1 Hr (λ _, eq_refl) ltac:(lia) I1 ltac:(lia) H1) as Hr1.
  pose proof (Put_holds _ _ _ _ _ _ _ _ (marshal pm') 1 Hr' Hcol ltac:(lia) I1 ltac:(lia) H1) as Hr1'.
  pose proof (Put_holds _ _ _ _ _ _ _ _ data 0 Hr1 (λ E, eq_sym (Hcol (eq_sym E))) ltac:(lia) I2 ltac:(lia) H2) as Hr2.
  pose proof (Put_holds _ _ _ _ _ _ _ _ (marshal pm') 0 Hr1' (λ _, eq_refl) ltac:(lia) I2 ltac:(lia) H2) as Hr2'.
  destruct (put_visible _ _ _ _ _ _ _ _ _ _ _ H1 Hnow) as [G1 _]. destruct (put_visible _ _ _ _ _ _ _ _ _ _ _ H2 Hnow) as [G2 _].
  rewrite <- (Put_names _ _ _ _ _ _ _ _ (objKey p) (in_blob _ _ (ho_intact _ _ _ Hr1)) H2 (key_ne p (path_dir p))) in G1.
  destruct (holds_Get _ _ _ _ Hr2 Hne G1) as (meta & Hget & Hh).
  destruct (holds_Get _ _ _ _ Hr2' (marshal_ne pm') G2) as (meta' & Hget' & _).
  pose proof (readManifest_version _ _ _ _ _ Hm) as Hv.
  pose proof (readManifest_stored f' (path_dir p) later _ _ Hget') as Hman. rewrite decode_stored in Hman by (done || lia).
  destruct (created_find (Entries pm) (path_base p) (mask mode) (Z.of_nat (length data)) now (HashBytes data)) as (e & He & E1 & E2 & E3 & E4 & E5 & E6).
  assert (findEntry pm' (path_base p) = Some e) as Hfind by exact He.
  assert (lookupLocked unmarshal p later f' = Some (Ok e, f')) as Hlook.
  { unfold lookupLocked. unfold mbind at 1, F_bind at 1, flift at 1. rewrite Hp. cbv beta iota. unfold mbind at 1, F_bind at 1, fget at 1. cbv beta iota.
    rewrite decide_False by done. unfold parentBase. cbv beta iota zeta. unfold mbind at 1, F_bind at 1, catch, entryIn, mbind at 1, F_bind at 1.
    rewrite Hman. cbv beta iota. rewrite Hfind. reflexivity. }
  unfold Open. unfold mbind at 1, F_bind at 1. rewrite Hlook. cbv beta iota. rewrite bool_decide_eq_true_2 by done. cbn [negb].
  rewrite decide_True by done. unfold mbind at 1, F_bind at 1, fs_get. change (fstore f') with s2. rewrite Hget. cbv beta iota.
  eexists. split; [reflexivity|]. cbn [EName ESize EHash EMode]. split_and!; done.
Qed.
End FileTheorems.

(** ** Listings *)

(** The children the store implies have the name they are filed under. *)
Lemma add_child_names prefix objs : ∀ children : gmap bytes Entry, (∀ k e, children !! k = Some e → EName e = k) →
  ∀ k e, foldl (add_child prefix) children objs !! k = Some e → EName e = k.
Proof.
  induction objs as [|m objs IH]; intros children Hc; [done|]. cbn [foldl]. apply IH. intros k e. unfold add_child.
  destruct (child_of prefix (RemotePath m)) as [[seg sub]|]; [|apply Hc].
  destruct (children !! seg) as [ex|] eqn:Ex; repeat case_decide; try apply Hc; destruct sub; try apply Hc;
    (destruct (decide (seg = k)) as [->|Hk]; [rewrite lookup_insert_eq; by intros [= <-]|rewrite lookup_insert_ne by done; apply Hc]).
Qed.

#[export] Instance name_less_strict : StrictWeak name_less.
Proof. split; unfold name_less; intros *; [apply sw_asym|apply sw_ntrans]. Qed.

Section Listing.
Context {B : Type} `{BlobStore B} (unmarshal : bytes → option dirManifest).
Implicit Types (f : FS (B := B)).

Lemma storeChildren_names p now f ch f' : storeChildren p now f = Some (Ok ch, f') → ∀ k e, ch !! k = Some e → EName e = k.
Proof.
  unfold storeChildren, mbind at 1, F_bind at 1. destruct (index now f) as [[[objs|er] f1]|]; try discriminate.
  unfold mret, F_ret. intros [= <- _]. apply add_child_names. intros k e. by rewrite lookup_empty.
Qed.

Lemma sorted_strict l : NoDup (map EName l) → StronglySorted (λ a b, bytes_ltb (EName a) (EName b) = true) (stable_sort name_less l).
Proof.
  intros Hnd. assert (NoDup (map EName (stable_sort name_less l))) as Hnd' by (by rewrite (stable_sort_perm name_less)).
  pose proof (stable_sort_sorted name_less l) as Hs. revert Hnd'. induction Hs as [|x l' Hs IH Hx]; intros Hnd'; [constructor|].
  cbn [map] in Hnd'. apply NoDup_cons in Hnd' as [Hx' Hnd']. constructor; [by apply IH|]. rewrite Forall_forall in Hx |- *. intros y Hy.
  specialize (Hx y Hy). unfold notafter, name_less in Hx. destruct (bytes_ltb (EName x) (EName y)) eqn:E; [done|exfalso].
  apply Hx'. rewrite (bytes_ltb_total _ _ E Hx). by apply list_elem_of_fmap_2.
Qed.

(** Listing a directory gives, in strictly increasing order of their names, the
    entries of its manifest and, for every other name that the paths of the
    store's native objects imply below it, exactly one entry: the manifest wins
    where both have a name, and nothing else is listed. *)
Theorem readdir_exact p now f m ch f' :
  normalizePath p = Ok p → readManifest unmarshal p now f = Some (Ok m, f) → storeChildren p now f = Some (Ok ch, f') →
  NoDup (map EName (Entries m)) →
  ∃ es, ReadDir unmarshal p now f = Some (Ok es, f') ∧ StronglySorted (λ a b, bytes_ltb (EName a) (EName b) = true) es ∧
    ∀ e, e ∈ es ↔ e ∈ Entries m ∨ (ch !! EName e = Some e ∧ EName e ∉ map EName (Entries m)).
Proof.
  intros Hp Hm Hch Hnd. pose proof (storeChildren_names _ _ _ _ _ Hch) as Hn.
  set (extra := filter (λ kv : bytes * Entry, kv.1 ∉ map EName (Entries m)) (cursor ch)).
  assert (∀ kv, kv ∈ extra ↔ ch !! kv.1 = Some kv.2 ∧ kv.1 ∉ map EName (Entries m)) as Hex.
  { intros [k e]. unfold extra. rewrite list_elem_of_filter, elem_of_cursor. cbn. tauto. }
  assert (EName <$> (snd <$> extra) = fst <$> extra) as Hfst.
  { rewrite <- list_fmap_compose. apply list_fmap_ext. intros i [k e] Hi. apply list_elem_of_lookup_2, Hex in Hi as [Hi _]. cbn in *. by apply Hn. }
  exists (stable_sort name_less (Entries m ++ (snd <$> extra))). split_and!.
  - unfold ReadDir. unfold mbind at 1, F_bind at 1, flift at 1. rewrite Hp. cbv beta iota. unfold mbind at 1, F_bind at 1, catch. rewrite Hm. cbv beta iota.
    unfold mbind at 1, F_bind at 1. rewrite Hch. reflexivity.
  - apply sorted_strict. change (map EName) with (fmap (M := list) EName). rewrite fmap_app, Hfst. apply NoDup_app. split_and!; [done| |].
    + intros k Hk ([k' e] & -> & Hin)%list_elem_of_fmap. apply Hex in Hin as [_ Hin]. done.
    + unfold extra. apply NoDup_map_filter, cursor_keys_nodup.
  - intros e. rewrite (stable_sort_perm name_less), elem_of_app, list_elem_of_fmap. split.
    + intros [?|([k e'] & -> & [H1 H2]%Hex)]; [by left|right]. cbn in *. by rewrite (Hn _ _ H1).
    + intros [?|[H1 H2]]; [by left|right]. exists (EName e, e). split; [done|]. by apply Hex.
Qed.
End Listing.

(** ** Witnesses and examples *)
Definition w_decode (table : list dirManifest) (b : bytes) : option dirManifest := List.find (λ m, bool_decide (marshal m = b)) table.
Definition w_fs : FS (B := gmap bytes bytes) := New ex0.
Definition w_file (n : bytes) (data : bytes) : Entry := mkEntry n EntryFile 420 0 0 (Z.of_nat (length data)) 5 (HashBytes data) [].
Definition w_dir (n : bytes) : Entry := mkEntry n EntryDir 493 0 0 0 5 [] [].
Definition w_man (es : list Entry) : dirManifest := mkManifest 1 es.

Lemma ex0_holds c : holds_only ex0 c 2.
Proof.
  split; [apply intact_new; [done|]| |vm_compute; reflexivity].
  - intros x Hx. change ((∅ : gmap bytes bytes) !! HashBytes c = Some x) in Hx. by apply lookup_empty_Some in Hx.
  - intros x Hx. change ((∅ : gmap bytes bytes) !! HashBytes c = Some x) in Hx. by apply lookup_empty_Some in Hx.
Qed.

Definition w_put1 := Put ex0 (objKey (bs "/a")) ex_hash 2 (bs "/a") (Some (reader_of ex_body)) 5.
Definition w_root : dirManifest := w_man [w_file (bs "a") ex_body].
Definition w_put2 :=
  Put w_put1.2 (dirKey (bs "/")) (HashBytes (marshal w_root)) (Z.of_nat (length (marshal w_root))) [] (Some (reader_of (marshal w_root))) 5.

Lemma create_open_witness :
  ∃ f', Create (w_decode [w_root]) (bs "/a") 420 (reader_of ex_body) 5 w_fs = Some (Ok (2, ex_hash), f') ∧
  ∀ later, ∃ e, Open (w_decode [w_root]) (bs "/a") later f' = Some (Ok (Reader [ex_body] None, e), f')
     ∧ EName e = bs "a" ∧ ESize e = 2 ∧ EHash e = ex_hash ∧ EMode e = 420.
Proof.
  apply (create_open (w_decode [w_root]) (bs "/a") ex_body 420 5 w_fs (w_man []) w_put1.2 w_put2.2).
  - vm_compute. reflexivity.
  - discriminate.
  - vm_compute. split; congruence.
  - vm_compute. reflexivity.
  - intros e He. vm_compute in He. discriminate.
  - vm_compute. discriminate.
  - vm_compute. discriminate.
  - vm_compute. discriminate.
  - vm_compute. reflexivity.
  - discriminate.
  - exact (ex0_holds ex_body).
  - exact (ex0_holds (marshal w_root)).
  - intros E. vm_compute in E. discriminate.
  - refine (CasTheorems.run_ok w_put1 (Ok tt) _). vm_compute. reflexivity.
  - refine (CasTheorems.run_ok w_put2 (Ok tt) _). vm_compute. reflexivity.
Defined.

(** The root of a node whose store holds [d/a] natively. *)
Definition w_native : FS (B := gmap bytes bytes) := New ex1.
Definition w_kids := storeChildren (bs "/") 5 w_native.
Definition w_children : gmap bytes Entry := match w_kids with Some (Ok ch, _) => ch | _ => ∅ end.
Definition w_indexed : FS (B := gmap bytes bytes) := match w_kids with Some (_, f) => f | None => w_native end.

Lemma readdir_exact_witness :
  map EName (snd <$> cursor w_children) = [bs "d"] ∧
  ∃ es, ReadDir (w_decode []) (bs "/") 5 w_native = Some (Ok es, w_indexed) ∧ StronglySorted (λ a b, bytes_ltb (EName a) (EName b) = true) es ∧
    ∀ e, e ∈ es ↔ e ∈ [] ∨ (w_children !! EName e = Some e ∧ EName e ∉ map EName []).
Proof.
  split; [vm_compute; reflexivity|].
  apply (readdir_exact (w_decode []) (bs "/") 5 w_native (w_man []) w_children w_indexed).
  - vm_compute. reflexivity.
  - unfold readManifest, mbind, F_bind, fget, catch, fs_get. change (cached_dir w_native (bs "/") 5) with false. cbv beta iota.
    assert (Get (fstore w_native) (dirKey (bs "/")) = Err (Errno ENOENT)) as -> by (vm_compute; reflexivity). reflexivity.
  - unfold w_children, w_indexed. fold w_kids. assert (match w_kids with Some (Ok _, _) => true | _ => false end = true) as E by (vm_compute; reflexivity).
    revert E. generalize w_kids. intros [[[ch|er] f]|]; done.
  - constructor.
Defined.

(** A sequence of operations. *)
Definition run {A} (m : F (B := gmap bytes bytes) A) : option (result A) := fst <$> m w_fs.

(** Moving a file onto itself removes its object. *)
Example rename_self_loses :
  let d := w_decode [w_root] in
  run (Create d (bs "/a") 420 (reader_of ex_body) 5;; r ← catch (Rename d 1 (bs "/a") (bs "/a") 6); Open d (bs "/a") 7)
  = Some (Err (Errno ENOENT)).
Proof. vm_compute. reflexivity. Qed.

(** Moving a directory over an empty one drops the manifest that was just moved:
    its files can no longer be reached. *)
Example rename_over_directory_loses :
  let d := w_decode [w_man []; w_man [w_dir (bs "s")]; w_man [w_dir (bs "s"); w_dir (bs "d")]; w_man [w_file (bs "f") ex_body]; w_man [w_dir (bs "d")]] in
  run (Mkdir d (bs "/s") 493 5;; Create d (bs "/s/f") 420 (reader_of ex_body) 5;; Mkdir d (bs "/d") 493 5;;
       Rename d 3 (bs "/s") (bs "/d") 5;; es ← ReadDir d (bs "/d") 6; o ← catch (Open d (bs "/d/f") 6); mret (es, is_ok o))
  = Some (Ok ([], false)).
Proof. vm_compute. reflexivity. Qed.

(** Moving a directory below itself never ends: each turn finds the copy that the
    turn before wrote. *)
Example rename_below_itself_diverges :
  let d := w_decode [w_man []; w_man [w_dir (bs "a")]; w_man [w_dir (bs "b")]] in
  run (Mkdir d (bs "/a") 493 5;; Mkdir d (bs "/a/b") 493 5;; Rename d 12 (bs "/a") (bs "/a/b") 5) = None.
Proof. vm_compute. reflexivity. Qed.

(** A path that is not clean is found but cannot be opened. *)
Example open_needs_clean_path :
  let d := w_decode [w_root] in
  run (Create d (bs "//a") 420 (reader_of ex_body) 5;; e ← Lookup d (bs "//a") 6; o ← catch (Open d (bs "//a") 6); mret (EName e, is_ok o))
  = Some (Ok (bs "a", false)).
Proof. vm_compute. reflexivity. Qed.

(** A directory that does not exist lists as an empty one. *)
Example readdir_missing : run (ReadDir (w_decode []) (bs "/none") 5) = Some (Ok []).
Proof. vm_compute. reflexivity. Qed.

(** Replacing a file keeps a reference to its old content. *)
Example create_again_leaks :
  let old := w_root in let new := w_man [w_file (bs "a") (bs "new")] in
  let d := w_decode [old; new] in
  run (Create d (bs "/a") 420 (reader_of ex_body) 5;; Create d (bs "/a") 420 (reader_of (bs "new")) 5;; f ← fget; mret (refcount (db (fstore f)) ex_hash))
  = Some (Ok 1).
Proof. vm_compute. reflexivity. Qed.
