(* ===== verification/MetaRpc.v ===== *)
(** * Distributed metadata calls and version replication
      (src/src/p2p/metadata_rpc.go, src/src/server/version_replication.go)

    The provider answers metadata requests from the local store and correlates
    the replies to its own version-replication requests; the gossip consumer
    loop ([Gossip.HandleRPC]) hands it the messages it routes.  [Codec] is
    [json.Marshal] and [json.Unmarshal] of one payload type; what survives the
    two is written out where a theorem needs it.  A call that waits is split at
    its wait.  Panic recovery and locking are not modelled. *)
From Stdlib Require SpecFloat.
From S2P Require Import Prelude GoText Float64 Json BlobStore CasStore Versioning VersionTheorems VersionProps Crush Ring Wire Peers Gossip.
Open Scope Z_scope.

Definition MetadataRPCTimeout : Z := 5 * second.

Definition MsgPutMetadata : Z := 14.
Definition MsgPutMetadataResponse : Z := 15.
Definition MsgResolveMetadata : Z := 16.
Definition MsgResolveMetadataResponse : Z := 17.
Definition MsgReplicateMetadata : Z := 18.
Definition MsgReplicateMetadataResponse : Z := 19.
Definition MsgListShard : Z := 20.
Definition MsgListShardResponse : Z := 21.
Definition MsgReplicateVersion : Z := 22.
Definition MsgReplicateVersionResponse : Z := 23.

(** ** Payloads *)
Record PutMetadataArgs := mkPMA {
  pa_Name : bytes; pa_Hash : bytes; pa_Size : Z; pa_RemotePath : bytes;
  pa_S3Headers : gmap bytes bytes; pa_DataReplicas : list Z; pa_MetadataReplicas : list Z;
  pa_ShardKey : bytes; pa_VectorClock : list Z; pa_Checksum : Z
}.
Record PutMetadataReply := mkPMR { pr_Success : bool; pr_ExistingVClock : list Z; pr_Error : bytes }.
Record ResolveMetadataArgs := mkRMA { ra_Name : bytes; ra_ShardKey : bytes }.

(** [None] is the zero [time.Time]. *)
Record ResolveMetadataReply := mkRMR {
  rr_Hash : bytes; rr_Size : Z; rr_RemotePath : bytes; rr_S3Headers : gmap bytes bytes;
  rr_DataReplicas : list Z; rr_MetadataReplicas : list Z; rr_DeletedAt : option Z;
  rr_VectorClock : list Z; rr_Checksum : Z; rr_Error : bytes; rr_ModTime : Z
}.

(** A value of an [interface{}] that [json.Unmarshal] filled; the code looks at
    strings, numbers and arrays only. *)
Inductive jvalue :=
  | JString (s : bytes)
  | JNumber (x : float64)
  | JArray (l : list jvalue)
  | JOther.

Record ReplicateMetadataArgs := mkRPA { ma_ShardKey : bytes; ma_Meta : gmap bytes jvalue }.
Record ReplicateMetadataReply := mkRPR { mr_Success : bool; mr_Error : bytes }.
Record ReplicateVersionArgs := mkRVA {
  va_RequestID : Z; va_Bucket : bytes; va_Key : bytes; va_Record : VersionRecord; va_Status : bytes
}.
Record ReplicateVersionReply := mkRVR { vr_RequestID : Z; vr_Success : bool; vr_Error : bytes }.
Record ListShardArgs := mkLSA {
  la_ShardKey : bytes; la_Prefix : bytes; la_Delimiter : bytes; la_MaxKeys : Z;
  la_ContinuationToken : bytes; la_FetchOwner : bool
}.
Record ListShardReply := mkLSR {
  lr_Files : list FileMetadata; lr_CommonPrefixes : list bytes;
  lr_NextContinuationToken : bytes; lr_Error : bytes
}.

Class Codec (A : Type) := { Encode : A → bytes; Decode : bytes → option A }.

(** ** The provider *)
Inductive Reply :=
  | PutReply (r : PutMetadataReply)
  | ResolveReply (r : ResolveMetadataReply)
  | ReplicateReply (r : ReplicateMetadataReply)
  | ListReply (r : ListShardReply).

Record MetadataResponse := mkMR { MFrom : Z; MReply : Reply }.
Record pendingMetadata := mkPM { pm_responses : list MetadataResponse; expected : Z; quorum : Z; pm_timeout : Z }.

(** A waiting [ReplicateVersion] owns a channel of capacity one: empty, or the
    reply it holds. *)
Record MetadataRPCProvider := mkMP {
  mp_localID : Z;
  mp_nextRequestID : Z;
  mp_pending : gmap Z pendingMetadata;
  versionPending : gmap Z (option ReplicateVersionReply);
  RPCTimeout : Z
}.

Definition NewMetadataRPCProvider (localID : Z) : MetadataRPCProvider :=
  mkMP localID 0 ∅ ∅ MetadataRPCTimeout.

Definition rpcTimeout (m : MetadataRPCProvider) : Z := if 0 <? RPCTimeout m then RPCTimeout m else MetadataRPCTimeout.

Definition set_versionPending (p : gmap Z (option ReplicateVersionReply)) (m : MetadataRPCProvider) : MetadataRPCProvider :=
  mkMP (mp_localID m) (mp_nextRequestID m) (mp_pending m) p (RPCTimeout m).

(** Every pending request is given the response, whichever peer it asked. *)
Definition completePending (from : Z) (reply : Reply) (m : MetadataRPCProvider) : MetadataRPCProvider :=
  mkMP (mp_localID m) (mp_nextRequestID m)
    ((λ p, mkPM (pm_responses p ++ [mkMR from reply]) (expected p) (quorum p) (pm_timeout p)) <$> mp_pending m)
    (versionPending m) (RPCTimeout m).

(** ** Conversions of JSON numbers *)
(** [uint64(f)] and [int32(f)]; out of range the value amd64 produces. *)
Definition f64_uint64 (x : float64) : Z :=
  if SpecFloat.SFltb x (f64 (2 ^ 63)) then uint64 (f64_trunc x)
  else uint64 (f64_trunc (fsub x (f64 (2 ^ 63))) + 2 ^ 63).
Definition f64_int32 (x : float64) : Z :=
  let v := f64_trunc x in if (- 2 ^ 31 <=? v) && (v <? 2 ^ 31) then v else - 2 ^ 31.

Definition as_string (v : option jvalue) : bytes := match v with Some (JString s) => s | _ => [] end.
Definition as_number (conv : float64 → Z) (v : option jvalue) : Z := match v with Some (JNumber x) => conv x | _ => 0 end.
Definition as_numbers (conv : float64 → Z) (v : option jvalue) : list Z :=
  match v with Some (JArray l) => (λ x, as_number conv (Some x)) <$> l | _ => [] end.

Section Provider.
Context {B : Type} `{BlobStore B}.
Context `{!Codec PutMetadataArgs, !Codec PutMetadataReply, !Codec ResolveMetadataArgs, !Codec ResolveMetadataReply}.
Context `{!Codec ReplicateMetadataArgs, !Codec ReplicateMetadataReply, !Codec ListShardArgs, !Codec ListShardReply}.
Context `{!Codec ReplicateVersionArgs, !Codec ReplicateVersionReply}.
(** [text] is [error.Error]; [write] says which sockets take a write; the
    gossiper holds the peers of the transport. *)
Variable text : error → bytes.
Variable write : Z → bool.
Implicit Types (s : VStore B) (m : MetadataRPCProvider) (g : Gossiper) (rpc : RPC).

(** A message built as [&RPC{Type, Payload}]: its sender is the zero value. *)
Definition unsigned_rpc (type_ : Z) (payload : bytes) : RPC := mkRPC 0 type_ payload.

(** The local writes answered with success or the text of the error. *)
Definition error_text (r : result unit) : bytes := match r with Ok _ => [] | Err e => text e end.
Definition succeeded (r : result unit) : bool := match r with Ok _ => true | Err _ => false end.

Definition handlePutMetadata s g rpc (now : Z) : VStore B * list effect :=
  match Decode (A := PutMetadataArgs) (Payload rpc) with
  | None => (s, [])
  | Some a =>
      let '(r, c) := PutWithMetadata (cas s) (pa_Name a) (pa_Hash a) (pa_Size a) (pa_RemotePath a) None
                       (pa_VectorClock a) (pa_ShardKey a) (pa_MetadataReplicas a) now in
      (with_cas c s,
       sends write g (From rpc)
         (unsigned_rpc MsgPutMetadataResponse (Encode (mkPMR (succeeded r) [] (error_text r)))))
  end.

Definition handlePutMetadataResponse m rpc : MetadataRPCProvider :=
  match Decode (A := PutMetadataReply) (Payload rpc) with
  | None => m
  | Some r => completePending (From rpc) (PutReply r) m
  end.

Definition handleResolveMetadata s g rpc : list effect :=
  match Decode (A := ResolveMetadataArgs) (Payload rpc) with
  | None => []
  | Some a =>
      let reply :=
        match GetMeta (cas s) (ra_Name a) with
        | Err e => mkRMR [] 0 [] ∅ [] [] None [] 0 (if decide (e = Errno ENOENT) then bs "not found" else text e) 0
        | Ok f => mkRMR (Hash f) (FSize f) (RemotePath f) ∅ [] [] None [] 0 [] (ModTime f)
        end in
      sends write g (From rpc) (unsigned_rpc MsgResolveMetadataResponse (Encode reply))
  end.

Definition handleResolveMetadataResponse m rpc : MetadataRPCProvider :=
  match Decode (A := ResolveMetadataReply) (Payload rpc) with
  | None => m
  | Some r => completePending (From rpc) (ResolveReply r) m
  end.

Definition handleReplicateMetadata s g rpc (now : Z) : VStore B * list effect :=
  match Decode (A := ReplicateMetadataArgs) (Payload rpc) with
  | None => (s, [])
  | Some a =>
      let field (n : bytes) := ma_Meta a !! n in
      let '(r, c) := PutWithMetadata (cas s) (as_string (field (bs "Name"))) (as_string (field (bs "Hash")))
                       (as_number f64_trunc (field (bs "Size"))) (as_string (field (bs "RemotePath"))) None
                       (as_numbers f64_uint64 (field (bs "VectorClock"))) (as_string (field (bs "ShardKey")))
                       (as_numbers f64_int32 (field (bs "MetadataReplicas"))) now in
      (with_cas c s,
       sends write g (From rpc)
         (unsigned_rpc MsgReplicateMetadataResponse (Encode (mkRPR (succeeded r) (error_text r)))))
  end.

Definition handleReplicateMetadataResponse m rpc : MetadataRPCProvider :=
  match Decode (A := ReplicateMetadataReply) (Payload rpc) with
  | None => m
  | Some r => completePending (From rpc) (ReplicateReply r) m
  end.

(** A file of the requested shard, [[]] being any shard. *)
Definition in_shard (a : ListShardArgs) (f : FileMetadata) : bool :=
  bool_decide (la_Prefix a `prefix_of` Name f)
  && (bool_decide (la_ShardKey a = []) || bool_decide (ShardKey (Name f) = la_ShardKey a)).

Definition list_reply s (a : ListShardArgs) : ListShardReply :=
  match List (cas s) with
  | Err e => mkLSR [] [] [] (text e)
  | Ok files =>
      let filtered := filter (λ f, in_shard a f = true) files in
      let filtered :=
        if (0 <? la_MaxKeys a) && (la_MaxKeys a <? Z.of_nat (length filtered))
        then take (Z.to_nat (la_MaxKeys a)) filtered else filtered in
      mkLSR filtered [] [] []
  end.

Definition handleListShard s g rpc : list effect :=
  match Decode (A := ListShardArgs) (Payload rpc) with
  | None => []
  | Some a => sends write g (From rpc) (unsigned_rpc MsgListShardResponse (Encode (list_reply s a)))
  end.

Definition handleListShardResponse m rpc : MetadataRPCProvider :=
  match Decode (A := ListShardReply) (Payload rpc) with
  | None => m
  | Some r => completePending (From rpc) (ListReply r) m
  end.

(** *** Version records *)
Definition apply_version s (a : ReplicateVersionArgs) : result unit * VStore B :=
  let '(r, s) :=
    match va_Status a with
    | [] => (Ok tt, s)
    | st => SetBucketVersioning s (va_Bucket a) st
    end in
  match r with
  | Err e => (Err e, s)
  | Ok _ => PutVersionRecord s (va_Bucket a) (va_Key a) (va_Record a)
  end.

Definition handleReplicateVersion s g rpc : VStore B * list effect :=
  match Decode (A := ReplicateVersionArgs) (Payload rpc) with
  | None => (s, [])
  | Some a =>
      let '(r, s) := apply_version s a in
      (s, sends write g (From rpc)
            (unsigned_rpc MsgReplicateVersionResponse
               (Encode (mkRVR (va_RequestID a) (succeeded r) (error_text r)))))
  end.

(** The reply is put in the channel of its request, if that is empty. *)
Definition handleReplicateVersionResponse m rpc : MetadataRPCProvider :=
  match Decode (A := ReplicateVersionReply) (Payload rpc) with
  | None => m
  | Some r =>
      match versionPending m !! vr_RequestID r with
      | Some None => set_versionPending (<[vr_RequestID r := Some r]> (versionPending m)) m
      | _ => m
      end
  end.

(** [ReplicateVersion] up to its wait: the request number, or the error of the
    send. *)
Definition replicate_begin m g (peer : Z) (a : ReplicateVersionArgs) : result Z * MetadataRPCProvider * list effect :=
  let id := uint64 (mp_nextRequestID m + 1) in
  let m := mkMP (mp_localID m) id (mp_pending m) (<[id := None]> (versionPending m)) (RPCTimeout m) in
  let a := mkRVA id (va_Bucket a) (va_Key a) (va_Record a) (va_Status a) in
  match Send write (peers g) peer with
  | Err e => (Err e, set_versionPending (delete id (versionPending m)) m, [])
  | Ok _ => (Ok id, m, [Sent peer (unsigned_rpc MsgReplicateVersion (Encode a))])
  end.

(** The end of the wait: a reply was received ([timer] false), or the timer
    fired first. *)
Definition replicate_end m (id : Z) (timer : bool) : result ReplicateVersionReply * MetadataRPCProvider :=
  (match versionPending m !! id with
   | Some (Some r) => if timer then Err (Errno ETIMEDOUT) else if vr_Success r then Ok r else Err (Errno EIO)
   | _ => Err (Errno ETIMEDOUT)
   end,
   set_versionPending (delete id (versionPending m)) m).

(** *** Dispatch *)
Definition meta_HandleRPC m s g rpc (now : Z) : MetadataRPCProvider * VStore B * list effect :=
  let t := Type_ rpc in
  if t =? MsgPutMetadata then let '(s, es) := handlePutMetadata s g rpc now in (m, s, es)
  else if t =? MsgPutMetadataResponse then (handlePutMetadataResponse m rpc, s, [])
  else if t =? MsgResolveMetadata then (m, s, handleResolveMetadata s g rpc)
  else if t =? MsgResolveMetadataResponse then (handleResolveMetadataResponse m rpc, s, [])
  else if t =? MsgReplicateMetadata then let '(s, es) := handleReplicateMetadata s g rpc now in (m, s, es)
  else if t =? MsgReplicateMetadataResponse then (handleReplicateMetadataResponse m rpc, s, [])
  else if t =? MsgListShard then (m, s, handleListShard s g rpc)
  else if t =? MsgListShardResponse then (handleListShardResponse m rpc, s, [])
  else if t =? MsgReplicateVersion then let '(s, es) := handleReplicateVersion s g rpc in (m, s, es)
  else if t =? MsgReplicateVersionResponse then (handleReplicateVersionResponse m rpc, s, [])
  else (m, s, []).

(** *** Calls the source leaves as placeholders *)
Definition PutMetadata (a : PutMetadataArgs) : PutMetadataReply := mkPMR true [] [].
Definition ResolveMetadata (a : ResolveMetadataArgs) : ResolveMetadataReply :=
  mkRMR [] 0 [] ∅ [] [] None [] 0 (bs "not implemented") 0.
Definition ReplicateMetadata (a : ReplicateMetadataArgs) : ReplicateMetadataReply := mkRPR true [].
Definition ListShard (a : ListShardArgs) : ListShardReply := mkLSR [] [] [] (bs "not implemented").

(** ** The fan-out of a recorded version (version_replication.go) *)
Definition versionPlacementKey (bkt key : bytes) (rec : VersionRecord) : bytes :=
  match VHash rec with [] => bkt ++ [ch_slash] ++ key | h => h end.

Variable scoreBits : Z → Z → Z.

(** The peers [fanOut] calls, in order, and what each is sent; [cancelled] is
    [ctx.Err() != nil] at the node's turn. *)
Definition fanOut s (nodes : list (option Node)) (self rf : Z) (cancelled : Z → bool)
    (bkt key : bytes) (rec : VersionRecord) : list (Z * ReplicateVersionArgs) :=
  let status := default [] (BucketVersioning s bkt) in
  match Placement scoreBits nodes (versionPlacementKey bkt key rec) rf with
  | Err _ => []
  | Ok placement =>
      (λ n : Node, (int32 (ID n), mkRVA 0 bkt key rec status))
        <$> filter (λ n : Node, int32 (ID n) ≠ self ∧ cancelled (ID n) = false) placement
  end.

(** [installVersionReplication]: a single copy installs no hook. *)
Definition installVersionReplication s (rf : Z) : VStore B :=
  if rf <=? 1 then s else SetVersionReplicationHook s true.
End Provider.

(** ** Lemmas *)
Definition is_forward (e : effect) : bool := match e with Forward _ => true | _ => false end.
Notation quiet := (Forall (λ e, is_forward e = false)).

Lemma quiet_sends write g to rpc : quiet (sends write g to rpc).
Proof. unfold sends. case_match; repeat constructor. Qed.

Lemma quiet_merge now l st : quiet st.2 → quiet (foldl (merge_peer now) st l).2.
Proof.
  revert st. induction l as [|pi l IH]; intros [g es] Hq; [done|]. cbn [foldl]. apply IH. unfold merge_peer.
  repeat case_match; try done. apply Forall_app. split; [done|]. repeat constructor.
Qed.

Lemma quiet_membership g rpc now : quiet (handleMembership g rpc now).2.
Proof. unfold handleMembership. case_match; [by apply quiet_merge|constructor]. Qed.

Lemma quiet_heartbeat g rpc now : quiet (handleHeartbeat g rpc now).2.
Proof.
  unfold handleHeartbeat. destruct (DecodeHeartbeatPayload _) as [l|]; [|constructor].
  pose proof (quiet_merge now (take MaxPeersInHeartbeat l) (g, []) ltac:(constructor)) as Hq.
  fold (merge_peers now l g) in Hq. by destruct (merge_peers now l g).
Qed.

Lemma quiet_indirect write g rpc : quiet (handleIndirectPing write g rpc).1.2.
Proof. unfold handleIndirectPing. repeat case_match; repeat constructor. Qed.

(** The consumer loop hands on queries, OPRF evaluations and the first six
    metadata messages, nothing else. *)
Lemma HandleRPC_forwards write g rpc now :
  quiet (HandleRPC write g rpc now).1.2
  ∨ ((HandleRPC write g rpc now).1.2 = [Forward rpc] ∧ (Type_ rpc <= 19)).
Proof.
  unfold HandleRPC.
  repeat (case_match; try (left; solve [apply quiet_heartbeat|apply quiet_membership|apply quiet_indirect|constructor])).
  all: try (left; unfold handlePing; cbn [fst snd]; repeat case_match; first [apply quiet_sends|by constructor]).
  right. split; [done|]. zbool. lia.
Qed.

(** ** The consumer loop of a node *)
Section Loop.
Context {B : Type} `{BlobStore B}.
Context `{!Codec PutMetadataArgs, !Codec PutMetadataReply, !Codec ResolveMetadataArgs, !Codec ResolveMetadataReply}.
Context `{!Codec ReplicateMetadataArgs, !Codec ReplicateMetadataReply, !Codec ListShardArgs, !Codec ListShardReply}.
Context `{!Codec ReplicateVersionArgs, !Codec ReplicateVersionReply}.
Variable text : error → bytes.
Variable write : Z → bool.

(** What the gossiper forwards reaches the provider. *)
Definition forwarded (g : Gossiper) (now : Z) (st : MetadataRPCProvider * VStore B) (e : effect)
    : MetadataRPCProvider * VStore B :=
  match e with
  | Forward r => (meta_HandleRPC text write st.1 st.2 g r now).1
  | _ => st
  end.

Definition consume (m : MetadataRPCProvider) (s : VStore B) (g : Gossiper) (rpc : RPC) (now : Z)
    : MetadataRPCProvider * VStore B :=
  let '(g', es, _) := HandleRPC write g rpc now in foldl (forwarded g' now) (m, s) es.

(** A node: RPCs of any kind arrive, at any state [g] of the membership, and
    version replications begin and end. *)
Inductive meta_step : MetadataRPCProvider * VStore B → MetadataRPCProvider * VStore B → Prop :=
  | ms_arrive m s g rpc now : meta_step (m, s) (consume m s g rpc now)
  | ms_begin m s g peer a : meta_step (m, s) ((replicate_begin write m g peer a).1.2, s)
  | ms_end m s id timer : meta_step (m, s) ((replicate_end m id timer).2, s).

Lemma forward_keeps g now m s rpc :
  Type_ rpc <= 19 →
  let st := forwarded g now (m, s) (Forward rpc) in
  versionPending st.1 = versionPending m ∧ vdb st.2 = vdb s.
Proof.
  intros Ht. unfold forwarded, meta_HandleRPC. cbn [fst snd].
  assert (Type_ rpc =? MsgReplicateVersion = false) as -> by (unfold MsgReplicateVersion; apply Z.eqb_neq; lia).
  assert (Type_ rpc =? MsgReplicateVersionResponse = false) as ->
    by (unfold MsgReplicateVersionResponse; apply Z.eqb_neq; lia).
  unfold handlePutMetadata, handleReplicateMetadata, handlePutMetadataResponse, handleResolveMetadataResponse,
    handleReplicateMetadataResponse, handleListShardResponse.
  repeat case_match; simplify_eq; done.
Qed.

Lemma consume_keeps m s g rpc now :
  versionPending (consume m s g rpc now).1 = versionPending m ∧ vdb (consume m s g rpc now).2 = vdb s.
Proof.
  unfold consume. pose proof (HandleRPC_forwards write g rpc now) as Hf.
  destruct (HandleRPC write g rpc now) as [[g' es] w]. cbn [fst snd] in Hf.
  destruct Hf as [Hq|[-> Ht]]; [|exact (forward_keeps g' now m s rpc Ht)].
  induction Hq as [|e es He Hq IH]; [done|]. cbn [foldl]. by destruct e.
Qed.

(** No channel of a waiting call holds a reply. *)
Definition unanswered (m : MetadataRPCProvider) : Prop := map_Forall (λ _ o, o = None) (versionPending m).

Lemma meta_step_keeps st st' : meta_step st st' → unanswered st.1 → unanswered st'.1 ∧ vdb st'.2 = vdb st.2.
Proof.
  unfold unanswered. intros Hst Hu. destruct Hst as [m s g rpc now|m s g peer a|m s id timer]; cbn [fst snd] in *.
  - destruct (consume_keeps m s g rpc now) as [-> ->]. done.
  - split; [|done]. unfold replicate_begin.
    case_match; cbn [fst snd versionPending set_versionPending].
    + by apply map_Forall_insert_2.
    + by apply map_Forall_delete, map_Forall_insert_2.
  - split; [|done]. by apply map_Forall_delete.
Qed.

Lemma meta_run_keeps st st' :
  rtc meta_step st st' → unanswered st.1 → unanswered st'.1 ∧ vdb st'.2 = vdb st.2.
Proof.
  induction 1 as [st|st st1 st' H1 _ IH]; [done|]. intros Hu.
  destruct (meta_step_keeps _ _ H1 Hu) as [Hu1 <-]. by apply IH.
Qed.

(** C11: Version replication never completes in a running node: the consumer loop routes neither version records nor their acknowledgements to the provider, so whatever messages arrive in whatever order, no version record of a peer is stored and every [ReplicateVersion] that was sent ends in a timeout. *)
Theorem version_replication_never_arrives localID s m' s' id timer :
  rtc meta_step (NewMetadataRPCProvider localID, s) (m', s') →
  (replicate_end m' id timer).1 = Err (Errno ETIMEDOUT) ∧ vdb s' = vdb s.
Proof.
  intros [Hu Hv]%meta_run_keeps; [|apply map_Forall_empty]. split; [|done].
  unfold replicate_end. cbn [fst].
  destruct (versionPending m' !! id) as [o|] eqn:E; [|done]. by rewrite (Hu id o E).
Qed.
End Loop.

(** ** Delivered version records *)

(** What survives JSON: strings become valid UTF-8, the key of a record is not
    sent. *)
Definition json_record (r : VersionRecord) : VersionRecord :=
  mkVersion (json_valid (VersionID r)) (json_valid (VHash r)) (VSize r) (Timestamp r) (IsLatest r) (IsDeleteMarker r) [].
Definition json_args (a : ReplicateVersionArgs) : ReplicateVersionArgs :=
  mkRVA (va_RequestID a) (json_valid (va_Bucket a)) (json_valid (va_Key a)) (json_record (va_Record a)) (json_valid (va_Status a)).

Section Delivery.
Context {B : Type} `{BlobStore B}.
Context `{!Codec ReplicateVersionArgs, !Codec ReplicateVersionReply}.
Variable text : error → bytes.
Variable write : Z → bool.
Variable g : Gossiper.
Implicit Types (s : VStore B).

Definition deliver s (a : ReplicateVersionArgs) : VStore B :=
  (handleReplicateVersion text write s g (unsigned_rpc MsgReplicateVersion (Encode a))).1.

(** The messages for records of one key of a bucket with a versioning status. *)
Record message_ok (bkt key st : bytes) (a : ReplicateVersionArgs) : Prop := {
  mo_bucket : va_Bucket a = bkt;
  mo_key : va_Key a = key;
  mo_status : va_Status a = st;
  mo_text : utf8 (VersionID (va_Record a)) ∧ utf8 (VHash (va_Record a));
  mo_json : Decode (Encode a) = Some (json_args a)
}.

Definition status_ok (st : bytes) : Prop := st = VersioningEnabled ∨ st = VersioningSuspended.

Lemma status_utf8 st : status_ok st → utf8 st.
Proof. intros [->| ->]; apply (bool_decide_unpack _); vm_compute; done. Qed.

Lemma SetBucketVersioning_run s bkt st :
  status_ok st → key_ok bkt →
  SetBucketVersioning s bkt st
  = (Ok tt, with_vdb (set_versioning (<[bkt := st]> (bucketVersioning (vdb s))) (vdb s)) s).
Proof.
  intros Hst Hb. unfold SetBucketVersioning. rewrite decide_True by exact Hst.
  unfold update, put_versioning. by rewrite bput_ok.
Qed.

Lemma PutVersionRecord_status s bkt key r b :
  BucketVersioning (PutVersionRecord s bkt key r).2 b = BucketVersioning s b.
Proof.
  unfold BucketVersioning, PutVersionRecord. case_decide; [done|]. unfold update.
  by destruct (applyReplicatedRecord _ _ _ _).
Qed.

Lemma deliver_run s bkt key st a :
  utf8 bkt → utf8 key → status_ok st → key_ok bkt → message_ok bkt key st a → VKey (va_Record a) = [] →
  deliver s a = (PutVersionRecord (SetBucketVersioning s bkt st).2 bkt key (va_Record a)).2.
Proof.
  intros Hb Hk Hst Hkb [Eb Ek Es [H1 H2] Hj] Hkey. unfold deliver, handleReplicateVersion.
  cbn [Payload unsigned_rpc]. rewrite Hj. destruct a as [id ab ak [vid h sz t l d k] ast]. cbn in *. subst ab ak ast k.
  unfold json_args, json_record.
  cbn [va_RequestID va_Bucket va_Key va_Record va_Status VersionID VHash VSize Timestamp IsLatest IsDeleteMarker].
  rewrite !json_valid_id by (done || by apply status_utf8).
  unfold apply_version. cbn [va_Status va_Bucket va_Key va_Record].
  destruct st; [by destruct Hst|]. rewrite SetBucketVersioning_run by done. cbn [snd].
  by destruct (PutVersionRecord _ _ _ _).
Qed.

Lemma deliver_all s bkt key st l :
  utf8 bkt → utf8 key → status_ok st → key_ok bkt → l ≠ [] →
  Forall (λ a, message_ok bkt key st a ∧ VKey (va_Record a) = []) l →
  foldl deliver s l = replicate_all (SetBucketVersioning s bkt st).2 bkt key (va_Record <$> l).
Proof.
  intros Hb Hk Hst Hkb Hne Hl.
  assert (∀ s, BucketVersioning s bkt = Some st → foldl deliver s l = replicate_all s bkt key (va_Record <$> l)) as Hrun.
  { clear Hne. induction Hl as [|a l [Ha Hkey] _ IH]; intros s1 H1; [done|].
    cbn [foldl fmap list_fmap]. rewrite (deliver_run s1 bkt key st a) by done.
    rewrite SetBucketVersioning_run by done. cbn [snd]. rewrite insert_id by exact H1.
    assert (with_vdb (set_versioning (bucketVersioning (vdb s1)) (vdb s1)) s1 = s1) as -> by (by destruct s1 as [? [] ?]).
    apply IH. by rewrite PutVersionRecord_status. }
  destruct l as [|a l]; [done|]. apply Forall_cons in Hl as Hl'. destruct Hl' as [[Ha Hkey] _].
  rewrite <- Hrun.
  - cbn [foldl]. rewrite !(deliver_run _ bkt key st a) by done. f_equal. f_equal.
    rewrite !SetBucketVersioning_run by done. cbn. unfold with_vdb, set_versioning. cbn. by rewrite insert_insert_eq.
  - rewrite SetBucketVersioning_run by done. unfold BucketVersioning. cbn. apply lookup_insert_eq.
Qed.

(** The provider's handler makes replicas converge: the version records of a key, delivered as version-replication messages in any order, leave the replica in the same state, in which the bucket has the sender's versioning status, every record is stored and exactly the newest is marked latest. *)
Theorem version_records_converge s bkt key st l l' :
  bkt ≠ [] → key ≠ [] → nul_free bkt → nul_free key → utf8 bkt → utf8 key → key_ok bkt → status_ok st →
  ver_inv (vers s) → no_short (version_prefix bkt key) (vers s) → (∀ r, ¬ has_version (vers s) bkt key r) →
  batch_ok bkt key (va_Record <$> l) → Forall (message_ok bkt key st) l → l ≠ [] → l ≡ₚ l' →
  foldl deliver s l = foldl deliver s l'
  ∧ BucketVersioning (foldl deliver s l) bkt = Some st
  ∧ ∀ r, r ∈ va_Record <$> l →
      GetVersion (foldl deliver s l) bkt key (VersionID r)
      = Ok (set_key key (set_latest (newest r (va_Record <$> l)) r)).
Proof.
  intros Hb0 Hk0 Hb Hk Hub Huk Hkb Hst Hi Hs Hno Hl Hm Hne Hp.
  assert (Forall (λ a, message_ok bkt key st a ∧ VKey (va_Record a) = []) l) as Hall.
  { apply Forall_and. split; [done|]. destruct Hl as [_ _ H3]. apply Forall_fmap in H3.
    eapply Forall_impl; [exact H3|]. by intros a (_ & ? & _). }
  assert (Forall (λ a, message_ok bkt key st a ∧ VKey (va_Record a) = []) l') as Hall' by (by rewrite <- Hp).
  rewrite (deliver_all s bkt key st l), (deliver_all s bkt key st l') by first [done|intros ->; by apply Hne, Permutation_nil_r].
  rewrite SetBucketVersioning_run by done. cbn [snd].
  set (s1 := with_vdb _ s).
  assert (batch_ok bkt key (va_Record <$> l')) as Hl' by (destruct Hl as [H1 H2 H3]; split; by rewrite <- Hp).
  destruct (replicate_chain s1 bkt key (va_Record <$> l) Hb0 Hk0 Hb Hk Hi Hs Hno Hl) as (b1 & E1 & C1).
  destruct (replicate_chain s1 bkt key (va_Record <$> l') Hb0 Hk0 Hb Hk Hi Hs Hno Hl') as (b2 & E2 & C2).
  assert (b1 = b2) as <-.
  { eapply chain_state_unique; [exact Hb|exact Hk| |exact C1|exact C2]. by rewrite !reverse_Permutation, Hp. }
  rewrite E1, E2. split_and!; [done| |].
  - unfold BucketVersioning. cbn. apply lookup_insert_eq.
  - intros r Hr.
    apply (has_GetVersion (with_vdb (set_versions b1 (vdb s1)) s1) bkt key (set_latest (newest r (va_Record <$> l)) r)).
    apply (cs_has _ _ _ _ _ C1). exists r. split; [by apply elem_of_reverse|].
    f_equal. apply newest_perm. by rewrite reverse_Permutation.
Qed.

(** The acknowledgement of a version record goes to node 0, whichever node sent
    the record: the messages carry no sender. *)
Lemma acknowledged_to_node_zero s a e :
  e ∈ (handleReplicateVersion text write s g (unsigned_rpc MsgReplicateVersion (Encode a))).2 →
  ∃ rpc, e = Sent 0 rpc.
Proof.
  unfold handleReplicateVersion. cbn [Payload From unsigned_rpc]. unfold sends. repeat case_match; cbn; set_solver.
Qed.
End Delivery.

(** ** Witnesses *)
Definition w_args (id : Z) (r : VersionRecord) : ReplicateVersionArgs := mkRVA id xb xk r VersioningEnabled.
Definition w_sent : list ReplicateVersionArgs := imap (λ i r, w_args (Z.of_nat i) r) xbatch.

(** A codec that knows the messages of the example. *)
#[local] Instance w_version_codec : Codec ReplicateVersionArgs := {|
  Encode a := [z2b (va_RequestID a)];
  Decode b := match b with [c] => w_sent !! Z.to_nat (b2z c) | _ => None end
|}.
#[local] Instance w_codec {A} : Codec A | 100 := {| Encode _ := []; Decode _ := None |}.

Definition w_text (e : error) : bytes := bs "failed".
Definition w_gossip : Gossiper :=
  mkG (DefaultGossipConfig 1) {[ 2 := SetConn (Some 7) (NewPeer (bs "b:1") 5) ]} ∅ ∅ 0 [] None true.
Definition w_write : Z → bool := λ _, true.

Lemma version_records_converge_witness :
  foldl (deliver w_text w_write w_gossip) vx0 w_sent = foldl (deliver w_text w_write w_gossip) vx0 (reverse w_sent)
  ∧ BucketVersioning (foldl (deliver w_text w_write w_gossip) vx0 w_sent) xb = Some VersioningEnabled
  ∧ ∀ r, r ∈ va_Record <$> w_sent →
      GetVersion (foldl (deliver w_text w_write w_gossip) vx0 w_sent) xb xk (VersionID r)
      = Ok (set_key xk (set_latest (newest r (va_Record <$> w_sent)) r)).
Proof.
  apply (version_records_converge w_text w_write w_gossip vx0 xb xk VersioningEnabled w_sent (reverse w_sent));
    [done|done|apply xb_free|apply xk_free|apply (bool_decide_unpack _); vm_compute; done
    |apply (bool_decide_unpack _); vm_compute; done|done|by left|apply vx0_inv| | |apply xbatch_ok| |done
    |by rewrite reverse_Permutation].
  - intros k v. cbn. by rewrite lookup_empty.
  - intros r. unfold has_version. cbn. by rewrite lookup_empty.
  - repeat constructor; try (apply (bool_decide_unpack _); vm_compute; done); done.
Defined.

(** Node 1 sends a record to node 2; a reply with its number arrives. *)
Definition w_begun : MetadataRPCProvider :=
  (replicate_begin w_write (NewMetadataRPCProvider 1) w_gossip 2 (w_args 0 xrec1)).1.2.
Definition w_reply : RPC := mkRPC 2 MsgReplicateVersionResponse [].

Lemma version_replication_never_arrives_witness :
  (replicate_end (consume w_text w_write w_begun vx0 w_gossip w_reply 9).1 1 false).1 = Err (Errno ETIMEDOUT)
  ∧ vdb (consume w_text w_write w_begun vx0 w_gossip w_reply 9).2 = vdb vx0.
Proof.
  apply (version_replication_never_arrives w_text w_write 1 vx0).
  eapply rtc_l; [apply (ms_begin w_text w_write _ _ w_gossip 2 (w_args 0 xrec1))|].
  apply rtc_once. rewrite <- surjective_pairing. apply ms_arrive.
Defined.

(** A shard listing stops at its limit without a continuation token. *)
Definition w_store : VStore (gmap bytes bytes) :=
  with_cas (Put (Put (cas vx0) (bs "a") (bs "h") 1 [] None 3).2 (bs "b") (bs "h") 1 [] None 4).2 vx0.

Example list_shard_truncates :
  list_reply w_text w_store (mkLSA [] [] [] 1 [] false) = mkLSR [mkFile (bs "a") (bs "h") 1 [] 3] [] [] []
  ∧ Name <$> lr_Files (list_reply w_text w_store (mkLSA [] [] [] 0 [] false)) = [bs "a"; bs "b"].
Proof. split; vm_compute; reflexivity. Qed.

(** A name that is not UTF-8 is replicated under another name. *)
Example invalid_key_renamed :
  va_Key (json_args (mkRVA 1 xb [Byte.xff] xrec1 VersioningEnabled)) = replacement.
Proof. vm_compute. reflexivity. Qed.
