(* ===== verification/Config.v ===== *)
(** * Configuration (src/src/common/config.go)

    The loader: each section is read into its record with defaults and bounds,
    and the sections are checked against each other.  The INI library is not
    under src/: a parsed file is its list of sections, a section answers
    [GetKey], and the library's conversions of a value ([Bool], [Int],
    [Float64], [Duration]) are arguments; [Key] of a missing key reads as the
    empty string, as the library documents.  Log lines are not modelled. *)
From Stdlib Require SpecFloat.
From S2P Require Import Prelude GoText Float64 Rebalance Hashes Json Access Adaptive Volume VolumeTheorems Ingest Protocol Gossip.
Open Scope Z_scope.

Definition IniSection : Type := bytes → option bytes.
Definition IniFile : Type := list (bytes * IniSection).

Definition SectionStrings (f : IniFile) : list bytes := f.*1.
Definition GetSection (f : IniFile) (name : bytes) : option IniSection :=
  (λ r, r.2.2) <$> list_find (λ x : bytes * IniSection, x.1 = name) f.

Definition BackendLocal : bytes := bs "local".
Definition BackendNFS : bytes := bs "nfs".
Definition BackendS3 : bytes := bs "s3".
Definition BackendRaw : bytes := bs "raw".
Definition BackendVolume : bytes := bs "volume".
Definition BackendAdaptive : bytes := bs "adaptive".
Definition backends : list bytes := [BackendLocal; BackendNFS; BackendS3; BackendRaw; BackendVolume; BackendAdaptive].

(** ** Data *)
Record ConfigurationGlobal := mkGlobal {
  Debug : bool; Protocol : bytes; GAuthToken : bytes; ReplicationOrder : list Z;
  ClientSideReplicationModes : list Z; ReplicationFactor : Z; MinimumDurabilityFactor : Z;
  WriteQuorum : Z; PolymorphicSystem : bool; CACertPath : bytes; TLSCertPath : bytes; TLSKeyPath : bytes;
  TLSInsecure : bool; EncryptionEnabled : bool; EncryptionKey : bytes; EncryptionTenant : bytes;
  OPRFEnabled : bool; OPRFThreshold : Z; E2EEKey : bytes; E2EEKeyID : bytes; AuthBackoffDelay : Z
}.
Record ConfigurationMetrics := mkMetrics {
  Interval : Z; MaxThreshold : float64; MinThreshold : float64; FallbackInterval : Z;
  PrometheusPort : Z; PrometheusBindHost : bytes; EnableLatencyHistograms : bool
}.
Record ConfigurationP2P := mkP2P {
  P2PEnabled : bool; GossipPort : bytes; P2PGossipInterval : Z; P2PSuspicionTimeout : Z; P2PFanout : Z;
  P2PPingTimeout : Z; P2PIndirectPingCount : Z; ScatterGatherTimeout : Z; LeaseTimeout : Z;
  TLSCertFile : bytes; TLSKeyFile : bytes; TLSCAFile : bytes
}.
Record ConfigurationStorage := mkStorage {
  Backend : bytes; GCInterval : Z; TombstoneRetention : Z; ScrubInterval : Z; SVerifyOnRead : bool;
  RebuildInterval : Z; DegradedRead : bool; RebuildWorkers : Z; SDurability : bytes;
  AdaptiveThreshold : Z; VolumeSize : Z; S3Endpoint : bytes; S3Region : bytes; S3Bucket : bytes;
  S3AccessKey : bytes; S3SecretKey : bytes; S3ServerAccessKey : bytes; S3ServerSecretKey : bytes;
  S3PathStyle : bool; S3Insecure : bool; RawDevicePath : bytes
}.
Record Daemon := mkDaemon {
  Host : bytes; ChangeReplication : bytes; Data : bytes; Drive : bytes; FailureDomain : bytes;
  MetricsBindHost : bytes; MetricsBindPort : Z; OPRFShare : bytes; OPRFShareIndex : Z
}.
Record AuditConfig := mkAuditCfg { AuditEnabled : bool; RetentionDays : Z }.
Record ConfigurationMomofs := mkMomofs { MomofsEnabled : bool; MetadataReplication : Z; MetadataQuorum : Z; MetadataTTL : Z }.
Record ConfigurationS3 := mkS3Cfg { LifecycleWorkerInterval : Z; NotificationRetryMax : Z }.
Definition SecretsSourceEnv : bytes := bs "env".
Definition SecretsSourceFile : bytes := bs "file".
Definition SecretsSourceVault : bytes := bs "vault".
Definition SecretsSourceAWS : bytes := bs "aws-sm".
Definition SecretsSourceGCP : bytes := bs "gcp-sm".
Definition SecretsSourceAzure : bytes := bs "azure-kv".
Definition secret_sources : list bytes :=
  [SecretsSourceEnv; SecretsSourceFile; SecretsSourceVault; SecretsSourceAWS; SecretsSourceGCP; SecretsSourceAzure].

(** The options of one source, by the name of the field they fill. *)
Record SecretsSourceConfig := mkSource { SCSource : bytes; SCOptions : gmap bytes bytes }.
Record SecretsConfig := mkSecrets {
  SecretsEnabled : bool; SecretsSources : list bytes; SourceConfigs : gmap bytes SecretsSourceConfig;
  RotationInterval : Z; RotationGracePeriod : Z; SecretsEnvPrefix : bytes; SecretsFilePath : bytes
}.
Record Configuration := mkConfig {
  Daemons : list Daemon; Global : ConfigurationGlobal; Metrics : ConfigurationMetrics;
  P2P : ConfigurationP2P; Storage_ : ConfigurationStorage; Tenants : gmap bytes TenantConfig;
  Audit : AuditConfig; Momofs : ConfigurationMomofs; Secrets : SecretsConfig;
  S3_ : ConfigurationS3; Rebalance_ : ConfigurationRebalance
}.

(** ** Defaults *)
Definition second_ns : Z := 10 ^ 9.
Definition defaultRebalanceConfig : ConfigurationRebalance :=
  mkRebalance false 60 (f64 85) (f64 70) 64 (f64 0).
Definition defaultS3Config : ConfigurationS3 := mkS3Cfg 0 3.
Definition defaultAuditConfig : AuditConfig := mkAuditCfg false 365.
Definition defaultStorageConfig : ConfigurationStorage :=
  mkStorage BackendLocal 300 86400 3600 true 300 true 4 [] 0 0 [] [] [] [] [] [] [] false false [].
Definition zeroP2P : ConfigurationP2P := mkP2P false [] 0 0 0 0 0 0 0 [] [] [].
Definition zeroMomofs : ConfigurationMomofs := mkMomofs false 0 0 0.
Definition zeroSecrets : SecretsConfig := mkSecrets false [] ∅ 0 0 [] [].

Definition einval {A} : result A := Err (Errno EINVAL).
Definition check (ok : bool) (e : error) : result unit := if ok then Ok tt else Err e.
Definition of_option {A} (e : error) (o : option A) : result A := match o with Some a => Ok a | None => Err e end.

(** The pieces between commas that the [IndexByte] loops visit; blank pieces
    are skipped. *)
Fixpoint split_comma (s : bytes) : list bytes :=
  match s with
  | [] => [[]]
  | x :: s' =>
      if decide (x = ch_comma) then [] :: split_comma s'
      else match split_comma s' with
           | [] => [[x]]
           | seg :: rest => (x :: seg) :: rest
           end
  end.

Fixpoint parse_modes (parts : list bytes) : result (list Z) :=
  match parts with
  | [] => Ok []
  | p :: ps =>
      let t := trim_space p in
      if decide (t = []) then parse_modes ps
      else let! v := of_option ErrPlain (parse_int64 t) in
           let! vs := parse_modes ps in
           Ok (v :: vs)
  end.

Section Loader.
(** [Key.Bool], [Key.Int] and [Key.Int64], [Key.Float64], and
    [time.ParseDuration], which [Key.Duration] is. *)
Variable parse_bool : bytes → option bool.
Variable parse_int : bytes → option Z.
(** What [Key.Int64] returns when its error is ignored. *)
Variable int_value : bytes → Z.
Variable parse_float : bytes → option float64.
Variable parse_duration : bytes → option Z.

(** [section.Key(k).String()] and the [Must] conversions. *)
Definition str (s : IniSection) (k : bytes) : bytes := default [] (s k).
Definition must_bool (s : IniSection) (k : bytes) (d : bool) : bool := default d (parse_bool (str s k)).
Definition must_int (s : IniSection) (k : bytes) (d : Z) : Z := default d (parse_int (str s k)).
Definition must_float (s : IniSection) (k : bytes) (d : float64) : float64 := default d (parse_float (str s k)).
Definition must_duration (s : IniSection) (k : bytes) (d : Z) : Z := default d (parse_duration (str s k)).
(** A positive integer, or the default. *)
Definition positive_int (s : IniSection) (k : bytes) (d : Z) : Z :=
  let v := must_int s k d in if v <=? 0 then d else v.
(** A key that is there and converts, else the default: a value that does not
    convert is passed over. *)
Definition lenient {A} (conv : bytes → option A) (s : IniSection) (k : bytes) (d : A) : A :=
  match s k with Some v => default d (conv v) | None => d end.

(** ** [global] *)
Definition protocols : list bytes := [bs "momo-tcp"; bs "momo-quic"; bs "s3-tcp"; bs "s3-quic"].
Definition replication_factor (s : IniSection) : result Z :=
  match s (bs "replication_factor") with
  | None => Ok 3
  | Some v => match parse_int v with
              | Some n => if n <? 1 then Err ErrPlain else Ok n
              | None => Err ErrPlain
              end
  end.
Definition protocol (s : IniSection) : result bytes :=
  match s (bs "protocol") with
  | None => Ok (bs "momo-tcp")
  | Some v => let! _ := check (bool_decide (v ∈ protocols)) ErrPlain in Ok v
  end.

(** A 256-bit key in hexadecimal. *)
Definition check_key (key : bytes) : result unit :=
  let! _ := check (length key =? 64)%nat (Errno EINVAL) in
  let! _ := of_option ErrPlain (hex_decode key) in Ok tt.

Definition loadGlobalConfig (s : IniSection) : result ConfigurationGlobal :=
  let! debug := of_option ErrPlain (parse_bool (str s (bs "debug"))) in
  let token := str s (bs "auth_token") in
  let! _ := check (negb (bool_decide (token = []))) ErrPlain in
  let order := str s (bs "replication_order") in
  let! _ := check (negb (bool_decide (order = []))) ErrPlain in
  let! modes := parse_modes (split_comma order) in
  let! _ := check (negb (bool_decide (modes = []))) (Errno EINVAL) in
  let! polymorphic := of_option ErrPlain (parse_bool (str s (bs "polymorphic_system"))) in
  let! factor := replication_factor s in
  let floor := lenient parse_int s (bs "minimum_durability_factor") 0 in
  let! _ := check (0 <=? floor) (Errno EINVAL) in
  let! _ := check (floor <=? factor) (Errno EINVAL) in
  let quorum := lenient parse_int s (bs "write_quorum") 1 in
  let! _ := check ((1 <=? quorum) && (quorum <=? factor)) (Errno EINVAL) in
  let! proto := protocol s in
  let! _ := check (length token <=? AuthTokenLength)%nat ErrPlain in
  let backoff := lenient parse_int s (bs "auth_backoff_delay") 0 in
  let! _ := check (0 <=? backoff) (Errno EINVAL) in
  let e2ee := str s (bs "e2ee_key") in
  let! _ := if decide (e2ee = []) then Ok tt else check_key e2ee in
  let e2ee_id := str s (bs "e2ee_key_id") in
  let enabled := lenient parse_bool s (bs "encryption_enabled") false in
  let key := str s (bs "encryption_key") in
  let! _ := if enabled then check_key key else Ok tt in
  let tenant := str s (bs "encryption_tenant") in
  let oprf := lenient parse_bool s (bs "oprf_enabled") false in
  let! threshold :=
    match s (bs "oprf_threshold") ≫= parse_int with
    | Some v => if v <? 1 then einval else Ok v
    | None => Ok 0
    end in
  let! _ := check (bool_decide (e2ee = []) || negb oprf) (Errno EINVAL) in
  Ok (mkGlobal debug proto token modes [ReplicationPrimarySplay] factor floor quorum polymorphic
        (str s (bs "ca_cert")) (str s (bs "tls_cert")) (str s (bs "tls_key"))
        (lenient parse_bool s (bs "tls_insecure") false) enabled key
        (if decide (tenant = []) then bs "default" else tenant) oprf threshold e2ee
        (if decide (e2ee_id = []) then bs "default" else e2ee_id) backoff).

(** [client_side_replication_modes], parsed in [GetConfig]. *)
Definition client_side_modes (s : IniSection) (g : ConfigurationGlobal) : result (list Z) :=
  let v := str s (bs "client_side_replication_modes") in
  if decide (v = []) then Ok (ClientSideReplicationModes g)
  else let! modes := parse_modes (split_comma v) in
       Ok (match modes with [] => ClientSideReplicationModes g | _ => modes end).

(** ** The other sections *)
Definition loadMetricsConfig (s : IniSection) : result ConfigurationMetrics :=
  let! interval := of_option ErrPlain (parse_int (str s (bs "interval"))) in
  let! lo := of_option ErrPlain (parse_float (str s (bs "min_threshold"))) in
  let! hi := of_option ErrPlain (parse_float (str s (bs "max_threshold"))) in
  let! fallback := of_option ErrPlain (parse_int (str s (bs "fallback_interval"))) in
  let! _ := check (0 <? fallback) (Errno EINVAL) in
  Ok (mkMetrics interval hi lo fallback (must_int s (bs "prometheus_port") 0) (str s (bs "prometheus_bind_host"))
        (must_bool s (bs "enable_latency_histograms") false)).

Definition loadP2PConfig (s : IniSection) : result ConfigurationP2P :=
  let port := str s (bs "gossip_port") in
  let fanout := must_int s (bs "fanout") 0 in
  let! _ := check (0 <=? fanout) (Errno EINVAL) in
  Ok (mkP2P (must_bool s (bs "enabled") false) (if decide (port = []) then bs "4450" else port)
        (positive_int s (bs "gossip_interval") 1) (positive_int s (bs "suspicion_timeout") 5) fanout
        (positive_int s (bs "ping_timeout") 500) (Z.min 10 (positive_int s (bs "indirect_ping_count") 3))
        (positive_int s (bs "scatter_gather_timeout") 5) (positive_int s (bs "lease_timeout") 10)
        (str s (bs "tls_cert_file")) (str s (bs "tls_key_file")) (str s (bs "tls_ca_file"))).

Definition storageDurabilityNames : list bytes := [bs "fsync"; bs "group-commit"; bs "none"].

Definition loadStorageConfig (s : IniSection) : result ConfigurationStorage :=
  let backend := match str s (bs "backend") with [] => BackendLocal | b => b end in
  let! _ := check (bool_decide (backend ∈ backends)) (Errno EINVAL) in
  let durability := str s (bs "durability") in
  let! _ := check (bool_decide (durability = []) || bool_decide (durability ∈ storageDurabilityNames)) (Errno EINVAL) in
  let volume := positive_int s (bs "volume_size") DefaultVolumeSizeBytes in
  let! _ := check (volume <=? MaxVolumeSizeBytes) (Errno EINVAL) in
  let access := str s (bs "s3_server_access_key") in
  let secret := str s (bs "s3_server_secret_key") in
  let! _ := check (Bool.eqb (bool_decide (access = [])) (bool_decide (secret = []))) (Errno EINVAL) in
  let! _ := check (length access <=? AuthTokenLength)%nat ErrPlain in
  let! _ := check (length secret <=? AuthTokenLength)%nat ErrPlain in
  Ok (mkStorage backend (positive_int s (bs "gc_interval") 300) (positive_int s (bs "tombstone_retention") 86400)
        (positive_int s (bs "scrub_interval") 3600) (must_bool s (bs "verify_on_read") true)
        (positive_int s (bs "rebuild_interval") 300) (must_bool s (bs "degraded_read") true)
        (positive_int s (bs "rebuild_workers") 4) durability
        (positive_int s (bs "adaptive_threshold") DefaultAdaptiveThreshold) volume
        (str s (bs "s3_endpoint")) (str s (bs "s3_region")) (str s (bs "s3_bucket")) (str s (bs "s3_access_key"))
        (str s (bs "s3_secret_key")) access secret (must_bool s (bs "s3_path_style") true)
        (must_bool s (bs "s3_insecure") false) (str s (bs "raw_device_path"))).

Definition percent_ok (x : float64) : bool :=
  negb (SpecFloat.SFleb x (f64 0)) && negb (SpecFloat.SFltb (f64 100) x).

Definition loadRebalanceConfig (s : IniSection) : result ConfigurationRebalance :=
  let interval := must_int s (bs "interval") 60 in
  let hi := must_float s (bs "disk_high_water") (f64 85) in
  let lo := must_float s (bs "disk_low_water") (f64 70) in
  let shed := must_int s (bs "max_shed_per_cycle") 64 in
  let mbps := must_float s (bs "max_bandwidth_mbps") (f64 0) in
  let! _ := check (0 <? interval) (Errno EINVAL) in
  let! _ := check (percent_ok hi) (Errno EINVAL) in
  let! _ := check (negb (SpecFloat.SFltb lo (f64 0)) && negb (SpecFloat.SFleb hi lo)) (Errno EINVAL) in
  let! _ := check (0 <? shed) (Errno EINVAL) in
  let! _ := check (negb (SpecFloat.SFltb mbps (f64 0))) (Errno EINVAL) in
  Ok (mkRebalance (must_bool s (bs "enabled") false) interval hi lo shed mbps).

Definition loadMomofsConfig (s : IniSection) : result ConfigurationMomofs :=
  let consistency := str s (bs "consistency") in
  let! _ := check (bool_decide (consistency = []) || bool_decide (consistency = bs "cached")) (Errno EINVAL) in
  Ok (mkMomofs (must_bool s (bs "enabled") false) (must_int s (bs "metadata_replication") 3)
        (must_int s (bs "metadata_quorum") 0) (must_duration s (bs "metadata_ttl") (60 * second_ns))).

Definition loadS3Config (s : IniSection) : result ConfigurationS3 :=
  let worker := must_duration s (bs "lifecycle_worker_interval") 0 in
  let! _ := check (0 <=? worker) (Errno EINVAL) in
  let retry := must_int s (bs "notification_retry_max") 3 in
  let! _ := check (1 <=? retry) (Errno EINVAL) in
  Ok (mkS3Cfg worker retry).

Definition loadAuditConfig (s : IniSection) : result AuditConfig :=
  let days := must_int s (bs "retention_days") 365 in
  let! _ := check (1 <=? days) (Errno EINVAL) in
  Ok (mkAuditCfg (must_bool s (bs "enabled") false) days).

(** ** [secrets] *)
Definition parseOptionalDuration (s : IniSection) (k : bytes) : result Z :=
  match str s k with [] => Ok 0 | v => of_option (Errno EINVAL) (parse_duration v) end.

Fixpoint check_sources (parts : list bytes) : result (list bytes) :=
  match parts with
  | [] => Ok []
  | p :: ps =>
      let src := trim_space p in
      let! _ := check (bool_decide (src ∈ secret_sources)) (Errno EINVAL) in
      let! rest := check_sources ps in
      Ok (src :: rest)
  end.
Definition parseSecretSources (s : IniSection) : result (list bytes) :=
  match str s (bs "sources") with [] => Ok [] | v => check_sources (split_comma v) end.

Definition loadSecretsBase (s : IniSection) : result SecretsConfig :=
  let! interval := parseOptionalDuration s (bs "rotation_interval") in
  let! grace := parseOptionalDuration s (bs "rotation_grace_period") in
  let! sources := parseSecretSources s in
  Ok (mkSecrets (must_bool s (bs "enabled") false) sources ∅ interval
        (if decide (grace = 0) then 86400 * second_ns else grace)
        (str s (bs "env_prefix")) (str s (bs "file_path"))).

(** The keys of a [secrets.<source>] section, by source. *)
Definition source_keys (source : bytes) : list bytes :=
  if decide (source = SecretsSourceEnv) then [bs "prefix"]
  else if decide (source = SecretsSourceFile) then [bs "path"]
  else if decide (source = SecretsSourceVault) then [bs "address"; bs "token"; bs "path"; bs "mount"]
  else if decide (source = SecretsSourceAWS) then [bs "region"; bs "secret_name"]
  else if decide (source = SecretsSourceGCP) then [bs "project_id"; bs "secret_id"; bs "version"]
  else if decide (source = SecretsSourceAzure) then [bs "vault_url"; bs "secret_name"; bs "version"]
  else [].
Definition fillSourceConfig (child : IniSection) (source : bytes) : gmap bytes bytes :=
  list_to_map ((λ k, (k, str child k)) <$> source_keys source).
Definition option_default (k v : bytes) (m : gmap bytes bytes) : gmap bytes bytes :=
  match default [] (m !! k) with [] => <[k := v]> m | _ => m end.

Definition loadSourceConfig (f : IniFile) (source : bytes) : SecretsSourceConfig :=
  let options := match GetSection f (bs "secrets." ++ source) with
                 | Some child => fillSourceConfig child source
                 | None => ∅
                 end in
  mkSource source
    (if decide (source = SecretsSourceEnv) then option_default (bs "prefix") (bs "MOMO_") options
     else if decide (source = SecretsSourceFile) then option_default (bs "path") (bs "conf/momo.conf") options
     else options).

Definition loadSecretsConfig (f : IniFile) : result SecretsConfig :=
  match GetSection f (bs "secrets") with
  | None => Ok zeroSecrets
  | Some s =>
      let! c := loadSecretsBase s in
      Ok (mkSecrets (SecretsEnabled c) (SecretsSources c)
            (list_to_map ((λ src, (src, loadSourceConfig f src)) <$> SecretsSources c))
            (RotationInterval c) (RotationGracePeriod c) (SecretsEnvPrefix c) (SecretsFilePath c))
  end.

(** ** [tenant.*] and [daemon.*] *)
Definition load_tenant (s : IniSection) : result TenantConfig :=
  let id := str s (bs "id") in
  let! _ := check (negb (bool_decide (id = []))) ErrPlain in
  let key := str s (bs "master_key_id") in
  let! _ := check (negb (bool_decide (key = []))) ErrPlain in
  let token := str s (bs "auth_token") in
  let! _ := check (negb (bool_decide (token = []))) ErrPlain in
  let! _ := check (length token <=? AuthTokenLength)%nat ErrPlain in
  Ok (mkTenant id key token (int_value (str s (bs "quota_bytes"))) (int_value (str s (bs "quota_objects")))
        (must_bool s (bs "enabled") true)).

Fixpoint tenants_loop (sections : IniFile) (acc : gmap bytes TenantConfig) : result (gmap bytes TenantConfig) :=
  match sections with
  | [] => Ok acc
  | (name, s) :: rest =>
      if has_prefix name (bs "tenant.") then
        let! t := load_tenant s in
        let! _ := check (negb (bool_decide (is_Some (acc !! TID t)))) ErrPlain in
        tenants_loop rest (<[TID t := t]> acc)
      else tenants_loop rest acc
  end.
Definition loadTenantsConfig (f : IniFile) : result (gmap bytes TenantConfig) := tenants_loop f ∅.

Definition required (s : IniSection) (k : bytes) : result bytes :=
  match str s k with [] => Err ErrPlain | v => Ok v end.
Definition metrics_port (s : IniSection) : result Z :=
  match s (bs "metrics_port") with
  | None => Ok 0
  | Some v => let! p := of_option (Errno EINVAL) (parse_int v) in
              let! _ := check ((1 <=? p) && (p <=? 65535)) (Errno EINVAL) in Ok p
  end.
Definition load_daemon (s : IniSection) : result Daemon :=
  let! change := required s (bs "change_replication") in
  let! data := required s (bs "data") in
  let! drive := required s (bs "drive") in
  let! host := required s (bs "host") in
  let share := str s (bs "oprf_share") in
  let! _ := if decide (share = []) then Ok [] else of_option ErrPlain (hex_decode share) in
  let! port := metrics_port s in
  Ok (mkDaemon host change data drive (str s (bs "failure_domain")) (str s (bs "metrics_host")) port share
        (lenient parse_int s (bs "oprf_share_index") 0)).

Fixpoint daemons_loop (sections : IniFile) : result (list Daemon) :=
  match sections with
  | [] => Ok []
  | (name, s) :: rest =>
      if has_prefix name (bs "daemon.") then
        let! d := load_daemon s in
        let! ds := daemons_loop rest in
        Ok (d :: ds)
      else daemons_loop rest
  end.
Definition loadDaemons (f : IniFile) : result (list Daemon) :=
  let! ds := daemons_loop f in
  let! _ := check (negb (bool_decide (length ds = 0%nat))) ErrPlain in
  Ok ds.

(** ** Checks across sections *)

(** The shares of confidential deduplication: an index of 0 becomes the
    daemon's position. *)
Definition with_index (i : Z) (d : Daemon) : Daemon :=
  mkDaemon (Host d) (ChangeReplication d) (Data d) (Drive d) (FailureDomain d) (MetricsBindHost d) (MetricsBindPort d)
    (OPRFShare d) (if decide (OPRFShareIndex d = 0) then i else OPRFShareIndex d).

Fixpoint check_shares (n i : Z) (seen : gset Z) (ds : list Daemon) : result (list Daemon) :=
  match ds with
  | [] => Ok []
  | d :: rest =>
      let! _ := check (negb (bool_decide (OPRFShare d = []))) (Errno EINVAL) in
      let! _ := check (length (OPRFShare d) =? 64)%nat (Errno EINVAL) in
      let d := with_index (i + 1) d in
      let! _ := check ((1 <=? OPRFShareIndex d) && (OPRFShareIndex d <=? n)) (Errno EINVAL) in
      let! _ := check (negb (bool_decide (OPRFShareIndex d ∈ seen))) (Errno EINVAL) in
      let! ds := check_shares n (i + 1) ({[OPRFShareIndex d]} ∪ seen) rest in
      Ok (d :: ds)
  end.

Definition validateRebalanceConfig (p2p : ConfigurationP2P) (st : ConfigurationStorage) (factor : Z) (daemons : Z) : result unit :=
  check (P2PEnabled p2p && DegradedRead st && (2 <=? factor) && (2 <=? daemons)) (Errno EINVAL).

Definition validate_momofs (m : ConfigurationMomofs) (p2p : ConfigurationP2P) (daemons : Z) : result unit :=
  check (negb (MomofsEnabled m)
         || ((1 <=? MetadataReplication m) && (MetadataReplication m <=? daemons)
             && ((MetadataQuorum m =? 0) || ((1 <=? MetadataQuorum m) && (MetadataQuorum m <=? MetadataReplication m)))
             && (0 <=? MetadataTTL m) && P2PEnabled p2p)) (Errno EINVAL).

(** An optional section, or its default. *)
Definition optional {A} (f : IniFile) (name : bytes) (load : IniSection → result A) (d : A) : result A :=
  match GetSection f name with Some s => load s | None => Ok d end.

Definition with_modes (modes : list Z) (threshold : Z) (g : ConfigurationGlobal) : ConfigurationGlobal :=
  mkGlobal (Debug g) (Protocol g) (GAuthToken g) (ReplicationOrder g) modes (ReplicationFactor g)
    (MinimumDurabilityFactor g) (WriteQuorum g) (PolymorphicSystem g) (CACertPath g) (TLSCertPath g) (TLSKeyPath g)
    (TLSInsecure g) (EncryptionEnabled g) (EncryptionKey g) (EncryptionTenant g) (OPRFEnabled g) threshold
    (E2EEKey g) (E2EEKeyID g) (AuthBackoffDelay g).

(** [GetConfig] of a file that [ini.Load] has parsed. *)
Definition GetConfig (f : IniFile) : result Configuration :=
  let! gs := of_option ErrPlain (GetSection f (bs "global")) in
  let! g := loadGlobalConfig gs in
  let! modes := client_side_modes gs g in
  let! ms := of_option ErrPlain (GetSection f (bs "metrics")) in
  let! metrics := loadMetricsConfig ms in
  let! daemons := loadDaemons f in
  let n := Z.of_nat (length daemons) in
  let threshold := if decide (OPRFThreshold g = 0) then n else OPRFThreshold g in
  let g := with_modes modes threshold g in
  let! _ := check (threshold <=? n) (Errno EINVAL) in
  let! daemons := if OPRFEnabled g then check_shares n 0 ∅ daemons else Ok daemons in
  let! p2p := optional f (bs "p2p") loadP2PConfig zeroP2P in
  let! _ := check (negb (OPRFEnabled g) || (threshold <=? 1) || P2PEnabled p2p) (Errno EINVAL) in
  let! storage := optional f (bs "storage") loadStorageConfig defaultStorageConfig in
  let! s3 := optional f (bs "s3") loadS3Config defaultS3Config in
  let! rebalance := optional f (bs "rebalance") loadRebalanceConfig defaultRebalanceConfig in
  let! _ := if REnabled rebalance then validateRebalanceConfig p2p storage (ReplicationFactor g) n else Ok tt in
  let! momofs := optional f (bs "momofs") loadMomofsConfig zeroMomofs in
  let! _ := validate_momofs momofs p2p n in
  let! tenants := loadTenantsConfig f in
  let! audit := optional f (bs "audit") loadAuditConfig defaultAuditConfig in
  let! secrets := loadSecretsConfig f in
  Ok (mkConfig daemons g metrics p2p storage tenants audit momofs secrets s3 rebalance).
End Loader.

(** * What an accepted configuration promises *)

(** A 256-bit key in hexadecimal. *)
Definition key256 (k : bytes) : Prop := ∃ b, hex_decode k = Some b ∧ length b = 32%nat.

Record global_ok (g : ConfigurationGlobal) : Prop := {
  go_token : GAuthToken g ≠ [] ∧ (length (GAuthToken g) <= AuthTokenLength)%nat;
  go_order : ReplicationOrder g ≠ [];
  go_factor : 1 <= ReplicationFactor g;
  go_floor : 0 <= MinimumDurabilityFactor g <= ReplicationFactor g;
  go_quorum : 1 <= WriteQuorum g <= ReplicationFactor g;
  go_protocol : Protocol g ∈ protocols;
  go_backoff : 0 <= AuthBackoffDelay g;
  go_e2ee : E2EEKey g = [] ∨ key256 (E2EEKey g);
  go_encryption : EncryptionEnabled g = true → key256 (EncryptionKey g);
  go_exclusive : E2EEKey g = [] ∨ OPRFEnabled g = false;
  go_threshold : 0 <= OPRFThreshold g
}.

Record p2p_ok (p : ConfigurationP2P) : Prop := {
  po_port : GossipPort p ≠ [];
  po_times : 0 < P2PGossipInterval p ∧ 0 < P2PSuspicionTimeout p ∧ 0 < P2PPingTimeout p
             ∧ 0 < ScatterGatherTimeout p ∧ 0 < LeaseTimeout p;
  po_fanout : 0 <= P2PFanout p;
  po_indirect : 1 <= P2PIndirectPingCount p <= 10
}.

Record storage_ok (s : ConfigurationStorage) : Prop := {
  so_backend : Backend s ∈ backends;
  so_times : 0 < GCInterval s ∧ 0 < TombstoneRetention s ∧ 0 < ScrubInterval s ∧ 0 < RebuildInterval s
             ∧ 0 < RebuildWorkers s;
  so_durability : SDurability s = [] ∨ SDurability s ∈ storageDurabilityNames;
  so_volume : 0 <= VolumeSize s <= MaxVolumeSizeBytes;
  so_pair : S3ServerAccessKey s = [] ↔ S3ServerSecretKey s = [];
  so_fields : (length (S3ServerAccessKey s) <= AuthTokenLength)%nat ∧ (length (S3ServerSecretKey s) <= AuthTokenLength)%nat
}.

Record daemon_ok (d : Daemon) : Prop := {
  do_fields : Host d ≠ [] ∧ ChangeReplication d ≠ [] ∧ Data d ≠ [] ∧ Drive d ≠ [];
  do_port : MetricsBindPort d = 0 ∨ 1 <= MetricsBindPort d <= 65535;
  do_share : OPRFShare d = [] ∨ is_Some (hex_decode (OPRFShare d))
}.

Definition tenant_ok (id : bytes) (t : TenantConfig) : Prop :=
  TID t = id ∧ id ≠ [] ∧ MasterKeyID t ≠ [] ∧ AuthToken t ≠ [] ∧ (length (AuthToken t) <= AuthTokenLength)%nat.

(** The invariant of a loaded configuration. *)
Record config_ok (c : Configuration) : Prop := {
  co_global : global_ok (Global c);
  co_daemons : Daemons c ≠ [] ∧ Forall daemon_ok (Daemons c);
  co_threshold : 1 <= OPRFThreshold (Global c) <= Z.of_nat (length (Daemons c));
  co_shares : OPRFEnabled (Global c) = true →
    OPRFShareIndex <$> Daemons c ≡ₚ seqZ 1 (Z.of_nat (length (Daemons c)))
    ∧ Forall (λ d, key256 (OPRFShare d)) (Daemons c)
    ∧ (1 < OPRFThreshold (Global c) → P2PEnabled (P2P c) = true);
  co_fallback : 0 < FallbackInterval (Metrics c);
  co_p2p : P2P c = zeroP2P ∨ p2p_ok (P2P c);
  co_storage : storage_ok (Storage_ c);
  co_s3 : 0 <= LifecycleWorkerInterval (S3_ c) ∧ 1 <= NotificationRetryMax (S3_ c);
  co_rebalance : 0 < RInterval (Rebalance_ c) ∧ 0 < MaxShedPerCycle (Rebalance_ c)
    ∧ (REnabled (Rebalance_ c) = true →
       P2PEnabled (P2P c) = true ∧ DegradedRead (Storage_ c) = true
       ∧ 2 <= ReplicationFactor (Global c) ∧ (2 <= length (Daemons c))%nat);
  co_momofs : MomofsEnabled (Momofs c) = true →
    1 <= MetadataReplication (Momofs c) <= Z.of_nat (length (Daemons c)) ∧ P2PEnabled (P2P c) = true;
  co_tenants : map_Forall tenant_ok (Tenants c);
  co_audit : 1 <= RetentionDays (Audit c)
}.

(** What the loader checks besides, of the optional sections.  The tests on floating
    point numbers are as the code writes them; a NaN passes them. *)
Record sections_ok (c : Configuration) : Prop := {
  se_momofs : MomofsEnabled (Momofs c) = true →
    (MetadataQuorum (Momofs c) = 0 ∨ 1 <= MetadataQuorum (Momofs c) <= MetadataReplication (Momofs c)) ∧ 0 <= MetadataTTL (Momofs c);
  se_water : percent_ok (DiskHighWater (Rebalance_ c)) = true
    ∧ SpecFloat.SFltb (DiskLowWater (Rebalance_ c)) (f64 0) = false
    ∧ SpecFloat.SFleb (DiskHighWater (Rebalance_ c)) (DiskLowWater (Rebalance_ c)) = false;
  se_sources : Forall (λ src, src ∈ secret_sources) (SecretsSources (Secrets c))
}.

(** ** Lemmas *)
Ltac run_checks :=
  repeat match goal with
  | H : match ?c with Ok _ => _ | Err _ => _ end = Ok _ |- _ => destruct c as [?|?] eqn:?; [|discriminate H]
  end.

Lemma check_Ok b e u : check b e = Ok u → b = true.
Proof. unfold check. by destruct b. Qed.
Lemma of_option_Ok {A} e (o : option A) a : of_option e o = Ok a → o = Some a.
Proof. destruct o; simpl; congruence. Qed.

Ltac conditions :=
  repeat match goal with
  | H : check _ _ = Ok _ |- _ => apply check_Ok in H
  | H : of_option _ _ = Ok _ |- _ => apply of_option_Ok in H
  end; zbool;
  repeat match goal with
  | H : bool_decide _ = true |- _ => apply bool_decide_eq_true in H
  | H : bool_decide _ = false |- _ => apply bool_decide_eq_false in H
  | H : _ || _ = true |- _ => apply orb_prop in H
  end.

Lemma check_key_ok k u : check_key k = Ok u → key256 k.
Proof.
  unfold check_key. intros H. run_checks. conditions.
  match goal with E : hex_decode k = Some ?b |- _ => exists b; pose proof (hex_decode_length _ _ E) end.
  split; [done|lia].
Qed.

#[local] Arguments bs _ : simpl never.

Section Validity.
Variable parse_bool : bytes → option bool.
Variable parse_int : bytes → option Z.
Variable int_value : bytes → Z.
Variable parse_float : bytes → option float64.
Variable parse_duration : bytes → option Z.

Lemma replication_factor_ok s n : replication_factor parse_int s = Ok n → 1 <= n.
Proof. unfold replication_factor. repeat case_match; intros ?; simplify_eq; zbool; lia. Qed.

Lemma protocol_ok s p : protocol s = Ok p → p ∈ protocols.
Proof.
  unfold protocol. destruct (s _); intros H; [|injection H as <-; by left]. run_checks. injection H as <-. by conditions.
Qed.

Lemma loadGlobalConfig_ok s g : loadGlobalConfig parse_bool parse_int s = Ok g → global_ok g.
Proof.
  unfold loadGlobalConfig. intros H. run_checks. injection H as <-. conditions.
  repeat match goal with
  | E : replication_factor _ _ = Ok _ |- _ => apply replication_factor_ok in E
  | E : protocol _ = Ok _ |- _ => apply protocol_ok in E
  end.
  split; cbn; try solve [done|lia].
  - match goal with K : (if decide (?k = []) then _ else check_key _) = Ok _ |- _ =>
      destruct (decide (k = [])); [by left|right; by eapply check_key_ok] end.
  - intros E. match goal with K : (if _ then check_key _ else Ok tt) = Ok _ |- _ => rewrite E in K; by eapply check_key_ok end.
  - match goal with E : _ ∨ negb _ = true |- _ => destruct E as [E|E] end; zbool; [left; by conditions|by right].
  - repeat case_match; simplify_eq; zbool; lia.
Qed.

Lemma positive_int_pos s k d : 0 < d → 0 < positive_int parse_int s k d.
Proof. intros Hd. unfold positive_int. case_match; zbool; lia. Qed.

Lemma loadP2PConfig_ok s p : loadP2PConfig parse_bool parse_int s = Ok p → p2p_ok p.
Proof.
  unfold loadP2PConfig. intros H. run_checks. injection H as <-. conditions. split; cbn.
  - by case_decide.
  - split_and!; apply positive_int_pos; lia.
  - done.
  - pose proof (positive_int_pos s (bs "indirect_ping_count") 3). lia.
Qed.

Lemma loadStorageConfig_ok s c : loadStorageConfig parse_bool parse_int s = Ok c → storage_ok c.
Proof.
  unfold loadStorageConfig. intros H. run_checks. injection H as <-. conditions. split; cbn.
  - done.
  - split_and!; apply positive_int_pos; lia.
  - match goal with E : _ ∨ _ |- _ => destruct E as [E|E]; [left|right]; by conditions end.
  - pose proof (positive_int_pos s (bs "volume_size") DefaultVolumeSizeBytes ltac:(done)). lia.
  - match goal with E : Bool.eqb _ _ = true |- _ => revert E end. repeat case_bool_decide; cbn; naive_solver.
  - done.
Qed.

Lemma default_storage_ok : storage_ok defaultStorageConfig.
Proof. split; cbn; solve [done|lia|by left|unfold MaxVolumeSizeBytes; lia|split; lia]. Qed.

Lemma required_ok s k v : required s k = Ok v → v ≠ [].
Proof. unfold required. by case_match; intros [= <-]. Qed.

Lemma load_daemon_ok s d : load_daemon parse_int s = Ok d → daemon_ok d.
Proof.
  unfold load_daemon. intros H. run_checks. injection H as <-. split; cbn.
  - split_and!; by eapply required_ok.
  - match goal with K : metrics_port _ _ = Ok _ |- _ => revert K end. unfold metrics_port.
    destruct (s (bs "metrics_port")); intros K; [|injection K as <-; by left].
    run_checks. injection K as <-. conditions. right. lia.
  - match goal with K : (if decide (?k = []) then _ else _) = Ok _ |- _ => destruct (decide (k = [])); [by left|] end.
    conditions. by right.
Qed.

Lemma daemons_loop_ok f ds : daemons_loop parse_int f = Ok ds → Forall daemon_ok ds.
Proof.
  revert ds. induction f as [|[name s] f IH]; intros ds H; cbn in H; [injection H as <-; constructor|].
  destruct (has_prefix _ _); [|by apply IH]. run_checks. injection H as <-.
  constructor; [by eapply load_daemon_ok|by apply IH].
Qed.

Lemma tenants_loop_ok f acc m :
  map_Forall tenant_ok acc → tenants_loop parse_bool int_value f acc = Ok m → map_Forall tenant_ok m.
Proof.
  revert acc. induction f as [|[name s] f IH]; intros acc Ha H; cbn in H; [by injection H as <-|].
  destruct (has_prefix _ _); [|by eapply IH]. run_checks. eapply IH; [|exact H].
  apply map_Forall_insert_2; [|done].
  match goal with K : load_tenant _ _ _ = Ok _ |- _ => unfold load_tenant in K; rename K into Ht end.
  run_checks. injection Ht as <-. conditions. by split_and!.
Qed.

(** The shares accepted by [check_shares]. *)
Lemma check_shares_ok n i seen ds ds' :
  check_shares n i seen ds = Ok ds' →
  length ds' = length ds
  ∧ Forall (λ d, 1 <= OPRFShareIndex d <= n ∧ OPRFShareIndex d ∉ seen) ds'
  ∧ NoDup (OPRFShareIndex <$> ds')
  ∧ (Forall daemon_ok ds → Forall (λ d, daemon_ok d ∧ key256 (OPRFShare d)) ds').
Proof.
  revert i seen ds'. induction ds as [|d ds IH]; intros i seen ds' H; cbn in H; [injection H as <-; by repeat constructor|].
  run_checks. injection H as <-. conditions.
  match goal with K : check_shares _ _ _ _ = Ok _ |- _ => apply IH in K as (Hl & Hr & Hn & Hd) end.
  split_and!; cbn [length fmap list_fmap]; [lia| | |].
  - constructor; [done|]. eapply Forall_impl; [exact Hr|]. intros x [? ?]. set_solver.
  - constructor; [|done]. intros (x & Ex & Hx)%list_elem_of_fmap. rewrite Forall_forall in Hr.
    destruct (Hr x Hx) as [_ Hns]. apply Hns. rewrite <- Ex. set_solver.
  - intros [[F1 F2 F3] Hds]%Forall_cons. constructor; [|by apply Hd]. split; [by split|].
    cbn. destruct F3 as [F3|[b Hb]]; [done|]. exists b. split; [done|]. apply hex_decode_length in Hb. cbn in *. lia.
Qed.

(** Distinct indices of [1..n], [n] of them, are all of [1..n]. *)
Lemma indices_complete (l : list Z) n :
  Z.of_nat (length l) = n → NoDup l → Forall (λ i, 1 <= i <= n) l → l ≡ₚ seqZ 1 n.
Proof.
  intros Hl Hn Hr. apply submseteq_length_Permutation.
  - apply NoDup_submseteq; [done|]. intros x Hx. apply elem_of_seqZ. rewrite Forall_forall in Hr.
    specialize (Hr x Hx). lia.
  - rewrite length_seqZ. lia.
Qed.

Lemma optional_ok {A} f name (load : IniSection → result A) d a (P : A → Prop) :
  (∀ s x, load s = Ok x → P x) → P d → optional f name load d = Ok a → P a.
Proof. intros Hl Hd. unfold optional. case_match; [by apply Hl|by intros [= <-]]. Qed.

Lemma loadRebalanceConfig_ok s r :
  loadRebalanceConfig parse_bool parse_int parse_float s = Ok r → 0 < RInterval r ∧ 0 < MaxShedPerCycle r.
Proof. unfold loadRebalanceConfig. intros H. run_checks. injection H as <-. by conditions. Qed.

Lemma loadS3Config_ok s r :
  loadS3Config parse_int parse_duration s = Ok r → 0 <= LifecycleWorkerInterval r ∧ 1 <= NotificationRetryMax r.
Proof. unfold loadS3Config. intros H. run_checks. injection H as <-. by conditions. Qed.

Lemma loadAuditConfig_ok s r : loadAuditConfig parse_bool parse_int s = Ok r → 1 <= RetentionDays r.
Proof. unfold loadAuditConfig. intros H. run_checks. injection H as <-. by conditions. Qed.

Lemma loadMetricsConfig_ok s r : loadMetricsConfig parse_bool parse_int parse_float s = Ok r → 0 < FallbackInterval r.
Proof. unfold loadMetricsConfig. intros H. run_checks. injection H as <-. by conditions. Qed.

Lemma loadDaemons_ok f ds : loadDaemons parse_int f = Ok ds → ds ≠ [] ∧ Forall daemon_ok ds.
Proof.
  unfold loadDaemons. intros H. run_checks. injection H as <-. conditions.
  split; [by intros ->|by eapply daemons_loop_ok].
Qed.

Lemma shares_ok (on : bool) ds ds' :
  Forall daemon_ok ds → (if on then check_shares (Z.of_nat (length ds)) 0 ∅ ds else Ok ds) = Ok ds' →
  length ds' = length ds ∧ Forall daemon_ok ds'
  ∧ (on = true → OPRFShareIndex <$> ds' ≡ₚ seqZ 1 (Z.of_nat (length ds'))
                 ∧ Forall (λ d, key256 (OPRFShare d)) ds').
Proof.
  intros Hd. destruct on; [|by intros [= <-]].
  intros (Hl & Hr & Hn & Hk)%check_shares_ok. specialize (Hk Hd). apply Forall_and in Hk as [Hk1 Hk2].
  split_and!; [done..|]. intros _. split; [|done]. apply indices_complete; [by rewrite length_fmap|done|].
  apply Forall_fmap. eapply Forall_impl; [exact Hr|]. intros d [? _]. cbn. lia.
Qed.

Lemma rebalance_ok p st factor n u :
  validateRebalanceConfig p st factor n = Ok u →
  P2PEnabled p = true ∧ DegradedRead st = true ∧ 2 <= factor ∧ 2 <= n.
Proof. unfold validateRebalanceConfig. intros H. by conditions. Qed.

Lemma momofs_ok m p n u :
  validate_momofs m p n = Ok u → MomofsEnabled m = true →
  1 <= MetadataReplication m <= n ∧ P2PEnabled p = true.
Proof.
  unfold validate_momofs. intros H E. rewrite E in H. cbn [negb orb] in H. conditions. by split.
Qed.

Lemma with_modes_ok modes t g : global_ok g → 0 <= t → global_ok (with_modes modes t g).
Proof. by intros []. Qed.

Lemma GetConfig_config_ok f c :
  GetConfig parse_bool parse_int int_value parse_float parse_duration f = Ok c → config_ok c.
Proof.
  unfold GetConfig. intros H. run_checks. injection H as <-.
  match goal with K : loadGlobalConfig _ _ _ = Ok ?g |- _ => apply loadGlobalConfig_ok in K as Hg; set (g0 := g) in * end.
  match goal with K : loadDaemons _ _ = Ok ?ds |- _ =>
    apply loadDaemons_ok in K as [Hne Hds] end.
  match goal with |- context [with_modes _ ?x _] => set (t := x) in * end.
  match goal with K : (if OPRFEnabled _ then _ else _) = Ok _ |- _ => apply (shares_ok _ _ _ Hds) in K as (Hlen & Hd & Hsh) end.
  repeat match goal with
  | K : loadMetricsConfig _ _ _ _ = Ok _ |- _ => apply loadMetricsConfig_ok in K
  | K : optional _ _ (loadP2PConfig _ _) _ = Ok ?p |- _ =>
      apply (optional_ok _ _ _ _ _ (λ p, p = zeroP2P ∨ p2p_ok p)) in K; [|intros; right; by eapply loadP2PConfig_ok|by left]
  | K : optional _ _ (loadStorageConfig _ _) _ = Ok _ |- _ =>
      apply (optional_ok _ _ _ _ _ storage_ok (λ s x, loadStorageConfig_ok s x) default_storage_ok) in K
  | K : optional _ _ (loadS3Config _ _) _ = Ok _ |- _ =>
      apply (optional_ok _ _ _ _ _ _ (λ s x, loadS3Config_ok s x)) in K; [|cbn; lia]
  | K : optional _ _ (loadRebalanceConfig _ _ _) _ = Ok _ |- _ =>
      apply (optional_ok _ _ _ _ _ _ (λ s x, loadRebalanceConfig_ok s x)) in K; [|cbn; lia]
  | K : optional _ _ (loadAuditConfig _ _) _ = Ok _ |- _ =>
      apply (optional_ok _ _ _ _ _ _ (λ s x, loadAuditConfig_ok s x)) in K; [|cbn; lia]
  | K : loadTenantsConfig _ _ _ = Ok _ |- _ => apply tenants_loop_ok in K; [|apply map_Forall_empty]
  end.
  conditions. rewrite <- Hlen in *.
  match type of Hd with Forall _ ?l => assert (1 <= Z.of_nat (length l)) as Hn end.
  { rewrite Hlen. match type of Hne with ?l ≠ [] => destruct l; [done|cbn; lia] end. }
  assert (0 < t) as Ht by (pose proof (go_threshold _ Hg); subst t; case_decide; lia).
  split; cbn [Daemons Global Metrics P2P Storage_ Tenants Audit Momofs S3_ Rebalance_]; try done.
  - apply with_modes_ok; [exact Hg|lia].
  - split; [intros ->; cbn in Hn; lia|exact Hd].
  - cbn; lia.
  - intros E. destruct (Hsh E) as [Hs1 Hs2]. split_and!; [done..|]. cbn. intros Ht1.
    match goal with K : _ ∨ P2PEnabled _ = true |- _ => destruct K as [K|K]; [exfalso|done] end. rewrite E in *. cbn in *.
    zbool. lia.
  - split_and!; [tauto..|]. intros E. match goal with K : (if REnabled _ then _ else _) = Ok _ |- _ =>
      rewrite E in K; apply rebalance_ok in K as (? & ? & ? & ?) end. split_and!; [done..|lia].
  - by eapply momofs_ok.
Qed.
Lemma check_sources_ok ps l : check_sources ps = Ok l → Forall (λ src, src ∈ secret_sources) l.
Proof.
  revert l. induction ps as [|p ps IH]; intros l; cbn [check_sources]; [by intros [= <-]|]. intros H. run_checks. injection H as <-.
  conditions. constructor; [done|]. by apply IH.
Qed.

Lemma loadSecretsConfig_ok f c : loadSecretsConfig parse_bool parse_duration f = Ok c → Forall (λ src, src ∈ secret_sources) (SecretsSources c).
Proof.
  unfold loadSecretsConfig. destruct (GetSection f _) as [s|]; [|intros [= <-]; constructor]. intros H. run_checks. injection H as <-.
  cbn [SecretsSources]. match goal with K : loadSecretsBase _ _ _ = Ok _ |- _ => unfold loadSecretsBase in K end. run_checks.
  match goal with K : Ok _ = Ok _ |- _ => injection K as <- end. cbn [SecretsSources].
  match goal with K : parseSecretSources _ = Ok _ |- _ => unfold parseSecretSources in K; revert K end.
  case_match; [intros [= <-]; constructor|]. apply check_sources_ok.
Qed.

Lemma loadRebalanceConfig_water s r :
  loadRebalanceConfig parse_bool parse_int parse_float s = Ok r →
  percent_ok (DiskHighWater r) = true ∧ SpecFloat.SFltb (DiskLowWater r) (f64 0) = false ∧ SpecFloat.SFleb (DiskHighWater r) (DiskLowWater r) = false.
Proof.
  unfold loadRebalanceConfig. intros H. run_checks. injection H as <-. cbn [DiskHighWater DiskLowWater].
  repeat match goal with K : check _ _ = Ok _ |- _ => apply check_Ok in K end.
  match goal with K : negb _ && negb _ = true |- _ => apply andb_prop in K as [K1%negb_true_iff K2%negb_true_iff] end. done.
Qed.

Lemma GetConfig_sections f c :
  GetConfig parse_bool parse_int int_value parse_float parse_duration f = Ok c → sections_ok c.
Proof.
  unfold GetConfig. intros H. run_checks. injection H as <-. split; cbn [Momofs Rebalance_ Secrets].
  - intros E. match goal with K : validate_momofs _ _ _ = Ok _ |- _ => unfold validate_momofs in K; rewrite E in K; cbn [negb orb] in K end.
    conditions. split; [lia|done].
  - match goal with K : optional _ _ (loadRebalanceConfig _ _ _) _ = Ok ?r |- _ =>
      apply (optional_ok _ _ _ _ _ (λ r, percent_ok (DiskHighWater r) = true ∧ SpecFloat.SFltb (DiskLowWater r) (f64 0) = false
        ∧ SpecFloat.SFleb (DiskHighWater r) (DiskLowWater r) = false)) in K; [done|intros s r'; apply loadRebalanceConfig_water|vm_compute; done] end.
  - match goal with K : loadSecretsConfig _ _ _ = Ok _ |- _ => by apply loadSecretsConfig_ok in K end.
Qed.

(** C36: Every configuration the loader accepts satisfies the invariant the daemon relies
    on.  [config_ok]: token, replication factor, durability floor and write quorum in
    range, a known protocol, a non-empty replication order, no negative back-off,
    encryption keys of 256 bits where they are used, end-to-end encryption and
    confidential deduplication exclusive; daemons present and with their required
    fields, ports in range; threshold within the daemons and, with confidential
    deduplication, share indices that are exactly 1..n over n daemons, shares of 256
    bits, peer-to-peer on for a threshold above one; the [p2p] timings positive where
    the section exists; a known storage backend, its intervals and workers positive, volume
    size and S3 server credentials in bounds; the fallback, rebalance and lifecycle
    intervals and limits in range; rebalancing and the file system only with what they
    need; tenants complete; audit retention at least one day.  [sections_ok]: metadata
    quorum and TTL of an enabled file system in range, the disk water marks as the
    loader tests them, known secret sources.  Not checked by the loader, and so not
    claimed: the [metrics] interval, which may be zero or negative, and a negative
    rotation_interval ([unchecked_intervals]). *)
Theorem GetConfig_valid f c :
  GetConfig parse_bool parse_int int_value parse_float parse_duration f = Ok c → config_ok c ∧ sections_ok c.
Proof. intros H. split; [by eapply GetConfig_config_ok|by eapply GetConfig_sections]. Qed.
End Validity.

(** ** Witnesses *)
Definition w_section (l : list (bytes * bytes)) : IniSection := λ k, (list_to_map l : gmap bytes bytes) !! k.
Definition w_bool (s : bytes) : option bool :=
  if decide (s = bs "true") then Some true else if decide (s = bs "false") then Some false else None.
Definition w_float (s : bytes) : option float64 :=
  if decide (s = bs "nan") then Some SpecFloat.S754_nan else f64 <$> parse_int64 s.
Definition w_duration (s : bytes) : option Z := None.
Definition w_load : IniFile → result Configuration := GetConfig w_bool parse_int64 (λ _, 0) w_float w_duration.

Definition w_global : list (bytes * bytes) :=
  [(bs "debug", bs "true"); (bs "auth_token", bs "secret"); (bs "replication_order", bs "3, 1,"); (bs "polymorphic_system", bs "true");
   (bs "replication_factor", bs "2"); (bs "oprf_enabled", bs "true")].
Definition w_daemon (i : bytes) : IniSection :=
  w_section [(bs "host", bs "h"); (bs "change_replication", bs "c"); (bs "data", bs "d"); (bs "drive", bs "v");
             (bs "oprf_share", replicate 64 Byte.x30); (bs "oprf_share_index", i)].
Definition w_file : IniFile :=
  [(bs "global", w_section w_global);
   (bs "metrics", w_section [(bs "interval", bs "5"); (bs "min_threshold", bs "1"); (bs "max_threshold", bs "2"); (bs "fallback_interval", bs "9")]);
   (bs "p2p", w_section [(bs "enabled", bs "true")]);
   (bs "daemon.0", w_daemon (bs "2")); (bs "daemon.1", w_daemon (bs "1"))].

Lemma GetConfig_valid_witness : ∃ c, w_load w_file = Ok c ∧ config_ok c ∧ sections_ok c.
Proof.
  assert (is_ok (w_load w_file) = true) as Hok by (vm_compute; reflexivity).
  destruct (w_load w_file) as [c|e] eqn:E; [|discriminate Hok].
  exists c. split; [reflexivity|]. exact (GetConfig_valid w_bool parse_int64 (λ _, 0) w_float w_duration w_file c E).
Defined.

(** ** Values the loader lets pass *)

(** A water mark of NaN passes the range checks. *)
Example nan_water_mark :
  DiskHighWater <$> (match loadRebalanceConfig w_bool parse_int64 w_float
                       (w_section [(bs "disk_high_water", bs "nan"); (bs "disk_low_water", bs "nan")])
                     with Ok r => Some r | Err _ => None end) = Some SpecFloat.S754_nan.
Proof. vm_compute. reflexivity. Qed.

(** A metrics interval of zero or less and a negative rotation interval are accepted. *)
Example unchecked_intervals :
  (match loadMetricsConfig w_bool parse_int64 w_float
           (w_section [(bs "interval", bs "-5"); (bs "min_threshold", bs "1"); (bs "max_threshold", bs "2"); (bs "fallback_interval", bs "9")])
   with Ok m => Some (Interval m) | Err _ => None end = Some (-5))
  ∧ (match loadSecretsBase w_bool (λ _, Some (-1)) (w_section [(bs "rotation_interval", bs "-1ns")])
     with Ok c => Some (RotationInterval c) | Err _ => None end = Some (-1)).
Proof. split; vm_compute; reflexivity. Qed.

(** A switch or a number that does not parse is read as its default: encryption
    stays off and the write quorum stays 1. *)
Example misspelt_switch :
  (λ g, (EncryptionEnabled g, WriteQuorum g))
  <$> (match loadGlobalConfig w_bool parse_int64
             (w_section (w_global ++ [(bs "encryption_enabled", bs "enable"); (bs "write_quorum", bs "two")]))
       with Ok g => Some g | Err _ => None end) = Some (false, 1).
Proof. vm_compute. reflexivity. Qed.

(** A negative fanout is refused. *)
Example negative_fanout :
  loadP2PConfig w_bool parse_int64 (w_section [(bs "fanout", bs "-1")]) = Err (Errno EINVAL).
Proof. vm_compute. reflexivity. Qed.
