(* ===== verification/Modes.v ===== *)
(** * The replication mode of the cluster
      (src/src/metrics/metrics.go, src/src/metrics/replication.go, src/src/server/replication.go)

    The controller that walks the configured order of modes as the host gets
    busier or idler, the message by which it announces a mode to the daemons,
    and the daemon's side: the handler of the change-replication port, which
    records the mode and passes it on.  A tick of the controller is given what
    the host counters and the clock read.  [json.Decoder] of a mode change is an
    argument; listeners, deadlines and goroutines are not modelled. *)
From Stdlib Require SpecFloat.
From S2P Require Import Prelude GoText Float64 Hashes Json Paths BlobStore CasStore AuditLog Protocol Ingest Client EndToEnd Gossip Limits Config.
Open Scope Z_scope.

(** ** The controller *)

(** [x >= y] and [x < y] on binary64. *)
Definition fge (x y : float64) : bool := SpecFloat.SFleb y x.
Definition flt (x y : float64) : bool := SpecFloat.SFltb x y.

(** The counters of the host; [None] is a reading that failed. *)
Record SystemMetrics := mkSM { VirtualMemory : option float64; CPUPercent : option (list float64) }.

Definition checkMetricsAndSwap (sm : SystemMetrics) (currentIndex : Z) (replicationOrder : list Z)
    (maxThresh minThresh : float64) : Z * bool :=
  let stay := (currentIndex, false) in
  let up := if currentIndex <? Z.of_nat (length replicationOrder) - 1 then (currentIndex + 1, true) else stay in
  if currentIndex =? -1 then stay
  else match VirtualMemory sm with
  | None => stay
  | Some memUsed =>
      if fge memUsed maxThresh then up
      else match CPUPercent sm with
      | None | Some [] => stay
      | Some (cpuUsed :: _) =>
          if fge cpuUsed maxThresh then up
          else if flt memUsed minThresh && flt cpuUsed minThresh then
            if 0 <? currentIndex then (currentIndex - 1, true) else stay
          else stay
      end
  end.

Definition effectiveModeDurability (mode replicationFactor clusterSize : Z) : Z :=
  if mode =? ReplicationNone then 1
  else
    let clusterSize := if clusterSize <? 1 then 1 else clusterSize in
    if replicationFactor <? clusterSize then replicationFactor else clusterSize.

Definition shouldSwitchMode (minFloor : Z) (replicationOrder : list Z) (newIdx replicationFactor clusterSize : Z) : bool :=
  if minFloor <=? 0 then true
  else if (0 <=? newIdx) && (newIdx <? Z.of_nat (length replicationOrder)) then
    match replicationOrder !! Z.to_nat newIdx with
    | Some m => minFloor <=? effectiveModeDurability m replicationFactor clusterSize
    | None => true
    end
  else true.

(** The loop's variables and the modes pushed so far; [None] stands for an index
    out of range, where the program panics. *)
Record controller := mkCtl { currentIndex : Z; start_ : Z; pushed : list (option Z) }.

Section Controller.
Variable cfg : Configuration.

Definition order : list Z := Config.ReplicationOrder (Global cfg).
Definition may_switch (idx : Z) : bool :=
  shouldSwitchMode (MinimumDurabilityFactor (Global cfg)) order idx (Config.ReplicationFactor (Global cfg))
    (Z.of_nat (length (Daemons cfg))).

Definition push_mode (idx now : Z) (c : controller) : controller :=
  mkCtl idx now (pushed c ++ [if 0 <=? idx then order !! Z.to_nat idx else None]).

(** The daemon that runs the controller is the first one. *)
Definition runs (serverId : Z) : bool :=
  (serverId =? 0) && PolymorphicSystem (Global cfg) && negb (Interval (Metrics cfg) <=? 0).

Definition GetMetrics_start (now : Z) : controller := push_mode 0 now (mkCtl 0 now []).

(** A tick: the counters, the clock when a mode was switched, and the clock of
    the fallback. *)
Record reading := mkReading { counters : SystemMetrics; switched_at : Z; now_at : Z; reset_at : Z }.

Definition GetMetrics_tick (c : controller) (r : reading) : controller :=
  let percent x := fmul x (f64 100) in
  let '(newIndex, changed) :=
    checkMetricsAndSwap (counters r) (currentIndex c) order (percent (MaxThreshold (Metrics cfg))) (percent (MinThreshold (Metrics cfg))) in
  let c := if changed && may_switch newIndex then push_mode newIndex (switched_at r) c else c in
  if int64 (FallbackInterval (Metrics cfg) * 10 ^ 6) <? time_sub (now_at r) (start_ c) then
    if 0 <? currentIndex c then
      if may_switch (currentIndex c - 1) then push_mode (currentIndex c - 1) (reset_at r) c
      else mkCtl (currentIndex c) (reset_at r) (pushed c)
    else c
  else c.
End Controller.

(** ** The announcement *)

(** [json.Marshal] of a [ReplicationData]. *)
Definition replication_json (d : ReplicationData) : bytes :=
  bs "{" ++ json_key (bs "old") ++ append_int (ROld d) ++ bs "," ++ json_key (bs "new") ++ append_int (RNew d)
  ++ bs "," ++ json_key (bs "timestamp") ++ append_int (RTimeStamp d) ++ bs "}".

(** What [pushNewReplicationMode] writes to every daemon. *)
Definition pushNewReplicationMode (authToken : bytes) (newReplicationMode now : Z) : bytes :=
  padAuthToken authToken ++ replication_json (mkReplication newReplicationMode 0 now) ++ [ch_lf].

(** ** The change-replication port *)
Section Daemon.
Context {B : Type} `{BlobStore B}.

Record mode_server := mkModes { ms_server : server B; ms_state : Z * ReplicationData; ms_limiter : AuthLimiter }.

(** The handler of one connection: the bytes left and written, the state, and
    the document passed on to the other daemons, if any.  [now] is the clock of
    the limiter, [source] the sanitised address of the peer. *)
Definition handle_change (e : environment) (decode : bytes → option ReplicationData) (serverId : Z) (source : bytes) (now : Z)
    (c : conn) (s : mode_server) : conn * mode_server * option bytes :=
  let '(allowed, lim) := if Limits.Enabled (ms_limiter s) then Allow (ms_limiter s) source now else (true, ms_limiter s) in
  if negb allowed then (c, mkModes (ms_server s) (ms_state s) lim, None)
  else match HandshakeServer e (c, ms_server s) with
  | (Ok (Some (_, ts)), (c, srv)) =>
      let s := mkModes srv (ms_state s) (RecordSuccess lim source) in
      match SendReplicationMode 0 (c, srv) with
      | (Err _, (c, srv)) => (c, s, None)
      | (Ok _, (c, srv)) =>
          match decode (take 1024 (inp c)) with
          | None => (c, s, None)
          | Some d =>
              let st := SetReplicationState (RNew d) ts (ms_state s) in
              (mkConn (inp c) (outp c ++ bs "OK"), mkModes srv st (ms_limiter s),
               if serverId =? 0 then Some (replication_json st.2) else None)
          end
      end
  | (_, (c, srv)) => (c, mkModes srv (ms_state s) (RecordFailure lim source now).2, None)
  end.

(** [ChangeReplicationModeClient]: the primary passes the change on with the
    peer token, derived from the configured secret as it is. *)
Definition ChangeReplicationModeClient {S} (challenge : bool) (authToken json : bytes) (timestamp : Z) : M S unit :=
  _ ← HandshakeClient challenge (DerivePeerToken authToken) timestamp 0;
  Write (json ++ [ch_lf]);;
  _ ← ReadFull 2 (Errno EBADMSG);
  mret tt.
End Daemon.
Arguments mode_server B : clear implicits.

(** * Theorems *)

(** ** The controller stays in its order and above its floor *)
Section Floor.
Variable cfg : Configuration.
Hypothesis Hcfg : config_ok cfg.

Definition above_floor (o : option Z) : Prop :=
  0 < MinimumDurabilityFactor (Global cfg) →
  ∃ m, o = Some m ∧ MinimumDurabilityFactor (Global cfg)
                    <= effectiveModeDurability m (Config.ReplicationFactor (Global cfg)) (Z.of_nat (length (Daemons cfg))).

Record ctl_inv (c : controller) : Prop := {
  ci_index : 0 <= currentIndex c < Z.of_nat (length (order cfg));
  ci_modes : Forall (λ o, ∃ m, o = Some m ∧ m ∈ order cfg) (pushed c);
  ci_last : last (pushed c) = Some (order cfg !! Z.to_nat (currentIndex c));
  ci_floor : Forall above_floor (drop 1 (pushed c))
}.

Lemma may_switch_floor idx :
  0 <= idx < Z.of_nat (length (order cfg)) → may_switch cfg idx = true → above_floor (order cfg !! Z.to_nat idx).
Proof.
  intros Hi Hm Hf. unfold may_switch, shouldSwitchMode in Hm.
  rewrite (proj2 (Z.leb_gt _ _)) in Hm by lia. rewrite (proj2 (Z.leb_le 0 idx)), (proj2 (Z.ltb_lt idx _)) in Hm by lia.
  destruct (lookup_lt_is_Some_2 (order cfg) (Z.to_nat idx)) as [m Em]; [lia|]. rewrite Em in *.
  exists m. cbn in Hm. zbool. done.
Qed.

Lemma push_inv idx now c :
  ctl_inv c → 0 <= idx < Z.of_nat (length (order cfg)) → may_switch cfg idx = true → ctl_inv (push_mode cfg idx now c).
Proof.
  intros [H1 H2 H3 H4] Hi Hm. destruct (lookup_lt_is_Some_2 (order cfg) (Z.to_nat idx)) as [m Em]; [lia|].
  pose proof (may_switch_floor idx Hi Hm) as Hf.
  assert (pushed c ≠ []) as Hne by (intros E; rewrite E in H3; discriminate).
  unfold push_mode. rewrite (proj2 (Z.leb_le 0 idx)) by lia. split; cbn [currentIndex pushed].
  - done.
  - apply Forall_app. split; [done|]. repeat constructor. exists m. split; [done|]. by eapply list_elem_of_lookup_2.
  - by rewrite last_snoc.
  - rewrite drop_app_le by (destruct (pushed c); [done|cbn; lia]). apply Forall_app. split; [done|]. by repeat constructor.
Qed.

Lemma checkMetrics_range sm idx l hi lo newIdx changed :
  0 <= idx < Z.of_nat (length l) → checkMetricsAndSwap sm idx l hi lo = (newIdx, changed) → 0 <= newIdx < Z.of_nat (length l).
Proof.
  intros Hi. unfold checkMetricsAndSwap. repeat case_match; intros ?; simplify_eq; zbool; lia.
Qed.

Lemma controller_start_inv now : ctl_inv (GetMetrics_start cfg now).
Proof.
  pose proof (go_order _ (co_global _ Hcfg)) as Ho. fold (order cfg) in Ho.
  unfold GetMetrics_start, push_mode. destruct (order cfg) as [|m l] eqn:E; [done|].
  split; rewrite ?E; cbn; [lia| |done|constructor]. repeat constructor. exists m. split; [done|left].
Qed.

Lemma tick_inv c r : ctl_inv c → ctl_inv (GetMetrics_tick cfg c r).
Proof.
  intros Hc. unfold GetMetrics_tick.
  destruct (checkMetricsAndSwap _ _ _ _ _) as [newIndex changed] eqn:E.
  pose proof (checkMetrics_range _ _ _ _ _ _ _ (ci_index _ Hc) E) as Hr.
  set (c1 := if changed && may_switch cfg newIndex then _ else c).
  assert (ctl_inv c1) as Hc1.
  { unfold c1. destruct (changed && may_switch cfg newIndex) eqn:Es; [|done]. apply andb_prop in Es as [_ Hm]. by apply push_inv. }
  clearbody c1. repeat case_match; zbool; try done.
  - apply push_inv; [done| |done]. pose proof (ci_index _ Hc1). lia.
  - by destruct Hc1.
Qed.
End Floor.

(** C34: The polymorphic controller, started with a configuration the loader accepted, never leaves its order of modes whatever the host counters and the clock read: the index stays in range, each announced mode is one of the order, and every mode it switches to (all but the one it starts with) keeps at least the configured minimum of copies. *)
Theorem controller_keeps_floor cfg now rs :
  config_ok cfg →
  let c := foldl (GetMetrics_tick cfg) (GetMetrics_start cfg now) rs in
  0 <= currentIndex c < Z.of_nat (length (order cfg))
  ∧ Forall (λ o, ∃ m, o = Some m ∧ m ∈ order cfg) (pushed c)
  ∧ Forall (above_floor cfg) (drop 1 (pushed c)).
Proof.
  intros Hcfg c. assert (ctl_inv cfg c) as [H1 H2 _ H4]; [|done].
  unfold c. generalize (controller_start_inv cfg Hcfg now). generalize (GetMetrics_start cfg now).
  induction rs as [|r rs IH]; intros c0 Hc; [done|]. cbn [foldl]. by apply IH, tick_inv.
Qed.

(** ** Announcements reach no daemon *)
Lemma length_padAuthToken t : (length t <= AuthTokenLength)%nat → length (padAuthToken t) = AuthTokenLength.
Proof. intros Ht. unfold padAuthToken. rewrite length_app, length_replicate. lia. Qed.

(** The announcement begins, after the token, with the text of the document. *)
Lemma push_shape token mode now :
  ∃ rest, pushNewReplicationMode token mode now
          = padAuthToken token ++ bs "{" ++ json_key (bs "old") ++ [Byte.x30] ++ bs "," ++ json_key (bs "new") ++ rest
          ∧ (5 <= length rest)%nat.
Proof.
  exists (append_int mode ++ bs "," ++ json_key (bs "timestamp") ++ append_int now ++ bs "}" ++ [ch_lf]).
  split.
  - unfold pushNewReplicationMode, replication_json. cbn [ROld RNew RTimeStamp].
    change (append_int 0) with [Byte.x30]. by rewrite <- !app_assoc.
  - rewrite !length_app. change (length (json_key (bs "timestamp"))) with 12%nat. lia.
Qed.

Lemma brace_no_number r : ∃ er, SafeParseInt (Byte.x7b :: r) = Err er.
Proof.
  unfold SafeParseInt. cbn [index_byte]. rewrite decide_False by done.
  destruct (index_byte ch_nul r); cbn; eauto.
Qed.

Section Announcements.
Context {B : Type} `{BlobStore B}.
Implicit Types (s : server B) (e : environment).

Lemma push_refused e s token mode now :
  (length token <= AuthTokenLength)%nat →
  useChallengeResp e = false ∨ presented e (pushNewReplicationMode token mode now) ∉ credentials e →
  ∃ er, (authenticate e (mkConn (pushNewReplicationMode token mode now) [], s)).1 = Err er.
Proof.
  intros Ht Hd.
  assert (useChallengeResp e = false ∨ presented e (inp (mkConn (pushNewReplicationMode token mode now) [])) ∉ credentials e)
    as [Hc|Hp] by done; [|destruct (authenticate_denied e s _ Hp) as (er & _ & E & _); by exists er].
  unfold authenticate. rewrite Hc. destruct (push_shape token mode now) as (rest & -> & Hl).
  set (text := bs "{" ++ _). assert (20 <= length text)%nat as Hlen.
  { unfold text. rewrite !length_app. change (length (json_key (bs "old"))) with 6%nat. change (length (json_key (bs "new"))) with 6%nat.
    cbn. lia. }
  assert (∃ r, text = Byte.x7b :: r) as [r Er] by (eexists; reflexivity). clearbody text. subst text.
  set (t := padAuthToken token) in *. pose proof (length_padAuthToken token Ht) as Hpad. fold t in Hpad.
  rewrite <- (take_drop (TimestampLength + 1) (Byte.x7b :: r)), app_assoc.
  assert (length (take (TimestampLength + 1) (Byte.x7b :: r)) = 20%nat) as Hframe
    by (rewrite length_take; change (TimestampLength + 1)%nat with 20%nat; lia).
  erewrite bind_ok; [|apply ReadFull_app; rewrite length_app, Hframe, Hpad; reflexivity].
  rewrite take_app_length' by done. rewrite drop_app_length' by done.
  destruct (brace_no_number (take 18 r)) as [er Es].
  change (take TimestampLength (take (TimestampLength + 1) (Byte.x7b :: r))) with (take 19 (take 20 (Byte.x7b :: r))).
  rewrite take_take. change (take (19 `min` 20) (Byte.x7b :: r)) with (Byte.x7b :: take 18 r). rewrite Es.
  repeat case_decide; [| |by eexists]; (erewrite bind_ok; [|reflexivity]); by eexists.
Qed.

(** C35: No daemon takes up a mode the controller announces: the announcement is the token followed by the document, and the handler of the port expects a full handshake first, so for every announcement the connection is refused and the daemon keeps its mode and passes nothing on. *)
Theorem announced_mode_refused e decode serverId source now token mode ts (s : mode_server B) :
  (length token <= AuthTokenLength)%nat →
  useChallengeResp e = false ∨ presented e (pushNewReplicationMode token mode ts) ∉ credentials e →
  let '(_, s', next) := handle_change e decode serverId source now (mkConn (pushNewReplicationMode token mode ts) []) s in
  ms_state s' = ms_state s ∧ next = None.
Proof.
  intros Ht Hd. destruct (push_refused e (ms_server s) token mode ts Ht Hd) as [er E].
  unfold handle_change. destruct (if Limits.Enabled _ then _ else _) as [allowed lim]. destruct allowed; [|done]. cbn [negb].
  unfold HandshakeServer. destruct (authenticate e _) as [r [c srv]] eqn:Ea. cbn [fst] in E. subst r.
  by rewrite (bind_err _ _ _ _ _ Ea).
Qed.

Lemma length_peer_token t : length (DerivePeerToken t) = AuthTokenLength.
Proof. unfold DerivePeerToken. change (length (HashBytes (t ++ peerTokenSuffix)) = 64%nat). apply length_HashBytes. Qed.

(** What the primary writes when it passes a change on. *)
Definition change_message (token json : bytes) (ts : Z) : bytes :=
  hello (DerivePeerToken token) ts Byte.x30 ++ json ++ [ch_lf].

Lemma client_sends token json ts (o : bytes) :
  (length (append_int ts) <= TimestampLength)%nat →
  ChangeReplicationModeClient (S := unit) false token json ts (mkConn (bs "0OK") o, tt)
  = (Ok tt, (mkConn [] (o ++ change_message token json ts), tt)).
Proof.
  intros Hl. unfold ChangeReplicationModeClient, HandshakeClient, change_message.
  change (encodeRequestedModeByte 0) with (Ok Byte.x30).
  erewrite bind_ok; [|erewrite bind_ok; [|apply send_hello_plain; [by rewrite length_peer_token|exact Hl]]; reflexivity].
  erewrite bind_ok; [|reflexivity]. erewrite bind_ok; [|reflexivity]. cbn [inp outp]. unfold mret, M_ret. by rewrite <- !app_assoc.
Qed.

Lemma peer_admitted e s token json ts :
  useChallengeResp e = false → expectedAuthToken e = token → is_int64 ts →
  (length (append_int ts) <= TimestampLength)%nat → checkHandshakeTimestampFresh ts (clock e) = true →
  ∃ srv, HandshakeServer e (mkConn (change_message token json ts) [], s) = (Ok (Some (0, ts)), (mkConn (json ++ [ch_lf]) [], srv)).
Proof.
  intros Hc Htok Hts Hl Hf.
  assert (∃ p, role token (field AuthTokenLength (DerivePeerToken token)) = Some p) as [p Hp].
  { rewrite field_pad by (by rewrite length_peer_token). rewrite length_peer_token, Nat.sub_diag, app_nil_r.
    unfold role. repeat case_decide; eauto. done. }
  unfold HandshakeServer, change_message. eexists. erewrite bind_ok; [|rewrite authenticate_hello by done; rewrite Htok, Hp, Hf; reflexivity].
  reflexivity.
Qed.

(** With a secret of full length, a mode change that the primary passes on is taken up: the other daemon accepts the peer's handshake, records the announced mode with the timestamp of the handshake, and answers so that the primary's call succeeds. *)
Theorem mode_change_propagates e decode source now token json d ts (s : mode_server B) :
  useChallengeResp e = false → expectedAuthToken e = padAuthToken token → length token = AuthTokenLength →
  is_int64 ts → (length (append_int ts) <= TimestampLength)%nat → checkHandshakeTimestampFresh ts (clock e) = true →
  (Allow (ms_limiter s) source now).1 = true → decode (take 1024 (json ++ [ch_lf])) = Some d →
  let '(c, s', _) := handle_change e decode 1 source now (mkConn (change_message token json ts) []) s in
  ms_state s' = SetReplicationState (RNew d) ts (ms_state s)
  ∧ outp c = bs "0OK"
  ∧ ChangeReplicationModeClient (S := unit) false token json ts (mkConn (outp c) [], tt)
    = (Ok tt, (mkConn [] (change_message token json ts), tt)).
Proof.
  intros Hc Htok Hlen Hts Hl Hf Ha Hdec.
  assert (padAuthToken token = token) as Hpad by (unfold padAuthToken; by rewrite Hlen, Nat.sub_diag, app_nil_r).
  rewrite Hpad in Htok. unfold handle_change.
  destruct (if Limits.Enabled _ then _ else _) as [allowed lim] eqn:El.
  assert (allowed = true) as -> by (destruct (Limits.Enabled _); [rewrite El in Ha; exact Ha|congruence]). cbn [negb].
  destruct (peer_admitted e (ms_server s) token json ts Hc Htok Hts Hl Hf) as [srv ->].
  change (SendReplicationMode 0) with (Write (S := server B) [Byte.x30]). cbn [Write].
  unfold Write. cbn [inp outp]. rewrite Hdec. cbn [ms_state ms_limiter outp].
  split_and!; [done|done|]. rewrite client_sends by done. reflexivity.
Qed.
End Announcements.

(** ** Witnesses *)
Definition w_node (h : bytes) : Daemon := mkDaemon h (bs "c") (bs "d") (bs "v") [] [] 0 [] 0.
Definition w_global_cfg (modes : list Z) (floor : Z) : ConfigurationGlobal :=
  mkGlobal false (bs "momo-tcp") (bs "secret") modes [3] 2 floor 1 true [] [] [] false false [] [] false 1 [] [] 0.
Definition w_cfg (modes : list Z) (floor : Z) (ds : list Daemon) : Configuration :=
  mkConfig ds (w_global_cfg modes floor) (mkMetrics 5 (f64 1) (f64 0) 9 0 [] false) zeroP2P defaultStorageConfig ∅
    defaultAuditConfig zeroMomofs zeroSecrets defaultS3Config defaultRebalanceConfig.
Definition w_two : list Daemon := [w_node (bs "a"); w_node (bs "b")].

Lemma w_cfg_ok : config_ok (w_cfg [3; 0; 1] 2 w_two).
Proof.
  split; cbn [w_cfg Global Daemons Metrics P2P Storage_ S3_ Rebalance_ Momofs Tenants Audit].
  - split; cbn; try lia; try done; solve [split; [done|unfold AuthTokenLength; lia]|by left].
  - split; [done|]. repeat constructor; try done; by left.
  - cbn; lia.
  - done.
  - cbn; lia.
  - by left.
  - apply default_storage_ok.
  - cbn; lia.
  - cbn. split_and!; [lia|lia|done].
  - done.
  - apply map_Forall_empty.
  - cbn; lia.
Qed.

Definition w_busy : reading := mkReading (mkSM (Some (f64 100)) None) 5 6 7.
Definition w_idle : reading := mkReading (mkSM (Some (f64 1)) (Some [f64 1])) 5 (10 ^ 9) 7.

Lemma controller_keeps_floor_witness :
  let c := foldl (GetMetrics_tick (w_cfg [3; 0; 1] 2 w_two)) (GetMetrics_start (w_cfg [3; 0; 1] 2 w_two) 1) [w_busy; w_idle] in
  0 <= currentIndex c < 3
  ∧ Forall (λ o, ∃ m, o = Some m ∧ m ∈ order (w_cfg [3; 0; 1] 2 w_two)) (pushed c)
  ∧ Forall (above_floor (w_cfg [3; 0; 1] 2 w_two)) (drop 1 (pushed c)).
Proof. apply (controller_keeps_floor (w_cfg [3; 0; 1] 2 w_two) 1 [w_busy; w_idle]). apply w_cfg_ok. Defined.

Definition w_token : bytes := replicate 64 Byte.x61.
Definition w_env : environment := tcp_env false (padAuthToken w_token) (replicate 32 ch_nul) (10 ^ 18).
Definition w_modes : mode_server (gmap bytes bytes) :=
  mkModes (mkServer (newCASStore ∅) ∅ false []) (0, mkReplication 0 0 0) (NewAuthLimiter 0).
Definition w_decode (b : bytes) : option ReplicationData := Some (mkReplication 2 0 9).

Lemma announced_mode_refused_witness :
  let '(_, s', next) := handle_change w_env w_decode 0 (bs "a:1") 5 (mkConn (pushNewReplicationMode w_token 2 9) []) w_modes in
  ms_state s' = ms_state w_modes ∧ next = None.
Proof. apply (announced_mode_refused w_env w_decode 0 (bs "a:1") 5 w_token 2 9 w_modes); [vm_compute; lia|by left]. Defined.

Lemma mode_change_propagates_witness :
  let json := replication_json (mkReplication 2 0 9) in
  let '(c, s', _) := handle_change w_env w_decode 1 (bs "a:1") 5 (mkConn (change_message w_token json (10 ^ 18)) []) w_modes in
  ms_state s' = SetReplicationState 2 (10 ^ 18) (ms_state w_modes)
  ∧ outp c = bs "0OK"
  ∧ ChangeReplicationModeClient (S := unit) false w_token json (10 ^ 18) (mkConn (outp c) [], tt)
    = (Ok tt, (mkConn [] (change_message w_token json (10 ^ 18)), tt)).
Proof.
  apply (mode_change_propagates w_env w_decode (bs "a:1") 5 w_token (replication_json (mkReplication 2 0 9)) (mkReplication 2 0 9) (10 ^ 18) w_modes);
    first [reflexivity|unfold is_int64; lia|vm_compute; lia].
Defined.

(** ** What the floor does not hold back *)

(** The first mode of the order is announced whatever the floor. *)
Example start_below_floor :
  pushed (GetMetrics_start (w_cfg [0; 3] 2 w_two) 1) = [Some 0] ∧ effectiveModeDurability 0 2 2 = 1.
Proof. vm_compute. split; reflexivity. Qed.

(** With fewer daemons than the floor every switch is refused, also one to more
    copies. *)
Example floor_above_cluster_stuck :
  pushed (foldl (GetMetrics_tick (w_cfg [0; 3] 2 [w_node (bs "a")])) (GetMetrics_start (w_cfg [0; 3] 2 [w_node (bs "a")]) 1)
            (replicate 20 w_busy)) = [Some 0].
Proof. vm_compute. reflexivity. Qed.
