(* ===== verification/Fuse.v ===== *)
(** * The mounted file system (src/src/momofs/fuse.go)

    The nodes of the mount translate kernel requests into operations of
    [MomoFs]; an open file buffers the whole content and writes it back as one
    object.  The buffer of a handle is a Go slice: an array and a length, so that
    growing within the capacity exposes the array.  The kernel bridge (go-fuse)
    is not under src/: an inode is the node it wraps.  A panic of a callback is
    an EIO, as [fuseRecover] makes it. *)
From S2P Require Import Prelude GoText Hashes Json Paths ObjectMeta BlobStore RawStore CasStore CasTheorems Ingest S3Http MomoFs.
Open Scope Z_scope.

Definition S_IFDIR : Z := 16384.
Definition S_IFREG : Z := 32768.

(** ** Attributes and errors *)
Record Attr := mkAttr { AMode : Z; ASize : Z; AUid : Z; AGid : Z; AMtime : Z; AMtimensec : Z; ABlksize : Z; ANlink : Z }.

Definition attrFromEntry (e : Entry) : Attr :=
  let dir := bool_decide (EType e = EntryDir) in
  mkAttr (Z.lor (mask (EMode e)) (if dir then S_IFDIR else S_IFREG)) (uint64 (ESize e)) (EUID e) (EGID e)
    (if 0 <? EMTime e then EMTime e / 10 ^ 9 else 0) (if 0 <? EMTime e then EMTime e mod 10 ^ 9 else 0)
    4096 (if dir then 2 else 1).

Definition toFuseErr (e : error) : errno :=
  match e with Errno n => n | ErrSyntax | ErrRange => EINVAL | _ => EIO end.

Definition joinPath (dir name : bytes) : bytes :=
  if decide (dir = [ch_slash]) then ch_slash :: name else path_join dir name.

(** ** Buffers *)
Record slice := mkSlice { arr : bytes; slen : nat }.
Definition visible (s : slice) : bytes := take (slen s) (arr s).

(** [copy(s[off:], data)] for an offset within the length. *)
Definition copy_at (off : nat) (data : bytes) (s : slice) : slice :=
  let n := Nat.min (length data) (slen s - off) in
  mkSlice (take off (arr s) ++ take n data ++ drop (off + n) (arr s)) (slen s).

(** ** Nodes and handles *)
Inductive fuse_node := fuseDir (path : bytes) | fuseFile (path : bytes).
Record fuseFileHandle := mkHandle { hpath : bytes; hmode : Z; hdata : slice; loaded : bool; dirty : bool }.

Definition newFuseFileHandle (p : bytes) (e : Entry) : fuseFileHandle := mkHandle p (EMode e) (mkSlice [] 0) false false.

Section Fuse.
Context {B : Type} `{BlobStore B} (unmarshal : bytes → option dirManifest).

(** The mount: the file system and the nodes by path. *)
Record fuseRoot := mkRoot { core : FS (B := B); nodes : gmap bytes fuse_node }.

(** Answers of a callback: a value, or the errno given to the kernel; [None]
    when the operation of the file system does not end. *)
Definition G (A : Type) : Type := fuseRoot → option ((A + errno) * fuseRoot).
#[global] Instance G_ret : MRet G := λ A a r, Some (inl a, r).
#[global] Instance G_bind : MBind G := λ A C k m r,
  match m r with
  | Some (inl a, r) => k a r
  | Some (inr e, r) => Some (inr e, r)
  | None => None
  end.
Definition gfail {A} (e : errno) : G A := λ r, Some (inr e, r).
Definition on_core {A} (m : F (B := B) A) : G A := λ r,
  match m (core r) with
  | Some (Ok a, f) => Some (inl a, mkRoot f (nodes r))
  | Some (Err e, f) => Some (inr (toFuseErr e), mkRoot f (nodes r))
  | None => None
  end.

(** The node of a path is made once and kept. *)
Definition nodeFor (p : bytes) (mode : Z) : G fuse_node := λ r,
  match nodes r !! p with
  | Some n => Some (inl n, r)
  | None =>
      let n := if Z.land mode S_IFDIR =? 0 then fuseFile p else fuseDir p in
      Some (inl n, mkRoot (core r) (<[p := n]> (nodes r)))
  end.

Definition newFuseRoot (f : FS (B := B)) : fuseRoot * fuse_node := (mkRoot f ∅, fuseDir [ch_slash]).

(** *** Directories *)
Definition fuse_Getattr (path : bytes) (now : Z) : G Attr :=
  e ← on_core (Lookup unmarshal path now); mret (attrFromEntry e).

Definition fuse_Setattr (path : bytes) (mode uid gid mtime : option Z) (now : Z) : G Attr :=
  _ ← on_core (SetAttr unmarshal path mode uid gid mtime now); fuse_Getattr path now.

Definition fuse_Lookup (dir name : bytes) (now : Z) : G (fuse_node * Attr) :=
  let p := joinPath dir name in
  e ← on_core (Lookup unmarshal p now);
  n ← nodeFor p (if decide (EType e = EntryDir) then S_IFDIR else S_IFREG);
  mret (n, attrFromEntry e).

Definition fuse_Mkdir (dir name : bytes) (mode now : Z) : G (fuse_node * Attr) :=
  let p := joinPath dir name in
  on_core (Mkdir unmarshal p (mask mode) now);;
  n ← nodeFor p (Z.lor S_IFDIR (mask mode));
  e ← on_core (Lookup unmarshal p now);
  mret (n, attrFromEntry e).

Definition fuse_Create (dir name : bytes) (mode now : Z) : G (fuse_node * Attr * fuseFileHandle) :=
  let p := joinPath dir name in
  _ ← on_core (Create unmarshal p (mask mode) (reader_of []) now);
  n ← nodeFor p (Z.lor S_IFREG (mask mode));
  e ← on_core (Lookup unmarshal p now);
  mret (n, attrFromEntry e, mkHandle p (mask mode) (mkSlice [] 0) false false).

Definition fuse_Unlink (dir name : bytes) (now : Z) : G unit := on_core (Remove unmarshal (joinPath dir name) now).
Definition fuse_Rmdir (dir name : bytes) (now : Z) : G unit := fuse_Unlink dir name now.

(** [newParent] is the directory node of the target; [fuel] bounds the depth of
    the tree that a directory move rewrites. *)
Definition fuse_Rename (fuel : nat) (dir name : bytes) (newParent : fuse_node) (newName : bytes) (now : Z) : G unit :=
  match newParent with
  | fuseFile _ => gfail EXDEV
  | fuseDir nd => on_core (Rename unmarshal fuel (joinPath dir name) (joinPath nd newName) now)
  end.

Definition fuse_Link (dir : bytes) (target : fuse_node) (name : bytes) (now : Z) : G (fuse_node * Attr) :=
  match target with
  | fuseDir _ => gfail EINVAL
  | fuseFile tp =>
      let dst := joinPath dir name in
      on_core (Link unmarshal tp dst now);;
      n ← nodeFor dst S_IFREG;
      e ← on_core (Lookup unmarshal dst now);
      mret (n, attrFromEntry e)
  end.

Definition fuse_Readdir (path : bytes) (now : Z) : G (list (Z * bytes)) :=
  es ← on_core (ReadDir unmarshal path now);
  mret ([(S_IFDIR, bs "."); (S_IFDIR, bs "..")]
        ++ ((λ e, (if decide (EType e = EntryDir) then S_IFDIR else S_IFREG, EName e)) <$> es)).

(** *** Files *)
Definition fuse_Open (path : bytes) (now : Z) : G fuseFileHandle :=
  e ← on_core (Lookup unmarshal path now); mret (newFuseFileHandle path e).

(** [load]; [spare] is the room [io.ReadAll] leaves behind the content. *)
Definition load (h : fuseFileHandle) (spare : nat) (now : Z) : G fuseFileHandle :=
  if loaded h then mret h
  else
    x ← on_core (Open unmarshal (hpath h) now);
    match read_all x.1 with
    | Err _ => gfail EIO
    | Ok data => mret (mkHandle (hpath h) (hmode h) (mkSlice (data ++ replicate spare ch_nul) (length data)) true (dirty h))
    end.

Definition fuse_Read (h : fuseFileHandle) (n : nat) (off : Z) (spare : nat) (now : Z) : G (bytes * fuseFileHandle) :=
  h ← load h spare now;
  let len := Z.of_nat (slen (hdata h)) in
  if len <=? off then mret ([], h)
  else
    let end_ := int64 (off + Z.of_nat n) in
    let end_ := if len <? end_ then len else end_ in
    if (off <? 0) || (end_ <? off) then gfail EIO
    else mret (take (Z.to_nat (end_ - off)) (drop (Z.to_nat off) (visible (hdata h))), h).

(** The buffer grown to [need] bytes: a new array, or a longer view. *)
Definition grow (need : Z) (s : slice) : slice :=
  if Z.of_nat (length (arr s)) <? need then
    mkSlice (visible s ++ replicate (Z.to_nat need - slen s) ch_nul) (Z.to_nat need)
  else if Z.of_nat (slen s) <? need then mkSlice (arr s) (Z.to_nat need)
  else s.

Definition set_data (s : slice) (d : bool) (h : fuseFileHandle) : fuseFileHandle := mkHandle (hpath h) (hmode h) s (loaded h) d.

Definition fuse_Write (h : fuseFileHandle) (data : bytes) (off : Z) (spare : nat) (now : Z) : G (Z * fuseFileHandle) :=
  h ← load h spare now;
  let s := grow (int64 (off + Z.of_nat (length data))) (hdata h) in
  if (off <? 0) || (Z.of_nat (slen s) <? off) then gfail EIO
  else mret (Z.of_nat (length data) mod 2 ^ 32, set_data (copy_at (Z.to_nat off) data s) true h).

Definition flush (h : fuseFileHandle) (now : Z) : G fuseFileHandle :=
  if negb (dirty h) then mret h
  else
    _ ← on_core (Create unmarshal (hpath h) (hmode h) (reader_of (visible (hdata h))) now);
    mret (set_data (hdata h) false h).
Definition Flush := flush.
Definition Release := flush.
End Fuse.

(** * A handle is a file *)

(** A write of [data] at [off]: what lies between the end and [off] becomes
    zeros. *)
Definition pwrite (c : bytes) (off : nat) (data : bytes) : bytes :=
  take off (c ++ replicate (off - length c) ch_nul) ++ data ++ drop (off + length data) c.

(** The array behind the length holds zeros: nothing was ever stored there. *)
Record slice_ok (s : slice) : Prop := {
  sl_len : (slen s <= length (arr s))%nat;
  sl_zero : drop (slen s) (arr s) = replicate (length (arr s) - slen s) ch_nul
}.

Lemma length_visible s : slice_ok s → length (visible s) = slen s.
Proof. intros [Hl _]. unfold visible. rewrite length_take. lia. Qed.

Lemma arr_split s : slice_ok s → arr s = visible s ++ replicate (length (arr s) - slen s) ch_nul.
Proof. intros [_ Hz]. unfold visible. rewrite <- Hz. by rewrite take_drop. Qed.

Lemma grow_ok need s :
  slice_ok s →
  slice_ok (grow need s) ∧ visible (grow need s) = visible s ++ replicate (Z.to_nat need - slen s) ch_nul
  ∧ slen (grow need s) = Nat.max (slen s) (Z.to_nat need).
Proof.
  intros Hs. pose proof (length_visible s Hs) as Hv. pose proof (arr_split s Hs) as Ha. destruct Hs as [Hl Hz]. unfold grow.
  destruct (Z.ltb_spec (Z.of_nat (length (arr s))) need) as [H1|H1]; [|destruct (Z.ltb_spec (Z.of_nat (slen s)) need) as [H2|H2]].
  - assert (length (visible s ++ replicate (Z.to_nat need - slen s) ch_nul) = Z.to_nat need) as Hn
      by (rewrite length_app, length_replicate, Hv; lia).
    split; [split; cbn [arr slen]|unfold visible; cbn [arr slen]].
    + lia.
    + rewrite Hn, Nat.sub_diag. by rewrite drop_ge by lia.
    + split; [|lia]. by rewrite take_ge by (change (take (slen s) (arr s)) with (visible s); lia).
  - split; [split; cbn [arr slen]|unfold visible at 1; cbn [arr slen]].
    + lia.
    + rewrite Ha at 1. rewrite drop_app_ge, drop_replicate, Hv by lia. f_equal. lia.
    + split; [|lia]. rewrite Ha at 1. rewrite take_app_ge, take_replicate, Hv by lia. f_equal. f_equal. lia.
  - split; [by split|]. replace (Z.to_nat need - slen s)%nat with 0%nat by lia. cbn. rewrite app_nil_r. split; [done|lia].
Qed.

Lemma copy_ok off data s :
  slice_ok s → (off + length data <= slen s)%nat →
  slice_ok (copy_at off data s) ∧ visible (copy_at off data s) = take off (visible s) ++ data ++ drop (off + length data) (visible s).
Proof.
  intros [Hl Hz] Hn. unfold copy_at. replace (Nat.min (length data) (slen s - off)) with (length data) by lia. rewrite (take_ge data) by lia.
  assert (length (take off (arr s) ++ data ++ drop (off + length data) (arr s)) = length (arr s)) as Hlen
    by (rewrite !length_app, length_take, length_drop; lia).
  split; [split; cbn [arr slen]|unfold visible; cbn [arr slen]].
  - lia.
  - rewrite Hlen, <- Hz, app_assoc, drop_app_ge, drop_drop; rewrite length_app, length_take; [|lia]. f_equal. lia.
  - rewrite app_assoc, take_app_ge; rewrite length_app, length_take; [|lia]. rewrite take_take, Nat.min_l by lia.
    rewrite <- app_assoc. f_equal; [f_equal; lia|]. f_equal. rewrite take_drop_commute. do 2 f_equal. lia.
Qed.

(** A write through the buffer is a write to the file. *)
Lemma write_slice off data s :
  slice_ok s →
  let s' := copy_at off data (grow (Z.of_nat (off + length data)) s) in
  slice_ok s' ∧ visible s' = pwrite (visible s) off data.
Proof.
  intros Hs. destruct (grow_ok (Z.of_nat (off + length data)) s Hs) as (Hg & Hv & Hl). rewrite Nat2Z.id in *.
  destruct (copy_ok off data _ Hg) as [Hc Hw]; [lia|]. split; [exact Hc|]. rewrite Hw, Hv. unfold pwrite.
  pose proof (length_visible s Hs) as Hlen. rewrite Hlen. f_equal; [|f_equal].
  - rewrite !take_app, Hlen. f_equal. rewrite !take_replicate. f_equal. lia.
  - rewrite drop_app, Hlen, drop_replicate. replace (off + length data - slen s - (off + length data - slen s))%nat with 0%nat by lia.
    cbn. by rewrite app_nil_r.
Qed.

Section Handles.
Context {B : Type} `{BlobStore B} (unmarshal : bytes → option dirManifest).
Implicit Types (r : fuseRoot (B := B)) (h : fuseFileHandle).

(** Writes through one handle, in order. *)
Fixpoint write_all h (ws : list (Z * bytes)) (spare : nat) (now : Z) : G (B := B) fuseFileHandle :=
  match ws with
  | [] => mret h
  | (off, data) :: ws => x ← fuse_Write unmarshal h data off spare now; write_all x.2 ws spare now
  end.

Definition file_after (c : bytes) (ws : list (Z * bytes)) : bytes :=
  foldl (λ c w, pwrite c (Z.to_nat w.1) w.2) c ws.
Definition write_fits (w : Z * bytes) : Prop := 0 <= w.1 ∧ w.1 + Z.of_nat (length w.2) < 2 ^ 63.

Lemma write_loaded h off data spare now r :
  loaded h = true → slice_ok (hdata h) → write_fits (off, data) →
  ∃ s', fuse_Write unmarshal h data off spare now r = Some (inl (Z.of_nat (length data) mod 2 ^ 32, set_data s' true h), r)
        ∧ slice_ok s' ∧ visible s' = pwrite (visible (hdata h)) (Z.to_nat off) data.
Proof.
  intros Hl Hs [H0 Hb]. cbn [fst snd] in *. unfold fuse_Write, load. rewrite Hl.
  unfold mbind, G_bind, mret, G_ret. cbn beta iota.
  rewrite int64_id by (unfold is_int64; lia).
  destruct (write_slice (Z.to_nat off) data (hdata h) Hs) as [Hok Hv].
  destruct (grow_ok (Z.of_nat (Z.to_nat off + length data)) (hdata h) Hs) as (_ & _ & Hlen).
  replace (Z.of_nat (Z.to_nat off + length data)) with (off + Z.of_nat (length data)) in * by lia.
  rewrite (proj2 (Z.ltb_ge off 0)), (proj2 (Z.ltb_ge _ off)) by lia. cbn [orb].
  eexists. split; [reflexivity|done].
Qed.

Lemma write_all_loaded h ws spare now r :
  loaded h = true → slice_ok (hdata h) → Forall write_fits ws →
  ∃ s', write_all h ws spare now r = Some (inl (set_data s' (match ws with [] => dirty h | _ => true end) h), r)
        ∧ slice_ok s' ∧ visible s' = file_after (visible (hdata h)) ws.
Proof.
  revert h. induction ws as [|[off data] ws IH]; intros h Hl Hs Hw.
  - exists (hdata h). split; [by destruct h|done].
  - apply Forall_cons in Hw as [Hw Hws]. destruct (write_loaded h off data spare now r Hl Hs Hw) as (s1 & E1 & Hs1 & Hv1).
    destruct (IH (set_data s1 true h) Hl Hs1 Hws) as (s' & E & Hs' & Hv).
    exists s'. split; [|split; [exact Hs'|by rewrite Hv; cbn [file_after foldl fst snd set_data hdata]; rewrite Hv1]].
    cbn [write_all]. unfold mbind, G_bind. rewrite E1. cbn [snd]. rewrite E. by destruct ws.
Qed.

Lemma read_loaded h n off spare now r :
  loaded h = true → slice_ok (hdata h) → 0 <= off → off + Z.of_nat n < 2 ^ 63 →
  fuse_Read unmarshal h n off spare now r = Some (inl (take n (drop (Z.to_nat off) (visible (hdata h))), h), r).
Proof.
  intros Hl Hs H0 Hb. pose proof (length_visible _ Hs) as Hlen. unfold fuse_Read, load. rewrite Hl.
  unfold mbind, G_bind, mret, G_ret. cbn beta iota. rewrite int64_id by (unfold is_int64; lia).
  destruct (Z.leb_spec (Z.of_nat (slen (hdata h))) off).
  - rewrite (drop_ge (visible _)) by lia. by rewrite take_nil.
  - rewrite (proj2 (Z.ltb_ge off 0)) by lia. cbn [orb].
    destruct (Z.ltb_spec (Z.of_nat (slen (hdata h))) (off + Z.of_nat n)).
    + rewrite (proj2 (Z.ltb_ge _ off)) by lia. by rewrite !take_ge by (rewrite length_drop; lia).
    + rewrite (proj2 (Z.ltb_ge _ off)) by lia. do 5 f_equal. lia.
Qed.

(** C17: An open file of the mount behaves as one file: after any writes through its handle, whatever capacity the buffer had, a read returns the bytes of the stored content with those writes applied in order, holes being zeros, and flushing stores exactly that content under the handle's path. *)
Theorem handle_refines_file h ws spare now r r0 rd e c :
  loaded h = false → Open unmarshal (hpath h) now (core r) = Some (Ok (rd, e), core r0) → nodes r0 = nodes r →
  read_all rd = Ok c → ws ≠ [] → Forall write_fits ws →
  ∃ h', write_all h ws spare now r = Some (inl h', r0)
  ∧ (∀ n off, 0 <= off → off + Z.of_nat n < 2 ^ 63 →
       fuse_Read unmarshal h' n off spare now r0 = Some (inl (take n (drop (Z.to_nat off) (file_after c ws)), h'), r0))
  ∧ flush unmarshal h' now r0
    = (_ ← on_core (Create unmarshal (hpath h) (hmode h) (reader_of (file_after c ws)) now); mret (set_data (hdata h') false h')) r0.
Proof.
  intros Hl Ho Hnodes Hr Hne Hws.
  set (h0 := mkHandle (hpath h) (hmode h) (mkSlice (c ++ replicate spare ch_nul) (length c)) true (dirty h)).
  assert (load unmarshal h spare now r = Some (inl h0, r0)) as Hload.
  { unfold load. rewrite Hl. unfold mbind, G_bind, on_core. rewrite Ho. cbn [fst snd]. rewrite Hr.
    unfold mret, G_ret. do 2 f_equal. rewrite <- Hnodes. by destruct r0. }
  assert (slice_ok (hdata h0)) as Hs0.
  { split; cbn; [rewrite length_app; lia|]. rewrite drop_app_length, length_app, length_replicate. f_equal. lia. }
  assert (visible (hdata h0) = c) as Hv0 by (unfold visible; cbn; apply take_app_length).
  assert (write_all h ws spare now r = write_all h0 ws spare now r0) as ->.
  { destruct ws as [|[off data] ws]; [done|]. cbn [write_all]. unfold fuse_Write, mbind, G_bind. rewrite Hload.
    unfold load. by change (loaded h0) with true. }
  destruct (write_all_loaded h0 ws spare now r0 eq_refl Hs0 Hws) as (s' & E & Hs' & Hv). rewrite Hv0 in Hv.
  eexists. split; [exact E|]. split.
  - intros n off H0 Hb. rewrite read_loaded by done. cbn [set_data hdata]. by rewrite Hv.
  - destruct ws; [done|]. unfold flush. cbn [dirty set_data negb hdata hpath hmode]. by rewrite Hv.
Qed.
End Handles.

(** ** Witnesses *)
Definition w_created : FS (B := gmap bytes bytes) :=
  match Create (w_decode [w_root]) (bs "/a") 420 (reader_of ex_body) 5 w_fs with Some (_, f) => f | None => w_fs end.
Definition w_opened := Open (w_decode [w_root]) (bs "/a") 6 w_created.
Definition w_handle : fuseFileHandle := newFuseFileHandle (bs "/a") (w_file (bs "a") ex_body).
Definition w_writes : list (Z * bytes) := [(4, bs "xy"); (1, bs "z")].

Lemma handle_refines_file_witness :
  ∃ r0 h', write_all (w_decode [w_root]) w_handle w_writes 1 6 (mkRoot w_created ∅) = Some (inl h', r0)
  ∧ fuse_Read (w_decode [w_root]) h' 3 1 1 6 r0 = Some (inl (take 3 (drop 1 (file_after ex_body w_writes)), h'), r0)
  ∧ flush (w_decode [w_root]) h' 6 r0
    = (_ ← on_core (Create (w_decode [w_root]) (bs "/a") 420 (reader_of (file_after ex_body w_writes)) 6); mret (set_data (hdata h') false h')) r0.
Proof.
  assert (match w_opened with Some (Ok (rd, _), _) => match read_all rd with Ok c => bool_decide (c = ex_body) | Err _ => false end | _ => false end
          = true) as Hc by (vm_compute; reflexivity).
  unfold w_opened in Hc. destruct (Open (w_decode [w_root]) (bs "/a") 6 w_created) as [[[[rd e]|er] f]|] eqn:E; try discriminate Hc.
  destruct (read_all rd) as [c|er] eqn:Er; [|discriminate Hc]. apply bool_decide_eq_true in Hc. subst c.
  destruct (handle_refines_file (w_decode [w_root]) w_handle w_writes 1 6 (mkRoot w_created ∅) (mkRoot f ∅) rd e ex_body) as (h' & H1 & H2 & H3).
  - reflexivity.
  - exact E.
  - reflexivity.
  - exact Er.
  - discriminate.
  - repeat constructor; vm_compute; congruence.
  - exists (mkRoot f ∅), h'. split; [exact H1|]. split; [exact (H2 3%nat 1 ltac:(lia) ltac:(lia))|exact H3].
Defined.

(** ** What the mount does not do *)
Definition w_run {A} (m : G (B := gmap bytes bytes) A) : option (A + errno) := fst <$> m (mkRoot w_fs ∅).

(** Writing a shorter text over a file keeps the tail of the old one: a handle is
    never truncated. *)
Example rewrite_keeps_tail : visible (copy_at 0 (bs "x") (mkSlice (bs "old") 3)) = bs "xld".
Proof. reflexivity. Qed.

(** A handle that is flushed after its file was moved brings the old name back. *)
Example flush_after_rename :
  let new := w_man [mkEntry (bs "b") EntryFile 420 0 0 2 5 ex_hash []] in
  let d := w_decode [w_root; new] in
  w_run (on_core (Create d (bs "/a") 420 (reader_of ex_body) 5);;
         h ← fuse_Open d (bs "/a") 5; x ← fuse_Write d h (bs "Z") 0 0 5;
         fuse_Rename d 1 (bs "/") (bs "a") (fuseDir (bs "/")) (bs "b") 5;;
         es ← on_core (ReadDir d (bs "/") 5);
         flush d x.2 5;; f ← on_core fget; mret (EName <$> es, is_ok (GetHashForName (fstore f) (objKey (bs "/a")))))
  = Some (inl ([bs "b"], true)).
Proof. vm_compute. reflexivity. Qed.

(** The node of a path outlives what was there: a file made where a directory was
    removed is answered with the directory's node. *)
Example stale_node :
  let d := w_decode [w_man []; w_man [w_dir (bs "a")]; w_man [mkEntry (bs "a") EntryFile 420 0 0 0 5 (HashBytes []) []]] in
  w_run (fuse_Mkdir d (bs "/") (bs "a") 493 5;; fuse_Rmdir d (bs "/") (bs "a") 5;;
         x ← fuse_Create d (bs "/") (bs "a") 420 5; mret x.1.1)
  = Some (inl (fuseDir (bs "/a"))).
Proof. vm_compute. reflexivity. Qed.
