(* ===== verification/Oprf.v ===== *)
(** * Threshold OPRF evaluation in the cluster
      (src/src/p2p/oprf_rpc.go, src/src/server/oprf_service.go)

    A daemon evaluates a blinded tag under its share and gathers the evaluations
    of its peers until a quorum of distinct shares is there.  The evaluation
    itself is over a curve library and is an argument.  [Evaluate] is split at
    its wait; the pending table holds the channel of each request, which has
    room for one answer per peer. *)
From S2P Require Import Prelude GoText Hashes Wire Lease Peers Gossip Config.
Open Scope Z_scope.

Definition MsgOPRFEvalRequest : Z := 12.
Definition MsgOPRFEvalResponse : Z := 13.

(** ** The share of a daemon *)
Record oprfShareEvaluator := mkEval { shareIndex : Z; shareScalar : bytes }.

Definition newOPRFShareEvaluator (d : Daemon) : result oprfShareEvaluator :=
  match OPRFShare d with
  | [] => Err (Errno EINVAL)
  | s => match hex_decode s with Some b => Ok (mkEval (OPRFShareIndex d) b) | None => Err ErrPlain end
  end.

(** ** The provider *)
Record pendingOPRF := mkPO { po_responses : list OPRFEvalResponsePayload; po_count : nat }.
Record OPRFProvider := mkOP { op_localID : Z; op_next : Z; op_pending : gmap Z pendingOPRF }.
Definition NewOPRFProvider (localID : Z) : OPRFProvider := mkOP localID 0 ∅.

Section Evaluation.
Variable OPRFEvaluateShare : bytes → bytes → result bytes.
Variable text : error → bytes.

Definition EvaluateShare (ev : oprfShareEvaluator) (blinded : bytes) : result bytes := OPRFEvaluateShare (shareScalar ev) blinded.

(** A peer answers under its own index, whatever index was asked for. *)
Definition eval_response (handler : option oprfShareEvaluator) (p : OPRFEvalRequestPayload) : OPRFEvalResponsePayload :=
  match handler with
  | None => mkOResp (ORequestID p) 0 (bs "oprf evaluator not configured") []
  | Some ev =>
      match EvaluateShare ev (Blinded p) with
      | Ok e => mkOResp (ORequestID p) (shareIndex ev mod 256) [] e
      | Err er => mkOResp (ORequestID p) (shareIndex ev mod 256) (text er) []
      end
  end.

Definition handleEvalRequest (write : Z → bool) (g : Gossiper) (handler : option oprfShareEvaluator) (localID : Z) (rpc : RPC) : list effect :=
  match DecodeOPRFEvalRequestPayload (Payload rpc) with
  | Err _ => []
  | Ok p => sends write g (From rpc) (mkRPC localID MsgOPRFEvalResponse (OPRFResponse_Encode (eval_response handler p)))
  end.

(** A response goes to the request it names; a full channel drops it. *)
Definition handleEvalResponse (o : OPRFProvider) (rpc : RPC) : OPRFProvider :=
  match DecodeOPRFEvalResponsePayload (Payload rpc) with
  | Err _ => o
  | Ok p =>
      match op_pending o !! SRequestID p with
      | None => o
      | Some pq =>
          if (length (po_responses pq) <? po_count pq)%nat
          then mkOP (op_localID o) (op_next o) (<[SRequestID p := mkPO (po_responses pq ++ [p]) (po_count pq)]> (op_pending o))
          else o
      end
  end.

Definition oprf_HandleRPC (write : Z → bool) (g : Gossiper) (handler : option oprfShareEvaluator) (o : OPRFProvider) (rpc : RPC)
    : OPRFProvider * list effect :=
  if Type_ rpc =? MsgOPRFEvalRequest then (o, handleEvalRequest write g handler (op_localID o) rpc)
  else if Type_ rpc =? MsgOPRFEvalResponse then (handleEvalResponse o rpc, [])
  else (o, []).

(** [Evaluate] up to its wait: the request, or nothing without other peers. *)
Definition evaluate_begin (o : OPRFProvider) (alive : list Z) (blinded : bytes) : option (OPRFProvider * RPC * Z) :=
  match length (filter (λ id, id ≠ op_localID o) alive) with
  | O => None
  | n =>
      let id := uint64 (op_next o + 1) in
      Some (mkOP (op_localID o) id (<[id := mkPO [] n]> (op_pending o)),
            mkRPC (op_localID o) MsgOPRFEvalRequest (OPRFRequest_Encode (mkOReq id 0 blinded)), id)
  end.

(** The end of the wait. *)
Definition evaluate_end (o : OPRFProvider) (id : Z) : list OPRFEvalResponsePayload * OPRFProvider :=
  (match op_pending o !! id with Some pq => po_responses pq | None => [] end,
   mkOP (op_localID o) (op_next o) (delete id (op_pending o))).

(** ** The service of a daemon *)
Fixpoint collect (seen : gset Z) (rs : list OPRFEvalResponsePayload) : list (Z * bytes) :=
  match rs with
  | [] => []
  | r :: rs =>
      let idx := SShareIndex r in
      if negb (bool_decide (SError r = [])) || bool_decide (Eval_ r = []) || (idx <=? 0) || bool_decide (idx ∈ seen)
      then collect seen rs
      else (idx, Eval_ r) :: collect ({[idx]} ∪ seen) rs
  end.

(** [responses] is what the peers answered, [None] without a provider. *)
Definition EvaluateOPRF (ev : oprfShareEvaluator) (threshold : Z) (blinded : bytes)
    (responses : option (list OPRFEvalResponsePayload)) : result (list (Z * bytes)) :=
  let! own := EvaluateShare ev blinded in
  let results := (shareIndex ev, own) :: match responses with Some rs => collect {[shareIndex ev]} rs | None => [] end in
  if Z.of_nat (length results) <? threshold then Err ErrPlain else Ok results.

Record daemonOPRFService := mkService { evaluator : oprfShareEvaluator; service_threshold : Z }.
Definition newDaemonOPRFService (d : Daemon) (threshold : Z) : result daemonOPRFService :=
  let! ev := newOPRFShareEvaluator d in Ok (mkService ev threshold).

(** * Theorems *)
Lemma collect_spec seen rs :
  NoDup (collect seen rs).*1
  ∧ Forall (λ x, x.1 ∉ seen ∧ 0 < x.1 ∧ ∃ r, r ∈ rs ∧ x = (SShareIndex r, Eval_ r) ∧ SError r = []) (collect seen rs).
Proof.
  revert seen. induction rs as [|r rs IH]; intros seen; [split; constructor|]. cbn [collect].
  destruct (_ || _ || _ || _) eqn:E.
  - destruct (IH seen) as [H1 H2]. split; [done|]. eapply Forall_impl; [exact H2|]. intros x (? & ? & q & ? & ?).
    split_and!; [done..|]. exists q. split; [by right|done].
  - apply orb_false_iff in E as [[[E1 E2]%orb_false_iff E3]%orb_false_iff E4].
    apply negb_false_iff, bool_decide_eq_true in E1. apply bool_decide_eq_false in E4. apply Z.leb_gt in E3.
    destruct (IH ({[SShareIndex r]} ∪ seen)) as [H1 H2]. split.
    + cbn [fmap list_fmap fst]. constructor; [|done]. intros (x & Ex & Hx)%list_elem_of_fmap. rewrite Forall_forall in H2.
      destruct (H2 x Hx) as (Hns & _). rewrite <- Ex in Hns. set_solver.
    + constructor; [split_and!; [done..|]; exists r; split_and!; [by left|done..]|].
      eapply Forall_impl; [exact H2|]. intros x (Hns & ? & q & ? & ?). split_and!; [set_solver|done|]. exists q. split; [by right|done].
Qed.

(** Answers of distinct shares are all kept. *)
Lemma collect_all seen rs :
  NoDup (SShareIndex <$> rs) → Forall (λ r, SShareIndex r ∉ seen ∧ 0 < SShareIndex r ∧ SError r = [] ∧ Eval_ r ≠ []) rs →
  collect seen rs = (λ r, (SShareIndex r, Eval_ r)) <$> rs.
Proof.
  revert seen. induction rs as [|r rs IH]; intros seen Hn Hr; [done|]. apply Forall_cons in Hr as [(H1 & H2 & H3 & H4) Hr].
  apply NoDup_cons in Hn as [Hni Hn]. cbn [collect fmap list_fmap].
  rewrite (bool_decide_eq_true_2 (SError r = [])), (bool_decide_eq_false_2 (Eval_ r = [])), (proj2 (Z.leb_gt _ _)), bool_decide_eq_false_2 by done.
  cbn [negb orb]. f_equal. apply IH; [done|]. apply Forall_forall. intros q Hq. rewrite Forall_forall in Hr. destruct (Hr q Hq) as (? & ? & ? & ?).
  split_and!; [|done..]. apply not_elem_of_union. split; [|done]. apply not_elem_of_singleton. intros E. apply Hni. rewrite <- E. by apply list_elem_of_fmap_2.
Qed.

(** The evaluator a daemon starts with, and its answer to a request. *)
Definition evaluator_of (d : Daemon) : option oprfShareEvaluator :=
  match newOPRFShareEvaluator d with Ok ev => Some ev | Err _ => None end.
Definition answer_of (p : OPRFEvalRequestPayload) (d : Daemon) : OPRFEvalResponsePayload := eval_response (evaluator_of d) p.

(** The share of [d] evaluates [blinded]. *)
Definition evaluates (blinded : bytes) (d : Daemon) : Prop :=
  ∃ ev e, newOPRFShareEvaluator d = Ok ev ∧ shareIndex ev = OPRFShareIndex d ∧ EvaluateShare ev blinded = Ok e ∧ e ≠ [].

(** A result that is under the threshold, or that repeats a share, is never given
    out. *)
Theorem oprf_quorum_sound ev threshold blinded responses results :
  EvaluateOPRF ev threshold blinded responses = Ok results →
  threshold <= Z.of_nat (length results) ∧ NoDup results.*1
  ∧ ∃ own rest, results = (shareIndex ev, own) :: rest ∧ EvaluateShare ev blinded = Ok own
    ∧ Forall (λ x, 0 < x.1 ∧ ∃ r, r ∈ default [] responses ∧ x = (SShareIndex r, Eval_ r) ∧ SError r = []) rest.
Proof.
  unfold EvaluateOPRF. destruct (EvaluateShare ev blinded) as [own|]; [|done].
  set (rest := match responses with Some _ => _ | None => _ end). case_match eqn:E; [done|]. intros [= <-]. apply Z.ltb_ge in E.
  assert (NoDup rest.*1 ∧ Forall (λ x, x.1 ∉ ({[shareIndex ev]} : gset Z) ∧ 0 < x.1 ∧ ∃ r, r ∈ default [] responses ∧ x = (SShareIndex r, Eval_ r) ∧ SError r = []) rest)
    as [Hn Hr] by (unfold rest; destruct responses; [apply collect_spec|split; constructor]).
  split_and!; [done| |].
  - cbn [fmap list_fmap fst]. constructor; [|done]. intros (x & Ex & Hx)%list_elem_of_fmap. rewrite Forall_forall in Hr.
    destruct (Hr x Hx) as (Hs & _). rewrite <- Ex in Hs. set_solver.
  - exists own, rest. split_and!; [done..|]. eapply Forall_impl; [exact Hr|]. naive_solver.
Qed.

Lemma answer_ok id blinded d :
  evaluates blinded d → 0 < OPRFShareIndex d < 256 →
  SShareIndex (answer_of (mkOReq id 0 blinded) d) = OPRFShareIndex d
  ∧ SError (answer_of (mkOReq id 0 blinded) d) = [] ∧ Eval_ (answer_of (mkOReq id 0 blinded) d) ≠ [].
Proof.
  intros (ev & e & En & Ei & Ee & Hne) Hr. unfold answer_of, evaluator_of. rewrite En. unfold eval_response. cbn [Blinded].
  rewrite Ee. cbn. rewrite Ei. split_and!; [by apply Z.mod_small; lia|done|done].
Qed.

Lemma shares_distinct c l :
  config_ok c → OPRFEnabled (Global c) = true → (length (Daemons c) <= 255)%nat → l ⊆+ Daemons c →
  NoDup (OPRFShareIndex <$> l) ∧ Forall (λ d, 0 < OPRFShareIndex d < 256) l.
Proof.
  intros Hc Hon Hn Hsub. destruct (co_shares _ Hc Hon) as (Hperm & _ & _).
  apply submseteq_Permutation in Hsub as [t Ht].
  assert ((OPRFShareIndex <$> l) ++ (OPRFShareIndex <$> t) ≡ₚ seqZ 1 (Z.of_nat (length (Daemons c)))) as Hp
    by (by rewrite <- fmap_app, <- Ht).
  assert (NoDup ((OPRFShareIndex <$> l) ++ (OPRFShareIndex <$> t))) as Hnd by (rewrite Hp; apply NoDup_seqZ).
  split; [by apply NoDup_app in Hnd as [? _]|]. apply Forall_forall. intros d Hd.
  assert (OPRFShareIndex d ∈ seqZ 1 (Z.of_nat (length (Daemons c)))) as Hin
    by (rewrite <- Hp; apply elem_of_app; left; by apply list_elem_of_fmap_2).
  apply elem_of_seqZ in Hin. lia.
Qed.

(** With a configuration the loader accepted (at most 255 daemons), the daemons that answer make a quorum: when a daemon and enough peers to meet the threshold evaluate the tag, the service returns one evaluation per answering daemon, under the distinct share indices of the configuration. *)
Theorem oprf_quorum_reached c d0 others id blinded :
  config_ok c → OPRFEnabled (Global c) = true → (length (Daemons c) <= 255)%nat →
  d0 :: others ⊆+ Daemons c → Forall (evaluates blinded) (d0 :: others) →
  OPRFThreshold (Global c) <= Z.of_nat (S (length others)) →
  ∃ ev results, newOPRFShareEvaluator d0 = Ok ev
  ∧ EvaluateOPRF ev (OPRFThreshold (Global c)) blinded (Some (answer_of (mkOReq id 0 blinded) <$> others)) = Ok results
  ∧ results.*1 = OPRFShareIndex <$> d0 :: others ∧ NoDup results.*1.
Proof.
  intros Hc Hon Hn Hsub Hev Ht.
  destruct (shares_distinct c (d0 :: others) Hc Hon Hn Hsub) as [Hnd Hrange].
  apply Forall_cons in Hev as [(ev & e & En & Ei & Ee & _) Hev]. apply Forall_cons in Hrange as [Hr0 Hrange].
  rewrite fmap_cons in Hnd. apply NoDup_cons in Hnd as Hnd'. destruct Hnd' as [Hni Hnd'].
  set (p := mkOReq id 0 blinded) in *.
  assert (SShareIndex <$> (answer_of p <$> others) = OPRFShareIndex <$> others) as Hidx.
  { rewrite <- list_fmap_compose. apply list_fmap_ext. intros i d Hd. cbn. apply list_elem_of_lookup_2 in Hd.
    rewrite Forall_forall in Hev, Hrange. by apply (answer_ok id blinded d); auto. }
  exists ev, ((OPRFShareIndex d0, e) :: ((λ r, (SShareIndex r, Eval_ r)) <$> (answer_of p <$> others))).
  assert (((OPRFShareIndex d0, e) :: ((λ r, (SShareIndex r, Eval_ r)) <$> (answer_of p <$> others))).*1 = OPRFShareIndex <$> d0 :: others) as Hres.
  { rewrite !fmap_cons. cbn [fst]. f_equal. rewrite <- Hidx. by rewrite <- !list_fmap_compose. }
  split; [done|]. split; [|by rewrite Hres].
  unfold EvaluateOPRF. rewrite Ee, Ei. rewrite collect_all; [|by rewrite Hidx|].
  - rewrite (proj2 (Z.ltb_ge _ _)); [done|]. cbn [length]. rewrite !length_fmap. exact Ht.
  - apply Forall_fmap, Forall_forall. intros d Hd. cbn. rewrite Forall_forall in Hev, Hrange.
    destruct (answer_ok id blinded d (Hev d Hd) (Hrange d Hd)) as (E1 & E2 & E3). fold p in E1, E2, E3. rewrite E1.
    split_and!; [|specialize (Hrange d Hd); lia|done|done]. apply not_elem_of_singleton. intros E. apply Hni. rewrite <- E. by apply list_elem_of_fmap_2.
Qed.
End Evaluation.
