(* ===== verification/Threshold.v ===== *)
(** * The threshold OPRF (src/src/crypto/oprf.go, src/src/client/oprf.go)

    A dealer splits a secret scalar into Shamir shares; a client blinds a tag,
    has a quorum of daemons evaluate it and combines the answers into a content
    key.  The prime-order group is the one of a curve library that is not under
    src/: [OprfGroup] is the interface the code uses of it and [OprfGroupLaws]
    what it documents (scalars are a field, elements are multiplied by scalars,
    encodings are decoded).  Random scalars are arguments; the library never
    draws zero. *)
From Stdlib Require Import Field.
From S2P Require Import Prelude GoText Hashes CasStore BlobStore Wire Protocol Config Oprf.
Open Scope Z_scope.

(** ** The group *)
Class OprfGroup := {
  Scalar : Type; Element : Type;
  s_zero : Scalar; s_one : Scalar;
  s_add : Scalar → Scalar → Scalar; s_mul : Scalar → Scalar → Scalar; s_sub : Scalar → Scalar → Scalar;
  s_inv : Scalar → Scalar; SetInt : Z → Scalar;
  s_Encode : Scalar → bytes; s_Decode : bytes → option Scalar; ScalarLength : nat;
  e_identity : Element;
  e_add : Element → Element → Element; e_mul : Element → Scalar → Element;
  e_Encode : Element → bytes; e_Decode : bytes → option Element; ElementLength : nat;
  HashToGroup : bytes → bytes → Element
}.

Class OprfGroupLaws `{OprfGroup} (order : Z) : Prop := {
  law_field : field_theory s_zero s_one s_add s_mul s_sub (λ x, s_sub s_zero x) (λ x y, s_mul x (s_inv y)) s_inv eq;
  law_int_zero : SetInt 0 = s_zero;
  law_int_inj x y : 0 <= x < order → 0 <= y < order → SetInt x = SetInt y → x = y;
  law_mul_one e : e_mul e s_one = e;
  law_mul_mul e a b : e_mul (e_mul e a) b = e_mul e (s_mul a b);
  law_mul_add e a b : e_mul e (s_add a b) = e_add (e_mul e a) (e_mul e b);
  law_mul_identity a : e_mul e_identity a = e_identity;
  law_scalar_length s : length (s_Encode s) = ScalarLength;
  law_scalar_decode s : s ≠ s_zero → s_Decode (s_Encode s) = Some s;
  law_element_length e : length (e_Encode e) = ElementLength;
  law_element_decode e : e ≠ e_identity → e_Decode (e_Encode e) = Some e
}.

(** ** Shares and evaluations *)
Record OPRFSharePair := mkShare { SP_ShareIndex : Z; SP_Share : bytes }.
Record OPRFEvaluation := mkEvaluation { EV_ShareIndex : Z; EV_Eval : bytes }.

Definition oprfDST : bytes := bs "momo/oprf/threshold-ristretto255-sha512".

Section Scheme.
Context `{OprfGroup}.

Definition scalarFromInt (v : Z) : Scalar := SetInt v.

(** The value of the polynomial at a point, by its running power. *)
Definition share_at (coeffs : list Scalar) (point : Z) : Scalar :=
  (foldl (λ '(out, p) c, (s_add out (s_mul p c), s_mul p (scalarFromInt point))) (s_zero, s_one) coeffs).1.

(** [draw i] is the random scalar of coefficient [i]. *)
Definition GenerateOPRFShares (t n : Z) (draw : nat → Scalar) : result (list OPRFSharePair) :=
  if (t <? 1) || (n <? t) then Err ErrPlain
  else
    let coeffs := draw <$> seq 0 (Z.to_nat t) in
    Ok ((λ point, mkShare point (s_Encode (share_at coeffs point))) <$> seqZ 1 n).

Definition decodeScalar (b : bytes) : result Scalar :=
  if negb (length b =? ScalarLength)%nat then Err ErrPlain
  else match s_Decode b with Some s => Ok s | None => Err ErrPlain end.
Definition decodeElement (b : bytes) : result Element :=
  if negb (length b =? ElementLength)%nat then Err ErrPlain
  else match e_Decode b with Some e => Ok e | None => Err ErrPlain end.

(** [r] is the random blind. *)
Definition OPRFBlind (tag : bytes) (r : Scalar) : result (bytes * bytes) :=
  match tag with
  | [] => Err ErrPlain
  | _ => Ok (e_Encode (e_mul (HashToGroup tag oprfDST) r), s_Encode r)
  end.

Definition OPRFEvaluateShare (shareScalar blinded : bytes) : result bytes :=
  let! share := decodeScalar shareScalar in
  let! e := decodeElement blinded in
  Ok (e_Encode (e_mul e share)).

Fixpoint unique_loop (seen : gset Z) (evaluations : list OPRFEvaluation) : result unit :=
  match evaluations with
  | [] => Ok tt
  | e :: rest =>
      if bool_decide (EV_ShareIndex e ∈ seen) then Err ErrPlain else unique_loop ({[EV_ShareIndex e]} ∪ seen) rest
  end.
Definition verifyUniqueEvaluations (evaluations : list OPRFEvaluation) : result unit := unique_loop ∅ evaluations.

(** *** Batch inversion *)

(** The running products from [p] on. *)
Fixpoint products (p : Scalar) (l : list Scalar) : list Scalar :=
  p :: match l with [] => [] | s :: l => products (s_mul p s) l end.

(** The loop from the last scalar down: [acc] is the inverse of the product up
    to the current one, each step holds the product before it and the scalar. *)
Fixpoint unwind (acc : Scalar) (steps : list (Scalar * Scalar)) (invs : list Scalar) : list Scalar :=
  match steps with
  | [] => acc :: invs
  | (before, s) :: steps => unwind (s_mul acc s) steps (s_mul before acc :: invs)
  end.

Definition batchInvert (scalars : list Scalar) : list Scalar :=
  match scalars with
  | [] => []
  | [s] => [s_inv s]
  | s :: rest =>
      let prefix := products s rest in
      unwind (s_inv (List.last prefix s)) (rev (zip prefix rest)) []
  end.

(** *** Interpolation *)
Definition lagrange_num (i : nat) (points : list Z) : Scalar :=
  foldl (λ num xj, s_mul num (scalarFromInt xj)) s_one (delete i points).
Definition lagrange_den (i : nat) (xi : Z) (points : list Z) : Scalar :=
  foldl (λ den xj, s_mul den (s_sub (scalarFromInt xj) (scalarFromInt xi))) s_one (delete i points).

Definition lagrangeAtZero (evaluations : list OPRFEvaluation) : result (list Scalar) :=
  let points := EV_ShareIndex <$> evaluations in
  if bool_decide (Exists (λ p, p <= 0) points) then Err ErrPlain
  else
    let! _ := verifyUniqueEvaluations evaluations in
    let nums := imap (λ i _, lagrange_num i points) points in
    let dens := imap (λ i xi, lagrange_den i xi points) points in
    Ok (zip_with s_mul nums (batchInvert dens)).

Definition oprfFinalizeElement (e : Element) (blind : bytes) : result bytes :=
  let! b := decodeScalar blind in
  Ok (sha256 (e_Encode (e_mul e (s_inv b)))).

(** The weighted sum of the evaluations. *)
Fixpoint combine_loop (combined : option Element) (l : list (OPRFEvaluation * Scalar)) : result (option Element) :=
  match l with
  | [] => Ok combined
  | (ev, c) :: l =>
      match e_Decode (EV_Eval ev) with
      | None => Err ErrPlain
      | Some e =>
          let e := e_mul e c in
          combine_loop (Some match combined with None => e | Some a => e_add a e end) l
      end
  end.

(** With a threshold above one there are at least two evaluations, so that the sum
    is not empty. *)
Definition OPRFCombineUnblind (evaluations : list OPRFEvaluation) (blind : bytes) (threshold : Z) : result bytes :=
  if threshold <? 1 then Err ErrPlain
  else if Z.of_nat (length evaluations) <? threshold then Err ErrPlain
  else if threshold =? 1 then
    let! _ := verifyUniqueEvaluations evaluations in
    match evaluations with
    | [] => Err ErrPlain
    | ev :: _ => let! e := decodeElement (EV_Eval ev) in oprfFinalizeElement e blind
    end
  else
    let! coefficients := lagrangeAtZero evaluations in
    let! combined := combine_loop None (zip evaluations coefficients) in
    match combined with None => Err ErrPlain | Some e => oprfFinalizeElement e blind end.

(** ** The client *)
Definition deriveOPRFContentKey {S} (challenge : bool) (authToken : bytes) (now : Z) (threshold : Z) (tagHex : bytes) (r : Scalar)
    : M S bytes :=
  match hex_decode tagHex with
  | None => fail_with ErrPlain
  | Some tag =>
      b ← lift (OPRFBlind tag r);
      let '(blinded, blind) := b in
      results ← SendOPRFEval challenge authToken now blinded threshold;
      contentKey ← lift (OPRFCombineUnblind ((λ x : Z * bytes, mkEvaluation x.1 x.2) <$> results) blind threshold);
      match contentKey with [] => fail_with (Errno EBADMSG) | _ => mret contentKey end
  end.
End Scheme.

(** * Theorems *)
Section Algebra.
Context `{G : OprfGroup} {order : Z} `{!OprfGroupLaws order}.

#[local] Definition scalar_field := law_field.
Add Field scalars : scalar_field.

#[local] Notation "0" := s_zero.
#[local] Notation "1" := s_one.
#[local] Infix "+" := s_add.
#[local] Infix "*" := s_mul.
#[local] Infix "-" := s_sub.

Lemma sub_nonzero a b : a ≠ b → a - b ≠ 0.
Proof. intros Hn E. apply Hn. transitivity ((a - b) + b); [ring|rewrite E; ring]. Qed.

Lemma mul_nonzero a b : a ≠ 0 → b ≠ 0 → a * b ≠ 0.
Proof. intros Ha Hb E. apply Hb. transitivity (s_inv a * (a * b)); [field; done|rewrite E; ring]. Qed.

Lemma mul_cancel a b : a ≠ 0 → a * b = 0 → b = 0.
Proof. intros Ha E. transitivity (s_inv a * (a * b)); [field; done|rewrite E; ring]. Qed.

(** ** Batch inversion inverts *)
Lemma last_products p l d : List.last (products p l) d = foldl s_mul p l.
Proof.
  revert p d. induction l as [|s l IH]; intros p d; [done|]. cbn [products foldl]. rewrite <- (IH (p * s) d).
  by destruct l.
Qed.

Lemma foldl_mul_nonzero p l : p ≠ 0 → Forall (λ s, s ≠ 0) l → foldl s_mul p l ≠ 0.
Proof.
  revert p. induction l as [|s l IH]; intros p Hp Hl; [done|]. apply Forall_cons in Hl as [Hs Hl]. by apply IH; [apply mul_nonzero|].
Qed.

Lemma unwind_products p l steps invs :
  p ≠ 0 → Forall (λ s, s ≠ 0) l →
  unwind (s_inv (foldl s_mul p l)) (rev (zip (products p l) l) ++ steps) invs = unwind (s_inv p) steps ((s_inv <$> l) ++ invs).
Proof.
  revert p steps invs. induction l as [|s l IH]; intros p steps invs Hp Hl; [done|]. apply Forall_cons in Hl as [Hs Hl].
  cbn [products foldl zip zip_with rev]. rewrite <- app_assoc. cbn [app].
  change (zip_with pair (products (p * s) l) l) with (zip (products (p * s) l) l).
  rewrite IH by (try done; by apply mul_nonzero). cbn [unwind fmap list_fmap app]. f_equal; [field; done|]. f_equal. field. done.
Qed.

Lemma batchInvert_ok l : Forall (λ s, s ≠ 0) l → batchInvert l = s_inv <$> l.
Proof.
  destruct l as [|s [|s' l]]; [done..|]. intros [Hs Hl]%Forall_cons. unfold batchInvert.
  rewrite last_products, <- (app_nil_r (rev _)), unwind_products by done. by rewrite app_nil_r.
Qed.

(** ** Interpolation *)

(** Polynomials as lists of coefficients, from the constant on. *)
Definition peval (f : list Scalar) (x : Scalar) : Scalar := foldr (λ c r, c + x * r) 0 f.

Lemma share_at_loop f x out p :
  (foldl (λ '(out, p) c, (out + p * c, p * x)) (out, p) f).1 = out + p * peval f x.
Proof.
  revert out p. induction f as [|c f IH]; intros out p; [cbn; ring|]. cbn [foldl peval foldr]. rewrite IH. fold (peval f x). ring.
Qed.

Lemma share_at_peval f point : share_at f point = peval f (SetInt point).
Proof. unfold share_at, scalarFromInt. rewrite share_at_loop. ring. Qed.

(** Division by [x - a]. *)
Fixpoint pdiv (a : Scalar) (f : list Scalar) : list Scalar :=
  match f with [] | [_] => [] | _ :: f => peval f a :: pdiv a f end.

Lemma pdiv_spec a f x : peval f x = peval f a + (x - a) * peval (pdiv a f) x.
Proof.
  induction f as [|c f IH]; [cbn; ring|]. destruct f as [|c' f]; [cbn; ring|].
  change (peval (c :: c' :: f) ?y) with (c + y * peval (c' :: f) y).
  change (pdiv a (c :: c' :: f)) with (peval (c' :: f) a :: pdiv a (c' :: f)).
  change (peval (?d :: pdiv a (c' :: f)) x) with (d + x * peval (pdiv a (c' :: f)) x). rewrite IH at 1. ring.
Qed.

Lemma length_pdiv a f : length (pdiv a f) = (length f - 1)%nat.
Proof. induction f as [|c [|c' f] IH]; [done..|]. cbn [pdiv length] in *. rewrite IH. lia. Qed.

(** The sum over the points of [w] divided by the product of the differences
    to the other points. *)
Definition diffs (x : Scalar) (xs : list Scalar) : Scalar := foldl (λ d y, d * (y - x)) 1 xs.
Fixpoint dd (w : Scalar → Scalar) (xs : list Scalar) : Scalar :=
  match xs with
  | [] => 0
  | a :: xs => w a * s_inv (diffs a xs) + dd (λ x, w x * s_inv (a - x)) xs
  end.

Lemma foldl_mul_out {A} (g : A → Scalar) d xs : foldl (λ d y, d * g y) d xs = d * foldl (λ d y, d * g y) 1 xs.
Proof.
  revert d. induction xs as [|y xs IH]; intros d; cbn [foldl]; [ring|]. rewrite (IH (d * g y)), (IH (1 * g y)). ring.
Qed.

Lemma diffs_cons x y xs : diffs x (y :: xs) = (y - x) * diffs x xs.
Proof. unfold diffs at 1. cbn [foldl]. rewrite (foldl_mul_out (λ y, y - x)). fold (diffs x xs). ring. Qed.

Lemma diffs_nonzero x xs : x ∉ xs → diffs x xs ≠ 0.
Proof.
  induction xs as [|y xs IH]; [intros _; exact (F_1_neq_0 law_field)|]. rewrite not_elem_of_cons, diffs_cons. intros [Hy Hx].
  apply mul_nonzero; [by apply sub_nonzero|by apply IH].
Qed.

Lemma dd_ext w w' xs : (∀ x, x ∈ xs → w x = w' x) → dd w xs = dd w' xs.
Proof.
  revert w w'. induction xs as [|a xs IH]; intros w w' Hw; [done|]. cbn [dd]. rewrite (Hw a) by left. f_equal.
  apply IH. intros x Hx. by rewrite Hw by (by right).
Qed.

Lemma dd_linear c d w w' xs : dd (λ x, c * w x + d * w' x) xs = c * dd w xs + d * dd w' xs.
Proof.
  revert w w'. induction xs as [|a xs IH]; intros w w'; [cbn; ring|]. cbn [dd].
  rewrite (dd_ext _ (λ x, c * (w x * s_inv (a - x)) + d * (w' x * s_inv (a - x)))) by (intros; ring). rewrite IH. ring.
Qed.

(** Exchanging the first point. *)
Lemma dd_swap w a b xs :
  NoDup (a :: b :: xs) → (b - a) * dd w (a :: b :: xs) = dd w (a :: xs) - dd w (b :: xs).
Proof.
  intros [[Hab Ha]%not_elem_of_cons [Hb _]%NoDup_cons]%NoDup_cons. cbn [dd]. rewrite diffs_cons.
  pose proof (sub_nonzero b a (not_eq_sym Hab)). pose proof (sub_nonzero a b Hab).
  pose proof (diffs_nonzero a xs Ha). pose proof (diffs_nonzero b xs Hb).
  assert ((b - a) * dd (λ x, w x * s_inv (a - x) * s_inv (b - x)) xs
          = dd (λ x, w x * s_inv (a - x)) xs - dd (λ x, w x * s_inv (b - x)) xs) as E.
  { transitivity (1 * dd (λ x, w x * s_inv (a - x)) xs + (0 - 1) * dd (λ x, w x * s_inv (b - x)) xs); [|ring].
    rewrite <- dd_linear. transitivity ((b - a) * dd (λ x, w x * s_inv (a - x) * s_inv (b - x)) xs + 0 * dd w xs); [ring|].
    rewrite <- dd_linear. apply dd_ext. intros x Hx.
    pose proof (sub_nonzero a x ltac:(by intros ->)). pose proof (sub_nonzero b x ltac:(by intros ->)). field. done. }
  transitivity ((b - a) * (w a * s_inv ((b - a) * diffs a xs) + w b * s_inv (a - b) * s_inv (diffs b xs))
                + (b - a) * dd (λ x, w x * s_inv (a - x) * s_inv (b - x)) xs); [ring|]. rewrite E. field. done.
Qed.

Lemma dd_one a xs : NoDup (a :: xs) → dd (λ _, 1) (a :: xs) = match xs with [] => 1 | _ => 0 end.
Proof.
  revert a. induction xs as [|b xs IH]; intros a Hn; [cbn; field; exact (F_1_neq_0 law_field)|].
  pose proof (dd_swap (λ _, 1) a b xs Hn) as E. pose proof Hn as [[Hab Ha]%not_elem_of_cons [Hb Hx]%NoDup_cons]%NoDup_cons.
  rewrite !IH in E by (by constructor). apply (mul_cancel (b - a)); [by apply sub_nonzero, not_eq_sym|].
  rewrite E. destruct xs; ring.
Qed.

Lemma dd_peval f xs : NoDup xs → (length f < length xs)%nat → dd (peval f) xs = 0.
Proof.
  revert f. induction xs as [|a xs IH]; intros f Hn Hl; [cbn in Hl; lia|]. cbn [length] in Hl.
  pose proof Hn as [Ha Hx]%NoDup_cons.
  transitivity (peval f a * dd (λ _, 1) (a :: xs) + 1 * dd (λ x, (x - a) * peval (pdiv a f) x) (a :: xs)).
  { rewrite <- dd_linear. apply dd_ext. intros x _. rewrite (pdiv_spec a f x) at 1. ring. }
  rewrite dd_one by done. cbn [dd].
  assert (dd (λ x, (x - a) * peval (pdiv a f) x * s_inv (a - x)) xs = (0 - 1) * dd (peval (pdiv a f)) xs) as E.
  { transitivity ((0 - 1) * dd (peval (pdiv a f)) xs + 0 * dd (λ _, 1) xs); [|ring]. rewrite <- dd_linear. apply dd_ext. intros x Hin.
    pose proof (sub_nonzero a x ltac:(by intros ->)). field. done. }
  destruct xs as [|b xs].
  - assert (f = []) as -> by (destruct f; [done|cbn in Hl; lia]). rewrite E. cbn. ring.
  - rewrite E, IH by (try done; rewrite length_pdiv; cbn [length] in *; lia). ring.
Qed.

Definition sum (l : list Scalar) : Scalar := foldr s_add 0 l.

Lemma NoDup_not_delete {A} (l : list A) i x : NoDup l → l !! i = Some x → x ∉ delete i l.
Proof.
  intros Hn Hi. pose proof (delete_Permutation _ _ _ Hi) as Hp. rewrite Hp in Hn. by apply NoDup_cons in Hn as [? _].
Qed.

Lemma dd_sum w xs : NoDup xs → sum (imap (λ i x, w x * s_inv (diffs x (delete i xs))) xs) = dd w xs.
Proof.
  revert w. induction xs as [|a xs IH]; intros w Hn; [done|]. pose proof Hn as [Ha Hx]%NoDup_cons. cbn [imap sum foldr dd].
  change (delete O (a :: xs)) with xs. f_equal. rewrite <- IH by done. f_equal. apply imap_ext. intros i x Hi. cbn [compose].
  change (delete (S i) (a :: xs)) with (a :: delete i xs). rewrite diffs_cons.
  pose proof (diffs_nonzero x (delete i xs) (NoDup_not_delete _ _ _ Hx Hi)).
  pose proof (sub_nonzero a x ltac:(intros ->; by apply Ha, (list_elem_of_lookup_2 _ i))). field. done.
Qed.

Definition prod (xs : list Scalar) : Scalar := foldl (λ n y, n * y) 1 xs.

Lemma prod_delete xs i x : xs !! i = Some x → prod xs = x * prod (delete i xs).
Proof.
  unfold prod. revert i. induction xs as [|y xs IH]; intros [|i]; cbn [lookup list_lookup]; [done..| |].
  - intros [= ->]. cbn [foldl]. rewrite (foldl_mul_out (λ y, y)). change (delete O (x :: xs)) with xs. ring.
  - intros Hi. change (delete (S i) (y :: xs)) with (y :: delete i xs). cbn [foldl].
    rewrite (foldl_mul_out (λ y, y) (1 * y) xs), (foldl_mul_out (λ y, y) (1 * y) (delete i xs)), (IH i Hi). ring.
Qed.

Lemma prod_diffs xs : diffs 0 xs = prod xs.
Proof.
  unfold diffs, prod. generalize (1 : Scalar). induction xs as [|y xs IH]; intros d; [done|]. cbn [foldl]. rewrite IH. f_equal. ring.
Qed.

(** The weighted sum of the values of a polynomial at enough distinct points is
    its constant term. *)
Lemma interpolation f xs :
  NoDup (0 :: xs) → (length f <= length xs)%nat →
  sum (imap (λ i x, peval f x * (prod (delete i xs) * s_inv (diffs x (delete i xs)))) xs) = peval f 0.
Proof.
  intros Hn Hl. pose proof Hn as [H0 Hx]%NoDup_cons.
  pose proof (diffs_nonzero 0 xs H0) as HP. rewrite prod_diffs in HP.
  pose proof (dd_peval f (0 :: xs) Hn ltac:(cbn; lia)) as E. cbn [dd] in E. rewrite prod_diffs in E.
  transitivity (dd (λ x, peval f x * (prod xs * s_inv x)) xs).
  - rewrite <- dd_sum by done. f_equal. apply imap_ext. intros i x Hi.
    rewrite (prod_delete xs i x Hi). assert (x ≠ 0) by (intros ->; by apply H0, (list_elem_of_lookup_2 _ i)).
    pose proof (diffs_nonzero x (delete i xs) (NoDup_not_delete _ _ _ Hx Hi)). field. done.
  - transitivity ((0 - prod xs) * dd (λ x, peval f x * s_inv (0 - x)) xs + 0 * dd (λ _, 1) xs).
    + rewrite <- dd_linear. apply dd_ext. intros x Hin. assert (x ≠ 0) by (by intros ->).
      pose proof (sub_nonzero 0 x ltac:(by intros <-)). field. done.
    + transitivity ((0 - prod xs) * (peval f 0 * s_inv (prod xs) + dd (λ x, peval f x * s_inv (0 - x)) xs) + peval f 0);
        [field; done|]. rewrite E. ring.
Qed.

(** ** The coefficients of the code *)
Lemma points_distinct points :
  NoDup points → Forall (λ p, (0 < p < order)%Z) points → NoDup (0 :: (SetInt <$> points)).
Proof.
  intros Hn Hp. rewrite Forall_forall in Hp. constructor.
  - intros (p & E & Hin)%list_elem_of_fmap. rewrite <- law_int_zero in E.
    specialize (Hp p Hin). apply law_int_inj in E; lia.
  - apply NoDup_fmap_2_strong; [|done]. intros x y Hx Hy. apply law_int_inj; [specialize (Hp x Hx)|specialize (Hp y Hy)]; lia.
Qed.

Lemma lagrange_num_prod i points : lagrange_num i points = prod (delete i (SetInt <$> points)).
Proof.
  unfold lagrange_num, prod, scalarFromInt. rewrite <- list_fmap_delete, foldl_fmap. done.
Qed.

Lemma lagrange_den_diffs i x points : lagrange_den i x points = diffs (SetInt x) (delete i (SetInt <$> points)).
Proof. unfold lagrange_den, diffs, scalarFromInt. by rewrite <- list_fmap_delete, foldl_fmap. Qed.

Lemma unique_loop_ok seen evs :
  NoDup (EV_ShareIndex <$> evs) → Forall (λ e, EV_ShareIndex e ∉ seen) evs → unique_loop seen evs = Ok tt.
Proof.
  revert seen. induction evs as [|e evs IH]; intros seen Hn Hs; [done|]. cbn [unique_loop].
  apply Forall_cons in Hs as [He Hs]. rewrite bool_decide_eq_false_2 by done. rewrite fmap_cons in Hn.
  apply NoDup_cons in Hn as [Hni Hn]. apply IH; [done|]. rewrite Forall_forall in *. intros e' He'.
  apply not_elem_of_union. split; [|by apply Hs]. apply not_elem_of_singleton. intros E. apply Hni. rewrite <- E. by apply list_elem_of_fmap_2.
Qed.

Lemma unique_ok evs : NoDup (EV_ShareIndex <$> evs) → verifyUniqueEvaluations evs = Ok tt.
Proof. intros Hn. apply unique_loop_ok; [done|]. apply Forall_forall. intros e _. apply not_elem_of_empty. Qed.

(** A repeated share is refused. *)
Lemma unique_loop_dup seen evs :
  unique_loop seen evs = Ok tt → NoDup (EV_ShareIndex <$> evs) ∧ Forall (λ e, EV_ShareIndex e ∉ seen) evs.
Proof.
  revert seen. induction evs as [|e evs IH]; intros seen; cbn [unique_loop]; [intros _; split; constructor|].
  case_bool_decide as He; [done|]. intros [Hn Hs]%IH. rewrite Forall_forall in Hs. split.
  - rewrite fmap_cons. constructor; [|done]. intros (e' & E & He')%list_elem_of_fmap. specialize (Hs e' He'). set_solver.
  - constructor; [done|]. apply Forall_forall. intros e' He'. specialize (Hs e' He'). set_solver.
Qed.

#[local] Notation weight xs := (λ i x, prod (delete i xs) * s_inv (diffs x (delete i xs))).

Lemma imap_const_fmap {A B} (g : nat → B → A) {C} (h : C → B) (l : list C) : imap g (h <$> l) = imap (λ i x, g i (h x)) l.
Proof. rewrite imap_fmap. apply imap_ext. done. Qed.

Lemma lagrangeAtZero_ok evs :
  NoDup (EV_ShareIndex <$> evs) → Forall (λ p, (0 < p < order)%Z) (EV_ShareIndex <$> evs) →
  let xs := SetInt <$> (EV_ShareIndex <$> evs) in lagrangeAtZero evs = Ok (imap (weight xs) xs).
Proof.
  intros Hn Hp xs. pose proof (points_distinct _ Hn Hp) as [H0 Hx]%NoDup_cons. fold xs in H0, Hx.
  unfold lagrangeAtZero. set (points := EV_ShareIndex <$> evs) in *.
  rewrite bool_decide_eq_false_2. 2:{ intros (p & Hin & Hle)%Exists_exists. rewrite Forall_forall in Hp. specialize (Hp p Hin). lia. }
  rewrite unique_ok by done. f_equal.
  assert (imap (λ i xi, lagrange_den i xi points) points = imap (λ i x, diffs x (delete i xs)) xs) as ->.
  { unfold xs. rewrite imap_const_fmap. apply imap_ext. intros i x _. apply lagrange_den_diffs. }
  assert (imap (λ i _, lagrange_num i points) points = imap (λ i _, prod (delete i xs)) xs) as ->.
  { unfold xs at 2. rewrite imap_const_fmap. apply imap_ext. intros i x _. apply lagrange_num_prod. }
  rewrite batchInvert_ok.
  - apply list_eq. intros i. rewrite lookup_zip_with, list_lookup_fmap, !list_lookup_imap. by destruct (xs !! i).
  - apply Forall_lookup. intros i d. rewrite list_lookup_imap. destruct (xs !! i) as [x|] eqn:E; [|done]. intros [= <-].
    apply diffs_nonzero. by apply NoDup_not_delete.
Qed.

(** ** Evaluation and combination *)
Lemma e_mul_nonidentity e a : e ≠ e_identity → a ≠ 0 → e_mul e a ≠ e_identity.
Proof.
  intros He Ha E. apply He. rewrite <- (law_mul_one e), <- (law_mul_identity (s_inv a)), <- E, law_mul_mul. f_equal. field. done.
Qed.

Lemma decodeScalar_Encode s : s ≠ 0 → decodeScalar (s_Encode s) = Ok s.
Proof. intros Hs. unfold decodeScalar. by rewrite law_scalar_length, Nat.eqb_refl, law_scalar_decode. Qed.
Lemma decodeElement_Encode e : e ≠ e_identity → decodeElement (e_Encode e) = Ok e.
Proof. intros He. unfold decodeElement. by rewrite law_element_length, Nat.eqb_refl, law_element_decode. Qed.

Lemma OPRFEvaluateShare_ok s e :
  s ≠ 0 → e ≠ e_identity → OPRFEvaluateShare (s_Encode s) (e_Encode e) = Ok (e_Encode (e_mul e s)).
Proof. intros Hs He. unfold OPRFEvaluateShare. by rewrite decodeScalar_Encode, decodeElement_Encode. Qed.

Lemma combine_loop_ok B (v : OPRFEvaluation → Scalar) a evs cs :
  B ≠ e_identity → Forall (λ ev, v ev ≠ 0 ∧ EV_Eval ev = e_Encode (e_mul B (v ev))) evs → length evs = length cs →
  combine_loop (Some (e_mul B a)) (zip evs cs) = Ok (Some (e_mul B (a + sum (zip_with s_mul (v <$> evs) cs)))).
Proof.
  intros HB Hv. revert a cs. induction Hv as [|ev evs [H0 E] _ IH]; intros a [|c cs] Hl; try done.
  - cbn. do 3 f_equal. ring.
  - cbn [zip zip_with combine_loop fmap list_fmap sum foldr]. rewrite E, law_element_decode by (by apply e_mul_nonidentity).
    rewrite law_mul_mul, <- law_mul_add. change (zip_with pair evs cs) with (zip evs cs). rewrite IH by (cbn in Hl; lia).
    do 3 f_equal. unfold sum. ring.
Qed.

Lemma combine_ok B v evs cs :
  B ≠ e_identity → Forall (λ ev, v ev ≠ 0 ∧ EV_Eval ev = e_Encode (e_mul B (v ev))) evs → length evs = length cs → evs ≠ [] →
  combine_loop None (zip evs cs) = Ok (Some (e_mul B (sum (zip_with s_mul (v <$> evs) cs)))).
Proof.
  intros HB [|ev evs' [H0 E] Hv] Hl Hne; [done|]. destruct cs as [|c cs]; [done|].
  cbn [zip zip_with combine_loop fmap list_fmap sum foldr]. rewrite E, law_element_decode by (by apply e_mul_nonidentity).
  rewrite law_mul_mul. change (zip_with pair evs' cs) with (zip evs' cs). apply combine_loop_ok; [done..|cbn in Hl; lia].
Qed.

Lemma finalize_ok t r f : r ≠ 0 → oprfFinalizeElement (e_mul (e_mul t r) f) (s_Encode r) = Ok (sha256 (e_Encode (e_mul t f))).
Proof.
  intros Hr. unfold oprfFinalizeElement. rewrite decodeScalar_Encode by done. rewrite !law_mul_mul. do 4 f_equal. field. done.
Qed.

(** ** Any quorum derives the same key *)

(** Shares as the dealer hands them out: fewer than the group has scalars, none of
    them zero. *)
Record dealt (t n : Z) (draw : nat → Scalar) (shares : list OPRFSharePair) : Prop := {
  dealt_shares : GenerateOPRFShares t n draw = Ok shares;
  dealt_order : (n < order)%Z;
  dealt_nonzero p : (1 <= p <= n)%Z → share_at (draw <$> seq O (Z.to_nat t)) p ≠ 0
}.

Lemma dealt_inv t n draw shares s :
  dealt t n draw shares → s ∈ shares →
  (1 <= SP_ShareIndex s <= n)%Z ∧ SP_Share s = s_Encode (peval (draw <$> seq O (Z.to_nat t)) (SetInt (SP_ShareIndex s)))
  ∧ peval (draw <$> seq O (Z.to_nat t)) (SetInt (SP_ShareIndex s)) ≠ 0.
Proof.
  intros [Hg _ Hz]. unfold GenerateOPRFShares in Hg. case_match; [done|]. injection Hg as <-.
  intros (p & -> & Hp%elem_of_seqZ)%list_elem_of_fmap. cbn [SP_ShareIndex SP_Share]. rewrite <- share_at_peval.
  split_and!; [lia|lia|done|apply Hz; lia].
Qed.

Lemma dealt_threshold t n draw shares : dealt t n draw shares → (1 <= t)%Z ∧ (t <= n)%Z.
Proof. intros [Hg _ _]. unfold GenerateOPRFShares in Hg. case_match eqn:E; [done|]. apply orb_false_iff in E as [? ?]. lia. Qed.

(** The evaluation of a blinded tag under the share of its index. *)
Definition genuine (shares : list OPRFSharePair) (blinded : bytes) (ev : OPRFEvaluation) : Prop :=
  ∃ s, s ∈ shares ∧ EV_ShareIndex ev = SP_ShareIndex s ∧ OPRFEvaluateShare (SP_Share s) blinded = Ok (EV_Eval ev).

Lemma peval_zero t draw : (1 <= t)%Z → peval (draw <$> seq O (Z.to_nat t)) 0 = draw O.
Proof. intros Ht. destruct (Z.to_nat t) eqn:E; [lia|]. cbn. ring. Qed.

Lemma sum_weighted (g : Scalar → Scalar) (h : nat → Scalar → Scalar) xs :
  zip_with s_mul (g <$> xs) (imap h xs) = imap (λ i x, g x * h i x) xs.
Proof. apply list_eq. intros i. rewrite lookup_zip_with, list_lookup_fmap, !list_lookup_imap. by destruct (xs !! i). Qed.

Lemma quorum_key t n draw shares tag r blinded blind evs :
  dealt t n draw shares → HashToGroup tag oprfDST ≠ e_identity → r ≠ 0 → OPRFBlind tag r = Ok (blinded, blind) →
  Forall (genuine shares blinded) evs → NoDup (EV_ShareIndex <$> evs) → (t <= Z.of_nat (length evs))%Z →
  OPRFCombineUnblind evs blind t = Ok (sha256 (e_Encode (e_mul (HashToGroup tag oprfDST) (draw O)))).
Proof.
  intros Hd HT Hr Hb Hev Hn Hl. unfold OPRFBlind in Hb. destruct tag as [|b0 tag0]; [done|]. set (tag := b0 :: tag0) in *.
  injection Hb as <- <-. set (T := HashToGroup tag oprfDST) in *. set (f := draw <$> seq O (Z.to_nat t)).
  destruct (dealt_threshold _ _ _ _ Hd) as [Ht _].
  assert (Forall (λ ev, peval f (SetInt (EV_ShareIndex ev)) ≠ 0
            ∧ EV_Eval ev = e_Encode (e_mul (e_mul T r) (peval f (SetInt (EV_ShareIndex ev)))) ∧ (0 < EV_ShareIndex ev < order)%Z) evs) as Hval.
  { eapply Forall_impl; [exact Hev|]. intros ev (s & Hs & Ei & Ee). destruct (dealt_inv _ _ _ _ _ Hd Hs) as (Hi & Es & Hz).
    pose proof (dealt_order _ _ _ _ Hd). rewrite Es, OPRFEvaluateShare_ok in Ee by (done || by apply e_mul_nonidentity).
    injection Ee as <-. rewrite Ei. fold f in Hz |- *. split_and!; [done|done|lia|lia]. }
  unfold OPRFCombineUnblind. rewrite (proj2 (Z.ltb_ge _ _)), (proj2 (Z.ltb_ge _ _)) by lia. destruct (Z.eqb_spec t 1) as [->|Ht1].
  - rewrite unique_ok by done. destruct evs as [|ev evs]; [cbn in Hl; lia|]. apply Forall_cons in Hval as [(Hz & -> & _) _].
    assert (peval f (SetInt (EV_ShareIndex ev)) = draw O) as E by (unfold f; change (Z.to_nat 1) with 1%nat; cbn; ring). rewrite E in *.
    rewrite decodeElement_Encode by (repeat apply e_mul_nonidentity; done). by apply finalize_ok.
  - rewrite lagrangeAtZero_ok.
    2:{ done. } 2:{ apply Forall_fmap. eapply Forall_impl; [exact Hval|]. cbn. tauto. }
    set (xs := SetInt <$> (EV_ShareIndex <$> evs)).
    rewrite (combine_ok (e_mul T r) (λ ev, peval f (SetInt (EV_ShareIndex ev)))).
    + assert ((λ ev, peval f (SetInt (EV_ShareIndex ev))) <$> evs = peval f <$> xs) as -> by (unfold xs; by rewrite <- !list_fmap_compose).
      rewrite sum_weighted, interpolation; [|apply points_distinct; [done|]|].
      * unfold f. rewrite peval_zero by done. by apply finalize_ok.
      * apply Forall_fmap. eapply Forall_impl; [exact Hval|]. cbn. tauto.
      * unfold f, xs. rewrite !length_fmap, length_seq. lia.
    + by apply e_mul_nonidentity.
    + eapply Forall_impl; [exact Hval|]. cbn. tauto.
    + unfold xs. by rewrite length_imap, !length_fmap.
    + intros ->. cbn in Hl. lia.
Qed.

(** Fewer evaluations than the threshold, or a repeated share, derive nothing. *)
Lemma combine_fails_closed evs blind t key :
  OPRFCombineUnblind evs blind t = Ok key → (1 <= t <= Z.of_nat (length evs))%Z ∧ NoDup (EV_ShareIndex <$> evs).
Proof.
  unfold OPRFCombineUnblind, lagrangeAtZero, verifyUniqueEvaluations. intros Hok.
  destruct (Z.ltb_spec t 1); [done|]. destruct (Z.ltb_spec (Z.of_nat (length evs)) t); [done|]. split; [lia|].
  destruct (unique_loop ∅ evs) as [[]|] eqn:E; [by apply (unique_loop_dup ∅)|]. by repeat (case_match; try done).
Qed.
End Algebra.

(** ** A client and a cluster *)
Section Cluster.
Context `{G : OprfGroup} {order : Z} `{!OprfGroupLaws order}.
Context {B : Type} `{BlobStore B}.
Variable text : error → bytes.

(** The daemon is configured with a share of the dealer. *)
Definition holds (shares : list OPRFSharePair) (d : Daemon) : Prop :=
  ∃ s, s ∈ shares ∧ OPRFShareIndex d = SP_ShareIndex s ∧ OPRFShare d ≠ [] ∧ hex_decode (OPRFShare d) = Some (SP_Share s).

Lemma holds_evaluates t n draw shares E d :
  dealt (order := order) t n draw shares → E ≠ e_identity → holds shares d →
  ∃ ev e, newOPRFShareEvaluator d = Ok ev ∧ shareIndex ev = OPRFShareIndex d ∧ EvaluateShare OPRFEvaluateShare ev (e_Encode E) = Ok e
  ∧ length e = ElementLength ∧ genuine shares (e_Encode E) (mkEvaluation (OPRFShareIndex d) e) ∧ 1 <= OPRFShareIndex d <= n.
Proof.
  intros Hd HE (s & Hs & Hi & Hne & Hh). destruct (dealt_inv _ _ _ _ _ Hd Hs) as (Hr & Es & Hz).
  pose proof (OPRFEvaluateShare_ok _ E Hz HE) as Ee. rewrite <- Es in Ee.
  exists (mkEval (OPRFShareIndex d) (SP_Share s)). eexists. split_and!; [|done|exact Ee|apply law_element_length| |lia|lia].
  - unfold newOPRFShareEvaluator. destruct (OPRFShare d); [done|by rewrite Hh].
  - exists s. by split_and!.
Qed.

(** What the service of [d0] returns when [others] answer. *)
Lemma cluster_results t n draw shares E d0 others id :
  dealt (order := order) t n draw shares → n <= 255 → E ≠ e_identity → (0 < ElementLength <= 32)%nat →
  Forall (holds shares) (d0 :: others) → NoDup (OPRFShareIndex <$> d0 :: others) → t <= Z.of_nat (S (length others)) →
  ∃ ev results, newOPRFShareEvaluator d0 = Ok ev
  ∧ EvaluateOPRF OPRFEvaluateShare ev t (e_Encode E) (Some (answer_of OPRFEvaluateShare text (mkOReq id 0 (e_Encode E)) <$> others)) = Ok results
  ∧ results.*1 = OPRFShareIndex <$> d0 :: others
  ∧ Forall (λ x, genuine shares (e_Encode E) (mkEvaluation x.1 x.2) ∧ eval_ok x) results.
Proof.
  intros Hd Hn HE Hlen Hh Hnd Ht. set (b := e_Encode E). set (p := mkOReq id 0 b).
  apply Forall_cons in Hh as [H0 Hh]. destruct (holds_evaluates _ _ _ _ E d0 Hd HE H0) as (ev & own & En & Ei & Ee & El & Hg & Hr).
  rewrite fmap_cons in Hnd. apply NoDup_cons in Hnd as [Hni Hnd].
  assert (Forall (λ d, SShareIndex (answer_of OPRFEvaluateShare text p d) = OPRFShareIndex d
            ∧ SError (answer_of OPRFEvaluateShare text p d) = [] ∧ length (Eval_ (answer_of OPRFEvaluateShare text p d)) = ElementLength
            ∧ genuine shares b (mkEvaluation (OPRFShareIndex d) (Eval_ (answer_of OPRFEvaluateShare text p d))) ∧ 1 <= OPRFShareIndex d <= n) others) as Ha.
  { eapply Forall_impl; [exact Hh|]. intros d Hd'. destruct (holds_evaluates _ _ _ _ E d Hd HE Hd') as (ev' & e & En' & Ei' & Ee' & El' & Hg' & Hr').
    unfold answer_of, evaluator_of. rewrite En'. unfold eval_response. subst p. cbn [Blinded]. fold b in Ee', Hg'. rewrite Ee', Ei'. cbn [SShareIndex SError Eval_].
    rewrite Z.mod_small by lia. split_and!; done || lia. }
  assert (SShareIndex <$> (answer_of OPRFEvaluateShare text p <$> others) = OPRFShareIndex <$> others) as Hidx.
  { rewrite <- list_fmap_compose. apply list_fmap_ext. intros i d Hi. apply list_elem_of_lookup_2 in Hi. rewrite Forall_forall in Ha. by apply Ha. }
  exists ev, ((OPRFShareIndex d0, own) :: ((λ r, (SShareIndex r, Eval_ r)) <$> (answer_of OPRFEvaluateShare text p <$> others))).
  split_and!; [done| | |].
  - unfold EvaluateOPRF. fold b in Ee. rewrite Ee, Ei. rewrite collect_all; [|by rewrite Hidx|].
    + rewrite (proj2 (Z.ltb_ge _ _)); [done|]. cbn [length]. rewrite !length_fmap. exact Ht.
    + apply Forall_fmap, Forall_forall. intros d Hd'. cbn. rewrite Forall_forall in Ha. destruct (Ha d Hd') as (-> & -> & Hl & _ & ?).
      split_and!; [|lia|done|by intros E0; rewrite E0 in Hl; cbn in Hl; lia].
      apply not_elem_of_singleton. intros E0. apply Hni. rewrite <- E0. by apply list_elem_of_fmap_2.
  - rewrite !fmap_cons. cbn [fst]. f_equal. rewrite <- Hidx. by rewrite <- !list_fmap_compose.
  - constructor; [split; [exact Hg|split; cbn; lia]|]. apply Forall_fmap, Forall_fmap. eapply Forall_impl; [exact Ha|].
    cbn. intros d (-> & _ & Hl & ? & ?). split; [done|split; cbn; lia].
Qed.

(** The answer of the daemon to a whole request. *)
Lemma oprf_served e srv token ts blinded reply :
  useChallengeResp e = false → expectedAuthToken e = field AuthTokenLength token → is_int64 ts →
  (length (append_int ts) <= TimestampLength)%nat → checkHandshakeTimestampFresh ts (clock e) = true →
  let s := mkServer (sstore srv) (saudit srv) false (calls srv) in
  handle_oprf (B := B) e (mkConn blinded [], s) = (Ok tt, (mkConn [] reply, s)) →
  HandshakeServer e (mkConn (hello token ts (z2b ModeOPRFEval) ++ blinded) [], srv) = (Ok None, (mkConn [] reply, s)).
Proof.
  intros Hc Htok Hts Hl Hf s Hh. unfold HandshakeServer.
  erewrite bind_ok; [|rewrite authenticate_hello by done; rewrite Htok; unfold role; rewrite decide_True, Hf by done; reflexivity].
  change (b2z (z2b ModeOPRFEval)) with ModeOPRFEval. cbn [Z.eqb ModeOPRFEval ModeList ModeDelete ModeGet Pos.eqb].
  erewrite bind_ok; [|apply Hh]. reflexivity.
Qed.

Lemma quorum_bounded t n draw shares l :
  dealt (order := order) t n draw shares → Forall (holds shares) l → NoDup (OPRFShareIndex <$> l) → (length l <= Z.to_nat n)%nat.
Proof.
  intros Hd Hh Hnd. rewrite <- (length_fmap OPRFShareIndex l), <- (length_seqZ 1 n). apply submseteq_length, NoDup_submseteq; [done|].
  intros i (d & -> & Hin)%list_elem_of_fmap. rewrite Forall_forall in Hh. destruct (Hh d Hin) as (s & Hs & -> & _).
  destruct (dealt_inv _ _ _ _ _ Hd Hs) as (? & _). apply elem_of_seqZ. lia.
Qed.

(** C21: Deduplication keys are the same for every client and every quorum: when a daemon and peers that make the threshold hold shares of one dealer, a client's request is accepted and answered, and the key the client combines is the digest of the tag's group element under the dealt secret, whatever blind was drawn, whichever daemons answered and whatever coefficients hide the secret. *)
Theorem oprf_cluster_key t n draw shares d0 others id e srv token ts tagHex tag r :
  dealt (order := order) t n draw shares → n <= 255 → ElementLength = 32%nat →
  hex_decode tagHex = Some tag → tag ≠ [] → HashToGroup tag oprfDST ≠ e_identity → r ≠ s_zero →
  Forall (holds shares) (d0 :: others) → NoDup (OPRFShareIndex <$> d0 :: others) → t <= Z.of_nat (S (length others)) →
  useChallengeResp e = false → expectedAuthToken e = field AuthTokenLength token → (length token <= AuthTokenLength)%nat →
  is_int64 ts → (length (append_int ts) <= TimestampLength)%nat → checkHandshakeTimestampFresh ts (clock e) = true →
  oprfService e = Some (λ b,
    let! svc := newDaemonOPRFService d0 t in
    EvaluateOPRF OPRFEvaluateShare (evaluator svc) (service_threshold svc) b
      (Some (answer_of OPRFEvaluateShare text (mkOReq id 0 b) <$> others))) →
  let request := hello token ts (z2b ModeOPRFEval) ++ e_Encode (e_mul (HashToGroup tag oprfDST) r) in
  ∃ reply srv',
    HandshakeServer e (mkConn request [], srv) = (Ok None, (mkConn [] reply, srv'))
    ∧ deriveOPRFContentKey (S := unit) false token ts t tagHex r (mkConn reply [], tt)
      = (Ok (sha256 (e_Encode (e_mul (HashToGroup tag oprfDST) (draw O)))), (mkConn [] request, tt)).
Proof.
  intros Hd Hn Hlen Htag Hne HT Hr Hh Hnd Ht Hc Htok Htl Hts Hl Hf He request.
  set (E := e_mul (HashToGroup tag oprfDST) r) in *. assert (E ≠ e_identity) as HE by (by apply e_mul_nonidentity).
  destruct (cluster_results t n draw shares E d0 others id Hd Hn HE ltac:(lia) Hh Hnd Ht) as (ev & results & En & Ee & Hres & Hall).
  apply Forall_and in Hall as [Hgen Hok].
  assert (length results = S (length others)) as Hlr by (by rewrite <- (length_fmap fst results), Hres, length_fmap).
  pose proof (quorum_bounded _ _ _ _ _ Hd Hh Hnd) as Hb. cbn [length] in Hb.
  assert (length (e_Encode E) = 32%nat) as HlE by (by rewrite law_element_length).
  set (s' := mkServer (sstore srv) (saudit srv) false (calls srv)).
  destruct (oprf_roundtrip e s' _ (e_Encode E) results t [] [] request He) as (reply & Hserve & Hread);
    [by unfold newDaemonOPRFService; rewrite En|done|done|by intros ->|lia|].
  rewrite app_nil_r in Hserve. rewrite (proj2 (Z.leb_le t _)) in Hread by lia.
  exists reply, s'. split; [by apply oprf_served|]. unfold deriveOPRFContentKey. rewrite Htag.
  assert (OPRFBlind tag r = Ok (e_Encode E, s_Encode r)) as Hblind by (by destruct tag).
  erewrite bind_ok; [|unfold lift; rewrite Hblind; reflexivity]. cbn beta iota.
  erewrite bind_ok.
  2:{ unfold SendOPRFEval. rewrite HlE. cbn [Nat.eqb negb]. erewrite bind_ok; [|by apply send_hello_plain].
      erewrite bind_ok; [|reflexivity]. exact Hread. }
  erewrite bind_ok; [|unfold lift; rewrite (quorum_key t n draw shares tag r _ _ _ Hd HT Hr Hblind); [reflexivity|..]].
  - pose proof (length_sha256 (e_Encode (e_mul (HashToGroup tag oprfDST) (draw O)))) as Hk. by destruct (sha256 _).
  - by apply Forall_fmap.
  - rewrite <- list_fmap_compose. change (NoDup results.*1). by rewrite Hres.
  - rewrite length_fmap. lia.
Qed.
End Cluster.

(** ** A small group, on which the scheme runs *)
Inductive f5 := F0 | F1 | F2 | F3 | F4.
Definition of5 (s : f5) : Z := match s with F0 => 0 | F1 => 1 | F2 => 2 | F3 => 3 | F4 => 4 end.
Definition to5 (z : Z) : f5 :=
  match z mod 5 with 0 => F0 | 1 => F1 | 2 => F2 | 3 => F3 | _ => F4 end.
Definition inv5 (s : f5) : f5 := match s with F0 => F0 | F1 => F1 | F2 => F3 | F3 => F2 | F4 => F4 end.
Definition enc5 (s : f5) : bytes := z2b (of5 s) :: replicate 31 ch_nul.
Definition dec5 (b : bytes) : option f5 := match b with c :: _ => if b2z c <? 5 then Some (to5 (b2z c)) else None | [] => None end.

#[local] Instance group5 : OprfGroup := {|
  Scalar := f5; Element := f5; s_zero := F0; s_one := F1;
  s_add a b := to5 (of5 a + of5 b); s_mul a b := to5 (of5 a * of5 b); s_sub a b := to5 (of5 a - of5 b);
  s_inv := inv5; SetInt := to5; s_Encode := enc5; s_Decode := dec5; ScalarLength := 32;
  e_identity := F0; e_add a b := to5 (of5 a + of5 b); e_mul a b := to5 (of5 a * of5 b);
  e_Encode := enc5; e_Decode := dec5; ElementLength := 32;
  HashToGroup tag _ := to5 (Z.of_nat (length tag) mod 4 + 1)
|}.

#[local] Instance group5_laws : OprfGroupLaws 5.
Proof.
  split; try (by intros []); try (by intros [] []); try (by intros [] [] []).
  - split; [split|..]; try done; try (by intros []); try (by intros [] []); try (by intros [] [] []).
  - done.
  - intros x y Hx Hy. assert (∀ z, 0 <= z < 5 → z = 0 ∨ z = 1 ∨ z = 2 ∨ z = 3 ∨ z = 4) as Hz by lia.
    destruct (Hz x Hx) as [->|[->|[->|[->| ->]]]], (Hz y Hy) as [->|[->|[->|[->| ->]]]]; done.
Qed.

Definition draw5 (i : nat) : f5 := F1.
Definition shares5 : list OPRFSharePair := [mkShare 1 (enc5 F2); mkShare 2 (enc5 F3); mkShare 3 (enc5 F4)].
Definition daemon5 (i : Z) (s : f5) : Daemon := mkDaemon [] [] [] [] [] [] 0 (hex_encode (enc5 s)) i.
Definition w_text5 (e : error) : bytes := bs "error".
Definition w_serve5 (d0 : Daemon) (others : list Daemon) : environment :=
  mkEnv (bs "momo-tcp") false (field AuthTokenLength (bs "secret")) [] (10 ^ 18) true None None false
    (Some (λ b,
       let! svc := newDaemonOPRFService d0 2 in
       EvaluateOPRF OPRFEvaluateShare (evaluator svc) (service_threshold svc) b
         (Some (answer_of OPRFEvaluateShare w_text5 (mkOReq 7 0 b) <$> others)))).

Lemma dealt5 : dealt (order := 5) 2 3 draw5 shares5.
Proof.
  split; [vm_compute; reflexivity|lia|]. intros p Hp. assert (p = 1 ∨ p = 2 ∨ p = 3) as [->|[->| ->]] by lia; vm_compute; discriminate.
Qed.

Lemma holds5 i s : mkShare i (enc5 s) ∈ shares5 → holds shares5 (daemon5 i s).
Proof. intros Hin. exists (mkShare i (enc5 s)). split_and!; [done|done|by destruct s|destruct s; vm_compute; reflexivity]. Qed.

Lemma oprf_cluster_key_witness :
  (let request := hello (bs "secret") (10 ^ 18) (z2b ModeOPRFEval) ++ enc5 (to5 6) in
   ∃ reply srv',
     HandshakeServer (w_serve5 (daemon5 3 F4) [daemon5 1 F2]) (mkConn request [], ex_server) = (Ok None, (mkConn [] reply, srv'))
     ∧ deriveOPRFContentKey (S := unit) false (bs "secret") (10 ^ 18) 2 (bs "6162") F2 (mkConn reply [], tt)
       = (Ok (sha256 (enc5 F3)), (mkConn [] request, tt))).
Proof.
  apply (oprf_cluster_key (G := group5) (order := 5) w_text5 2 3 draw5 shares5 (daemon5 3 F4) [daemon5 1 F2] 7 (w_serve5 (daemon5 3 F4) [daemon5 1 F2])
           ex_server (bs "secret") (10 ^ 18) (bs "6162") (bs "ab") F2).
  - apply dealt5.
  - lia.
  - reflexivity.
  - vm_compute. reflexivity.
  - done.
  - vm_compute. discriminate.
  - discriminate.
  - repeat constructor; apply holds5; unfold shares5; set_solver.
  - apply (bool_decide_unpack _). vm_compute. exact I.
  - cbn. lia.
  - reflexivity.
  - reflexivity.
  - vm_compute. lia.
  - vm_compute. split; [discriminate|reflexivity].
  - vm_compute. lia.
  - vm_compute. reflexivity.
  - reflexivity.
Defined.
