(* ===== verification/S3Blob.v ===== *)
(** * The remote S3 backend (src/src/storage/s3_blobstore.go)

    Blobs in a bucket of an S3-compatible service: each call is one signed HTTP
    request.  [url.Parse] and [URL.String] are arguments, as is the service, a
    function from a request and its body to a status and a body, [None] when the
    connection fails.  A request is what its receiver reads of it
    ([SigV4.http_request]).  The spool file is the bytes it holds; the headers the
    transport adds, which are not signed, are not modelled. *)
From S2P Require Import Prelude GoText Hashes Json Paths BlobStore RawStore Chunked Protocol Notify SigV4 Config.
Open Scope Z_scope.

Record URL := mkURL { UScheme : bytes; UHost : bytes; UPath : bytes; UQuery : gmap bytes (list bytes) }.

Record S3BlobStore := mkS3Blob {
  endpoint : bytes; region : bytes; bucket : bytes; accessKey : bytes; secretKey : bytes; pathStyle : bool
}.

Definition maxS3KeyLen : nat := 1024.
Definition maxS3BucketLen : nat := 128.
Definition maxS3EndpointLen : nat := 1024.

(** [strings.TrimRight(s, "/")] *)
Fixpoint trim_slashes_left (s : bytes) : bytes :=
  match s with c :: s' => if decide (c = ch_slash) then trim_slashes_left s' else s | [] => [] end.
Definition trim_slashes (s : bytes) : bytes := rev (trim_slashes_left (rev s)).

(** ** Signing *)
Definition hexSHA256 (data : bytes) : bytes := hex_encode (sha256 data).
Definition hexHMAC (key data : bytes) : bytes := hex_encode (hmacSHA256 key data).
Definition blob_emptyStringSHA256 : bytes := hexSHA256 [].

Definition getSigningKey (s : S3BlobStore) (dateStamp : bytes) : bytes :=
  let kDate := hmacSHA256 (bs "AWS4" ++ secretKey s) dateStamp in
  let kRegion := hmacSHA256 kDate (region s) in
  let kService := hmacSHA256 kRegion (bs "s3") in
  hmacSHA256 kService (bs "aws4_request").

Definition blob_signedHeaders : bytes := bs "host;x-amz-content-sha256;x-amz-date".
Definition credential_scope (s : S3BlobStore) (dateStamp : bytes) : bytes :=
  dateStamp ++ bs "/" ++ region s ++ bs "/s3/aws4_request".

Definition canonical_text (method : bytes) (u : URL) (amzDate payloadHash : bytes) : bytes :=
  let canonicalURI := if decide (UPath u = []) then [ch_slash] else UPath u in
  let canonicalHeaders := bs "host:" ++ UHost u ++ nl ++ bs "x-amz-content-sha256:" ++ payloadHash ++ nl
                          ++ bs "x-amz-date:" ++ amzDate ++ nl in
  method ++ nl ++ canonicalURI ++ nl ++ nl ++ canonicalHeaders ++ nl ++ blob_signedHeaders ++ nl ++ payloadHash.

Definition getStringToSign (s : S3BlobStore) (method : bytes) (u : URL) (amzDate dateStamp payloadHash : bytes) : bytes :=
  bs "AWS4-HMAC-SHA256" ++ nl ++ amzDate ++ nl ++ credential_scope s dateStamp ++ nl
  ++ hexSHA256 (canonical_text method u amzDate payloadHash).

(** [Format("20060102T150405Z")] *)
Definition amz_date (t : Z) : bytes :=
  let secs := t / 10 ^ 9 in
  let '(y, m, d) := civil (secs / 86400) in
  let s := secs mod 86400 in
  pad_dec 4 y ++ pad_dec 2 m ++ pad_dec 2 d ++ bs "T" ++ pad_dec 2 (s / 3600) ++ pad_dec 2 (s / 60 mod 60) ++ pad_dec 2 (s mod 60) ++ bs "Z".

Definition authorization (s : S3BlobStore) (method : bytes) (u : URL) (amzDate payloadHash : bytes) : bytes :=
  let dateStamp := take 8 amzDate in
  let signature := hexHMAC (getSigningKey s dateStamp) (getStringToSign s method u amzDate dateStamp payloadHash) in
  bs "AWS4-HMAC-SHA256 Credential=" ++ accessKey s ++ bs "/" ++ credential_scope s dateStamp
  ++ bs ", SignedHeaders=" ++ blob_signedHeaders ++ bs ", Signature=" ++ signature.

Section Client.
Variable url_parse : bytes → option URL.
Variable url_String : URL → bytes.

Definition NewS3BlobStore (cfg : ConfigurationStorage) : result S3BlobStore :=
  if bool_decide (S3Endpoint cfg = []) then einval
  else if bool_decide (S3Bucket cfg = []) then einval
  else if bool_decide (S3AccessKey cfg = []) then einval
  else if bool_decide (S3SecretKey cfg = []) then einval
  else
    let endpoint := trim_slashes (S3Endpoint cfg) in
    match url_parse endpoint with
    | None => einval
    | Some u =>
        if bool_decide (UScheme u = bs "https") || bool_decide (UScheme u = bs "http") && S3Insecure cfg then
          Ok (mkS3Blob endpoint (if decide (S3Region cfg = []) then bs "us-east-1" else S3Region cfg) (S3Bucket cfg)
                (S3AccessKey cfg) (S3SecretKey cfg) (S3PathStyle cfg))
        else einval
    end.

Definition request_url (s : S3BlobStore) (cleanedKey : bytes) : result bytes :=
  if pathStyle s then Ok (endpoint s ++ bs "/" ++ bucket s ++ bs "/" ++ cleanedKey)
  else match url_parse (endpoint s) with
       | None => einval
       | Some u => Ok (url_String (mkURL (UScheme u) (bucket s ++ bs "." ++ UHost u) (bs "/" ++ cleanedKey) (UQuery u)))
       end.

Definition newRequest (s : S3BlobStore) (method key payloadHash : bytes) (now : Z) : result http_request :=
  if (maxS3KeyLen <? length key)%nat || (maxS3BucketLen <? length (bucket s))%nat || (maxS3EndpointLen <? length (endpoint s))%nat
  then einval
  else
    let cleanedKey := path_clean key in
    if bool_decide (cleanedKey = bs ".") || bool_decide (cleanedKey = bs "..") || has_prefix cleanedKey (bs "../")
       || has_prefix cleanedKey (bs "/") then einval
    else
      let! reqURL := request_url s cleanedKey in
      match url_parse reqURL with
      | None => einval
      | Some u =>
          let amzDate := amz_date now in
          Ok (mkReq method (UHost u) (UPath u) (UQuery u)
                [(bs "X-Amz-Date", [amzDate]); (bs "X-Amz-Content-Sha256", [payloadHash]);
                 (bs "Authorization", [authorization s method u amzDate payloadHash])])
      end.

(** ** Blobs *)
Section Remote.
Context {R : Type}.
Variable Do : http_request → bytes → R → option (Z * bytes) * R.

(** The spooled content: reading stops one byte after the limit. *)
Definition spool_blob (r : reader) : result bytes :=
  let content := concat (rd_chunks r) in
  if MaxFileSize <? Z.of_nat (length content) then Err (Errno EFBIG)
  else match rd_err r with Some e => Err e | None => Ok content end.

Definition s3blob_put (s : S3BlobStore) (now : Z) (hash : bytes) (r : reader) (st : R) : result unit * R :=
  match spool_blob r with
  | Err e => (Err e, st)
  | Ok content =>
      match newRequest s (bs "PUT") hash (hexSHA256 content) now with
      | Err e => (Err e, st)
      | Ok req =>
          match Do req content st with
          | (None, st) => (Err (Errno ECONNREFUSED), st)
          | (Some (status, _), st) => (if status =? 200 then Ok tt else Err (Errno EIO), st)
          end
      end
  end.

Definition s3blob_get (s : S3BlobStore) (now : Z) (hash : bytes) (st : R) : result bytes * R :=
  match newRequest s (bs "GET") hash blob_emptyStringSHA256 now with
  | Err e => (Err e, st)
  | Ok req =>
      match Do req [] st with
      | (None, st) => (Err (Errno ECONNREFUSED), st)
      | (Some (status, body), st) =>
          (if status =? 404 then Err (Errno ENOENT) else if status =? 200 then Ok body else Err (Errno EIO), st)
      end
  end.

Definition s3blob_delete (s : S3BlobStore) (now : Z) (hash : bytes) (st : R) : result unit * R :=
  match newRequest s (bs "DELETE") hash blob_emptyStringSHA256 now with
  | Err e => (Err e, st)
  | Ok req =>
      match Do req [] st with
      | (None, st) => (Err (Errno ECONNREFUSED), st)
      | (Some (status, _), st) =>
          (if (status =? 404) || (status =? 204) || (status =? 200) then Ok tt else Err (Errno EIO), st)
      end
  end.
End Remote.
End Client.

(** * Theorems *)
#[local] Arguments bs _ : simpl never.

(** Text of unreserved characters only. *)
Definition word (s : bytes) : Prop := Forall (λ c, unreserved c = true) s.

Lemma word_notin c s : word s → unreserved c = false → c ∉ s.
Proof. unfold word. rewrite Forall_forall. intros Hw Hc Hin. specialize (Hw c Hin). congruence. Qed.

Lemma unreserved_visible c : unreserved c = true → 32 < b2z c < 127.
Proof.
  unfold unreserved, is_digit. intros Hc. repeat (apply orb_prop in Hc as [Hc|Hc]); try (apply bool_decide_eq_true in Hc as ->; by vm_compute).
  all: zbool; lia.
Qed.

Lemma trim_word s : word s → trim_space s = s.
Proof. intros Hw. apply trim_space_visible. eapply Forall_impl; [exact Hw|]. apply unreserved_visible. Qed.

Lemma hex_word s : hex_text s → word s.
Proof.
  intros Hh. eapply Forall_impl; [exact Hh|]. intros c. unfold lower_hex, unreserved, is_digit. intros Hc.
  apply orb_prop in Hc as [Hc|Hc]; zbool.
  - rewrite (proj2 (Z.leb_le 48 _)), (proj2 (Z.leb_le _ 57)) by lia. by rewrite orb_true_r.
  - rewrite (proj2 (Z.leb_le 97 _)), (proj2 (Z.leb_le _ 122)) by lia. cbn [andb]. by rewrite orb_true_r.
Qed.

Lemma dec_digits_word fuel n acc : word acc → word (dec_digits fuel n acc).
Proof.
  revert n acc. induction fuel as [|fuel IH]; intros n acc Hw; [done|]. cbn [dec_digits].
  assert (word (z2b (48 + n mod 10) :: acc)) as Hw'.
  { constructor; [|done]. pose proof (Z.mod_pos_bound n 10 ltac:(lia)).
    unfold unreserved, is_digit. rewrite b2z_z2b, Z.mod_small by lia. replace (48 <=? 48 + n mod 10) with true by lia.
    replace (48 + n mod 10 <=? 57) with true by lia. cbn [andb]. by rewrite orb_true_r. }
  destruct (n <? 10); [done|by apply IH].
Qed.

Lemma pad_dec_word n z : word (pad_dec n z).
Proof.
  unfold pad_dec, append_int. apply Forall_app. split; [by apply Forall_replicate|].
  destruct (z <? 0); [constructor; [done|]|]; apply dec_digits_word; constructor.
Qed.

Lemma amz_date_word t : word (amz_date t).
Proof.
  unfold amz_date. destruct (civil _) as [[y m] d]. unfold word. rewrite !Forall_app. split_and!; try apply pad_dec_word; by apply (bool_decide_unpack _).
Qed.

Lemma amz_date_ne t : amz_date t ≠ [].
Proof. unfold amz_date. destruct (civil _) as [[y m] d]. intros E. apply (f_equal length) in E. rewrite !length_app in E. change (length (bs "Z")) with 1%nat in E. cbn [length] in E. lia. Qed.

(** ** The header parses back *)
Lemma cut_first c a b : c ∉ a → cut c (a ++ c :: b) = (a, Some b).
Proof. intros Hc. unfold cut. rewrite index_byte_first by done. rewrite take_app_length, drop_app. by replace (S (length a) - length a)%nat with 1%nat by lia; rewrite drop_ge by lia. Qed.

Lemma cut_none c a : c ∉ a → cut c a = (a, None).
Proof. intros Hc%index_byte_None. unfold cut. by rewrite Hc. Qed.

Lemma parse_scope ak ds reg :
  word ak → word ds → word reg →
  parseCredentialScope (ak ++ bs "/" ++ ds ++ bs "/" ++ reg ++ bs "/s3/aws4_request") = Ok (ak, ds, reg).
Proof.
  intros Ha Hd Hr. unfold parseCredentialScope.
  change (ak ++ bs "/" ++ ds ++ bs "/" ++ reg ++ bs "/s3/aws4_request")
    with (ak ++ ch_slash :: ds ++ ch_slash :: reg ++ ch_slash :: bs "s3/aws4_request").
  do 3 (rewrite cut_first by (by apply word_notin)). reflexivity.
Qed.

Lemma auth_parts_step fuel part rest c n :
  ch_comma ∉ part →
  auth_parts (S fuel) (part ++ ch_comma :: rest) c n
  = let! (c, n) := auth_part (trim_spaces_left part) c n in auth_parts fuel rest c n.
Proof.
  intros Hp. cbn [auth_parts]. rewrite cut_first by done. by destruct part.
Qed.

Lemma auth_parts_last fuel part c n :
  ch_comma ∉ part → part ≠ [] →
  auth_parts (S fuel) part c n = auth_part (trim_spaces_left part) c n.
Proof.
  intros Hp Hne. cbn [auth_parts]. rewrite cut_none by done. destruct part; [done|].
  destruct (auth_part _ _ _) as [[c' n']|]; [|done]. cbn [default]. by destruct fuel.
Qed.

Section Accepted.
Variable url_parse : bytes → option URL.
Variable url_String : URL → bytes.

(** A path that needs no escapes, and a host without spaces or control characters. *)
Definition plain_path (p : bytes) : Prop := Forall (λ c, unreserved c = true ∨ c = ch_slash) p.
Definition printable (h : bytes) : Prop := Forall (λ c, 32 < b2z c < 127) h.

Lemma rune_count_le fuel s : (rune_count fuel s <= fuel)%nat.
Proof. revert s. induction fuel as [|fuel IH]; intros [|c s]; cbn [rune_count]; [lia..|]. specialize (IH (drop (default 1%nat (rune_size (c :: s))) (c :: s))). lia. Qed.

Lemma plain_path_kept p : plain_path p → (length p <= 1024)%nat → encodeCanonicalURI p = Ok p.
Proof.
  intros Hp Hl. unfold encodeCanonicalURI, sigV4Escape. pose proof (rune_count_le (length p) p).
  rewrite (proj2 (Nat.ltb_ge _ _)) by lia. f_equal. clear -Hp. induction Hp as [|c p Hc _ IH]; [done|]. cbn [map concat]. rewrite IH.
  unfold escape_byte. destruct Hc as [-> | ->]; [done|]. by rewrite bool_decide_eq_true_2, orb_true_r by done.
Qed.

Lemma header_value r h name v :
  h ≠ bs "host" → List.find (λ kv, EqualFold kv.1 h) (Header r) = Some (name, [v]) → Z.of_nat (length v) <= 4096 →
  getCanonicalHeaderValue r h = Ok v.
Proof. intros Hh Hf Hl. unfold getCanonicalHeaderValue. rewrite decide_False, Hf by done. by rewrite (proj2 (Z.ltb_ge _ _)). Qed.

(** The gateway signs what the backend signed. *)
Lemma canonical_agree method host path amzDate payloadHash auth :
  printable host → plain_path path → path ≠ [] → (length path <= 1024)%nat → (length host <= 4096)%nat →
  word amzDate → word payloadHash → (length amzDate <= 4096)%nat → (length payloadHash <= 4096)%nat →
  buildCanonicalRequest
    (mkReq method host path ∅
       [(bs "X-Amz-Date", [amzDate]); (bs "X-Amz-Content-Sha256", [payloadHash]); (bs "Authorization", [auth])])
    blob_signedHeaders payloadHash
  = Ok (canonical_text method (mkURL (bs "https") host path ∅) amzDate payloadHash).
Proof.
  intros Hh Hp Hne Hl Hlh Hd Hx Hld Hlx. unfold buildCanonicalRequest, signed_path. cbn [Path]. rewrite decide_False by done.
  rewrite plain_path_kept by done. unfold buildCanonicalHeaders.
  assert (signed_names blob_signedHeaders = Ok [bs "host"; bs "x-amz-content-sha256"; bs "x-amz-date"]) as -> by (vm_compute; reflexivity).
  change (buildCanonicalQueryString (Query _)) with (buildCanonicalQueryString ∅).
  assert (buildCanonicalQueryString ∅ = Ok []) as -> by (vm_compute; reflexivity).
  cbn [header_lines]. set (r := mkReq _ _ _ _ _).
  assert (getCanonicalHeaderValue r (bs "host") = Ok host) as ->.
  { unfold getCanonicalHeaderValue. rewrite decide_True by done. unfold r. cbn [SigV4.Host]. by rewrite (proj2 (Z.ltb_ge _ _)) by lia. }
  rewrite (header_value r (bs "x-amz-content-sha256") (bs "X-Amz-Content-Sha256") payloadHash);
    [|vm_compute; discriminate|reflexivity|lia].
  rewrite (header_value r (bs "x-amz-date") (bs "X-Amz-Date") amzDate); [|vm_compute; discriminate|reflexivity|lia].
  rewrite (trim_space_visible host Hh), !trim_word by done. unfold canonical_text. cbn [UPath UHost]. rewrite decide_False by done. unfold r. cbn [Method].
  rewrite <- !app_assoc. reflexivity.
Qed.

Lemma auth_header_parses ak ds reg sig :
  word ak → ak ≠ [] → word ds → word reg → hex_text sig → sig ≠ [] →
  parseSigV4AuthHeader
    (bs "AWS4-HMAC-SHA256 Credential=" ++ ak ++ bs "/" ++ (ds ++ bs "/" ++ reg ++ bs "/s3/aws4_request")
     ++ bs ", SignedHeaders=" ++ blob_signedHeaders ++ bs ", Signature=" ++ sig)
  = Ok (mkComponents ak ds reg blob_signedHeaders sig []).
Proof.
  intros Ha Hne Hds Hr Hs Hsne.
  set (cred := bs "Credential=" ++ ak ++ bs "/" ++ ds ++ bs "/" ++ reg ++ bs "/s3/aws4_request").
  set (part2 := bs " SignedHeaders=" ++ blob_signedHeaders). set (part3 := bs " Signature=" ++ sig).
  assert (bs "AWS4-HMAC-SHA256 Credential=" ++ ak ++ bs "/" ++ (ds ++ bs "/" ++ reg ++ bs "/s3/aws4_request")
          ++ bs ", SignedHeaders=" ++ blob_signedHeaders ++ bs ", Signature=" ++ sig
          = auth_prefix ++ cred ++ ch_comma :: part2 ++ ch_comma :: part3) as ->.
  { unfold cred, part2, part3. rewrite <- !app_assoc. reflexivity. }
  assert (ch_comma ∉ cred) as Hcc.
  { unfold cred. rewrite !not_elem_of_app. split_and!; try (apply word_notin; done); apply (bool_decide_unpack _); vm_compute; exact I. }
  assert (∀ c n, auth_part (trim_spaces_left cred) c n = Ok (mkComponents ak ds reg (SignedHeaders c) (Signature c) (AmzDate c), S n)) as Hcred.
  { intros c n. change (trim_spaces_left cred) with cred. unfold auth_part. change (has_prefix cred (bs "Credential=")) with true. cbn iota.
    change (drop 11 cred) with (ak ++ bs "/" ++ ds ++ bs "/" ++ reg ++ bs "/s3/aws4_request"). by rewrite parse_scope. }
  assert (∀ c n, auth_part (trim_spaces_left part2) c n
    = Ok (mkComponents (AccessKey c) (DateStamp c) (Region c) blob_signedHeaders (Signature c) (AmzDate c), S n)) as Hpart2
    by (intros c n; reflexivity).
  assert (∀ c n, auth_part (trim_spaces_left part3) c n
    = Ok (mkComponents (AccessKey c) (DateStamp c) (Region c) (SignedHeaders c) sig (AmzDate c), S n)) as Hpart3
    by (intros c n; reflexivity).
  assert (ch_comma ∉ part2) as Hc2 by (apply (bool_decide_unpack _); vm_compute; exact I).
  assert (ch_comma ∉ part3) as Hc3.
  { unfold part3. rewrite not_elem_of_app. split; [apply (bool_decide_unpack _); vm_compute; exact I|]. by apply word_notin; [apply hex_word|]. }
  assert (part3 ≠ []) as Hne3 by done.
  unfold parseSigV4AuthHeader. clearbody cred part2 part3.
  set (rest := cred ++ _). change (has_prefix (auth_prefix ++ rest) auth_prefix) with true. cbn [negb].
  change (drop 17 (auth_prefix ++ rest)) with rest.
  assert (∃ k, length rest = S (S (S k))) as [k ->].
  { exists (length rest - 3)%nat. unfold rest. rewrite !length_app. cbn [length]. rewrite !length_app. cbn [length].
    destruct part3; [done|]. cbn [length]. lia. }
  unfold rest. rewrite auth_parts_step, Hcred by done. cbn beta iota. rewrite auth_parts_step, Hpart2 by done. cbn beta iota.
  rewrite auth_parts_last, Hpart3 by done. cbn beta iota. cbn [AccessKey DateStamp Region SignedHeaders Signature AmzDate no_components].
  rewrite (bool_decide_eq_false_2 (ak = [])), (bool_decide_eq_false_2 (sig = [])) by done. reflexivity.
Qed.

Lemma dec_digits_bound fuel n acc : (length (dec_digits fuel n acc) <= fuel + length acc)%nat.
Proof.
  revert n acc. induction fuel as [|fuel IH]; intros n acc; cbn [dec_digits]; [lia|].
  case_match; [cbn; lia|]. etrans; [apply IH|]. cbn. lia.
Qed.

Lemma length_pad_dec n z : (n <= 4)%nat → (length (pad_dec n z) <= 25)%nat.
Proof.
  intros Hn. unfold pad_dec, append_int. rewrite length_app, length_replicate.
  pose proof (dec_digits_bound 20 z []). pose proof (dec_digits_bound 20 (- z) []). cbn [length] in *.
  destruct (z <? 0); cbn [length]; lia.
Qed.

Lemma length_amz_date t : (length (amz_date t) <= 4096)%nat.
Proof.
  unfold amz_date. destruct (civil _) as [[y m] d]. rewrite !length_app. change (length (bs "T")) with 1%nat. change (length (bs "Z")) with 1%nat.
  repeat match goal with |- context [length (pad_dec ?n ?z)] =>
    let H := fresh in pose proof (length_pad_dec n z ltac:(lia)) as H; revert H; generalize (length (pad_dec n z)); intros ? H end.
  lia.
Qed.

(** ** A backend whose requests are well formed *)

(** The names of blobs: digests in hexadecimal. *)
Definition digest_name (h : bytes) : Prop := hex_text h ∧ length h = 64%nat.

(** The requests for blob [hash] go to [u], a URL whose path needs no escapes and that
    has no query; access key and region are plain words. *)
Record reaches (s : S3BlobStore) (hash : bytes) (u : URL) : Prop := {
  re_limits : (length (bucket s) <= maxS3BucketLen)%nat ∧ (length (endpoint s) <= maxS3EndpointLen)%nat;
  re_url : ∃ reqURL, request_url url_parse url_String s hash = Ok reqURL ∧ url_parse reqURL = Some u;
  re_query : UQuery u = ∅;
  re_host : printable (UHost u) ∧ (length (UHost u) <= 4096)%nat;
  re_path : plain_path (UPath u) ∧ UPath u ≠ [] ∧ (length (UPath u) <= 1024)%nat;
  re_key : accessKey s ≠ [] ∧ word (accessKey s);
  re_region : word (region s)
}.

Lemma digest_clean h : digest_name h → path_clean h = h.
Proof.
  intros [Hh Hl]. apply path_clean_canonical. assert (ch_slash ∉ h) by (by apply (hex_text_notin ch_slash)).
  split; [|by apply (hex_text_notin ch_nul)|by apply (hex_text_notin ch_backslash)].
  rewrite split_slash_single by done. constructor; [|constructor]. unfold real_seg. split_and!; intros ->; done.
Qed.

Definition signed_request (s : S3BlobStore) (u : URL) (method payloadHash : bytes) (now : Z) : http_request :=
  mkReq method (UHost u) (UPath u) ∅
    [(bs "X-Amz-Date", [amz_date now]); (bs "X-Amz-Content-Sha256", [payloadHash]);
     (bs "Authorization", [authorization s method u (amz_date now) payloadHash])].

Lemma newRequest_ok s u method hash payloadHash now :
  reaches s hash u → digest_name hash →
  newRequest url_parse url_String s method hash payloadHash now = Ok (signed_request s u method payloadHash now).
Proof.
  intros Hb Hd. pose proof Hd as [Hx Hl]. destruct (re_limits _ _ _ Hb) as [Hlb Hle].
  unfold newRequest. unfold maxS3KeyLen, maxS3BucketLen, maxS3EndpointLen in *. rewrite !(proj2 (Nat.ltb_ge _ _)) by lia. cbn [orb].
  rewrite digest_clean by done.
  assert (∃ c1 c2 c3 rest, hash = c1 :: c2 :: c3 :: rest) as (c1 & c2 & c3 & rest & E)
    by (destruct hash as [|c1 [|c2 [|c3 rest]]]; [discriminate Hl..|by repeat eexists]).
  assert (c1 ≠ ch_slash ∧ c1 ≠ ch_dot) as [Hc1 Hc2].
  { rewrite E in Hx. apply Forall_cons in Hx as [Hc _]. split; intros ->; done. }
  assert (has_prefix hash (bs "../") = false ∧ has_prefix hash (bs "/") = false) as [-> ->].
  { rewrite E. change (bs "../") with (ch_dot :: bs "./"). change (bs "/") with [ch_slash]. cbn [has_prefix]. by rewrite !decide_False. }
  rewrite !bool_decide_eq_false_2 by (rewrite E; unfold bs; discriminate). cbn [orb].
  destruct (re_url _ _ _ Hb) as (reqURL & -> & ->). unfold signed_request. by rewrite (re_query _ _ _ Hb).
Qed.

(** The verification of the gateway accepts the request, up to the clock. *)
Lemma signed_request_accepted s u method hash payloadHash now clock :
  reaches s hash u → hex_text payloadHash → payloadHash ≠ [] → (length payloadHash <= 4096)%nat →
  let req := signed_request s u method payloadHash now in
  verifySigV4Signature clock req (h_get req (bs "Authorization")) (secretKey s) = verifySigV4Timestamp clock (amz_date now).
Proof.
  intros Hb Hp Hpne Hpl req. destruct (re_path _ _ _ Hb) as (Hpp & Hph & Hplen).
  destruct (re_host _ _ _ Hb) as (Hhw & Hhl). destruct (re_key _ _ _ Hb) as [Hkne Hkw].
  set (amz := amz_date now) in *. pose proof (amz_date_word now) as Haw. pose proof (length_amz_date now) as Hal. pose proof (amz_date_ne now) as Hane.
  fold amz in Haw, Hal, Hane. set (auth := authorization s method u amz payloadHash).
  change (h_get req (bs "Authorization")) with auth.
  set (sig := hexHMAC (getSigningKey s (take 8 amz)) (getStringToSign s method u amz (take 8 amz) payloadHash)).
  assert (parseSigV4AuthHeader auth = Ok (mkComponents (accessKey s) (take 8 amz) (region s) blob_signedHeaders sig [])) as Hauth.
  { unfold auth, authorization, credential_scope. fold sig. apply auth_header_parses; [done|done|by apply Forall_take|apply Hb|apply hex_encode_text|].
    apply hex_encode_ne. unfold hmacSHA256. intros E. apply (f_equal length) in E. by rewrite length_sha256 in E. }
  assert (buildCanonicalRequest req blob_signedHeaders payloadHash = Ok (canonical_text method u amz payloadHash)) as Hcan.
  { unfold req, signed_request. fold amz auth.
    rewrite canonical_agree; [reflexivity|done|done|done|done|lia|done|by apply hex_word|done|done]. }
  assert (isPresignedSigV4 req = false) as Hpre by (apply bool_decide_eq_false_2; unfold q_get, req, signed_request; cbn [Query]; rewrite lookup_empty; discriminate).
  unfold verifySigV4Signature. rewrite Hpre, Hauth.
  change (h_get req (bs "X-Amz-Date")) with amz. change (h_get req (bs "X-Amz-Content-Sha256")) with payloadHash.
  rewrite (decide_False (P := amz = [])), (decide_False (P := payloadHash = [])) by done.
  destruct (verifySigV4Timestamp clock amz); [|done]. cbn [negb AccessKey DateStamp Region SignedHeaders Signature].
  unfold verifySigV4SignatureWithPayload. cbn [AccessKey DateStamp Region SignedHeaders Signature AmzDate]. rewrite Hcan.
  apply bool_decide_eq_true_2. unfold sig, hexHMAC, computeSignature, getSigningKey, deriveSigningKey, getStringToSign, buildStringToSign, credential_scope, hexSHA256, HashBytes.
  by rewrite <- !app_assoc.
Qed.

(** C15: The remote backend speaks the protocol of the project's own gateway.  For a
    blob named by a digest and a backend whose requests for it go to a URL without
    query, with a path of unreserved characters and slashes (path or virtual-host
    style, any host and port, at most 1024 bytes of path) and whose access key and
    region are plain words: each request it sends passes the gateway's signature
    verification under its secret whenever the clocks agree within the skew allowed
    there, and carries the digest of its body.  Against any service, a put sends the
    whole content in one request and succeeds exactly on 200, sends nothing when the
    content cannot be read or exceeds MaxFileSize; a get returns exactly the body of
    a 200 and reports a 404 as a missing blob; a delete succeeds exactly on 200, 204
    and 404; a connection that fails is ECONNREFUSED and every other status EIO. *)
Theorem s3_backend_requests {R} (Do : http_request → bytes → R → option (Z * bytes) * R) s u now hash (st : R) :
  digest_name hash → reaches s hash u →
  let q method body := signed_request s u method (hexSHA256 body) now in
  (∀ method body clock, verifySigV4Timestamp clock (amz_date now) = true →
     verifySigV4Signature clock (q method body) (h_get (q method body) (bs "Authorization")) (secretKey s) = true
     ∧ h_get (q method body) (bs "X-Amz-Content-Sha256") = hexSHA256 body)
  ∧ (∀ r c, read_all r = Ok c → Z.of_nat (length c) <= MaxFileSize →
       s3blob_put url_parse url_String Do s now hash r st
       = (match (Do (q (bs "PUT") c) c st).1 with Some (status, _) => if decide (status = 200) then Ok tt else Err (Errno EIO) | None => Err (Errno ECONNREFUSED) end,
          (Do (q (bs "PUT") c) c st).2))
  ∧ (∀ r, (∀ c, read_all r = Ok c → MaxFileSize < Z.of_nat (length c)) →
       is_ok (s3blob_put url_parse url_String Do s now hash r st).1 = false ∧ (s3blob_put url_parse url_String Do s now hash r st).2 = st)
  ∧ s3blob_get url_parse url_String Do s now hash st
    = (match (Do (q (bs "GET") []) [] st).1 with
       | Some (status, body) => if decide (status = 200) then Ok body else if decide (status = 404) then Err (Errno ENOENT) else Err (Errno EIO)
       | None => Err (Errno ECONNREFUSED) end,
       (Do (q (bs "GET") []) [] st).2)
  ∧ s3blob_delete url_parse url_String Do s now hash st
    = (match (Do (q (bs "DELETE") []) [] st).1 with
       | Some (status, _) => if bool_decide (status ∈ [200; 204; 404]) then Ok tt else Err (Errno EIO) | None => Err (Errno ECONNREFUSED) end,
       (Do (q (bs "DELETE") []) [] st).2).
Proof.
  intros Hd Hb q. split_and!.
  - intros method body clock Hc. split; [|reflexivity]. unfold q. rewrite (signed_request_accepted s u method hash); [exact Hc|done|apply hex_encode_text| |].
    + apply hex_encode_ne. intros E. apply (f_equal length) in E. by rewrite length_sha256 in E.
    + unfold hexSHA256. rewrite length_hex_encode, length_sha256. lia.
  - intros r c Hr Hl. unfold s3blob_put, spool_blob. unfold read_all in Hr. destruct (rd_err r); [done|]. injection Hr as ->.
    rewrite (proj2 (Z.ltb_ge _ _)) by done. rewrite (newRequest_ok s u) by done. fold (q (bs "PUT") c).
    destruct (Do (q (bs "PUT") c) c st) as [[[status b]|] st']; [|done]. cbn [fst snd]. f_equal.
    destruct (Z.eqb_spec status 200); by case_decide.
  - intros r Hr. unfold s3blob_put, spool_blob. unfold read_all in Hr. destruct (rd_err r) as [e|]; [by destruct (_ <? _)|].
    by rewrite (proj2 (Z.ltb_lt _ _)) by (by apply Hr).
  - unfold s3blob_get, blob_emptyStringSHA256. rewrite (newRequest_ok s u) by done. fold (q (bs "GET") []).
    destruct (Do (q (bs "GET") []) [] st) as [[[status b]|] st']; [|done]. cbn [fst snd]. f_equal.
    destruct (Z.eqb_spec status 404) as [->|H1]; [done|]. rewrite (decide_False (P := status = 404)) by done. destruct (Z.eqb_spec status 200); by case_decide.
  - unfold s3blob_delete, blob_emptyStringSHA256. rewrite (newRequest_ok s u) by done. fold (q (bs "DELETE") []).
    destruct (Do (q (bs "DELETE") []) [] st) as [[[status b]|] st']; [|done]. cbn [fst snd]. f_equal.
    destruct (Z.eqb_spec status 404) as [->|H1]; [done|]. destruct (Z.eqb_spec status 204) as [->|H2]; [done|].
    destruct (Z.eqb_spec status 200) as [->|H3]; [done|]. rewrite bool_decide_eq_false_2; [done|]. set_solver.
Qed.
End Accepted.

(** ** Concrete backends *)
Definition w_url_parse (s : bytes) : option URL :=
  match cut ch_colon s with
  | (scheme, Some (_ :: _ :: r)) =>
      match index_byte ch_slash r with Some i => Some (mkURL scheme (take i r) (drop i r) ∅) | None => Some (mkURL scheme r [] ∅) end
  | _ => None
  end.
Definition w_url_String (u : URL) : bytes := UScheme u ++ bs "://" ++ UHost u ++ UPath u.

(** Path style with a port and a base path, and virtual-host style. *)
Definition w_backend (style : bool) : S3BlobStore :=
  mkS3Blob (if style then bs "https://s3.local:9000/base" else bs "https://s3.local") (bs "us-east-1") (bs "momo") (bs "AK") (bs "secret") style.
Definition w_digest : bytes := replicate 64 Byte.x61.
Definition w_now : Z := 1369353600 * 10 ^ 9.
Definition w_target (style : bool) : URL :=
  if style then mkURL (bs "https") (bs "s3.local:9000") (bs "/base/momo/" ++ w_digest) ∅
  else mkURL (bs "https") (bs "momo.s3.local") (bs "/" ++ w_digest) ∅.

(** A service that keeps what it is sent and answers with [status]. *)
Definition w_service (status : Z) (req : http_request) (body : bytes) (st : list (http_request * bytes)) : option (Z * bytes) * list (http_request * bytes) :=
  (Some (status, bs "out"), (req, body) :: st).

Example amz_date_format : amz_date (w_now + 3723 * 10 ^ 9) = bs "20130524T010203Z".
Proof. vm_compute. reflexivity. Qed.

Lemma w_reaches style : reaches w_url_parse w_url_String (w_backend style) w_digest (w_target style).
Proof.
  split.
  - destruct style; vm_compute; split; lia.
  - destruct style; eexists; (split; [vm_compute; reflexivity|vm_compute; reflexivity]).
  - by destruct style.
  - destruct style; (split; [apply (bool_decide_unpack _); vm_compute; exact I|vm_compute; lia]).
  - destruct style; (split_and!; [apply (bool_decide_unpack _); vm_compute; exact I|done|vm_compute; lia]).
  - split; [done|apply (bool_decide_unpack _); vm_compute; exact I].
  - apply (bool_decide_unpack _). vm_compute. exact I.
Qed.

Lemma s3_backend_requests_witness :
  let q := signed_request (w_backend true) (w_target true) (bs "PUT") (hexSHA256 (bs "hi")) w_now in
  verifySigV4Signature (w_now + 1) q (h_get q (bs "Authorization")) (bs "secret") = true
  ∧ s3blob_put w_url_parse w_url_String (w_service 200) (w_backend true) w_now w_digest (reader_of (bs "hi")) [] = (Ok tt, [(q, bs "hi")])
  ∧ (s3blob_get w_url_parse w_url_String (w_service 200) (w_backend true) w_now w_digest []).1 = Ok (bs "out")
  ∧ (s3blob_delete w_url_parse w_url_String (w_service 503) (w_backend true) w_now w_digest []).1 = Err (Errno EIO).
Proof.
  intros q. assert (digest_name w_digest) as Hd by (split; [apply (bool_decide_unpack _); vm_compute; exact I|reflexivity]).
  destruct (s3_backend_requests w_url_parse w_url_String (w_service 200) (w_backend true) (w_target true) w_now w_digest [] Hd (w_reaches true))
    as (Hacc & Hput & _ & Hget & _).
  destruct (s3_backend_requests w_url_parse w_url_String (w_service 503) (w_backend true) (w_target true) w_now w_digest [] Hd (w_reaches true))
    as (_ & _ & _ & _ & Hdel).
  split_and!.
  - exact (proj1 (Hacc (bs "PUT") (bs "hi") (w_now + 1) ltac:(vm_compute; reflexivity))).
  - exact (Hput (reader_of (bs "hi")) (bs "hi") eq_refl ltac:(vm_compute; discriminate)).
  - rewrite Hget. reflexivity.
  - rewrite Hdel. reflexivity.
Defined.
