(* ===== verification/Factory.v ===== *)
(** * Construction of a store (src/src/storage/factory.go)

    Which backend the configuration selects, what it is wrapped in, which
    durability barrier guards its writes and which background loops start.  The
    outcomes of the constructors that touch the disk are arguments; a backend is
    described by what it was built from.  [SetSyncEnabled] and [DurabilityOps]
    are optional methods in the source: a backend without them is left alone. *)
From S2P Require Import Prelude GoText Hashes Paths LocalStore Durability Crypto Adaptive MomoFs Config S3Blob.
Open Scope Z_scope.

Inductive backend :=
  | LocalBackend (base : bytes) (syncEnabled : bool)
  | S3Backend (s : S3BlobStore)
  | RawBackend
  | VolumeBackend (dir : bytes) (maxSize : Z)
  | AdaptiveBackend (dir : bytes) (maxSize : Z) (base : bytes) (threshold : Z)
  | EncryptedBackend (c : Cipher) (inner : backend).

(** The methods of local_blobstore.go that encrypted_blobstore.go forwards. *)
Fixpoint SetSyncEnabled (on : bool) (b : backend) : backend :=
  match b with
  | LocalBackend base _ => LocalBackend base on
  | EncryptedBackend c inner => EncryptedBackend c (SetSyncEnabled on inner)
  | _ => b
  end.

(** The directory a [SyncBlob] of the backend reaches, if any. *)
Fixpoint durability_ops (b : backend) : option bytes :=
  match b with
  | LocalBackend base _ => Some base
  | EncryptedBackend _ inner => durability_ops inner
  | _ => None
  end.

Definition durabilityRegistry (name : bytes) : option DurabilityMode :=
  if decide (name = DurabilityNameFSync) then Some DurabilityFSync
  else if decide (name = DurabilityNameGroupCommit) then Some DurabilityGroupCommit
  else if decide (name = DurabilityNameNone) then Some DurabilityNone
  else None.

(** A store as it was built, with the settings of its loops, in nanoseconds. *)
Record built_store := mkBuilt {
  b_blobs : backend; b_barrier : DurabilityMode;
  b_gc : Z; b_retention : Z; b_scrub : Z; b_verify : bool
}.
Inductive built :=
  | Built (s : built_store)
  | Failed (e : error) (closed : list backend)
  | Panicked.

Definition volumeDir (data : bytes) : bytes := path_join data (bs "volumes").

Section Construction.
Variable url_parse : bytes → option URL.
(** What the disk answers: the error of each constructor, if any. *)
Variables new_local new_raw new_volume new_cas : option error.

Definition constructed (e : option error) (b : backend) : result backend := match e with None => Ok b | Some e => Err e end.

(** The switch over the backends, with the backends it closed. *)
Definition selectBackend (cfg : ConfigurationStorage) (data : bytes) : result backend * list backend :=
  let name := Backend cfg in
  let volume := VolumeBackend (volumeDir data) (VolumeSize cfg) in
  if decide (name = [] ∨ name = BackendLocal ∨ name = BackendNFS) then (constructed new_local (LocalBackend data true), [])
  else if decide (name = BackendS3) then (let! s := NewS3BlobStore url_parse cfg in Ok (S3Backend s), [])
  else if decide (name = BackendRaw) then (constructed new_raw RawBackend, [])
  else if decide (name = BackendVolume) then (constructed new_volume volume, [])
  else if decide (name = BackendAdaptive) then
    match new_volume with
    | Some e => (Err e, [])
    | None =>
        match new_local with
        | Some e => (Err e, [volume])
        | None =>
            (Ok (AdaptiveBackend (volumeDir data) (VolumeSize cfg) data
                   (if AdaptiveThreshold cfg <=? 0 then DefaultAdaptiveThreshold else AdaptiveThreshold cfg)), [])
        end
    end
  else (einval, []).

Definition seconds (n dflt : Z) : Z := let t := int64 (n * 10 ^ 9) in if t <=? 0 then dflt * 10 ^ 9 else t.

Definition buildCAS (cfg : ConfigurationStorage) (data encKeyHex : bytes) : built :=
  match selectBackend cfg data with
  | (Err e, closed) => Failed e closed
  | (Ok blobs, _) =>
      let wrapped := match encKeyHex with
                     | [] => Ok blobs
                     | _ => let! c := NewCipherFromHex encKeyHex in Ok (EncryptedBackend c blobs)
                     end in
      match wrapped with
      | Err e => Failed e [blobs]
      | Ok blobs =>
          let durabilityName := if decide (SDurability cfg = []) then DurabilityNameFSync else SDurability cfg in
          let blobs := SetSyncEnabled false blobs in
          match new_cas with
          | Some e => Failed e []
          | None =>
              match durabilityRegistry durabilityName with
              | None => Panicked
              | Some mode =>
                  Built (mkBuilt blobs mode (seconds (GCInterval cfg) 300) (seconds (TombstoneRetention cfg) 86400)
                           (seconds (ScrubInterval cfg) 3600) (SVerifyOnRead cfg))
              end
          end
      end
  end.

Definition NewStore : ConfigurationStorage → bytes → bytes → built := buildCAS.

Record RebuildConfig := mkRebuild { RC_Interval : Z; RC_Workers : Z; RC_Target : Z; RC_DegradedRead : bool }.

(** The store and the rebuild loop it starts; [src] tells whether there is a source of
    peers. *)
Definition NewStoreWithRebuild (cfg : ConfigurationStorage) (data encKeyHex : bytes) (src : bool) (target : Z)
    : built * option RebuildConfig :=
  match buildCAS cfg data encKeyHex with
  | Built s =>
      (Built s, if src && (0 <? target)
                then Some (mkRebuild (int64 (RebuildInterval cfg * 10 ^ 9)) (RebuildWorkers cfg) target (DegradedRead cfg)) else None)
  | r => (r, None)
  end.

(** * Theorems *)

Lemma seconds_positive n d : 0 < d → 0 < seconds n d.
Proof. intros Hd. unfold seconds. destruct (Z.leb_spec (int64 (n * 10 ^ 9)) 0); lia. Qed.

Lemma storageDurabilityNames_known name : name ∈ storageDurabilityNames → is_Some (durabilityRegistry name).
Proof. unfold storageDurabilityNames. rewrite !elem_of_cons, elem_of_nil. intros Hin. unfold durabilityRegistry. repeat case_decide; eauto. tauto. Qed.

Lemma registry_fsync name : durabilityRegistry name = Some DurabilityFSync → name = DurabilityNameFSync.
Proof. unfold durabilityRegistry. by repeat case_decide. Qed.

Lemma SetSyncEnabled_idemp b : SetSyncEnabled false (SetSyncEnabled false b) = SetSyncEnabled false b.
Proof. induction b; cbn; congruence. Qed.

Lemma selectBackend_supported cfg data :
  Backend cfg ∈ backends → new_local = None → new_raw = None → new_volume = None →
  (Backend cfg = BackendS3 → is_ok (NewS3BlobStore url_parse cfg) = true) → ∃ b, (selectBackend cfg data).1 = Ok b.
Proof.
  intros Hin Hl Hr Hv Hs3. unfold selectBackend, constructed. rewrite Hl, Hr, Hv.
  repeat case_decide; cbn; eauto.
  - destruct (NewS3BlobStore url_parse cfg); [eauto|]. assert (false = true) by (by apply Hs3). done.
  - exfalso. unfold backends in Hin. rewrite !elem_of_cons in Hin. destruct Hin as [?|[?|[?|[?|[?|[?|?%elem_of_nil]]]]]]; tauto.
Qed.


(** A store is built for every configuration the loader accepts whenever the
    constructors it needs succeed: no accepted backend is unsupported and no accepted
    durability name is unknown; the loops have positive periods and per-blob
    syncing is left to the barrier. *)
Theorem accepted_config_builds cfg data encKeyHex :
  storage_ok cfg → new_local = None → new_raw = None → new_volume = None → new_cas = None →
  (Backend cfg = BackendS3 → is_ok (NewS3BlobStore url_parse cfg) = true) →
  (encKeyHex = [] ∨ is_ok (NewCipherFromHex encKeyHex) = true) →
  ∃ s, buildCAS cfg data encKeyHex = Built s
  ∧ 0 < b_gc s ∧ 0 < b_retention s ∧ 0 < b_scrub s
  ∧ (b_barrier s = DurabilityFSync ↔ SDurability cfg = [] ∨ SDurability cfg = DurabilityNameFSync)
  ∧ SetSyncEnabled false (b_blobs s) = b_blobs s.
Proof.
  intros Hok Hl Hr Hv Hc Hs3 Henc. unfold buildCAS.
  destruct (selectBackend_supported cfg data (so_backend _ Hok) Hl Hr Hv Hs3) as [b Eb].
  destruct (selectBackend cfg data) as [res closed]. cbn in Eb. subst res. rewrite Hc.
  set (name := if decide (SDurability cfg = []) then _ else _).
  assert (is_Some (durabilityRegistry name)) as [mode Em].
  { unfold name. case_decide; [by eexists|]. apply storageDurabilityNames_known. by destruct (so_durability _ Hok). }
  assert (mode = DurabilityFSync ↔ SDurability cfg = [] ∨ SDurability cfg = DurabilityNameFSync) as Hmode.
  { split.
    - intros ->. apply registry_fsync in Em. unfold name in Em. case_decide; auto.
    - intros [E|E]; unfold name in Em; rewrite E in Em; vm_compute in Em; congruence. }
  assert (∃ blobs, match encKeyHex with [] => Ok b | _ => let! c := NewCipherFromHex encKeyHex in Ok (EncryptedBackend c b) end = Ok blobs)
    as [blobs ->].
  { destruct Henc as [-> | Henc]; [by eexists|]. destruct encKeyHex; [by eexists|]. destruct (NewCipherFromHex _); [by eexists|done]. }
  rewrite Em. eexists. split; [reflexivity|]. cbn [b_gc b_retention b_scrub b_barrier b_blobs].
  split; [by apply seconds_positive|]. split; [by apply seconds_positive|]. split; [by apply seconds_positive|].
  split; [exact Hmode|apply SetSyncEnabled_idemp].
Qed.
End Construction.

(** ** The blob half of a write *)

(** [Commit] of the barrier the store was built with, over the directory. *)
Definition barrier_Commit (s : built_store) (o : os) (fs : files) (hash : bytes) : result unit * files :=
  let ops {A : Type} (f : A) : option A := (λ _, f) <$> durability_ops (b_blobs s) in
  match b_barrier s with
  | DurabilityFSync => fsync_Commit (ops (SyncBlob o)) fs hash
  | DurabilityGroupCommit => let '(r, (_, fs)) := group_Commit (ops (SyncDir o)) newGroupCommitBarrier fs hash in (r, fs)
  | DurabilityNone => none_Commit fs hash
  end.

(** What [PutWithMetadata] does with new content on the directory backend before it
    touches the metadata: [PutBlob], then the barrier; an error of either is the
    caller's. *)
Definition write_blob (s : built_store) (sync : bool) (o : os) (fs : files) (hash : bytes) (content : reader) : result unit * files :=
  match local_put o sync hash content with
  | (Err e, ops) => (Err e, run_ops fs ops)
  | (Ok _, ops) => barrier_Commit s o (run_ops fs ops) hash
  end.


(** ** Examples *)
Definition w_build (backend : bytes) : built :=
  let c := defaultStorageConfig in
  buildCAS (λ _, None) None None None None
    (mkStorage backend (GCInterval c) (TombstoneRetention c) (ScrubInterval c) (SVerifyOnRead c) (RebuildInterval c) (DegradedRead c)
       (RebuildWorkers c) (SDurability c) (AdaptiveThreshold c) (VolumeSize c) [] [] [] [] [] [] [] false false []) (bs "/data") [].

(** With the raw backend the fsync barrier has nothing to sync. *)
Example raw_barrier_empty :
  ∃ s, w_build BackendRaw = Built s ∧ b_barrier s = DurabilityFSync ∧ durability_ops (b_blobs s) = None.
Proof. eexists. split; [vm_compute; reflexivity|by split]. Qed.


(** With the group commit, which syncs the directory only, the same write can lose its
    content. *)
Example group_commit_not_durable :
  let s := mkBuilt (LocalBackend (bs "/data") false) DurabilityGroupCommit 1 1 1 true in
  let w := write_blob s false lo_os ∅ lo_key (reader_of lo_body) in
  w.1 = Ok tt ∧ (fsynced <$> w.2 !! blobPath lo_key) = Some false.
Proof. vm_compute. split; reflexivity. Qed.

